(* ===== verification/_CoqProject ===== *)
-Q . S2P
Prelude.v
Bin.v
RustStr.v
Limits.v
Media.v
Payloads.v
WirePolicy.v
WireResync.v
WireAttach.v
WireSticker.v
StickerDocs.v
StickerPending.v
Envelope.v
Frame.v
Onion.v
Policy.v
RateLimit.v
Seen.v
Heal.v
Socks.v
SendPool.v
Conn.v
Ephemeral.v
View.v
Hex.v
PairingQr.v
Control.v
Circumvention.v
OnionKeys.v
Ledger.v
Settings.v
Sync.v
Session.v
SignalStores.v
EngineTypes.v
Persona.v
TransportTypes.v
Args.v
Transport.v
TransportFacts.v
Queue.v
Wipe.v
StickerStore.v
Attach.v
Rows.v
AttachSafety.v
Messages.v
Caps.v
Engine.v
StickerEngine.v
Sends.v
Profiles.v
Pairing.v
Burn.v
Writes.v
Sweep.v
Inbound.v
Runs.v
PairingFacts.v
EngineWf.v
Vault.v
MemAudit.v
FfiTypes.v
Ffi.v
FfiFacts.v
Daemon.v
CliOut.v
FfiTransport.v
Cli.v
CliFacts.v
Latency.v
Harness.v
TransportHosting.v
