(* ===== verification/Prelude.v ===== *)
(** * s//chat6 core: a verification development

    The program is the Rust core of a peer-to-peer messenger over Tor onion
    services: two paired devices exchange encrypted envelopes, keep a local
    ledger of both directions, repair gaps by comparing receive views, agree
    on chat rules, and move attachments and stickers in chunks.  This library
    models its data, codecs and state changes as executable definitions and
    proves what makes them correct.

    ** How the parts interact

    Two devices meet through pairing: one publishes an offer, the other
    accepts it, and the accepter's first frame opens a request at the
    inviter ([Pairing]).  An outgoing payload passes the gate
    ([Engine.gate_outbound]: session, relationship state, closing, peer
    capabilities, chat rules), takes the next sequence number
    ([Ledger.next_out_seq]), is encoded as an envelope ([Envelope]),
    encrypted once per message id ([Session.encrypt]), padded into a record
    ([Frame.build_record]), written to ledger and outbox, and handed to the
    transport; what the transport does not take stays queued for the drain.
    The transport queues it to the worker of the destination ([SendPool]),
    which connects through the SOCKS proxy ([Socks]) and answers every write.
    The transport hosts the onion services ([Transport], [OnionKeys]) over
    the control port ([Control]) under a supervisor that heals the daemon
    ([Heal]).  An incoming frame is read off a bounded connection ([Conn],
    [Frame.read_frame]), checked against the duplicate ring ([Seen]) and
    handed to the vault
    ([Vault.ingest_drop]): locked, it goes to the queue at rest ([Queue]);
    unlocked, it is routed to its relationship ([Pairing.ingest_frame]),
    decrypted once ([Session.decrypt]), and taken through the gates of
    [Inbound.handle_plaintext] to the feature handlers ([Messages],
    [Attach], [Policy], [StickerEngine], [Profiles], [Ephemeral]).  A gap in
    the sequence numbers triggers a RESYNC_REQ built from the receive view
    ([View], [WireResync]); the peer settles or retransmits
    ([Sync.handle_request], [Engine.apply_resync_req]).  The sweep and the
    burn erase what has expired or was closed ([Burn]).  The client drives
    all of it through one object ([Ffi.SchatCore]); the headless daemon
    drives the vault directly ([Daemon]), and every other command of the
    command line is a process over the same instance directory ([Cli]).

    ** Files and the code they model

    - [Prelude]: [Result] with its bind notation, machine-width integers
      (u8 to u64 as [Z] with the wrap-around written out, [as_i64] and
      [as_u64] for SQLite's signed columns), bytes, big-endian encodings and
      the lemmas and tactics every file shares.
    - wire-types crate: [Bin] (bin.rs, error.rs, the [WirePayload] trait as a
      class with its laws, and the [wire] hint database that drives the
      codec proofs), [RustStr] (UTF-8 strings as the standard library
      defines them), [Limits] (limits.rs, and core/src/limits.rs), [Payloads]
      (msg, edit, delete, contact, read, presence, typing, pref, profile),
      [WirePolicy] (policy.rs, caps.rs), [WireResync] (resync.rs),
      [WireAttach] (attach.rs), [WireSticker] and [StickerDocs] (sticker.rs),
      [Envelope] (envelope.rs).
    - core crate, pure components: [Frame] (wire/frame.rs, wire/envelope.rs,
      transport/framing.rs), [Onion] (transport/onion/address.rs), [Policy]
      (policy/mod.rs, machine.rs, store.rs), [RateLimit] (ratelimit.rs),
      [Seen] (transport/seen.rs), [Ephemeral] (typing, presence), [View] (the
      receive view), [Media] (media/), [Hex] (the hexadecimal codec of
      store/mod.rs and stickers/tokens.rs), [PairingQr] (pairing/qr.rs,
      pairing/sas.rs), [StickerPending] (the buffers of stickers/mod.rs).
    - core crate, the store: [Ledger] is the database as a record of finite
      maps keyed like the SQL tables, with one definition per repository
      method of store/messages.rs, outbox.rs, inbound_seqs.rs, tombstones.rs
      and relationships.rs; an UPDATE or DELETE is an update of the map, an
      ORDER BY is a merge sort, an integer column is read back through
      [as_i64].  [Settings] is store/settings.rs, [StickerStore]
      store/stickers.rs, sticker_items.rs, sticker_cache.rs with
      stickers/packs.rs and keys.rs; store/attachments.rs and store/chunks.rs
      are in [Attach], store/profiles.rs in [Profiles].  [SignalStores] holds
      the tables behind libsignal (session/stores/).  [Rows] is the way from
      the columns of a SELECT to those rows (the row_to_ functions) and from
      the rows to the bound parameters; [Sweep] is Sync::sweep_expired over
      the repositories, with store/clock.rs.
    - core crate, the layers above: [Sync] (sync/), [Session]
      (session/mod.rs, session/error.rs), [EngineTypes] (events, errors, the
      policy columns of a relationship row), [Attach] and [AttachSafety]
      (attach/mod.rs), [Messages] (messages/, the side effects in
      policy/store.rs, the edit, delete, delete-all and read handlers),
      [Caps] (caps/mod.rs), [Engine] (engine/send.rs, engine/drain.rs,
      close/mod.rs, policy/engine.rs, transport/sending.rs, and the resync
      and policy handlers of engine/inbound.rs) in a state-and-error monad
      over the database, the ratchet, the network and the random generator;
      in the same monad [StickerEngine] (stickers/send.rs, inbound.rs),
      [Sends] (send_attachment, send_text), [Profiles] (profile/mod.rs),
      [Persona] (session/persona.rs), [Pairing] (pairing/), [Burn]
      (engine/burn.rs, the sweep of engine/drain.rs), [Inbound]
      (handle_plaintext, engine/lifecycle.rs).
    - core crate, the transport: [Heal] (transport/heal.rs, the backoff of
      socks/mod.rs), [Socks] (socks/handshake.rs), [SendPool]
      (socks/sender.rs: the worker of a destination as a step machine over
      what it finds, and the table of workers), [Conn] (inbound.rs),
      [Control] (control/), [Circumvention] (circumvention.rs), [OnionKeys]
      (onion/keystore.rs, keygen.rs, client_auth.rs, torrc.rs, manager.rs),
      [TransportTypes] (status.rs, killswitch.rs, and daemon.rs with the
      [TorDaemon] trait as a class), [Transport] (mod.rs, services.rs,
      policy.rs, lifecycle.rs: one function per operation and per iteration
      of the health loop), [TransportFacts], and [TransportHosting] (the
      transport as an instance of [Pairing.Hosting]).
    - core crate, the lock boundary: [Queue] (vault/queue.rs, every
      file-system call of which may fail, a write after a part of its data), [Wipe] (vault/wipe.rs), [Vault]
      (vault/mod.rs, with the open of store/mod.rs and the migration ladder
      of store/schema.rs), [MemAudit] (the memory audit of vault/audit.rs on
      Linux, over the kernel's two files).
    - core crate, the client boundary: [FfiTypes] (the records, events, errors
      and identifiers of ffi/), [Ffi] (every exported method over the vault
      behind its mutex, which a panic poisons), [FfiTransport]
      (ffi/transport.rs, the event pump, the Chutney helper of
      transport/daemon.rs), [FfiFacts].
    - cli crate: [Args] (args.rs, the parser over the words of the command
      line), [Daemon] (commands/daemon.rs as events over the vault and the
      marker file, lock and unlock of commands/vault.rs, the key file),
      [CliOut] (what util.rs and the commands print), [Cli] (main.rs,
      util.rs and every one-shot command in a monad whose state is the
      process over its instance directory, and whose stop is an exit code or
      a panic; the transport is the class [CliTransport], and a path the user
      names may be that of the database, the key file or the marker),
      [CliFacts].
    - test-harness crate: [Latency] (latency.rs, the percentiles over binary64
      numbers, the budgets) and [Harness] (reliability.rs, the delivery
      tracker and its verdict, the pumping of two engines, the raw envelopes,
      and the waiting of lib.rs).
    - facts across components: [Writes] (the database writes the engine's
      calls are made of, closed under composition), [Runs] (every engine
      method as a sequence of such writes), [PairingFacts], [EngineWf] (the
      engine's calls as a step relation and its invariant).

    ** What is a parameter

    Unicode NFC ([nfc]), SHA-256 and SHA3-256, the signature check, libsignal's
    ratchet ([message_encrypt], [message_decrypt], [message_parses] over an
    abstract state), the transport's sender over an abstract network state
    for the engine, and the CSPRNG.  In the transport: the outcome of a
    control command and of dialling ([TransportTypes.ControlPort]), the
    operating system below the subprocess daemon, file errors ([io_error]),
    and what a socket delivers.  The classes
    [Persona.PairingCrypto] (libsignal's key operations, base32, base58, the
    hashes and the generator), [Pairing.Hosting] (the transport's onion
    services), [Media.ImageCodecs] (the image decoders and encoders),
    [OnionKeys.OnionCrypto] (SHA-512, SHA3-256, the base encodings and the
    base-point multiplication below the key generation),
    [Queue.Aead] (AES-256-GCM), [Vault.SqlCipher] (the keyed database
    file), [Cli.RawFile] (that file as bytes), [Rows.Sql] (the column
    conversions of the database binding) and
    [Cli.CliTransport] (the transport as a command sees it) state what the
    code calls; what it relies on of them is in the
    classes [Queue.AeadLaws], [Vault.SqlCipherLaws], [FfiFacts.LadderLaws]
    (the migrations keep a store well formed), [OnionKeys.OnionCryptoLaws]
    and [Rows.SqlLaws], in
    the hypothesis of [MemAudit.audit_verdict] that a read of the process's
    memory gives the bytes up to the first unreadable one, and in the named
    hypotheses of [PairingFacts] ([crypto_sizes], [bundle_local],
    [prekey_local], [failed_keeps_keys]).  Each is instantiated by concrete
    functions in the witnesses.

    ** What the theorems show

    - Codecs: envelopes, records, frame streams, attachment heads, sticker
      control messages, signed pack documents, onion addresses, pairing
      payloads and queue blobs round trip, and everything a decoder accepts
      is well formed ([envelope_roundtrip], [decoded_envelope_sound],
      [stream_roundtrip]; [attach_head_codec], [sticker_ctrl_codec],
      [decode_signed_iff], [record_roundtrip], [onion_address_codec],
      [qr_codec], [decode_encode_blob]).
    - The whole engine: from any well-formed state every call of the engine
      and of pairing, however it ends, leaves the tables well typed and
      within their caps ([reachable_engine_wf]); a frame counts once, even
      when its handling fails, for as long as its relationship is not erased
      ([frame_counts_once]).
    - Delivery: a reported send is in the ledger as the transport answered,
      transmitted, or queued with the record of its cached ciphertext in the
      outbox; resync settles exactly the outbound rows the peer holds and
      retransmits the bytes stored for the others; the advertised view is exact;
      delivery states only advance; the drains account for every row
      ([send_never_lost], [retransmission_immutable], [resync_settles],
      [receive_view_sound], [resync_hash_agrees], [delivery_lifecycle],
      [drain_accounts], [drain_fail_fast], [outbound_seq_monotone],
      [ingest_stores], [ingest_idempotent], [outbound_gate]).
    - Pairing: both ends of the ceremony agree on the relationship and its
      safety code, a failed accept leaves nothing, a dropped intro keeps the
      offer ([ceremony_agrees], [accept_fails_closed],
      [dropped_intro_keeps_offer], [migration_moves_persona]).
    - The lock: what arrives while locked and fits the queue has the effect
      it would have had unlocked, a wrong key changes nothing, the queue at
      rest is a bounded first-in first-out queue whatever calls of the file
      system fail, and the wipe leaves nothing it does not
      report ([locked_frames_deferred], [lock_boundary],
      [queue_refines_fifo], [queue_caps_hold], [panic_wipe_erases]).
    - The client boundary: every store-backed call fails closed while locked,
      receiving in two calls is the vault's own ingest, any sequence of calls,
      from a fresh install on and through complete wipes, keeps the vault and
      its store well formed, a panic under the guard
      disables the lock; ids and events reach the client unambiguously and
      the listener gets the newest events ([boundary_fails_closed],
      [client_receive_refines], [reachable_core_wf], [panic_disables_lock],
      [engine_event_ffi_inj], [listener_gets_newest]).
    - The headless daemon obeys the lock command at its next tick that can
      read the marker (one that cannot takes it for absent), and a key
      file that is not the store's is installed unchecked
      ([lock_command_obeyed], [failed_stat_reopens], [key_file_overwritten], [text_record_carries],
      [chutney_lines_sound]).
    - The command line: every set of arguments has a command line the parser
      reads back; while the lock marker is there and can be read no command
      but [unlock] and [panic-wipe] opens or changes the store; any sequence
      of one-shot command lines other than the wipe and the change of the key,
      whose [--out] is not a file of the instance, keeps the store sealed and
      well formed; a command takes the transport down again unless a late usage error or a
      panic cuts it short ([args_roundtrip], [marker_refuses_commands],
      [commands_keep_store], [transport_taken_down]).
    - The store: what an INSERT binds is read back as the row of the model's
      table, and whatever a conversion accepts is of its type; a sweep erases
      exactly what has expired, fails what the queue gave up on, counts what
      went, and does nothing twice; no two settings share a key
      ([inserted_rows_read_back], [row_to_message_typed], [sweep_pass_exact],
      [setting_keys_distinct]).
    - Measuring: the memory audit reports zero exactly when no region it
      visits holds a live copy of the canary; the reliability verdict holds
      exactly for an honest run; the percentile rank is exact for up to 256
      samples, and the budgets pass what meets them ([audit_verdict],
      [verdict_exact], [rank_index_exact], [gates_pass]).
    - Session: one id, one ciphertext; replays never reach the ratchet; a
      broken session fails closed ([encrypt_immutable], [replay_dropped],
      [broken_fails_closed]).
    - Chat rules: negotiation converges, rules change only through a pending
      proposal, capability wants stay mirrored, reachable states persist, the
      engine's calls refine the machine, and crossed proposals diverge
      ([negotiation], [rules_change], [capability_mirror],
      [reachable_policy_persists], [engine_refines_policy_machine],
      [crossed_proposals]).
    - Attachments and messages: chunks after the head complete in any order,
      what the client is handed hashes to what was announced, orphan storage
      is bounded, a head between its chunks stalls; edits are bounded, deletes
      erase, a shorter TTL only shrinks expiries ([transfer_any_order],
      [attachment_integrity], [orphan_caps_hold], [mixed_order_stalls],
      [edits_bounded], [delete_erases], [delete_all_cuts],
      [clamp_only_shrinks]); no still image leaves without being re-encoded
      ([media_gate]), and image preparation ends with a picture within its
      bounds ([reencode_ladder], [prepared_sticker_fits]).
    - Stickers: transfers reassemble within bounded buffers, packs travel
      intact, the cache sweep keeps what it should ([transfer_reassembles],
      [pending_bounded], [pack_transfer], [sweep_cache_spec]).
    - Erasure: a burn leaves nothing of the relationship in the tables it
      names, the chunks of its attachments included, and touches no other, and a closing contact is burned in the end
      ([burn_erases], [close_settles]).
    - Abuse limits: the token bucket's rate bound and the duplicate ring as a
      least-recently-seen cache ([bucket_rate_bound], [ring_refines_lru],
      [duplicate_recognised]).
    - Transport, outbound: a worker answers every write once and in order,
      after at most eight connects, three writes and fifteen steps; each
      connection carries whole batches and at most a part of one at its end,
      and the whole ones are exactly the successful writes; the handshake is understood by a standard server; the
      table of workers is bounded ([writes_answered_in_order],
      [write_answered_within_bound], [handshake_understood], [pool_bounded],
      [connect_backoff_bounds]).
    - Transport, inbound: reading a connection takes the frames the codec
      reads off the stream within its budgets whatever the peer sends, loses
      none uncounted, and delivers packed frames in order ([connection_bounded], [connection_delivers]).
    - Transport, control: replies and data blocks are parsed back, every
      command gets its own reply under any interleaving with events, the
      bridge settings are well formed, keys are kept ([reply_roundtrip],
      [replies_in_order], [commands_answered_once], [unquote_password],
      [circumvention_batch], [key_store_laws], [key_blob_hostname]).
    - Transport, supervision: the kill switch fails closed and persists (but
      a network change bounces the network regardless), a service keeps
      the onion address of its generated key, an online supervisor publishes
      every service and leaves it reachable, restarts
      are bounded ([kill_switch_closed], [roaming_reset],
      [onion_address_stable], [services_published], [supervisor_tick],
      [restart_budget], [ladder_climbs]).

    ** Fuel

    Recursion is structural except in these places.  [WireResync.deep_loop]
    walks at most [DEEP_WINDOW] numbers plus one, and its fuel is that bound.
    [Attach.pieces] cuts a byte string into non-empty pieces, and its fuel is
    the string's length; so is that of [Hex.extract_loop] plus one
    ([extract_terminates]) and of the trims in [RustStr].
    [Frame.read_frames] is given more fuel than there are frames;
    [stream_roundtrip] states the bound.  [Media.quality_ladder] has fuel
    for every quality between the first and the last ([reencode_ladder]).
    [Conn.conn_loop] has one iteration more than the packet budget, and
    [connection_bounded] shows it never runs out.  [Transport.attach_loop]
    and [TransportTypes.wait_for_control] recurse on the number of attempts
    that fit before their deadline, which is a parameter.
    [CliOut.lossy_loop] and [MemAudit.scan_buffer] have the length of their
    bytes as fuel and pass at least one byte per round; [scan_buffer_spec]
    shows the scan always ends with a count.  The waits of [Cli] and [Harness] run over the list of what each
    round observes.  [rank_index_exact] is checked up to 256 samples by
    computation; [verdict_exact] asks for fewer than 2^31 messages and
    2^32 arrivals, below which no counter wraps.

    ** What is not modelled

    The Tor process itself, TCP and the sleeping of timers, the image codecs
    and the UniFFI scaffolding are external systems around the logic above.
    Of the command line, the text of the usage message and the set-up of the
    runtime and of logging; of the harness, starting a transport in a
    temporary directory and writing the metrics files; of the memory audit,
    the macOS reader and [scrub_heap], which only allocates.  The tests of
    the repository are not modelled.  SQLite errors other than a violated key are not modelled:
    the tables are total maps.  Paths are compared as text.  The engine is
    sequential: it is a single driver by its own contract.  The transport's
    tasks are modelled each on its own (a worker, a connection, the reader
    of the control port, an iteration of the supervisor) over arbitrary
    sequences of what they meet; an operation of [Transport] reads the clock
    once and is not interleaved with another.  Zeroizing of memory has no
    counterpart in the model; a panic is modelled at the client boundary,
    where it poisons the mutex, in the hexadecimal decoders that raise it, and
    as the stop of a command-line process. *)

From Stdlib Require Export ZArith Lia Bool.
From Stdlib Require Import Strings.Byte.
From stdpp Require Export base list strings gmap.

#[global] Open Scope Z_scope.

(** ** Results: [Result<A, E>] *)

Inductive result (E A : Type) : Type :=
| Ok (a : A)
| Err (e : E).
Arguments Ok {E A} a.
Arguments Err {E A} e.

Definition rbind {E A B} (m : result E A) (k : A → result E B) : result E B :=
  match m with
  | Ok a => k a
  | Err e => Err e
  end.

Definition is_ok {E A} (m : result E A) : bool :=
  match m with
  | Ok _ => true
  | Err _ => false
  end.

(** [Result::ok] *)
Definition ok {E A} (m : result E A) : option A :=
  match m with
  | Ok a => Some a
  | Err _ => None
  end.

(** [Option::ok_or] *)
Definition ok_or {E A} (m : option A) (e : E) : result E A :=
  match m with
  | Some a => Ok a
  | None => Err e
  end.

(** [Result::map_err] *)
Definition map_err {E F A} (f : E → F) (m : result E A) : result F A :=
  match m with
  | Ok a => Ok a
  | Err e => Err (f e)
  end.

Declare Scope schat_scope.
Delimit Scope schat_scope with schat.
Notation "'let*' x ':=' m 'in' k" := (rbind m (λ x, k))
  (at level 10, x binder, m at level 100, k at level 200) : schat_scope.
#[global] Open Scope schat_scope.

(** A successful call, its value named by evaluation. *)
Lemma ok_default {E A} (d : A) (r : result E A) : is_ok r = true → r = Ok (default d (ok r)).
Proof. by destruct r. Qed.

Lemma ok_default_pair {E A B} (a : A) (b : B) (r : result E (A * B)) :
  is_ok r = true → r = Ok (from_option fst a (ok r), from_option snd b (ok r)).
Proof. by destruct r as [[]|]. Qed.

Lemma Ok_inj {E A} (a b : A) : @Ok E A a = Ok b → a = b.
Proof. by intros [= ->]. Qed.

Lemma rbind_Ok {E A B} (m : result E A) (k : A → result E B) b :
  rbind m k = Ok b ↔ ∃ a, m = Ok a ∧ k a = Ok b.
Proof. destruct m; cbn; split; [eauto|by intros (? & [= ->] & ?)|done|by intros (? & ? & ?)]. Qed.

Lemma rbind_Err {E A B} (m : result E A) (k : A → result E B) e :
  rbind m k = Err e ↔ m = Err e ∨ ∃ a, m = Ok a ∧ k a = Err e.
Proof.
  destruct m; cbn; split; [eauto|by intros [?|(? & [= ->] & ?)]|by left; congruence|].
  by intros [[= ->]|(? & ? & ?)].
Qed.

(** ** Machine integers

    A [u8], [u16], [u32], [u64] (and [usize], 64 bits on the supported
    platforms) is a [Z]; arithmetic that can wrap or saturate is written
    with the operators below. *)

Definition u8_max : Z := 2 ^ 8 - 1.
Definition u16_max : Z := 2 ^ 16 - 1.
Definition u32_max : Z := 2 ^ 32 - 1.
Definition u64_max : Z := 2 ^ 64 - 1.

Definition is_u8 (v : Z) : Prop := 0 ≤ v ≤ u8_max.
Definition is_u16 (v : Z) : Prop := 0 ≤ v ≤ u16_max.
Definition is_u32 (v : Z) : Prop := 0 ≤ v ≤ u32_max.
Definition is_u64 (v : Z) : Prop := 0 ≤ v ≤ u64_max.

#[export] Instance is_u8_dec v : Decision (is_u8 v) := _.
#[export] Instance is_u16_dec v : Decision (is_u16 v) := _.
#[export] Instance is_u32_dec v : Decision (is_u32 v) := _.
#[export] Instance is_u64_dec v : Decision (is_u64 v) := _.

(** [saturating_add]/[saturating_sub]/[saturating_mul] at 32 and 64 bits,
    [wrapping] conversion ([as u32], [as u64], release-mode [+]). *)
Definition sat_add32 (a b : Z) : Z := Z.min (a + b) u32_max.
Definition sat_add64 (a b : Z) : Z := Z.min (a + b) u64_max.
Definition sat_sub (a b : Z) : Z := Z.max (a - b) 0.
Definition sat_mul64 (a b : Z) : Z := Z.min (a * b) u64_max.
Definition wrap32 (a : Z) : Z := a mod 2 ^ 32.
Definition wrap64 (a : Z) : Z := a mod 2 ^ 64.

(** [as i64] of a [u64] (what is bound to an SQL INTEGER parameter) and
    [as u64] of the [i64] read back. *)
Definition as_i64 (v : Z) : Z := if decide (v < 2 ^ 63) then v else v - 2 ^ 64.
Definition as_u64 (v : Z) : Z := v mod 2 ^ 64.

(** [div_ceil] *)
Definition div_ceil (a b : Z) : Z := (a + b - 1) / b.

(** ** Bytes *)

Abbreviation byte := Init.Byte.byte.
Abbreviation bytes := (list Init.Byte.byte).

#[export] Instance byte_eq_dec : EqDecision byte := Byte.byte_eq_dec.

#[export] Instance byte_countable : Countable byte :=
  inj_countable Byte.to_N Byte.of_N Byte.of_to_N.

Definition bz (b : byte) : Z := Z.of_N (Byte.to_N b).

(** [as u8]: the low eight bits. *)
Definition zb (v : Z) : byte :=
  match Byte.of_N (Z.to_N (v mod 256)) with
  | Some b => b
  | None => Byte.x00
  end.

Definition len {A} (l : list A) : Z := Z.of_nat (length l).

Lemma bz_range b : 0 ≤ bz b < 256.
Proof.
  unfold bz. pose proof (Byte.to_N_bounded b). split; [apply N2Z.is_nonneg|].
  apply (N2Z.inj_lt _ 256). eapply N.le_lt_trans; [eassumption|]. reflexivity.
Qed.

Lemma bz_zb v : bz (zb v) = v mod 256.
Proof.
  unfold zb, bz. pose proof (Z.mod_pos_bound v 256 eq_refl) as Hv.
  destruct (Byte.of_N _) eqn:E.
  - apply Byte.to_of_N in E. rewrite E. rewrite Z2N.id; lia.
  - apply Byte.of_N_None_iff in E. lia.
Qed.

Lemma zb_bz b : zb (bz b) = b.
Proof.
  unfold zb, bz. pose proof (bz_range b) as Hb. unfold bz in Hb.
  rewrite Z.mod_small by lia. rewrite N2Z.id. by rewrite Byte.of_to_N.
Qed.

Lemma bz_inj b1 b2 : bz b1 = bz b2 → b1 = b2.
Proof. intros H. by rewrite <- (zb_bz b1), H, zb_bz. Qed.

Lemma bz_zb_small v : is_u8 v → bz (zb v) = v.
Proof. unfold is_u8, u8_max. intros. rewrite bz_zb, Z.mod_small; lia. Qed.

Lemma len_nonneg {A} (l : list A) : 0 ≤ len l.
Proof. unfold len. lia. Qed.

Lemma len_app {A} (l k : list A) : len (l ++ k) = len l + len k.
Proof. unfold len. rewrite length_app. lia. Qed.

Lemma len_nil A : len (@nil A) = 0.
Proof. reflexivity. Qed.

Lemma len_cons {A} (x : A) l : len (x :: l) = 1 + len l.
Proof. unfold len. cbn [length]. lia. Qed.

Lemma len_0_nil {A} (l : list A) : len l = 0 ↔ l = [].
Proof. destruct l; rewrite ?len_cons; split; intros; try done. pose proof (len_nonneg l); lia. Qed.

(** ** Lists *)

Lemma filter_all {A} (P : A → Prop) `{!∀ x, Decision (P x)} (l : list A) :
  (∀ x, x ∈ l → P x) → filter P l = l.
Proof.
  induction l as [|x l IH]; [done|]. intros Hl. rewrite filter_cons_True by (apply Hl; by left).
  rewrite IH; [done|]. intros y Hy. apply Hl. by right.
Qed.

Lemma NoDup_fmap_filter {A B} (f : A → B) (P : A → Prop) `{!∀ x, Decision (P x)} (l : list A) :
  NoDup (f <$> l) → NoDup (f <$> filter P l).
Proof.
  induction l as [|x l IH]; [done|]. cbn [fmap list_fmap]. intros [Hx Hl]%NoDup_cons.
  rewrite filter_cons. case_decide; [|by apply IH]. cbn. constructor; [|by apply IH].
  intros (y & Hy & [_ Hin]%list_elem_of_filter)%list_elem_of_fmap. apply Hx, list_elem_of_fmap. eauto.
Qed.

(** ** Big-endian integers ([to_be_bytes] / [from_be_bytes]) *)

Fixpoint be_bytes (n : nat) (v : Z) : bytes :=
  match n with
  | O => []
  | S n => zb (v / 256 ^ Z.of_nat n) :: be_bytes n v
  end.

Fixpoint be_val_acc (acc : Z) (l : bytes) : Z :=
  match l with
  | [] => acc
  | b :: l => be_val_acc (acc * 256 + bz b) l
  end.

Definition be_val (l : bytes) : Z := be_val_acc 0 l.

Lemma be_val_acc_spec acc l : be_val_acc acc l = acc * 256 ^ len l + be_val l.
Proof.
  unfold be_val. revert acc. induction l as [|b l IH]; intros acc; cbn [be_val_acc].
  - rewrite len_nil. lia.
  - rewrite (IH (acc * 256 + bz b)), (IH (0 * 256 + bz b)), len_cons.
    pose proof (len_nonneg l). rewrite Z.pow_add_r by lia. lia.
Qed.

Lemma be_val_cons b l : be_val (b :: l) = bz b * 256 ^ len l + be_val l.
Proof. unfold be_val at 1. cbn [be_val_acc]. by rewrite be_val_acc_spec. Qed.

Lemma length_be_bytes n v : length (be_bytes n v) = n.
Proof. induction n; cbn; auto. Qed.

Lemma len_be_bytes n v : len (be_bytes n v) = Z.of_nat n.
Proof. unfold len. by rewrite length_be_bytes. Qed.

Lemma len_be2 v : len (be_bytes 2 v) = 2.
Proof. apply len_be_bytes. Qed.
Lemma len_be4 v : len (be_bytes 4 v) = 4.
Proof. apply len_be_bytes. Qed.
Lemma len_be8 v : len (be_bytes 8 v) = 8.
Proof. apply len_be_bytes. Qed.

Lemma be_val_bytes n v : be_val (be_bytes n v) = v mod 256 ^ Z.of_nat n.
Proof.
  induction n as [|n IH]; cbn [be_bytes].
  - by rewrite Z.mod_1_r.
  - rewrite be_val_cons, IH, bz_zb, len_be_bytes.
    replace (Z.of_nat (S n)) with (Z.of_nat n + 1) by lia.
    rewrite Z.pow_add_r by lia. change (256 ^ 1) with 256.
    rewrite (Z.rem_mul_r v (256 ^ Z.of_nat n) 256) by lia. lia.
Qed.

Lemma be_val_range l : 0 ≤ be_val l < 256 ^ len l.
Proof.
  induction l as [|b l IH].
  - unfold be_val, len. cbn. lia.
  - rewrite be_val_cons, len_cons. pose proof (bz_range b). pose proof (len_nonneg l).
    rewrite Z.pow_add_r by lia. change (256 ^ 1) with 256. nia.
Qed.

Lemma be_bytes_add n v k : be_bytes n (k * 256 ^ Z.of_nat n + v) = be_bytes n v.
Proof.
  revert k. induction n as [|n IH]; intros k; cbn [be_bytes]; [done|].
  replace (Z.of_nat (S n)) with (Z.of_nat n + 1) by lia.
  rewrite Z.pow_add_r by lia. change (256 ^ 1) with 256. f_equal.
  - apply bz_inj. rewrite !bz_zb.
    replace (k * (256 ^ Z.of_nat n * 256) + v) with (v + (k * 256) * 256 ^ Z.of_nat n) by lia.
    rewrite Z.div_add by lia. by rewrite Z.mod_add by lia.
  - replace (k * (256 ^ Z.of_nat n * 256) + v) with ((k * 256) * 256 ^ Z.of_nat n + v) by lia.
    apply IH.
Qed.

Lemma be_bytes_val n l : length l = n → be_bytes n (be_val l) = l.
Proof.
  revert n. induction l as [|b l IH]; intros [|n] Hn; try done; cbn [be_bytes].
  injection Hn as Hn. pose proof (be_val_range l) as Hl.
  rewrite be_val_cons. unfold len in *. rewrite Hn in *. f_equal.
  - apply bz_inj. rewrite bz_zb, Z.div_add_l by lia.
    rewrite Z.div_small by lia. pose proof (bz_range b). rewrite Z.mod_small; lia.
  - rewrite be_bytes_add. by apply IH.
Qed.

Lemma be_val_inj l k : length l = length k → be_val l = be_val k → l = k.
Proof.
  intros Hl Hv. rewrite <- (be_bytes_val (length l) l), <- (be_bytes_val (length l) k) by done.
  by rewrite Hv.
Qed.

Lemma be_val_bytes_small n v : 0 ≤ v < 256 ^ Z.of_nat n → be_val (be_bytes n v) = v.
Proof. intros. rewrite be_val_bytes. by apply Z.mod_small. Qed.

(** Linear arithmetic over the lengths of concatenations. *)
Ltac len_lia :=
  rewrite ?len_app, ?len_cons, ?len_nil, ?len_be2, ?len_be4, ?len_be8 in *;
  repeat match goal with
  | |- context [len ?l] => lazymatch goal with
      | H : 0 ≤ len l |- _ => fail
      | _ => pose proof (len_nonneg l)
      end
  end; lia.

#[global] Arguments be_bytes : simpl never.
#[global] Arguments be_val : simpl never.
#[global] Arguments len : simpl never.
#[global] Arguments zb : simpl never.
#[global] Arguments bz : simpl never.
