(* ===== verification/Bin.v ===== *)
(** The binary codec primitives of [wire-types/src/bin.rs] and the error
    taxonomy of [wire-types/src/error.rs]: the append-only big-endian
    [Writer], the bounds-checked cursor [Reader], and the reading
    discipline ([reads]) through which every payload codec of the
    development is proved to round trip. *)

From S2P Require Import Prelude.

(** ** [WireError] *)

(** A [detail] string: a literal, or a [format!] template with its
    arguments (the rendering of integers is left symbolic). *)
Inductive Detail : Type :=
| Lit (s : string)
| Fmt (s : string) (args : list Z).

Inductive WireError : Type :=
| Truncated (at_ : string)
| BadLength (at_ : string) (elen emax : Z)
| BadVersion (at_ : string) (version : Z)
| BadField (at_ : string) (detail : Detail)
| Trailing (at_ : string) (extra : Z)
| TooLarge (at_ : string) (esize emax : Z)
| UnknownType (code : Z) (msg_id : bytes) (app_seq : Z).

Definition bad (at_ : string) (detail : Detail) : WireError := BadField at_ detail.

#[export] Instance detail_eq_dec : EqDecision Detail.
Proof. solve_decision. Defined.
#[export] Instance wire_error_eq_dec : EqDecision WireError.
Proof. solve_decision. Defined.

(** ** [Writer] *)

Record Writer := mkWriter { w_buf : bytes }.

Definition w_new : Writer := mkWriter [].
Definition w_u8 (v : Z) (w : Writer) : Writer := mkWriter (w_buf w ++ [zb v]).
Definition w_u16be (v : Z) (w : Writer) : Writer := mkWriter (w_buf w ++ be_bytes 2 v).
Definition w_u32be (v : Z) (w : Writer) : Writer := mkWriter (w_buf w ++ be_bytes 4 v).
Definition w_u64be (v : Z) (w : Writer) : Writer := mkWriter (w_buf w ++ be_bytes 8 v).
Definition w_raw (v : bytes) (w : Writer) : Writer := mkWriter (w_buf w ++ v).

(** [v.len() as u32]: [be_bytes 4] keeps the low 32 bits. *)
Definition w_lp (v : bytes) (w : Writer) : Writer := w_raw v (w_u32be (len v) w).
Definition w_len (w : Writer) : Z := len (w_buf w).
Definition w_finish (w : Writer) : bytes := w_buf w.

(** Method-call order: [w ;> w_u8 v ;> w_raw x] is [w.u8(v); w.raw(x)]. *)
Notation "w ;> op" := (op w) (at level 50, left associativity, only parsing) : schat_scope.

(** ** [Reader] *)

Record Reader := mkReader { r_buf : bytes; r_pos : nat }.

Definition r_new (buf : bytes) : Reader := mkReader buf 0.
Definition r_remaining (r : Reader) : Z := len (r_buf r) - Z.of_nat (r_pos r).
Definition r_position (r : Reader) : Z := Z.of_nat (r_pos r).

(** The bytes still ahead of the cursor. *)
Definition unread (r : Reader) : bytes := drop (r_pos r) (r_buf r).
Definition advance (n : nat) (r : Reader) : Reader := mkReader (r_buf r) (r_pos r + n).

(** A reading computation: [&mut Reader] in, [Result] out. *)
Definition parser (A : Type) : Type := Reader → result WireError (A * Reader).

Definition pret {A} (a : A) : parser A := λ r, Ok (a, r).
Definition pfail {A} (e : WireError) : parser A := λ _, Err e.
Definition pbind {A B} (p : parser A) (k : A → parser B) : parser B := λ r,
  match p r with
  | Ok (a, r') => k a r'
  | Err e => Err e
  end.

(** A [Result]-returning helper called with [?] inside a reader body. *)
Definition plift {A} (m : result WireError A) : parser A := λ r,
  match m with
  | Ok a => Ok (a, r)
  | Err e => Err e
  end.

Notation "x <-- p ;; k" := (pbind p (λ x, k))
  (at level 20, p at level 99, k at level 200, right associativity) : schat_scope.

(** Run a decoder on a fresh reader over [buf], dropping the cursor. *)
Definition run {A} (p : parser A) (buf : bytes) : result WireError A :=
  match p (r_new buf) with
  | Ok (a, _) => Ok a
  | Err e => Err e
  end.

Definition r_take (n : Z) (at_ : string) : parser bytes := λ r,
  if r_remaining r <? n then Err (Truncated at_)
  else Ok (take (Z.to_nat n) (unread r), advance (Z.to_nat n) r).

Definition r_u8 (at_ : string) : parser Z :=
  l <-- r_take 1 at_ ;; pret (be_val l).
Definition r_u16be (at_ : string) : parser Z :=
  l <-- r_take 2 at_ ;; pret (be_val l).
Definition r_u32be (at_ : string) : parser Z :=
  l <-- r_take 4 at_ ;; pret (be_val l).
Definition r_u64be (at_ : string) : parser Z :=
  l <-- r_take 8 at_ ;; pret (be_val l).

Definition r_lp (max : Z) (at_ : string) : parser bytes :=
  n <-- r_u32be at_ ;;
  if n >? max then pfail (BadLength at_ n max)
  else r_take n at_.

Definition r_peek_u32be (at_ : string) : parser Z := λ r,
  if r_remaining r <? 4 then Err (Truncated at_)
  else Ok (be_val (take 4 (unread r)), r).

Definition r_expect_end (at_ : string) : parser unit := λ r,
  if r_remaining r =? 0 then Ok (tt, r) else Err (Trailing at_ (r_remaining r)).

(** [r.remaining()] and [r.position()] used as values in a body. *)
Definition r_get_remaining : parser Z := λ r, Ok (r_remaining r, r).
Definition r_get_position : parser Z := λ r, Ok (r_position r, r).

(** ** The codec trait and its laws *)

(** [trait WirePayload]. *)
Class WirePayload (A : Type) := {
  encode_payload : A → result WireError bytes;
  decode_payload : bytes → result WireError A;
}.

(** What a payload codec promises to the envelope and to the ledger:
    encoding then decoding a well-formed value is the identity, decoded
    values are well formed, and a decoded value always encodes again. *)
Class WirePayloadLaws (A : Type) `{WirePayload A} := {
  wire_wf : A → Prop;
  wire_roundtrip : ∀ (x : A) (bs : bytes),
    wire_wf x → encode_payload x = Ok bs → decode_payload bs = Ok x;
  wire_decoded : ∀ (bs : bytes) (x : A),
    decode_payload bs = Ok x → wire_wf x ∧ is_ok (encode_payload x) = true;
}.

(** ** The reading discipline *)

(** The cursor never passes the end of its buffer. *)
Definition r_wf (r : Reader) : Prop := (r_pos r ≤ length (r_buf r))%nat.

Section Reads.
Context (N : Z).

(** [reads N p bs rest a]: on every cursor over [N] bytes whose unread
    bytes are [bs ++ rest], [p] succeeds with [a] and consumes exactly [bs]. *)
Definition reads {A} (p : parser A) (bs rest : bytes) (a : A) : Prop :=
  ∀ r, r_wf r → len (r_buf r) = N → unread r = bs ++ rest →
    p r = Ok (a, advance (length bs) r).

(** [took p r a r']: [p] succeeded on [r]; [r'] is a later position of the
    same buffer and the bytes in between are returned. *)
Definition took (r r' : Reader) (bs : bytes) : Prop :=
  r_wf r' ∧ r_buf r' = r_buf r ∧ unread r = bs ++ unread r'.

Lemma r_remaining_wf r : r_wf r → r_remaining r = len (unread r).
Proof. unfold r_wf, r_remaining, unread, len. rewrite length_drop. lia. Qed.

Lemma r_wf_new bs : r_wf (r_new bs).
Proof. unfold r_wf. cbn. lia. Qed.

Lemma unread_new bs : unread (r_new bs) = bs.
Proof. done. Qed.

Lemma advance_unread r xs ys :
  r_wf r → unread r = xs ++ ys →
  r_wf (advance (length xs) r) ∧ unread (advance (length xs) r) = ys.
Proof.
  unfold r_wf, unread, advance. cbn. intros Hw H. split.
  - apply (f_equal length) in H. rewrite length_drop, length_app in H. lia.
  - rewrite <- drop_drop, H. apply drop_app_length.
Qed.

Lemma reads_ret {A} (a : A) rest : reads (pret a) [] rest a.
Proof. intros [b n] _ _ _. unfold pret, advance. cbn. by rewrite Nat.add_0_r. Qed.

Lemma reads_bind {A B} (p : parser A) (k : A → parser B) xs ys rest a b :
  reads p xs (ys ++ rest) a → reads (k a) ys rest b → reads (pbind p k) (xs ++ ys) rest b.
Proof.
  intros Hp Hk r Hw HN Hr. rewrite <- app_assoc in Hr. unfold pbind. rewrite (Hp _ Hw HN Hr).
  destruct (advance_unread _ _ _ Hw Hr) as [Hw' Hr'].
  rewrite (Hk _ Hw' HN Hr'). unfold advance. cbn. by rewrite length_app, Nat.add_assoc.
Qed.

(** A step that consumes nothing. *)
Lemma reads_bind_nil {A B} (p : parser A) (k : A → parser B) ys rest a b :
  reads p [] (ys ++ rest) a → reads (k a) ys rest b → reads (pbind p k) ys rest b.
Proof. apply (reads_bind p k []). Qed.

(** A last step that consumes everything left. *)
Lemma reads_bind_last {A B} (p : parser A) (k : A → parser B) xs rest a b :
  reads p xs rest a → reads (k a) [] rest b → reads (pbind p k) xs rest b.
Proof. intros. rewrite <- (app_nil_r xs). by eapply reads_bind. Qed.

Lemma reads_if {A} (b : bool) (p q : parser A) bs rest a :
  b = false → reads q bs rest a → reads (if b then p else q) bs rest a.
Proof. by intros ->. Qed.

Lemma reads_if_true {A} (b : bool) (p q : parser A) bs rest a :
  b = true → reads p bs rest a → reads (if b then p else q) bs rest a.
Proof. by intros ->. Qed.

Lemma reads_lift {A} (m : result WireError A) a rest : m = Ok a → reads (plift m) [] rest a.
Proof. intros -> [b n] _ _ _. unfold plift, advance. cbn. by rewrite Nat.add_0_r. Qed.

Lemma reads_take n at_ xs rest : len xs = n → reads (r_take n at_) xs rest xs.
Proof.
  intros <- r Hw HN Hr. unfold r_take. rewrite (r_remaining_wf r Hw), Hr, len_app.
  pose proof (len_nonneg rest). rewrite (proj2 (Z.ltb_ge _ _)) by lia.
  unfold len. by rewrite Nat2Z.id, take_app_length.
Qed.

Lemma reads_uint (n : nat) at_ v rest :
  0 ≤ v < 256 ^ Z.of_nat n →
  reads (l <-- r_take (Z.of_nat n) at_ ;; pret (be_val l)) (be_bytes n v) rest v.
Proof.
  intros Hv. rewrite <- (app_nil_r (be_bytes n v)). eapply reads_bind.
  - apply reads_take. apply len_be_bytes.
  - rewrite be_val_bytes_small by done. apply reads_ret.
Qed.

Lemma be_bytes_1 v : be_bytes 1 v = [zb v].
Proof. unfold be_bytes. cbn [Z.of_nat]. by rewrite Z.pow_0_r, Z.div_1_r. Qed.

Lemma reads_u8 at_ v rest : is_u8 v → reads (r_u8 at_) [zb v] rest v.
Proof. intros Hv. rewrite <- be_bytes_1. apply (reads_uint 1). unfold is_u8, u8_max in Hv. lia. Qed.

Lemma reads_u16be at_ v rest : is_u16 v → reads (r_u16be at_) (be_bytes 2 v) rest v.
Proof. intros Hv. apply (reads_uint 2). unfold is_u16, u16_max in Hv. lia. Qed.

Lemma reads_u32be at_ v rest : is_u32 v → reads (r_u32be at_) (be_bytes 4 v) rest v.
Proof. intros Hv. apply (reads_uint 4). unfold is_u32, u32_max in Hv. lia. Qed.

Lemma reads_u64be at_ v rest : is_u64 v → reads (r_u64be at_) (be_bytes 8 v) rest v.
Proof. intros Hv. apply (reads_uint 8). unfold is_u64, u64_max in Hv. lia. Qed.

Lemma reads_lp max at_ xs rest :
  len xs ≤ max → max ≤ u32_max → reads (r_lp max at_) (be_bytes 4 (len xs) ++ xs) rest xs.
Proof.
  intros Hx Hm. pose proof (len_nonneg xs). eapply reads_bind.
  - apply reads_u32be. unfold is_u32. lia.
  - apply reads_if; [lia|]. by apply reads_take.
Qed.

Lemma reads_lp_bind {B} max at_ xs (k : bytes → parser B) ys rest b :
  len xs ≤ max → max ≤ u32_max → reads (k xs) ys rest b →
  reads (pbind (r_lp max at_) k) (be_bytes 4 (len xs) ++ xs ++ ys) rest b.
Proof. intros ? ? ?. rewrite app_assoc. eapply reads_bind; [by apply reads_lp|done]. Qed.

Lemma reads_peek_any at_ ys :
  4 ≤ len ys → reads (r_peek_u32be at_) [] ys (be_val (take 4 ys)).
Proof.
  intros Hl r Hw HN Hr. unfold r_peek_u32be. rewrite (r_remaining_wf r Hw), Hr. cbn [app].
  rewrite (proj2 (Z.ltb_ge _ _)) by lia.
  destruct r as [b n]. unfold advance. cbn. by rewrite Nat.add_0_r.
Qed.

Lemma reads_peek at_ v rest ys :
  is_u32 v → ys = be_bytes 4 v ++ rest → reads (r_peek_u32be at_) [] ys v.
Proof.
  intros Hv -> r Hw HN Hr. unfold r_peek_u32be. rewrite (r_remaining_wf r Hw), Hr.
  cbn [app]. rewrite len_app, len_be_bytes. pose proof (len_nonneg rest).
  rewrite (proj2 (Z.ltb_ge _ _)) by lia.
  rewrite (take_app_length' _ _ 4) by (by rewrite length_be_bytes).
  rewrite be_val_bytes_small by (unfold is_u32, u32_max in Hv; lia).
  destruct r as [b n]. unfold advance. cbn. by rewrite Nat.add_0_r.
Qed.

Lemma reads_peek_bind {B} at_ v (k : Z → parser B) ys rest b :
  is_u32 v → reads (k v) (be_bytes 4 v ++ ys) rest b →
  reads (pbind (r_peek_u32be at_) k) (be_bytes 4 v ++ ys) rest b.
Proof.
  intros Hv Hk. eapply reads_bind_nil; [|done].
  eapply reads_peek; [done|]. by rewrite <- app_assoc.
Qed.

Lemma reads_expect_end at_ : reads (r_expect_end at_) [] [] tt.
Proof.
  intros r Hw HN Hr. unfold r_expect_end. rewrite (r_remaining_wf r Hw), Hr.
  destruct r as [b n]. unfold advance. cbn. by rewrite Nat.add_0_r.
Qed.

Lemma reads_get_remaining rest : reads r_get_remaining [] rest (len rest).
Proof.
  intros r Hw HN Hr. unfold r_get_remaining. rewrite (r_remaining_wf r Hw), Hr.
  destruct r as [b n]. unfold advance. cbn. by rewrite Nat.add_0_r.
Qed.

Lemma reads_get_position rest : reads r_get_position [] rest (N - len rest).
Proof.
  intros r Hw HN Hr. unfold r_get_position, r_position. pose proof (r_remaining_wf r Hw) as H.
  rewrite Hr in H. unfold r_remaining in H. cbn [app] in H.
  destruct r as [b n]. unfold advance. cbn in *. rewrite Nat.add_0_r. do 2 f_equal. lia.
Qed.
End Reads.

Lemma run_reads {A} (p : parser A) bs a : reads (len bs) p (bs ++ []) [] a → run p bs = Ok a.
Proof.
  intros H. unfold run. rewrite H; [done|apply r_wf_new|done|].
  by rewrite !app_nil_r, unread_new.
Qed.

(** ** The inverse direction: what a successful read says of the input *)

Lemma took_refl r : r_wf r → took r r [].
Proof. done. Qed.

Lemma took_trans r1 r2 r3 xs ys : took r1 r2 xs → took r2 r3 ys → took r1 r3 (xs ++ ys).
Proof.
  intros (Hw1 & Hb1 & H1) (Hw2 & Hb2 & H2). split; [done|]. split; [congruence|].
  by rewrite H1, H2, app_assoc.
Qed.

Lemma took_all bs r' xs : took (r_new bs) r' xs → unread r' = [] → bs = xs.
Proof. intros (_ & _ & H) Hr. by rewrite Hr, app_nil_r, unread_new in H. Qed.

Lemma pbind_Ok {A B} (p : parser A) (k : A → parser B) r b r' :
  pbind p k r = Ok (b, r') → ∃ a r1, p r = Ok (a, r1) ∧ k a r1 = Ok (b, r').
Proof. unfold pbind. destruct (p r) as [[a r1]|]; naive_solver. Qed.

Lemma run_Ok {A} (p : parser A) bs a : run p bs = Ok a → ∃ r', p (r_new bs) = Ok (a, r').
Proof. unfold run. destruct (p _) as [[x r']|]; naive_solver. Qed.

Lemma r_take_Ok n at_ r xs r' :
  r_wf r → 0 ≤ n → r_take n at_ r = Ok (xs, r') → took r r' xs ∧ len xs = n.
Proof.
  intros Hw Hn. unfold r_take. destruct (Z.ltb_spec (r_remaining r) n); [done|].
  intros [= <- <-]. rewrite (r_remaining_wf r Hw) in *. unfold len in *.
  assert (Hl : length (take (Z.to_nat n) (unread r)) = Z.to_nat n)
    by (rewrite length_take; lia).
  split; [|rewrite Hl; lia].
  destruct (advance_unread r (take (Z.to_nat n) (unread r)) (drop (Z.to_nat n) (unread r)))
    as [Hw' Hr']; [done|by rewrite take_drop|].
  rewrite Hl in *. split; [done|]. split; [done|]. by rewrite Hr', take_drop.
Qed.

Lemma r_uint_Ok (n : nat) at_ r v r' :
  r_wf r → (l <-- r_take (Z.of_nat n) at_ ;; pret (be_val l)) r = Ok (v, r') →
  took r r' (be_bytes n v) ∧ 0 ≤ v < 256 ^ Z.of_nat n.
Proof.
  intros Hw (l & r1 & Ht & Hr)%pbind_Ok. injection Hr as <- <-.
  apply r_take_Ok in Ht as [Ht Hl]; [|done|lia]. unfold len in Hl.
  split; [rewrite be_bytes_val by lia; done|].
  pose proof (be_val_range l) as Hv. unfold len in Hv. by rewrite Hl in Hv.
Qed.

Lemma r_u8_Ok at_ r v r' :
  r_wf r → r_u8 at_ r = Ok (v, r') → took r r' [zb v] ∧ is_u8 v.
Proof.
  intros Hw H. apply (r_uint_Ok 1) in H as [H Hv]; [|done].
  rewrite be_bytes_1 in H. split; [done|]. unfold is_u8, u8_max. lia.
Qed.

Lemma r_u16be_Ok at_ r v r' :
  r_wf r → r_u16be at_ r = Ok (v, r') → took r r' (be_bytes 2 v) ∧ is_u16 v.
Proof.
  intros Hw H. apply (r_uint_Ok 2) in H as [H Hv]; [|done].
  split; [done|]. unfold is_u16, u16_max. lia.
Qed.

Lemma r_u32be_Ok at_ r v r' :
  r_wf r → r_u32be at_ r = Ok (v, r') → took r r' (be_bytes 4 v) ∧ is_u32 v.
Proof.
  intros Hw H. apply (r_uint_Ok 4) in H as [H Hv]; [|done].
  split; [done|]. unfold is_u32, u32_max. lia.
Qed.

Lemma r_u64be_Ok at_ r v r' :
  r_wf r → r_u64be at_ r = Ok (v, r') → took r r' (be_bytes 8 v) ∧ is_u64 v.
Proof.
  intros Hw H. apply (r_uint_Ok 8) in H as [H Hv]; [|done].
  split; [done|]. unfold is_u64, u64_max. lia.
Qed.

Lemma took_wf r r' bs : took r r' bs → r_wf r'.
Proof. by intros [? _]. Qed.

Lemma r_lp_Ok max at_ r xs r' :
  r_wf r → r_lp max at_ r = Ok (xs, r') →
  took r r' (be_bytes 4 (len xs) ++ xs) ∧ len xs ≤ max.
Proof.
  intros Hw (n & r1 & Hn & H)%pbind_Ok. apply r_u32be_Ok in Hn as [Ht Hn]; [|done].
  destruct (Z.gtb_spec n max); [done|]. unfold is_u32 in Hn.
  apply r_take_Ok in H as [Ht' <-]; [|by eapply took_wf|lia].
  split; [by eapply took_trans|done].
Qed.

Lemma r_expect_end_Ok at_ r u r' :
  r_wf r → r_expect_end at_ r = Ok (u, r') → r' = r ∧ unread r = [].
Proof.
  intros Hw. unfold r_expect_end. rewrite (r_remaining_wf r Hw).
  destruct (Z.eqb_spec (len (unread r)) 0) as [E|]; [|done].
  intros [= _ <-]. split; [done|]. by apply len_0_nil.
Qed.

Lemma r_peek_Ok at_ r v r' : r_wf r → r_peek_u32be at_ r = Ok (v, r') → r' = r.
Proof. unfold r_peek_u32be. by destruct (_ <? _); intros; simplify_eq. Qed.

Lemma pret_Ok {A} (a b : A) r r' : pret a r = Ok (b, r') → a = b ∧ r = r'.
Proof. by intros [= -> ->]. Qed.

Lemma plift_Ok {A} (m : result WireError A) a r r' :
  plift m r = Ok (a, r') → m = Ok a ∧ r = r'.
Proof. unfold plift. destruct m; [by intros [= -> ->]|done]. Qed.

Lemma r_get_remaining_Ok r n r' :
  r_get_remaining r = Ok (n, r') → n = r_remaining r ∧ r = r'.
Proof. by intros [= <- <-]. Qed.

Lemma r_get_position_Ok r n r' :
  r_get_position r = Ok (n, r') → n = r_position r ∧ r = r'.
Proof. by intros [= <- <-]. Qed.

(** ** Automation *)

Create HintDb wire.
#[global] Arguments r_take : simpl never.
#[global] Arguments r_u8 : simpl never.
#[global] Arguments r_u16be : simpl never.
#[global] Arguments r_u32be : simpl never.
#[global] Arguments r_u64be : simpl never.
#[global] Arguments r_lp : simpl never.
#[global] Arguments pbind : simpl never.
#[global] Arguments run : simpl never.
#[export] Hint Resolve r_wf_new took_wf reads_ret reads_u8 reads_u16be reads_u32be
  reads_u64be reads_expect_end reads_get_remaining : wire.

(** Flatten what a [Writer] wrote into a right-nested concatenation. *)
Ltac wnorm :=
  unfold w_finish, w_lp, w_u8, w_u16be, w_u32be, w_u64be, w_raw, w_new in *;
  cbn [w_buf] in *; rewrite ?app_nil_l in *; rewrite <- ?app_assoc in *.

(** Turn [run p (written bytes) = Ok x] into a [reads] goal. *)
Ltac rstart := apply run_reads; wnorm.

(** One field of a decoder: peel the first segment of the bytes. *)
Ltac rstep :=
  lazymatch goal with
  | |- reads _ (pbind (r_expect_end _) _) _ _ _ =>
      eapply reads_bind_nil; [apply reads_expect_end|]
  | |- reads _ (pbind (r_u8 _) _) (?x :: ?xs) _ _ =>
      change (x :: xs) with ([x] ++ xs); eapply reads_bind; [apply reads_u8|]
  | |- reads _ (pbind (r_u8 _) _) _ _ _ => eapply reads_bind; [apply reads_u8|]
  | |- reads _ (pbind (r_u16be _) _) _ _ _ => eapply reads_bind; [apply reads_u16be|]
  | |- reads _ (pbind (r_u32be _) _) _ _ _ => eapply reads_bind; [apply reads_u32be|]
  | |- reads _ (pbind (r_u64be _) _) _ _ _ => eapply reads_bind; [apply reads_u64be|]
  | |- reads _ (pbind (r_take _ _) _) _ _ _ => eapply reads_bind; [apply reads_take|]
  | |- reads _ (pbind (r_lp _ _) _) _ _ _ =>
      eapply reads_lp_bind
  | |- reads _ (pbind (pret _) _) _ _ _ => eapply reads_bind_nil; [apply reads_ret|]
  | |- reads _ (pbind (plift _) _) _ _ _ => eapply reads_bind_nil; [apply reads_lift|]
  | |- reads _ (pbind (r_peek_u32be _) _) (be_bytes 4 _ ++ _) _ _ => apply reads_peek_bind
  | |- reads _ (pbind r_get_remaining _) _ _ _ =>
      eapply reads_bind_nil; [apply reads_get_remaining|]
  | |- reads _ (pbind r_get_position _) _ _ _ =>
      eapply reads_bind_nil; [apply reads_get_position|]
  | |- reads _ (if _ then _ else _) _ _ _ => apply reads_if
  | |- reads _ (pret _) _ _ _ => apply reads_ret
  end.

(** Invert one successful read of a hypothesis [p r = Ok (a, r')]. *)
Ltac rinv :=
  match goal with
  | H : run _ _ = Ok _ |- _ => apply run_Ok in H as [? H]
  | H : pbind _ _ _ = Ok _ |- _ =>
      let H1 := fresh "Hrd" in apply pbind_Ok in H as (? & ? & H1 & H)
  | H : r_u8 _ _ = Ok _ |- _ => apply r_u8_Ok in H as [? ?]; [|by eauto with wire]
  | H : r_u16be _ _ = Ok _ |- _ => apply r_u16be_Ok in H as [? ?]; [|by eauto with wire]
  | H : r_u32be _ _ = Ok _ |- _ => apply r_u32be_Ok in H as [? ?]; [|by eauto with wire]
  | H : r_u64be _ _ = Ok _ |- _ => apply r_u64be_Ok in H as [? ?]; [|by eauto with wire]
  | H : r_take _ _ _ = Ok _ |- _ => apply r_take_Ok in H as [? ?]; [|by eauto with wire|first [lia|done|unfold is_u8, is_u16, is_u32 in *; lia]]
  | H : r_lp _ _ _ = Ok _ |- _ => apply r_lp_Ok in H as [? ?]; [|by eauto with wire]
  | H : r_expect_end _ _ = Ok _ |- _ => apply r_expect_end_Ok in H as [-> ?]; [|by eauto with wire]
  | H : pret _ _ = Ok _ |- _ => apply pret_Ok in H as [? <-]
  | H : plift _ _ = Ok _ |- _ => apply plift_Ok in H as [? <-]
  | H : r_get_remaining _ = Ok _ |- _ => apply r_get_remaining_Ok in H as [? <-]
  | H : r_get_position _ = Ok _ |- _ => apply r_get_position_Ok in H as [? <-]
  | H : r_peek_u32be _ _ = Ok _ |- _ => apply r_peek_Ok in H as ->; [|by eauto with wire]
  | H : pfail _ _ = Ok _ |- _ => discriminate H
  | H : Err _ = Ok _ |- _ => discriminate H
  | H : (if ?b then _ else _) _ = Ok _ |- _ =>
      let E := fresh "Hif" in destruct b eqn:E
  end.

(** Compose the successive reads of a decoder: the bytes between the first
    and the last cursor. *)
Ltac took_chain :=
  repeat first [eassumption | eapply took_trans; [eassumption|]
    | rewrite (app_assoc (be_bytes 4 _)); eapply took_trans; [eassumption|]
    | rewrite (app_assoc (be_bytes 4 _)); eassumption].
