(* ===== verification/RustStr.v ===== *)
(** Rust [str] as the UTF-8 bytes it holds: validation as
    [String::from_utf8] does it, the code points of [chars()], the ASCII
    test and [char::is_control]. *)

From Stdlib Require String.
From S2P Require Import Prelude.

(** The bytes of a string literal, and a byte string as the key type of the
    tables. *)
Definition str_bytes (s : string) : bytes := String.list_byte_of_string s.
Definition bytes_str (b : bytes) : string := String.string_of_list_byte b.

Lemma bytes_str_bytes s : bytes_str (str_bytes s) = s.
Proof. apply String.string_of_list_byte_of_string. Qed.
Lemma str_bytes_str b : str_bytes (bytes_str b) = b.
Proof. apply String.list_byte_of_string_of_list_byte. Qed.

Definition in_range (lo hi v : Z) : bool := (lo <=? v) && (v <=? hi).

Definition is_ascii (b : byte) : bool := bz b <? 128.

(** The payload bits of a continuation byte [10xxxxxx]. *)
Definition cont_bits (b : byte) : Z := bz b - 128.
Definition is_cont (b : byte) : bool := in_range 128 191 (bz b).

(** Well-formed UTF-8 (no overlong form, no surrogate, at most U+10FFFF),
    as a decoder to code points; [None] where [from_utf8] is an error. *)
Fixpoint utf8_chars (l : bytes) : option (list Z) :=
  match l with
  | [] => Some []
  | b1 :: t1 =>
      let v := bz b1 in
      if v <? 128 then cons v <$> utf8_chars t1
      else
        match t1 with
        | [] => None
        | b2 :: t2 =>
            if in_range 194 223 v then
              if is_cont b2 then cons ((v - 192) * 64 + cont_bits b2) <$> utf8_chars t2 else None
            else
              match t2 with
              | [] => None
              | b3 :: t3 =>
                  if in_range 224 239 v then
                    let lo := if v =? 224 then 160 else 128 in
                    let hi := if v =? 237 then 159 else 191 in
                    if in_range lo hi (bz b2) && is_cont b3
                    then cons ((v - 224) * 4096 + cont_bits b2 * 64 + cont_bits b3) <$> utf8_chars t3
                    else None
                  else
                    match t3 with
                    | [] => None
                    | b4 :: t4 =>
                        if in_range 240 244 v then
                          let lo := if v =? 240 then 144 else 128 in
                          let hi := if v =? 244 then 143 else 191 in
                          if in_range lo hi (bz b2) && is_cont b3 && is_cont b4
                          then cons ((v - 240) * 262144 + cont_bits b2 * 4096
                                     + cont_bits b3 * 64 + cont_bits b4) <$> utf8_chars t4
                          else None
                        else None
                    end
              end
        end
  end.

Definition utf8_ok (l : bytes) : bool :=
  match utf8_chars l with
  | Some _ => true
  | None => false
  end.

(** [String::from_utf8] *)
Definition from_utf8 (l : bytes) : option bytes := if utf8_ok l then Some l else None.

(** [s.chars()] of a valid string, and [s.chars().count()]. *)
Definition str_chars (s : bytes) : list Z := default [] (utf8_chars s).
Definition chars_count (s : bytes) : Z := len (str_chars s).

(** [char::is_control]: general category Cc. *)
Definition is_control (c : Z) : bool := in_range 0 31 c || in_range 127 159 c.

Lemma from_utf8_Some l s : from_utf8 l = Some s ↔ s = l ∧ utf8_ok l = true.
Proof. unfold from_utf8. destruct (utf8_ok l); split; [by intros [= <-]|by intros [-> _]|done|by intros [_ ?]]. Qed.

Lemma from_utf8_ok l : utf8_ok l = true → from_utf8 l = Some l.
Proof. unfold from_utf8. by intros ->. Qed.

Lemma from_utf8_or_Ok {E} l (e : E) s :
  ok_or (from_utf8 l) e = Ok s → s = l ∧ utf8_ok l = true.
Proof. unfold from_utf8. destruct (utf8_ok l); cbn; [by intros [= ->]|done]. Qed.

Lemma ascii_chars l : forallb is_ascii l = true → utf8_chars l = Some (bz <$> l).
Proof.
  induction l as [|b l IH]; [done|]. intros [Hb Hl]%andb_true_iff.
  cbn [utf8_chars fmap list_fmap]. unfold is_ascii in Hb. rewrite Hb, IH by done. done.
Qed.

Lemma ascii_utf8_ok l : forallb is_ascii l = true → utf8_ok l = true.
Proof. intros H. unfold utf8_ok. by rewrite ascii_chars. Qed.

(** ** [str::trim], ASCII case, suffixes *)

(** The length of a [White_Space] character at the head of the text, 0 when
    there is none: U+0009..U+000D, U+0020, U+0085, U+00A0, U+1680,
    U+2000..U+200A, U+2028, U+2029, U+202F, U+205F, U+3000. *)
Definition ws_len (l : bytes) : nat :=
  match bz <$> l with
  | v :: rest =>
      if in_range 9 13 v || (v =? 32) then 1%nat
      else
        match rest with
        | w :: rest =>
            if (v =? 194) && ((w =? 133) || (w =? 160)) then 2%nat
            else
              match rest with
              | x :: _ =>
                  if ((v =? 225) && (w =? 154) && (x =? 128))
                     || ((v =? 226) && (w =? 128)
                         && (in_range 128 138 x || (x =? 168) || (x =? 169) || (x =? 175)))
                     || ((v =? 226) && (w =? 129) && (x =? 159))
                     || ((v =? 227) && (w =? 128) && (x =? 128))
                  then 3%nat else 0%nat
              | [] => 0%nat
              end
        | [] => 0%nat
        end
  | [] => 0%nat
  end.

(** The same at the end of the text: UTF-8 is self-synchronising. *)
Definition ws_tail (l : bytes) : nat :=
  let tail n := ws_len (drop (length l - n) l) in
  if (tail 1 =? 1)%nat then 1%nat
  else if (tail 2 =? 2)%nat then 2%nat
  else if (tail 3 =? 3)%nat then 3%nat else 0%nat.

Fixpoint trim_start (fuel : nat) (l : bytes) : bytes :=
  match fuel, ws_len l with
  | S fuel, S n => trim_start fuel (drop (S n) l)
  | _, _ => l
  end.

Fixpoint trim_end (fuel : nat) (l : bytes) : bytes :=
  match fuel, ws_tail l with
  | S fuel, S n => trim_end fuel (take (length l - S n) l)
  | _, _ => l
  end.

Definition str_trim (l : bytes) : bytes :=
  let l := trim_start (length l) l in trim_end (length l) l.

Definition to_lower (b : byte) : byte := if in_range 65 90 (bz b) then zb (bz b + 32) else b.
Definition to_upper (b : byte) : byte := if in_range 97 122 (bz b) then zb (bz b - 32) else b.

(** [strip_suffix] and the repeated [trim_end_matches]. *)
Definition strip_suffix (suf l : bytes) : option bytes :=
  if decide (drop (length l - length suf) l = suf ∧ (length suf ≤ length l)%nat)
  then Some (take (length l - length suf) l) else None.

Fixpoint trim_end_matches (fuel : nat) (suf l : bytes) : bytes :=
  match fuel, strip_suffix suf l with
  | S fuel, Some l => trim_end_matches fuel suf l
  | _, _ => l
  end.

(** Text of ASCII letters and digits has nothing to trim. *)
Definition graphic (b : byte) : bool := in_range 33 126 (bz b).

Lemma ws_len_graphic l : forallb graphic (take 1 l) = true → ws_len l = 0%nat.
Proof.
  destruct l as [|b l]; [done|]. cbn [take forallb]. rewrite andb_true_r. unfold graphic, ws_len, in_range.
  cbn [fmap list_fmap]. intros H.
  rewrite (proj2 (orb_false_iff _ _)) by (rewrite andb_false_iff; lia).
  destruct l as [|c l]; [done|]. cbn [fmap list_fmap].
  rewrite (proj2 (andb_false_iff (bz b =? 194) _)) by lia.
  destruct l as [|d l]; [done|]. cbn [fmap list_fmap].
  by rewrite !(proj2 (Z.eqb_neq (bz b) _)) by lia.
Qed.

Lemma ws_tail_graphic l : forallb graphic l = true → ws_tail l = 0%nat.
Proof.
  intros H.
  assert (Hd : ∀ n, ws_len (drop n l) = 0%nat).
  { intros n. apply ws_len_graphic. apply forallb_forall. intros b Hb.
    rewrite forallb_forall in H. apply H. apply list_elem_of_In in Hb. apply list_elem_of_In.
    apply elem_of_take in Hb as (i & Hi & _). rewrite lookup_drop in Hi. by eapply list_elem_of_lookup_2. }
  unfold ws_tail. by rewrite !Hd.
Qed.

Lemma str_trim_graphic l : forallb graphic l = true → str_trim l = l.
Proof.
  intros H. assert (Hs : trim_start (length l) l = l).
  { destruct l as [|b l]; [done|]. cbn [length trim_start]. rewrite ws_len_graphic; [done|].
    cbn in H |- *. apply andb_true_iff in H as [-> _]. done. }
  unfold str_trim. rewrite Hs. destruct l as [|b l]; [done|].
  cbn [length trim_end]. by rewrite ws_tail_graphic.
Qed.

(** ** Prefixes, splitting and lines *)

(** [strip_prefix] and [starts_with]. *)
Definition strip_prefix (pre l : bytes) : option bytes :=
  if decide (take (length pre) l = pre) then Some (drop (length pre) l) else None.
Definition starts_with (l pre : bytes) : bool := bool_decide (take (length pre) l = pre).

(** [split] at an ASCII character: one more piece than separators. *)
Fixpoint split_on (c : byte) (l : bytes) : list bytes :=
  match l with
  | [] => [[]]
  | b :: l =>
      if decide (b = c) then [] :: split_on c l
      else match split_on c l with
           | w :: ws => (b :: w) :: ws
           | [] => [[b]]
           end
  end.

(** [split_once]: around the first separator. *)
Fixpoint split_once (c : byte) (l : bytes) : option (bytes * bytes) :=
  match l with
  | [] => None
  | b :: l =>
      if decide (b = c) then Some ([], l)
      else '(x, y) ← split_once c l; Some (b :: x, y)
  end.

(** [join] *)
Fixpoint join (sep : bytes) (ws : list bytes) : bytes :=
  match ws with
  | [] => []
  | [w] => w
  | w :: ws => w ++ sep ++ join sep ws
  end.

Definition LF : byte := zb 10.
Definition CR : byte := zb 13.

(** [lines()]: the pieces up to each line feed without it and without one
    carriage return before it; a last piece without line feed as it is. *)
Fixpoint lines_of (ws : list bytes) : list bytes :=
  match ws with
  | [] => []
  | [w] => if decide (w = []) then [] else [w]
  | w :: ws => default w (strip_suffix [CR] w) :: lines_of ws
  end.
Definition str_lines (l : bytes) : list bytes := lines_of (split_on LF l).

(** [split_whitespace()]: the maximal runs without white space; [cur] is the
    run under way, reversed. *)
Fixpoint split_ws (fuel : nat) (cur l : bytes) : list bytes :=
  let flush := if decide (cur = []) then [] else [rev cur] in
  match fuel, l with
  | S fuel, b :: t =>
      match ws_len l with
      | O => split_ws fuel (b :: cur) t
      | n => flush ++ split_ws fuel [] (drop n l)
      end
  | _, _ => flush
  end.
Definition split_whitespace (l : bytes) : list bytes := split_ws (length l) [] l.

Lemma strip_prefix_app pre l : strip_prefix pre (pre ++ l) = Some l.
Proof.
  unfold strip_prefix. rewrite take_app_length, decide_True by done. by rewrite drop_app_length.
Qed.

Lemma starts_with_app pre l : starts_with (pre ++ l) pre = true.
Proof. unfold starts_with. rewrite take_app_length. by apply bool_decide_eq_true. Qed.

Lemma split_once_app c x y : c ∉ x → split_once c (x ++ c :: y) = Some (x, y).
Proof.
  induction x as [|b x IH]; cbn; intros Hc; [by rewrite decide_True|].
  apply not_elem_of_cons in Hc as [Hb Hx]. rewrite decide_False by done. by rewrite IH.
Qed.

Lemma split_on_app c x y : c ∉ x → split_on c (x ++ c :: y) = x :: split_on c y.
Proof.
  induction x as [|b x IH]; cbn; intros Hc; [by rewrite decide_True|].
  apply not_elem_of_cons in Hc as [Hb Hx]. rewrite decide_False by done. by rewrite IH.
Qed.

Lemma split_on_none c x : c ∉ x → split_on c x = [x].
Proof.
  induction x as [|b x IH]; cbn; intros Hc; [done|].
  apply not_elem_of_cons in Hc as [Hb Hx]. rewrite decide_False by done. by rewrite IH.
Qed.

(** Splitting undoes joining with the separator. *)
Lemma split_on_join c ws :
  ws ≠ [] → (∀ w, w ∈ ws → c ∉ w) → split_on c (join [c] ws) = ws.
Proof.
  induction ws as [|w ws IH]; [done|]. intros _ Hc. destruct ws as [|v ws].
  - apply split_on_none, Hc. by left.
  - change (join [c] (w :: v :: ws)) with (w ++ c :: join [c] (v :: ws)).
    rewrite split_on_app by (apply Hc; by left). f_equal. apply IH; [done|].
    intros u Hu. apply Hc. by right.
Qed.
