(* ===== verification/Limits.v ===== *)
(** The bounds catalogs: [wire-types/src/limits.rs] (caps on peer-supplied
    payload fields) and [core/src/limits.rs] (operational caps). *)

From S2P Require Import Prelude.

(** ** [wire-types/src/limits.rs] *)

Definition MAX_BODY_BYTES : Z := 16 * 1024.

Definition MAX_NAME_BYTES : Z := 32.
Definition MAX_JPEG : Z := 24 * 1024.

Definition MAX_ATTACH : Z := 25 * 1024 * 1024.
Definition CHUNK_DATA_MAX : Z := 27900.
Definition MAX_MIME : Z := 64.
Definition MAX_EXT : Z := 8.
Definition MAX_CAPTION : Z := 16 * 1024.
Definition MAX_CHUNKS : Z := 1024.

Definition MAX_ENVELOPE_BYTES : Z := 27996.

Definition MAX_BITMAP_BYTES : Z := 512.
Definition BITMAP_BITS : Z := MAX_BITMAP_BYTES * 8.
Definition DEEP_WINDOW : Z := 4096.

Definition MAX_ERASE_HOURS : Z := 24 * 365.

Definition KIND_EMOJI : Z := 1.
Definition KIND_STICKER : Z := 2.
Definition VISIBILITY_PUBLIC : Z := 1.
Definition VISIBILITY_PRIVATE : Z := 2.
Definition MAX_ITEMS_EMOJI : Z := 64.
Definition MAX_ITEMS_STICKER : Z := 50.
Definition MAX_EDGE_EMOJI : Z := 160.
Definition MAX_EDGE_STICKER : Z := 512.
Definition MAX_BYTES_EMOJI : Z := 64 * 1024.
Definition MAX_BYTES_STICKER : Z := 512 * 1024.
Definition STICKER_ASPECT_NUM : Z := 3.
Definition MAX_TITLE_CHARS : Z := 32.
Definition INLINE_BYTES_MAX : Z := 27500.
Definition ITEM_CHUNK_MAX : Z := 27500.
Definition MAX_ITEM_CHUNKS : Z := 24.
Definition PACK_CHUNK_MAX : Z := 27500.
Definition MAX_PACK_CHUNKS : Z := 1280.
Definition MAX_THUMB_BYTES : Z := 8 * 1024.
Definition THUMB_EDGE : Z := 96.
Definition MAX_THUMBS_DOC_BYTES : Z := 512 * 1024.
Definition MAX_THUMBS_CHUNKS : Z := 24.
Definition MAX_PACK_DOC_BYTES : Z := 28 * 1024 * 1024.

Definition MAX_PACKS_TOTAL : Z := 100.
Definition MAX_PACKS_PER_SENDER : Z := 16.
Definition MAX_CACHED_PACKS : Z := 32.
Definition MAX_CACHE_ENTRIES : Z := 4096.
Definition CACHE_TTL_SEC : Z := 7 * 86400.
Definition PACK_SERVES_PER_PEER_PER_DAY : Z := 8.
Definition MAX_PENDING_ITEMS : Z := 64.
Definition MAX_PENDING_ITEM_BYTES : Z := 8 * 1024 * 1024.
Definition MAX_PENDING_PACKS : Z := 4.
Definition PENDING_CHUNK_TTL_SEC : Z := 600.

Definition max_items (kind : Z) : Z :=
  if kind =? KIND_EMOJI then MAX_ITEMS_EMOJI
  else if kind =? KIND_STICKER then MAX_ITEMS_STICKER
  else 0.

Definition max_edge (kind : Z) : Z :=
  if kind =? KIND_EMOJI then MAX_EDGE_EMOJI
  else if kind =? KIND_STICKER then MAX_EDGE_STICKER
  else 0.

Definition max_bytes (kind : Z) : Z :=
  if kind =? KIND_EMOJI then MAX_BYTES_EMOJI
  else if kind =? KIND_STICKER then MAX_BYTES_STICKER
  else 0.

Definition valid_kind (kind : Z) : bool := (kind =? KIND_EMOJI) || (kind =? KIND_STICKER).

Definition valid_visibility (visibility : Z) : bool :=
  (visibility =? VISIBILITY_PUBLIC) || (visibility =? VISIBILITY_PRIVATE).

(** The products are taken at 64 bits from 32-bit operands: no wrap. *)
Definition aspect_ok (kind w h : Z) : bool :=
  if (w =? 0) || (h =? 0) then false
  else if kind =? KIND_EMOJI then w =? h
  else if kind =? KIND_STICKER then
    (w <=? h * STICKER_ASPECT_NUM) && (h <=? w * STICKER_ASPECT_NUM)
  else false.

Definition item_ok (kind w h byte_len : Z) : bool :=
  valid_kind kind && (0 <? byte_len) && (byte_len <=? max_bytes kind)
  && aspect_ok kind w h && (Z.max w h <=? max_edge kind).

(** ** [core/src/limits.rs] *)

Definition MAX_INPUT_BYTES : Z := 25 * 1024 * 1024.
Definition MAX_DECODE_EDGE : Z := 8192.
Definition LONG_EDGE : Z := 1080.
Definition JPEG_TARGET_BYTES : Z := 400 * 1024.
Definition PROFILE_EDGES : list Z := [512; 384; 256].

Definition MAX_INTRO_BYTES : Z := 8192.
Definition MAX_CONN_PACKETS : Z := 1025.
Definition MAX_CONN_BYTES : Z := 44 * 1024 * 1024 + MAX_INTRO_BYTES.

Definition MAX_FILES : Z := 2048.
Definition MAX_BYTES : Z := 64 * 1024 * 1024.

Definition MAX_QR_PAYLOAD_BYTES : Z := 8192.
Definition MAX_PENDING_REQUESTS : Z := 256.
Definition MAX_RELATIONSHIPS : Z := 1024.

Definition MAX_THREAD_PAGE : Z := 200.
Definition clamp_thread_page (limit : Z) : Z := Z.min limit MAX_THREAD_PAGE.

Definition TOMBSTONE_CAP : Z := 4096.

Definition INLINE_MAX : Z := 27000.
Definition BUCKET_GRANULARITY : Z := 8.

Definition VIEW_SCAN_LIMIT : Z := 65536.

Definition MAX_ORPHAN_CHUNKS_PER_HEAD : Z := 1024.
Definition MAX_ORPHAN_BYTES_PER_HEAD : Z := 25 * 1024 * 1024.
Definition MAX_ORPHAN_CHUNKS_PER_REL : Z := 4096.
Definition MAX_ORPHAN_BYTES_PER_REL : Z := 64 * 1024 * 1024.
Definition ORPHAN_TTL_SECS : Z := 24 * 3600.

Definition DRAIN_BATCH : Z := 64.

Definition INBOUND_FRAME_PER_SEC : Z := 256.
Definition INBOUND_FRAME_BURST : Z := 4096.
Definition RESYNC_REQ_PER_SEC : Z := 1.
Definition RESYNC_REQ_BURST : Z := 8.
Definition EPHEMERAL_PER_SEC : Z := 4.
Definition EPHEMERAL_BURST : Z := 16.
Definition INTRO_MIN_INTERVAL_SECS : Z := 1.
Definition CONTROL_CMD_PER_SEC : Z := 8.
Definition CONTROL_CMD_BURST : Z := 64.
Definition STICKER_FETCH_PER_SEC : Z := 8.
Definition STICKER_FETCH_BURST : Z := 32.
Definition STICKER_SERVE_PER_SEC : Z := 16.
Definition STICKER_SERVE_BURST : Z := 128.

Lemma max_bytes_bound kind : 0 ≤ max_bytes kind ≤ MAX_BYTES_STICKER.
Proof. unfold max_bytes. repeat case_match; cbv; split; discriminate. Qed.

Lemma max_items_bound kind : 0 ≤ max_items kind ≤ MAX_ITEMS_EMOJI.
Proof. unfold max_items. repeat case_match; cbv; split; discriminate. Qed.

(** Arithmetic over the wire bounds and the machine widths. *)
Ltac bnd :=
  unfold is_u8, is_u16, is_u32, is_u64, u8_max, u16_max, u32_max, u64_max,
    MAX_BODY_BYTES, MAX_NAME_BYTES, MAX_JPEG, MAX_ATTACH, CHUNK_DATA_MAX, MAX_MIME, MAX_EXT,
    MAX_CAPTION, MAX_CHUNKS, MAX_ENVELOPE_BYTES, BITMAP_BITS, MAX_BITMAP_BYTES, DEEP_WINDOW,
    MAX_BYTES_STICKER, MAX_BYTES_EMOJI, MAX_ITEMS_EMOJI, MAX_ITEMS_STICKER, INLINE_BYTES_MAX,
    ITEM_CHUNK_MAX, MAX_ITEM_CHUNKS, PACK_CHUNK_MAX, MAX_PACK_CHUNKS, MAX_THUMB_BYTES,
    MAX_THUMBS_DOC_BYTES, MAX_THUMBS_CHUNKS, MAX_PACK_DOC_BYTES in *;
  len_lia.
