(* ===== verification/Media.v ===== *)
(** The media pipeline ([core/src/media]): magic-byte sniffing, the bounded
    decode and re-encode of images, sticker preparation and the GIF encoder's
    checks. The [image] and [gif] crates are parameters: a picture is an
    abstract value with a width, a height and an alpha flag. *)

From S2P Require Import Prelude Bin RustStr Limits.

Inductive MediaError :=
| Unsupported (what : string)
| DecodeError (detail : Detail)
| EncodeError (detail : Detail)
| MediaTooLarge (size max : Z).

(** ** [media/sniff.rs] *)

Inductive MediaKind := Jpeg | Png | Webp | Heic | Mp4 | Webm | Gif | Reject.

#[export] Instance media_kind_eq_dec : EqDecision MediaKind.
Proof. solve_decision. Defined.

Definition kind_as_str (k : MediaKind) : string :=
  match k with
  | Jpeg => "jpeg" | Png => "png" | Webp => "webp" | Heic => "heic"
  | Mp4 => "mp4" | Webm => "webm" | Gif => "gif" | Reject => "reject"
  end.

(** [&head[a..b] == lit], behind its length guard. *)
Definition magic (head : bytes) (from : nat) (lit : bytes) : bool :=
  bool_decide (take (length lit) (drop from head) = lit).

Definition sniff (head : bytes) : MediaKind :=
  let n := len head in
  if (n >=? 3) && magic head 0 [zb 255; zb 216; zb 255] then Jpeg
  else if (n >=? 6) && (magic head 0 (str_bytes "GIF87a") || magic head 0 (str_bytes "GIF89a")) then Gif
  else if (n >=? 8) && magic head 0 [zb 137; zb 80; zb 78; zb 71] then Png
  else if (n >=? 12) && magic head 0 (str_bytes "RIFF") && magic head 8 (str_bytes "WEBP") then Webp
  else if (n >=? 12) && magic head 4 (str_bytes "ftyp") then
    if magic head 8 (str_bytes "heic") || magic head 8 (str_bytes "mif1")
       || magic head 8 (str_bytes "msf1") || magic head 8 (str_bytes "heif")
    then Heic else Mp4
  else if (n >=? 4) && magic head 0 [zb 26; zb 69; zb 223; zb 163] then Webm
  else Reject.

Definition is_image (k : MediaKind) : bool :=
  match k with Jpeg | Png | Webp | Heic => true | _ => false end.

Definition is_sticker_image (k : MediaKind) : bool :=
  match k with Png | Webp | Gif => true | _ => false end.

Definition is_video (k : MediaKind) : bool :=
  match k with Mp4 | Webm => true | _ => false end.

Definition is_animated_webp (bs : bytes) : bool :=
  if negb (bool_decide (sniff bs = Webp)) || (len bs <? 21) then false
  else if negb (magic bs 12 (str_bytes "VP8X")) then false
  else negb (Z.land (bz (default (zb 0) (bs !! 20%nat))) 2 =? 0).

(** ** [media/image.rs] *)

Definition JPEG_QUALITY : Z := 40.
Definition JPEG_QUALITY_MIN : Z := 20.
Definition PROFILE_JPEG_QUALITY : Z := 40.

(** The [image] crate: [DynamicImage] and its codecs. *)
Class ImageCodecs := {
  Img : Type;
  width : Img → Z;
  height : Img → Z;
  has_alpha : Img → bool;
  (** [ImageReader::decode] with a format hint and an edge limit. *)
  decode : option MediaKind → Z → bytes → result Detail Img;
  write_jpeg : Z → Img → result Detail bytes;
  write_png : Img → result Detail bytes;
  (** [resize(e, e, Lanczos3)] keeps the aspect. *)
  resize : Z → Img → Img;
  crop_imm : Z → Z → Z → Z → Img → Img;
}.

Section Image.
Context {codecs : ImageCodecs}.

Definition format_hint (k : MediaKind) : option MediaKind :=
  match k with Jpeg | Png | Webp | Gif => Some k | _ => None end.

Definition decode_bounded (bs : bytes) : result MediaError Img :=
  if bool_decide (bs = []) then Err (DecodeError (Lit "empty input"))
  else if len bs >? MAX_INPUT_BYTES then Err (MediaTooLarge (len bs) MAX_INPUT_BYTES)
  else map_err DecodeError (decode (format_hint (sniff bs)) MAX_DECODE_EDGE bs).

Definition encode_jpeg (img : Img) (quality : Z) : result MediaError bytes :=
  map_err EncodeError (write_jpeg quality img).

Definition encode_png (img : Img) : result MediaError bytes := map_err EncodeError (write_png img).

Definition fit_long_edge (img : Img) (max_edge : Z) : Img :=
  if Z.max (width img) (height img) <=? max_edge then img else resize max_edge img.

(** The quality ladder; [None] when the fuel runs out. *)
Fixpoint quality_ladder (fuel : nat) (img : Img) (quality : Z) : option (result MediaError bytes) :=
  match fuel with
  | O => None
  | S fuel =>
      match encode_jpeg img quality with
      | Err e => Some (Err e)
      | Ok out =>
          if (len out <=? JPEG_TARGET_BYTES) || (quality <=? JPEG_QUALITY_MIN) then Some (Ok out)
          else quality_ladder fuel img (quality - 5)
      end
  end.

(** Five rungs: 40, 35, 30, 25, 20. *)
Definition LADDER_FUEL : nat := 5.

Definition strip_and_reencode_image (bs : bytes) : option (result MediaError bytes) :=
  if len bs >? MAX_INPUT_BYTES then Some (Err (MediaTooLarge (len bs) MAX_INPUT_BYTES))
  else
    let kind := sniff bs in
    if negb (is_image kind) && negb (bool_decide (kind = Gif))
    then Some (Err (Unsupported (kind_as_str kind)))
    else
      match decode_bounded bs with
      | Err e => Some (Err e)
      | Ok img =>
          let img := fit_long_edge img LONG_EDGE in
          if has_alpha img then Some (encode_png img)
          else quality_ladder LADDER_FUEL img JPEG_QUALITY
      end.

Definition make_thumbnail (bs : bytes) : result MediaError bytes :=
  let* img := decode_bounded bs in
  let scaled := fit_long_edge img THUMB_EDGE in
  let* out := if has_alpha scaled then encode_png scaled else encode_jpeg scaled 80 in
  if len out >? MAX_THUMB_BYTES then Err (MediaTooLarge (len out) MAX_THUMB_BYTES) else Ok out.

(** The edge ladder of [prepare_profile_jpeg]. *)
Fixpoint profile_ladder (img : Img) (edges : list Z) : result MediaError bytes :=
  match edges with
  | [] => Err (MediaTooLarge u64_max MAX_JPEG)
  | edge :: edges =>
      let* out := encode_jpeg (fit_long_edge img edge) PROFILE_JPEG_QUALITY in
      if len out <=? MAX_JPEG then Ok out else profile_ladder img edges
  end.

Definition prepare_profile_jpeg (bs : bytes) : result MediaError bytes :=
  let* img := decode_bounded bs in profile_ladder img PROFILE_EDGES.

Definition crop_image (bs : bytes) (x y w h : Z) : result MediaError bytes :=
  let* img := decode_bounded bs in
  if (w =? 0) || (h =? 0) || (wrap32 (x + w) >? width img) || (wrap32 (y + h) >? height img)
  then Err (DecodeError (Fmt "crop {x},{y} {w}x{h} outside {}x{}" [x; y; w; h; width img; height img]))
  else encode_png (crop_imm x y w h img).

(** ** [media/sticker.rs] *)

Record PreparedSticker := mkPreparedSticker {
  ps_bytes : bytes;
  ps_width : Z;
  ps_height : Z;
  ps_thumb : bytes;
}.

Definition THUMB_EDGES : list Z := [THUMB_EDGE; 64; 48; 32].

Fixpoint make_thumb (img : Img) (edges : list Z) : result MediaError bytes :=
  match edges with
  | [] => Err (MediaTooLarge u64_max MAX_THUMB_BYTES)
  | edge :: edges =>
      let* bs := encode_png (fit_long_edge img edge) in
      if len bs <=? MAX_THUMB_BYTES then Ok bs else make_thumb img edges
  end.

Definition prepare_sticker (bs : bytes) (kind : Z) : result MediaError PreparedSticker :=
  if negb (valid_kind kind) then Err (Unsupported "unknown sticker kind")
  else
    let sniffed := sniff bs in
    if negb (is_sticker_image sniffed) then Err (Unsupported (kind_as_str sniffed))
    else if len bs >? max_bytes kind then Err (MediaTooLarge (len bs) (max_bytes kind))
    else
      let* img := decode_bounded bs in
      let w := width img in
      let h := height img in
      if negb (aspect_ok kind w h) then Err (Unsupported "aspect out of range")
      else if bool_decide (sniffed = Gif) || (bool_decide (sniffed = Webp) && is_animated_webp bs) then
        if Z.max w h >? max_edge kind then Err (Unsupported "animated source over edge cap")
        else
          let* thumb := make_thumb img THUMB_EDGES in
          Ok (mkPreparedSticker bs w h thumb)
      else
        let scaled := fit_long_edge img (max_edge kind) in
        let* png := encode_png scaled in
        if len png >? max_bytes kind then Err (MediaTooLarge (len png) (max_bytes kind))
        else
          let* thumb := make_thumb scaled THUMB_EDGES in
          Ok (mkPreparedSticker png (width scaled) (height scaled) thumb).
End Image.

(** ** [media/gifenc.rs] *)

Record GifFrame := mkGifFrame {
  gf_rgba : bytes;
  gf_width : Z;
  gf_height : Z;
  gf_delay_cs : Z;
}.

Definition validate_frame (f : GifFrame) : result MediaError unit :=
  let want := gf_width f * gf_height f * 4 in
  if (gf_width f =? 0) || (gf_height f =? 0) || negb (len (gf_rgba f) =? want)
  then Err (EncodeError (Fmt "frame {}x{} wants {want} rgba bytes, got {}"
                           [gf_width f; gf_height f; want; len (gf_rgba f)]))
  else Ok tt.

Section GifEncoder.
(** [gif::Encoder]: opened on a logical screen, fed frames, and its bytes. *)
Context {Enc : Type} (gif_new : Z → Z → result Detail Enc) (gif_frame : Enc → GifFrame → result Detail Enc).
Context (gif_bytes : Enc → bytes).

Fixpoint write_frames (w h : Z) (enc : Enc) (frames : list GifFrame) : result MediaError Enc :=
  match frames with
  | [] => Ok enc
  | f :: frames =>
      let* _ := validate_frame f in
      if negb (gf_width f =? w) || negb (gf_height f =? h)
      then Err (EncodeError (Fmt "frame {}x{} does not match logical screen {w}x{h}"
                               [gf_width f; gf_height f; w; h]))
      else
        let* enc := map_err EncodeError (gif_frame enc f) in
        write_frames w h enc frames
  end.

Definition encode_gif (frames : list GifFrame) : result MediaError bytes :=
  match frames with
  | [] => Err (EncodeError (Lit "no frames"))
  | first :: _ =>
      let* _ := validate_frame first in
      let w := gf_width first in
      let h := gf_height first in
      if (w >? u16_max) || (h >? u16_max) then Err (EncodeError (Fmt "gif dims {w}x{h} exceed u16" [w; h]))
      else
        let* enc := map_err EncodeError (gif_new w h) in
        let* enc := write_frames w h enc frames in
        let out := gif_bytes enc in
        if negb (bool_decide (sniff out = Gif)) then Err (EncodeError (Lit "encoder output failed sniff"))
        else Ok out
  end.
End GifEncoder.

(** ** Theorems *)

Section MediaFacts.
Context {codecs : ImageCodecs}.

(** A rung of the ladder: its quality, and the rungs tried before it gave
    too many bytes. *)
Definition rung (img : Img) (from quality : Z) (out : bytes) : Prop :=
  write_jpeg quality img = Ok out
  ∧ (len out ≤ JPEG_TARGET_BYTES ∨ quality = JPEG_QUALITY_MIN)
  ∧ ∀ q, quality < q ≤ from → (q - quality) mod 5 = 0 →
      ∃ big, write_jpeg q img = Ok big ∧ JPEG_TARGET_BYTES < len big.

Lemma ladder_total img n quality fuel :
  quality = JPEG_QUALITY_MIN + 5 * Z.of_nat n → (n < fuel)%nat →
  ∃ r, quality_ladder fuel img quality = Some r
    ∧ ∀ out, r = Ok out → ∃ k, (k ≤ n)%nat ∧ rung img quality (JPEG_QUALITY_MIN + 5 * Z.of_nat k) out.
Proof.
  unfold JPEG_QUALITY_MIN. revert quality fuel. induction n as [|n IH]; intros q [|fuel] -> Hf; try lia;
    cbn [quality_ladder]; unfold encode_jpeg, JPEG_QUALITY_MIN;
    destruct (write_jpeg _ img) as [out|e] eqn:E; cbn [map_err]; try by (eexists; split; [done|]; done).
  - rewrite orb_true_r. eexists. split; [done|]. intros ? [= <-]. exists 0%nat.
    unfold rung, JPEG_QUALITY_MIN. split_and!; [lia|done|by right|]. intros q Hq. lia.
  - destruct (Z.leb_spec (len out) JPEG_TARGET_BYTES) as [Hs|Hb]; cbn [orb].
    + eexists. split; [done|]. intros ? [= <-]. exists (S n). unfold rung.
      split_and!; [lia|done|by left|]. intros q Hq. lia.
    + destruct (Z.leb_spec (20 + 5 * Z.of_nat (S n)) 20); [lia|].
      replace (20 + 5 * Z.of_nat (S n) - 5) with (20 + 5 * Z.of_nat n) by lia.
      destruct (IH _ fuel eq_refl ltac:(lia)) as (r & Hr & Hok). exists r. split; [done|].
      intros o Ho. destruct (Hok o Ho) as (k & Hk & H1 & H2 & H3). exists k. split; [lia|].
      unfold rung, JPEG_QUALITY_MIN in *. split_and!; [done|done|]. intros q Hq Hm.
      destruct (decide (q ≤ 20 + 5 * Z.of_nat n)); [apply H3; [lia|done]|].
      assert (q = 20 + 5 * Z.of_nat (S n)) as ->; [|eauto].
      apply Z.mod_divide in Hm as [z Hz]; [|done]. lia.
Qed.

(** The call fails: there is no result to describe. *)
Ltac refused := eexists; split; [reflexivity|]; intros ? [=].

(** Re-encoding always finishes: the quality ladder has a rung for every
    input. What comes back was decoded from an input of bounded size with an
    image's magic bytes; it is the PNG of a picture with alpha, or the JPEG of
    the best quality on the ladder that meets the byte target (the last rung,
    whatever its size, when none does). *)
Theorem reencode_ladder bs :
  ∃ r, strip_and_reencode_image bs = Some r
    ∧ ∀ out, r = Ok out →
      len bs ≤ MAX_INPUT_BYTES ∧ (is_image (sniff bs) = true ∨ sniff bs = Gif)
      ∧ ∃ img, decode (format_hint (sniff bs)) MAX_DECODE_EDGE bs = Ok img
        ∧ let scaled := fit_long_edge img LONG_EDGE in
          (has_alpha scaled = true ∧ write_png scaled = Ok out)
          ∨ (has_alpha scaled = false
             ∧ ∃ k, (k ≤ 4)%nat ∧ rung scaled JPEG_QUALITY (JPEG_QUALITY_MIN + 5 * Z.of_nat k) out).
Proof.
  unfold strip_and_reencode_image.
  destruct (Z.gtb_spec (len bs) MAX_INPUT_BYTES) as [|Hn]; [refused|].
  destruct (negb (is_image (sniff bs)) && negb (bool_decide (sniff bs = Gif))) eqn:Hk; [refused|].
  assert (Hkind : is_image (sniff bs) = true ∨ sniff bs = Gif).
  { destruct (is_image (sniff bs)); [by left|]. right.
    by destruct (bool_decide_reflect (sniff bs = Gif)). }
  clear Hk. unfold decode_bounded. destruct (bool_decide (bs = [])); [refused|].
  destruct (Z.gtb_spec (len bs) MAX_INPUT_BYTES); [refused|].
  destruct (decode _ _ bs) as [img|e] eqn:Hd; cbn [map_err]; [|refused].
  destruct (has_alpha (fit_long_edge img LONG_EDGE)) eqn:Ha.
  - eexists. split; [done|]. intros out Hout. split_and!; [lia|done|]. exists img. split; [done|].
    left. split; [done|]. unfold encode_png in Hout. by destruct (write_png _); simplify_eq/=.
  - destruct (ladder_total (fit_long_edge img LONG_EDGE) 4 JPEG_QUALITY LADDER_FUEL eq_refl ltac:(unfold LADDER_FUEL; lia))
      as (r & Hr & Hok).
    exists r. split; [done|]. intros out Hout. split_and!; [lia|done|]. exists img. split; [done|].
    right. split; [done|]. destruct (Hok out Hout) as (k & ? & ?). exists k. split; [lia|done].
Qed.

Lemma make_thumb_bound img edges out : make_thumb img edges = Ok out → len out ≤ MAX_THUMB_BYTES.
Proof.
  induction edges as [|e edges IH]; cbn [make_thumb]; [done|].
  intros (bs & _ & H)%rbind_Ok. destruct (Z.leb_spec (len bs) MAX_THUMB_BYTES); [by simplify_eq|auto].
Qed.

(** A prepared sticker fits the wire: its bytes and its long edge are
    within the kind's caps and its preview within the thumbnail's, whatever
    the decoder returned, as long as a resize stays within its box. The bytes
    are the source's own only for an animation; a still picture is written
    anew from its pixels. *)
Theorem prepared_sticker_fits bs kind p :
  (∀ e img, Z.max (width (resize e img)) (height (resize e img)) ≤ e) →
  prepare_sticker bs kind = Ok p →
  valid_kind kind = true ∧ len (ps_bytes p) ≤ max_bytes kind
  ∧ Z.max (ps_width p) (ps_height p) ≤ max_edge kind ∧ len (ps_thumb p) ≤ MAX_THUMB_BYTES
  ∧ (ps_bytes p = bs ∧ (sniff bs = Gif ∨ is_animated_webp bs = true)
     ∨ ∃ img, write_png img = Ok (ps_bytes p)).
Proof.
  intros Hres. unfold prepare_sticker. destruct (valid_kind kind); [|done]. cbn [negb].
  destruct (is_sticker_image (sniff bs)); [|done]. cbn [negb].
  destruct (Z.gtb_spec (len bs) (max_bytes kind)) as [|Hlen]; [done|].
  intros (img & _ & H)%rbind_Ok. destruct (aspect_ok _ _ _); [|done]. cbn [negb] in H.
  destruct (bool_decide (sniff bs = Gif) || _) eqn:Han.
  - destruct (Z.gtb_spec (Z.max (width img) (height img)) (max_edge kind)); [done|].
    apply rbind_Ok in H as (th & Hth & [= <-]). cbn. split_and!; [done|lia|lia|by eapply make_thumb_bound|].
    left. split; [done|]. apply orb_true_iff in Han as [H2%bool_decide_eq_true|[_ ?]%andb_true_iff]; auto.
  - apply rbind_Ok in H as (png & Hpng & H). destruct (Z.gtb_spec (len png) (max_bytes kind)); [done|].
    apply rbind_Ok in H as (th & Hth & [= <-]). cbn. split_and!; [done|lia| |by eapply make_thumb_bound|].
    + unfold fit_long_edge. destruct (Z.leb_spec (Z.max (width img) (height img)) (max_edge kind)); [lia|].
      apply Hres.
    + right. eexists. unfold encode_png in Hpng. by destruct (write_png _) eqn:?; simplify_eq/=.
Qed.
End MediaFacts.

(** A picture as its two sides, opaque; the encoders write the sides. *)
Definition toy_write (img : Z * Z) : result Detail bytes := Ok (be_bytes 4 img.1 ++ be_bytes 4 img.2).
Definition toy_codecs : ImageCodecs := {|
  Img := Z * Z;
  width := fst;
  height := snd;
  has_alpha _ := false;
  decode _ _ _ := Ok (600, 400);
  write_jpeg _ := toy_write;
  write_png := toy_write;
  resize e img := (e, Z.min e (img.2 * e / img.1));
  crop_imm _ _ w h _ := (w, h);
|}.
Definition demo_png : bytes := [zb 137; zb 80; zb 78; zb 71; zb 13; zb 10; zb 26; zb 10].
Definition demo_prepared : PreparedSticker :=
  mkPreparedSticker (be_bytes 4 512 ++ be_bytes 4 341) 512 341 (be_bytes 4 96 ++ be_bytes 4 63).

Lemma prepared_sticker_fits_witness :
  prepare_sticker (codecs := toy_codecs) demo_png KIND_STICKER = Ok demo_prepared
  ∧ len (ps_bytes demo_prepared) ≤ max_bytes KIND_STICKER
  ∧ Z.max (ps_width demo_prepared) (ps_height demo_prepared) ≤ max_edge KIND_STICKER.
Proof.
  assert (H : prepare_sticker (codecs := toy_codecs) demo_png KIND_STICKER = Ok demo_prepared)
    by (vm_compute; reflexivity).
  split; [exact H|].
  destruct (prepared_sticker_fits (codecs := toy_codecs) demo_png KIND_STICKER demo_prepared
    ltac:(intros e img; cbn; lia) H) as (_ & H2 & H3 & _).
  split; [exact H2|exact H3].
Defined.
