(* ===== verification/Payloads.v ===== *)
(** The small payload codecs of [wire-types]: MSG, EDIT, the empty bodies
    (DELETE, DELETE_ALL, CONTACT_CLOSE, READ, PROFILE_REQ), PRESENCE,
    TYPING, PREF and PROFILE, each an instance of the codec trait with its
    laws. Unicode normalization ([unicode_normalization::nfc], a
    third-party crate) is the argument [nfc] of the PROFILE codec. *)

From S2P Require Import Prelude Bin RustStr Limits.

(** ** MSG ([msg.rs]) and EDIT ([edit.rs]) *)

Record Msg := mkMsg { msg_body : bytes }.
Record Edit := mkEdit { edit_body : bytes }.

Definition msg_new (body : bytes) : result WireError Msg :=
  if len body >? MAX_BODY_BYTES
  then Err (TooLarge "msg.body" (len body) MAX_BODY_BYTES)
  else Ok (mkMsg body).

Definition msg_encode (m : Msg) : result WireError bytes :=
  if len (msg_body m) >? MAX_BODY_BYTES
  then Err (TooLarge "msg.body" (len (msg_body m)) MAX_BODY_BYTES)
  else Ok (msg_body m).

Definition msg_decode (bs : bytes) : result WireError Msg :=
  if len bs >? MAX_BODY_BYTES
  then Err (TooLarge "msg.body" (len bs) MAX_BODY_BYTES)
  else
    let* body := ok_or (from_utf8 bs) (BadField "msg.body" (Lit "invalid utf-8")) in
    Ok (mkMsg body).

Definition edit_new (body : bytes) : result WireError Edit :=
  if len body >? MAX_BODY_BYTES
  then Err (TooLarge "edit.body" (len body) MAX_BODY_BYTES)
  else Ok (mkEdit body).

Definition edit_encode (m : Edit) : result WireError bytes :=
  if len (edit_body m) >? MAX_BODY_BYTES
  then Err (TooLarge "edit.body" (len (edit_body m)) MAX_BODY_BYTES)
  else Ok (edit_body m).

Definition edit_decode (bs : bytes) : result WireError Edit :=
  if len bs >? MAX_BODY_BYTES
  then Err (TooLarge "edit.body" (len bs) MAX_BODY_BYTES)
  else
    let* body := ok_or (from_utf8 bs) (BadField "edit.body" (Lit "invalid utf-8")) in
    Ok (mkEdit body).

(** ** Empty bodies ([delete.rs], [contact.rs], [read.rs], [profile.rs]) *)

Definition decode_empty (bs : bytes) (at_ : string) : result WireError unit :=
  match bs with
  | [] => Ok tt
  | _ => Err (TooLarge at_ (len bs) 0)
  end.

Inductive Delete := mkDelete.
Inductive DeleteAll := mkDeleteAll.
Inductive ContactClose := mkContactClose.
Inductive Read := mkRead.
Inductive ProfileReq := mkProfileReq.

Definition delete_encode (_ : Delete) : result WireError bytes := Ok [].
Definition delete_decode (bs : bytes) : result WireError Delete :=
  let* _ := decode_empty bs "delete" in Ok mkDelete.
Definition delete_all_encode (_ : DeleteAll) : result WireError bytes := Ok [].
Definition delete_all_decode (bs : bytes) : result WireError DeleteAll :=
  let* _ := decode_empty bs "delete_all" in Ok mkDeleteAll.
Definition contact_close_encode (_ : ContactClose) : result WireError bytes := Ok [].
Definition contact_close_decode (bs : bytes) : result WireError ContactClose :=
  let* _ := decode_empty bs "contact_close" in Ok mkContactClose.
Definition read_encode (_ : Read) : result WireError bytes := Ok [].
Definition read_decode (bs : bytes) : result WireError Read :=
  let* _ := decode_empty bs "read" in Ok mkRead.
Definition profile_req_encode (_ : ProfileReq) : result WireError bytes := Ok [].
Definition profile_req_decode (bs : bytes) : result WireError ProfileReq :=
  let* _ := decode_empty bs "profile_req" in Ok mkProfileReq.

(** ** PRESENCE ([presence.rs]) *)

Record Presence := mkPresence { in_app : bool; do_not_disturb : bool }.

Definition PRESENCE_VERSION : Z := 1.
Definition FLAG_IN_APP : Z := Z.shiftl 1 0.
Definition FLAG_DND : Z := Z.shiftl 1 1.

(** [flags & bit != 0] *)
Definition has_flag (flags bit : Z) : bool := negb (Z.land flags bit =? 0).

Definition presence_encode (p : Presence) : result WireError bytes :=
  let flags := 0 in
  let flags := if in_app p then Z.lor flags FLAG_IN_APP else flags in
  let flags := if do_not_disturb p then Z.lor flags FLAG_DND else flags in
  Ok (w_finish (w_new ;> w_u8 PRESENCE_VERSION ;> w_u8 flags)).

Definition presence_body : parser Presence :=
  version <-- r_u8 "presence.version" ;;
  if negb (version =? PRESENCE_VERSION) then pfail (BadVersion "presence" version) else
  flags <-- r_u8 "presence.flags" ;;
  _ <-- r_expect_end "presence" ;;
  pret (mkPresence (has_flag flags FLAG_IN_APP) (has_flag flags FLAG_DND)).

Definition presence_decode (bs : bytes) : result WireError Presence := run presence_body bs.

(** ** TYPING ([typing.rs]) *)

Record Typing := mkTyping { typing : bool }.

Definition TYPING_VERSION : Z := 1.
Definition FLAG_TYPING : Z := Z.shiftl 1 0.

Definition typing_encode (t : Typing) : result WireError bytes :=
  Ok (w_finish (w_new ;> w_u8 TYPING_VERSION ;> w_u8 (if typing t then FLAG_TYPING else 0))).

Definition typing_body : parser Typing :=
  version <-- r_u8 "typing.version" ;;
  if negb (version =? TYPING_VERSION) then pfail (BadVersion "typing" version) else
  flags <-- r_u8 "typing.flags" ;;
  _ <-- r_expect_end "typing" ;;
  pret (mkTyping (has_flag flags FLAG_TYPING)).

Definition typing_decode (bs : bytes) : result WireError Typing := run typing_body bs.

(** ** PREF ([pref.rs]) *)

Record Pref := mkPref {
  receive_media : bool;
  listen_saver : bool;
  inactivity_erase_hours : Z;
}.

Definition PREF_VERSION : Z := 1.
Definition FLAG_RECEIVE_MEDIA : Z := Z.shiftl 1 0.
Definition FLAG_LISTEN_SAVER : Z := Z.shiftl 1 1.

Definition pref_encode (p : Pref) : result WireError bytes :=
  if inactivity_erase_hours p >? MAX_ERASE_HOURS then
    Err (BadField "pref.inactivity_erase_hours"
           (Fmt "{} exceeds {}" [inactivity_erase_hours p; MAX_ERASE_HOURS]))
  else
    let flags := 0 in
    let flags := if receive_media p then Z.lor flags FLAG_RECEIVE_MEDIA else flags in
    let flags := if listen_saver p then Z.lor flags FLAG_LISTEN_SAVER else flags in
    Ok (w_finish (w_new ;> w_u8 PREF_VERSION ;> w_u32be flags
                  ;> w_u32be (inactivity_erase_hours p))).

Definition pref_body : parser Pref :=
  version <-- r_u8 "pref.version" ;;
  if negb (version =? PREF_VERSION) then pfail (BadVersion "pref" version) else
  flags <-- r_u32be "pref.flags" ;;
  hours <-- r_u32be "pref.erase_hours" ;;
  _ <-- r_expect_end "pref" ;;
  if hours >? MAX_ERASE_HOURS
  then pfail (BadField "pref.inactivity_erase_hours" (Fmt "{} exceeds {}" [hours; MAX_ERASE_HOURS]))
  else pret (mkPref (has_flag flags FLAG_RECEIVE_MEDIA) (has_flag flags FLAG_LISTEN_SAVER) hours).

Definition pref_decode (bs : bytes) : result WireError Pref := run pref_body bs.

(** ** PROFILE ([profile.rs]) *)

Record Profile := mkProfile { profile_name : bytes; profile_jpeg : bytes }.

Definition PROFILE_VERSION : Z := 1.

Definition jpeg_ok (jpeg : bytes) : bool :=
  match jpeg with
  | [] => true
  | b0 :: b1 :: _ :: _ => (bz b0 =? 255) && (bz b1 =? 216)
  | _ => false
  end.

Section ProfileCodec.
Context (nfc : bytes → bytes).

Definition name_ok (raw : bytes) : bool :=
  if negb (bool_decide (nfc raw = raw)) then false
  else if (len raw =? 0) || (len raw >? MAX_NAME_BYTES) then false
  else negb (existsb is_control (str_chars raw)).

Definition normalize_name (raw : bytes) : option bytes :=
  let name := nfc (str_trim raw) in if name_ok name then Some name else None.

Definition profile_encode (p : Profile) : result WireError bytes :=
  if negb (name_ok (profile_name p))
  then Err (BadField "profile.name" (Lit "name fails nfc/length/control rules"))
  else if len (profile_jpeg p) >? MAX_JPEG
  then Err (TooLarge "profile.jpeg" (len (profile_jpeg p)) MAX_JPEG)
  else if negb (jpeg_ok (profile_jpeg p))
  then Err (BadField "profile.jpeg" (Lit "bad jpeg magic"))
  else Ok (w_finish (w_new ;> w_u8 PROFILE_VERSION ;> w_lp (profile_name p)
                     ;> w_lp (profile_jpeg p))).

Definition profile_body : parser Profile :=
  version <-- r_u8 "profile.version" ;;
  if negb (version =? PROFILE_VERSION) then pfail (BadVersion "profile" version) else
  name_bytes <-- r_lp MAX_NAME_BYTES "profile.name" ;;
  name <-- plift (ok_or (from_utf8 name_bytes) (BadField "profile.name" (Lit "invalid utf-8"))) ;;
  if negb (name_ok name)
  then pfail (BadField "profile.name" (Lit "name fails nfc/length/control rules")) else
  jpeg <-- r_lp MAX_JPEG "profile.jpeg" ;;
  _ <-- r_expect_end "profile" ;;
  if negb (jpeg_ok jpeg) then pfail (BadField "profile.jpeg" (Lit "bad jpeg magic"))
  else pret (mkProfile name jpeg).

Definition profile_decode (bs : bytes) : result WireError Profile := run profile_body bs.
End ProfileCodec.

(** ** Instances and laws *)

#[export] Instance msg_payload : WirePayload Msg :=
  {| encode_payload := msg_encode; decode_payload := msg_decode |}.
#[export] Instance edit_payload : WirePayload Edit :=
  {| encode_payload := edit_encode; decode_payload := edit_decode |}.
#[export] Instance delete_payload : WirePayload Delete :=
  {| encode_payload := delete_encode; decode_payload := delete_decode |}.
#[export] Instance delete_all_payload : WirePayload DeleteAll :=
  {| encode_payload := delete_all_encode; decode_payload := delete_all_decode |}.
#[export] Instance contact_close_payload : WirePayload ContactClose :=
  {| encode_payload := contact_close_encode; decode_payload := contact_close_decode |}.
#[export] Instance read_payload : WirePayload Read :=
  {| encode_payload := read_encode; decode_payload := read_decode |}.
#[export] Instance profile_req_payload : WirePayload ProfileReq :=
  {| encode_payload := profile_req_encode; decode_payload := profile_req_decode |}.
#[export] Instance presence_payload : WirePayload Presence :=
  {| encode_payload := presence_encode; decode_payload := presence_decode |}.
#[export] Instance typing_payload : WirePayload Typing :=
  {| encode_payload := typing_encode; decode_payload := typing_decode |}.
#[export] Instance pref_payload : WirePayload Pref :=
  {| encode_payload := pref_encode; decode_payload := pref_decode |}.
Definition profile_payload (nfc : bytes → bytes) : WirePayload Profile :=
  {| encode_payload := profile_encode nfc; decode_payload := profile_decode nfc |}.

(** Case analysis on the guards of an encoder that returned [Ok]. *)
Ltac guards H :=
  repeat match type of H with
  | (if ?b then _ else _) = Ok _ => let E := fresh "Hg" in destruct b eqn:E; try discriminate H
  end.

Lemma decode_empty_Ok bs at_ u : decode_empty bs at_ = Ok u → bs = [].
Proof. by destruct bs. Qed.

Ltac solve_empty_laws :=
  intros; match goal with
  | H : context [decode_empty ?bs _] |- _ => destruct bs; cbn in H; simplify_eq; done
  | x : _ |- _ => destruct x; simplify_eq; done
  end.

#[export, refine] Instance msg_laws : WirePayloadLaws Msg :=
  {| wire_wf m := utf8_ok (msg_body m) = true |}.
Proof.
  - intros [body] bs Hu H. cbn in *. unfold msg_encode, msg_decode in *. cbn in *.
    guards H. injection H as <-. rewrite Hg. by rewrite from_utf8_ok.
  - intros bs [body] H. cbn in *. unfold msg_encode, msg_decode in *. cbn in *. guards H.
    apply rbind_Ok in H as (b & Hb & [= ->]).
    apply from_utf8_or_Ok in Hb as [-> Hu]. by rewrite Hg.
Defined.

#[export, refine] Instance edit_laws : WirePayloadLaws Edit :=
  {| wire_wf m := utf8_ok (edit_body m) = true |}.
Proof.
  - intros [body] bs Hu H. cbn in *. unfold edit_encode, edit_decode in *. cbn in *.
    guards H. injection H as <-. rewrite Hg. by rewrite from_utf8_ok.
  - intros bs [body] H. cbn in *. unfold edit_encode, edit_decode in *. cbn in *. guards H.
    apply rbind_Ok in H as (b & Hb & [= ->]).
    apply from_utf8_or_Ok in Hb as [-> Hu]. by rewrite Hg.
Defined.

#[export, refine] Instance delete_laws : WirePayloadLaws Delete := {| wire_wf _ := True |}.
Proof. all: cbn; unfold delete_encode, delete_decode; solve_empty_laws. Defined.
#[export, refine] Instance delete_all_laws : WirePayloadLaws DeleteAll := {| wire_wf _ := True |}.
Proof. all: cbn; unfold delete_all_encode, delete_all_decode; solve_empty_laws. Defined.
#[export, refine] Instance contact_close_laws : WirePayloadLaws ContactClose := {| wire_wf _ := True |}.
Proof. all: cbn; unfold contact_close_encode, contact_close_decode; solve_empty_laws. Defined.
#[export, refine] Instance read_laws : WirePayloadLaws Read := {| wire_wf _ := True |}.
Proof. all: cbn; unfold read_encode, read_decode; solve_empty_laws. Defined.
#[export, refine] Instance profile_req_laws : WirePayloadLaws ProfileReq := {| wire_wf _ := True |}.
Proof. all: cbn; unfold profile_req_encode, profile_req_decode; solve_empty_laws. Defined.

#[export, refine] Instance presence_laws : WirePayloadLaws Presence := {| wire_wf _ := True |}.
Proof.
  - intros [[] []] bs _ [= <-]; reflexivity.
  - done.
Defined.

#[export, refine] Instance typing_laws : WirePayloadLaws Typing := {| wire_wf _ := True |}.
Proof.
  - intros [[]] bs _ [= <-]; reflexivity.
  - done.
Defined.

#[export, refine] Instance pref_laws : WirePayloadLaws Pref :=
  {| wire_wf p := is_u32 (inactivity_erase_hours p) |}.
Proof.
  - intros [rm ls h] bs Hw H. cbn [encode_payload decode_payload pref_payload] in *.
    unfold pref_encode in H. cbn [receive_media listen_saver inactivity_erase_hours] in *. guards H.
    apply Ok_inj in H. subst bs. unfold pref_decode, pref_body. rstart. rstep; [done|]. rstep; [done|].
    rstep; [by destruct rm, ls|]. rstep; [done|]. rstep. rstep; [done|].
    destruct rm, ls; apply reads_ret.
  - intros bs [rm ls h] H. cbn in *. unfold pref_decode, pref_body in H.
    repeat rinv. simplify_eq. unfold pref_encode. cbn. by rewrite Hif0.
Defined.

Definition profile_laws (nfc : bytes → bytes) :
  @WirePayloadLaws Profile (profile_payload nfc).
Proof.
  refine (@Build_WirePayloadLaws _ (profile_payload nfc)
            (λ p, utf8_ok (profile_name p) = true) _ _).
  - intros [name jpeg] bs Hw H. cbn [encode_payload decode_payload profile_payload] in *.
    unfold profile_encode in H. cbn [profile_name profile_jpeg] in *. guards H.
    apply Ok_inj in H. subst bs. unfold profile_decode, profile_body. rstart. rstep; [done|]. rstep; [done|].
    assert (len name ≤ MAX_NAME_BYTES).
    { apply negb_false_iff in Hg. unfold name_ok in Hg.
      destruct (negb _); [done|]. destruct (_ || _) eqn:E; [done|].
      apply orb_false_iff in E as [_ E]. lia. }
    rstep; [done|done|]. rstep; [by rewrite from_utf8_ok|]. rstep; [done|].
    rstep; [lia|done|]. rstep. rstep; [done|]. apply reads_ret.
  - intros bs [name jpeg] H. cbn in *. unfold profile_decode, profile_body in H.
    repeat rinv. simplify_eq.
    match goal with H : ok_or (from_utf8 _) _ = Ok _ |- _ =>
      apply from_utf8_or_Ok in H as [-> Hu] end. split; [done|].
    unfold profile_encode. cbn. rewrite Hif0, Hif1.
    destruct (Z.gtb_spec (len jpeg) MAX_JPEG); [lia|]. done.
Defined.
