(* ===== verification/WirePolicy.v ===== *)
(** The CHAT_POLICY payload codec of [wire-types/src/policy.rs] (fixed
    28-byte layout) and the capability bits of [wire-types/src/caps.rs]. *)

From S2P Require Import Prelude Bin Payloads.

(** ** [caps.rs] *)

Definition CAP_V15 : Z := Z.shiftl 1 0.
Definition CAP_V19 : Z := Z.shiftl 1 1.
Definition CAP_STICKER : Z := Z.shiftl 1 2.
Definition CAP_PRESENCE : Z := Z.shiftl 1 3.
Definition CAP_POLICY : Z := Z.shiftl 1 4.
Definition CAP_TYPING : Z := Z.shiftl 1 5.
Definition CAP_READ : Z := Z.shiftl 1 6.

(** [caps::LOCAL]: what this build advertises. *)
Definition CAPS_LOCAL : Z :=
  Z.lor (Z.lor (Z.lor (Z.lor (Z.lor (Z.lor CAP_V15 CAP_V19) CAP_STICKER) CAP_PRESENCE)
    CAP_POLICY) CAP_TYPING) CAP_READ.

(** ** Constants of [policy.rs] *)

Definition POLICY_VERSION : Z := 1.

Definition OP_RULE_PROPOSE : Z := 1.
Definition OP_RULE_ACCEPT : Z := 2.
Definition OP_CAP_SET : Z := 3.
Definition OP_SYNC : Z := 4.

Definition FLAG_SCREENSHOT : Z := Z.shiftl 1 0.
Definition FLAG_ATTACH_DL : Z := Z.shiftl 1 1.
Definition FLAG_WANT_ATTACH : Z := Z.shiftl 1 2.
Definition FLAG_WANT_EMOJI : Z := Z.shiftl 1 3.
Definition FLAG_WANT_PRESENCE : Z := Z.shiftl 1 4.
Definition FLAG_WANT_TYPING : Z := Z.shiftl 1 5.
Definition FLAG_WANT_RECEIPTS : Z := Z.shiftl 1 6.

Definition CAP_ID_ATTACH : Z := 0.
Definition CAP_ID_EMOJI : Z := 1.
Definition CAP_ID_PRESENCE : Z := 2.
Definition CAP_ID_TYPING : Z := 3.
Definition CAP_ID_RECEIPTS : Z := 4.
Definition CAP_ID_MAX : Z := CAP_ID_RECEIPTS.

Definition TTL_1H : Z := 3600.
Definition TTL_6H : Z := 21600.
Definition TTL_12H : Z := 43200.
Definition TTL_24H : Z := 86400.
Definition TTL_3D : Z := 259200.
Definition TTL_7D : Z := 604800.
Definition TTL_14D : Z := 1209600.
Definition TTL_NEVER : Z := 0.

Definition TTL_OPTIONS : list Z :=
  [TTL_1H; TTL_6H; TTL_12H; TTL_24H; TTL_3D; TTL_7D; TTL_14D; TTL_NEVER].

Definition is_allowed_ttl (ttl : Z) : bool := existsb (Z.eqb ttl) TTL_OPTIONS.

Definition cap_bit (cap_id : Z) : Z :=
  if cap_id =? CAP_ID_ATTACH then FLAG_WANT_ATTACH
  else if cap_id =? CAP_ID_EMOJI then FLAG_WANT_EMOJI
  else if cap_id =? CAP_ID_PRESENCE then FLAG_WANT_PRESENCE
  else if cap_id =? CAP_ID_TYPING then FLAG_WANT_TYPING
  else if cap_id =? CAP_ID_RECEIPTS then FLAG_WANT_RECEIPTS
  else 0.

Definition cap_id_of (bit : Z) : option Z :=
  if bit =? FLAG_WANT_ATTACH then Some CAP_ID_ATTACH
  else if bit =? FLAG_WANT_EMOJI then Some CAP_ID_EMOJI
  else if bit =? FLAG_WANT_PRESENCE then Some CAP_ID_PRESENCE
  else if bit =? FLAG_WANT_TYPING then Some CAP_ID_TYPING
  else if bit =? FLAG_WANT_RECEIPTS then Some CAP_ID_RECEIPTS
  else None.

Definition POLICY_SIZE : Z := 1 + 1 + 4 + 4 + 1 + 1 + 16.

(** ** [ChatPolicy] *)

Record ChatPolicy := mkChatPolicy {
  cp_op : Z;
  cp_ttl_sec : Z;
  cp_screenshot : bool;
  cp_attach_download : bool;
  cp_want_attach : bool;
  cp_want_emoji : bool;
  cp_want_presence : bool;
  cp_want_typing : bool;
  cp_want_receipts : bool;
  cp_cap_id : Z;
  cp_cap_on : bool;
  cp_propose_id : bytes;
}.

Definition policy_flags (p : ChatPolicy) : Z :=
  let flags := 0 in
  let flags := if cp_screenshot p then Z.lor flags FLAG_SCREENSHOT else flags in
  let flags := if cp_attach_download p then Z.lor flags FLAG_ATTACH_DL else flags in
  let flags := if cp_want_attach p then Z.lor flags FLAG_WANT_ATTACH else flags in
  let flags := if cp_want_emoji p then Z.lor flags FLAG_WANT_EMOJI else flags in
  let flags := if cp_want_presence p then Z.lor flags FLAG_WANT_PRESENCE else flags in
  let flags := if cp_want_typing p then Z.lor flags FLAG_WANT_TYPING else flags in
  let flags := if cp_want_receipts p then Z.lor flags FLAG_WANT_RECEIPTS else flags in
  flags.

Definition policy_validate (p : ChatPolicy) : result WireError unit :=
  if negb ((OP_RULE_PROPOSE <=? cp_op p) && (cp_op p <=? OP_SYNC))
  then Err (BadField "policy.op" (Fmt "op {}" [cp_op p]))
  else if negb (cp_op p =? OP_CAP_SET) && negb (is_allowed_ttl (cp_ttl_sec p))
  then Err (BadField "policy.ttl_sec" (Fmt "ttl {} not in options" [cp_ttl_sec p]))
  else if (cp_op p =? OP_CAP_SET) && (cp_cap_id p >? CAP_ID_MAX)
  then Err (BadField "policy.cap_id" (Fmt "cap id {}" [cp_cap_id p]))
  else Ok tt.

Definition policy_encode (p : ChatPolicy) : result WireError bytes :=
  let* _ := policy_validate p in
  Ok (w_finish (w_new ;> w_u8 POLICY_VERSION ;> w_u8 (cp_op p) ;> w_u32be (cp_ttl_sec p)
                ;> w_u32be (policy_flags p) ;> w_u8 (cp_cap_id p)
                ;> w_u8 (if cp_cap_on p then 1 else 0) ;> w_raw (cp_propose_id p))).

Definition policy_body : parser ChatPolicy :=
  version <-- r_u8 "policy.version" ;;
  if negb (version =? POLICY_VERSION) then pfail (BadVersion "policy" version) else
  op <-- r_u8 "policy.op" ;;
  ttl_sec <-- r_u32be "policy.ttl" ;;
  flags <-- r_u32be "policy.flags" ;;
  cap_id <-- r_u8 "policy.cap_id" ;;
  cap_on <-- r_u8 "policy.cap_on" ;;
  if cap_on >? 1 then pfail (BadField "policy.cap_on" (Fmt "{cap_on}" [cap_on])) else
  propose_id <-- r_take 16 "policy.propose_id" ;;
  _ <-- r_expect_end "policy" ;;
  let out := mkChatPolicy op ttl_sec
    (has_flag flags FLAG_SCREENSHOT) (has_flag flags FLAG_ATTACH_DL)
    (has_flag flags FLAG_WANT_ATTACH) (has_flag flags FLAG_WANT_EMOJI)
    (has_flag flags FLAG_WANT_PRESENCE) (has_flag flags FLAG_WANT_TYPING)
    (has_flag flags FLAG_WANT_RECEIPTS) cap_id (cap_on =? 1) propose_id in
  _ <-- plift (policy_validate out) ;;
  pret out.

Definition policy_decode (bs : bytes) : result WireError ChatPolicy :=
  if negb (len bs =? POLICY_SIZE) then Err (BadLength "policy" (len bs) POLICY_SIZE)
  else run policy_body bs.

#[export] Instance policy_payload : WirePayload ChatPolicy :=
  {| encode_payload := policy_encode; decode_payload := policy_decode |}.

(** ** Laws *)

Definition policy_wf (p : ChatPolicy) : Prop :=
  is_u8 (cp_op p) ∧ is_u32 (cp_ttl_sec p) ∧ is_u8 (cp_cap_id p) ∧ len (cp_propose_id p) = 16.

(** The flag word holds the seven booleans. *)
Lemma policy_flags_bits p :
  is_u32 (policy_flags p)
  ∧ has_flag (policy_flags p) FLAG_SCREENSHOT = cp_screenshot p
  ∧ has_flag (policy_flags p) FLAG_ATTACH_DL = cp_attach_download p
  ∧ has_flag (policy_flags p) FLAG_WANT_ATTACH = cp_want_attach p
  ∧ has_flag (policy_flags p) FLAG_WANT_EMOJI = cp_want_emoji p
  ∧ has_flag (policy_flags p) FLAG_WANT_PRESENCE = cp_want_presence p
  ∧ has_flag (policy_flags p) FLAG_WANT_TYPING = cp_want_typing p
  ∧ has_flag (policy_flags p) FLAG_WANT_RECEIPTS = cp_want_receipts p.
Proof.
  destruct p as [? ? [] [] [] [] [] [] [] ? ? ?]; split; try (cbv; split; discriminate);
    repeat split; reflexivity.
Qed.

Lemma policy_encode_Ok p bs :
  policy_encode p = Ok bs →
  policy_validate p = Ok tt
  ∧ bs = [zb POLICY_VERSION] ++ [zb (cp_op p)] ++ be_bytes 4 (cp_ttl_sec p)
         ++ be_bytes 4 (policy_flags p) ++ [zb (cp_cap_id p)]
         ++ [zb (if cp_cap_on p then 1 else 0)] ++ cp_propose_id p.
Proof.
  intros ([] & Hv & H)%rbind_Ok. split; [done|]. apply Ok_inj in H. subst bs. wnorm. done.
Qed.

#[export, refine] Instance policy_laws : WirePayloadLaws ChatPolicy := {| wire_wf := policy_wf |}.
Proof.
  - intros p bs (Hop & Httl & Hcap & Hid) [Hv ->]%policy_encode_Ok.
    destruct (policy_flags_bits p) as (Hf & F1 & F2 & F3 & F4 & F5 & F6 & F7).
    cbn [decode_payload policy_payload]. unfold policy_decode.
    rewrite !len_app, !len_be_bytes, !len_cons, !len_nil, Hid. cbn [negb Z.eqb].
    apply run_reads. rewrite <- !app_assoc. unfold policy_body.
    rstep; [done|]. rstep; [done|]. rstep; [done|]. rstep; [done|]. rstep; [done|].
    rstep; [done|]. rstep; [by destruct (cp_cap_on p)|]. rstep; [by destruct (cp_cap_on p)|].
    rstep; [done|]. rstep. rewrite F1, F2, F3, F4, F5, F6, F7.
    replace ((if cp_cap_on p then 1 else 0) =? 1) with (cp_cap_on p) by by destruct (cp_cap_on p).
    destruct p. rstep; [done|]. apply reads_ret.
  - intros bs p H. cbn in *. unfold policy_decode in H.
    destruct (negb _); [done|]. unfold policy_body in H. repeat rinv. subst p.
    match goal with H : policy_validate _ = Ok ?u |- _ => destruct u; rename H into Hval end.
    unfold policy_encode, policy_wf. rewrite Hval. done.
Defined.

Lemma cap_bit_cap_id_of cap_id :
  0 ≤ cap_id ≤ CAP_ID_MAX → cap_id_of (cap_bit cap_id) = Some cap_id.
Proof.
  unfold CAP_ID_MAX, CAP_ID_RECEIPTS. intros H.
  assert (cap_id ∈ [0; 1; 2; 3; 4]) as Hin by (rewrite !elem_of_cons; lia).
  by repeat (apply elem_of_cons in Hin as [->|Hin]); [..|apply elem_of_nil in Hin].
Qed.
