(* ===== verification/WireResync.v ===== *)
(** The RESYNC_REQ payload of [wire-types/src/resync.rs]: the receive-view
    codec and the history fingerprint. SHA-256 ([sha2], a third-party
    crate) is the argument [sha256]; an incremental hasher is the list of
    bytes fed to it so far. *)

From S2P Require Import Prelude Bin Limits.

Definition HASH_BYTES : Z := 32.

(** [b"S7HIST1"] *)
Definition HASH_DOMAIN : bytes := [Byte.x53; Byte.x37; Byte.x48; Byte.x49; Byte.x53; Byte.x54; Byte.x31].

Record ResyncReq := mkResyncReq {
  rq_max_contiguous_seq : Z;
  rq_received_seq_bitmap : bytes;
  rq_caps : Z;
  rq_history_hash : bytes;
}.

Definition deep_base (max_contiguous_seq : Z) : Z :=
  Z.max (sat_add64 (sat_sub max_contiguous_seq DEEP_WINDOW) 1) 1.

Section HistoryHash.
Context (sha256 : bytes → bytes).

(** [for seq in deep_seqs { deep.update(seq.to_be_bytes()) }] *)
Fixpoint deep_update (hasher : bytes) (deep_seqs : list Z) : bytes :=
  match deep_seqs with
  | [] => hasher
  | seq :: rest => deep_update (hasher ++ be_bytes 8 seq) rest
  end.

(** The outer digest shared by both entry points. *)
Definition view_digest (max_contiguous_seq : Z) (bitmap deep_digest : bytes) : bytes :=
  let md := [] in
  let md := md ++ HASH_DOMAIN in
  let md := md ++ be_bytes 8 max_contiguous_seq in
  let md := md ++ be_bytes 4 (len bitmap) in
  let md := md ++ bitmap in
  let md := md ++ deep_digest in
  sha256 md.

Definition history_hash (max_contiguous_seq : Z) (bitmap : bytes) (deep_seqs : list Z) : bytes :=
  let deep_digest := sha256 (deep_update [] deep_seqs) in
  view_digest max_contiguous_seq bitmap deep_digest.

(** [while seq <= max { deep.update(..); seq += 1; }]: [seq += 1] is a
    checked addition, [None] where it leaves [u64] (a panic, or a loop
    that never ends when overflow checks are off). [None] too when the
    fuel runs out. *)
Fixpoint deep_loop (fuel : nat) (seq max : Z) (hasher : bytes) : option bytes :=
  match fuel with
  | O => None
  | S fuel =>
      if seq <=? max then
        let hasher := hasher ++ be_bytes 8 seq in
        if seq + 1 <=? u64_max then deep_loop fuel (seq + 1) max hasher else None
      else Some hasher
  end.

(** Fuel: the window holds at most [DEEP_WINDOW] sequence numbers, and one
    more test ends the loop. *)
Definition deep_fuel : nat := Z.to_nat (DEEP_WINDOW + 1).

Definition hash_contiguous (max_contiguous_seq : Z) (bitmap : bytes) : option bytes :=
  let base := deep_base max_contiguous_seq in
  match deep_loop deep_fuel base max_contiguous_seq [] with
  | Some deep => Some (view_digest max_contiguous_seq bitmap (sha256 deep))
  | None => None
  end.
End HistoryHash.

Definition resync_encode (q : ResyncReq) : result WireError bytes :=
  if len (rq_received_seq_bitmap q) >? MAX_BITMAP_BYTES
  then Err (TooLarge "resync.bitmap" (len (rq_received_seq_bitmap q)) MAX_BITMAP_BYTES)
  else Ok (w_finish (w_new ;> w_u64be (rq_max_contiguous_seq q) ;> w_lp (rq_received_seq_bitmap q)
                     ;> w_u32be (rq_caps q) ;> w_raw (rq_history_hash q))).

Definition resync_body : parser ResyncReq :=
  max_contiguous_seq <-- r_u64be "resync.max_seq" ;;
  bitmap <-- r_lp MAX_BITMAP_BYTES "resync.bitmap" ;;
  caps <-- r_u32be "resync.caps" ;;
  hash <-- r_take HASH_BYTES "resync.history_hash" ;;
  _ <-- r_expect_end "resync" ;;
  pret (mkResyncReq max_contiguous_seq bitmap caps hash).

Definition resync_decode (bs : bytes) : result WireError ResyncReq := run resync_body bs.

#[export] Instance resync_payload : WirePayload ResyncReq :=
  {| encode_payload := resync_encode; decode_payload := resync_decode |}.

Definition resync_wf (q : ResyncReq) : Prop :=
  is_u64 (rq_max_contiguous_seq q) ∧ is_u32 (rq_caps q) ∧ len (rq_history_hash q) = HASH_BYTES.

#[export, refine] Instance resync_laws : WirePayloadLaws ResyncReq := {| wire_wf := resync_wf |}.
Proof.
  - intros [m b c h] bs (Hm & Hc & Hh) H.
    cbn [encode_payload decode_payload resync_payload] in *. unfold resync_encode in H.
    cbn [rq_max_contiguous_seq rq_received_seq_bitmap rq_caps rq_history_hash] in *.
    destruct (Z.gtb_spec (len b) MAX_BITMAP_BYTES); [done|]. apply Ok_inj in H. subst bs.
    unfold resync_decode, resync_body. rstart. rstep; [done|]. rstep; [done|done|].
    rstep; [done|]. rstep; [done|]. rstep. apply reads_ret.
  - intros bs [m b c h] H. cbn in *. unfold resync_decode, resync_body in H.
    repeat rinv. simplify_eq. unfold resync_encode, resync_wf. cbn [rq_received_seq_bitmap].
    destruct (Z.gtb_spec (len b) MAX_BITMAP_BYTES); [lia|]. done.
Defined.

(** ** The fingerprint of a hole-free history *)

Lemma deep_base_spec m :
  is_u64 m → deep_base m = Z.max 1 (m - DEEP_WINDOW + 1).
Proof. unfold is_u64, u64_max, deep_base, sat_add64, sat_sub, u64_max, DEEP_WINDOW. lia. Qed.

(** The sequence numbers of [[base, max]], materialised. *)
Definition seq_range (base : Z) (n : nat) : list Z := (λ i, base + Z.of_nat i) <$> seq 0 n.

Lemma seq_range_S base n : seq_range base (S n) = base :: seq_range (base + 1) n.
Proof.
  unfold seq_range. cbn [seq fmap list_fmap]. f_equal; [lia|].
  rewrite <- seq_shift, <- list_fmap_compose. apply list_fmap_ext. intros. cbn. lia.
Qed.

Lemma deep_loop_range n fuel base h max :
  max < u64_max → base + Z.of_nat n = max + 1 → (n < fuel)%nat →
  deep_loop fuel base max h = Some (deep_update h (seq_range base n)).
Proof.
  intros Hmax. revert fuel base h. induction n as [|n IH]; intros [|fuel] base h Hb Hf; try lia.
  - cbn [deep_loop]. rewrite (proj2 (Z.leb_gt _ _)) by lia. done.
  - cbn [deep_loop]. rewrite (proj2 (Z.leb_le base max)), (proj2 (Z.leb_le (base + 1) _)) by lia.
    rewrite IH by lia. by rewrite seq_range_S.
Qed.

(** The materialised deep window of a view. *)
Definition deep_window (m : Z) : list Z :=
  seq_range (deep_base m) (Z.to_nat (m + 1 - deep_base m)).

Lemma hash_contiguous_materialised sha256 m bitmap :
  is_u64 m → m < u64_max →
  hash_contiguous sha256 m bitmap = Some (history_hash sha256 m bitmap (deep_window m)).
Proof.
  intros Hm Hlt. unfold hash_contiguous, history_hash, deep_window, deep_fuel.
  pose proof (deep_base_spec m Hm) as Hb. unfold is_u64 in Hm.
  erewrite deep_loop_range; [done|done| |]; unfold DEEP_WINDOW in *; lia.
Qed.

(** At [u64::MAX] the loop counter itself overflows: no digest. *)
Lemma hash_contiguous_overflow sha256 bitmap : hash_contiguous sha256 u64_max bitmap = None.
Proof.
  unfold hash_contiguous. rewrite deep_base_spec by (unfold is_u64; cbv; split; discriminate).
  replace deep_fuel with (S (Z.to_nat DEEP_WINDOW)) by reflexivity.
  assert (∀ n base h, base + Z.of_nat n = u64_max + 1 → (0 < n)%nat →
    deep_loop (S n) base u64_max h = None) as Hov; [|rewrite Hov; [done| |]; cbv; lia].
  intros n. induction n as [|n IH]; [lia|]. intros base h Hb _.
  change (deep_loop (S (S n)) base u64_max h) with
    (if base <=? u64_max then if base + 1 <=? u64_max
      then deep_loop (S n) (base + 1) u64_max (h ++ be_bytes 8 base) else None else Some h).
  rewrite (proj2 (Z.leb_le base _)) by lia.
  destruct (Z.leb_spec (base + 1) u64_max); [apply IH; lia|done].
Qed.
