(* ===== verification/WireAttach.v ===== *)
(** The ATTACH_HEAD (v1 chunked, v2 inline) and ATTACH_CHUNK payload codecs
    of [wire-types/src/attach.rs]. *)

From S2P Require Import Prelude Bin RustStr Limits Payloads.

Definition CLASS_IMAGE : Z := 1.
Definition CLASS_VIDEO : Z := 2.
Definition FLAG_VIEW_ONCE : Z := 1.
Definition ATTACH_VERSION : Z := 1.
Definition ATTACH_VERSION_INLINE : Z := 2.

Record AttachHead := mkAttachHead {
  ah_media_class : Z;
  ah_mime_hint : bytes;
  ah_orig_ext : bytes;
  ah_uncompressed_n : Z;
  ah_chunk_count : Z;
  ah_chunk_bucket : Z;
  ah_content_sha256 : bytes;
  ah_caption : bytes;
  ah_flags : Z;
}.

Definition view_once (h : AttachHead) : bool := has_flag (ah_flags h) FLAG_VIEW_ONCE.

Definition validate_common (h : AttachHead) : result WireError unit :=
  if negb (ah_media_class h =? CLASS_IMAGE) && negb (ah_media_class h =? CLASS_VIDEO)
  then Err (BadField "attach_head.media_class" (Fmt "class {}" [ah_media_class h]))
  else if len (ah_mime_hint h) >? MAX_MIME
  then Err (TooLarge "attach_head.mime" (len (ah_mime_hint h)) MAX_MIME)
  else if len (ah_orig_ext h) >? MAX_EXT
  then Err (TooLarge "attach_head.ext" (len (ah_orig_ext h)) MAX_EXT)
  else if (ah_uncompressed_n h <? 1) || (ah_uncompressed_n h >? MAX_ATTACH)
  then Err (BadField "attach_head.uncompressed_n" (Fmt "n {}" [ah_uncompressed_n h]))
  else if len (ah_caption h) >? MAX_CAPTION
  then Err (TooLarge "attach_head.caption" (len (ah_caption h)) MAX_CAPTION)
  else Ok tt.

(** The chunk-plan test shared by [encode_chunked] and [decode_chunked]. *)
Definition chunk_plan_bad (h : AttachHead) : bool :=
  (ah_chunk_count h <? 1) || (ah_chunk_count h >? MAX_CHUNKS)
  || (ah_chunk_bucket h <? ah_chunk_count h) || (ah_chunk_bucket h >? MAX_CHUNKS).

(** [encode_caption_tail(&mut w, ..)]: the writer is threaded. *)
Definition encode_caption_tail (caption : bytes) (flags : Z) (w : Writer)
    : result WireError Writer :=
  if (len caption =? 0) && (flags =? 0) then Ok w
  else
    let cap := caption in
    if len cap >? MAX_CAPTION
    then Err (TooLarge "attach_head.caption" (len cap) MAX_CAPTION)
    else
      let w := w ;> w_lp cap in
      let w := if negb (flags =? 0) then w ;> w_u8 flags else w in
      Ok w.

Definition encode_chunked (h : AttachHead) : result WireError bytes :=
  let* _ := validate_common h in
  if chunk_plan_bad h
  then Err (BadField "attach_head.chunks"
              (Fmt "count {} bucket {}" [ah_chunk_count h; ah_chunk_bucket h]))
  else
    let w := w_new ;> w_u8 ATTACH_VERSION ;> w_u8 (ah_media_class h)
             ;> w_lp (ah_mime_hint h) ;> w_lp (ah_orig_ext h) ;> w_u32be (ah_uncompressed_n h)
             ;> w_u16be (ah_chunk_count h) ;> w_u16be (ah_chunk_bucket h)
             ;> w_raw (ah_content_sha256 h) in
    let* w := encode_caption_tail (ah_caption h) (ah_flags h) w in
    Ok (w_finish w).

Definition encode_inline (h : AttachHead) (inline_bytes : bytes) : result WireError bytes :=
  let* _ := validate_common h in
  if negb (ah_chunk_count h =? 0) || negb (ah_chunk_bucket h =? 0)
  then Err (BadField "attach_head.chunks" (Lit "inline head must have zero chunk plan"))
  else if negb (len inline_bytes =? ah_uncompressed_n h)
  then Err (BadLength "attach_head.inline" (len inline_bytes) (ah_uncompressed_n h))
  else
    let w := w_new ;> w_u8 ATTACH_VERSION_INLINE ;> w_u8 (ah_media_class h)
             ;> w_lp (ah_mime_hint h) ;> w_lp (ah_orig_ext h) ;> w_u32be (ah_uncompressed_n h)
             ;> w_raw (ah_content_sha256 h) in
    let* w := encode_caption_tail (ah_caption h) (ah_flags h) w in
    Ok (w_finish (w ;> w_lp inline_bytes)).

Definition caption_utf8 (cap_bytes : bytes) : result WireError bytes :=
  ok_or (from_utf8 cap_bytes) (BadField "attach_head.caption" (Lit "invalid utf-8")).

Definition decode_caption_tail (total : Z) : parser (bytes * Z) :=
  remaining <-- r_get_remaining ;;
  if remaining =? 0 then pret ([], 0) else
  cap_len <-- r_u32be "attach_head.caption" ;;
  if cap_len >? MAX_CAPTION
  then pfail (BadLength "attach_head.caption" cap_len MAX_CAPTION) else
  cap_bytes <-- r_take cap_len "attach_head.caption" ;;
  cap_end <-- r_get_position ;;
  if cap_end =? total then
    if cap_len <? 1 then pfail (BadLength "attach_head.caption" 0 MAX_CAPTION) else
    caption <-- plift (caption_utf8 cap_bytes) ;;
    pret (caption, 0)
  else if cap_end + 1 =? total then
    caption <-- (if cap_len =? 0 then pret [] else plift (caption_utf8 cap_bytes)) ;;
    flags <-- r_u8 "attach_head.flags" ;;
    pret (caption, flags)
  else pfail (Trailing "attach_head" (total - cap_end)).

(** The [expect("ascii")] cannot fire: ASCII bytes are valid UTF-8
    ([ascii_utf8_ok]). *)
Definition read_ascii (max : Z) (at_ : string) : parser bytes :=
  bs <-- r_lp max at_ ;;
  if existsb (λ b, negb (is_ascii b)) bs then pfail (BadField at_ (Lit "not ascii"))
  else pret bs.

Definition chunked_body (total : Z) : parser AttachHead :=
  _ <-- r_u8 "attach_head.version" ;;
  media_class <-- r_u8 "attach_head.class" ;;
  mime_hint <-- read_ascii MAX_MIME "attach_head.mime" ;;
  orig_ext <-- read_ascii MAX_EXT "attach_head.ext" ;;
  uncompressed_n <-- r_u32be "attach_head.n" ;;
  chunk_count <-- r_u16be "attach_head.count" ;;
  chunk_bucket <-- r_u16be "attach_head.bucket" ;;
  content_sha256 <-- r_take 32 "attach_head.sha256" ;;
  tail <-- decode_caption_tail total ;;
  let head := mkAttachHead media_class mime_hint orig_ext uncompressed_n chunk_count
                chunk_bucket content_sha256 tail.1 tail.2 in
  _ <-- plift (validate_common head) ;;
  if chunk_plan_bad head
  then pfail (BadField "attach_head.chunks"
                (Fmt "count {} bucket {}" [ah_chunk_count head; ah_chunk_bucket head]))
  else pret head.

Definition decode_chunked (bs : bytes) : result WireError AttachHead :=
  run (chunked_body (len bs)) bs.

(** The length-prefix disambiguation of [decode_inline]: caption, flags
    and the inline blob of an [n]-byte file. *)
Definition inline_tail (n : Z) : parser (bytes * Z * bytes) :=
  peek <-- r_peek_u32be "attach_head.inline" ;;
  remaining <-- r_get_remaining ;;
  if (peek =? n) && (remaining =? 4 + peek) then
    _ <-- r_u32be "attach_head.inline" ;;
    inline <-- r_take peek "attach_head.inline" ;;
    pret ([], 0, inline)
  else
    cap_len <-- r_u32be "attach_head.caption" ;;
    if cap_len >? MAX_CAPTION
    then pfail (BadLength "attach_head.caption" cap_len MAX_CAPTION) else
    cap_bytes <-- r_take cap_len "attach_head.caption" ;;
    caption <-- plift (caption_utf8 cap_bytes) ;;
    peek2 <-- r_peek_u32be "attach_head.inline" ;;
    remaining2 <-- r_get_remaining ;;
    if (peek2 =? n) && (remaining2 =? 4 + peek2) then
      _ <-- r_u32be "attach_head.inline" ;;
      inline <-- r_take peek2 "attach_head.inline" ;;
      pret (caption, 0, inline)
    else
      flags <-- r_u8 "attach_head.flags" ;;
      inline_len <-- r_u32be "attach_head.inline" ;;
      remaining3 <-- r_get_remaining ;;
      if negb (inline_len =? n) || negb (remaining3 =? inline_len)
      then pfail (BadLength "attach_head.inline" inline_len n) else
      inline <-- r_take inline_len "attach_head.inline" ;;
      pret (caption, flags, inline).

Definition inline_body : parser (AttachHead * bytes) :=
  _ <-- r_u8 "attach_head.version" ;;
  media_class <-- r_u8 "attach_head.class" ;;
  mime_hint <-- read_ascii MAX_MIME "attach_head.mime" ;;
  orig_ext <-- read_ascii MAX_EXT "attach_head.ext" ;;
  uncompressed_n <-- r_u32be "attach_head.n" ;;
  content_sha256 <-- r_take 32 "attach_head.sha256" ;;
  tail <-- inline_tail uncompressed_n ;;
  let head := mkAttachHead media_class mime_hint orig_ext uncompressed_n 0 0
                content_sha256 tail.1.1 tail.1.2 in
  _ <-- plift (validate_common head) ;;
  pret (head, tail.2).

Definition decode_inline (bs : bytes) : result WireError (AttachHead * option bytes) :=
  let* hi := run inline_body bs in Ok (hi.1, Some hi.2).

Definition decode_with_inline (bs : bytes) : result WireError (AttachHead * option bytes) :=
  let* version := run (r_u8 "attach_head.version") bs in
  if version =? ATTACH_VERSION then let* h := decode_chunked bs in Ok (h, None)
  else if version =? ATTACH_VERSION_INLINE then decode_inline bs
  else Err (BadVersion "attach_head" version).

Record AttachHeadPayload := mkAttachHeadPayload {
  ahp_head : AttachHead;
  ahp_inline : option bytes;
}.

Definition attach_head_encode (p : AttachHeadPayload) : result WireError bytes :=
  match ahp_inline p with
  | Some bs => encode_inline (ahp_head p) bs
  | None => encode_chunked (ahp_head p)
  end.

Definition attach_head_decode (bs : bytes) : result WireError AttachHeadPayload :=
  let* hi := decode_with_inline bs in Ok (mkAttachHeadPayload hi.1 hi.2).

(** ** [AttachChunk] *)

Record AttachChunk := mkAttachChunk {
  ac_head_id : bytes;
  ac_index : Z;
  ac_pad : bool;
  ac_data : bytes;
}.

Definition attach_chunk_encode (c : AttachChunk) : result WireError bytes :=
  if len (ac_data c) >? CHUNK_DATA_MAX
  then Err (TooLarge "attach_chunk.data" (len (ac_data c)) CHUNK_DATA_MAX)
  else if ac_pad c && negb (len (ac_data c) =? 0)
  then Err (BadField "attach_chunk.pad" (Lit "pad chunk carries data"))
  else Ok (w_finish (w_new ;> w_raw (ac_head_id c) ;> w_u16be (ac_index c)
                     ;> w_u8 (if ac_pad c then 1 else 0) ;> w_lp (ac_data c))).

Definition attach_chunk_body : parser AttachChunk :=
  head_id <-- r_take 16 "attach_chunk.head" ;;
  index <-- r_u16be "attach_chunk.index" ;;
  padb <-- r_u8 "attach_chunk.pad" ;;
  pad <-- (if padb =? 0 then pret false
           else if padb =? 1 then pret true
           else pfail (BadField "attach_chunk.pad" (Fmt "{other}" [padb]))) ;;
  data <-- r_lp CHUNK_DATA_MAX "attach_chunk.data" ;;
  _ <-- r_expect_end "attach_chunk" ;;
  if pad && negb (len data =? 0)
  then pfail (BadField "attach_chunk.pad" (Lit "pad chunk carries data"))
  else pret (mkAttachChunk head_id index pad data).

Definition attach_chunk_decode (bs : bytes) : result WireError AttachChunk :=
  run attach_chunk_body bs.

#[export] Instance attach_head_payload : WirePayload AttachHeadPayload :=
  {| encode_payload := attach_head_encode; decode_payload := attach_head_decode |}.
#[export] Instance attach_chunk_payload : WirePayload AttachChunk :=
  {| encode_payload := attach_chunk_encode; decode_payload := attach_chunk_decode |}.

(** ** What the writers write *)

Definition tail_bytes (caption : bytes) (flags : Z) : bytes :=
  if (len caption =? 0) && (flags =? 0) then []
  else be_bytes 4 (len caption) ++ caption ++ (if negb (flags =? 0) then [zb flags] else []).

Lemma encode_caption_tail_Ok c f w w' :
  encode_caption_tail c f w = Ok w' → w_buf w' = w_buf w ++ tail_bytes c f.
Proof.
  unfold encode_caption_tail, tail_bytes. destruct ((_ =? 0) && _).
  - intros <-%Ok_inj. by rewrite app_nil_r.
  - destruct (_ >? _); [done|]. intros <-%Ok_inj.
    destruct (negb _); wnorm; by rewrite <- ?app_assoc, ?app_nil_r.
Qed.

Lemma encode_caption_tail_total c f w :
  len c ≤ MAX_CAPTION → ∃ w', encode_caption_tail c f w = Ok w'.
Proof.
  intros Hc. unfold encode_caption_tail. destruct (_ && _); [by eauto|].
  destruct (Z.gtb_spec (len c) MAX_CAPTION); [lia|by eauto].
Qed.

Lemma validate_common_Ok h u :
  validate_common h = Ok u →
  (ah_media_class h = CLASS_IMAGE ∨ ah_media_class h = CLASS_VIDEO)
  ∧ len (ah_mime_hint h) ≤ MAX_MIME ∧ len (ah_orig_ext h) ≤ MAX_EXT
  ∧ 1 ≤ ah_uncompressed_n h ≤ MAX_ATTACH ∧ len (ah_caption h) ≤ MAX_CAPTION.
Proof. unfold validate_common. intros H. guards H. lia. Qed.

Lemma encode_chunked_Ok h bs :
  encode_chunked h = Ok bs →
  validate_common h = Ok tt ∧ chunk_plan_bad h = false
  ∧ bs = [zb ATTACH_VERSION] ++ [zb (ah_media_class h)]
         ++ be_bytes 4 (len (ah_mime_hint h)) ++ ah_mime_hint h
         ++ be_bytes 4 (len (ah_orig_ext h)) ++ ah_orig_ext h
         ++ be_bytes 4 (ah_uncompressed_n h) ++ be_bytes 2 (ah_chunk_count h)
         ++ be_bytes 2 (ah_chunk_bucket h) ++ ah_content_sha256 h
         ++ tail_bytes (ah_caption h) (ah_flags h).
Proof.
  intros ([] & Hv & H)%rbind_Ok. guards H. apply rbind_Ok in H as (w & Hw & <-%Ok_inj).
  apply encode_caption_tail_Ok in Hw. do 2 (split; [done|]). unfold w_finish. rewrite Hw.
  wnorm. by rewrite <- ?app_assoc.
Qed.

Lemma encode_inline_Ok h inl bs :
  encode_inline h inl = Ok bs →
  validate_common h = Ok tt ∧ ah_chunk_count h = 0 ∧ ah_chunk_bucket h = 0
  ∧ len inl = ah_uncompressed_n h
  ∧ bs = [zb ATTACH_VERSION_INLINE] ++ [zb (ah_media_class h)]
         ++ be_bytes 4 (len (ah_mime_hint h)) ++ ah_mime_hint h
         ++ be_bytes 4 (len (ah_orig_ext h)) ++ ah_orig_ext h
         ++ be_bytes 4 (ah_uncompressed_n h) ++ ah_content_sha256 h
         ++ tail_bytes (ah_caption h) (ah_flags h) ++ be_bytes 4 (len inl) ++ inl.
Proof.
  intros ([] & Hv & H)%rbind_Ok. guards H. apply rbind_Ok in H as (w & Hw & <-%Ok_inj).
  apply encode_caption_tail_Ok in Hw. split; [done|]. do 3 (split; [lia|]).
  unfold w_finish, w_lp, w_raw, w_u32be. cbn [w_buf]. rewrite Hw.
  wnorm. by rewrite <- ?app_assoc.
Qed.

(** ** Reading them back *)

Lemma ascii_existsb xs :
  existsb (λ b, negb (is_ascii b)) xs = false ↔ forallb is_ascii xs = true.
Proof.
  induction xs as [|x xs IH]; [done|]. cbn.
  destruct (is_ascii x); cbn; [apply IH|]. by split.
Qed.

Lemma reads_ascii_bind {B} N max at_ xs (k : bytes → parser B) ys rest b :
  forallb is_ascii xs = true → len xs ≤ max → max ≤ u32_max → reads N (k xs) ys rest b →
  reads N (pbind (read_ascii max at_) k) (be_bytes 4 (len xs) ++ xs ++ ys) rest b.
Proof.
  intros Ha Hx Hm Hk. rewrite app_assoc. eapply reads_bind; [|done].
  unfold read_ascii. rewrite <- (app_nil_r xs) at 2. apply reads_lp_bind; [done|done|].
  apply reads_if; [by apply ascii_existsb|apply reads_ret].
Qed.

Lemma read_ascii_Ok max at_ r xs r' :
  r_wf r → read_ascii max at_ r = Ok (xs, r') →
  took r r' (be_bytes 4 (len xs) ++ xs) ∧ len xs ≤ max ∧ forallb is_ascii xs = true.
Proof.
  unfold read_ascii. intros Hw H. repeat rinv. subst.
  split; [done|]. split; [done|]. by apply ascii_existsb.
Qed.

Lemma caption_utf8_ok c : utf8_ok c = true → caption_utf8 c = Ok c.
Proof. intros H. unfold caption_utf8. by rewrite from_utf8_ok. Qed.

Lemma tail_bytes_cases c f :
  (c = [] ∧ f = 0 ∧ tail_bytes c f = [])
  ∨ (f = 0 ∧ 1 ≤ len c ∧ tail_bytes c f = be_bytes 4 (len c) ++ c)
  ∨ (f ≠ 0 ∧ tail_bytes c f = be_bytes 4 (len c) ++ c ++ [zb f]).
Proof.
  unfold tail_bytes. pose proof (len_nonneg c).
  destruct (Z.eqb_spec f 0) as [->|Hf]; destruct (Z.eqb_spec (len c) 0) as [Hc|Hc]; cbn.
  - left. by apply len_0_nil in Hc.
  - right. left. rewrite app_nil_r. split; [done|]. split; [lia|done].
  - by right; right.
  - by right; right.
Qed.

Lemma reads_caption_tail N c f :
  utf8_ok c = true → len c ≤ MAX_CAPTION → is_u8 f →
  reads N (decode_caption_tail N) (tail_bytes c f) [] (c, f).
Proof.
  intros Hu Hc Hf. pose proof (len_nonneg c) as H0. unfold decode_caption_tail.
  destruct (tail_bytes_cases c f) as [(-> & -> & ->)|[(-> & Hc1 & ->)|(Hf0 & ->)]].
  - rstep. apply reads_if_true; [done|]. apply reads_ret.
  - rstep. apply reads_if; [len_lia|].
    rstep; [bnd|]. apply reads_if; [len_lia|].
    rewrite <- (app_nil_r c) at 2. rstep; [done|]. rstep. apply reads_if_true; [len_lia|].
    apply reads_if; [len_lia|]. rstep; [by apply caption_utf8_ok|]. apply reads_ret.
  - rstep. apply reads_if; [len_lia|].
    rstep; [bnd|]. apply reads_if; [len_lia|].
    rstep; [done|]. rstep. apply reads_if; [len_lia|].
    apply reads_if_true; [len_lia|]. eapply reads_bind_nil.
    { destruct (Z.eqb_spec (len c) 0) as [E|E]; [apply len_0_nil in E as ->; apply reads_ret|].
      apply reads_lift. by apply caption_utf8_ok. }
    rewrite <- (app_nil_r [zb f]). rstep; [done|]. apply reads_ret.
Qed.

Lemma reads_inline_tail N c f inl n :
  utf8_ok c = true → len c ≤ MAX_CAPTION → is_u8 f → len inl = n → 1 ≤ n ≤ MAX_ATTACH →
  reads N (inline_tail n) (tail_bytes c f ++ be_bytes 4 (len inl) ++ inl) [] (c, f, inl).
Proof.
  intros Hu Hc Hf Hl Hn. pose proof (len_nonneg c) as H0. unfold inline_tail.
  assert (Hlu : is_u32 (len inl)) by bnd. assert (Hcu : is_u32 (len c)) by bnd.
  destruct (tail_bytes_cases c f) as [(-> & -> & ->)|[(-> & Hc1 & ->)|(Hf0 & ->)]].
  - rewrite app_nil_l. rstep; [done|]. rstep. apply reads_if_true; [len_lia|]. rstep; [done|].
    rewrite <- (app_nil_r inl) at 2. rstep; [done|]. apply reads_ret.
  - rewrite <- !app_assoc. rstep; [done|]. rstep. apply reads_if; [len_lia|]. rstep; [done|]. apply reads_if; [lia|].
    rstep; [done|]. rstep; [by apply caption_utf8_ok|]. rstep; [done|]. rstep. apply reads_if_true; [len_lia|]. rstep; [done|].
    rewrite <- (app_nil_r inl) at 2. rstep; [done|]. apply reads_ret.
  - rewrite <- !app_assoc. rstep; [done|]. rstep. apply reads_if; [len_lia|]. rstep; [done|]. apply reads_if; [lia|].
    rstep; [done|]. rstep; [by apply caption_utf8_ok|]. eapply reads_bind_nil.
    { apply reads_peek_any. len_lia. }
    rstep. apply reads_if; [len_lia|]. rstep; [done|]. rstep; [done|]. rstep.
    apply reads_if; [len_lia|].
    rewrite <- (app_nil_r inl) at 2. rstep; [done|]. apply reads_ret.
Qed.

(** ** Laws *)

Definition attach_head_wf (p : AttachHeadPayload) : Prop :=
  let h := ahp_head p in
  forallb is_ascii (ah_mime_hint h) = true ∧ forallb is_ascii (ah_orig_ext h) = true
  ∧ is_u16 (ah_chunk_count h) ∧ is_u16 (ah_chunk_bucket h) ∧ len (ah_content_sha256 h) = 32
  ∧ utf8_ok (ah_caption h) = true ∧ is_u8 (ah_flags h).

Lemma is_u8_class m : m = CLASS_IMAGE ∨ m = CLASS_VIDEO → is_u8 m.
Proof. by intros [-> | ->]. Qed.

Lemma chunked_roundtrip h bs :
  attach_head_wf (mkAttachHeadPayload h None) → encode_chunked h = Ok bs →
  decode_chunked bs = Ok h.
Proof.
  intros (Hm & He & Hcc & Hcb & Hs & Hu & Hf) (Hv & Hp & ->)%encode_chunked_Ok.
  cbn [ahp_head] in *. pose proof (validate_common_Ok _ _ Hv) as (Hc & Hml & Hel & Hn & Hcl).
  apply run_reads. rewrite app_nil_r. unfold chunked_body.
  rstep; [done|]. rstep; [by apply is_u8_class|].
  apply reads_ascii_bind; [done|done|done|]. apply reads_ascii_bind; [done|done|done|].
  rstep; [bnd|]. rstep; [done|]. rstep; [done|]. rstep; [done|].
  rewrite <- (app_nil_r (tail_bytes _ _)). eapply reads_bind; [by apply reads_caption_tail|].
  destruct h. cbn [fst snd ah_caption ah_flags ah_media_class ah_mime_hint ah_orig_ext
    ah_uncompressed_n ah_chunk_count ah_chunk_bucket ah_content_sha256].
  rstep; [done|]. apply reads_if; [done|]. apply reads_ret.
Qed.

Lemma inline_roundtrip h inl bs :
  attach_head_wf (mkAttachHeadPayload h (Some inl)) → encode_inline h inl = Ok bs →
  decode_inline bs = Ok (h, Some inl).
Proof.
  intros (Hm & He & Hcc & Hcb & Hs & Hu & Hf) (Hv & H0 & H0' & Hlen & ->)%encode_inline_Ok.
  cbn [ahp_head] in *. pose proof (validate_common_Ok _ _ Hv) as (Hc & Hml & Hel & Hn & Hcl).
  unfold decode_inline. rewrite (run_reads _ _ (h, inl)); [done|]. rewrite app_nil_r.
  unfold inline_body. rstep; [done|]. rstep; [by apply is_u8_class|].
  apply reads_ascii_bind; [done|done|done|]. apply reads_ascii_bind; [done|done|done|].
  rstep; [bnd|]. rstep; [done|].
  rewrite <- (app_nil_r (_ ++ _ ++ inl)). eapply reads_bind; [by apply reads_inline_tail|].
  destruct h. cbn [fst snd ah_caption ah_flags ah_media_class ah_mime_hint ah_orig_ext
    ah_uncompressed_n ah_chunk_count ah_chunk_bucket ah_content_sha256] in *. subst.
  rstep; [done|]. apply reads_ret.
Qed.

(** A head with a [v] in its first byte reads that version. *)
Lemma version_first v bs : is_u8 v → run (r_u8 "attach_head.version") ([zb v] ++ bs) = Ok v.
Proof.
  intros Hv. unfold run. rewrite (reads_u8 (len ([zb v] ++ bs)) _ v bs); [done|done|apply r_wf_new|done|].
  by rewrite unread_new.
Qed.

Lemma caption_tail_Ok total r c f r' :
  r_wf r → decode_caption_tail total r = Ok ((c, f), r') →
  utf8_ok c = true ∧ is_u8 f ∧ len c ≤ MAX_CAPTION.
Proof.
  unfold decode_caption_tail. intros Hw H.
  repeat (rinv; simplify_eq); try (match goal with H : caption_utf8 _ = Ok _ |- _ =>
    apply from_utf8_or_Ok in H as [-> ?] end); try (split; [done|]; split; [done|]; bnd).
Qed.

Lemma inline_tail_Ok n r c f inl r' :
  r_wf r → 0 ≤ n → inline_tail n r = Ok ((c, f, inl), r') →
  utf8_ok c = true ∧ is_u8 f ∧ len c ≤ MAX_CAPTION ∧ len inl = n.
Proof.
  unfold inline_tail. intros Hw Hn H.
  repeat (rinv; simplify_eq); try (match goal with H : caption_utf8 _ = Ok _ |- _ =>
    apply from_utf8_or_Ok in H as [-> ?] end); try (split; [done|]; split; [done|]; bnd).
Qed.

Lemma chunked_decoded bs h :
  decode_chunked bs = Ok h →
  attach_head_wf (mkAttachHeadPayload h None) ∧ is_ok (encode_chunked h) = true.
Proof.
  unfold decode_chunked, chunked_body. intros H. repeat rinv.
  repeat (match goal with H : read_ascii _ _ _ = Ok _ |- _ =>
    apply read_ascii_Ok in H as (? & ? & ?); [|by eauto with wire] end; repeat rinv).
  match goal with H : decode_caption_tail _ _ = Ok (?t, _) |- _ =>
    destruct t as [c f]; apply caption_tail_Ok in H as (? & ? & ?); [|by eauto with wire] end.
  match goal with H : validate_common _ = Ok ?u |- _ => destruct u; rename H into Hv end.
  cbn [fst snd] in *. subst h. unfold attach_head_wf. cbn [ahp_head]. split; [done|].
  unfold encode_chunked. rewrite Hv. cbn [rbind]. rewrite Hif. cbn [ah_caption ah_flags].
  match goal with |- context [encode_caption_tail c f ?w] =>
    destruct (encode_caption_tail_total c f w) as [w' ->] end; done.
Qed.

Lemma inline_decoded bs h inl :
  decode_inline bs = Ok (h, Some inl) →
  attach_head_wf (mkAttachHeadPayload h (Some inl)) ∧ is_ok (encode_inline h inl) = true.
Proof.
  unfold decode_inline, inline_body. intros ([h' inl'] & H & [= -> ->])%rbind_Ok. repeat rinv.
  repeat (match goal with H : read_ascii _ _ _ = Ok _ |- _ =>
    apply read_ascii_Ok in H as (? & ? & ?); [|by eauto with wire] end; repeat rinv).
  match goal with H : inline_tail _ _ = Ok (?t, _) |- _ =>
    destruct t as [[c f] b]; apply inline_tail_Ok in H as (? & ? & ? & Hl);
      [|by eauto with wire|bnd] end.
  match goal with H : validate_common _ = Ok ?u |- _ => destruct u; rename H into Hv end.
  cbn [fst snd] in *. simplify_eq. unfold attach_head_wf. cbn [ahp_head]. split; [done|].
  unfold encode_inline. rewrite Hv. cbn [rbind ah_chunk_count ah_chunk_bucket negb orb Z.eqb].
  cbn [ah_uncompressed_n]. rewrite Z.eqb_refl. cbn [negb ah_caption ah_flags].
  match goal with |- context [encode_caption_tail c f ?w] =>
    destruct (encode_caption_tail_total c f w) as [w' ->] end; done.
Qed.

Lemma decode_with_inline_Ok bs h o :
  decode_with_inline bs = Ok (h, o) →
  (o = None ∧ decode_chunked bs = Ok h) ∨ (∃ inl, o = Some inl ∧ decode_inline bs = Ok (h, Some inl)).
Proof.
  unfold decode_with_inline. intros (v & _ & H)%rbind_Ok.
  destruct (v =? ATTACH_VERSION); [apply rbind_Ok in H as (h' & ? & [= -> ->]); by left|].
  destruct (v =? ATTACH_VERSION_INLINE); [|done]. right.
  pose proof H as H'. unfold decode_inline in H' |- *. apply rbind_Ok in H' as ([? ?] & ? & [= -> <-]). eauto.
Qed.

#[export, refine] Instance attach_head_laws : WirePayloadLaws AttachHeadPayload :=
  {| wire_wf := attach_head_wf |}.
Proof.
  - intros [h [inl|]] bs Hw H; cbn in H |- *; unfold attach_head_encode in H; cbn in H;
      unfold attach_head_decode, decode_with_inline.
    + pose proof (inline_roundtrip _ _ _ Hw H) as Hd.
      apply encode_inline_Ok in H as (_ & _ & _ & _ & Hb). rewrite Hb at 1.
      rewrite version_first by done. cbn [rbind]. by rewrite Hd.
    + pose proof (chunked_roundtrip _ _ Hw H) as Hd.
      apply encode_chunked_Ok in H as (_ & _ & Hb). rewrite Hb at 1.
      rewrite version_first by done. cbn [rbind]. by rewrite Hd.
  - intros bs p H. cbn in H |- *. unfold attach_head_decode in H.
    apply rbind_Ok in H as ([h o] & H & [= <-]).
    apply decode_with_inline_Ok in H as [[-> H]|(inl & -> & H)]; cbn [fst snd].
    + by apply chunked_decoded in H.
    + by apply inline_decoded in H.
Defined.

Definition attach_chunk_wf (c : AttachChunk) : Prop :=
  len (ac_head_id c) = 16 ∧ is_u16 (ac_index c).

#[export, refine] Instance attach_chunk_laws : WirePayloadLaws AttachChunk :=
  {| wire_wf := attach_chunk_wf |}.
Proof.
  - intros [hid ix pad data] bs [Hid Hix] H.
    cbn [encode_payload decode_payload attach_chunk_payload] in *. unfold attach_chunk_encode in H.
    cbn [ac_head_id ac_index ac_pad ac_data] in *. guards H. apply Ok_inj in H. subst bs.
    unfold attach_chunk_decode, attach_chunk_body. rstart. rstep; [done|]. rstep; [done|].
    rstep; [by destruct pad|]. eapply (reads_bind_nil _ _ _ _ _ pad); [destruct pad; apply reads_ret|].
    rstep; [lia|done|]. rstep. apply reads_if; [done|]. apply reads_ret.
  - intros bs c H. cbn in *. unfold attach_chunk_decode, attach_chunk_body in H.
    repeat rinv; subst c; unfold attach_chunk_encode, attach_chunk_wf;
      cbn [ac_head_id ac_index ac_pad ac_data].
    all: (split; [done|]); match goal with H : len ?d ≤ CHUNK_DATA_MAX |- _ =>
      destruct (Z.gtb_spec (len d) CHUNK_DATA_MAX); [lia|] end.
    all: match goal with H : (_ && _) = false |- _ => by rewrite H end.
Defined.

(** ** Main result *)

(** ATTACH_HEAD, chunked and inline: a well-formed head that encodes
    decodes to itself, and every head the decoder accepts (of either
    version) is well formed and encodes again. *)
Theorem attach_head_codec (p : AttachHeadPayload) (bs : bytes) :
  (attach_head_wf p → attach_head_encode p = Ok bs → attach_head_decode bs = Ok p)
  ∧ (attach_head_decode bs = Ok p → attach_head_wf p ∧ is_ok (attach_head_encode p) = true).
Proof. split; [apply (@wire_roundtrip _ _ attach_head_laws p bs)|apply (@wire_decoded _ _ attach_head_laws bs p)]. Qed.

Definition demo_attach_head : AttachHeadPayload :=
  mkAttachHeadPayload (mkAttachHead CLASS_VIDEO [zb 97] [zb 98] 30000 2 8 (replicate 32 (zb 9)) [zb 99] 1) None.

Lemma attach_head_codec_witness :
  attach_head_decode (default [] (ok (attach_head_encode demo_attach_head))) = Ok demo_attach_head.
Proof. apply (attach_head_codec demo_attach_head); [by repeat split|by vm_compute]. Defined.
