(* ===== verification/WireSticker.v ===== *)
(** The STICKER and STICKER_CTRL payload codecs of
    [wire-types/src/sticker.rs] (items, pack references, the fetch
    operations). *)

From S2P Require Import Prelude Bin Limits Payloads.

(** ** STICKER: one item *)

Definition ITEM_VERSION : Z := 1.

Record StickerItem := mkStickerItem {
  si_kind : Z;
  si_visibility : Z;
  si_pack_id : bytes;
  si_pack_pk : bytes;
  si_item_id : Z;
  si_w : Z;
  si_h : Z;
  si_content_sha256 : bytes;
  si_bytes : option bytes;
}.

(** [b.is_empty() || b.len() > max_bytes(kind)] *)
Definition inline_out_of_range (kind : Z) (b : bytes) : bool :=
  (len b =? 0) || (len b >? max_bytes kind).

Definition sticker_validate (s : StickerItem) : result WireError unit :=
  if negb (valid_kind (si_kind s)) || negb (valid_visibility (si_visibility s))
  then Err (bad "sticker.kind" (Lit "unknown kind/visibility"))
  else if negb (aspect_ok (si_kind s) (si_w s) (si_h s))
  then Err (bad "sticker.dims" (Lit "aspect out of range"))
  else if Z.max (si_w s) (si_h s) >? max_edge (si_kind s)
  then Err (bad "sticker.dims" (Lit "edge over cap"))
  else
    match si_bytes s with
    | Some b =>
        if inline_out_of_range (si_kind s) b
        then Err (bad "sticker.bytes" (Lit "inline bytes out of range"))
        else Ok tt
    | None => Ok tt
    end.

Definition sticker_encode (s : StickerItem) : result WireError bytes :=
  let* _ := sticker_validate s in
  let w := w_new ;> w_u8 ITEM_VERSION ;> w_u8 (si_kind s) ;> w_u8 (si_visibility s)
           ;> w_raw (si_pack_id s) ;> w_raw (si_pack_pk s) ;> w_u16be (si_item_id s)
           ;> w_u16be (si_w s) ;> w_u16be (si_h s) ;> w_raw (si_content_sha256 s) in
  let w := match si_bytes s with
           | None => w ;> w_u8 0
           | Some b => w ;> w_u8 1 ;> w_lp b
           end in
  Ok (w_finish w).

Definition sticker_body : parser StickerItem :=
  version <-- r_u8 "sticker.version" ;;
  if negb (version =? ITEM_VERSION) then pfail (BadVersion "sticker" version) else
  kind <-- r_u8 "sticker.kind" ;;
  visibility <-- r_u8 "sticker.visibility" ;;
  if negb (valid_kind kind) || negb (valid_visibility visibility)
  then pfail (bad "sticker.kind" (Lit "unknown kind/visibility")) else
  pack_id <-- r_take 16 "sticker.pack_id" ;;
  pack_pk <-- r_take 32 "sticker.pack_pk" ;;
  item_id <-- r_u16be "sticker.item_id" ;;
  w <-- r_u16be "sticker.w" ;;
  h <-- r_u16be "sticker.h" ;;
  if negb (aspect_ok kind w h) then pfail (bad "sticker.dims" (Lit "aspect out of range")) else
  if Z.max w h >? max_edge kind then pfail (bad "sticker.dims" (Lit "edge over cap")) else
  content_sha256 <-- r_take 32 "sticker.sha256" ;;
  has_bytes <-- r_u8 "sticker.has_bytes" ;;
  inline <-- (if has_bytes =? 0 then
                _ <-- r_expect_end "sticker" ;; pret None
              else if has_bytes =? 1 then
                b <-- r_lp MAX_BYTES_STICKER "sticker.bytes" ;;
                _ <-- r_expect_end "sticker" ;;
                if inline_out_of_range kind b
                then pfail (bad "sticker.bytes" (Lit "inline bytes out of range"))
                else pret (Some b)
              else pfail (bad "sticker.has_bytes" (Fmt "{other}" [has_bytes]))) ;;
  pret (mkStickerItem kind visibility pack_id pack_pk item_id w h content_sha256 inline).

Definition sticker_decode (bs : bytes) : result WireError StickerItem := run sticker_body bs.

(** ** STICKER_CTRL *)

Definition CTRL_VERSION : Z := 1.
Definition OP_ACK : Z := 1.
Definition OP_WANT_ITEM : Z := 2.
Definition OP_ITEM_BODY : Z := 3.
Definition OP_WANT_PACK : Z := 4.
Definition OP_PACK_BODY : Z := 5.
Definition OP_PACK_REFUSED : Z := 6.
Definition OP_WANT_THUMBS : Z := 7.
Definition OP_THUMBS_BODY : Z := 8.

Definition REFUSED_PRIVATE : Z := 1.
Definition REFUSED_UNKNOWN : Z := 2.
Definition REFUSED_RATE_LIMITED : Z := 3.

Record PackRef := mkPackRef {
  pr_pack_id : bytes;
  pr_pack_pk : bytes;
  pr_kind : Z;
  pr_visibility : Z;
  pr_item_id : Z;
  pr_w : Z;
  pr_h : Z;
}.

Definition PACK_REF_LEN : Z := 16 + 32 + 1 + 1 + 2 + 2 + 2.

Definition pack_ref_encode_to (p : PackRef) (w : Writer) : Writer :=
  w ;> w_raw (pr_pack_id p) ;> w_raw (pr_pack_pk p) ;> w_u8 (pr_kind p)
    ;> w_u8 (pr_visibility p) ;> w_u16be (pr_item_id p) ;> w_u16be (pr_w p) ;> w_u16be (pr_h p).

Definition pack_ref_decode_from : parser PackRef :=
  pack_id <-- r_take 16 "pack_ref.pack_id" ;;
  pack_pk <-- r_take 32 "pack_ref.pack_pk" ;;
  kind <-- r_u8 "pack_ref.kind" ;;
  visibility <-- r_u8 "pack_ref.visibility" ;;
  if negb (valid_kind kind) || negb (valid_visibility visibility)
  then pfail (bad "pack_ref.kind" (Lit "unknown kind/visibility")) else
  item_id <-- r_u16be "pack_ref.item_id" ;;
  w <-- r_u16be "pack_ref.w" ;;
  h <-- r_u16be "pack_ref.h" ;;
  if negb (aspect_ok kind w h) then pfail (bad "pack_ref.dims" (Lit "aspect out of range")) else
  pret (mkPackRef pack_id pack_pk kind visibility item_id w h).

Inductive StickerCtrl :=
| Ack (sha : bytes)
| WantItem (sha : bytes)
| ItemBody (sha : bytes) (chunk_index chunk_count : Z) (data : bytes) (pack : option PackRef)
| WantPack (pack_id pack_pk : bytes)
| PackBody (pack_id pack_pk : bytes) (chunk_index chunk_count : Z) (data : bytes)
| PackRefused (pack_id pack_pk : bytes) (reason : Z)
| WantThumbs (pack_id pack_pk : bytes)
| ThumbsBody (pack_id pack_pk : bytes) (chunk_index chunk_count : Z) (data : bytes).

Definition take16 (at_ : string) : parser bytes := r_take 16 at_.
Definition take32 (at_ : string) : parser bytes := r_take 32 at_.

Definition check_chunk_plan (index count max_chunks : Z) (at_ : string) : result WireError unit :=
  if (count <? 1) || (count >? max_chunks) || (index >=? count)
  then Err (bad at_ (Fmt "chunk {index}/{count} (max {max_chunks})" [index; count; max_chunks]))
  else Ok tt.

(** The three chunk bodies share the plan test and the data bound. *)
Definition check_chunk (index count max_chunks : Z) (data : bytes) (max_data : Z) (at_ : string)
    : result WireError unit :=
  let* _ := check_chunk_plan index count max_chunks at_ in
  if len data >? max_data then Err (TooLarge at_ (len data) max_data) else Ok tt.

Definition want_item_len_ok (n : Z) : bool := (4 <=? n) && (n <=? 32).
Definition refused_reason_ok (reason : Z) : bool :=
  (REFUSED_PRIVATE <=? reason) && (reason <=? REFUSED_RATE_LIMITED).

Definition sticker_ctrl_encode (c : StickerCtrl) : result WireError bytes :=
  let w := w_new ;> w_u8 CTRL_VERSION in
  match c with
  | Ack sha => Ok (w_finish (w ;> w_u8 OP_ACK ;> w_raw sha))
  | WantItem sha =>
      if negb (want_item_len_ok (len sha))
      then Err (bad "sticker_ctrl.want_item" (Lit "sha len 4..=32"))
      else Ok (w_finish (w ;> w_u8 OP_WANT_ITEM ;> w_u8 (len sha) ;> w_raw sha))
  | ItemBody sha chunk_index chunk_count data pack =>
      let* _ := check_chunk chunk_index chunk_count MAX_ITEM_CHUNKS data ITEM_CHUNK_MAX
                  "sticker_ctrl.item_body" in
      let w := w ;> w_u8 OP_ITEM_BODY ;> w_raw sha ;> w_u16be chunk_index ;> w_u16be chunk_count
               ;> w_lp data in
      let w := match pack with
               | Some p => w ;> pack_ref_encode_to p
               | None => w
               end in
      Ok (w_finish w)
  | WantPack pack_id pack_pk =>
      Ok (w_finish (w ;> w_u8 OP_WANT_PACK ;> w_raw pack_id ;> w_raw pack_pk))
  | PackBody pack_id pack_pk chunk_index chunk_count data =>
      let* _ := check_chunk chunk_index chunk_count MAX_PACK_CHUNKS data PACK_CHUNK_MAX
                  "sticker_ctrl.pack_body" in
      Ok (w_finish (w ;> w_u8 OP_PACK_BODY ;> w_raw pack_id ;> w_raw pack_pk
                    ;> w_u16be chunk_index ;> w_u16be chunk_count ;> w_lp data))
  | PackRefused pack_id pack_pk reason =>
      if negb (refused_reason_ok reason)
      then Err (bad "sticker_ctrl.refused" (Fmt "reason {reason}" [reason]))
      else Ok (w_finish (w ;> w_u8 OP_PACK_REFUSED ;> w_raw pack_id ;> w_raw pack_pk
                         ;> w_u8 reason))
  | WantThumbs pack_id pack_pk =>
      Ok (w_finish (w ;> w_u8 OP_WANT_THUMBS ;> w_raw pack_id ;> w_raw pack_pk))
  | ThumbsBody pack_id pack_pk chunk_index chunk_count data =>
      let* _ := check_chunk chunk_index chunk_count MAX_THUMBS_CHUNKS data PACK_CHUNK_MAX
                  "sticker_ctrl.thumbs_body" in
      Ok (w_finish (w ;> w_u8 OP_THUMBS_BODY ;> w_raw pack_id ;> w_raw pack_pk
                    ;> w_u16be chunk_index ;> w_u16be chunk_count ;> w_lp data))
  end.

Definition item_body_pack : parser (option PackRef) :=
  remaining <-- r_get_remaining ;;
  if remaining =? 0 then pret None
  else if remaining =? PACK_REF_LEN then
    trailer <-- r_take PACK_REF_LEN "sticker_ctrl.item_body.pack" ;;
    pret (ok (run pack_ref_decode_from trailer))
  else pfail (Trailing "sticker_ctrl.item_body" remaining).

Definition sticker_ctrl_body : parser StickerCtrl :=
  version <-- r_u8 "sticker_ctrl.version" ;;
  if negb (version =? CTRL_VERSION) then pfail (BadVersion "sticker_ctrl" version) else
  op <-- r_u8 "sticker_ctrl.op" ;;
  if op =? OP_ACK then
    sha <-- take32 "sticker_ctrl.ack" ;;
    _ <-- r_expect_end "sticker_ctrl" ;;
    pret (Ack sha)
  else if op =? OP_WANT_ITEM then
    n <-- r_u8 "sticker_ctrl.want_item.len" ;;
    if negb (want_item_len_ok n)
    then pfail (bad "sticker_ctrl.want_item" (Lit "sha len 4..=32")) else
    sha <-- r_take n "sticker_ctrl.want_item" ;;
    _ <-- r_expect_end "sticker_ctrl" ;;
    pret (WantItem sha)
  else if op =? OP_ITEM_BODY then
    sha <-- take32 "sticker_ctrl.item_body.sha" ;;
    idx <-- r_u16be "sticker_ctrl.item_body.idx" ;;
    count <-- r_u16be "sticker_ctrl.item_body.count" ;;
    _ <-- plift (check_chunk_plan idx count MAX_ITEM_CHUNKS "sticker_ctrl.item_body") ;;
    data <-- r_lp ITEM_CHUNK_MAX "sticker_ctrl.item_body.data" ;;
    pack <-- item_body_pack ;;
    _ <-- r_expect_end "sticker_ctrl" ;;
    pret (ItemBody sha idx count data pack)
  else if op =? OP_WANT_PACK then
    pack_id <-- take16 "sticker_ctrl.want_pack.id" ;;
    pack_pk <-- take32 "sticker_ctrl.want_pack.pk" ;;
    _ <-- r_expect_end "sticker_ctrl" ;;
    pret (WantPack pack_id pack_pk)
  else if op =? OP_PACK_BODY then
    pack_id <-- take16 "sticker_ctrl.pack_body.id" ;;
    pack_pk <-- take32 "sticker_ctrl.pack_body.pk" ;;
    idx <-- r_u16be "sticker_ctrl.pack_body.idx" ;;
    count <-- r_u16be "sticker_ctrl.pack_body.count" ;;
    _ <-- plift (check_chunk_plan idx count MAX_PACK_CHUNKS "sticker_ctrl.pack_body") ;;
    data <-- r_lp PACK_CHUNK_MAX "sticker_ctrl.pack_body.data" ;;
    _ <-- r_expect_end "sticker_ctrl" ;;
    pret (PackBody pack_id pack_pk idx count data)
  else if op =? OP_PACK_REFUSED then
    pack_id <-- take16 "sticker_ctrl.refused.id" ;;
    pack_pk <-- take32 "sticker_ctrl.refused.pk" ;;
    reason <-- r_u8 "sticker_ctrl.refused.reason" ;;
    _ <-- r_expect_end "sticker_ctrl" ;;
    if negb (refused_reason_ok reason)
    then pfail (bad "sticker_ctrl.refused" (Fmt "reason {reason}" [reason])) else
    pret (PackRefused pack_id pack_pk reason)
  else if op =? OP_WANT_THUMBS then
    pack_id <-- take16 "sticker_ctrl.want_thumbs.id" ;;
    pack_pk <-- take32 "sticker_ctrl.want_thumbs.pk" ;;
    _ <-- r_expect_end "sticker_ctrl" ;;
    pret (WantThumbs pack_id pack_pk)
  else if op =? OP_THUMBS_BODY then
    pack_id <-- take16 "sticker_ctrl.thumbs_body.id" ;;
    pack_pk <-- take32 "sticker_ctrl.thumbs_body.pk" ;;
    idx <-- r_u16be "sticker_ctrl.thumbs_body.idx" ;;
    count <-- r_u16be "sticker_ctrl.thumbs_body.count" ;;
    _ <-- plift (check_chunk_plan idx count MAX_THUMBS_CHUNKS "sticker_ctrl.thumbs_body") ;;
    data <-- r_lp PACK_CHUNK_MAX "sticker_ctrl.thumbs_body.data" ;;
    _ <-- r_expect_end "sticker_ctrl" ;;
    pret (ThumbsBody pack_id pack_pk idx count data)
  else pfail (bad "sticker_ctrl.op" (Fmt "{other}" [op])).

Definition sticker_ctrl_decode (bs : bytes) : result WireError StickerCtrl :=
  run sticker_ctrl_body bs.

#[export] Instance sticker_payload : WirePayload StickerItem :=
  {| encode_payload := sticker_encode; decode_payload := sticker_decode |}.
#[export] Instance sticker_ctrl_payload : WirePayload StickerCtrl :=
  {| encode_payload := sticker_ctrl_encode; decode_payload := sticker_ctrl_decode |}.

(** ** Laws of STICKER *)

Definition sticker_wf (s : StickerItem) : Prop :=
  len (si_pack_id s) = 16 ∧ len (si_pack_pk s) = 32 ∧ is_u16 (si_item_id s)
  ∧ is_u16 (si_w s) ∧ is_u16 (si_h s) ∧ len (si_content_sha256 s) = 32.

Lemma valid_kind_u8 k : valid_kind k = true → is_u8 k.
Proof. unfold valid_kind, KIND_EMOJI, KIND_STICKER. intros. bnd. Qed.

Lemma valid_visibility_u8 v : valid_visibility v = true → is_u8 v.
Proof. unfold valid_visibility, VISIBILITY_PUBLIC, VISIBILITY_PRIVATE. intros. bnd. Qed.

Lemma kind_visibility_u8 k v :
  negb (valid_kind k) || negb (valid_visibility v) = false → is_u8 k ∧ is_u8 v.
Proof.
  intros [Hk Hv]%orb_false_iff. apply negb_false_iff in Hk, Hv.
  split; [by apply valid_kind_u8|by apply valid_visibility_u8].
Qed.

Lemma inline_in_range kind b : inline_out_of_range kind b = false → len b ≤ MAX_BYTES_STICKER.
Proof.
  unfold inline_out_of_range. intros [_ H]%orb_false_iff. pose proof (max_bytes_bound kind). lia.
Qed.

#[export, refine] Instance sticker_laws : WirePayloadLaws StickerItem := {| wire_wf := sticker_wf |}.
Proof.
  - intros [k v pid pk iid w h sha b] bs (H1 & H2 & H3 & H4 & H5 & H6) H.
    cbn [encode_payload decode_payload sticker_payload si_pack_id si_pack_pk si_item_id si_w si_h
      si_content_sha256] in *.
    apply rbind_Ok in H as ([] & Hv & H). unfold sticker_validate in Hv.
    cbn [si_kind si_visibility si_pack_id si_pack_pk si_item_id si_w si_h si_content_sha256
      si_bytes] in *. guards Hv. destruct (kind_visibility_u8 _ _ Hg) as [Hk Hvv].
    apply Ok_inj in H. subst bs. unfold sticker_decode.
    destruct b as [b|]; rstart; unfold sticker_body;
      (rstep; [done|]; rstep; [done|]; rstep; [done|]; rstep; [done|]; rstep; [done|];
       rstep; [done|]; rstep; [done|]; rstep; [done|]; rstep; [done|]; rstep; [done|];
       rstep; [done|]; rstep; [done|]; rstep; [done|]; rstep; [done|]).
    + guards Hv. eapply (reads_bind_last _ _ _ _ _ (Some b)); [|apply reads_ret].
      cbn [Z.eqb Pos.eqb]. rstep; [by eapply inline_in_range|done|]. rstep.
      apply reads_if; [done|]. apply reads_ret.
    + eapply reads_bind_nil; [|apply reads_ret]. cbn [Z.eqb]. rstep. apply reads_ret.
  - intros bs s H. cbn in *. unfold sticker_decode, sticker_body in H. repeat rinv; simplify_eq.
    all: unfold sticker_wf, sticker_encode, sticker_validate;
      cbn [si_kind si_visibility si_pack_id si_pack_pk si_item_id si_w si_h si_content_sha256
        si_bytes].
    all: repeat match goal with H : _ = false |- _ => rewrite H; clear H end; done.
Defined.

(** ** Laws of STICKER_CTRL *)

Definition pack_ref_wf (p : PackRef) : Prop :=
  len (pr_pack_id p) = 16 ∧ len (pr_pack_pk p) = 32
  ∧ valid_kind (pr_kind p) = true ∧ valid_visibility (pr_visibility p) = true
  ∧ is_u16 (pr_item_id p) ∧ is_u16 (pr_w p) ∧ is_u16 (pr_h p)
  ∧ aspect_ok (pr_kind p) (pr_w p) (pr_h p) = true.

Definition sticker_ctrl_wf (c : StickerCtrl) : Prop :=
  match c with
  | Ack sha => len sha = 32
  | WantItem _ => True
  | ItemBody sha ix cnt _ pack =>
      len sha = 32 ∧ is_u16 ix ∧ is_u16 cnt ∧ from_option pack_ref_wf True pack
  | WantPack pid pk | WantThumbs pid pk => len pid = 16 ∧ len pk = 32
  | PackBody pid pk ix cnt _ | ThumbsBody pid pk ix cnt _ =>
      len pid = 16 ∧ len pk = 32 ∧ is_u16 ix ∧ is_u16 cnt
  | PackRefused pid pk _ => len pid = 16 ∧ len pk = 32
  end.

Lemma pack_ref_roundtrip p :
  pack_ref_wf p → run pack_ref_decode_from (w_finish (pack_ref_encode_to p w_new)) = Ok p.
Proof.
  intros (H1 & H2 & Hk & Hv & H3 & H4 & H5 & Ha). destruct p as [pid pk k v iid w h].
  cbn [pr_pack_id pr_pack_pk pr_kind pr_visibility pr_item_id pr_w pr_h] in *.
  unfold pack_ref_encode_to. cbn [pr_pack_id pr_pack_pk pr_kind pr_visibility pr_item_id pr_w pr_h].
  rstart. unfold pack_ref_decode_from. rstep; [done|]. rstep; [done|].
  rstep; [by apply valid_kind_u8|]. rstep; [by apply valid_visibility_u8|].
  apply reads_if; [by rewrite Hk, Hv|]. rstep; [done|]. rstep; [done|]. rstep; [done|].
  apply reads_if; [by rewrite Ha|]. apply reads_ret.
Qed.

Lemma pack_ref_decoded bs p : run pack_ref_decode_from bs = Ok p → pack_ref_wf p.
Proof.
  unfold pack_ref_decode_from. intros H. repeat rinv. subst p. unfold pack_ref_wf.
  cbn [pr_pack_id pr_pack_pk pr_kind pr_visibility pr_item_id pr_w pr_h].
  repeat match goal with
  | H : _ || _ = false |- _ => apply orb_false_iff in H as [??]
  | H : negb _ = false |- _ => apply negb_false_iff in H
  end. done.
Qed.

Lemma pack_ref_len p w :
  pack_ref_wf p → w_buf (pack_ref_encode_to p w) = w_buf w ++ w_finish (pack_ref_encode_to p w_new)
  ∧ len (w_finish (pack_ref_encode_to p w_new)) = PACK_REF_LEN.
Proof.
  intros (H1 & H2 & _). unfold pack_ref_encode_to. split.
  - wnorm. by rewrite <- ?app_assoc.
  - wnorm. unfold PACK_REF_LEN. len_lia.
Qed.

Lemma reads_item_body_pack N pack :
  from_option pack_ref_wf True pack →
  reads N item_body_pack
    (from_option (λ p, w_finish (pack_ref_encode_to p w_new)) [] pack) [] pack.
Proof.
  intros Hp. unfold item_body_pack. destruct pack as [p|]; cbn [from_option] in *.
  - destruct (pack_ref_len p w_new Hp) as [_ Hl].
    rstep. rewrite app_nil_r, Hl. apply reads_if; [done|]. apply reads_if_true; [done|].
    eapply reads_bind_last; [by apply reads_take|]. rewrite pack_ref_roundtrip by done. apply reads_ret.
  - rstep. apply reads_if_true; [done|]. apply reads_ret.
Qed.

Lemma item_body_pack_Ok r pack r' :
  r_wf r → item_body_pack r = Ok (pack, r') → r_wf r' ∧ from_option pack_ref_wf True pack.
Proof.
  intros Hw. unfold item_body_pack. intros H. repeat rinv; simplify_eq; [done|].
  split; [by eauto with wire|].
  match goal with |- from_option _ _ (ok ?m) => destruct m eqn:E; cbn; [|done] end.
  by eapply pack_ref_decoded.
Qed.

Lemma check_chunk_Ok ix cnt mc data md at_ u :
  check_chunk ix cnt mc data md at_ = Ok u →
  (∀ at', check_chunk_plan ix cnt mc at' = Ok tt) ∧ len data ≤ md.
Proof.
  unfold check_chunk, check_chunk_plan. intros (? & H & H')%rbind_Ok. guards H. guards H'.
  split; [done|lia].
Qed.

Lemma check_chunk_total ix cnt mc data md at_ u :
  check_chunk_plan ix cnt mc at_ = Ok u → len data ≤ md →
  check_chunk ix cnt mc data md at_ = Ok tt.
Proof.
  unfold check_chunk. intros -> Hd. cbn [rbind]. destruct (Z.gtb_spec (len data) md); [lia|done].
Qed.

Lemma item_body_written sha ix cnt data pack :
  from_option pack_ref_wf True pack →
  w_finish (let w := w_new ;> w_u8 CTRL_VERSION in
            let w := w ;> w_u8 OP_ITEM_BODY ;> w_raw sha ;> w_u16be ix ;> w_u16be cnt
                     ;> w_lp data in
            match pack with
            | Some p => w ;> pack_ref_encode_to p
            | None => w
            end)
  = [zb CTRL_VERSION] ++ [zb OP_ITEM_BODY] ++ sha ++ be_bytes 2 ix ++ be_bytes 2 cnt
    ++ be_bytes 4 (len data) ++ data
    ++ from_option (λ p, w_finish (pack_ref_encode_to p w_new)) [] pack.
Proof.
  intros Hp. cbv zeta. destruct pack as [p|]; cbn [from_option] in *.
  - unfold w_finish at 1. rewrite (proj1 (pack_ref_len _ _ Hp)). wnorm. by rewrite <- ?app_assoc.
  - wnorm. by rewrite <- ?app_assoc, ?app_nil_r.
Qed.

(** The op dispatch of the decoder, one test at a time. *)
Ltac op_dispatch :=
  repeat (first [apply reads_if_true; [reflexivity|] | apply reads_if; [reflexivity|]]).

(** The remaining fields of a body, side conditions by arithmetic. *)
Ltac rsteps :=
  repeat first [apply reads_ret | rstep; [first [done | lia | bnd | eauto]..|]].

Lemma sticker_ctrl_roundtrip c bs :
  sticker_ctrl_wf c → sticker_ctrl_encode c = Ok bs → sticker_ctrl_decode bs = Ok c.
Proof.
  intros Hw H. unfold sticker_ctrl_decode.
  destruct c; cbn [sticker_ctrl_wf] in Hw; cbn [sticker_ctrl_encode] in H;
    try (apply rbind_Ok in H as (? & Hc & H); apply check_chunk_Ok in Hc as [Hc Hd]); guards H;
    apply Ok_inj in H; subst bs; unfold want_item_len_ok, refused_reason_ok,
      REFUSED_PRIVATE, REFUSED_RATE_LIMITED in *; destruct_and? Hw.
  all: match goal with
    | pack : option PackRef |- _ => rewrite item_body_written by done; apply run_reads; rewrite <- ?app_assoc
    | _ => rstart
    end; unfold sticker_ctrl_body, take16, take32;
    do 3 (rstep; [done|]); op_dispatch; rsteps.
  eapply reads_bind; [by apply reads_item_body_pack|]. rsteps.
Qed.

Lemma sticker_ctrl_decoded bs c :
  sticker_ctrl_decode bs = Ok c →
  sticker_ctrl_wf c ∧ is_ok (sticker_ctrl_encode c) = true.
Proof.
  unfold sticker_ctrl_decode, sticker_ctrl_body, take16, take32. intros H.
  repeat rinv; simplify_eq; try match goal with H : item_body_pack _ = Ok _ |- _ =>
    apply item_body_pack_Ok in H as [? ?]; [|by eauto with wire]; repeat rinv; simplify_eq end.
  all: cbn [sticker_ctrl_wf sticker_ctrl_encode]; split; [done|].
  all: try (erewrite check_chunk_total by done; by cbn).
  all: try match goal with H : negb ?b = false |- context [negb ?b] => by rewrite H end; try done.
Qed.

#[export, refine] Instance sticker_ctrl_laws : WirePayloadLaws StickerCtrl :=
  {| wire_wf := sticker_ctrl_wf |}.
Proof.
  - apply sticker_ctrl_roundtrip.
  - apply sticker_ctrl_decoded.
Defined.

(** ** Main result *)

(** STICKER_CTRL, all eight ops with their optional pack references and
    chunk plans: a well-formed message that encodes decodes to itself, and
    every message the decoder accepts is well formed and encodes again. *)
Theorem sticker_ctrl_codec (c : StickerCtrl) (bs : bytes) :
  (sticker_ctrl_wf c → sticker_ctrl_encode c = Ok bs → sticker_ctrl_decode bs = Ok c)
  ∧ (sticker_ctrl_decode bs = Ok c → sticker_ctrl_wf c ∧ is_ok (sticker_ctrl_encode c) = true).
Proof. split; [apply sticker_ctrl_roundtrip|apply sticker_ctrl_decoded]. Qed.

Definition demo_sticker_ctrl : StickerCtrl :=
  ItemBody (replicate 32 (zb 3)) 0 1 [zb 1; zb 2]
    (Some (mkPackRef (replicate 16 (zb 4)) (replicate 32 (zb 5)) KIND_EMOJI VISIBILITY_PUBLIC 1 64 64)).

Lemma sticker_ctrl_codec_witness :
  sticker_ctrl_decode (default [] (ok (sticker_ctrl_encode demo_sticker_ctrl))) = Ok demo_sticker_ctrl.
Proof. apply (sticker_ctrl_codec demo_sticker_ctrl); [by repeat split|by vm_compute]. Defined.
