(* ===== verification/StickerDocs.v ===== *)
(** The sticker pack documents of [wire-types/src/sticker.rs]: the signed
    pack document, the progress scan over a partial download, and the
    unsigned thumbnail document. Signature verification and SHA-256 are
    closure arguments in the source, and arguments here. *)

From S2P Require Import Prelude Bin RustStr Limits Payloads WireSticker.

(** [b"s//chat6-v7 Pack"] *)
Definition PACK_DOC_DOMAIN : bytes :=
  [Byte.x73; Byte.x2f; Byte.x2f; Byte.x63; Byte.x68; Byte.x61; Byte.x74; Byte.x36; Byte.x2d;
   Byte.x76; Byte.x37; Byte.x20; Byte.x50; Byte.x61; Byte.x63; Byte.x6b].

Record PackDocItem := mkPackDocItem {
  pi_item_id : Z;
  pi_w : Z;
  pi_h : Z;
  pi_sha256 : bytes;
  pi_bytes : bytes;
}.

Record StickerPackDoc := mkStickerPackDoc {
  pd_pack_id : bytes;
  pd_kind : Z;
  pd_visibility : Z;
  pd_title : bytes;
  pd_icon_item_id : Z;
  pd_items : list PackDocItem;
}.

Definition TITLE_MAX_BYTES : Z := MAX_TITLE_CHARS * 4.

(** The item loop of [body_bytes]; [seen] is the [HashSet]. *)
Fixpoint write_items (kind : Z) (seen : gset Z) (items : list PackDocItem) (w : Writer)
    : result WireError Writer :=
  match items with
  | [] => Ok w
  | it :: rest =>
      if bool_decide (pi_item_id it ∈ seen)
      then Err (bad "pack_doc.items" (Lit "duplicate item id"))
      else if negb (item_ok kind (pi_w it) (pi_h it) (len (pi_bytes it)))
      then Err (bad "pack_doc.item" (Lit "item fails caps"))
      else write_items kind ({[pi_item_id it]} ∪ seen) rest
             (w ;> w_u16be (pi_item_id it) ;> w_u16be (pi_w it) ;> w_u16be (pi_h it)
                ;> w_raw (pi_sha256 it) ;> w_lp (pi_bytes it))
  end.

Definition body_bytes (d : StickerPackDoc) : result WireError bytes :=
  if negb (valid_kind (pd_kind d)) || negb (valid_visibility (pd_visibility d))
  then Err (bad "pack_doc.kind" (Lit "unknown kind/visibility"))
  else if len (pd_title d) >? TITLE_MAX_BYTES
  then Err (TooLarge "pack_doc.title" (len (pd_title d)) TITLE_MAX_BYTES)
  else if (len (pd_items d) =? 0) || (len (pd_items d) >? max_items (pd_kind d))
  then Err (bad "pack_doc.items" (Lit "item count out of range"))
  else
    let w := w_new ;> w_raw PACK_DOC_DOMAIN ;> w_raw (pd_pack_id d) ;> w_u8 (pd_kind d)
             ;> w_u8 (pd_visibility d) ;> w_lp (pd_title d) ;> w_u16be (pd_icon_item_id d)
             ;> w_u16be (len (pd_items d)) in
    let* w := write_items (pd_kind d) ∅ (pd_items d) w in
    Ok (w_finish w).

Section PackDoc.
Context (verify : bytes → bytes → bytes → bool) (sha256 : bytes → bytes).

Fixpoint read_items (count : nat) (kind : Z) (seen : gset Z) : parser (list PackDocItem) :=
  match count with
  | O => pret []
  | S count =>
      item_id <-- r_u16be "pack_doc.item.id" ;;
      w <-- r_u16be "pack_doc.item.w" ;;
      h <-- r_u16be "pack_doc.item.h" ;;
      sha <-- take32 "pack_doc.item.sha" ;;
      bs <-- r_lp (max_bytes kind) "pack_doc.item.bytes" ;;
      if len bs =? 0 then pfail (bad "pack_doc.item.bytes" (Lit "empty")) else
      if bool_decide (item_id ∈ seen)
      then pfail (bad "pack_doc.items" (Lit "duplicate item id")) else
      if negb (bool_decide (sha256 bs = sha))
      then pfail (bad "pack_doc.item.sha" (Lit "hash mismatch")) else
      if negb (item_ok kind w h (len bs))
      then pfail (bad "pack_doc.item" (Lit "item fails caps")) else
      items <-- read_items count kind ({[item_id]} ∪ seen) ;;
      pret (mkPackDocItem item_id w h sha bs :: items)
  end.

Definition pack_doc_body : parser StickerPackDoc :=
  domain <-- r_take (len PACK_DOC_DOMAIN) "pack_doc.domain" ;;
  if negb (bool_decide (domain = PACK_DOC_DOMAIN))
  then pfail (bad "pack_doc.domain" (Lit "mismatch")) else
  pack_id <-- take16 "pack_doc.pack_id" ;;
  kind <-- r_u8 "pack_doc.kind" ;;
  visibility <-- r_u8 "pack_doc.visibility" ;;
  if negb (valid_kind kind) || negb (valid_visibility visibility)
  then pfail (bad "pack_doc.kind" (Lit "unknown kind/visibility")) else
  title_bytes <-- r_lp TITLE_MAX_BYTES "pack_doc.title" ;;
  title <-- plift (ok_or (from_utf8 title_bytes) (bad "pack_doc.title" (Lit "utf-8"))) ;;
  if chars_count title >? MAX_TITLE_CHARS
  then pfail (TooLarge "pack_doc.title" (chars_count title) MAX_TITLE_CHARS) else
  icon_item_id <-- r_u16be "pack_doc.icon" ;;
  count <-- r_u16be "pack_doc.count" ;;
  if (count <? 1) || (count >? max_items kind)
  then pfail (bad "pack_doc.items" (Lit "item count out of range")) else
  items <-- read_items (Z.to_nat count) kind ∅ ;;
  _ <-- r_expect_end "pack_doc" ;;
  if negb (existsb (λ it, pi_item_id it =? icon_item_id) items)
  then pfail (bad "pack_doc.icon" (Lit "icon item missing")) else
  pret (mkStickerPackDoc pack_id kind visibility title icon_item_id items).

Definition decode_body (body : bytes) : result WireError StickerPackDoc := run pack_doc_body body.

Definition decode_signed (blob pack_pk : bytes) : result WireError StickerPackDoc :=
  if len blob >? MAX_PACK_DOC_BYTES
  then Err (TooLarge "pack_doc" (len blob) MAX_PACK_DOC_BYTES)
  else
    let min := 64 + len PACK_DOC_DOMAIN + 16 + 1 + 1 + 4 + 2 + 2 in
    if len blob <? min then Err (Truncated "pack_doc")
    else
      let body := take (Z.to_nat (len blob - 64)) blob in
      let sig := drop (Z.to_nat (len blob - 64)) blob in
      if negb (verify pack_pk body sig) then Err (bad "pack_doc.sig" (Lit "signature invalid"))
      else decode_body body.
End PackDoc.

(** ** The progress scan *)

(** The fixed header of [scan_partial]: the kind and the item count. *)
Definition scan_header : parser (Z * Z) :=
  domain <-- r_take (len PACK_DOC_DOMAIN) "pack_doc.domain" ;;
  if negb (bool_decide (domain = PACK_DOC_DOMAIN)) then pfail (bad "" (Lit "")) else
  _ <-- r_take 16 "pack_doc.pack_id" ;;
  kind <-- r_u8 "pack_doc.kind" ;;
  _ <-- r_u8 "pack_doc.visibility" ;;
  if negb (valid_kind kind) then pfail (bad "" (Lit "")) else
  _ <-- r_lp TITLE_MAX_BYTES "pack_doc.title" ;;
  _ <-- r_u16be "pack_doc.icon" ;;
  count <-- r_u16be "pack_doc.count" ;;
  if (count <? 1) || (count >? max_items kind) then pfail (bad "" (Lit "")) else
  pret (kind, count).

(** One turn of the [while complete < count] walk: an item id when the
    whole item has arrived. *)
Definition scan_item (kind : Z) : parser Z :=
  item_id <-- r_u16be "pack_doc.item.id" ;;
  _ <-- r_take (2 + 2 + 32) "pack_doc.item.head" ;;
  n <-- r_u32be "pack_doc.item.len" ;;
  if (n =? 0) || (n >? max_bytes kind) then pfail (bad "" (Lit "")) else
  remaining <-- r_get_remaining ;;
  if remaining <? n then pfail (bad "" (Lit "")) else
  _ <-- r_take n "pack_doc.item.bytes" ;;
  pret item_id.

(** [todo] is [count - complete]. *)
Fixpoint scan_loop (todo : nat) (kind : Z) (seen : gset Z) (complete : Z) (r : Reader) : Z :=
  match todo with
  | O => complete
  | S todo =>
      match scan_item kind r with
      | Err _ => complete
      | Ok (item_id, r) =>
          if bool_decide (item_id ∈ seen) then complete
          else scan_loop todo kind ({[item_id]} ∪ seen) (complete + 1) r
      end
  end.

Definition scan_partial (partial : bytes) : option (Z * Z) :=
  if len partial >? MAX_PACK_DOC_BYTES then None
  else
    match scan_header (r_new partial) with
    | Err _ => None
    | Ok ((kind, count), r) => Some (scan_loop (Z.to_nat count) kind ∅ 0 r, count)
    end.

(** ** Thumbnails *)

Record Thumb := mkThumb { th_item_id : Z; th_bytes : bytes }.

Record StickerThumbsDoc := mkStickerThumbsDoc {
  td_title : bytes;
  td_kind : Z;
  td_icon_item_id : Z;
  td_thumbs : list Thumb;
}.

Fixpoint write_thumbs (seen : gset Z) (thumbs : list Thumb) (w : Writer) : result WireError Writer :=
  match thumbs with
  | [] => Ok w
  | t :: rest =>
      if bool_decide (th_item_id t ∈ seen)
      then Err (bad "thumbs_doc.thumbs" (Lit "duplicate item id"))
      else if (len (th_bytes t) =? 0) || (len (th_bytes t) >? MAX_THUMB_BYTES)
      then Err (bad "thumbs_doc.thumb" (Lit "bytes out of range"))
      else write_thumbs ({[th_item_id t]} ∪ seen) rest
             (w ;> w_u16be (th_item_id t) ;> w_lp (th_bytes t))
  end.

Definition thumbs_encode (d : StickerThumbsDoc) : result WireError bytes :=
  if negb (valid_kind (td_kind d)) then Err (bad "thumbs_doc.kind" (Lit "unknown kind"))
  else if len (td_title d) >? TITLE_MAX_BYTES
  then Err (TooLarge "thumbs_doc.title" (len (td_title d)) TITLE_MAX_BYTES)
  else if (len (td_thumbs d) =? 0) || (len (td_thumbs d) >? max_items (td_kind d))
  then Err (bad "thumbs_doc.thumbs" (Lit "count out of range"))
  else
    let w := w_new ;> w_lp (td_title d) ;> w_u8 (td_kind d) ;> w_u16be (td_icon_item_id d)
             ;> w_u16be (len (td_thumbs d)) in
    let* w := write_thumbs ∅ (td_thumbs d) w in
    let out := w_finish w in
    if len out >? MAX_THUMBS_DOC_BYTES
    then Err (TooLarge "thumbs_doc" (len out) MAX_THUMBS_DOC_BYTES)
    else Ok out.

Fixpoint read_thumbs (count : nat) (seen : gset Z) : parser (list Thumb) :=
  match count with
  | O => pret []
  | S count =>
      item_id <-- r_u16be "thumbs_doc.thumb.id" ;;
      bs <-- r_lp MAX_THUMB_BYTES "thumbs_doc.thumb.bytes" ;;
      if len bs =? 0 then pfail (bad "thumbs_doc.thumb" (Lit "empty")) else
      if bool_decide (item_id ∈ seen)
      then pfail (bad "thumbs_doc.thumbs" (Lit "duplicate item id")) else
      thumbs <-- read_thumbs count ({[item_id]} ∪ seen) ;;
      pret (mkThumb item_id bs :: thumbs)
  end.

Definition thumbs_body : parser StickerThumbsDoc :=
  title_bytes <-- r_lp TITLE_MAX_BYTES "thumbs_doc.title" ;;
  title <-- plift (ok_or (from_utf8 title_bytes) (bad "thumbs_doc.title" (Lit "utf-8"))) ;;
  if chars_count title >? MAX_TITLE_CHARS
  then pfail (TooLarge "thumbs_doc.title" (chars_count title) MAX_TITLE_CHARS) else
  kind <-- r_u8 "thumbs_doc.kind" ;;
  if negb (valid_kind kind) then pfail (bad "thumbs_doc.kind" (Lit "unknown kind")) else
  icon_item_id <-- r_u16be "thumbs_doc.icon" ;;
  count <-- r_u16be "thumbs_doc.count" ;;
  if (count <? 1) || (count >? max_items kind)
  then pfail (bad "thumbs_doc.thumbs" (Lit "count out of range")) else
  thumbs <-- read_thumbs (Z.to_nat count) ∅ ;;
  _ <-- r_expect_end "thumbs_doc" ;;
  pret (mkStickerThumbsDoc title kind icon_item_id thumbs).

Definition thumbs_decode (blob : bytes) : result WireError StickerThumbsDoc :=
  if len blob >? MAX_THUMBS_DOC_BYTES
  then Err (TooLarge "thumbs_doc" (len blob) MAX_THUMBS_DOC_BYTES)
  else run thumbs_body blob.

(** ** Item tables *)

Definition item_bytes (it : PackDocItem) : bytes :=
  be_bytes 2 (pi_item_id it) ++ be_bytes 2 (pi_w it) ++ be_bytes 2 (pi_h it)
  ++ pi_sha256 it ++ be_bytes 4 (len (pi_bytes it)) ++ pi_bytes it.

Definition items_bytes (items : list PackDocItem) : bytes := concat (item_bytes <$> items).

(** The item table passes the caps and repeats no id (nor one of [seen]). *)
Fixpoint items_fit (kind : Z) (seen : gset Z) (items : list PackDocItem) : Prop :=
  match items with
  | [] => True
  | it :: rest =>
      (pi_item_id it ∉ seen)
      ∧ item_ok kind (pi_w it) (pi_h it) (len (pi_bytes it)) = true
      ∧ items_fit kind ({[pi_item_id it]} ∪ seen) rest
  end.

Lemma items_fit_ids kind seen items :
  items_fit kind seen items →
  NoDup (pi_item_id <$> items) ∧ Forall (λ it, pi_item_id it ∉ seen) items
  ∧ Forall (λ it, item_ok kind (pi_w it) (pi_h it) (len (pi_bytes it)) = true) items.
Proof.
  revert seen. induction items as [|it rest IH]; intros seen; cbn [items_fit fmap list_fmap].
  - intros _. split; [constructor|by split; constructor].
  - intros (Hs & Hok & Hf). apply IH in Hf as (Hn & Hd & Ho). split; [|split; [|by constructor]].
    + constructor; [|done]. intros (x & Hx & Hin)%list_elem_of_fmap.
      rewrite Forall_forall in Hd. specialize (Hd x Hin). set_solver.
    + constructor; [done|]. eapply Forall_impl; [exact Hd|]. intros x. cbn. set_solver.
Qed.

Lemma write_items_Ok kind seen items w w' :
  write_items kind seen items w = Ok w' ↔
  items_fit kind seen items ∧ w' = mkWriter (w_buf w ++ items_bytes items).
Proof.
  revert seen w. induction items as [|it rest IH]; intros seen w; cbn [write_items items_fit].
  - unfold items_bytes. cbn. rewrite app_nil_r. destruct w; split; [by intros [= <-]|].
    by intros [_ ->].
  - case_bool_decide; [split; [done|by intros [[? _] _]]|].
    destruct (item_ok _ _ _ _); cbn [negb]; [|split; [done|by intros [(_ & ? & _) _]]].
    rewrite IH. unfold items_bytes. cbn [fmap list_fmap concat]. unfold item_bytes at 2. wnorm.
    rewrite <- ?app_assoc. naive_solver.
Qed.

(** What [decode_body] checks of one item. *)
Definition item_verified (sha256 : bytes → bytes) (it : PackDocItem) : Prop :=
  is_u16 (pi_item_id it) ∧ is_u16 (pi_w it) ∧ is_u16 (pi_h it)
  ∧ len (pi_sha256 it) = 32 ∧ sha256 (pi_bytes it) = pi_sha256 it.

Lemma item_ok_len kind w h n : item_ok kind w h n = true → 0 < n ≤ max_bytes kind.
Proof. unfold item_ok. intros H. destruct_and? H. lia. Qed.

Lemma reads_items sha256 N kind seen items rest :
  items_fit kind seen items → Forall (item_verified sha256) items →
  reads N (read_items sha256 (length items) kind seen) (items_bytes items) rest items.
Proof.
  intros Hf Hv. revert seen Hf. induction Hv as [|it items (H1 & H2 & H3 & H4 & H5) Hv IH];
    intros seen Hf; [apply reads_ret|].
  destruct Hf as (Hs & Hok & Hf). destruct (item_ok_len _ _ _ _ Hok) as [Hp Hm].
  pose proof (max_bytes_bound kind) as Hmb. destruct it as [iid w h sha bs].
  cbn [pi_item_id pi_w pi_h pi_sha256 pi_bytes] in *.
  unfold items_bytes, item_bytes. cbn [length read_items fmap list_fmap concat pi_item_id pi_w pi_h
    pi_sha256 pi_bytes]. rewrite <- ?app_assoc. unfold take32.
  rstep; [done|]. rstep; [done|]. rstep; [done|]. rstep; [done|]. rstep; [done|bnd|].
  apply reads_if; [lia|]. apply reads_if; [by apply bool_decide_eq_false|].
  apply reads_if; [by rewrite bool_decide_eq_true_2 by done|]. apply reads_if; [by rewrite Hok|].
  eapply reads_bind_last; [by apply IH|]. apply reads_ret.
Qed.

Lemma read_items_Ok sha256 n kind seen r items r' :
  r_wf r → read_items sha256 n kind seen r = Ok (items, r') →
  took r r' (items_bytes items) ∧ length items = n
  ∧ items_fit kind seen items ∧ Forall (item_verified sha256) items.
Proof.
  revert seen r items. induction n as [|n IH]; intros seen r items Hw H; cbn [read_items] in H.
  - rinv. subst. split; [by apply took_refl|]. done.
  - unfold take32 in H. repeat rinv. subst items.
    match goal with H : read_items _ _ _ _ _ = Ok _ |- _ =>
      apply IH in H as (Ht & <- & Hf & Hv); [|by eauto with wire] end.
    repeat match goal with
    | H : bool_decide _ = false |- _ => apply bool_decide_eq_false in H
    | H : negb _ = false |- _ => apply negb_false_iff in H
    | H : bool_decide _ = true |- _ => apply bool_decide_eq_true in H
    end. split; [|split; [done|split; [done|by constructor]]].
    unfold items_bytes, item_bytes. cbn [fmap list_fmap concat pi_item_id pi_w pi_h pi_sha256
      pi_bytes]. rewrite <- ?app_assoc.
    took_chain.
Qed.

(** ** The signed document *)

Definition pack_doc_wf (sha256 : bytes → bytes) (d : StickerPackDoc) : Prop :=
  len (pd_pack_id d) = 16 ∧ utf8_ok (pd_title d) = true
  ∧ chars_count (pd_title d) ≤ MAX_TITLE_CHARS ∧ is_u16 (pd_icon_item_id d)
  ∧ Forall (item_verified sha256) (pd_items d)
  ∧ existsb (λ it, pi_item_id it =? pd_icon_item_id d) (pd_items d) = true.

Definition doc_bytes (d : StickerPackDoc) : bytes :=
  PACK_DOC_DOMAIN ++ pd_pack_id d ++ [zb (pd_kind d)] ++ [zb (pd_visibility d)]
  ++ be_bytes 4 (len (pd_title d)) ++ pd_title d ++ be_bytes 2 (pd_icon_item_id d)
  ++ be_bytes 2 (len (pd_items d)) ++ items_bytes (pd_items d).

Lemma body_bytes_Ok d bs :
  body_bytes d = Ok bs ↔
  negb (valid_kind (pd_kind d)) || negb (valid_visibility (pd_visibility d)) = false
  ∧ len (pd_title d) ≤ TITLE_MAX_BYTES
  ∧ 1 ≤ len (pd_items d) ≤ max_items (pd_kind d)
  ∧ items_fit (pd_kind d) ∅ (pd_items d) ∧ bs = doc_bytes d.
Proof.
  unfold body_bytes. pose proof (len_nonneg (pd_items d)) as Hn. split.
  - intros H. guards H. apply rbind_Ok in H as (w & [Hf ->]%write_items_Ok & <-%Ok_inj).
    split; [done|]. split; [lia|]. split; [lia|]. split; [done|].
    unfold doc_bytes. wnorm. by rewrite <- ?app_assoc.
  - intros (-> & Ht & Hi & Hf & ->).
    destruct (Z.gtb_spec (len (pd_title d)) TITLE_MAX_BYTES); [lia|].
    destruct ((len (pd_items d) =? 0) || (len (pd_items d) >? max_items (pd_kind d))) eqn:E; [lia|].
    match goal with |- rbind (write_items _ _ _ ?w) _ = _ =>
      rewrite (proj2 (write_items_Ok (pd_kind d) ∅ (pd_items d) w _) (conj Hf eq_refl)) end.
    cbn [rbind]. unfold doc_bytes. wnorm. by rewrite <- ?app_assoc.
Qed.

Lemma decode_body_roundtrip sha256 d bs :
  pack_doc_wf sha256 d → body_bytes d = Ok bs → decode_body sha256 bs = Ok d.
Proof.
  intros (H1 & H2 & H3 & H4 & H5 & H6) (Hkv & Ht & Hn & Hf & ->)%body_bytes_Ok.
  destruct (kind_visibility_u8 _ _ Hkv) as [Hk Hv]. pose proof (max_items_bound (pd_kind d)) as Hmi.
  assert (Hlen : is_u16 (len (pd_items d))) by bnd.
  unfold decode_body. apply run_reads. unfold doc_bytes, pack_doc_body, take16.
  rewrite <- ?app_assoc. rstep; [done|]. apply reads_if; [by rewrite bool_decide_eq_true_2|].
  rstep; [done|]. rstep; [done|]. rstep; [done|]. apply reads_if; [done|]. rstep; [done|done|].
  rstep; [by rewrite from_utf8_ok|]. apply reads_if; [lia|]. rstep; [done|]. rstep; [done|].
  apply reads_if; [lia|]. unfold len at 4. rewrite Nat2Z.id. rewrite app_nil_r.
  eapply reads_bind_last; [by apply reads_items|]. rstep. rewrite H6. cbn [negb].
  destruct d. apply reads_ret.
Qed.

(** Decoding is canonical: what was accepted is exactly what its encoding
    would be, so the verified byte string is the document. *)
Lemma decode_body_canonical sha256 bs d :
  decode_body sha256 bs = Ok d → body_bytes d = Ok bs ∧ pack_doc_wf sha256 d.
Proof.
  unfold decode_body, pack_doc_body, take16. intros H. repeat rinv.
  match goal with H : ok_or (from_utf8 _) _ = Ok _ |- _ =>
    apply from_utf8_or_Ok in H as [-> Hu] end.
  match goal with H : read_items _ _ _ _ _ = Ok _ |- _ =>
    apply read_items_Ok in H as (? & Hl & Hf & Hv); [|by eauto with wire] end.
  repeat rinv. subst d. cbn [pd_pack_id pd_kind pd_visibility pd_title pd_icon_item_id pd_items] in *.
  match goal with H : length ?l = Z.to_nat ?n |- _ =>
    assert (Hn : len l = n) by (unfold len; lia) end.
  split; [apply body_bytes_Ok|].
  - cbn [pd_pack_id pd_kind pd_visibility pd_title pd_icon_item_id pd_items].
    split; [done|]. split; [done|]. split; [lia|]. split; [done|].
    match goal with H : negb (bool_decide _) = false |- _ =>
      apply negb_false_iff, bool_decide_eq_true in H; subst end.
    eapply took_all; [|eassumption]. unfold doc_bytes.
    cbn [pd_pack_id pd_kind pd_visibility pd_title pd_icon_item_id pd_items].
    took_chain.
  - unfold pack_doc_wf. cbn [pd_pack_id pd_kind pd_visibility pd_title pd_icon_item_id pd_items].
    split; [done|]. split; [done|]. split; [lia|]. split; [done|]. split; [done|].
    by apply negb_false_iff.
Qed.

Lemma split_signature (body sig : bytes) :
  len sig = 64 →
  take (Z.to_nat (len (body ++ sig) - 64)) (body ++ sig) = body
  ∧ drop (Z.to_nat (len (body ++ sig) - 64)) (body ++ sig) = sig.
Proof.
  intros Hs. rewrite len_app, Hs. replace (len body + 64 - 64) with (len body) by lia.
  unfold len. rewrite Nat2Z.id. by rewrite take_app_length, drop_app_length.
Qed.

Lemma doc_bytes_len d :
  len (pd_pack_id d) = 16 → len PACK_DOC_DOMAIN + 16 + 1 + 1 + 4 + 2 + 2 ≤ len (doc_bytes d).
Proof. intros H. unfold doc_bytes. rewrite !len_app, H. len_lia. Qed.

Lemma decode_signed_roundtrip verify sha256 d body sig pk :
  pack_doc_wf sha256 d → body_bytes d = Ok body → len sig = 64 →
  verify pk body sig = true → len body + 64 ≤ MAX_PACK_DOC_BYTES →
  decode_signed verify sha256 (body ++ sig) pk = Ok d.
Proof.
  intros Hw Hb Hs Hv Hl. unfold decode_signed. destruct (split_signature body sig Hs) as [-> ->].
  rewrite Hv. cbn [negb]. pose proof (decode_body_roundtrip _ _ _ Hw Hb) as Hd.
  apply body_bytes_Ok in Hb as (_ & _ & _ & _ & ->). destruct Hw as [Hp _].
  pose proof (doc_bytes_len d Hp). rewrite !len_app, Hs.
  destruct (Z.gtb_spec (len (doc_bytes d) + 64) MAX_PACK_DOC_BYTES); [lia|].
  destruct (Z.ltb_spec (len (doc_bytes d) + 64) (64 + len PACK_DOC_DOMAIN + 16 + 1 + 1 + 4 + 2 + 2));
    [lia|done].
Qed.

Lemma decode_signed_sound verify sha256 blob pk d :
  decode_signed verify sha256 blob pk = Ok d →
  ∃ body sig, blob = body ++ sig ∧ len sig = 64 ∧ verify pk body sig = true
    ∧ body_bytes d = Ok body ∧ pack_doc_wf sha256 d.
Proof.
  unfold decode_signed. intros H.
  destruct (len blob >? _); [done|]. destruct (Z.ltb_spec (len blob) (64 + len PACK_DOC_DOMAIN + 16
    + 1 + 1 + 4 + 2 + 2)) as [|Hl]; [done|]. destruct (verify _ _ _) eqn:Hv; [|done]. cbn [negb] in H.
  apply decode_body_canonical in H as [Hb Hw].
  eexists _, _. split; [symmetry; apply take_drop|]. split; [|done].
  pose proof (len_nonneg PACK_DOC_DOMAIN). unfold len in *. rewrite length_drop. lia.
Qed.

(** ** The progress scan agrees with the encoder *)

Lemma reads_scan_header N d :
  len (pd_pack_id d) = 16 → is_u16 (pd_icon_item_id d) →
  negb (valid_kind (pd_kind d)) || negb (valid_visibility (pd_visibility d)) = false →
  len (pd_title d) ≤ TITLE_MAX_BYTES → 1 ≤ len (pd_items d) ≤ max_items (pd_kind d) →
  ∀ rest, reads N scan_header
    (PACK_DOC_DOMAIN ++ pd_pack_id d ++ [zb (pd_kind d)] ++ [zb (pd_visibility d)]
     ++ be_bytes 4 (len (pd_title d)) ++ pd_title d ++ be_bytes 2 (pd_icon_item_id d)
     ++ be_bytes 2 (len (pd_items d))) rest (pd_kind d, len (pd_items d)).
Proof.
  intros Hp Hi Hkv Ht Hn rest. destruct (kind_visibility_u8 _ _ Hkv) as [Hk Hv].
  pose proof (max_items_bound (pd_kind d)) as Hmi. unfold scan_header.
  rewrite <- (app_nil_r (be_bytes 2 (len (pd_items d)))).
  rstep; [done|]. apply reads_if; [by rewrite bool_decide_eq_true_2|].
  rstep; [done|]. rstep; [done|]. rstep; [done|].
  apply reads_if; [by apply orb_false_iff in Hkv as [-> _]|]. rstep; [done|done|].
  rstep; [done|]. rstep; [bnd|]. apply reads_if; [lia|]. apply reads_ret.
Qed.

Lemma reads_scan_item sha256 N kind it rest :
  item_verified sha256 it → item_ok kind (pi_w it) (pi_h it) (len (pi_bytes it)) = true →
  reads N (scan_item kind) (item_bytes it) rest (pi_item_id it).
Proof.
  intros (H1 & H2 & H3 & H4 & _) Hok. apply item_ok_len in Hok.
  pose proof (max_bytes_bound kind) as Hmb. unfold scan_item, item_bytes. rstep; [done|].
  replace (be_bytes 2 (pi_w it) ++ be_bytes 2 (pi_h it) ++ pi_sha256 it
    ++ be_bytes 4 (len (pi_bytes it)) ++ pi_bytes it) with
    ((be_bytes 2 (pi_w it) ++ be_bytes 2 (pi_h it) ++ pi_sha256 it)
    ++ be_bytes 4 (len (pi_bytes it)) ++ pi_bytes it) by (by rewrite <- ?app_assoc).
  rstep; [len_lia|]. rstep; [bnd|]. apply reads_if; [lia|]. rstep.
  apply reads_if; [len_lia|]. eapply reads_bind_last; [by apply reads_take|]. apply reads_ret.
Qed.

Lemma scan_loop_complete sha256 kind seen items k r rest :
  items_fit kind seen items → Forall (item_verified sha256) items →
  r_wf r → unread r = items_bytes items ++ rest →
  scan_loop (length items) kind seen k r = k + len items.
Proof.
  intros Hf Hv. revert seen k r Hf. induction Hv as [|it items Hit Hv IH]; intros seen k r Hf Hw Hr.
  - cbn. rewrite len_nil. lia.
  - destruct Hf as (Hs & Hok & Hf). unfold items_bytes in Hr. cbn [fmap list_fmap concat] in Hr.
    rewrite <- app_assoc in Hr. cbn [length scan_loop].
    rewrite (reads_scan_item _ _ _ _ _ Hit Hok r Hw eq_refl Hr).
    rewrite bool_decide_eq_false_2 by done. destruct (advance_unread _ _ _ Hw Hr) as [Hw' Hr'].
    rewrite (IH _ _ _ Hf Hw' Hr'). rewrite len_cons. lia.
Qed.

Lemma scan_loop_range todo kind seen k r :
  k ≤ scan_loop todo kind seen k r ≤ k + Z.of_nat todo.
Proof.
  revert seen k r. induction todo as [|todo IH]; intros seen k r; cbn [scan_loop]; [lia|].
  destruct (scan_item kind r) as [[i r']|]; [|lia]. case_bool_decide; [lia|].
  specialize (IH ({[i]} ∪ seen) (k + 1) r'). lia.
Qed.

Lemma scan_partial_range partial k n :
  scan_partial partial = Some (k, n) → 0 ≤ k ≤ n ∧ 1 ≤ n ≤ MAX_ITEMS_EMOJI.
Proof.
  unfold scan_partial. destruct (_ >? _); [done|].
  destruct (scan_header _) as [[[kind count] r]|] eqn:E; [|done]. intros [= <- <-].
  unfold scan_header in E. repeat rinv. simplify_eq.
  match goal with H : _ || _ = false |- context [scan_loop (Z.to_nat ?c) ?kd ?s ?z ?r] =>
    pose proof (scan_loop_range (Z.to_nat c) kd s z r); pose proof (max_items_bound kd) end. lia.
Qed.

Lemma scan_partial_full sha256 d body tail :
  pack_doc_wf sha256 d → body_bytes d = Ok body → len (body ++ tail) ≤ MAX_PACK_DOC_BYTES →
  scan_partial (body ++ tail) = Some (len (pd_items d), len (pd_items d)).
Proof.
  intros (Hp & _ & _ & Hi & Hv & _) (Hkv & Ht & Hn & Hf & ->)%body_bytes_Ok Hl.
  unfold scan_partial. destruct (Z.gtb_spec (len (doc_bytes d ++ tail)) MAX_PACK_DOC_BYTES); [lia|].
  pose proof (reads_scan_header (len (doc_bytes d ++ tail)) d Hp Hi Hkv Ht Hn
    (items_bytes (pd_items d) ++ tail)) as Hr.
  assert (Hu : unread (r_new (doc_bytes d ++ tail)) = (PACK_DOC_DOMAIN ++ pd_pack_id d
    ++ [zb (pd_kind d)] ++ [zb (pd_visibility d)]
     ++ be_bytes 4 (len (pd_title d)) ++ pd_title d ++ be_bytes 2 (pd_icon_item_id d)
     ++ be_bytes 2 (len (pd_items d))) ++ items_bytes (pd_items d) ++ tail)
    by (rewrite unread_new; unfold doc_bytes; by rewrite <- ?app_assoc).
  rewrite (Hr _ (r_wf_new _) eq_refl Hu). destruct (advance_unread _ _ _ (r_wf_new _) Hu) as [Hw Hu'].
  unfold len at 1. rewrite Nat2Z.id. by erewrite scan_loop_complete by done.
Qed.

(** ** Thumbnails *)

Definition thumb_bytes (t : Thumb) : bytes :=
  be_bytes 2 (th_item_id t) ++ be_bytes 4 (len (th_bytes t)) ++ th_bytes t.

Fixpoint thumbs_fit (seen : gset Z) (thumbs : list Thumb) : Prop :=
  match thumbs with
  | [] => True
  | t :: rest =>
      (th_item_id t ∉ seen) ∧ 1 ≤ len (th_bytes t) ≤ MAX_THUMB_BYTES
      ∧ thumbs_fit ({[th_item_id t]} ∪ seen) rest
  end.

Lemma write_thumbs_Ok seen thumbs w w' :
  write_thumbs seen thumbs w = Ok w' ↔
  thumbs_fit seen thumbs ∧ w' = mkWriter (w_buf w ++ concat (thumb_bytes <$> thumbs)).
Proof.
  revert seen w. induction thumbs as [|t rest IH]; intros seen w; cbn [write_thumbs thumbs_fit].
  - cbn. rewrite app_nil_r. destruct w; split; [by intros [= <-]|]. by intros [_ ->].
  - pose proof (len_nonneg (th_bytes t)).
    case_bool_decide; [split; [done|by intros [[? _] _]]|].
    destruct (_ || _) eqn:E; [split; [done|intros [(_ & ? & _) _]; lia]|].
    rewrite IH. cbn [fmap list_fmap concat]. unfold thumb_bytes at 2. wnorm.
    rewrite <- ?app_assoc. split; [intros [? ->]|intros [(_ & _ & ?) ->]]; [|done].
    split; [|done]. split; [done|]. split; [lia|done].
Qed.

Lemma reads_thumbs N seen thumbs rest :
  thumbs_fit seen thumbs → Forall (λ t, is_u16 (th_item_id t)) thumbs →
  reads N (read_thumbs (length thumbs) seen) (concat (thumb_bytes <$> thumbs)) rest thumbs.
Proof.
  intros Hf Hv. revert seen Hf. induction Hv as [|t thumbs Ht Hv IH];
    intros seen Hf; [apply reads_ret|]. destruct Hf as (Hs & Hl & Hf). destruct t as [iid bs].
  cbn [th_item_id th_bytes length read_thumbs fmap list_fmap concat] in *. unfold thumb_bytes at 1.
  cbn [th_item_id th_bytes]. rewrite <- ?app_assoc. rstep; [done|]. rstep; [lia|done|].
  apply reads_if; [lia|]. apply reads_if; [by apply bool_decide_eq_false|].
  eapply reads_bind_last; [by apply IH|]. apply reads_ret.
Qed.

Definition thumbs_wf (d : StickerThumbsDoc) : Prop :=
  utf8_ok (td_title d) = true ∧ chars_count (td_title d) ≤ MAX_TITLE_CHARS
  ∧ is_u16 (td_icon_item_id d) ∧ Forall (λ t, is_u16 (th_item_id t)) (td_thumbs d).

Lemma thumbs_roundtrip d bs : thumbs_wf d → thumbs_encode d = Ok bs → thumbs_decode bs = Ok d.
Proof.
  intros (Hu & Hc & Hi & Ht) H. unfold thumbs_encode in H. guards H.
  apply rbind_Ok in H as (w & [Hf ->]%write_thumbs_Ok & H). guards H. apply Ok_inj in H. subst bs.
  unfold thumbs_decode. rewrite Hg2. pose proof (max_items_bound (td_kind d)) as Hmi.
  rstart. unfold thumbs_body. rstep; [lia|done|]. rstep; [by rewrite from_utf8_ok|].
  apply reads_if; [lia|]. rstep; [by apply valid_kind_u8, negb_false_iff|]. apply reads_if; [done|].
  rstep; [done|]. rstep; [bnd|]. apply reads_if; [len_lia|].
  rewrite app_nil_r. eapply reads_bind_last.
  { unfold len. rewrite Nat2Z.id. by apply reads_thumbs. }
  rstep. destruct d. apply reads_ret.
Qed.

(** ** Main results *)

(** A signed pack document is accepted exactly when it is, within the
    size bounds, the canonical encoding of a well-formed document (unique
    item ids, per-kind geometry, item hashes that match, the icon among the
    items) followed by a 64-byte signature the verifier accepts. *)
Theorem decode_signed_iff verify sha256 blob pk d :
  decode_signed verify sha256 blob pk = Ok d ↔
  len blob ≤ MAX_PACK_DOC_BYTES
  ∧ ∃ body sig, blob = body ++ sig ∧ len sig = 64 ∧ verify pk body sig = true
      ∧ body_bytes d = Ok body ∧ pack_doc_wf sha256 d.
Proof.
  split.
  - intros H. split; [|by apply decode_signed_sound]. unfold decode_signed in H.
    destruct (Z.gtb_spec (len blob) MAX_PACK_DOC_BYTES); [done|lia].
  - intros (Hl & body & sig & -> & Hs & Hv & Hb & Hw). apply decode_signed_roundtrip; try done.
    rewrite len_app, Hs in Hl. lia.
Qed.

(** The progress scan over a document still arriving: it never reports
    more items than the header announces, the announced count is within the
    catalog, and once the whole body is there it reports all of them,
    whatever follows. *)
Theorem scan_partial_progress sha256 d body tail partial k n :
  (scan_partial partial = Some (k, n) → 0 ≤ k ≤ n ∧ 1 ≤ n ≤ MAX_ITEMS_EMOJI)
  ∧ (pack_doc_wf sha256 d → body_bytes d = Ok body → len (body ++ tail) ≤ MAX_PACK_DOC_BYTES →
     scan_partial (body ++ tail) = Some (len (pd_items d), len (pd_items d))).
Proof. split; [apply scan_partial_range|apply scan_partial_full]. Qed.

Definition demo_pack_doc : StickerPackDoc :=
  mkStickerPackDoc (replicate 16 (zb 1)) KIND_EMOJI VISIBILITY_PUBLIC [zb 104] 5
    [mkPackDocItem 5 64 64 (replicate 32 (zb 7)) [zb 1; zb 2]].

Definition demo_pack_body : bytes := default [] (ok (body_bytes demo_pack_doc)).

Lemma scan_partial_progress_witness : scan_partial (demo_pack_body ++ [zb 0]) = Some (1, 1).
Proof.
  apply (scan_partial_progress (λ _, replicate 32 (zb 7)) demo_pack_doc demo_pack_body [zb 0] [] 0 0).
  - split_and!; try by vm_compute. constructor; [|constructor]. by split_and!.
  - by vm_compute.
  - by vm_compute.
Defined.
