(* ===== verification/StickerPending.v ===== *)
(** Reassembly of chunked sticker transfers ([PendingChunks] and
    [PendingBuffers] of [core/src/stickers/mod.rs]). A buffer key is the hex
    text of a content hash or pack id; a [HashMap] is a [gmap]. *)

From S2P Require Import Prelude Limits Bin StickerDocs.

Record PendingChunks := mkPendingChunks {
  pc_chunk_count : Z;
  pc_chunks : gmap Z bytes;
  pc_total_bytes : Z;
  pc_created_at : Z;
}.

Definition pending_new (chunk_count now : Z) : PendingChunks :=
  mkPendingChunks chunk_count ∅ 0 now.

(** [for i in 0..chunk_count { out.extend(self.chunks.get(&i)?) }] *)
Definition gather (e : PendingChunks) : option bytes :=
  mjoin <$> mapM (λ i, pc_chunks e !! i) (seqZ 0 (pc_chunk_count e)).

Definition pending_add (e : PendingChunks) (index : Z) (data : bytes)
    : PendingChunks * option bytes :=
  if (index >=? pc_chunk_count e) || bool_decide (is_Some (pc_chunks e !! index)) then (e, None)
  else
    let e := mkPendingChunks (pc_chunk_count e) (<[index := data]> (pc_chunks e))
               (pc_total_bytes e + len data) (pc_created_at e) in
    (e, if Z.of_nat (size (pc_chunks e)) =? pc_chunk_count e then gather e else None).

Abbreviation Buffer := (gmap bytes PendingChunks).

Record PendingBuffers := mkPendingBuffers {
  pb_items : Buffer;
  pb_packs : Buffer;
  pb_thumbs : Buffer;
}.

Definition buffers_new : PendingBuffers := mkPendingBuffers ∅ ∅ ∅.

(** The map after the possible insert, and the entry; [None] refuses. *)
Definition admit_entry (m : Buffer) (key : bytes) (chunk_count max_entries now : Z)
    : option (Buffer * PendingChunks) :=
  match m !! key with
  | Some e => Some (m, e)
  | None =>
      if Z.of_nat (size m) >=? max_entries then None
      else let e := pending_new chunk_count now in Some (<[key := e]> m, e)
  end.

(** The body the three feeds share, at their entry and byte caps. *)
Definition feed_in (max_entries max_total : Z) (m : Buffer) (key : bytes) (index count : Z)
    (data : bytes) (now : Z) : Buffer * option bytes :=
  match admit_entry m key count max_entries now with
  | None => (m, None)
  | Some (m, e) =>
      if negb (pc_chunk_count e =? count) then (m, None)
      else if pc_total_bytes e + len data >? max_total then (delete key m, None)
      else
        let '(e, done_) := pending_add e index data in
        match done_ with
        | Some blob => (delete key m, Some blob)
        | None => (<[key := e]> m, None)
        end
  end.

Definition feed_item (b : PendingBuffers) (sha_key : bytes) (index count : Z) (data : bytes) (now : Z)
    : PendingBuffers * option bytes :=
  let '(m, r) := feed_in MAX_PENDING_ITEMS MAX_PENDING_ITEM_BYTES (pb_items b) sha_key index count data now in
  (mkPendingBuffers m (pb_packs b) (pb_thumbs b), r).

Definition feed_pack (b : PendingBuffers) (pack_key : bytes) (index count : Z) (data : bytes) (now : Z)
    : PendingBuffers * option bytes :=
  let '(m, r) := feed_in MAX_PENDING_PACKS MAX_PACK_DOC_BYTES (pb_packs b) pack_key index count data now in
  (mkPendingBuffers (pb_items b) m (pb_thumbs b), r).

Definition feed_thumbs (b : PendingBuffers) (pack_key : bytes) (index count : Z) (data : bytes) (now : Z)
    : PendingBuffers * option bytes :=
  let '(m, r) := feed_in MAX_PENDING_PACKS MAX_THUMBS_DOC_BYTES (pb_thumbs b) pack_key index count data now in
  (mkPendingBuffers (pb_items b) (pb_packs b) m, r).

Definition pack_progress (b : PendingBuffers) (pack_key : bytes) : option (Z * Z) :=
  entry ← pb_packs b !! pack_key;
  partial ← gather entry;
  scan_partial partial.

(** [retain(|_, e| now < e.created_at + ttl)] *)
Definition fresh (now : Z) (m : Buffer) : Buffer :=
  filter (λ kv : bytes * PendingChunks, now < wrap64 (pc_created_at kv.2 + PENDING_CHUNK_TTL_SEC)) m.

Definition buffers_sweep (b : PendingBuffers) (now : Z) : PendingBuffers :=
  mkPendingBuffers (fresh now (pb_items b)) (fresh now (pb_packs b)) (fresh now (pb_thumbs b)).

Definition buffers_forget (b : PendingBuffers) (rel_id : string) : PendingBuffers := mkPendingBuffers ∅ ∅ ∅.

(** ** The buffer invariant *)

Definition held (m : gmap Z bytes) : Z := map_fold (λ _ d n, len d + n) 0 m.

(** An entry in flight: indexes in range, bytes counted, never complete. *)
Definition entry_wf (max_total : Z) (e : PendingChunks) : Prop :=
  0 ≤ pc_chunk_count e
  ∧ (∀ i, is_Some (pc_chunks e !! i) → 0 ≤ i < pc_chunk_count e)
  ∧ pc_total_bytes e = held (pc_chunks e)
  ∧ pc_total_bytes e ≤ max_total
  ∧ (pc_chunks e = ∅ ∨ Z.of_nat (size (pc_chunks e)) < pc_chunk_count e).

Definition buffer_wf (max_entries max_total : Z) (m : Buffer) : Prop :=
  Z.of_nat (size m) ≤ max_entries ∧ map_Forall (λ _, entry_wf max_total) m.

Definition buffers_wf (b : PendingBuffers) : Prop :=
  buffer_wf MAX_PENDING_ITEMS MAX_PENDING_ITEM_BYTES (pb_items b)
  ∧ buffer_wf MAX_PENDING_PACKS MAX_PACK_DOC_BYTES (pb_packs b)
  ∧ buffer_wf MAX_PENDING_PACKS MAX_THUMBS_DOC_BYTES (pb_thumbs b).

Lemma held_insert m i d : m !! i = None → held (<[i := d]> m) = len d + held m.
Proof. intros H. unfold held. rewrite map_fold_insert_L; [done|intros; lia|done]. Qed.

Lemma held_empty : held ∅ = 0.
Proof. apply map_fold_empty. Qed.

Lemma keys_range_size (m : gmap Z bytes) n :
  0 ≤ n → (∀ i, is_Some (m !! i) → 0 ≤ i < n) → Z.of_nat (size m) ≤ n.
Proof.
  intros Hn Hi. rewrite <- size_dom.
  assert (Hs : dom m ⊆ list_to_set (C := gset Z) (seqZ 0 n)).
  { intros i Hin. apply elem_of_list_to_set, elem_of_seqZ. apply elem_of_dom in Hin. apply Hi in Hin. lia. }
  apply subseteq_size in Hs. rewrite size_list_to_set, length_seqZ in Hs by apply NoDup_seqZ. lia.
Qed.

(** All indexes present exactly when the counts agree. *)
Lemma keys_full (m : gmap Z bytes) n :
  0 ≤ n → (∀ i, is_Some (m !! i) → 0 ≤ i < n) →
  Z.of_nat (size m) = n ↔ ∀ i, 0 ≤ i < n → is_Some (m !! i).
Proof.
  intros Hn Hi.
  assert (Hs : dom m ⊆ list_to_set (C := gset Z) (seqZ 0 n)).
  { intros i Hin. apply elem_of_list_to_set, elem_of_seqZ. apply elem_of_dom in Hin. apply Hi in Hin. lia. }
  assert (Hz : size (list_to_set (C := gset Z) (seqZ 0 n)) = Z.to_nat n)
    by (rewrite size_list_to_set, length_seqZ; [done|apply NoDup_seqZ]).
  split.
  - intros Hsz i Hr. apply elem_of_dom.
    rewrite (set_subseteq_size_eq _ _ Hs) by (rewrite Hz, size_dom; lia).
    apply elem_of_list_to_set, elem_of_seqZ. lia.
  - intros Hall. rewrite <- size_dom.
    assert (dom m = list_to_set (C := gset Z) (seqZ 0 n)) as ->; [|rewrite Hz; lia].
    apply set_eq. intros i. rewrite elem_of_list_to_set, elem_of_seqZ, elem_of_dom.
    split; [intros ?%Hi; lia|intros; apply Hall; lia].
Qed.

Lemma gather_None e i :
  0 ≤ i < pc_chunk_count e → pc_chunks e !! i = None → gather e = None.
Proof.
  intros Hi Hn. unfold gather. apply fmap_None, mapM_None. apply Exists_exists.
  exists i. split; [apply elem_of_seqZ; lia|done].
Qed.

Lemma gather_is_Some e :
  0 ≤ pc_chunk_count e → (∀ i, is_Some (pc_chunks e !! i) → 0 ≤ i < pc_chunk_count e) →
  Z.of_nat (size (pc_chunks e)) = pc_chunk_count e → is_Some (gather e).
Proof.
  intros Hn Hi Hs. unfold gather. rewrite fmap_is_Some, mapM_is_Some. apply Forall_forall.
  intros i ?%elem_of_seqZ. apply (proj1 (keys_full _ _ Hn Hi)); [done|lia].
Qed.

Lemma entry_wf_new max_total count now :
  0 ≤ count → 0 ≤ max_total → entry_wf max_total (pending_new count now).
Proof.
  intros Hc Hm. unfold entry_wf, pending_new. cbn. rewrite held_empty.
  split_and!; [done| |done|done|by left]. intros i. rewrite lookup_empty. by intros [].
Qed.

(** An addition keeps the entry well formed, or completes it. *)
Lemma pending_add_wf max_total e index data e' r :
  entry_wf max_total e → 0 ≤ index → pc_total_bytes e + len data ≤ max_total →
  pending_add e index data = (e', r) → is_Some r ∨ entry_wf max_total e'.
Proof.
  intros (Hc & Hi & Ht & Hm & Hf) Hx Hd. unfold pending_add.
  destruct (Z.geb_spec index (pc_chunk_count e)); cbn [orb]; [intros [= <- <-]; right; done|].
  case_bool_decide as Hin; [intros [= <- <-]; by right|].
  apply eq_None_not_Some in Hin. intros [= <- <-].
  assert (Hi' : ∀ i, is_Some (<[index:=data]> (pc_chunks e) !! i) → 0 ≤ i < pc_chunk_count e).
  { intros i [v Hv]. apply lookup_insert_Some in Hv as [[<- _]|[_ Hv]]; [lia|eauto]. }
  destruct (Z.eqb_spec (Z.of_nat (size (<[index:=data]> (pc_chunks e)))) (pc_chunk_count e)) as [Hs|Hs].
  - left. by apply gather_is_Some.
  - right. pose proof (keys_range_size _ _ Hc Hi'). unfold entry_wf. cbn.
    rewrite held_insert by done. split_and!; [done|done|lia|done|right; lia].
Qed.

Lemma feed_in_wf max_entries max_total m key index count data now :
  0 ≤ max_total → 0 ≤ index → 0 ≤ count →
  buffer_wf max_entries max_total m →
  buffer_wf max_entries max_total (feed_in max_entries max_total m key index count data now).1.
Proof.
  intros Hmt Hx Hc [Hs Hw]. unfold feed_in.
  destruct (admit_entry m key count max_entries now) as [[m1 e]|] eqn:Ha; [|done].
  assert (Hm1 : buffer_wf max_entries max_total m1 ∧ m1 !! key = Some e).
  { unfold admit_entry in Ha. destruct (m !! key) as [e0|] eqn:Hk; [by simplify_eq|].
    destruct (Z.geb_spec (Z.of_nat (size m)) max_entries); [done|]. simplify_eq.
    rewrite lookup_insert_eq. split; [|done]. split.
    - rewrite map_size_insert_None by done. lia.
    - apply map_Forall_insert_2; [by apply entry_wf_new|done]. }
  clear Ha Hs Hw m. destruct Hm1 as [[Hs Hw] Hk]. pose proof (Hw _ _ Hk) as He.
  assert (Hdel : buffer_wf max_entries max_total (delete key m1)).
  { split; [|by apply map_Forall_delete].
    rewrite (map_size_delete_Some (M := gmap bytes)) by (by rewrite Hk). lia. }
  destruct (pc_chunk_count e =? count); cbn [negb]; [|done].
  destruct (Z.gtb_spec (pc_total_bytes e + len data) max_total); [done|].
  destruct (pending_add e index data) as [e' r] eqn:Hadd.
  destruct r as [blob|]; [done|]. cbn [fst].
  apply (pending_add_wf max_total) in Hadd as [[? ?]|He']; [done| |done|done|done].
  split; [by rewrite map_size_insert_Some by (by rewrite Hk)|]. by apply map_Forall_insert_2.
Qed.

Lemma fresh_wf max_entries max_total now m :
  buffer_wf max_entries max_total m → buffer_wf max_entries max_total (fresh now m).
Proof.
  intros [Hs Hw]. unfold fresh. split.
  - pose proof (map_size_filter (M := gmap bytes)
      (λ kv : bytes * PendingChunks, now < wrap64 (pc_created_at kv.2 + PENDING_CHUNK_TTL_SEC)) m). lia.
  - intros k e He. apply map_lookup_filter_Some in He as [He _]. by apply (Hw k).
Qed.

(** ** The operations as steps *)

Inductive PendingOp :=
| OpItem (key : bytes) (index count : Z) (data : bytes) (now : Z)
| OpPack (key : bytes) (index count : Z) (data : bytes) (now : Z)
| OpThumbs (key : bytes) (index count : Z) (data : bytes) (now : Z)
| OpSweep (now : Z)
| OpForget (rel_id : string).

Definition pending_step (b : PendingBuffers) (op : PendingOp) : PendingBuffers :=
  match op with
  | OpItem key index count data now => (feed_item b key index count data now).1
  | OpPack key index count data now => (feed_pack b key index count data now).1
  | OpThumbs key index count data now => (feed_thumbs b key index count data now).1
  | OpSweep now => buffers_sweep b now
  | OpForget rel_id => buffers_forget b rel_id
  end.

(** Indexes and counts are [u16]. *)
Definition op_ok (op : PendingOp) : Prop :=
  match op with
  | OpItem _ index count _ _ | OpPack _ index count _ _ | OpThumbs _ index count _ _ =>
      is_u16 index ∧ is_u16 count
  | _ => True
  end.

Lemma buffer_wf_empty max_entries max_total : 0 ≤ max_entries → buffer_wf max_entries max_total ∅.
Proof. intros. split; [by rewrite map_size_empty|apply map_Forall_empty]. Qed.

Lemma buffers_wf_new : buffers_wf buffers_new.
Proof. split_and!; by apply buffer_wf_empty. Qed.

Lemma pending_step_wf b op : op_ok op → buffers_wf b → buffers_wf (pending_step b op).
Proof.
  intros Hop (H1 & H2 & H3).
  destruct op as [key i c d t|key i c d t|key i c d t|t|r]; cbn [pending_step op_ok] in *; unfold is_u16 in *.
  - unfold feed_item. destruct (feed_in _ _ _ _ _ _ _ _) as [m o] eqn:E. cbn.
    split_and!; [|done|done]. change m with (m, o).1. rewrite <- E. apply feed_in_wf; done || lia.
  - unfold feed_pack. destruct (feed_in _ _ _ _ _ _ _ _) as [m o] eqn:E. cbn.
    split_and!; [done| |done]. change m with (m, o).1. rewrite <- E. apply feed_in_wf; done || lia.
  - unfold feed_thumbs. destruct (feed_in _ _ _ _ _ _ _ _) as [m o] eqn:E. cbn.
    split_and!; [done|done|]. change m with (m, o).1. rewrite <- E. apply feed_in_wf; done || lia.
  - split_and!; by apply fresh_wf.
  - apply buffers_wf_new.
Qed.

Lemma pending_steps_wf b ops : Forall op_ok ops → buffers_wf b → buffers_wf (foldl pending_step b ops).
Proof. intros H. revert b. induction H; cbn; auto using pending_step_wf. Qed.

(** Bytes in a buffer. *)
Definition buffer_bytes (m : Buffer) : Z := map_fold (λ _ e n, held (pc_chunks e) + n) 0 m.

Lemma buffer_bytes_bound max_total m :
  map_Forall (λ _, entry_wf max_total) m → buffer_bytes m ≤ Z.of_nat (size m) * max_total.
Proof.
  unfold buffer_bytes. induction m as [|k e m Hk IH] using map_ind; intros Hw.
  - rewrite map_fold_empty, map_size_empty. lia.
  - apply map_Forall_insert in Hw as [(_ & _ & Ht & Hm & _) Hw]; [|done].
    rewrite map_fold_insert_L; [|intros; lia|done]. rewrite map_size_insert_None by done.
    specialize (IH Hw). lia.
Qed.

Definition BUFFERS_MAX : Z :=
  MAX_PENDING_ITEMS * MAX_PENDING_ITEM_BYTES
  + MAX_PENDING_PACKS * MAX_PACK_DOC_BYTES + MAX_PENDING_PACKS * MAX_THUMBS_DOC_BYTES.

Lemma buffer_wf_bytes max_entries max_total m :
  0 ≤ max_total → buffer_wf max_entries max_total m → buffer_bytes m ≤ max_entries * max_total.
Proof. intros Hm [Hs Hw]. pose proof (buffer_bytes_bound _ _ Hw). nia. Qed.

(** Whatever chunks a peer sends, in any number and order, with sweeps
    and burns in between, the reassembly buffers never hold more than their
    64 + 4 + 4 transfers nor more than [BUFFERS_MAX] bytes; the byte counter
    of every transfer is what it holds. *)
Theorem pending_bounded ops :
  Forall op_ok ops →
  let b := foldl pending_step buffers_new ops in
  buffers_wf b
  ∧ buffer_bytes (pb_items b) + buffer_bytes (pb_packs b) + buffer_bytes (pb_thumbs b) ≤ BUFFERS_MAX.
Proof.
  intros Hops b. assert (Hb : buffers_wf b) by (apply pending_steps_wf, buffers_wf_new; done).
  split; [done|]. destruct Hb as (H1 & H2 & H3).
  apply buffer_wf_bytes in H1, H2, H3; [|done..]. unfold BUFFERS_MAX. lia.
Qed.

Lemma pending_bounded_witness :
  let b := foldl pending_step buffers_new [OpItem [zb 1] 0 2 [zb 7] 5; OpSweep 9] in
  buffers_wf b
  ∧ buffer_bytes (pb_items b) + buffer_bytes (pb_packs b) + buffer_bytes (pb_thumbs b) ≤ BUFFERS_MAX.
Proof. apply pending_bounded. repeat constructor; by vm_compute. Defined.

(** The progress of a pack download is never available: a transfer
    that holds every chunk was already consumed, and with a chunk missing the
    scan gives up before it reads a byte. *)
Theorem pack_progress_never ops key :
  Forall op_ok ops → pack_progress (foldl pending_step buffers_new ops) key = None.
Proof.
  intros Hops. pose proof (pending_steps_wf _ _ Hops buffers_wf_new) as (_ & [_ Hw] & _).
  unfold pack_progress. destruct (pb_packs _ !! key) as [e|] eqn:He; [|done]. cbn.
  destruct (Hw _ _ He) as (Hc & Hi & _ & _ & Hf).
  destruct (decide (pc_chunk_count e = 0)) as [Hz|Hz].
  - unfold gather. rewrite Hz. cbn. by vm_compute.
  - assert (∃ i, 0 ≤ i < pc_chunk_count e ∧ pc_chunks e !! i = None) as (i & Hr & Hn).
    { destruct Hf as [->|Hlt]; [exists 0; split; [lia|apply lookup_empty]|].
      destruct (decide (Forall (λ i, is_Some (pc_chunks e !! i)) (seqZ 0 (pc_chunk_count e))))
        as [Hall|Hnot].
      - rewrite Forall_forall in Hall.
        assert (Z.of_nat (size (pc_chunks e)) = pc_chunk_count e); [|lia].
        apply keys_full; [done|done|]. intros i Hr. apply Hall, elem_of_seqZ. lia.
      - apply not_Forall_Exists in Hnot; [|apply _]. apply Exists_exists in Hnot as (i & Hin & Hn).
        apply elem_of_seqZ in Hin. exists i. split; [lia|]. by apply eq_None_not_Some. }
    by rewrite (gather_None e i).
Qed.

Lemma pack_progress_never_witness :
  pack_progress (foldl pending_step buffers_new [OpPack [zb 1] 0 2 [zb 7] 5]) [zb 1] = None.
Proof. apply pack_progress_never. repeat constructor; by vm_compute. Defined.

(** ** Reassembly in any order, among other transfers *)

Record FeedEvent := mkFeed {
  fe_key : bytes;
  fe_index : Z;
  fe_count : Z;
  fe_data : bytes;
  fe_now : Z;
}.

(** Feed one event after the other, keeping what each returned. *)
Fixpoint feeds (max_entries max_total : Z) (m : Buffer) (evs : list FeedEvent)
    : list (bytes * option bytes) :=
  match evs with
  | [] => []
  | ev :: evs =>
      let '(m, r) := feed_in max_entries max_total m (fe_key ev) (fe_index ev) (fe_count ev)
                       (fe_data ev) (fe_now ev) in
      (fe_key ev, r) :: feeds max_entries max_total m evs
  end.

Definition outputs (key : bytes) (l : list (bytes * option bytes)) : list (option bytes) :=
  (filter (λ kr : bytes * option bytes, kr.1 = key) l).*2.

Definition sum_len (l : list bytes) : Z := foldr (λ d a, len d + a) 0 l.

Lemma sum_len_app l k : sum_len (l ++ k) = sum_len l + sum_len k.
Proof. unfold sum_len. induction l; cbn; lia. Qed.

Lemma sum_len_nonneg l : 0 ≤ sum_len l.
Proof. unfold sum_len. induction l; cbn; [done|]. pose proof (len_nonneg a). lia. Qed.

Lemma sum_len_perm l k : l ≡ₚ k → sum_len l = sum_len k.
Proof. unfold sum_len. induction 1; cbn; lia. Qed.

Lemma len_mjoin (l : list bytes) : len (mjoin l) = sum_len l.
Proof.
  induction l as [|d l IH]; [done|]. change (mjoin (d :: l)) with (d ++ mjoin l).
  by rewrite len_app, IH.
Qed.

Section Transfer.
Context (max_entries max_total : Z) (key : bytes) (pieces : list bytes).
Context (fits : len (mjoin pieces) ≤ max_total).

Definition piece (i : Z) : bytes := default [] (pieces !! Z.to_nat i).

Lemma piece_seqZ : piece <$> seqZ 0 (len pieces) = pieces.
Proof.
  apply list_eq. intros j. rewrite list_lookup_fmap. unfold piece.
  destruct (pieces !! j) as [d|] eqn:E.
  - assert (j < length pieces)%nat by (by eapply lookup_lt_Some).
    rewrite lookup_seqZ_lt by (unfold len; lia). cbn [fmap option_fmap option_map].
    by rewrite Z.add_0_l, Nat2Z.id, E.
  - apply lookup_ge_None in E. rewrite lookup_seqZ_ge by (unfold len; lia). done.
Qed.

(** The chunks of one transfer, and an entry that holds those in [fed]. *)
Definition event_ok (ev : FeedEvent) : Prop :=
  fe_count ev = len pieces ∧ fe_data ev = piece (fe_index ev).

Definition holds (fed : list Z) (e : PendingChunks) : Prop :=
  pc_chunk_count e = len pieces
  ∧ (∀ i, pc_chunks e !! i = if bool_decide (i ∈ fed) then Some (piece i) else None)
  ∧ pc_total_bytes e = sum_len (piece <$> fed).

Lemma gather_full fed e :
  holds fed e → (∀ i, 0 ≤ i < len pieces → i ∈ fed) → gather e = Some (mjoin pieces).
Proof.
  intros (Hc & Hch & _) Hall. unfold gather. rewrite Hc.
  assert (mapM (λ i, pc_chunks e !! i) (seqZ 0 (len pieces)) = Some (piece <$> seqZ 0 (len pieces)))
    as ->; [|by rewrite piece_seqZ].
  apply mapM_Some, Forall2_fmap_r, Forall_Forall2_diag, Forall_forall. intros i Hi%elem_of_seqZ.
  rewrite Hch, bool_decide_eq_true_2; [done|]. apply Hall. lia.
Qed.

(** One chunk of the transfer into its entry. *)
Lemma feed_piece m e fed index rest now :
  m !! key = Some e → holds fed e → (fed ++ index :: rest) ≡ₚ seqZ 0 (len pieces) →
  feed_in max_entries max_total m key index (len pieces) (piece index) now
  = (if decide (rest = []) then (delete key m, Some (mjoin pieces))
     else (<[key := (pending_add e index (piece index)).1]> m, None))
  ∧ holds (fed ++ [index]) (pending_add e index (piece index)).1.
Proof.
  intros Hk He Hp. pose proof He as (Hc & Hch & Ht).
  assert (Hnd : NoDup (fed ++ index :: rest)) by (rewrite Hp; apply NoDup_seqZ).
  apply NoDup_app in Hnd as (_ & Hdis & [Hir _]%NoDup_cons).
  assert (Hif : index ∉ fed) by (intros ?; apply (Hdis index); [done|by left]).
  assert (Hmem : ∀ i, 0 ≤ i < len pieces ↔ i ∈ fed ∨ i = index ∨ i ∈ rest).
  { intros i. rewrite <- elem_of_cons, <- elem_of_app, Hp, elem_of_seqZ. lia. }
  assert (Hr : 0 ≤ index < len pieces) by (apply Hmem; auto).
  assert (Hfresh : pc_chunks e !! index = None) by (by rewrite Hch, bool_decide_eq_false_2).
  set (e' := mkPendingChunks (pc_chunk_count e) (<[index := piece index]> (pc_chunks e))
               (pc_total_bytes e + len (piece index)) (pc_created_at e)).
  assert (He' : holds (fed ++ [index]) e').
  { unfold holds, e'. cbn. split_and!; [done| |].
    - intros i. destruct (decide (i = index)) as [->|Hi].
      + rewrite lookup_insert_eq, bool_decide_eq_true_2; [done|]. apply elem_of_app. right. by left.
      + rewrite lookup_insert_ne, Hch by done. do 2 case_bool_decide; set_solver.
    - rewrite fmap_app, sum_len_app, Ht. cbn. lia. }
  assert (Hadd : pending_add e index (piece index)
    = (e', if Z.of_nat (size (pc_chunks e')) =? pc_chunk_count e' then gather e' else None)).
  { unfold pending_add. rewrite (proj2 (orb_false_iff _ _)); [done|]. split; [lia|].
    apply bool_decide_eq_false_2. by rewrite Hfresh; intros []. }
  rewrite Hadd. split; [|done]. unfold feed_in, admit_entry. rewrite Hk, Hadd, Hc, Z.eqb_refl.
  assert (Hsum : pc_total_bytes e + len (piece index) ≤ max_total).
  { pose proof (sum_len_perm _ _ (fmap_Permutation piece _ _ Hp)) as Hs. rewrite piece_seqZ in Hs.
    rewrite len_mjoin in fits. rewrite fmap_app, sum_len_app in Hs. cbn in Hs.
    pose proof (sum_len_nonneg (piece <$> rest)). unfold sum_len in *. rewrite Ht. lia. }
  assert (Hi' : ∀ i, is_Some (pc_chunks e' !! i) → 0 ≤ i < len pieces).
  { destruct He' as (_ & Hch' & _). intros i. rewrite Hch'. case_bool_decide as Hin; [|by intros []].
    intros _. apply Hmem. apply elem_of_app in Hin as [|?%list_elem_of_singleton]; auto. }
  destruct (Z.gtb_spec (pc_total_bytes e + len (piece index)) max_total); [lia|]. cbn [negb].
  change (pc_chunk_count e') with (pc_chunk_count e). rewrite Hc.
  pose proof (keys_full _ _ (len_nonneg pieces) Hi') as Hfull.
  destruct (decide (rest = [])) as [->|Hrest].
  - assert (Hall : ∀ i, 0 ≤ i < len pieces → i ∈ fed ++ [index]) by (intros i ?%Hmem; set_solver).
    rewrite (proj2 (Z.eqb_eq _ _)), (gather_full _ _ He' Hall); [done|].
    apply Hfull. intros i Hi. destruct He' as (_ & -> & _). by rewrite bool_decide_eq_true_2 by auto.
  - rewrite (proj2 (Z.eqb_neq _ _)); [done|]. intros Hz. destruct rest as [|j rest]; [done|].
    destruct (proj1 Hfull Hz j) as [v Hv]; [apply Hmem; set_solver|].
    destruct He' as (_ & Hch' & _). rewrite Hch', bool_decide_eq_false_2 in Hv; [done|].
    intros [Hjf|?%list_elem_of_singleton]%elem_of_app; [|set_solver]. apply (Hdis j); [done|]. set_solver.
Qed.

Lemma feed_other m k index count data now :
  k ≠ key → (feed_in max_entries max_total m k index count data now).1 !! key = m !! key.
Proof.
  intros Hk. unfold feed_in, admit_entry.
  repeat case_match; simplify_eq/=; by repeat (rewrite lookup_insert_ne || rewrite lookup_delete_ne).
Qed.

Definition ours (evs : list FeedEvent) : list FeedEvent := filter (λ ev, fe_key ev = key) evs.

Lemma feeds_cons m ev evs :
  outputs key (feeds max_entries max_total m (ev :: evs))
  = let '(m', r) := feed_in max_entries max_total m (fe_key ev) (fe_index ev) (fe_count ev)
                      (fe_data ev) (fe_now ev) in
    (if decide (fe_key ev = key) then [r] else [])
    ++ outputs key (feeds max_entries max_total m' evs).
Proof.
  cbn [feeds]. destruct (feed_in _ _ _ _ _ _ _ _) as [m' r]. unfold outputs.
  rewrite filter_cons. cbn [fst]. by destruct (decide (fe_key ev = key)).
Qed.

Lemma outputs_none m evs :
  ours evs = [] → outputs key (feeds max_entries max_total m evs) = [].
Proof.
  revert m. induction evs as [|ev evs IH]; intros m; [done|]. unfold ours. rewrite filter_cons.
  case_decide; [done|]. intros Ho. rewrite feeds_cons. destruct (feed_in _ _ _ _ _ _ _ _).
  rewrite decide_False by done. by apply IH.
Qed.

Lemma feeds_transfer evs m e fed :
  m !! key = Some e → holds fed e → Forall event_ok (ours evs) → ours evs ≠ [] →
  (fed ++ (fe_index <$> ours evs)) ≡ₚ seqZ 0 (len pieces) →
  outputs key (feeds max_entries max_total m evs)
  = replicate (length (ours evs) - 1) None ++ [Some (mjoin pieces)].
Proof.
  revert m e fed. induction evs as [|ev evs IH]; intros m e fed Hm He Hok Hne Hp; [done|].
  rewrite feeds_cons. unfold ours in Hok, Hne, Hp |- *. rewrite filter_cons in Hok, Hne, Hp |- *.
  destruct (decide (fe_key ev = key)) as [Hk|Hk].
  - apply Forall_cons in Hok as [[Hc Hd] Hok]. rewrite Hk, Hc, Hd. cbn [fmap list_fmap] in Hp.
    destruct (feed_piece m e fed _ _ (fe_now ev) Hm He Hp) as [-> He'].
    destruct (filter _ evs) as [|ev2 evs2] eqn:Hf.
    + rewrite decide_True by done. cbn. by rewrite outputs_none.
    + rewrite decide_False by done. rewrite <- Hf in *.
      erewrite IH; [|apply lookup_insert_eq|exact He'|done|unfold ours; by rewrite Hf|by rewrite <- app_assoc].
      unfold ours. rewrite Hf. cbn. by rewrite Nat.sub_0_r.
  - destruct (feed_in _ _ _ _ _ _ _ _) as [m' r] eqn:E. cbn [app].
    apply (IH _ e fed); try done. change m' with (m', r).1. rewrite <- E. by rewrite feed_other.
Qed.
End Transfer.

(** A transfer cut into pieces is handed over exactly when its last
    missing chunk arrives, as the concatenation of the pieces, whatever the
    order of its chunks and whatever other transfers are fed in between,
    provided there was room for it when it started and it is within the byte
    cap. *)
Theorem transfer_reassembles max_entries max_total m key pieces ev evs :
  m !! key = None → Z.of_nat (size m) < max_entries → len (mjoin pieces) ≤ max_total →
  fe_key ev = key →
  Forall (event_ok pieces) (ours key (ev :: evs)) →
  (fe_index <$> ours key (ev :: evs)) ≡ₚ seqZ 0 (len pieces) →
  outputs key (feeds max_entries max_total m (ev :: evs))
  = replicate (length pieces - 1) None ++ [Some (mjoin pieces)].
Proof.
  intros Hm Hs Hfit Hk Hok Hp.
  assert (Ho : ours key (ev :: evs) = ev :: ours key evs)
    by (unfold ours; by rewrite filter_cons, decide_True).
  assert (Hl : length (ours key (ev :: evs)) = length pieces).
  { apply Permutation_length in Hp. rewrite length_fmap, length_seqZ in Hp. unfold len in Hp. lia. }
  rewrite <- Hl. set (e := pending_new (len pieces) (fe_now ev)).
  assert (Hc : fe_count ev = len pieces) by (rewrite Ho in Hok; by apply Forall_cons in Hok as [[? _] _]).
  assert (Hfirst : feeds max_entries max_total m (ev :: evs)
                   = feeds max_entries max_total (<[key := e]> m) (ev :: evs)).
  { cbn [feeds]. unfold feed_in, admit_entry. rewrite Hk, Hm, Hc, lookup_insert_eq.
    destruct (Z.geb_spec (Z.of_nat (size m)) max_entries); [lia|done]. }
  rewrite Hfirst. eapply (feeds_transfer _ _ _ _ Hfit _ _ e []).
  - apply lookup_insert_eq.
  - split_and!; [done| |done]. intros i. by rewrite bool_decide_eq_false_2 by (by apply not_elem_of_nil).
  - done.
  - by rewrite Ho.
  - done.
Qed.

Lemma transfer_reassembles_witness :
  outputs [zb 1] (feeds 4 100 ∅ [mkFeed [zb 1] 1 2 [zb 8] 5; mkFeed [zb 2] 0 3 [zb 9] 5;
                                 mkFeed [zb 1] 0 2 [zb 7] 6])
  = [None; Some [zb 7; zb 8]].
Proof.
  rewrite (transfer_reassembles 4 100 ∅ [zb 1] [[zb 7]; [zb 8]]);
    [done|done|done|by vm_compute|done| |].
  - repeat constructor.
  - apply Permutation_swap.
Defined.
