(* ===== verification/Envelope.v ===== *)
(** The inner envelope of [wire-types/src/envelope.rs]: the 17 type codes,
    the payload union over the codecs of the other wire files, and the
    framing of one application message. *)

From S2P Require Import Prelude Bin RustStr Limits Payloads WirePolicy WireResync WireAttach WireSticker.

Definition MSG_ID_BYTES : Z := 16.

Inductive EnvelopeType : Set :=
| TMsg | TEdit | TDelete | TDeleteAll | TResyncReq | TAttachHead | TAttachChunk | TContactClose
| TProfile | TPref | TProfileReq | TSticker | TStickerCtrl | TPresence | TChatPolicy | TTyping
| TRead.

#[export] Instance envelope_type_eq_dec : EqDecision EnvelopeType.
Proof. solve_decision. Defined.

Definition code (t : EnvelopeType) : Z :=
  match t with
  | TMsg => 1
  | TEdit => 2
  | TDelete => 3
  | TDeleteAll => 4
  | TResyncReq => 5
  | TAttachHead => 6
  | TAttachChunk => 7
  | TContactClose => 8
  | TProfile => 9
  | TPref => 10
  | TProfileReq => 11
  | TSticker => 14
  | TStickerCtrl => 15
  | TPresence => 16
  | TChatPolicy => 17
  | TTyping => 18
  | TRead => 19
  end.

Definition from_code (c : Z) : option EnvelopeType :=
  match c with
  | 1 => Some TMsg
  | 2 => Some TEdit
  | 3 => Some TDelete
  | 4 => Some TDeleteAll
  | 5 => Some TResyncReq
  | 6 => Some TAttachHead
  | 7 => Some TAttachChunk
  | 8 => Some TContactClose
  | 9 => Some TProfile
  | 10 => Some TPref
  | 11 => Some TProfileReq
  | 14 => Some TSticker
  | 15 => Some TStickerCtrl
  | 16 => Some TPresence
  | 17 => Some TChatPolicy
  | 18 => Some TTyping
  | 19 => Some TRead
  | _ => None
  end.

Inductive Payload :=
| PMsg (p : Msg)
| PEdit (p : Edit)
| PDelete (p : Delete)
| PDeleteAll (p : DeleteAll)
| PResyncReq (p : ResyncReq)
| PAttachHead (p : AttachHeadPayload)
| PAttachChunk (p : AttachChunk)
| PContactClose (p : ContactClose)
| PProfile (p : Profile)
| PPref (p : Pref)
| PProfileReq (p : ProfileReq)
| PSticker (p : StickerItem)
| PStickerCtrl (p : StickerCtrl)
| PPresence (p : Presence)
| PChatPolicy (p : ChatPolicy)
| PTyping (p : Typing)
| PRead (p : Read).

Definition payload_type (p : Payload) : EnvelopeType :=
  match p with
  | PMsg _ => TMsg
  | PEdit _ => TEdit
  | PDelete _ => TDelete
  | PDeleteAll _ => TDeleteAll
  | PResyncReq _ => TResyncReq
  | PAttachHead _ => TAttachHead
  | PAttachChunk _ => TAttachChunk
  | PContactClose _ => TContactClose
  | PProfile _ => TProfile
  | PPref _ => TPref
  | PProfileReq _ => TProfileReq
  | PSticker _ => TSticker
  | PStickerCtrl _ => TStickerCtrl
  | PPresence _ => TPresence
  | PChatPolicy _ => TChatPolicy
  | PTyping _ => TTyping
  | PRead _ => TRead
  end.

Record Envelope := mkEnvelope {
  env_msg_id : bytes;
  env_app_seq : Z;
  env_sent_at : Z;
  env_ref_id : option bytes;
  env_payload : Payload;
}.

Definition envelope_type (e : Envelope) : EnvelopeType := payload_type (env_payload e).

Section EnvelopeCodec.
Context (nfc : bytes → bytes).
#[local] Existing Instance profile_payload.
#[local] Instance profile_codec : WirePayload Profile := profile_payload nfc.
#[local] Instance profile_codec_laws : WirePayloadLaws Profile := profile_laws nfc.

Definition payload_encode (p : Payload) : result WireError bytes :=
  match p with
  | PMsg p => encode_payload p
  | PEdit p => encode_payload p
  | PDelete p => encode_payload p
  | PDeleteAll p => encode_payload p
  | PResyncReq p => encode_payload p
  | PAttachHead p => encode_payload p
  | PAttachChunk p => encode_payload p
  | PContactClose p => encode_payload p
  | PProfile p => encode_payload p
  | PPref p => encode_payload p
  | PProfileReq p => encode_payload p
  | PSticker p => encode_payload p
  | PStickerCtrl p => encode_payload p
  | PPresence p => encode_payload p
  | PChatPolicy p => encode_payload p
  | PTyping p => encode_payload p
  | PRead p => encode_payload p
  end.

Definition payload_decode (t : EnvelopeType) (bs : bytes) : result WireError Payload :=
  match t with
  | TMsg => let* p := decode_payload bs in Ok (PMsg p)
  | TEdit => let* p := decode_payload bs in Ok (PEdit p)
  | TDelete => let* p := decode_payload bs in Ok (PDelete p)
  | TDeleteAll => let* p := decode_payload bs in Ok (PDeleteAll p)
  | TResyncReq => let* p := decode_payload bs in Ok (PResyncReq p)
  | TAttachHead => let* p := decode_payload bs in Ok (PAttachHead p)
  | TAttachChunk => let* p := decode_payload bs in Ok (PAttachChunk p)
  | TContactClose => let* p := decode_payload bs in Ok (PContactClose p)
  | TProfile => let* p := decode_payload bs in Ok (PProfile p)
  | TPref => let* p := decode_payload bs in Ok (PPref p)
  | TProfileReq => let* p := decode_payload bs in Ok (PProfileReq p)
  | TSticker => let* p := decode_payload bs in Ok (PSticker p)
  | TStickerCtrl => let* p := decode_payload bs in Ok (PStickerCtrl p)
  | TPresence => let* p := decode_payload bs in Ok (PPresence p)
  | TChatPolicy => let* p := decode_payload bs in Ok (PChatPolicy p)
  | TTyping => let* p := decode_payload bs in Ok (PTyping p)
  | TRead => let* p := decode_payload bs in Ok (PRead p)
  end.

Definition envelope_encode (e : Envelope) : result WireError bytes :=
  let* payload := payload_encode (env_payload e) in
  let w := w_new ;> w_u8 (code (envelope_type e)) ;> w_raw (env_msg_id e)
           ;> w_u64be (env_app_seq e) ;> w_u64be (env_sent_at e) in
  let w := match env_ref_id e with
           | Some r => w ;> w_u8 MSG_ID_BYTES ;> w_raw r
           | None => w ;> w_u8 0
           end in
  let out := w_finish (w ;> w_lp payload) in
  if len out >? MAX_ENVELOPE_BYTES
  then Err (TooLarge "envelope" (len out) MAX_ENVELOPE_BYTES)
  else Ok out.

Definition read_ref (ref_len : Z) : parser (option bytes) :=
  if ref_len =? 0 then pret None
  else if ref_len =? MSG_ID_BYTES then r <-- r_take MSG_ID_BYTES "envelope.ref" ;; pret (Some r)
  else pfail (BadLength "envelope.ref" ref_len MSG_ID_BYTES).

Definition envelope_body : parser Envelope :=
  code <-- r_u8 "envelope.type" ;;
  msg_id <-- r_take MSG_ID_BYTES "envelope.msg_id" ;;
  app_seq <-- r_u64be "envelope.app_seq" ;;
  sent_at <-- r_u64be "envelope.sent_at" ;;
  ref_len <-- r_u8 "envelope.ref_len" ;;
  ref_id <-- read_ref ref_len ;;
  payload_bytes <-- r_lp MAX_ENVELOPE_BYTES "envelope.payload" ;;
  _ <-- r_expect_end "envelope" ;;
  t <-- plift (ok_or (from_code code) (UnknownType code msg_id app_seq)) ;;
  payload <-- plift (payload_decode t payload_bytes) ;;
  pret (mkEnvelope msg_id app_seq sent_at ref_id payload).

Definition envelope_decode (bs : bytes) : result WireError Envelope :=
  if len bs >? MAX_ENVELOPE_BYTES
  then Err (TooLarge "envelope" (len bs) MAX_ENVELOPE_BYTES)
  else run envelope_body bs.

(** ** Well-formedness and the codec laws of the union *)

Definition payload_wf (p : Payload) : Prop :=
  match p with
  | PMsg p => wire_wf p
  | PEdit p => wire_wf p
  | PDelete p => wire_wf p
  | PDeleteAll p => wire_wf p
  | PResyncReq p => wire_wf p
  | PAttachHead p => wire_wf p
  | PAttachChunk p => wire_wf p
  | PContactClose p => wire_wf p
  | PProfile p => wire_wf p
  | PPref p => wire_wf p
  | PProfileReq p => wire_wf p
  | PSticker p => wire_wf p
  | PStickerCtrl p => wire_wf p
  | PPresence p => wire_wf p
  | PChatPolicy p => wire_wf p
  | PTyping p => wire_wf p
  | PRead p => wire_wf p
  end.

Lemma payload_roundtrip p bs :
  payload_wf p → payload_encode p = Ok bs → payload_decode (payload_type p) bs = Ok p.
Proof.
  intros Hw H. destruct p; cbn [payload_wf payload_encode payload_type payload_decode] in *;
    by rewrite (wire_roundtrip _ _ Hw H).
Qed.

Lemma payload_decoded t bs p :
  payload_decode t bs = Ok p →
  payload_type p = t ∧ payload_wf p ∧ is_ok (payload_encode p) = true.
Proof.
  intros H. destruct t; cbn [payload_decode] in H; apply rbind_Ok in H as (x & H & [= <-]);
    (split; [done|]); by apply wire_decoded in H.
Qed.

Definition envelope_wf (e : Envelope) : Prop :=
  len (env_msg_id e) = MSG_ID_BYTES ∧ is_u64 (env_app_seq e) ∧ is_u64 (env_sent_at e)
  ∧ from_option (λ r, len r = MSG_ID_BYTES) True (env_ref_id e) ∧ payload_wf (env_payload e).

Lemma from_code_code t : from_code (code t) = Some t.
Proof. by destruct t. Qed.

Lemma code_u8 t : is_u8 (code t).
Proof. destruct t; unfold is_u8; cbv; split; discriminate. Qed.

Lemma from_code_Some c t : from_code c = Some t → c = code t.
Proof.
  unfold from_code. intros H. repeat case_match; simplify_eq; done.
Qed.

Definition ref_bytes (r : option bytes) : bytes :=
  match r with
  | Some r => [zb MSG_ID_BYTES] ++ r
  | None => [zb 0]
  end.

Lemma envelope_encode_Ok e bs :
  envelope_encode e = Ok bs →
  ∃ payload, payload_encode (env_payload e) = Ok payload ∧ len bs ≤ MAX_ENVELOPE_BYTES
    ∧ bs = [zb (code (envelope_type e))] ++ env_msg_id e ++ be_bytes 8 (env_app_seq e)
           ++ be_bytes 8 (env_sent_at e) ++ ref_bytes (env_ref_id e)
           ++ be_bytes 4 (len payload) ++ payload.
Proof.
  unfold envelope_encode. intros (payload & Hp & H)%rbind_Ok. exists payload.
  guards H. apply Ok_inj in H. split; [done|]. split; [subst bs; lia|]. subst bs.
  unfold ref_bytes. destruct (env_ref_id e); wnorm; by rewrite <- ?app_assoc.
Qed.

Lemma reads_ref {B} N o (k : option bytes → parser B) ys rest b :
  from_option (λ r, len r = MSG_ID_BYTES) True o → reads N (k o) ys rest b →
  reads N (ref_len <-- r_u8 "envelope.ref_len" ;; ref_id <-- read_ref ref_len ;; k ref_id)
    (ref_bytes o ++ ys) rest b.
Proof.
  intros Ho Hk. destruct o as [r|]; cbn [ref_bytes from_option] in *.
  - rewrite <- app_assoc. rstep; [done|]. eapply reads_bind; [|done].
    unfold read_ref. apply reads_if; [done|]. apply reads_if_true; [done|].
    eapply reads_bind_last; [by apply reads_take|]. apply reads_ret.
  - rstep; [done|]. eapply reads_bind_nil; [|done]. apply reads_ret.
Qed.

Lemma envelope_roundtrip_lemma e bs :
  envelope_wf e → envelope_encode e = Ok bs → envelope_decode bs = Ok e.
Proof.
  intros (Hid & Hseq & Hsent & Hr & Hp) (pl & Hpl & Hlen & ->)%envelope_encode_Ok.
  unfold envelope_decode. destruct (Z.gtb_spec (len ([zb (code (envelope_type e))]
    ++ env_msg_id e ++ be_bytes 8 (env_app_seq e) ++ be_bytes 8 (env_sent_at e)
    ++ ref_bytes (env_ref_id e) ++ be_bytes 4 (len pl) ++ pl)) MAX_ENVELOPE_BYTES); [lia|].
  apply run_reads. rewrite <- ?app_assoc. unfold envelope_body.
  assert (Hl : len pl ≤ MAX_ENVELOPE_BYTES).
  { rewrite !len_app in Hlen. pose proof (len_nonneg (env_msg_id e)).
    pose proof (len_nonneg (ref_bytes (env_ref_id e))). len_lia. }
  rstep; [apply code_u8|]. rstep; [done|]. rstep; [done|]. rstep; [done|].
  apply reads_ref; [done|]. rstep; [done|done|]. rstep. rstep; [by rewrite from_code_code|].
  rstep; [by apply payload_roundtrip|]. destruct e. apply reads_ret.
Qed.

Lemma read_ref_Ok n r o r' :
  r_wf r → read_ref n r = Ok (o, r') →
  r_wf r' ∧ from_option (λ r, len r = MSG_ID_BYTES) True o.
Proof.
  intros Hw. unfold read_ref. intros H. repeat rinv; simplify_eq; [done|].
  split; [by eauto with wire|done].
Qed.

Lemma envelope_decoded bs e :
  envelope_decode bs = Ok e →
  envelope_wf e ∧ is_ok (payload_encode (env_payload e)) = true ∧ len bs ≤ MAX_ENVELOPE_BYTES.
Proof.
  unfold envelope_decode. destruct (Z.gtb_spec (len bs) MAX_ENVELOPE_BYTES); [done|].
  unfold envelope_body. intros Hd. repeat rinv.
  match goal with H : read_ref _ _ = Ok _ |- _ =>
    apply read_ref_Ok in H as [? ?]; [|by eauto with wire] end. repeat rinv. subst e.
  match goal with H : payload_decode _ _ = Ok _ |- _ =>
    apply payload_decoded in H as (_ & ? & ?) end. done.
Qed.
End EnvelopeCodec.

(** ** Main results *)

(** C1: Encoding a well-formed envelope and decoding the bytes gives the
    envelope back, for each of the seventeen payload types, and the bytes
    respect the envelope ceiling. *)
Theorem envelope_roundtrip nfc e bs :
  envelope_wf nfc e → envelope_encode nfc e = Ok bs →
  envelope_decode nfc bs = Ok e ∧ len bs ≤ MAX_ENVELOPE_BYTES.
Proof.
  intros Hw He. split; [by apply envelope_roundtrip_lemma|].
  by apply envelope_encode_Ok in He as (payload & _ & Hl & _).
Qed.

(** C2: Whatever the decoder accepts is a well-formed envelope within the
    ceiling whose payload encodes again; when the envelope itself encodes
    again, the peer reads the same envelope from the new bytes. *)
Theorem decoded_envelope_sound nfc bs e :
  envelope_decode nfc bs = Ok e →
  envelope_wf nfc e ∧ len bs ≤ MAX_ENVELOPE_BYTES
  ∧ (∃ payload, payload_encode nfc (env_payload e) = Ok payload
       ∧ payload_decode nfc (envelope_type e) payload = Ok (env_payload e))
  ∧ (∀ bs', envelope_encode nfc e = Ok bs' → envelope_decode nfc bs' = Ok e).
Proof.
  intros (Hw & Hp & Hl)%envelope_decoded. split_and!; [done|done| |].
  - destruct (payload_encode nfc (env_payload e)) as [payload|] eqn:E; [|done].
    exists payload. split; [done|]. apply payload_roundtrip; [apply Hw|done].
  - intros bs' H. by apply envelope_roundtrip_lemma.
Qed.

Definition demo_envelope : Envelope :=
  mkEnvelope (be_bytes 16 1) 7 1000 (Some (be_bytes 16 2)) (PMsg (mkMsg [zb 104; zb 105])).

Definition demo_envelope_bytes : bytes := default [] (ok (envelope_encode id demo_envelope)).

Lemma envelope_roundtrip_witness :
  envelope_decode id demo_envelope_bytes = Ok demo_envelope
  ∧ len demo_envelope_bytes ≤ MAX_ENVELOPE_BYTES.
Proof. apply (envelope_roundtrip id); [by repeat split|by vm_compute]. Defined.

Lemma decoded_envelope_sound_witness : envelope_wf id demo_envelope.
Proof. apply (decoded_envelope_sound id demo_envelope_bytes). by vm_compute. Defined.
