(* ===== verification/Frame.v ===== *)
(** The outer wire layers: bucketed records ([core/src/wire/frame.rs]), the
    counted envelope decode of [core/src/wire/envelope.rs], and the sized
    stream framing of [core/src/transport/framing.rs]. The CSPRNG that
    fills the padding ([rand]) is the argument [fill_bytes]. *)

From S2P Require Import Prelude Bin RustStr Limits Payloads Envelope.

(** ** Records *)

Definition VERSION_V2 : Z := 2.
Definition RECORD_BUCKETS : list Z := [256; 512; 1024; 4096; 16384; 32768].
Definition MAX_RECORD_BYTES : Z := 32768.
Definition RECORD_HEADER_BYTES : Z := 3.

Definition is_bucket (n : Z) : bool := existsb (Z.eqb n) RECORD_BUCKETS.

Definition bucket_for (payload_len : Z) : option Z :=
  let inner := RECORD_HEADER_BYTES + payload_len in
  List.find (λ b, inner <=? b) RECORD_BUCKETS.

Section Record.
(** [fill_bytes n]: [n] bytes from the CSPRNG. *)
Context (fill_bytes : nat → bytes).

Definition build_record (payload : bytes) : result WireError bytes :=
  let* bucket := ok_or (bucket_for (len payload))
    (TooLarge "record" (len payload) (MAX_RECORD_BYTES - RECORD_HEADER_BYTES)) in
  Ok ([zb VERSION_V2] ++ be_bytes 2 (len payload) ++ payload
      ++ fill_bytes (Z.to_nat (bucket - (3 + len payload)))).
End Record.

Definition parse_record (record : bytes) : result WireError bytes :=
  if negb (bool_decide (bz <$> head record = Some VERSION_V2))
  then Err (BadVersion "record" (from_option bz 0 (head record)))
  else if negb (is_bucket (len record))
  then Err (BadLength "record" (len record) MAX_RECORD_BYTES)
  else
    let n := be_val (take 2 (drop 1 record)) in
    if RECORD_HEADER_BYTES + n >? len record
    then Err (BadLength "record.payload" n (len record - RECORD_HEADER_BYTES))
    else Ok (take (Z.to_nat n) (drop 3 record)).

(** ** Counted decode: the unknown-type drop counter is explicit state *)

Definition decode_envelope (nfc : bytes → bytes) (bs : bytes) (drops : Z)
    : result WireError Envelope * Z :=
  match envelope_decode nfc bs with
  | Ok e => (Ok e, drops)
  | Err (UnknownType c i s) => (Err (UnknownType c i s), wrap64 (drops + 1))
  | Err e => (Err e, drops)
  end.

(** ** Stream framing *)

(** [TransportError]; [IoUnexpectedEof] is the [Io] of a stream that ends
    inside a frame, [TrIo] any other. *)
Inductive TransportError :=
| IoUnexpectedEof
| TrIo (detail : Detail)
| TrControl (detail : Detail)
| ControlReply (code : Z) (message : Detail)
| ControlClosed
| TrSocks (detail : Detail)
| ConnectFailed (dest : string) (attempts : Z) (reason : Detail)
| KillSwitch
| DaemonDead (detail : Detail)
| Offline
| TrTimeout (detail : Detail)
| InvalidOnion (detail : Detail)
| TrKeyStore (detail : Detail)
| MalformedFrame (detail : Detail).

Definition FLAG_SIZED_QUIET : Z := 5.
Definition FLAG_SIZED_ALERT : Z := 6.
Definition INTRO_SIZED_QUIET : Z := 252.
Definition INTRO_SIZED_ALERT : Z := 253.

Record OpaqueFrame := mkOpaqueFrame {
  of_intro : option bytes;
  of_frame : bytes;
  of_alert : bool;
}.

Definition pack (intro : option bytes) (frame : bytes) (alert : bool)
    : result TransportError bytes :=
  if negb (is_bucket (len frame))
  then Err (MalformedFrame (Fmt "frame length {} is not a record bucket" [len frame]))
  else if negb (bool_decide (bz <$> head frame = Some VERSION_V2))
  then Err (MalformedFrame (Lit "frame does not start with VERSION_V2"))
  else
    let* out :=
      match intro with
      | None =>
          Ok ([zb (if alert then FLAG_SIZED_ALERT else FLAG_SIZED_QUIET)]
              ++ be_bytes 2 (len frame))
      | Some intro =>
          if (len intro =? 0) || (len intro >? MAX_INTRO_BYTES)
          then Err (MalformedFrame (Fmt "intro length {} out of range" [len intro]))
          else Ok ([zb (if alert then INTRO_SIZED_ALERT else INTRO_SIZED_QUIET)]
                   ++ be_bytes 2 (len intro) ++ intro ++ be_bytes 2 (len frame))
      end in
    Ok (out ++ frame).

(** A stream is the bytes it will still deliver before EOF; [read_exact]
    consumes exactly [n] of them or fails. *)
Definition read_exact (n : nat) (s : bytes) : result TransportError (bytes * bytes) :=
  if decide (n ≤ length s)%nat then Ok (take n s, drop n s) else Err IoUnexpectedEof.

Definition read_u16 (s : bytes) : result TransportError (Z * bytes) :=
  let* bs := read_exact 2 s in Ok (be_val bs.1, bs.2).

Definition frame_flag (flag : Z) : result TransportError (bool * bool) :=
  if flag =? FLAG_SIZED_QUIET then Ok (false, false)
  else if flag =? FLAG_SIZED_ALERT then Ok (true, false)
  else if flag =? INTRO_SIZED_QUIET then Ok (false, true)
  else if flag =? INTRO_SIZED_ALERT then Ok (true, true)
  else Err (MalformedFrame (Fmt "unknown frame flag 0x{other:02x} (legacy flags are dropped)" [flag])).

Definition read_intro (has_intro : bool) (s : bytes)
    : result TransportError (option bytes * bytes) :=
  if has_intro then
    let* n := read_u16 s in
    if (n.1 =? 0) || (n.1 >? MAX_INTRO_BYTES)
    then Err (MalformedFrame (Fmt "intro length {intro_len} out of range" [n.1]))
    else let* i := read_exact (Z.to_nat n.1) n.2 in Ok (Some i.1, i.2)
  else Ok (None, s).

(** [Ok (None, _)] is the clean end of the stream. *)
Definition read_frame (s : bytes) : result TransportError (option OpaqueFrame * bytes) :=
  match read_exact 1 s with
  | Err _ => Ok (None, s)
  | Ok (flag, s) =>
      let* ai := frame_flag (be_val flag) in
      let* i := read_intro ai.2 s in
      let* n := read_u16 i.2 in
      if negb (is_bucket n.1)
      then Err (MalformedFrame (Fmt "record length {frame_len} is not a bucket" [n.1]))
      else
        let* f := read_exact (Z.to_nat n.1) n.2 in
        if negb (bool_decide (bz <$> head f.1 = Some VERSION_V2))
        then Err (MalformedFrame (Lit "record version byte is not VERSION_V2"))
        else Ok (Some (mkOpaqueFrame i.1 f.1 ai.1), f.2)
  end.

(** ** Lemmas *)

Lemma is_bucket_range n : is_bucket n = true → 256 ≤ n ≤ MAX_RECORD_BYTES.
Proof. unfold is_bucket, RECORD_BUCKETS, MAX_RECORD_BYTES. cbn. lia. Qed.

Lemma bucket_for_Some n b :
  bucket_for n = Some b →
  is_bucket b = true ∧ 3 + n ≤ b ∧ (∀ b', is_bucket b' = true → 3 + n ≤ b' → b ≤ b').
Proof.
  unfold bucket_for, is_bucket, RECORD_BUCKETS, RECORD_HEADER_BYTES. cbv zeta. cbn [List.find existsb].
  repeat case_match; intros; simplify_eq; split_and!; try done; lia.
Qed.

Lemma bucket_for_None n :
  bucket_for n = None ↔ MAX_RECORD_BYTES - RECORD_HEADER_BYTES < n.
Proof.
  unfold bucket_for, RECORD_BUCKETS, RECORD_HEADER_BYTES, MAX_RECORD_BYTES. cbv zeta. cbn [List.find].
  repeat case_match; split; intros; simplify_eq; done || lia.
Qed.

Lemma drop1_cons {A} (x : A) l : drop 1 ([x] ++ l) = l.
Proof. done. Qed.

Lemma take2_be2 v l : take 2 (be_bytes 2 v ++ l) = be_bytes 2 v.
Proof. apply take_app_length'. by rewrite length_be_bytes. Qed.

Lemma drop3_record v (x : byte) l : drop 3 ([x] ++ be_bytes 2 v ++ l) = l.
Proof.
  rewrite app_assoc. apply drop_app_length'. by rewrite length_app, length_be_bytes.
Qed.

Lemma build_record_Ok fill payload rec :
  (∀ n, length (fill n) = n) → build_record fill payload = Ok rec →
  ∃ bucket, bucket_for (len payload) = Some bucket ∧ len rec = bucket
    ∧ rec = [zb VERSION_V2] ++ be_bytes 2 (len payload) ++ payload
            ++ fill (Z.to_nat (bucket - (3 + len payload))).
Proof.
  intros Hfill (b & Hb & <-%Ok_inj)%rbind_Ok. exists b.
  destruct (bucket_for (len payload)) as [b'|] eqn:E; cbn in Hb; [|done]. injection Hb as ->.
  split; [done|]. split; [|done]. apply bucket_for_Some in E as (_ & Hl & _).
  assert (Hf : ∀ k, len (fill k) = Z.of_nat k) by (intros; unfold len; by rewrite Hfill).
  rewrite !len_app, len_be2, len_cons, len_nil, Hf.
  pose proof (len_nonneg payload). lia.
Qed.

Lemma parse_build fill payload rec :
  (∀ n, length (fill n) = n) → build_record fill payload = Ok rec → parse_record rec = Ok payload.
Proof.
  intros Hfill H. apply build_record_Ok in H as (b & Hb & Hl & Hr); [|done].
  apply bucket_for_Some in Hb as (Hbk & Hle & _). pose proof (is_bucket_range _ Hbk) as Hbr.
  pose proof (len_nonneg payload) as Hp. unfold parse_record. rewrite Hl, Hbk. rewrite Hr.
  rewrite bool_decide_eq_true_2 by done. cbn [negb].
  rewrite drop1_cons, take2_be2, drop3_record, be_val_bytes_small by (unfold MAX_RECORD_BYTES in *; lia).
  unfold RECORD_HEADER_BYTES. destruct (Z.gtb_spec (3 + len payload) b); [lia|].
  unfold len. by rewrite Nat2Z.id, take_app_length.
Qed.

Lemma read_exact_app xs rest : read_exact (length xs) (xs ++ rest) = Ok (xs, rest).
Proof.
  unfold read_exact. rewrite decide_True by (rewrite length_app; lia).
  by rewrite take_app_length, drop_app_length.
Qed.

Lemma read_u16_app v rest : is_u16 v → read_u16 (be_bytes 2 v ++ rest) = Ok (v, rest).
Proof.
  intros Hv. unfold read_u16. rewrite <- (length_be_bytes 2 v) at 1. rewrite read_exact_app.
  cbn [rbind fst snd]. rewrite be_val_bytes_small; [done|]. unfold is_u16, u16_max in Hv. lia.
Qed.

(** What [pack] wrote, followed by anything, reads back as the frame and
    leaves what followed. *)
Lemma read_pack intro frame alert bs rest :
  pack intro frame alert = Ok bs →
  read_frame (bs ++ rest) = Ok (Some (mkOpaqueFrame intro frame alert), rest).
Proof.
  unfold pack. destruct (is_bucket (len frame)) eqn:Hb; [|done].
  destruct (bool_decide _) eqn:Hv; [|done]. cbn [negb]. intros (out & Ho & <-%Ok_inj)%rbind_Ok.
  pose proof (is_bucket_range _ Hb) as Hbr.
  assert (Hu : is_u16 (len frame)) by (unfold MAX_RECORD_BYTES in *; bnd).
  assert (Hrest : ∀ i, (let* n := read_u16 (be_bytes 2 (len frame) ++ frame ++ rest) in
      if negb (is_bucket n.1)
      then Err (MalformedFrame (Fmt "record length {frame_len} is not a bucket" [n.1]))
      else
        let* f := read_exact (Z.to_nat n.1) n.2 in
        if negb (bool_decide (bz <$> head f.1 = Some VERSION_V2))
        then Err (MalformedFrame (Lit "record version byte is not VERSION_V2"))
        else Ok (Some (mkOpaqueFrame i f.1 alert), f.2))
      = Ok (Some (mkOpaqueFrame i frame alert), rest)).
  { intros i. rewrite read_u16_app by done. cbn [rbind fst snd]. rewrite Hb. cbn [negb].
    unfold len. rewrite Nat2Z.id, read_exact_app. cbn [rbind fst snd]. by rewrite Hv. }
  unfold read_frame. destruct intro as [intro|].
  - destruct (_ || _) eqn:Hi in Ho; [done|]. apply Ok_inj in Ho. subst out.
    rewrite <- !app_assoc. rewrite (read_exact_app [zb _]).
    assert (Hf : frame_flag (be_val [zb (if alert then INTRO_SIZED_ALERT else INTRO_SIZED_QUIET)])
      = Ok (alert, true)) by by destruct alert.
    rewrite Hf. cbn [rbind fst snd]. unfold read_intro.
    rewrite read_u16_app by (unfold MAX_INTRO_BYTES in *; pose proof (len_nonneg intro); bnd).
    cbn [rbind fst snd]. rewrite Hi. unfold len at 1. rewrite Nat2Z.id, read_exact_app.
    cbn [rbind fst snd]. apply Hrest.
  - apply Ok_inj in Ho. subst out. rewrite <- !app_assoc. rewrite (read_exact_app [zb _]).
    assert (Hf : frame_flag (be_val [zb (if alert then FLAG_SIZED_ALERT else FLAG_SIZED_QUIET)])
      = Ok (alert, false)) by by destruct alert.
    rewrite Hf. cbn [rbind fst snd read_intro]. apply Hrest.
Qed.

(** Reading a stream frame by frame until it ends. *)
Fixpoint read_frames (fuel : nat) (s : bytes) : result TransportError (list OpaqueFrame) :=
  match fuel with
  | O => Ok []
  | S fuel =>
      let* fo := read_frame s in
      match fo.1 with
      | None => Ok []
      | Some f => let* fs := read_frames fuel fo.2 in Ok (f :: fs)
      end
  end.

Lemma read_frames_packed (fs : list OpaqueFrame) (bss : list bytes) fuel :
  Forall2 (λ f bs, pack (of_intro f) (of_frame f) (of_alert f) = Ok bs) fs bss →
  (length fs < fuel)%nat → read_frames fuel (concat bss) = Ok fs.
Proof.
  intros H. revert fuel. induction H as [|f bs fs bss Hf _ IH]; intros [|fuel] Hl; try (cbn in Hl; lia).
  - done.
  - cbn [concat read_frames]. rewrite (read_pack _ _ _ _ _ Hf). cbn [rbind fst snd].
    rewrite IH by (cbn in Hl; lia). by destruct f.
Qed.

(** ** Main results *)

(** Records: a payload is refused exactly when it does not fit the
    largest bucket; otherwise the record is the smallest bucket that fits,
    whatever the padding, and the peer parses the payload back out of it. *)
Theorem record_roundtrip fill payload :
  (∀ n, length (fill n) = n) →
  match build_record fill payload with
  | Err _ => MAX_RECORD_BYTES - RECORD_HEADER_BYTES < len payload
  | Ok rec =>
      parse_record rec = Ok payload ∧ is_bucket (len rec) = true
      ∧ ∀ b, is_bucket b = true → RECORD_HEADER_BYTES + len payload ≤ b → len rec ≤ b
  end.
Proof.
  intros Hf. destruct (build_record fill payload) as [rec|x] eqn:E.
  - split; [by apply (parse_build fill)|].
    apply build_record_Ok in E as (bucket & Hb & -> & _); [|done].
    apply bucket_for_Some in Hb as (Hi & _ & Hmin). split; [done|]. exact Hmin.
  - apply bucket_for_None. unfold build_record in E. by destruct (bucket_for (len payload)).
Qed.

Lemma record_roundtrip_witness :
  match build_record (λ n, replicate n (zb 0)) [zb 1; zb 2] with
  | Err _ => MAX_RECORD_BYTES - RECORD_HEADER_BYTES < 2
  | Ok rec =>
      parse_record rec = Ok [zb 1; zb 2] ∧ is_bucket (len rec) = true
      ∧ ∀ b, is_bucket b = true → RECORD_HEADER_BYTES + 2 ≤ b → len rec ≤ b
  end.
Proof. apply (record_roundtrip (λ n, replicate n (zb 0)) [zb 1; zb 2]). intros n. apply length_replicate. Defined.

(** Stream framing: any sequence of packed frames, with and without
    intro blocks, written back to back is read back as exactly those frames
    in order, up to a clean end of stream. *)
Theorem stream_roundtrip (fs : list OpaqueFrame) (bss : list bytes) fuel :
  Forall2 (λ f bs, pack (of_intro f) (of_frame f) (of_alert f) = Ok bs) fs bss →
  (length fs < fuel)%nat → read_frames fuel (concat bss) = Ok fs.
Proof. apply read_frames_packed. Qed.

Definition demo_frame : bytes := zb VERSION_V2 :: replicate 255 (zb 0).
Definition demo_frames : list OpaqueFrame :=
  [mkOpaqueFrame (Some [zb 9]) demo_frame true; mkOpaqueFrame None demo_frame false].

Lemma stream_roundtrip_witness :
  read_frames 3 (concat ((λ f, default [] (ok (pack (of_intro f) (of_frame f) (of_alert f)))) <$> demo_frames))
  = Ok demo_frames.
Proof. apply stream_roundtrip; [|cbn; lia]. repeat constructor; by vm_compute. Defined.
