(* ===== verification/Onion.v ===== *)
(** v3 onion addresses ([core/src/transport/onion/address.rs]). The Base32
    codec and SHA3-256 belong to other crates and are parameters. *)

From S2P Require Import Prelude Bin RustStr Frame.

Definition ONION_RAW_BYTES : Z := 35.
Definition ONION_VERSION : Z := 3.
Definition ONION_HOSTNAME_LEN : Z := 56.
Definition ONION_SUFFIX : bytes := str_bytes ".onion".

Section Onion.
Context (BASE32_NOPAD_encode : bytes → bytes) (BASE32_NOPAD_decode : bytes → option bytes).
Context (sha3_256 : bytes → bytes).

Definition base32_lower (bs : bytes) : bytes := to_lower <$> BASE32_NOPAD_encode bs.

Definition base32_decode (s : bytes) : result TransportError bytes :=
  ok_or (BASE32_NOPAD_decode (to_upper <$> s)) (InvalidOnion (Lit "base32: {e}")).

Definition onion_checksum (pubkey : bytes) : bytes :=
  take 2 (sha3_256 (str_bytes ".onion checksum" ++ pubkey ++ [zb ONION_VERSION])).

(** [raw[..32] = pubkey; raw[32..34] = checksum; raw[34] = version] *)
Definition raw_of_pubkey (pubkey : bytes) : bytes :=
  pubkey ++ onion_checksum pubkey ++ [zb ONION_VERSION].

Definition hostname_from_pubkey (pubkey : bytes) : bytes := base32_lower (raw_of_pubkey pubkey).

(** The checks both decoders make on 35 raw bytes. *)
Definition checked_pubkey (raw : bytes) (version checksum : TransportError)
    : result TransportError bytes :=
  if negb (bool_decide (drop 34 raw = [zb ONION_VERSION])) then Err version
  else
    let pubkey := take 32 raw in
    if negb (bool_decide (onion_checksum pubkey = take 2 (drop 32 raw))) then Err checksum
    else Ok pubkey.

Definition host_of (hostname : bytes) : bytes :=
  let host := to_lower <$> str_trim hostname in
  trim_end_matches (length host) ONION_SUFFIX host.

Definition pubkey_from_hostname (hostname : bytes) : result TransportError bytes :=
  let host := host_of hostname in
  if negb (len host =? ONION_HOSTNAME_LEN)
  then Err (InvalidOnion (Fmt "hostname length {} != {ONION_HOSTNAME_LEN}" [len host]))
  else
    let* raw := base32_decode host in
    if negb (len raw =? ONION_RAW_BYTES)
    then Err (InvalidOnion (Fmt "decoded length {} != {ONION_RAW_BYTES}" [len raw]))
    else checked_pubkey raw (InvalidOnion (Lit "bad version byte")) (InvalidOnion (Lit "checksum mismatch")).

Definition normalize_hostname (hostname : bytes) : result TransportError bytes :=
  let bare := host_of hostname in
  let* _ := pubkey_from_hostname bare in
  Ok (bare ++ ONION_SUFFIX).

Definition raw_from_hostname (hostname : bytes) : result TransportError bytes :=
  let* pubkey := pubkey_from_hostname hostname in
  Ok (raw_of_pubkey pubkey).

Definition hostname_from_raw (raw : bytes) : result TransportError bytes :=
  let* pubkey := checked_pubkey raw (InvalidOnion (Lit "raw address: bad version"))
                   (InvalidOnion (Lit "raw address: checksum mismatch")) in
  Ok (hostname_from_pubkey pubkey).

(** ** The address codec *)

(** What the crates document: Base32 of 35 bytes is 56 characters of
    [A-Z2-7], decoding inverts encoding and accepts nothing else, and a
    SHA3-256 digest has 32 bytes. *)
Definition is_b32 (b : byte) : bool := in_range 65 90 (bz b) || in_range 50 55 (bz b).
Context (b32_alphabet : ∀ bs, forallb is_b32 (BASE32_NOPAD_encode bs) = true).
Context (b32_length : ∀ bs, len bs = 35 → len (BASE32_NOPAD_encode bs) = 56).
Context (b32_inverse : ∀ bs, len bs = 35 → BASE32_NOPAD_decode (BASE32_NOPAD_encode bs) = Some bs).
Context (b32_canonical : ∀ s bs, len s = 56 → BASE32_NOPAD_decode s = Some bs → BASE32_NOPAD_encode bs = s).
Context (sha3_length : ∀ bs, len (sha3_256 bs) = 32).

Lemma len_checksum pubkey : len (onion_checksum pubkey) = 2.
Proof.
  pose proof (sha3_length (str_bytes ".onion checksum" ++ pubkey ++ [zb ONION_VERSION])) as H.
  unfold onion_checksum, len in *. rewrite length_take. lia.
Qed.

Lemma len_raw_of_pubkey pubkey : len pubkey = 32 → len (raw_of_pubkey pubkey) = 35.
Proof.
  intros H. unfold raw_of_pubkey. rewrite !len_app, len_checksum, H, len_cons, len_nil. lia.
Qed.

Lemma raw_parts pubkey :
  len pubkey = 32 →
  take 32 (raw_of_pubkey pubkey) = pubkey
  ∧ take 2 (drop 32 (raw_of_pubkey pubkey)) = onion_checksum pubkey
  ∧ drop 34 (raw_of_pubkey pubkey) = [zb ONION_VERSION].
Proof.
  intros H. pose proof (len_checksum pubkey) as Hc. unfold len in *. unfold raw_of_pubkey.
  split_and!.
  - apply take_app_length'. lia.
  - rewrite drop_app_length' by lia. apply take_app_length'. lia.
  - rewrite app_assoc. apply drop_app_length'. rewrite length_app. lia.
Qed.

(** The checks pass exactly on the raw form of a public key. *)
Lemma checked_pubkey_iff raw v c pubkey :
  len raw = 35 →
  checked_pubkey raw v c = Ok pubkey ↔ len pubkey = 32 ∧ raw = raw_of_pubkey pubkey.
Proof.
  intros Hl. unfold checked_pubkey. split.
  - destruct (bool_decide (drop 34 raw = _)) eqn:Ev; [|done]. cbn [negb].
    destruct (bool_decide (onion_checksum _ = _)) eqn:Ec; [|done]. cbn [negb]. intros [= <-].
    apply bool_decide_eq_true in Ev, Ec. split.
    + unfold len in *. rewrite length_take. lia.
    + unfold raw_of_pubkey. rewrite Ec, <- Ev.
      rewrite <- (take_drop 32 raw) at 1. f_equal. rewrite <- (take_drop 2 (drop 32 raw)) at 1.
      by rewrite drop_drop.
  - intros [Hp ->]. destruct (raw_parts pubkey Hp) as (-> & -> & ->).
    by rewrite !bool_decide_eq_true_2.
Qed.

Lemma b32_lower_upper b : is_b32 b = true → to_upper (to_lower b) = b ∧ graphic (to_lower b) = true
  ∧ bz (to_lower b) ≠ 46 ∧ to_lower (to_lower b) = to_lower b.
Proof.
  intros H. unfold is_b32, in_range in H. rewrite orb_true_iff, !andb_true_iff in H.
  assert (Hl : bz (to_lower b) = if (65 <=? bz b) && (bz b <=? 90) then bz b + 32 else bz b).
  { unfold to_lower, in_range. case_match; [|done]. apply bz_zb_small. unfold is_u8, u8_max. lia. }
  split_and!.
  - apply bz_inj. unfold to_upper, in_range. rewrite Hl.
    destruct ((65 <=? bz b) && (bz b <=? 90)) eqn:E.
    + rewrite (proj2 (andb_true_iff _ _)) by lia. rewrite bz_zb_small; [lia|]. unfold is_u8, u8_max. lia.
    + rewrite (proj2 (andb_false_iff _ _)) by lia. rewrite Hl. done.
  - unfold graphic, in_range. rewrite Hl. case_match; lia.
  - rewrite Hl. case_match; lia.
  - apply bz_inj. unfold to_lower at 1, in_range. rewrite Hl.
    destruct ((65 <=? bz b) && (bz b <=? 90)) eqn:E.
    + rewrite (proj2 (andb_false_iff _ _)) by lia. by rewrite Hl.
    + rewrite E. by rewrite Hl.
Qed.

Lemma lower_b32 s :
  forallb is_b32 s = true →
  to_upper <$> (to_lower <$> s) = s ∧ forallb graphic (to_lower <$> s) = true
  ∧ Forall (λ b, bz b ≠ 46) (to_lower <$> s) ∧ to_lower <$> (to_lower <$> s) = to_lower <$> s.
Proof.
  induction s as [|b s IH]; [done|]. cbn [forallb fmap list_fmap]. intros [Hb Hs]%andb_true_iff.
  destruct (b32_lower_upper b Hb) as (-> & -> & ? & ->), (IH Hs) as (-> & -> & ? & ->).
  split_and!; [done|done|by constructor|done].
Qed.

Lemma strip_suffix_dot s : Forall (λ b, bz b ≠ 46) s → strip_suffix ONION_SUFFIX s = None.
Proof.
  intros H. unfold strip_suffix. rewrite decide_False; [done|]. intros [Hd Hl].
  apply (Forall_drop _ (length s - length ONION_SUFFIX)) in H. rewrite Hd in H.
  apply Forall_cons in H as [H _]. by apply H.
Qed.

(** A lower-case Base32 text is its own host part. *)
Lemma host_of_b32 s : forallb is_b32 s = true → host_of (to_lower <$> s) = to_lower <$> s.
Proof.
  intros H. destruct (lower_b32 s H) as (_ & Hg & Hd & Hl). unfold host_of.
  rewrite str_trim_graphic, Hl by done. destruct (to_lower <$> s) as [|b l] eqn:E; [done|].
  cbn [length trim_end_matches]. by rewrite strip_suffix_dot.
Qed.

Lemma hostname_roundtrip pubkey :
  len pubkey = 32 → pubkey_from_hostname (hostname_from_pubkey pubkey) = Ok pubkey.
Proof.
  intros Hp. pose proof (len_raw_of_pubkey pubkey Hp) as Hr.
  pose proof (b32_alphabet (raw_of_pubkey pubkey)) as Ha.
  unfold pubkey_from_hostname, hostname_from_pubkey, base32_lower. rewrite host_of_b32 by done.
  replace (len (to_lower <$> BASE32_NOPAD_encode (raw_of_pubkey pubkey))) with 56
    by (unfold len at 1; rewrite length_fmap; symmetry; by apply b32_length).
  cbn [negb Z.eqb ONION_HOSTNAME_LEN Pos.eqb]. unfold base32_decode.
  destruct (lower_b32 _ Ha) as (-> & _). rewrite b32_inverse by done. cbn [ok_or rbind].
  rewrite Hr. cbn [negb Z.eqb ONION_RAW_BYTES Pos.eqb]. by apply checked_pubkey_iff.
Qed.

Lemma to_lower_bz b : bz (to_lower b) = if in_range 65 90 (bz b) then bz b + 32 else bz b.
Proof.
  unfold to_lower, in_range. case_match; [|done]. apply bz_zb_small. unfold is_u8, u8_max. lia.
Qed.

Lemma to_upper_bz b : bz (to_upper b) = if in_range 97 122 (bz b) then bz b - 32 else bz b.
Proof.
  unfold to_upper, in_range. case_match; [|done]. apply bz_zb_small. unfold is_u8, u8_max. lia.
Qed.

Lemma to_lower_twice b : to_lower (to_lower b) = to_lower b.
Proof. apply bz_inj. rewrite !to_lower_bz. unfold in_range. repeat case_match; lia. Qed.

Lemma to_lower_upper b : to_lower b = b → to_lower (to_upper b) = b.
Proof.
  intros H. apply (f_equal bz) in H. rewrite to_lower_bz in H. apply bz_inj.
  rewrite to_lower_bz, to_upper_bz. unfold in_range in *. repeat case_match; lia.
Qed.

Lemma trim_end_matches_Forall (P : byte → Prop) fuel suf l :
  Forall P l → Forall P (trim_end_matches fuel suf l).
Proof.
  revert l. induction fuel as [|fuel IH]; intros l H; cbn; [done|].
  unfold strip_suffix. case_decide; [|done]. by apply IH, Forall_take.
Qed.

Lemma host_of_lower h : Forall (λ b, to_lower b = b) (host_of h).
Proof.
  unfold host_of. apply trim_end_matches_Forall, Forall_fmap, Forall_forall. intros b _.
  apply to_lower_twice.
Qed.

(** An accepted host part is the address of the key it decodes to. *)
Lemma pubkey_from_hostname_Ok h pubkey :
  pubkey_from_hostname h = Ok pubkey → len pubkey = 32 ∧ host_of h = hostname_from_pubkey pubkey.
Proof.
  unfold pubkey_from_hostname. destruct (Z.eqb_spec (len (host_of h)) ONION_HOSTNAME_LEN) as [Hl|]; [|done].
  cbn [negb]. intros (raw & Hd & Hr)%rbind_Ok.
  destruct (Z.eqb_spec (len raw) ONION_RAW_BYTES) as [Hn|]; [|done]. cbn [negb] in Hr.
  apply checked_pubkey_iff in Hr as [Hp ->]; [|done]. split; [done|].
  unfold base32_decode in Hd. destruct (BASE32_NOPAD_decode _) eqn:E; [|done]. injection Hd as ->.
  apply b32_canonical in E; [|unfold len in *; by rewrite length_fmap].
  unfold hostname_from_pubkey, base32_lower. rewrite E. pose proof (host_of_lower h) as H.
  clear -H. induction H as [|b l Hb _ IH]; [done|]. cbn. by rewrite <- IH, to_lower_upper.
Qed.

Lemma host_of_suffixed s :
  forallb is_b32 s = true → host_of ((to_lower <$> s) ++ ONION_SUFFIX) = to_lower <$> s.
Proof.
  intros H. destruct (lower_b32 s H) as (_ & Hg & Hd & Hl). unfold host_of.
  rewrite str_trim_graphic by (rewrite forallb_app, Hg; done).
  rewrite fmap_app, Hl. change (to_lower <$> ONION_SUFFIX) with ONION_SUFFIX.
  rewrite length_app. replace (length (to_lower <$> s) + length ONION_SUFFIX)%nat
    with (S (S (length (to_lower <$> s) + 4)))%nat by (cbn; lia).
  cbn [trim_end_matches]. unfold strip_suffix at 1. rewrite decide_True.
  - rewrite length_app, Nat.add_sub, take_app_length. by rewrite strip_suffix_dot.
  - rewrite length_app, Nat.add_sub, drop_app_length. split; [done|lia].
Qed.

(** The onion address codec. The address of a 32-byte key decodes to
    that key with or without [.onion]; every host name that decodes (whatever
    its case, surrounding space or repeated suffix) normalises to the address
    of its key; and the raw form converts to a host name exactly when it is a
    key, its checksum and the version byte. *)
Theorem onion_address_codec pubkey h raw :
  len pubkey = 32 → len raw = 35 →
  pubkey_from_hostname (hostname_from_pubkey pubkey) = Ok pubkey
  ∧ pubkey_from_hostname (hostname_from_pubkey pubkey ++ ONION_SUFFIX) = Ok pubkey
  ∧ raw_from_hostname (hostname_from_pubkey pubkey) = Ok (raw_of_pubkey pubkey)
  ∧ (∀ k, pubkey_from_hostname h = Ok k → normalize_hostname h = Ok (hostname_from_pubkey k ++ ONION_SUFFIX))
  ∧ (∀ host, hostname_from_raw raw = Ok host ↔
       ∃ k, len k = 32 ∧ raw = raw_of_pubkey k ∧ host = hostname_from_pubkey k).
Proof.
  intros Hp Hr. pose proof (hostname_roundtrip pubkey Hp) as Hrt. split_and!; [done| | | |].
  - unfold pubkey_from_hostname in *. unfold hostname_from_pubkey, base32_lower in *.
    rewrite host_of_suffixed by done. by rewrite host_of_b32 in Hrt by done.
  - unfold raw_from_hostname. by rewrite Hrt.
  - intros k [Hk Hh]%pubkey_from_hostname_Ok. unfold normalize_hostname. rewrite Hh.
    by rewrite hostname_roundtrip.
  - intros host. unfold hostname_from_raw. rewrite rbind_Ok. split.
    + intros (k & [Hk ->]%checked_pubkey_iff & [= <-]); [|done]. by exists k.
    + intros (k & Hk & -> & ->). exists k. by rewrite checked_pubkey_iff.
Qed.
End Onion.

(** ** Base32 of 35 bytes, concretely *)

Definition b32_char (d : Z) : byte := zb (if d <? 26 then 65 + d else 24 + d).
Definition b32_val (b : byte) : Z := if bz b >=? 65 then bz b - 65 else bz b - 24.

Fixpoint digits32 (n : nat) (v : Z) : list Z :=
  match n with
  | O => []
  | S n => digits32 n (v / 32) ++ [v mod 32]
  end.

Definition val32 (l : list Z) : Z := foldl (λ acc d, acc * 32 + d) 0 l.

Definition b32_encode35 (bs : bytes) : bytes := b32_char <$> digits32 56 (be_val bs).
Definition b32_decode35 (s : bytes) : option bytes :=
  if forallb is_b32 s && (len s =? 56) then Some (be_bytes 35 (val32 (b32_val <$> s))) else None.

Lemma length_digits32 n v : length (digits32 n v) = n.
Proof. revert v. induction n as [|n IH]; intros v; [done|]. cbn. rewrite length_app, IH. cbn. lia. Qed.

Lemma digits32_range n v : Forall (λ d, 0 ≤ d < 32) (digits32 n v).
Proof.
  revert v. induction n as [|n IH]; intros v; [constructor|]. cbn. apply Forall_app. split; [done|].
  constructor; [|constructor]. apply Z.mod_pos_bound. lia.
Qed.

Lemma val32_digits n v : 0 ≤ v → val32 (digits32 n v) = v mod 32 ^ Z.of_nat n.
Proof.
  revert v. induction n as [|n IH]; intros v Hv; [by rewrite Z.mod_1_r|].
  cbn [digits32]. unfold val32 in *. rewrite foldl_app, IH by (apply Z.div_pos; lia). cbn [foldl].
  replace (Z.of_nat (S n)) with (1 + Z.of_nat n) by lia. rewrite Z.pow_add_r by lia.
  change (32 ^ 1) with 32. rewrite Z.rem_mul_r by lia. lia.
Qed.

Lemma digits32_val l : Forall (λ d, 0 ≤ d < 32) l → digits32 (length l) (val32 l) = l ∧ 0 ≤ val32 l < 32 ^ len l.
Proof.
  induction l as [|d l IH] using rev_ind; [done|]. intros [Hl Hd]%Forall_app.
  apply Forall_cons in Hd as [Hd _]. destruct (IH Hl) as [IH1 IH2].
  rewrite length_app, Nat.add_comm. cbn [length Nat.add digits32].
  unfold val32 in *. rewrite foldl_app. cbn [foldl].
  rewrite Z.div_add_l, Z.div_small, Z.add_0_r, IH1 by lia.
  split; [f_equal; f_equal; rewrite Z.add_comm, Z.mod_add, Z.mod_small; lia|].
  rewrite len_app, Z.pow_add_r by (try apply len_nonneg; done). change (32 ^ len [d]) with 32. lia.
Qed.

Lemma b32_char_val d : 0 ≤ d < 32 → b32_val (b32_char d) = d ∧ is_b32 (b32_char d) = true.
Proof.
  intros Hd. unfold b32_val, b32_char, is_b32, in_range.
  rewrite bz_zb_small by (unfold is_u8, u8_max; case_match; lia).
  destruct (Z.ltb_spec d 26); split; try case_match; lia.
Qed.

Lemma b32_val_char b : is_b32 b = true → b32_char (b32_val b) = b ∧ 0 ≤ b32_val b < 32.
Proof.
  unfold is_b32, in_range. intros H. unfold b32_val.
  split; [|case_match; lia]. apply bz_inj. unfold b32_char.
  rewrite bz_zb_small; [|unfold is_u8, u8_max]; repeat case_match; lia.
Qed.

Lemma b32_35_alphabet bs : forallb is_b32 (b32_encode35 bs) = true.
Proof.
  unfold b32_encode35. induction (digits32_range 56 (be_val bs)) as [|d l Hd _ IH]; [done|].
  cbn [fmap list_fmap forallb]. by rewrite (proj2 (b32_char_val d Hd)), IH.
Qed.

Lemma b32_35_length bs : len (b32_encode35 bs) = 56.
Proof. unfold b32_encode35, len. by rewrite length_fmap, length_digits32. Qed.

Lemma b32_vals_chars l : Forall (λ d, 0 ≤ d < 32) l → b32_val <$> (b32_char <$> l) = l.
Proof. induction 1 as [|d l Hd _ IH]; [done|]. cbn. by rewrite (proj1 (b32_char_val d Hd)), IH. Qed.

Lemma b32_35_inverse bs : len bs = 35 → b32_decode35 (b32_encode35 bs) = Some bs.
Proof.
  intros Hl. unfold b32_decode35. rewrite b32_35_alphabet, b32_35_length. cbn [andb Z.eqb Pos.eqb].
  unfold b32_encode35. rewrite b32_vals_chars by apply digits32_range.
  pose proof (be_val_range bs) as Hv. rewrite Hl in Hv.
  rewrite val32_digits by lia. change (32 ^ Z.of_nat 56) with (256 ^ 35).
  rewrite Z.mod_small by done. f_equal. apply be_bytes_val. unfold len in Hl. lia.
Qed.

Lemma b32_chars_vals s :
  forallb is_b32 s = true → b32_char <$> (b32_val <$> s) = s ∧ Forall (λ d, 0 ≤ d < 32) (b32_val <$> s).
Proof.
  induction s as [|b s IH]; [done|]. cbn [forallb fmap list_fmap]. intros [Hb Hs]%andb_true_iff.
  destruct (b32_val_char b Hb) as [-> ?], (IH Hs) as [-> ?]. split; [done|by constructor].
Qed.

Lemma b32_35_canonical s bs : len s = 56 → b32_decode35 s = Some bs → b32_encode35 bs = s.
Proof.
  intros Hl. unfold b32_decode35. destruct (forallb is_b32 s) eqn:Ha; [|done]. rewrite Hl. cbn [andb Z.eqb Pos.eqb].
  intros [= <-]. destruct (b32_chars_vals s Ha) as [Hc Hr].
  destruct (digits32_val _ Hr) as [Hd Hv]. unfold b32_encode35.
  assert (Hn : length (b32_val <$> s) = 56%nat) by (rewrite length_fmap; unfold len in Hl; lia).
  unfold len in Hv. rewrite Hn in *. rewrite be_val_bytes_small.
  - by rewrite Hd.
  - change (256 ^ Z.of_nat 35) with (32 ^ Z.of_nat 56). done.
Qed.

Lemma onion_address_codec_witness :
  let host := hostname_from_pubkey b32_encode35 (λ _, replicate 32 (zb 7)) (replicate 32 (zb 1)) in
  pubkey_from_hostname b32_decode35 (λ _, replicate 32 (zb 7)) host = Ok (replicate 32 (zb 1))
  ∧ len host = 56.
Proof.
  split; [|by vm_compute].
  apply (onion_address_codec b32_encode35 b32_decode35 (λ _, replicate 32 (zb 7)) b32_35_alphabet
           (λ bs _, b32_35_length bs) b32_35_inverse b32_35_canonical (λ _, eq_refl)
           (replicate 32 (zb 1)) [] (replicate 35 (zb 0))); by vm_compute.
Defined.
