(* ===== verification/Policy.v ===== *)
(** Per-chat rules and capability wants: the pure policy machine of
    [core/src/policy/{mod,machine}.rs] and its persistence on the
    [relationships] row ([core/src/policy/store.rs]). The last sections
    put two machines at the ends of a link and show what they agree on. *)

From S2P Require Import Prelude Bin Payloads WirePolicy.

(** ** State ([mod.rs]) *)

Definition WANT_ALL : Z :=
  Z.lor (Z.lor (Z.lor (Z.lor FLAG_WANT_ATTACH FLAG_WANT_EMOJI) FLAG_WANT_PRESENCE)
    FLAG_WANT_TYPING) FLAG_WANT_RECEIPTS.

Definition SYNC_INTERVAL_SEC : Z := 3600.
Definition SYNC_REPLY_MIN_SEC : Z := 30.

Record PendingProposal := mkPending {
  pp_ttl_sec : Z;
  pp_screenshot : bool;
  pp_attach_download : bool;
  pp_inbound : bool;
  pp_propose_id : bytes;
}.

Record PolicyState := mkPolicyState {
  ps_ttl_sec : Z;
  ps_screenshot : bool;
  ps_attach_download : bool;
  ps_local_want : Z;
  ps_peer_want : Z;
  ps_pending : option PendingProposal;
  ps_last_sync_at : Z;
}.

Definition policy_default : PolicyState :=
  mkPolicyState TTL_24H true true WANT_ALL WANT_ALL None 0.

Definition enforced (s : PolicyState) (bit : Z) : bool :=
  negb (Z.land (Z.land (ps_local_want s) (ps_peer_want s)) bit =? 0).

Definition attachments (s : PolicyState) : bool := enforced s FLAG_WANT_ATTACH.
Definition emoji (s : PolicyState) : bool := enforced s FLAG_WANT_EMOJI.
Definition presence (s : PolicyState) : bool := enforced s FLAG_WANT_PRESENCE.
Definition typing_enforced (s : PolicyState) : bool := enforced s FLAG_WANT_TYPING.
Definition receipts (s : PolicyState) : bool := enforced s FLAG_WANT_RECEIPTS.

Definition expiry_at (s : PolicyState) (floor : Z) : option Z :=
  if ps_ttl_sec s =? TTL_NEVER then None else Some (wrap64 (floor + ps_ttl_sec s)).

(** ** The machine ([machine.rs]) *)

Record ApplyOutcome := mkOutcome {
  changed : bool;
  clamp_expiry_to : option Z;
  erase_attachments : bool;
}.

Definition outcome_default : ApplyOutcome := mkOutcome false None false.

Definition wants (p : ChatPolicy) : Z :=
  let w := 0 in
  let w := if cp_want_attach p then Z.lor w FLAG_WANT_ATTACH else w in
  let w := if cp_want_emoji p then Z.lor w FLAG_WANT_EMOJI else w in
  let w := if cp_want_presence p then Z.lor w FLAG_WANT_PRESENCE else w in
  let w := if cp_want_typing p then Z.lor w FLAG_WANT_TYPING else w in
  let w := if cp_want_receipts p then Z.lor w FLAG_WANT_RECEIPTS else w in
  w.

Definition machine_payload (op : Z) (s : PolicyState) (cap_id : Z) (cap_on : bool)
    (propose_id : bytes) : ChatPolicy :=
  mkChatPolicy op (ps_ttl_sec s) (ps_screenshot s) (ps_attach_download s)
    (has_flag (ps_local_want s) FLAG_WANT_ATTACH) (has_flag (ps_local_want s) FLAG_WANT_EMOJI)
    (has_flag (ps_local_want s) FLAG_WANT_PRESENCE) (has_flag (ps_local_want s) FLAG_WANT_TYPING)
    (has_flag (ps_local_want s) FLAG_WANT_RECEIPTS) cap_id cap_on propose_id.

(** The rule fields of a payload overwritten ([p.ttl_sec = ..] etc.). *)
Definition with_rules (p : ChatPolicy) (ttl_sec : Z) (screenshot attach_download : bool) : ChatPolicy :=
  mkChatPolicy (cp_op p) ttl_sec screenshot attach_download (cp_want_attach p) (cp_want_emoji p)
    (cp_want_presence p) (cp_want_typing p) (cp_want_receipts p) (cp_cap_id p) (cp_cap_on p)
    (cp_propose_id p).

Definition with_pending (s : PolicyState) (o : option PendingProposal) : PolicyState :=
  mkPolicyState (ps_ttl_sec s) (ps_screenshot s) (ps_attach_download s) (ps_local_want s)
    (ps_peer_want s) o (ps_last_sync_at s).

Definition with_wants (s : PolicyState) (local_want peer_want : Z) : PolicyState :=
  mkPolicyState (ps_ttl_sec s) (ps_screenshot s) (ps_attach_download s) local_want peer_want
    (ps_pending s) (ps_last_sync_at s).

Definition apply_rules (s : PolicyState) (ttl_sec : Z) (screenshot attach_download : bool) (now : Z)
    : PolicyState * ApplyOutcome :=
  let prev_ttl := ps_ttl_sec s in
  let s := mkPolicyState ttl_sec screenshot attach_download (ps_local_want s) (ps_peer_want s)
             None (ps_last_sync_at s) in
  let clamp :=
    if negb (ttl_sec =? TTL_NEVER) && ((prev_ttl =? TTL_NEVER) || (ttl_sec <? prev_ttl))
    then Some (wrap64 (now + ttl_sec)) else None in
  (s, mkOutcome true clamp false).

Definition ZERO_ID : bytes := replicate 16 Byte.x00.

Definition apply_propose (s : PolicyState) (parsed : ChatPolicy) (msg_id : bytes) : PolicyState :=
  let propose_id := if bool_decide (cp_propose_id parsed = ZERO_ID) then msg_id
                    else cp_propose_id parsed in
  with_pending s (Some (mkPending (cp_ttl_sec parsed) (cp_screenshot parsed)
                          (cp_attach_download parsed) true propose_id)).

Definition apply_accept (s : PolicyState) (parsed : ChatPolicy) (now : Z)
    : option (PolicyState * ApplyOutcome) :=
  match ps_pending s with
  | None => None
  | Some pending =>
      if pp_inbound pending || negb (bool_decide (pp_propose_id pending = cp_propose_id parsed))
      then None
      else Some (apply_rules s (pp_ttl_sec pending) (pp_screenshot pending)
                   (pp_attach_download pending) now)
  end.

(** [x & !bit] *)
Definition clear_bits (x bit : Z) : Z := Z.ldiff x bit.

Definition apply_cap_set (s : PolicyState) (cap_id : Z) (on : bool) : PolicyState * ApplyOutcome :=
  let bit := cap_bit cap_id in
  if bit =? 0 then (s, outcome_default)
  else
    let before := enforced s bit in
    let next :=
      if on then with_wants s (ps_local_want s) (Z.lor (ps_peer_want s) bit)
      else with_wants s (clear_bits (ps_local_want s) bit) (clear_bits (ps_peer_want s) bit) in
    let after := enforced next bit in
    (next, mkOutcome (negb (Bool.eqb before after) || negb on) None
             (negb on && (bit =? FLAG_WANT_ATTACH) && before)).

Definition apply_sync (s : PolicyState) (parsed : ChatPolicy) : PolicyState * ApplyOutcome :=
  let peer := wants parsed in
  if peer =? ps_peer_want s then (s, outcome_default)
  else
    let before_attach := attachments s in
    let next := with_wants s (ps_local_want s) peer in
    (next, mkOutcome true None (before_attach && negb (attachments next))).

Definition build_propose (s : PolicyState) (ttl_sec : Z) (screenshot attach_download : bool)
    (propose_id : bytes) : option (PolicyState * ChatPolicy) :=
  if negb (is_allowed_ttl ttl_sec) then None
  else
    let s := with_pending s (Some (mkPending ttl_sec screenshot attach_download false propose_id)) in
    let p := machine_payload OP_RULE_PROPOSE s 0 false propose_id in
    Some (s, with_rules p ttl_sec screenshot attach_download).

Definition build_accept (s : PolicyState) (now : Z)
    : option (PolicyState * ChatPolicy * ApplyOutcome) :=
  match ps_pending s with
  | None => None
  | Some pending =>
      if negb (pp_inbound pending) then None
      else
        let '(next, outcome) := apply_rules s (pp_ttl_sec pending) (pp_screenshot pending)
                                  (pp_attach_download pending) now in
        let p := machine_payload OP_RULE_ACCEPT next 0 false (pp_propose_id pending) in
        Some (next, with_rules p (pp_ttl_sec pending) (pp_screenshot pending)
                      (pp_attach_download pending), outcome)
  end.

Definition build_cap_set (s : PolicyState) (cap_id : Z) (on : bool)
    : option (PolicyState * ChatPolicy * ApplyOutcome) :=
  let bit := cap_bit cap_id in
  if bit =? 0 then None
  else
    let have := has_flag (ps_local_want s) bit in
    if Bool.eqb on have then None
    else
      let before := enforced s bit in
      let next :=
        if on then with_wants s (Z.lor (ps_local_want s) bit) (ps_peer_want s)
        else with_wants s (clear_bits (ps_local_want s) bit) (clear_bits (ps_peer_want s) bit) in
      let after := enforced next bit in
      let p := machine_payload OP_CAP_SET next cap_id on ZERO_ID in
      Some (next, p, mkOutcome (negb (Bool.eqb before after) || negb on) None
                       (negb on && (bit =? FLAG_WANT_ATTACH) && before)).

Definition build_sync (s : PolicyState) (now : Z) : PolicyState * ChatPolicy :=
  let s := mkPolicyState (ps_ttl_sec s) (ps_screenshot s) (ps_attach_download s) (ps_local_want s)
             (ps_peer_want s) (ps_pending s) now in
  (s, machine_payload OP_SYNC s 0 false ZERO_ID).

(** [decline_rules] ([policy/engine.rs]) on the loaded state. *)
Definition decline_rules (s : PolicyState) : PolicyState := with_pending s None.

(** ** Persistence ([store.rs]) *)

Definition PENDING_LEN : Z := 4 + 1 + 16.

(** [StoreError] ([core/src/store/mod.rs]); of the SQLite errors only the
    violated constraint can arise here. *)
Inductive StoreError :=
| SqliteConstraint
| SqliteError (detail : Detail)
| TooNew (found : Z)
| Corrupt (detail : Detail).

(** [x as u8] of a [bool] *)
Definition b2z (b : bool) : Z := if b then 1 else 0.

Definition encode_pending (p : PendingProposal) : bytes :=
  be_bytes 4 (pp_ttl_sec p)
  ++ [zb (Z.lor (Z.lor (b2z (pp_screenshot p)) (Z.shiftl (b2z (pp_attach_download p)) 1))
            (Z.shiftl (b2z (pp_inbound p)) 2))]
  ++ pp_propose_id p.

Definition decode_pending (bs : bytes) : result StoreError PendingProposal :=
  if negb (len bs =? PENDING_LEN)
  then Err (Corrupt (Fmt "policy_pending: {} bytes, want {PENDING_LEN}" [len bs; PENDING_LEN]))
  else
    let ttl_sec := be_val (take 4 bs) in
    let flags := be_val (take 1 (drop 4 bs)) in
    let propose_id := drop 5 bs in
    Ok (mkPending ttl_sec (has_flag flags 1) (has_flag flags 2) (has_flag flags 4) propose_id).

(** The five policy columns of a [relationships] row (SQL integers are
    signed 64-bit). *)
Record PolicyRow := mkPolicyRow {
  col_ttl_sec : Z;
  col_flags : Z;
  col_wants : Z;
  col_pending : option bytes;
  col_last_sync_at : Z;
}.

Definition load_row (row : PolicyRow) : result StoreError PolicyState :=
  let* pending :=
    match col_pending row with
    | None => Ok None
    | Some b => let* p := decode_pending b in Ok (Some p)
    end in
  Ok (mkPolicyState (wrap32 (col_ttl_sec row)) (has_flag (col_flags row) 1)
        (has_flag (col_flags row) 2) (Z.land (wrap32 (col_wants row)) 255)
        (Z.land (Z.shiftr (wrap32 (col_wants row)) 8) 255) pending
        (as_u64 (col_last_sync_at row))).

Definition save_row (s : PolicyState) : PolicyRow :=
  let flags := Z.lor (b2z (ps_screenshot s)) (Z.shiftl (b2z (ps_attach_download s)) 1) in
  let wants := Z.lor (Z.shiftl (Z.land (ps_peer_want s) 255) 8) (Z.land (ps_local_want s) 255) in
  mkPolicyRow (ps_ttl_sec s) flags wants (encode_pending <$> ps_pending s)
    (as_i64 (ps_last_sync_at s)).

(** [load_policy]/[save_policy] over the table, keyed by [rel_id]. *)
Definition load_policy (db : gmap string PolicyRow) (rel_id : string)
    : result StoreError PolicyState :=
  match db !! rel_id with
  | None => Err (Corrupt (Lit "policy for unknown rel {rel_id}"))
  | Some row => load_row row
  end.

(** [UPDATE .. WHERE rel_id = ?1] changes an existing row only. *)
Definition save_policy (db : gmap string PolicyRow) (rel_id : string) (s : PolicyState)
    : gmap string PolicyRow :=
  match db !! rel_id with
  | None => db
  | Some _ => <[rel_id := save_row s]> db
  end.

(** ** Bits of the want words *)

(** Only bits this build knows. *)
Definition wants_ok (w : Z) : Prop := Z.land w WANT_ALL = w.

Lemma land_sub w m b : Z.land m b = b → Z.land w b = Z.land (Z.land w m) b.
Proof. intros H. by rewrite <- Z.land_assoc, H. Qed.

(** The five booleans of a payload carry exactly the known bits of the
    want word: reduced to the 128 values of the low seven bits. *)
Lemma wants_machine_payload op s cap on id :
  wants (machine_payload op s cap on id) = Z.land (ps_local_want s) WANT_ALL.
Proof.
  set (g := λ w, wants (mkChatPolicy 0 0 false false (has_flag w FLAG_WANT_ATTACH)
    (has_flag w FLAG_WANT_EMOJI) (has_flag w FLAG_WANT_PRESENCE) (has_flag w FLAG_WANT_TYPING)
    (has_flag w FLAG_WANT_RECEIPTS) 0 false [])).
  change (g (ps_local_want s) = Z.land (ps_local_want s) WANT_ALL).
  assert (Hg : ∀ w, g w = g (Z.land w 127)).
  { intros w. unfold g, has_flag.
    by rewrite (land_sub w 127 FLAG_WANT_ATTACH), (land_sub w 127 FLAG_WANT_EMOJI),
      (land_sub w 127 FLAG_WANT_PRESENCE), (land_sub w 127 FLAG_WANT_TYPING),
      (land_sub w 127 FLAG_WANT_RECEIPTS). }
  rewrite Hg, (land_sub _ 127 WANT_ALL) by done.
  assert (Hall : forallb (λ n, let w := Z.of_nat n in g w =? Z.land w WANT_ALL) (seq 0 128) = true)
    by (vm_compute; reflexivity).
  rewrite forallb_forall in Hall.
  set (w := Z.land (ps_local_want s) 127).
  assert (0 ≤ w < 128) as Hw.
  { unfold w. change 127 with (Z.ones 7). rewrite Z.land_ones by lia. apply Z.mod_pos_bound. lia. }
  specialize (Hall (Z.to_nat w)). cbv zeta in Hall. rewrite Z2Nat.id in Hall by lia.
  apply Z.eqb_eq, Hall, in_seq. lia.
Qed.

Lemma wants_ok_wants p : wants_ok (wants p).
Proof.
  destruct p as [? ? ? ? [] [] [] [] [] ? ? ?]; reflexivity.
Qed.

Lemma cap_bit_ok cap_id : wants_ok (cap_bit cap_id).
Proof. unfold cap_bit. repeat case_match; reflexivity. Qed.

Lemma wants_ok_lor w bit : wants_ok w → wants_ok bit → wants_ok (Z.lor w bit).
Proof. unfold wants_ok. intros H1 H2. by rewrite Z.land_lor_distr_l, H1, H2. Qed.

Lemma wants_ok_clear w bit : wants_ok w → wants_ok (clear_bits w bit).
Proof.
  unfold wants_ok, clear_bits. intros H. apply Z.bits_inj'. intros n Hn.
  rewrite Z.land_spec, Z.ldiff_spec. rewrite <- H at 2. rewrite Z.land_spec.
  destruct (Z.testbit w n), (Z.testbit WANT_ALL n), (Z.testbit bit n); done.
Qed.

Lemma wants_ok_byte w : wants_ok w → Z.land w 255 = w ∧ 0 ≤ w < 128.
Proof.
  unfold wants_ok. intros H. split.
  - rewrite <- H at 2. rewrite <- H at 1. by rewrite <- Z.land_assoc.
  - rewrite <- H. change WANT_ALL with (Z.land 124 127). rewrite Z.land_assoc.
    change 127 with (Z.ones 7). rewrite Z.land_ones by lia. apply Z.mod_pos_bound. lia.
Qed.

(** ** The state invariant *)

Definition pending_wf (p : PendingProposal) : Prop :=
  is_allowed_ttl (pp_ttl_sec p) = true ∧ len (pp_propose_id p) = 16.

Definition policy_state_wf (s : PolicyState) : Prop :=
  is_allowed_ttl (ps_ttl_sec s) = true ∧ wants_ok (ps_local_want s) ∧ wants_ok (ps_peer_want s)
  ∧ from_option pending_wf True (ps_pending s) ∧ is_u64 (ps_last_sync_at s).

Lemma is_allowed_ttl_range t : is_allowed_ttl t = true → 0 ≤ t ≤ TTL_14D.
Proof.
  unfold is_allowed_ttl. intros (x & Hx & ->%Z.eqb_eq)%existsb_exists. cbv in Hx. unfold TTL_14D. lia.
Qed.

(** One step of the machine: an inbound op the codec accepted, or an
    operation of the local user. *)
Inductive policy_step : PolicyState → PolicyState → Prop :=
| step_propose s p msg_id :
    policy_validate p = Ok tt → cp_op p = OP_RULE_PROPOSE → len (cp_propose_id p) = 16 →
    len msg_id = 16 → policy_step s (apply_propose s p msg_id)
| step_accept s p now s' o :
    apply_accept s p now = Some (s', o) → policy_step s s'
| step_cap_set s cap_id on : policy_step s (apply_cap_set s cap_id on).1
| step_sync s p : policy_step s (apply_sync s p).1
| step_build_propose s ttl ss ad id s' p :
    len id = 16 → build_propose s ttl ss ad id = Some (s', p) → policy_step s s'
| step_build_accept s now s' p o : build_accept s now = Some (s', p, o) → policy_step s s'
| step_build_cap_set s cap_id on s' p o :
    build_cap_set s cap_id on = Some (s', p, o) → policy_step s s'
| step_build_sync s now : is_u64 now → policy_step s (build_sync s now).1
| step_decline s : policy_step s (decline_rules s).

Definition policy_reachable : PolicyState → Prop := rtc policy_step policy_default.

Lemma apply_accept_Some s p now s' o :
  apply_accept s p now = Some (s', o) ↔
  ∃ pd, ps_pending s = Some pd ∧ pp_inbound pd = false ∧ pp_propose_id pd = cp_propose_id p
    ∧ (s', o) = apply_rules s (pp_ttl_sec pd) (pp_screenshot pd) (pp_attach_download pd) now.
Proof.
  unfold apply_accept. destruct (ps_pending s) as [pd|]; [|by split; [|intros (? & ? & _)]].
  destruct (pp_inbound pd) eqn:E; cbn [orb].
  - split; [done|]. intros (pd' & [= <-] & ? & _). congruence.
  - case_bool_decide; cbn [negb]; split; [intros [= <- <-]; eauto 10| |done|].
    + by intros (pd' & [= <-] & _ & _ & ->).
    + intros (pd' & [= <-] & _ & ? & _). congruence.
Qed.

Lemma build_accept_Some s now s' p o :
  build_accept s now = Some (s', p, o) →
  ∃ pd, ps_pending s = Some pd ∧ pp_inbound pd = true
    ∧ (s', o) = apply_rules s (pp_ttl_sec pd) (pp_screenshot pd) (pp_attach_download pd) now
    ∧ cp_propose_id p = pp_propose_id pd ∧ cp_op p = OP_RULE_ACCEPT.
Proof.
  unfold build_accept. destruct (ps_pending s) as [pd|]; [|done].
  destruct (pp_inbound pd) eqn:E; cbn [negb]; [|done]. intros [= <- <- <-]. eauto 10.
Qed.

Lemma policy_step_wf s s' : policy_step s s' → policy_state_wf s → policy_state_wf s'.
Proof.
  intros Hstep (Ht & Hl & Hp & Hpd & Hsy). destruct Hstep as
    [s p mid Hv Hop Hid Hmid|s p now s' o H|s cap on|s p|s ttl ss ad id s' p Hid H|s now s' p o H
    |s cap on s' p o H|s now Hn|s].
  - unfold policy_state_wf, apply_propose. split_and!; try done. cbn [ps_pending with_pending from_option].
    split; cbn [pp_ttl_sec pp_propose_id]; [|by case_bool_decide]. unfold policy_validate in Hv. rewrite Hop in Hv.
    destruct (is_allowed_ttl (cp_ttl_sec p)); [done|]. vm_compute in Hv. discriminate Hv.
  - apply apply_accept_Some in H as (pd & E & _ & _ & [= -> _]). rewrite E in Hpd.
    destruct Hpd. by split_and!.
  - unfold apply_cap_set. destruct (_ =? 0); [by split_and!|].
    destruct on; split_and!; cbn; auto using wants_ok_lor, wants_ok_clear, cap_bit_ok.
  - unfold apply_sync. destruct (_ =? _); split_and!; cbn; auto using wants_ok_wants.
  - unfold build_propose in H. destruct (is_allowed_ttl ttl) eqn:E; [|done].
    injection H as <- <-. by split_and!.
  - apply build_accept_Some in H as (pd & E & _ & [= -> _] & _). rewrite E in Hpd.
    destruct Hpd. by split_and!.
  - unfold build_cap_set in H. destruct (_ =? 0); [done|]. destruct (Bool.eqb _ _); [done|].
    injection H as <- <- <-.
    destruct on; split_and!; cbn; auto using wants_ok_lor, wants_ok_clear, cap_bit_ok.
  - by split_and!.
  - by split_and!.
Qed.

Lemma policy_default_wf : policy_state_wf policy_default.
Proof. split_and!; cbn; try done. Qed.

Lemma policy_reachable_wf s : policy_reachable s → policy_state_wf s.
Proof.
  unfold policy_reachable. intros H. assert (policy_state_wf policy_default → policy_state_wf s) as Hs;
    [|apply Hs, policy_default_wf].
  induction H as [|x y z Hxy _ IH]; [done|]. intros Hx. apply IH. by eapply policy_step_wf.
Qed.

(** ** Persistence round trip *)

Lemma pending_roundtrip p : pending_wf p → decode_pending (encode_pending p) = Ok p.
Proof.
  destruct p as [t ss ad ib id]. intros [Ht Hid]. cbn [pp_ttl_sec pp_propose_id] in *.
  apply is_allowed_ttl_range in Ht. unfold TTL_14D in Ht. unfold decode_pending, encode_pending.
  cbn [pp_ttl_sec pp_propose_id pp_screenshot pp_attach_download pp_inbound].
  rewrite !len_app, len_be4, len_cons, len_nil, Hid. cbn [negb Z.eqb].
  rewrite (take_app_length' (be_bytes 4 t)), (drop_app_length' (be_bytes 4 t))
    by (by rewrite length_be_bytes).
  rewrite be_val_bytes_small by lia.
  replace (drop 5 _) with id by (rewrite app_assoc; symmetry; apply drop_app_length';
    by rewrite length_app, length_be_bytes).
  by destruct ss, ad, ib.
Qed.

Lemma as_u64_i64 v : is_u64 v → as_u64 (as_i64 v) = v.
Proof.
  unfold is_u64, u64_max, as_u64, as_i64. intros Hv. case_decide; [by rewrite Z.mod_small by lia|].
  rewrite <- (Z.mod_small v (2 ^ 64)) at 2 by lia. rewrite <- (Z_mod_plus_full v (-1)). f_equal; lia.
Qed.

Lemma wants_pack l p :
  0 ≤ l < 128 → 0 ≤ p < 128 →
  let w := wrap32 (Z.lor (Z.shiftl p 8) l) in Z.land w 255 = l ∧ Z.land (Z.shiftr w 8) 255 = p.
Proof.
  intros Hl Hp w. assert (Hw : w = p * 256 + l).
  { unfold w, wrap32. rewrite Z.shiftl_mul_pow2 by lia. change (2 ^ 8) with 256.
    assert (Hz : Z.land (p * 256) l = 0); [|pose proof (Z.add_lor_land (p * 256) l);
      rewrite Z.mod_small; lia].
    apply Z.bits_inj'. intros n Hn. rewrite Z.land_spec, Z.bits_0.
    destruct (Z.lt_ge_cases n 8).
    - change 256 with (2 ^ 8). by rewrite Z.mul_pow2_bits_low.
    - rewrite (Z.bits_above_log2 l n), andb_false_r; [done|lia|].
      destruct (Z.eq_dec l 0) as [->|]; [cbn; lia|]. apply Z.log2_lt_pow2; [lia|].
      eapply Z.lt_le_trans; [|apply (Z.pow_le_mono_r 2 8 n); lia]. lia. }
  rewrite Hw. change 255 with (Z.ones 8). rewrite !Z.land_ones by lia.
  rewrite Z.shiftr_div_pow2 by lia. change (2 ^ 8) with 256. split.
  - rewrite Z.add_comm, Z.mod_add by lia. apply Z.mod_small. lia.
  - rewrite Z.div_add_l, (Z.div_small l) by lia. rewrite Z.add_0_r. apply Z.mod_small. lia.
Qed.

Lemma load_save_row s : policy_state_wf s → load_row (save_row s) = Ok s.
Proof.
  destruct s as [t ss ad l p pd sy]. intros (Ht & Hl & Hp & Hpd & Hsy).
  cbn [ps_ttl_sec ps_screenshot ps_attach_download ps_local_want ps_peer_want ps_pending
    ps_last_sync_at] in *.
  destruct (wants_ok_byte _ Hl) as [Hl255 Hlr], (wants_ok_byte _ Hp) as [Hp255 Hpr].
  apply is_allowed_ttl_range in Ht. unfold TTL_14D in Ht.
  unfold load_row, save_row. cbn [ps_ttl_sec ps_screenshot ps_attach_download ps_local_want
    ps_peer_want ps_pending ps_last_sync_at col_ttl_sec col_flags col_wants col_pending
    col_last_sync_at]. rewrite Hl255, Hp255.
  destruct (wants_pack l p Hlr Hpr) as [-> ->]. rewrite as_u64_i64 by done.
  unfold wrap32. rewrite (Z.mod_small t) by lia.
  destruct pd as [pd|]; cbn [fmap option_fmap option_map from_option] in *;
    [rewrite pending_roundtrip by done|]; cbn [rbind]; by destruct ss, ad.
Qed.

Lemma load_save_policy db rel_id s :
  policy_state_wf s → is_Some (db !! rel_id) →
  load_policy (save_policy db rel_id s) rel_id = Ok s
  ∧ ∀ other, other ≠ rel_id → load_policy (save_policy db rel_id s) other = load_policy db other.
Proof.
  intros Hs [row Hrow]. unfold load_policy, save_policy. rewrite Hrow. split.
  - rewrite lookup_insert_eq. by apply load_save_row.
  - intros other Ho. by rewrite lookup_insert_ne.
Qed.

(** ** Two parties *)

Definition rules (s : PolicyState) : Z * bool * bool :=
  (ps_ttl_sec s, ps_screenshot s, ps_attach_download s).

Definition proposed (p : PendingProposal) : Z * bool * bool :=
  (pp_ttl_sec p, pp_screenshot p, pp_attach_download p).

(** Each side's view of the other's wants is right. *)
Definition wants_mirror (a b : PolicyState) : Prop :=
  ps_local_want a = ps_peer_want b ∧ ps_local_want b = ps_peer_want a.

(** A payload crossing the wire: encoded, then decoded by the peer. *)
Definition over_wire (p : ChatPolicy) : option ChatPolicy :=
  match policy_encode p with
  | Err _ => None
  | Ok bs => ok (policy_decode bs)
  end.

Lemma over_wire_valid p : policy_wf p → policy_validate p = Ok tt → over_wire p = Some p.
Proof.
  intros Hw Hv. unfold over_wire. unfold policy_encode at 1. rewrite Hv. cbn [rbind].
  match goal with |- ok (policy_decode ?bs) = _ =>
    assert (He : encode_payload p = Ok bs) by (cbn; unfold policy_encode; by rewrite Hv) end.
  apply (@wire_roundtrip _ _ policy_laws p _ Hw) in He. cbn [decode_payload policy_payload] in He.
  by rewrite He.
Qed.

Lemma rule_payload_wf op s ttl ss ad id :
  (op = OP_RULE_PROPOSE ∨ op = OP_RULE_ACCEPT) → is_allowed_ttl ttl = true → len id = 16 →
  over_wire (with_rules (machine_payload op s 0 false id) ttl ss ad)
  = Some (with_rules (machine_payload op s 0 false id) ttl ss ad).
Proof.
  intros Hop Ht Hid. apply over_wire_valid.
  - apply is_allowed_ttl_range in Ht. unfold TTL_14D in Ht. unfold policy_wf.
    cbn [cp_op cp_ttl_sec cp_cap_id cp_propose_id with_rules machine_payload].
    split_and!; [by destruct Hop as [-> | ->]|unfold is_u32, u32_max; lia|done|done].
  - unfold policy_validate.
    cbn [cp_op cp_ttl_sec cp_cap_id cp_propose_id with_rules machine_payload]. rewrite Ht.
    by destruct Hop as [-> | ->].
Qed.

(** C13: Rule negotiation across the wire: a proposal the proposer builds
    reaches the peer, the peer's accept reaches the proposer, and both end
    with exactly the proposed rules and nothing pending. *)
Theorem negotiation a b ttl ss ad id mid now_a now_b a1 p :
  len id = 16 → id ≠ ZERO_ID → build_propose a ttl ss ad id = Some (a1, p) →
  ∃ p' b2 acc ob acc' a2 oa,
    over_wire p = Some p' ∧ build_accept (apply_propose b p' mid) now_b = Some (b2, acc, ob)
    ∧ over_wire acc = Some acc' ∧ apply_accept a1 acc' now_a = Some (a2, oa)
    ∧ rules a2 = (ttl, ss, ad) ∧ rules b2 = (ttl, ss, ad)
    ∧ ps_pending a2 = None ∧ ps_pending b2 = None.
Proof.
  intros Hid Hnz H. unfold build_propose in H. destruct (is_allowed_ttl ttl) eqn:Ht; [|done].
  injection H as <- <-. eexists. do 6 eexists.
  split; [by apply rule_payload_wf; [left|..]|].
  unfold apply_propose, build_accept.
  cbn [cp_propose_id with_rules machine_payload]. rewrite bool_decide_eq_false_2 by done.
  cbn [with_pending ps_pending pp_inbound negb].
  cbn [apply_rules pp_ttl_sec pp_screenshot pp_attach_download cp_ttl_sec cp_screenshot
    cp_attach_download with_rules pp_propose_id].
  split; [reflexivity|]. split; [by apply rule_payload_wf; [right|..]|].
  split.
  { unfold apply_accept. cbn [ps_pending with_pending pp_inbound orb pp_propose_id cp_propose_id
      with_rules machine_payload]. rewrite bool_decide_eq_true_2 by done. reflexivity. }
  done.
Qed.

(** Two proposals that cross on the wire, both accepted: each side ends
    with the other's rules, and both accepts are dropped as stale, so the
    two sides disagree. *)
Theorem crossed_proposals a b ra rb ida idb mida midb now_a now_b a1 pa b1 pb :
  len ida = 16 → len idb = 16 → ida ≠ ZERO_ID → idb ≠ ZERO_ID →
  build_propose a ra.1.1 ra.1.2 ra.2 ida = Some (a1, pa) →
  build_propose b rb.1.1 rb.1.2 rb.2 idb = Some (b1, pb) →
  ∃ a2 acca oa b2 accb ob,
    build_accept (apply_propose a1 pb mida) now_a = Some (a2, acca, oa)
    ∧ build_accept (apply_propose b1 pa midb) now_b = Some (b2, accb, ob)
    ∧ apply_accept a2 accb now_a = None ∧ apply_accept b2 acca now_b = None
    ∧ rules a2 = rb ∧ rules b2 = ra.
Proof.
  destruct ra as [[ta sa] da], rb as [[tb sb] db]. cbn [fst snd]. intros _ _ Hza Hzb Ha Hb.
  unfold build_propose in Ha, Hb. destruct (is_allowed_ttl ta); [|done].
  destruct (is_allowed_ttl tb); [|done]. injection Ha as <- <-. injection Hb as <- <-.
  do 6 eexists. unfold apply_propose, build_accept. cbn [cp_propose_id with_rules machine_payload].
  rewrite !bool_decide_eq_false_2 by done. split; [reflexivity|]. by split; [reflexivity|].
Qed.

(** The agreed rules never move without a pending proposal: whatever
    step changes them applies exactly that proposal and clears it. *)
Theorem rules_change s s' :
  policy_step s s' → rules s' ≠ rules s →
  ∃ pd, ps_pending s = Some pd ∧ rules s' = proposed pd ∧ ps_pending s' = None.
Proof.
  intros [s0 p mid _ _ _ _|s0 p now s1 o H|s0 cap on|s0 p|s0 ttl ss ad id s1 p _ H|s0 now s1 p o H
    |s0 cap on s1 p o H|s0 now _|s0] Hr; try done.
  - apply apply_accept_Some in H as (pd & E & _ & _ & [= -> _]). eauto.
  - unfold apply_cap_set in Hr. by destruct (_ =? 0), on.
  - unfold apply_sync in Hr. by destruct (_ =? _).
  - unfold build_propose in H. destruct (negb _); [done|]. by injection H as <- <-.
  - apply build_accept_Some in H as (pd & E & _ & [= -> _] & _). eauto.
  - unfold build_cap_set in H. destruct (_ =? 0); [done|]. destruct (Bool.eqb _ _); [done|].
    injection H as <- <- <-. by destruct on.
Qed.

Lemma has_flag_clear x y bit :
  has_flag (Z.land (clear_bits x bit) (clear_bits y bit)) bit = false.
Proof.
  unfold has_flag, clear_bits. apply negb_false_iff, Z.eqb_eq. apply Z.bits_inj'. intros n Hn.
  rewrite !Z.land_spec, !Z.ldiff_spec, Z.bits_0.
  destruct (Z.testbit x n), (Z.testbit y n), (Z.testbit bit n); done.
Qed.

Lemma mirror_enforced a b bit : wants_mirror a b → enforced a bit = enforced b bit.
Proof. intros [Hl Hp]. unfold enforced. rewrite Hl, <- Hp. by rewrite (Z.land_comm (ps_peer_want b)). Qed.

Lemma cap_set_mirror a b cap_id on a' p o :
  wants_mirror a b → build_cap_set a cap_id on = Some (a', p, o) →
  let b' := (apply_cap_set b (cp_cap_id p) (cp_cap_on p)).1 in
  wants_mirror a' b' ∧ (on = false → enforced a' (cap_bit cap_id) = false
    ∧ enforced b' (cap_bit cap_id) = false).
Proof.
  intros [Hl Hp] H. unfold build_cap_set in H. destruct (cap_bit cap_id =? 0) eqn:E0; [done|].
  destruct (Bool.eqb _ _); [done|]. injection H as <- <- <-. cbv zeta.
  cbn [cp_cap_id cp_cap_on machine_payload]. unfold apply_cap_set. rewrite E0.
  destruct on; cbn [fst]; (split; [split; cbn; congruence|]); [done|]. intros _.
  split; apply has_flag_clear.
Qed.

Lemma sync_delivered a b now :
  wants_ok (ps_local_want a) →
  let b' := (apply_sync b (build_sync a now).2).1 in
  ps_peer_want b' = ps_local_want a ∧ ps_local_want b' = ps_local_want b ∧ rules b' = rules b.
Proof.
  intros Ha. unfold apply_sync, build_sync. cbv zeta. cbn [snd]. rewrite wants_machine_payload.
  cbn [ps_local_want]. rewrite Ha. destruct (Z.eqb_spec (ps_local_want a) (ps_peer_want b)); done.
Qed.

Lemma outcome_sound_rules s ttl ss ad now :
  let '(s', o) := apply_rules s ttl ss ad now in
  clamp_expiry_to o = if decide (ttl ≠ TTL_NEVER ∧ (ps_ttl_sec s = TTL_NEVER ∨ ttl < ps_ttl_sec s))
                      then expiry_at s' now else None.
Proof.
  unfold apply_rules, expiry_at. cbn [clamp_expiry_to ps_ttl_sec].
  destruct (Z.eqb_spec ttl TTL_NEVER), (Z.eqb_spec (ps_ttl_sec s) TTL_NEVER),
    (Z.ltb_spec ttl (ps_ttl_sec s)); cbn [negb andb orb]; case_decide; try done; naive_solver lia.
Qed.

(** ** Main results *)

(** Capability wants stay mirrored: from a mirrored pair, a local change
    delivered to the peer keeps both views right, so both sides enforce the
    same capabilities, and one side turning a capability off turns it off
    for both. *)
Theorem capability_mirror a b cap_id on a' p o :
  wants_mirror a b → build_cap_set a cap_id on = Some (a', p, o) →
  let b' := (apply_cap_set b (cp_cap_id p) (cp_cap_on p)).1 in
  wants_mirror a' b' ∧ (∀ bit, enforced a' bit = enforced b' bit)
  ∧ (on = false → enforced a' (cap_bit cap_id) = false ∧ enforced b' (cap_bit cap_id) = false).
Proof.
  intros Hm Hb. destruct (cap_set_mirror a b cap_id on a' p o Hm Hb) as [H1 H2].
  split_and!; [done| |done]. intros bit. by apply mirror_enforced.
Qed.

Definition demo_id1 : bytes := replicate 16 (zb 1).
Definition demo_id2 : bytes := replicate 16 (zb 2).

Definition demo_proposal : PolicyState * ChatPolicy :=
  default (policy_default, machine_payload OP_SYNC policy_default 0 false ZERO_ID)
    (build_propose policy_default TTL_1H false true demo_id1).
Definition demo_proposal2 : PolicyState * ChatPolicy :=
  default (policy_default, machine_payload OP_SYNC policy_default 0 false ZERO_ID)
    (build_propose policy_default TTL_7D true true demo_id2).

Lemma negotiation_witness :
  ∃ p' b2 acc ob acc' a2 oa,
    over_wire demo_proposal.2 = Some p'
    ∧ build_accept (apply_propose policy_default p' demo_id2) 60 = Some (b2, acc, ob)
    ∧ over_wire acc = Some acc' ∧ apply_accept demo_proposal.1 acc' 50 = Some (a2, oa)
    ∧ rules a2 = (TTL_1H, false, true) ∧ rules b2 = (TTL_1H, false, true)
    ∧ ps_pending a2 = None ∧ ps_pending b2 = None.
Proof.
  apply (negotiation policy_default policy_default TTL_1H false true demo_id1); by vm_compute.
Defined.

Lemma crossed_proposals_witness :
  ∃ a2 acca oa b2 accb ob,
    build_accept (apply_propose demo_proposal.1 demo_proposal2.2 demo_id2) 50 = Some (a2, acca, oa)
    ∧ build_accept (apply_propose demo_proposal2.1 demo_proposal.2 demo_id1) 60 = Some (b2, accb, ob)
    ∧ apply_accept a2 accb 50 = None ∧ apply_accept b2 acca 60 = None
    ∧ rules a2 = (TTL_7D, true, true) ∧ rules b2 = (TTL_1H, false, true).
Proof.
  apply (crossed_proposals policy_default policy_default (TTL_1H, false, true) (TTL_7D, true, true)
           demo_id1 demo_id2); by vm_compute.
Defined.

(** The state of a proposer whose proposal was accepted. *)
Definition demo_accepted : PolicyState :=
  from_option fst policy_default
    (apply_accept demo_proposal.1 (machine_payload OP_RULE_ACCEPT policy_default 0 false demo_id1) 50).

Lemma rules_change_witness :
  ∃ pd, ps_pending demo_proposal.1 = Some pd ∧ rules demo_accepted = proposed pd
    ∧ ps_pending demo_accepted = None.
Proof.
  apply rules_change; [|by vm_compute].
  by eapply (step_accept _ (machine_payload OP_RULE_ACCEPT policy_default 0 false demo_id1) 50).
Defined.

Definition demo_cap_off : PolicyState * ChatPolicy * ApplyOutcome :=
  default (policy_default, machine_payload OP_SYNC policy_default 0 false ZERO_ID, outcome_default)
    (build_cap_set policy_default CAP_ID_TYPING false).

Lemma capability_mirror_witness :
  let b' := (apply_cap_set policy_default (cp_cap_id demo_cap_off.1.2) (cp_cap_on demo_cap_off.1.2)).1 in
  wants_mirror demo_cap_off.1.1 b' ∧ (∀ bit, enforced demo_cap_off.1.1 bit = enforced b' bit)
  ∧ (false = false → enforced demo_cap_off.1.1 (cap_bit CAP_ID_TYPING) = false
       ∧ enforced b' (cap_bit CAP_ID_TYPING) = false).
Proof. by apply (capability_mirror policy_default policy_default CAP_ID_TYPING false _ _ demo_cap_off.2). Defined.
