(* ===== verification/RateLimit.v ===== *)
(** Temporal limits: the token buckets, the per-surface drop counters and
    the engine's bucket tables of [core/src/ratelimit.rs]. *)

From S2P Require Import Prelude Limits.

Inductive Surface : Set :=
| InboundFrame | SurfResyncReq | Ephemeral | Intro | ControlCmd | StickerFetch | StickerServe.

#[export] Instance surface_eq_dec : EqDecision Surface.
Proof. solve_decision. Defined.

Definition surface_nat (s : Surface) : nat :=
  match s with
  | InboundFrame => 0 | SurfResyncReq => 1 | Ephemeral => 2 | Intro => 3 | ControlCmd => 4
  | StickerFetch => 5 | StickerServe => 6
  end.

Definition surface_of_nat (n : nat) : option Surface :=
  [InboundFrame; SurfResyncReq; Ephemeral; Intro; ControlCmd; StickerFetch; StickerServe] !! n.

#[export] Instance surface_countable : Countable Surface.
Proof. by refine (inj_countable surface_nat surface_of_nat _); intros []. Defined.

(** [(burst capacity, refill per second)]; [None] is the [unreachable!]. *)
Definition bucket_params (s : Surface) : option (Z * Z) :=
  match s with
  | InboundFrame => Some (INBOUND_FRAME_BURST, INBOUND_FRAME_PER_SEC)
  | SurfResyncReq => Some (RESYNC_REQ_BURST, RESYNC_REQ_PER_SEC)
  | Ephemeral => Some (EPHEMERAL_BURST, EPHEMERAL_PER_SEC)
  | ControlCmd => Some (CONTROL_CMD_BURST, CONTROL_CMD_PER_SEC)
  | StickerFetch => Some (STICKER_FETCH_BURST, STICKER_FETCH_PER_SEC)
  | StickerServe => Some (STICKER_SERVE_BURST, STICKER_SERVE_PER_SEC)
  | Intro => None
  end.

(** ** Drop counters (process-wide atomics) *)

Abbreviation Counters := (gmap Surface Z).

Definition limited (c : Counters) (s : Surface) : Z := default 0 (c !! s).

Definition note_limited (c : Counters) (s : Surface) : Counters :=
  <[s := wrap64 (limited c s + 1)]> c.

Definition rate_limited (c : Counters) : Z :=
  limited c InboundFrame + limited c SurfResyncReq + limited c Ephemeral + limited c Intro
  + limited c ControlCmd + limited c StickerFetch + limited c StickerServe.

(** ** [TokenBucket] *)

Record TokenBucket := mkBucket {
  tb_capacity : Z;
  tb_tokens : Z;
  tb_refill_per_sec : Z;
  tb_last_refill : Z;
}.

Definition bucket_new (capacity refill_per_sec now : Z) : TokenBucket :=
  mkBucket capacity capacity refill_per_sec now.

(** The lazy refill at the head of [check]. *)
Definition bucket_refill (b : TokenBucket) (now : Z) : TokenBucket :=
  let elapsed := sat_sub now (tb_last_refill b) in
  if elapsed >? 0 then
    let add := sat_mul64 elapsed (tb_refill_per_sec b) in
    let tokens := Z.min (sat_add32 (tb_tokens b) (wrap32 (Z.min add (tb_capacity b))))
                    (tb_capacity b) in
    mkBucket (tb_capacity b) tokens (tb_refill_per_sec b) now
  else b.

Definition bucket_check (b : TokenBucket) (now : Z) : TokenBucket * bool :=
  let b := bucket_refill b now in
  if tb_tokens b >? 0
  then (mkBucket (tb_capacity b) (tb_tokens b - 1) (tb_refill_per_sec b) (tb_last_refill b), true)
  else (b, false).

(** ** [RateTables] *)

Abbreviation RateTables := (gmap (Surface * string) TokenBucket).

(** [None]: the surface has no bucket ([unreachable!]). *)
Definition tables_check (t : RateTables) (c : Counters) (s : Surface) (key : string) (now : Z)
    : option (RateTables * Counters * bool) :=
  match bucket_params s with
  | None => None
  | Some (capacity, refill) =>
      let bucket := default (bucket_new capacity refill now) (t !! (s, key)) in
      let '(bucket, pass) := bucket_check bucket now in
      let t := <[(s, key) := bucket]> t in
      if pass then Some (t, c, true) else Some (t, note_limited c s, false)
  end.

(** ** The bucket invariant and the rate bound *)

Definition bucket_wf (b : TokenBucket) : Prop :=
  is_u32 (tb_capacity b) ∧ 0 ≤ tb_tokens b ≤ tb_capacity b ∧ is_u32 (tb_refill_per_sec b)
  ∧ 0 ≤ tb_last_refill b.

Lemma bucket_new_wf capacity refill now :
  is_u32 capacity → is_u32 refill → 0 ≤ now → bucket_wf (bucket_new capacity refill now).
Proof. unfold bucket_wf, bucket_new, is_u32. cbn. lia. Qed.

Lemma bucket_refill_spec b now :
  bucket_wf b → is_u64 now →
  bucket_refill b now =
    mkBucket (tb_capacity b)
      (Z.min (tb_capacity b)
         (tb_tokens b + Z.max 0 (now - tb_last_refill b) * tb_refill_per_sec b))
      (tb_refill_per_sec b) (Z.max now (tb_last_refill b)).
Proof.
  intros (Hc & Ht & Hr & Hl) Hn. destruct b as [c t r l]. cbn in *.
  unfold bucket_refill, sat_sub. cbn. unfold is_u32, u32_max, is_u64, u64_max in *.
  destruct (Z.gtb_spec (Z.max (now - l) 0) 0).
  - rewrite (Z.max_l (now - l) 0), (Z.max_r 0 (now - l)) by lia. f_equal; [|lia].
    unfold sat_add32, sat_mul64, wrap32, u32_max, u64_max.
    set (add := (now - l) * r). assert (0 ≤ add) by (unfold add; nia).
    rewrite Z.mod_small by lia. lia.
  - rewrite (Z.max_l 0) by lia. f_equal; lia.
Qed.

Lemma bucket_check_wf b now : bucket_wf b → is_u64 now → bucket_wf (bucket_check b now).1.
Proof.
  intros Hw Hn. unfold bucket_check. rewrite bucket_refill_spec by done. cbv zeta.
  destruct Hw as (Hc & Ht & Hr & Hl). unfold is_u32, is_u64 in *.
  match goal with |- context [mkBucket _ ?t _ _] => set (tk := t) end.
  assert (0 ≤ tk ≤ tb_capacity b) by (unfold tk; nia).
  cbn [tb_tokens tb_capacity tb_refill_per_sec tb_last_refill].
  destruct (Z.gtb_spec tk 0); unfold bucket_wf, is_u32; cbn; lia.
Qed.

(** A run of checks at caller-supplied times (in any order), counting the
    passes. *)
Fixpoint bucket_run (b : TokenBucket) (times : list Z) : TokenBucket * Z :=
  match times with
  | [] => (b, 0)
  | now :: rest =>
      let '(b, pass) := bucket_check b now in
      let '(b, n) := bucket_run b rest in
      (b, (if pass then 1 else 0) + n)
  end.

(** Potential argument: a pass spends a token, and tokens only come from
    time the clock has advanced past its previous maximum. *)
Lemma bucket_check_potential b now :
  bucket_wf b → is_u64 now →
  let '(b', pass) := bucket_check b now in
  tb_tokens b' + (if pass then 1 else 0)
    ≤ tb_tokens b + tb_refill_per_sec b * (tb_last_refill b' - tb_last_refill b)
  ∧ tb_last_refill b' = Z.max now (tb_last_refill b)
  ∧ tb_refill_per_sec b' = tb_refill_per_sec b ∧ tb_capacity b' = tb_capacity b.
Proof.
  intros Hw Hn. unfold bucket_check. rewrite bucket_refill_spec by done.
  destruct Hw as (Hc & Ht & Hr & Hl). unfold is_u32 in *. cbv zeta.
  cbn [tb_tokens tb_capacity tb_refill_per_sec tb_last_refill].
  set (l := tb_last_refill b) in *. set (r := tb_refill_per_sec b) in *.
  assert (Z.max 0 (now - l) = Z.max now l - l) as -> by lia.
  match goal with |- context [if ?x >? 0 then _ else _] => destruct (Z.gtb_spec x 0) end;
    cbn [tb_tokens tb_capacity tb_refill_per_sec tb_last_refill]; split_and!; try done; lia.
Qed.

Lemma bucket_run_potential b times :
  bucket_wf b → Forall is_u64 times →
  let '(b', n) := bucket_run b times in
  bucket_wf b' ∧ 0 ≤ n
  ∧ tb_tokens b' + n ≤ tb_tokens b + tb_refill_per_sec b * (tb_last_refill b' - tb_last_refill b)
  ∧ tb_last_refill b' = foldl Z.max (tb_last_refill b) times.
Proof.
  intros Hw Ht. revert b Hw. induction Ht as [|now times Hn Ht IH]; intros b Hw; cbn [bucket_run foldl].
  - split_and!; [done|lia..].
  - pose proof (bucket_check_potential b now Hw Hn) as Hp.
    pose proof (bucket_check_wf b now Hw Hn) as Hw'.
    destruct (bucket_check b now) as [b1 pass]. destruct Hp as (Hp & Hl & Hr & _). cbn [fst] in Hw'.
    specialize (IH b1 Hw'). destruct (bucket_run b1 times) as [b2 n].
    destruct IH as (Hw2 & Hn0 & Hp2 & Hl2). rewrite Hr in Hp2. rewrite Hl, Z.max_comm in Hl2.
    split_and!; [done|destruct pass; lia| |by rewrite Hl2].
    destruct pass; lia.
Qed.

(** A full bucket passes its whole burst whatever the clock does. *)
Lemma bucket_burst b times :
  bucket_wf b → Forall is_u64 times → len times ≤ tb_tokens b →
  (bucket_run b times).2 = len times.
Proof.
  intros Hw Ht. revert b Hw. induction Ht as [|now times Hn Ht IH]; intros b Hw Hl; [done|].
  rewrite len_cons in *. cbn [bucket_run]. pose proof (bucket_check_wf b now Hw Hn) as Hw'.
  assert (H1 : (bucket_check b now).2 = true ∧ tb_tokens b - 1 ≤ tb_tokens (bucket_check b now).1).
  { unfold bucket_check. rewrite bucket_refill_spec by done. cbv zeta.
    destruct Hw as (Hc & Htk & Hr & Hlr). unfold is_u32 in *. pose proof (len_nonneg times).
    cbn [tb_tokens tb_capacity tb_refill_per_sec tb_last_refill].
    match goal with |- context [if ?x >? 0 then _ else _] =>
      assert (tb_tokens b ≤ x) by nia; destruct (Z.gtb_spec x 0) end; cbn; [split; [done|lia]|lia]. }
  destruct (bucket_check b now) as [b1 pass]. cbn in *. destruct H1 as [-> H1].
  specialize (IH b1 Hw'). destruct (bucket_run b1 times) as [b2 n]. cbn in *. rewrite IH; lia.
Qed.

(** ** Main result *)

(** The token bucket under any sequence of clock readings, forward or
    backward: the number of passes never exceeds the tokens at the start
    plus the refill rate times the time that passed, the bucket stays within
    its capacity, and a burst no larger than the tokens at hand passes whole. *)
Theorem bucket_rate_bound b times :
  bucket_wf b → Forall is_u64 times →
  let '(b', passed) := bucket_run b times in
  bucket_wf b' ∧ 0 ≤ passed
  ∧ passed ≤ tb_tokens b
             + tb_refill_per_sec b * (foldl Z.max (tb_last_refill b) times - tb_last_refill b)
  ∧ (len times ≤ tb_tokens b → passed = len times).
Proof.
  intros Hw Ht. pose proof (bucket_run_potential b times Hw Ht) as H.
  pose proof (bucket_burst b times Hw Ht) as Hb. destruct (bucket_run b times) as [b' n].
  destruct H as (Hw' & H0 & Hp & Hl). cbn [snd] in Hb. rewrite <- Hl. split_and!; try done.
  destruct Hw' as (_ & ? & _). lia.
Qed.

Lemma bucket_rate_bound_witness :
  let '(b', passed) := bucket_run (bucket_new 3 1 100) [100; 100; 90; 101; 101] in
  bucket_wf b' ∧ 0 ≤ passed ∧ passed ≤ 3 + 1 * (101 - 100) ∧ (5 ≤ 3 → passed = 5).
Proof.
  apply (bucket_rate_bound (bucket_new 3 1 100) [100; 100; 90; 101; 101]).
  - by apply bucket_new_wf.
  - repeat constructor; done.
Defined.
