(* ===== verification/Seen.v ===== *)
(** The frame-hash dedup ring of [core/src/transport/seen.rs]. SHA3-256
    ([sha3], a third-party crate) is the argument [sha3]. *)

From S2P Require Import Prelude.

Definition FP_BYTES : nat := 16.
Definition DEFAULT_CAPACITY : Z := 8192.

Record SeenRing := mkSeenRing {
  sr_capacity : Z;
  sr_order : list bytes;
  sr_set : gset bytes;
}.

Definition ring_new (capacity : Z) : SeenRing := mkSeenRing capacity [] ∅.

(** [while order.len() > capacity { pop_front; set.remove }] *)
Fixpoint evict (capacity : Z) (order : list bytes) (set : gset bytes) : list bytes * gset bytes :=
  match order with
  | [] => ([], set)
  | old :: rest =>
      if len order >? capacity then evict capacity rest (set ∖ {[old]}) else (order, set)
  end.

Section Ring.
Context (sha3 : bytes → bytes).

Definition fingerprint (frame : bytes) : bytes := take FP_BYTES (sha3 frame).

Definition seen_or_mark (r : SeenRing) (frame : bytes) : SeenRing * bool :=
  let fp := fingerprint frame in
  if bool_decide (fp ∈ sr_set r) then
    let order := filter (λ f, f ≠ fp) (sr_order r) ++ [fp] in
    (mkSeenRing (sr_capacity r) order (sr_set r), true)
  else
    let '(order, set) := evict (sr_capacity r) (sr_order r ++ [fp]) ({[fp]} ∪ sr_set r) in
    (mkSeenRing (sr_capacity r) order set, false).

Fixpoint mark_all (r : SeenRing) (frames : list bytes) : SeenRing :=
  match frames with
  | [] => r
  | f :: rest => mark_all (seen_or_mark r f).1 rest
  end.

(** ** The ring invariant *)

(** The set is the deque's elements, each once, within the capacity. *)
Definition ring_wf (r : SeenRing) : Prop :=
  NoDup (sr_order r) ∧ sr_set r = list_to_set (sr_order r) ∧ len (sr_order r) ≤ sr_capacity r.

Lemma ring_new_wf capacity : 0 ≤ capacity → ring_wf (ring_new capacity).
Proof. intros. split_and!; [constructor|done|done]. Qed.

(** Eviction keeps the newest [capacity] entries. *)
Lemma evict_spec capacity order set :
  0 ≤ capacity → NoDup order → set = list_to_set order →
  evict capacity order set =
    (drop (length order - Z.to_nat capacity) order,
     list_to_set (drop (length order - Z.to_nat capacity) order)).
Proof.
  intros Hc. revert set. induction order as [|x order IH]; intros set Hn ->; [done|].
  apply NoDup_cons in Hn as [Hx Hn]. cbn [evict].
  destruct (Z.gtb_spec (len (x :: order)) capacity) as [Hl|Hl]; rewrite len_cons in Hl; unfold len in Hl.
  - rewrite IH; [|done|cbn; apply leibniz_equiv, set_equiv; set_solver].
    replace (length (x :: order) - Z.to_nat capacity)%nat
      with (S (length order - Z.to_nat capacity)) by (cbn; lia). done.
  - replace (length (x :: order) - Z.to_nat capacity)%nat with 0%nat by (cbn; lia). done.
Qed.

Lemma filter_neq_notin (fp : bytes) (l : list bytes) : fp ∉ filter (λ f, f ≠ fp) l.
Proof. intros H%list_elem_of_filter. naive_solver. Qed.

Lemma filter_neq_id (fp : bytes) (l : list bytes) : fp ∉ l → filter (λ f, f ≠ fp) l = l.
Proof.
  induction l as [|x l IH]; [done|]. intros [Hx Hl]%not_elem_of_cons.
  rewrite filter_cons_True by congruence. by rewrite IH.
Qed.

Lemma NoDup_snoc (fp : bytes) (l : list bytes) : fp ∉ l → NoDup l → NoDup (l ++ [fp]).
Proof.
  intros Hf Hn. apply NoDup_app. split_and!; [done| |apply NoDup_singleton].
  intros x Hx ->%list_elem_of_singleton. done.
Qed.

Lemma length_filter_remove (fp : bytes) (l : list bytes) :
  fp ∈ l → (length (filter (λ f, f ≠ fp) l) < length l)%nat.
Proof.
  intros Hin. apply list_elem_of_split in Hin as (l1 & l2 & ->).
  rewrite filter_app, filter_cons_False by naive_solver. rewrite !length_app. cbn.
  pose proof (length_filter (λ f, f ≠ fp) l1). pose proof (length_filter (λ f, f ≠ fp) l2). lia.
Qed.

(** The abstract ring: a recency list of bounded length. *)
Definition lru_push (capacity : Z) (fp : bytes) (l : list bytes) : list bytes :=
  let l' := filter (λ f, f ≠ fp) l ++ [fp] in
  drop (length l' - Z.to_nat capacity) l'.

Lemma lru_push_wf capacity fp l :
  NoDup l → 0 ≤ capacity → NoDup (lru_push capacity fp l) ∧ len (lru_push capacity fp l) ≤ capacity.
Proof.
  intros Hn Hc. unfold lru_push, len. split; [|rewrite length_drop; lia].
  eapply sublist_NoDup; [|apply sublist_drop]. apply NoDup_snoc; [apply filter_neq_notin|].
  by apply NoDup_filter.
Qed.

Lemma seen_or_mark_refines r frame :
  0 ≤ sr_capacity r → ring_wf r →
  let order := lru_push (sr_capacity r) (fingerprint frame) (sr_order r) in
  seen_or_mark r frame =
    (mkSeenRing (sr_capacity r) order (list_to_set order),
     bool_decide (fingerprint frame ∈ sr_order r)).
Proof.
  intros Hc (Hn & Hs & Hl). unfold seen_or_mark. cbv zeta.
  assert (Hiff : fingerprint frame ∈ sr_set r ↔ fingerprint frame ∈ sr_order r)
    by (rewrite Hs; apply elem_of_list_to_set).
  rewrite (bool_decide_ext _ _ Hiff). case_bool_decide as Hin.
  - unfold lru_push. pose proof (length_filter_remove _ _ Hin) as Hlt. unfold len in Hl.
    replace (length _ - Z.to_nat (sr_capacity r))%nat with 0%nat
      by (rewrite length_app; cbn [length]; lia). rewrite drop_0. do 2 f_equal. rewrite Hs.
    apply leibniz_equiv. intros x. rewrite !elem_of_list_to_set, elem_of_app,
      list_elem_of_filter, list_elem_of_singleton.
    destruct (decide (x = fingerprint frame)) as [->|]; naive_solver.
  - unfold lru_push. rewrite filter_neq_id by done.
    rewrite evict_spec; [done|done|by apply NoDup_snoc|].
    rewrite Hs. apply leibniz_equiv. intros x.
    rewrite elem_of_union, elem_of_singleton, !elem_of_list_to_set, elem_of_app,
      list_elem_of_singleton. naive_solver.
Qed.

Lemma seen_or_mark_wf r frame :
  0 ≤ sr_capacity r → ring_wf r → ring_wf (seen_or_mark r frame).1.
Proof.
  intros Hc Hw. rewrite seen_or_mark_refines by done. destruct Hw as (Hn & _ & _).
  destruct (lru_push_wf (sr_capacity r) (fingerprint frame) _ Hn Hc). by split_and!.
Qed.

(** [fp] is in the list with at most [k] newer entries. *)
Definition recent (fp : bytes) (k : nat) (l : list bytes) : Prop :=
  ∃ pre post, l = pre ++ fp :: post ∧ (length post ≤ k)%nat.

Lemma recent_push capacity fp g k l :
  recent fp k l → Z.of_nat k + 2 ≤ capacity → recent fp (S k) (lru_push capacity g l).
Proof.
  intros (pre & post & -> & Hk) Hc. unfold lru_push. cbv zeta.
  destruct (decide (g = fp)) as [->|Hne].
  - set (l' := filter _ _). exists (drop (length (l' ++ [fp]) - Z.to_nat capacity) l'), []. split; [|cbn; lia].
    rewrite drop_app_le; [done|]. rewrite length_app. cbn [length]. lia.
  - rewrite filter_app, filter_cons_True by done. rewrite <- app_assoc. cbn [app].
    set (pre' := filter _ pre). set (post' := filter _ post).
    assert (length post' ≤ k)%nat by (unfold post'; pose proof (length_filter (λ f, f ≠ g) post); lia).
    exists (drop (length (pre' ++ fp :: post' ++ [g]) - Z.to_nat capacity) pre'), (post' ++ [g]).
    split; [|rewrite length_app; cbn [length]; lia].
    rewrite drop_app_le; [done|]. rewrite length_app. cbn [length]. rewrite length_app. cbn [length]. lia.
Qed.

Lemma mark_all_recent r frames fp k :
  0 ≤ sr_capacity r → ring_wf r → recent fp k (sr_order r) →
  Z.of_nat k + len frames + 1 ≤ sr_capacity r →
  ring_wf (mark_all r frames) ∧ sr_capacity (mark_all r frames) = sr_capacity r
  ∧ recent fp (k + length frames) (sr_order (mark_all r frames)).
Proof.
  revert r k. induction frames as [|f frames IH]; intros r k Hc Hw Hr Hl; cbn [mark_all].
  - rewrite Nat.add_0_r. done.
  - rewrite len_cons in Hl. pose proof (seen_or_mark_wf r f Hc Hw) as Hw'.
    pose proof (seen_or_mark_refines r f Hc Hw) as He. cbv zeta in He. rewrite He in *.
    cbn [fst] in *. pose proof (len_nonneg frames).
    assert (Hr' : recent fp (S k) (lru_push (sr_capacity r) (fingerprint f) (sr_order r)))
      by (apply recent_push; [done|lia]).
    edestruct IH as (H1 & H2 & H3); [|exact Hw'|exact Hr'| |]; [done|cbn [sr_capacity]; lia|].
    split_and!; [done|done|]. cbn [length]. by rewrite Nat.add_succ_r.
Qed.

Lemma seen_after_marks r frame frames :
  ring_wf r → len frames < sr_capacity r →
  (seen_or_mark (mark_all (seen_or_mark r frame).1 frames) frame).2 = true.
Proof.
  intros Hw Hl. pose proof (len_nonneg frames).
  assert (Hc : 0 ≤ sr_capacity r) by lia.
  pose proof (seen_or_mark_wf r frame Hc Hw) as Hw'.
  pose proof (seen_or_mark_refines r frame Hc Hw) as He. cbv zeta in He. rewrite He in *. cbn [fst] in *.
  assert (Hr : recent (fingerprint frame) 0
    (lru_push (sr_capacity r) (fingerprint frame) (sr_order r))).
  { unfold lru_push. cbv zeta. set (l' := filter _ _).
    exists (drop (length (l' ++ [fingerprint frame]) - Z.to_nat (sr_capacity r)) l'), [].
    split; [|cbn; lia]. rewrite drop_app_le; [done|]. rewrite length_app. cbn [length]. lia. }
  match type of Hw' with ring_wf ?r1 => edestruct (mark_all_recent r1 frames) as (H1 & H2 & (pre & post & Ho & _));
    [|exact Hw'|exact Hr| |] end; [done|cbn [sr_capacity]; lia|].
  rewrite seen_or_mark_refines; [|by rewrite H2|done]. cbn [snd]. apply bool_decide_eq_true.
  rewrite Ho. apply elem_of_app. right. apply elem_of_cons. by left.
Qed.
End Ring.

(** ** Main results *)

(** The duplicate-frame ring is a least-recently-seen cache: one call
    answers whether the fingerprint is among the remembered ones and leaves
    exactly the bounded list ordered by recency, with the lookup set in step
    with it. *)
Theorem ring_refines_lru sha3 r frame :
  0 ≤ sr_capacity r → ring_wf r →
  let order := lru_push (sr_capacity r) (fingerprint sha3 frame) (sr_order r) in
  let '(r', seen) := seen_or_mark sha3 r frame in
  r' = mkSeenRing (sr_capacity r) order (list_to_set order)
  ∧ seen = bool_decide (fingerprint sha3 frame ∈ sr_order r)
  ∧ ring_wf r' ∧ NoDup order ∧ len order ≤ sr_capacity r.
Proof.
  intros Hc Hw. cbv zeta. pose proof (seen_or_mark_wf sha3 r frame Hc Hw) as Hw'.
  rewrite (seen_or_mark_refines sha3 r frame Hc Hw) in Hw' |- *. cbn [fst] in Hw'. split_and!; try done.
  all: destruct Hw as [Hnd _]; by apply lru_push_wf.
Qed.

(** A frame is recognised as a duplicate as long as fewer frames than
    the ring's capacity came in between. *)
Theorem duplicate_recognised sha3 r frame frames :
  ring_wf r → len frames < sr_capacity r →
  (seen_or_mark sha3 (mark_all sha3 (seen_or_mark sha3 r frame).1 frames) frame).2 = true.
Proof. apply seen_after_marks. Qed.

Definition demo_frame_a : bytes := replicate 20 (zb 1).
Definition demo_frame_b : bytes := replicate 20 (zb 2).

Lemma ring_refines_lru_witness :
  let order := lru_push 2 (fingerprint id demo_frame_a) [] in
  let '(r', seen) := seen_or_mark id (ring_new 2) demo_frame_a in
  r' = mkSeenRing 2 order (list_to_set order) ∧ seen = bool_decide (fingerprint id demo_frame_a ∈ [])
  ∧ ring_wf r' ∧ NoDup order ∧ len order ≤ 2.
Proof. apply (ring_refines_lru id (ring_new 2) demo_frame_a); [by vm_compute|by apply ring_new_wf]. Defined.

Lemma duplicate_recognised_witness :
  (seen_or_mark id (mark_all id (seen_or_mark id (ring_new 2) demo_frame_a).1 [demo_frame_b]) demo_frame_a).2
  = true.
Proof. apply duplicate_recognised; [by apply ring_new_wf|by vm_compute]. Defined.
