(* ===== verification/Heal.v ===== *)
(** The self-heal ladder, the restart budget and the descriptor health window
    ([core/src/transport/heal.rs]), and the connect backoff of
    [core/src/transport/socks/mod.rs]. The injected clock is an argument. *)

From S2P Require Import Prelude.

Definition HEAL_RELOAD_COOLDOWN_MS : Z := 60000.
Definition HEAL_NEWNYM_COOLDOWN_MS : Z := 120000.
Definition HEAL_RESTART_COOLDOWN_MS : Z := 300000.
Definition MAX_RESTARTS : Z := 3.
Definition RESTART_WINDOW_MS : Z := 10 * 60000.
Definition HEAL_CONNECT_FAILS : Z := 6.
Definition HS_WINDOW_MS : Z := 900000.
Definition HS_FAIL_MIN : Z := 3.

Inductive HealAction := Reload | Newnym | Restart.

(** ** The ladder *)

Record HealLadder := mkLadder { hl_level : Z; hl_last_heal_ms : option Z }.
Definition ladder_new : HealLadder := mkLadder 0 None.

Definition rung_cooldown (level : Z) : Z :=
  if level =? 0 then 0
  else if level =? 1 then HEAL_RELOAD_COOLDOWN_MS
  else if level =? 2 then HEAL_NEWNYM_COOLDOWN_MS
  else HEAL_RESTART_COOLDOWN_MS.
Definition rung_action (level : Z) : HealAction :=
  if level =? 0 then Reload else if level =? 1 then Newnym else Restart.

Definition escalate (l : HealLadder) (now : Z) : HealLadder * option HealAction :=
  if from_option (λ last, sat_sub now last <? rung_cooldown (hl_level l)) false (hl_last_heal_ms l)
  then (l, None)
  else (mkLadder (hl_level l + 1) (Some now), Some (rung_action (hl_level l))).

Definition ladder_reset (l : HealLadder) : HealLadder := mkLadder 0 (hl_last_heal_ms l).

(** ** The restart budget *)

(** [while front is older than the window { pop_front }] *)
Fixpoint expire_restarts (now : Z) (restarts : list Z) : list Z :=
  match restarts with
  | [] => []
  | t :: rest => if sat_sub now t >? RESTART_WINDOW_MS then expire_restarts now rest else restarts
  end.

Definition record_restart (restarts : list Z) (now : Z) : list Z * bool :=
  let restarts := expire_restarts now restarts in
  if len restarts >=? MAX_RESTARTS then (restarts, false) else (restarts ++ [now], true).

(** ** Descriptor health *)

Record HsHealth := mkHsHealth { hh_failures : Z; hh_uploads : Z }.
Definition hs_default : HsHealth := mkHsHealth 0 0.
Definition record_failed (h : HsHealth) : HsHealth := mkHsHealth (hh_failures h + 1) (hh_uploads h).
Definition record_uploaded (h : HsHealth) : HsHealth := mkHsHealth (hh_failures h) (hh_uploads h + 1).
Definition hs_evaluate (h : HsHealth) : bool * bool :=
  ((hh_failures h >=? HS_FAIL_MIN) && (hh_failures h >? hh_uploads h),
   (hh_failures h =? 0) && (hh_uploads h >? 0)).

(** ** The connect backoff *)

Definition CONNECT_RETRY_MS : Z := 1500.
Definition CONNECT_RETRY_MAX_MS : Z := 24000.
Definition connect_backoff (fails jitter_ms : Z) : Z :=
  let shift := Z.min (sat_sub fails 1) 4 in
  Z.min (wrap64 (Z.shiftl CONNECT_RETRY_MS shift)) CONNECT_RETRY_MAX_MS + jitter_ms mod 1000.

(** ** Runs *)

(** The restarts granted along a run of requests, in order. *)
Fixpoint granted (restarts : list Z) (times : list Z) : list Z :=
  match times with
  | [] => []
  | now :: times =>
      let '(restarts, ok) := record_restart restarts now in
      (if ok then [now] else []) ++ granted restarts times
  end.

(** The heal actions taken along a run, each with its time. *)
Fixpoint healed (l : HealLadder) (times : list Z) : list (Z * HealAction) :=
  match times with
  | [] => []
  | now :: times =>
      let '(l, a) := escalate l now in
      from_option (λ a, [(now, a)]) [] a ++ healed l times
  end.

(** Later elements are at least the earlier ones. *)
Fixpoint ascending_from (t : Z) (l : list Z) : Prop :=
  match l with
  | [] => True
  | x :: l => t ≤ x ∧ ascending_from x l
  end.

Lemma ascending_from_le s t l : s ≤ t → ascending_from t l → ascending_from s l.
Proof. destruct l; cbn; [done|]. intros ? [? ?]. split; [lia|done]. Qed.
Lemma ascending_from_elem t l x : ascending_from t l → x ∈ l → t ≤ x.
Proof.
  revert t. induction l as [|y l IH]; intros t; [by intros _ ?%not_elem_of_nil|].
  cbn. intros [H1 H2] [->|Hx]%elem_of_cons; [done|]. specialize (IH y H2 Hx). lia.
Qed.
Lemma expire_spec now restarts :
  ∃ k, expire_restarts now restarts = drop k restarts
    ∧ (∀ t, t ∈ take k restarts → now - t > RESTART_WINDOW_MS).
Proof.
  induction restarts as [|t restarts IH]; [exists 0%nat; split; [done|]; set_solver|]. cbn [expire_restarts].
  destruct (Z.gtb_spec (sat_sub now t) RESTART_WINDOW_MS) as [H|H].
  - destruct IH as (k & Hk & Ht). exists (S k). split; [done|]. cbn [take].
    intros x [->|Hx]%elem_of_cons; [|auto]. unfold sat_sub, RESTART_WINDOW_MS in *. lia.
  - exists 0%nat. split; [done|]. cbn. set_solver.
Qed.

(** What is left after the expiry lies within the window. *)
Lemma expire_within t0 now restarts :
  ascending_from t0 restarts →
  len (expire_restarts now restarts) ≤ len (filter (λ t, now - t ≤ RESTART_WINDOW_MS) restarts).
Proof.
  revert t0. induction restarts as [|t restarts IH]; intros t0; [done|]. cbn [ascending_from expire_restarts].
  intros [_ Ha]. destruct (Z.gtb_spec (sat_sub now t) RESTART_WINDOW_MS) as [H|H].
  - rewrite filter_cons. case_decide; [|by eapply IH]. rewrite len_cons. specialize (IH t Ha). lia.
  - assert (Hall : filter (λ t, now - t ≤ RESTART_WINDOW_MS) (t :: restarts) = t :: restarts); [|by rewrite Hall].
    apply filter_all. intros x [->|Hx]%elem_of_cons; unfold sat_sub in H; [lia|].
    pose proof (ascending_from_elem _ _ _ Ha Hx). lia.
Qed.

(** A restart is further than the window from the third before it. *)
Definition spaced (h : list Z) : Prop :=
  ∀ i a b, h !! i = Some a → h !! (i + Z.to_nat MAX_RESTARTS)%nat = Some b → b - a > RESTART_WINDOW_MS.

(** The kept restarts are the end of the history; the rest has left the window. *)
Definition budget_inv (h r : list Z) (now : Z) : Prop :=
  spaced h ∧ ∃ k, r = drop k h ∧ (k ≤ length h)%nat ∧ ∀ t, t ∈ take k h → now - t > RESTART_WINDOW_MS.

Lemma budget_step h r now0 now :
  budget_inv h r now0 → now0 ≤ now →
  let '(r', ok) := record_restart r now in budget_inv (if ok then h ++ [now] else h) r' now.
Proof.
  intros (Hs & k & -> & Hk & Ht) Hn. unfold record_restart.
  destruct (expire_spec now (drop k h)) as (j & Hj & Hjt). rewrite Hj, drop_drop.
  assert (Hold : ∀ t, t ∈ take (k + j) h → now - t > RESTART_WINDOW_MS).
  { intros t. rewrite <- (take_drop k h) at 1. rewrite take_app_add' by (rewrite length_take; lia).
    intros [H|H]%elem_of_app; [specialize (Ht t H); lia|by apply Hjt]. }
  assert (Hmin : drop (k + j) h = drop (Nat.min (k + j) (length h)) h).
  { destruct (decide (k + j ≤ length h)%nat); [by rewrite Nat.min_l|].
    rewrite Nat.min_r, !drop_ge by lia. done. }
  assert (Hold' : ∀ t, t ∈ take (Nat.min (k + j) (length h)) h → now - t > RESTART_WINDOW_MS).
  { intros t H. apply Hold. destruct (decide (k + j ≤ length h)%nat); [by rewrite Nat.min_l in H|].
    rewrite Nat.min_r in H by lia. rewrite take_ge by lia. by rewrite take_ge in H. }
  set (m := Nat.min (k + j) (length h)) in *. rewrite Hmin. unfold len. rewrite length_drop.
  destruct (Z.geb_spec (Z.of_nat (length h - m)) MAX_RESTARTS) as [Hc|Hc].
  - split; [done|]. exists m. split; [done|]. split; [lia|done].
  - assert (Hlen : (length h - m < Z.to_nat MAX_RESTARTS)%nat) by lia. split.
    + intros i a b Ha Hb. destruct (decide (i + Z.to_nat MAX_RESTARTS < length h)%nat).
      * rewrite lookup_app_l in Ha by lia. rewrite lookup_app_l in Hb by lia. by eapply Hs.
      * pose proof (lookup_lt_Some _ _ _ Hb) as Hlt. rewrite length_app in Hlt. cbn in Hlt.
        assert (i + Z.to_nat MAX_RESTARTS = length h)%nat as Hi by lia. rewrite Hi, list_lookup_middle in Hb by done.
        injection Hb as <-. rewrite lookup_app_l in Ha by (unfold MAX_RESTARTS in *; lia).
        apply Hold', list_elem_of_lookup. exists i. rewrite lookup_take_lt by lia. done.
    + exists m. split; [by rewrite drop_app_le by lia|]. rewrite length_app. split; [lia|].
      rewrite take_app_le by lia. done.
Qed.

Lemma granted_spaced h r now0 times :
  budget_inv h r now0 → ascending_from now0 times → spaced (h ++ granted r times).
Proof.
  revert h r now0. induction times as [|now times IH]; intros h r now0 Hi.
  - intros _. cbn. rewrite app_nil_r. apply Hi.
  - cbn [ascending_from granted]. intros [Hn Ha]. pose proof (budget_step h r now0 now Hi Hn) as Hb.
    destruct (record_restart r now) as [r' ok]. rewrite app_assoc.
    destruct ok; [|rewrite app_nil_r]; by eapply IH.
Qed.

(** Restarts are bounded: however often a restart is asked for, as the
    clock moves forward, four restarts in a row are never granted within
    [RESTART_WINDOW_MS]; and a request is refused only when three restarts
    lie within the window behind it. *)
Theorem restart_budget times :
  ascending_from 0 times →
  spaced (granted [] times)
  ∧ ∀ restarts now, ascending_from 0 restarts → (record_restart restarts now).2 = false →
      MAX_RESTARTS ≤ len (filter (λ t, now - t ≤ RESTART_WINDOW_MS) restarts).
Proof.
  intros Ha. split.
  - apply (granted_spaced [] [] 0); [|done]. split; [by intros i a b H|]. exists 0%nat. split; [done|]. split; [cbn; lia|].
    cbn. set_solver.
  - intros restarts now Hr. unfold record_restart.
    destruct (Z.geb_spec (len (expire_restarts now restarts)) MAX_RESTARTS) as [Hc|]; [|done]. intros _.
    etrans; [exact Hc|]. by apply (expire_within 0).
Qed.

(** ** The ladder's order and its cooldowns *)

Lemma rung_top level : 2 ≤ level → rung_action level = Restart.
Proof. intros H. unfold rung_action. destruct (Z.eqb_spec level 0), (Z.eqb_spec level 1); done || lia. Qed.

(** What the ladder does next: the rung of its level, not before its cooldown. *)
Lemma healed_from l times :
  0 ≤ hl_level l →
  ∀ i t a, healed l times !! i = Some (t, a) →
    a = rung_action (hl_level l + Z.of_nat i)
    ∧ match i with
      | O => ∀ last, hl_last_heal_ms l = Some last → rung_cooldown (hl_level l) ≤ Z.max (t - last) 0
      | S j => ∀ s b, healed l times !! j = Some (s, b) → rung_cooldown (hl_level l + Z.of_nat i) ≤ Z.max (t - s) 0
      end.
Proof.
  revert l. induction times as [|now times IH]; intros l Hl i t a; [done|]. cbn [healed]. unfold escalate.
  destruct (from_option _ _ _) eqn:Hcd; [by apply IH|]. cbn [from_option]. specialize (IH (mkLadder (hl_level l + 1) (Some now))).
  cbn [hl_level hl_last_heal_ms] in IH. destruct i as [|i].
  - intros [= <- <-]. rewrite Z.add_0_r. split; [done|]. intros last Hlast. rewrite Hlast in Hcd. cbn in Hcd.
    unfold sat_sub in Hcd. lia.
  - cbn [app lookup list_lookup]. intros H. destruct (IH ltac:(lia) i t a H) as [-> Hc]. split; [f_equal; lia|].
    intros s b. destruct i as [|i]; cbn [lookup list_lookup].
    + intros [= <- <-]. specialize (Hc now eq_refl). replace (hl_level l + Z.of_nat 1) with (hl_level l + 1) by lia. done.
    + intros Hs. specialize (Hc s b Hs). replace (hl_level l + Z.of_nat (S (S i))) with (hl_level l + 1 + Z.of_nat (S i)) by lia. done.
Qed.

(** The heal ladder climbs in order: from a fresh ladder the first
    action is a reload, the second a new identity, and every later one a
    restart, and two successive actions are at least the cooldown of the
    lower rung apart (60, 120 and then 300 seconds). *)
Theorem ladder_climbs times i t a :
  healed ladder_new times !! i = Some (t, a) →
  a = match i with O => Reload | S O => Newnym | _ => Restart end
  ∧ ∀ j s b, i = S j → healed ladder_new times !! j = Some (s, b) →
      match j with
      | O => HEAL_RELOAD_COOLDOWN_MS
      | S O => HEAL_NEWNYM_COOLDOWN_MS
      | _ => HEAL_RESTART_COOLDOWN_MS
      end ≤ t - s.
Proof.
  intros H. destruct (healed_from ladder_new times ltac:(cbn; lia) i t a H) as [-> Hc]. cbn [hl_level ladder_new] in *.
  split; [destruct i as [|[|i]]; [done..|]; apply rung_top; lia|].
  intros j s b -> Hj. specialize (Hc s b Hj). unfold rung_cooldown in Hc.
  unfold HEAL_RELOAD_COOLDOWN_MS, HEAL_NEWNYM_COOLDOWN_MS, HEAL_RESTART_COOLDOWN_MS in *.
  destruct j as [|[|j]];
    [change (0 + Z.of_nat 1) with 1 in Hc; cbn [Z.eqb Pos.eqb] in Hc; lia
    |change (0 + Z.of_nat 2) with 2 in Hc; cbn [Z.eqb Pos.eqb] in Hc; lia|].
  destruct (Z.eqb_spec (0 + Z.of_nat (S (S (S j)))) 0), (Z.eqb_spec (0 + Z.of_nat (S (S (S j)))) 1),
    (Z.eqb_spec (0 + Z.of_nat (S (S (S j)))) 2); lia.
Qed.

(** The backoff never shrinks with the failures, starts at a second and a
    half and stays below twenty-five seconds. *)
Lemma connect_backoff_bounds fails jitter :
  1 ≤ fails → 0 ≤ jitter →
  CONNECT_RETRY_MS ≤ connect_backoff fails jitter < CONNECT_RETRY_MAX_MS + 1000
  ∧ connect_backoff fails 0 ≤ connect_backoff (fails + 1) 0
  ∧ (5 ≤ fails → connect_backoff fails 0 = CONNECT_RETRY_MAX_MS).
Proof.
  intros Hf Hj. unfold connect_backoff, sat_sub. pose proof (Z.mod_pos_bound jitter 1000 ltac:(lia)).
  assert (Hb : ∀ s, 0 ≤ s ≤ 4 → Z.min (wrap64 (Z.shiftl CONNECT_RETRY_MS s)) CONNECT_RETRY_MAX_MS = 1500 * 2 ^ s).
  { intros s Hs. assert (s = 0 ∨ s = 1 ∨ s = 2 ∨ s = 3 ∨ s = 4) as Hc by lia.
    by destruct Hc as [-> | [-> | [-> | [-> | ->]]]]. }
  rewrite !Hb by lia. set (s := Z.min (Z.max (fails - 1) 0) 4). set (s' := Z.min (Z.max (fails + 1 - 1) 0) 4).
  assert (2 ^ s ≤ 2 ^ s') by (apply Z.pow_le_mono_r; unfold s, s'; lia).
  assert (0 < 2 ^ s) by (apply Z.pow_pos_nonneg; unfold s; lia).
  assert (2 ^ s ≤ 2 ^ 4) by (apply Z.pow_le_mono_r; unfold s; lia).
  unfold CONNECT_RETRY_MS, CONNECT_RETRY_MAX_MS. change (0 mod 1000) with 0. change (2 ^ 4) with 16 in *. split; [lia|]. split; [lia|].
  intros H5. replace s with 4 by (unfold s; lia). lia.
Qed.

(** A window cannot both escalate and reset the ladder. *)
Lemma hs_evaluate_exclusive h : hs_evaluate h ≠ (true, true).
Proof. unfold hs_evaluate, HS_FAIL_MIN. intros [= H1 H2]. lia. Qed.

(** ** Witnesses *)

Lemma restart_budget_witness : spaced (granted [] [0; 1; 2; 3; 600002; 600003]) ∧ granted [] [0; 1; 2; 3; 600002; 600003] = [0; 1; 2; 600002; 600003].
Proof.
  split; [|reflexivity]. apply restart_budget. cbn. lia.
Defined.

Lemma ladder_climbs_witness :
  healed ladder_new [0; 59999; 60000; 179999; 180000] = [(0, Reload); (60000, Newnym); (180000, Restart)]
  ∧ HEAL_NEWNYM_COOLDOWN_MS ≤ 180000 - 60000.
Proof.
  split; [reflexivity|].
  by apply (ladder_climbs [0; 59999; 60000; 179999; 180000] 2 180000 Restart eq_refl) with (j := 1%nat) (b := Newnym).
Defined.
