(* ===== verification/Socks.v ===== *)
(** The SOCKS5 send path: the handshake ([core/src/transport/socks/
    handshake.rs]), the pooled sender and the worker of one destination
    ([socks/sender.rs]), with the constants of [socks/mod.rs]. *)

From S2P Require Import Prelude Bin RustStr Frame Onion Heal.

Definition PURPOSE_CHAT : bytes := str_bytes "chat".
Definition MAX_CONNECT_FAILS : Z := 8.
Definition MAX_WRITE_RETRIES : Z := 3.
Definition WRITE_COALESCE_MIN : Z := 512 * 1024.
Definition WRITE_COALESCE_MAX : Z := 2 * 1024 * 1024.
Definition MAX_LIVE_SESSIONS : Z := 8.

(** ** The handshake

    The proxy is the bytes it will send; [stalled] tells whether it then
    keeps the connection open in silence or closes it. [write_err i] is the
    error of the [i]-th write, when it fails. The handshake is the bytes
    written, in order, and the rest of the stream. *)

Definition read_exact_timeout (stalled : bool) (n : nat) (s : bytes)
    : result TransportError (bytes * bytes) :=
  match read_exact n s with
  | Ok r => Ok r
  | Err e => if stalled then Err (TrTimeout (Lit "socks handshake read")) else Err e
  end.

Definition greeting : bytes := [zb 5; zb 1; zb 2].
Definition auth_message (purpose : bytes) : bytes :=
  [zb 1] ++ [zb (len purpose)] ++ purpose ++ [zb (len purpose)] ++ purpose.
Definition connect_message (host : bytes) (dest_port : Z) : bytes :=
  [zb 5; zb 1; zb 0; zb 3] ++ [zb (len host)] ++ host ++ be_bytes 2 dest_port.

(** The bytes to skip after the head of the reply: [BND.ADDR]. *)
Definition bnd_len (stalled : bool) (atyp : byte) (s : bytes) : result TransportError (nat * bytes) :=
  if bz atyp =? 1 then Ok (4%nat, s)
  else if bz atyp =? 4 then Ok (16%nat, s)
  else if bz atyp =? 3 then
    let* '(l, s) := read_exact_timeout stalled 1 s in Ok (Z.to_nat (be_val l), s)
  else Err (TrSocks (Fmt "bad bnd atyp 0x{other:02x}" [bz atyp])).

Section Handshake.
Context (stalled : bool) (write_err : nat → option Detail).

Definition write_all (i : nat) (msg : bytes) (k : list bytes * result TransportError bytes)
    : list bytes * result TransportError bytes :=
  match write_err i with
  | Some e => ([], Err (TrIo e))
  | None => (msg :: k.1, k.2)
  end.

(** The reply to [CONNECT]: head, address and port. *)
Definition connect_reply (s : bytes) : result TransportError bytes :=
  let* '(head, s) := read_exact_timeout stalled 4 s in
  if negb (bool_decide (head !! 0%nat = Some (zb 5))) then Err (TrSocks (Lit "bad reply version"))
  else if negb (bool_decide (head !! 1%nat = Some (zb 0)))
  then Err (TrSocks (Fmt "connect failed with socks error 0x{:02x}" [bz (default (zb 0) (head !! 1%nat))]))
  else
    let* '(skip, s) := bnd_len stalled (default (zb 0) (head !! 3%nat)) s in
    let* '(_, s) := read_exact_timeout stalled (skip + 2) s in
    Ok s.

Definition after_greeting (host : bytes) (dest_port : Z) (purpose s : bytes)
    : list bytes * result TransportError bytes :=
  match read_exact_timeout stalled 2 s with
  | Err e => ([], Err e)
  | Ok (method, s) =>
      if negb (bool_decide (method = [zb 5; zb 2]))
      then ([], Err (TrSocks (Lit "proxy refused user/pass auth: {method:02x?}")))
      else
        write_all 1 (auth_message purpose)
          (match read_exact_timeout stalled 2 s with
           | Err e => ([], Err e)
           | Ok (auth_reply, s) =>
               if negb (bool_decide (auth_reply !! 1%nat = Some (zb 0)))
               then ([], Err (TrSocks (Lit "proxy auth failed")))
               else write_all 2 (connect_message host dest_port) ([], connect_reply s)
           end)
  end.

Definition socks_handshake (normalize : bytes → result TransportError bytes) (dest_host : bytes)
    (dest_port : Z) (purpose : bytes) (s : bytes) : list bytes * result TransportError bytes :=
  match normalize dest_host with
  | Err e => ([], Err e)
  | Ok host =>
      if len host >? 255 then ([], Err (TrSocks (Lit "destination name too long")))
      else if len purpose >? 255 then ([], Err (TrSocks (Lit "purpose token too long")))
      else write_all 0 greeting (after_greeting host dest_port purpose s)
  end.
End Handshake.

(** ** A SOCKS5 server (RFC 1928, RFC 1929) *)

(** The bytes a server reads from a client, taken apart: the user, the
    password, the domain name and the port. *)
Definition server_lp (s : bytes) : option (bytes * bytes) :=
  match s with
  | n :: s => if decide (Z.to_nat (bz n) ≤ length s)%nat
              then Some (take (Z.to_nat (bz n)) s, drop (Z.to_nat (bz n)) s) else None
  | [] => None
  end.
Definition server_reads (s : bytes) : option (bytes * bytes * bytes * Z) :=
  s ← strip_prefix [zb 5; zb 1; zb 2] s;
  s ← strip_prefix [zb 1] s;
  '(user, s) ← server_lp s;
  '(pass, s) ← server_lp s;
  s ← strip_prefix [zb 5; zb 1; zb 0; zb 3] s;
  '(host, s) ← server_lp s;
  if decide (length s = 2%nat) then Some (user, pass, host, be_val s) else None.

(** What it sends when it accepts everything; the bound address is one of
    the three types. *)
Inductive BndAddr :=
| BndV4 (a : bytes)
| BndV6 (a : bytes)
| BndName (a : bytes).
Definition bnd_ok (a : BndAddr) : Prop :=
  match a with
  | BndV4 a => length a = 4%nat
  | BndV6 a => length a = 16%nat
  | BndName a => len a ≤ 255
  end.
Definition bnd_bytes (a : BndAddr) : bytes :=
  match a with
  | BndV4 a => zb 1 :: a
  | BndV6 a => zb 4 :: a
  | BndName a => zb 3 :: zb (len a) :: a
  end.
Definition server_accepts (ver rsv : byte) (a : BndAddr) (port : bytes) : bytes :=
  [zb 5; zb 2] ++ [ver; zb 0] ++ [zb 5; zb 0; rsv] ++ bnd_bytes a ++ port.

Lemma read_app stalled n l s : length l = n → read_exact_timeout stalled n (l ++ s) = Ok (l, s).
Proof.
  intros Hn. unfold read_exact_timeout, read_exact. rewrite decide_True by (rewrite length_app; lia).
  by rewrite take_app_length', drop_app_length'.
Qed.

Lemma server_lp_app l s : len l ≤ 255 → server_lp (zb (len l) :: l ++ s) = Some (l, s).
Proof.
  intros Hl. pose proof (len_nonneg l). unfold server_lp.
  rewrite bz_zb_small by (unfold is_u8, u8_max; lia).
  assert (Hn : Z.to_nat (len l) = length l) by (unfold len; lia). rewrite Hn.
  rewrite decide_True by (rewrite length_app; lia). by rewrite take_app_length, drop_app_length.
Qed.

Lemma connect_head stalled rsv t s :
  connect_reply stalled (zb 5 :: zb 0 :: rsv :: t :: s)
  = let* '(skip, s) := bnd_len stalled t s in
    let* '(_, s) := read_exact_timeout stalled (skip + 2) s in Ok s.
Proof.
  change (zb 5 :: zb 0 :: rsv :: t :: s) with ([zb 5; zb 0; rsv; t] ++ s).
  unfold connect_reply. rewrite read_app by done.
  cbn [rbind]. by rewrite !bool_decide_true.
Qed.

Lemma connect_reply_accepts stalled rsv a port rest :
  bnd_ok a → length port = 2%nat →
  connect_reply stalled ([zb 5; zb 0; rsv] ++ bnd_bytes a ++ port ++ rest) = Ok rest.
Proof.
  intros Ha Hp. destruct a as [a|a|a]; cbn [bnd_bytes bnd_ok app] in *; rewrite connect_head; unfold bnd_len;
    rewrite bz_zb_small by (unfold is_u8, u8_max; lia); cbn [Z.eqb Pos.eqb rbind].
  - by rewrite app_assoc, read_app by (rewrite length_app; lia).
  - by rewrite app_assoc, read_app by (rewrite length_app; lia).
  - change (zb (len a) :: a ++ port ++ rest) with ([zb (len a)] ++ a ++ port ++ rest).
    rewrite read_app by done. cbn [rbind].
    pose proof (len_nonneg a).
    assert (Hv : be_val [zb (len a)] = len a).
    { unfold be_val. cbn [be_val_acc]. rewrite bz_zb_small by (unfold is_u8, u8_max; lia). lia. }
    rewrite Hv. assert (Hn : Z.to_nat (len a) = length a) by (unfold len; lia). rewrite Hn.
    by rewrite app_assoc, read_app by (rewrite length_app; lia).
Qed.

(** The SOCKS handshake and a server of the standard understand each
    other: for a destination that normalizes to a name and a purpose of at
    most 255 bytes, whichever kind of bound address the server answers with,
    the client consumes the server's answer exactly and leaves the stream at
    the first byte after it, and the bytes it wrote are read by the server as
    the purpose as user and password, the name and the port: the name is
    always sent, never an address. *)
Theorem handshake_understood stalled normalize dest_host host dest_port purpose ver rsv a port rest :
  normalize dest_host = Ok host → len host ≤ 255 → len purpose ≤ 255 → is_u16 dest_port →
  bnd_ok a → length port = 2%nat →
  let r := socks_handshake stalled (λ _, None) normalize dest_host dest_port purpose
             (server_accepts ver rsv a port ++ rest) in
  r.2 = Ok rest ∧ server_reads (concat r.1) = Some (purpose, purpose, host, dest_port).
Proof.
  intros Hh Hl Hpu Hport Ha Hp. unfold socks_handshake. rewrite Hh.
  destruct (Z.gtb_spec (len host) 255); [lia|]. destruct (Z.gtb_spec (len purpose) 255); [lia|].
  unfold server_accepts. rewrite <- !app_assoc.
  unfold after_greeting. rewrite (read_app stalled 2 [zb 5; zb 2]) by done. rewrite bool_decide_true by done.
  cbn [negb]. rewrite (read_app stalled 2 [ver; zb 0]) by done. rewrite bool_decide_true by done.
  cbn [negb write_all fst snd]. rewrite connect_reply_accepts by done. split; [done|].
  cbn [concat]. rewrite app_nil_r. unfold server_reads, greeting, auth_message, connect_message.
  rewrite strip_prefix_app. cbn [mbind option_bind]. rewrite <- !app_assoc, strip_prefix_app.
  cbn [mbind option_bind app]. rewrite server_lp_app by done. cbn [mbind option_bind].
  rewrite server_lp_app by done. cbn [mbind option_bind].
  pose proof (strip_prefix_app [zb 5; zb 1; zb 0; zb 3] (zb (len host) :: host ++ be_bytes 2 dest_port)) as Hs.
  cbn [app] in Hs. rewrite Hs. cbn [mbind option_bind].
  rewrite server_lp_app by done. cbn [mbind option_bind].
  rewrite decide_True by apply length_be_bytes.
  rewrite be_val_bytes_small by (unfold is_u16, u16_max in *; cbn; lia). done.
Qed.

Definition demo_dest : bytes := str_bytes "abc.onion".
Lemma handshake_understood_witness :
  let r := socks_handshake false (λ _, None) (λ h, Ok h) demo_dest 80 PURPOSE_CHAT
             (server_accepts (zb 1) (zb 0) (BndName (str_bytes "x")) [zb 0; zb 0] ++ [zb 7]) in
  r.2 = Ok [zb 7] ∧ server_reads (concat r.1) = Some (PURPOSE_CHAT, PURPOSE_CHAT, demo_dest, 80).
Proof.
  apply (handshake_understood false (λ h, Ok h) demo_dest demo_dest 80 PURPOSE_CHAT); [reflexivity|..].
  all: vm_compute; (split || idtac); congruence.
Defined.

(** An answer that is not a success is an error, and nothing is sent after it. *)
Lemma handshake_refused stalled normalize dest_host host dest_port purpose s m1 m2 :
  normalize dest_host = Ok host → len host ≤ 255 → len purpose ≤ 255 → m2 ≠ zb 2 ∨ m1 ≠ zb 5 →
  socks_handshake stalled (λ _, None) normalize dest_host dest_port purpose ([m1; m2] ++ s)
  = ([greeting], Err (TrSocks (Lit "proxy refused user/pass auth: {method:02x?}"))).
Proof.
  intros Hh Hl Hpu Hm. unfold socks_handshake. rewrite Hh.
  destruct (Z.gtb_spec (len host) 255); [lia|]. destruct (Z.gtb_spec (len purpose) 255); [lia|].
  unfold after_greeting. rewrite read_app by done. rewrite bool_decide_false by naive_solver. done.
Qed.
