(* ===== verification/SendPool.v ===== *)
(** The pooled sender of [core/src/transport/socks/sender.rs]: the worker of
    one destination as a step machine, the table of workers, and [send]. *)

From S2P Require Import Prelude Bin RustStr Frame Onion Heal Socks.

(** ** Queued writes and their failure *)

(** [q_id] stands for the one-shot sender of the caller. *)
Record QueuedWrite := mkQueued { q_id : Z; q_bytes : bytes }.
Abbreviation Answer := (Z * result TransportError unit)%type.

(** [err.to_string()] is the text of the error. *)
Definition clone_error (err : TransportError) (msg : Detail) : TransportError :=
  match err with
  | KillSwitch => KillSwitch
  | Offline => Offline
  | ConnectFailed dest attempts reason => ConnectFailed dest attempts reason
  | _ => TrSocks msg
  end.

Definition ERR_TEXT : Detail := Lit "{err}".

Definition fail_all (err : TransportError) (writes : list QueuedWrite) : list Answer :=
  match writes with
  | [] => []
  | w :: writes =>
      (q_id w, Err (clone_error err ERR_TEXT))
      :: ((λ w, (q_id w, Err (TrSocks ERR_TEXT))) <$> writes)
  end.

(** The batch of [run_dest]: the pending write and the queued ones while the
    batch is below the budget. *)
Fixpoint take_batch (budget batch_bytes : Z) (queue : list QueuedWrite)
    : list QueuedWrite * list QueuedWrite :=
  match queue with
  | [] => ([], [])
  | w :: rest =>
      if batch_bytes <? budget then
        let '(batch, queue) := take_batch budget (batch_bytes + len (q_bytes w)) rest in
        (w :: batch, queue)
      else ([], queue)
  end.
Definition coalesce (budget : Z) (pending : QueuedWrite) (queue : list QueuedWrite)
    : list QueuedWrite * list QueuedWrite :=
  let '(batch, queue) := take_batch budget (len (q_bytes pending)) queue in
  (pending :: batch, queue).
Definition batch_payload (batch : list QueuedWrite) : bytes := concat (q_bytes <$> batch).

(** What [write_all] has put on the stream when it fails: some of the payload,
    but not all of it. *)
Definition cut_payload (n : nat) (batch : list QueuedWrite) : bytes :=
  take (Nat.min n (length (batch_payload batch) - 1)) (batch_payload batch).

(** ** The worker *)

(** Where [run_dest] is: its await points, and the loop head. *)
Inductive Phase :=
| PFirst
| PGate (pending : QueuedWrite)
| PConnect (pending : QueuedWrite)
| PCoalesce (pending : QueuedWrite)
| PWrite (batch : list QueuedWrite) (write_retries : Z)
| PReconnect (batch : list QueuedWrite) (write_retries : Z)
| PHold
| PPark
| PExit.

(** [wk_wire] is what was written to each connection opened so far. *)
Record Worker := mkWorker {
  wk_phase : Phase;
  wk_stream : bool;
  wk_connect_fails : Z;
  wk_queue : list QueuedWrite;
  wk_closed : bool;
  wk_answers : list Answer;
  wk_wire : list bytes;
}.
Definition worker_new : Worker := mkWorker PFirst false 0 [] false [] [].

(** How the wait after a write ends, when it does: the hold time is over, or
    something was read. *)
Inductive HoldEnd := HoldWait | HoldExpired | HoldRead.

(** What the worker finds at a step: the flags, the outcome of a connect, the
    coalescing budget drawn, the outcome of a write (for a failed one the
    bytes written before the failure), the end of the wait. *)
Record StepEnv := mkEnv {
  en_kill : bool;
  en_online : bool;
  en_connect : result TransportError unit;
  en_budget : Z;
  en_write : option (Detail * nat);
  en_hold : HoldEnd;
}.

Section Worker.
Context (dest : string).

Definition to_phase (w : Worker) (p : Phase) : Worker :=
  mkWorker p (wk_stream w) (wk_connect_fails w) (wk_queue w) (wk_closed w) (wk_answers w) (wk_wire w).
Definition with_stream (w : Worker) (stream : bool) : Worker :=
  mkWorker (wk_phase w) stream (wk_connect_fails w) (wk_queue w) (wk_closed w) (wk_answers w) (wk_wire w).
Definition with_fails (w : Worker) (fails : Z) : Worker :=
  mkWorker (wk_phase w) (wk_stream w) fails (wk_queue w) (wk_closed w) (wk_answers w) (wk_wire w).
Definition with_queue (w : Worker) (queue : list QueuedWrite) : Worker :=
  mkWorker (wk_phase w) (wk_stream w) (wk_connect_fails w) queue (wk_closed w) (wk_answers w) (wk_wire w).
Definition answer (w : Worker) (l : list Answer) : Worker :=
  mkWorker (wk_phase w) (wk_stream w) (wk_connect_fails w) (wk_queue w) (wk_closed w) (wk_answers w ++ l)
    (wk_wire w).
Fixpoint append_last (wire : list bytes) (bs : bytes) : list bytes :=
  match wire with
  | [] => [bs]
  | [s] => [s ++ bs]
  | s :: wire => s :: append_last wire bs
  end.
(** Bytes written to the current stream. *)
Definition on_wire (w : Worker) (bs : bytes) : Worker :=
  mkWorker (wk_phase w) (wk_stream w) (wk_connect_fails w) (wk_queue w) (wk_closed w) (wk_answers w)
    (append_last (wk_wire w) bs).
(** [stream = Some(s)]: a new connection. *)
Definition new_stream (w : Worker) : Worker :=
  mkWorker (wk_phase w) true (wk_connect_fails w) (wk_queue w) (wk_closed w) (wk_answers w) (wk_wire w ++ [[]]).

Definition DROPPED : TransportError := TrSocks (Lit "destination worker dropped write").
Definition GONE : TransportError := TrSocks (Lit "destination worker gone").

(** The end of the task: the receiver goes away with what is queued, and the
    callers find their senders dropped. *)
Definition worker_exit (w : Worker) : Worker :=
  to_phase (with_queue (answer w ((λ q, (q_id q, Err DROPPED)) <$> wk_queue w)) []) PExit.

(** [fail_all(.., drain(pending, rx))]; break *)
Definition fail_drained (w : Worker) (err : TransportError) (pending : QueuedWrite) : Worker :=
  worker_exit (with_queue (answer w (fail_all err (pending :: wk_queue w))) []).

(** [rx.recv()]: the next write, the end once every sender is gone, or wait. *)
Definition recv (w : Worker) : Worker :=
  match wk_queue w with
  | q :: queue => to_phase (with_queue w queue) (PGate q)
  | [] => if wk_closed w then worker_exit w else w
  end.

Definition worker_step (w : Worker) (x : StepEnv) : Worker :=
  match wk_phase w with
  | PFirst => recv w
  | PGate p =>
      if en_kill x || negb (en_online x)
      then fail_drained w (if en_kill x then KillSwitch else Offline) p
      else to_phase w (if wk_stream w then PCoalesce p else PConnect p)
  | PConnect p =>
      match en_connect x with
      | Ok _ => to_phase (new_stream (with_fails w 0)) (PCoalesce p)
      | Err e =>
          let fails := wk_connect_fails w + 1 in
          let w := with_fails w fails in
          if fails >=? MAX_CONNECT_FAILS
          then fail_drained w (ConnectFailed dest fails (Lit "{reason}")) p
          else w
      end
  | PCoalesce p =>
      let '(batch, queue) := coalesce (en_budget x) p (wk_queue w) in
      to_phase (with_queue w queue) (PWrite batch 0)
  | PWrite batch retries =>
      match en_write x with
      | None =>
          to_phase (answer (on_wire w (batch_payload batch)) ((λ q, (q_id q, Ok tt)) <$> batch)) PHold
      | Some (e, n) =>
          let w := on_wire w (cut_payload n batch) in
          let retries := retries + 1 in
          if retries >=? MAX_WRITE_RETRIES then worker_exit (answer w (fail_all (TrIo e) batch))
          else to_phase w (PReconnect batch retries)
      end
  | PReconnect batch retries =>
      match en_connect x with
      | Ok _ => to_phase (new_stream w) (PWrite batch retries)
      | Err e => worker_exit (answer w (fail_all e batch))
      end
  | PHold =>
      match en_hold x with
      | HoldRead => to_phase (with_stream w false) PPark
      | HoldWait => recv w
      | HoldExpired =>
          match wk_queue w, wk_closed w with
          | [], false => to_phase (with_stream w false) PPark
          | _, _ => recv w
          end
      end
  | PPark => recv w
  | PExit => w
  end.

Inductive WorkerEvent :=
| EvArrive (q : QueuedWrite)
| EvClose
| EvStep (x : StepEnv).

(** A write handed to the channel; to a worker that is gone it fails. *)
Definition worker_arrive (w : Worker) (q : QueuedWrite) : Worker :=
  match wk_phase w with
  | PExit => answer w [(q_id q, Err GONE)]
  | _ => with_queue w (wk_queue w ++ [q])
  end.
Definition worker_close (w : Worker) : Worker :=
  mkWorker (wk_phase w) (wk_stream w) (wk_connect_fails w) (wk_queue w) true (wk_answers w) (wk_wire w).

Definition worker_event (w : Worker) (ev : WorkerEvent) : Worker :=
  match ev with
  | EvArrive q => worker_arrive w q
  | EvClose => worker_close w
  | EvStep x => worker_step w x
  end.
Definition worker_run (w : Worker) (evs : list WorkerEvent) : Worker := foldl worker_event w evs.
End Worker.

(** ** Every write is answered, in order *)

Definition arrival (ev : WorkerEvent) : option QueuedWrite :=
  match ev with EvArrive q => Some q | _ => None end.
Definition in_hand (p : Phase) : list QueuedWrite :=
  match p with
  | PGate q | PConnect q | PCoalesce q => [q]
  | PWrite batch _ | PReconnect batch _ => batch
  | PFirst | PHold | PPark | PExit => []
  end.

(** The writes of a list that were answered with success. *)
Definition succeeded (done_ : list QueuedWrite) (answers : list Answer) : list QueuedWrite :=
  concat (zip_with (λ q a, if is_ok (snd a) then [q] else []) done_ answers).

(** What a connection carried: whole batches, and at its end perhaps some
    bytes of one whose write failed. *)
Record Conn := mkConn { cn_whole : list (list QueuedWrite); cn_cut : option (list QueuedWrite * nat) }.
Definition conn_bytes (c : Conn) : bytes :=
  concat (batch_payload <$> cn_whole c) ++ from_option (λ bn, cut_payload bn.2 bn.1) [] (cn_cut c).
Definition whole_writes (conns : list Conn) : list QueuedWrite := concat (concat (cn_whole <$> conns)).

(** The connection in use: the last one, and it was not cut. *)
Definition ready (conns : list Conn) : Prop := ∃ cs bs, conns = cs ++ [mkConn bs None].

(** The answers are those of [done_], in order, and the successes among them
    are the writes of the whole batches on the connections. *)
Definition accounted_for (done_ : list QueuedWrite) (answers : list Answer) (conns : list Conn) : Prop :=
  fst <$> answers = q_id <$> done_ ∧ whole_writes conns = succeeded done_ answers.

(** The batches cut are runs of consecutive writes among those handed over. *)
Definition cuts_ok (arrivals : list QueuedWrite) (conns : list Conn) : Prop :=
  Forall (λ c, ∀ b n, cn_cut c = Some (b, n) → ∃ before after_, arrivals = before ++ b ++ after_) conns.

Lemma accounted_length d a c : accounted_for d a c → length d = length a.
Proof. intros [H _]. apply (f_equal length) in H. by rewrite !length_fmap in H. Qed.

Lemma succeeded_app d a c d2 a2 :
  accounted_for d a c → succeeded (d ++ d2) (a ++ a2) = succeeded d a ++ succeeded d2 a2.
Proof.
  intros H%accounted_length. unfold succeeded. by rewrite zip_with_app, concat_app by done.
Qed.

Lemma accounted_fail d a c d2 a2 :
  accounted_for d a c → fst <$> a2 = q_id <$> d2 → Forall (λ x : Answer, is_ok (snd x) = false) a2 →
  accounted_for (d ++ d2) (a ++ a2) c.
Proof.
  intros Hs H2 Hf. split; [rewrite !fmap_app, H2; by rewrite (proj1 Hs)|].
  rewrite (succeeded_app _ _ _ _ _ Hs), (proj2 Hs).
  assert (Hd : succeeded d2 a2 = []); [|by rewrite Hd, app_nil_r]. clear -Hf.
  unfold succeeded. revert d2. induction Hf as [|x a2 Hx _ IH]; intros [|q d2]; cbn; try done.
  rewrite Hx. apply IH.
Qed.

Lemma whole_writes_snoc cs bs cut : whole_writes (cs ++ [mkConn bs cut]) = whole_writes cs ++ concat bs.
Proof. unfold whole_writes. rewrite fmap_app, concat_app. cbn. by rewrite app_nil_r, concat_app. Qed.

Lemma accounted_ok d a cs bs batch :
  accounted_for d a (cs ++ [mkConn bs None]) →
  accounted_for (d ++ batch) (a ++ ((λ q, (q_id q, Ok tt)) <$> batch)) (cs ++ [mkConn (bs ++ [batch]) None]).
Proof.
  intros Hs. split; [rewrite !fmap_app, (proj1 Hs); f_equal; by rewrite <- list_fmap_compose|].
  rewrite (succeeded_app _ _ _ _ _ Hs), <- (proj2 Hs), !whole_writes_snoc, concat_app, <- app_assoc. do 2 f_equal.
  cbn. rewrite app_nil_r. unfold succeeded. induction batch as [|q b IH]; cbn; [done|]. by rewrite IH at 1.
Qed.

Lemma append_last_snoc wire s bs : append_last (wire ++ [s]) bs = wire ++ [s ++ bs].
Proof.
  induction wire as [|x wire IH]; [done|]. cbn [app append_last]. rewrite IH. by destruct wire.
Qed.

Lemma fail_all_ids err l :
  fst <$> fail_all err l = q_id <$> l ∧ Forall (λ x : Answer, is_ok (snd x) = false) (fail_all err l).
Proof.
  destruct l as [|q l]; [split; [done|constructor]|]. cbn. split.
  - f_equal. by rewrite <- list_fmap_compose.
  - constructor; [done|]. apply Forall_fmap, Forall_true. done.
Qed.

(** Which phases have a stream, and that it is the last connection. *)
Definition stream_ok (w : Worker) (conns : list Conn) : Prop :=
  match wk_phase w with
  | PFirst | PPark | PConnect _ => wk_stream w = false
  | PGate _ => wk_stream w = true → ready conns
  | PCoalesce _ | PWrite _ _ | PHold => wk_stream w = true ∧ ready conns
  | PReconnect _ _ | PExit => True
  end.

Record worker_inv (w : Worker) (arrivals done_ : list QueuedWrite) (conns : list Conn) : Prop := {
  wi_accounted : accounted_for done_ (wk_answers w) conns;
  wi_wire : wk_wire w = conn_bytes <$> conns;
  wi_cuts : cuts_ok arrivals conns;
  wi_stream : stream_ok w conns;
  wi_arrivals : arrivals = done_ ++ in_hand (wk_phase w) ++ wk_queue w;
  wi_exit : wk_phase w = PExit → wk_queue w = [];
}.
Definition worker_ok (w : Worker) (arrivals : list QueuedWrite) : Prop := ∃ d c, worker_inv w arrivals d c.

(** Exiting settles the queue; a failure settles what is in hand first. *)
Lemma exit_inv w d c arrivals :
  accounted_for d (wk_answers w) c → wk_wire w = conn_bytes <$> c → cuts_ok arrivals c →
  arrivals = d ++ wk_queue w → worker_ok (worker_exit w) arrivals.
Proof.
  intros Hs Hw Hc ->. exists (d ++ wk_queue w), c. split; try done; [|cbn; by rewrite app_nil_r].
  cbn. apply accounted_fail; [done|by rewrite <- list_fmap_compose|]. apply Forall_fmap, Forall_true. done.
Qed.

Lemma fail_exit_inv w d c err batch arrivals :
  accounted_for d (wk_answers w) c → wk_wire w = conn_bytes <$> c → cuts_ok arrivals c →
  arrivals = d ++ batch ++ wk_queue w → worker_ok (worker_exit (answer w (fail_all err batch))) arrivals.
Proof.
  intros Hs Hw Hc Ha. apply (exit_inv _ (d ++ batch) c); [|done|done|cbn; by rewrite <- app_assoc].
  cbn. destruct (fail_all_ids err batch). by apply accounted_fail.
Qed.

Lemma fail_drained_inv w d c err p arrivals :
  accounted_for d (wk_answers w) c → wk_wire w = conn_bytes <$> c → cuts_ok arrivals c →
  arrivals = d ++ [p] ++ wk_queue w → worker_ok (fail_drained w err p) arrivals.
Proof.
  intros Hs Hw Hc Ha. apply (exit_inv _ (d ++ p :: wk_queue w) c); [|done|done|cbn; by rewrite app_nil_r].
  cbn [with_queue answer wk_answers wk_wire]. destruct (fail_all_ids err (p :: wk_queue w)). by apply accounted_fail.
Qed.

(** Receiving: from the loop's waits, with or without a stream. *)
Lemma recv_inv w arrivals d c :
  in_hand (wk_phase w) = [] → wk_phase w ≠ PExit → worker_inv w arrivals d c →
  (wk_stream w = true → ready c) → worker_ok (recv w) arrivals.
Proof.
  intros Hh Hx [H1 H2 H3 H4 H5 H6] Hr. unfold recv. rewrite Hh in H5. destruct (wk_queue w) as [|q queue] eqn:E.
  - destruct (wk_closed w); [by apply (exit_inv _ d c); [..|rewrite E]|]. exists d, c. split; try done. by rewrite Hh, E.
  - exists d, c. split; done.
Qed.

Lemma take_batch_app budget n queue : (take_batch budget n queue).1 ++ (take_batch budget n queue).2 = queue.
Proof.
  revert n. induction queue as [|w rest IH]; intros n; cbn; [done|]. destruct (n <? budget); [|done].
  specialize (IH (n + len (q_bytes w))). destruct (take_batch _ _ rest). cbn in *. by rewrite IH.
Qed.

(** A new connection has carried nothing. *)
Lemma new_conn d a c arrivals wire :
  accounted_for d a c → wire = conn_bytes <$> c → cuts_ok arrivals c →
  let c' := c ++ [mkConn [] None] in
  accounted_for d a c' ∧ wire ++ [[]] = conn_bytes <$> c' ∧ cuts_ok arrivals c' ∧ ready c'.
Proof.
  intros [H1 H2] -> Hc c'. unfold c'. split_and!.
  - split; [done|]. rewrite whole_writes_snoc. cbn. by rewrite app_nil_r.
  - by rewrite fmap_app.
  - apply Forall_app. split; [done|]. by repeat constructor.
  - by exists c, [].
Qed.

(** A write that fails cuts the connection. *)
Lemma cut_conn d a c arrivals wire b n before after_ :
  accounted_for d a c → wire = conn_bytes <$> c → cuts_ok arrivals c → ready c → arrivals = before ++ b ++ after_ →
  ∃ c', accounted_for d a c' ∧ append_last wire (cut_payload n b) = conn_bytes <$> c' ∧ cuts_ok arrivals c'.
Proof.
  intros [H1 H2] -> Hc (cs & bs & ->) Ha. exists (cs ++ [mkConn bs (Some (b, n))]). split_and!.
  - split; [done|]. by rewrite !whole_writes_snoc in *.
  - rewrite !fmap_app. cbn [fmap list_fmap]. rewrite append_last_snoc. do 2 f_equal. unfold conn_bytes. cbn.
    by rewrite app_nil_r.
  - apply Forall_app in Hc as [Hc _]. apply Forall_app. split; [done|]. apply Forall_singleton.
    intros b' n' [= <- <-]. eauto.
Qed.

Lemma write_inv w arrivals d c batch n :
  worker_inv w arrivals d c → wk_phase w = PWrite batch n → 
  worker_ok (to_phase (answer (on_wire w (batch_payload batch)) ((λ q, (q_id q, Ok tt)) <$> batch)) PHold) arrivals.
Proof.
  intros [H1 H2 H3 H4 H5 H6] E. unfold stream_ok in H4. rewrite E in H4, H5. destruct H4 as [Hs (cs & bs & ->)].
  exists (d ++ batch), (cs ++ [mkConn (bs ++ [batch]) None]). split; cbn.
  - by apply accounted_ok.
  - rewrite H2, !fmap_app. cbn [fmap list_fmap]. rewrite append_last_snoc. do 2 f_equal. unfold conn_bytes. cbn.
    rewrite !app_nil_r, fmap_app, concat_app. cbn. by rewrite app_nil_r.
  - apply Forall_app in H3 as [H3 _]. apply Forall_app. split; [done|]. by repeat constructor.
  - split; [done|]. by exists cs, (bs ++ [batch]).
  - by rewrite H5, <- app_assoc.
  - done.
Qed.

Lemma step_inv dest w x arrivals : worker_ok w arrivals → worker_ok (worker_step dest w x) arrivals.
Proof.
  intros (d & c & Hi). pose proof Hi as [H1 H2 H3 H4 H5 H6]. unfold worker_step. unfold stream_ok in H4.
  destruct (wk_phase w) as [|p|p|p|batch r|batch r| | |] eqn:E; cbn [in_hand] in H5.
  - apply (recv_inv _ _ d c); rewrite ?E; try done. by rewrite H4.
  - destruct (_ || _); [by apply (fail_drained_inv _ d c)|]. exists d, c. destruct (wk_stream w) eqn:Es; split; try done.
    split; [done|by apply H4].
  - destruct (en_connect x) as [[]|e].
    + destruct (new_conn d _ c arrivals _ H1 H2 H3) as (? & ? & ? & ?). eexists d, _. split; done.
    + destruct (_ >=? _); [by apply (fail_drained_inv _ d c)|]. exists d, c.
      split; cbn [with_fails wk_phase wk_queue wk_answers wk_wire]; unfold stream_ok; cbn; rewrite ?E; done.
  - unfold coalesce. pose proof (take_batch_app (en_budget x) (len (q_bytes p)) (wk_queue w)) as Hb.
    destruct (take_batch _ _ _) as [b q]. exists d, c. split; cbn in *; try done. by rewrite H5, <- Hb.
  - destruct (en_write x) as [[e n]|]; [|by eapply write_inv].
    destruct H4 as [Hs Hr]. destruct (cut_conn d _ c arrivals _ batch n d (wk_queue w) H1 H2 H3 Hr H5) as (c' & K1 & K2 & K3).
    destruct (_ >=? _); [by apply (fail_exit_inv _ d c')|]. exists d, c'. split; done.
  - destruct (en_connect x) as [[]|e]; [|by apply (fail_exit_inv _ d c)].
    destruct (new_conn d _ c arrivals _ H1 H2 H3) as (? & ? & ? & ?). eexists d, _. split; done.
  - destruct H4 as [Hs Hr]. assert (Hrecv : worker_ok (recv w) arrivals) by (apply (recv_inv _ _ d c); rewrite ?E; done).
    destruct (en_hold x); [done| |by exists d, c].
    destruct (wk_queue w) as [|q queue] eqn:Eq; [destruct (wk_closed w); [done|]|done].
    exists d, c. split; cbn; rewrite ?Eq; done.
  - apply (recv_inv _ _ d c); rewrite ?E; try done. by rewrite H4.
  - by exists d, c.
Qed.

Lemma cuts_grow arrivals more c : cuts_ok arrivals c → cuts_ok (arrivals ++ more) c.
Proof.
  intros H. eapply Forall_impl; [exact H|]. intros cn Hc b n (x & y & ->)%Hc. exists x, (y ++ more).
  by rewrite <- !app_assoc.
Qed.

Lemma event_inv dest w ev arrivals :
  worker_ok w arrivals → worker_ok (worker_event dest w ev) (arrivals ++ option_list (arrival ev)).
Proof.
  intros Hi. destruct ev as [q| |x]; cbn [worker_event arrival option_list]; rewrite ?app_nil_r.
  - destruct Hi as (d & c & [H1 H2 H3 H4 H5 H6]). unfold worker_arrive. apply (cuts_grow _ [q]) in H3.
    destruct (wk_phase w) eqn:E; unfold stream_ok in H4; rewrite E in H4;
      try (exists d, c; split; unfold stream_ok; cbn; rewrite ?E; try done;
           rewrite H5; cbn [in_hand]; by rewrite <- !app_assoc).
    exists (d ++ [q]), c. split; unfold stream_ok; cbn; rewrite ?E; try done.
    + apply accounted_fail; [done|done|]. by repeat constructor.
    + rewrite H5, H6 by done. cbn. by rewrite !app_nil_r.
  - destruct Hi as (d & c & [H1 H2 H3 H4 H5 H6]). by exists d, c.
  - by apply step_inv.
Qed.

Lemma run_inv dest evs w arrivals :
  worker_ok w arrivals → worker_ok (worker_run dest w evs) (arrivals ++ omap arrival evs).
Proof.
  revert w arrivals. induction evs as [|ev evs IH]; intros w arrivals Hi; [cbn; by rewrite app_nil_r|].
  cbn [worker_run foldl]. apply (event_inv dest _ ev) in Hi. apply IH in Hi. cbn.
  rewrite <- app_assoc in Hi. by destruct (arrival ev).
Qed.

(** C21: The worker of a destination answers every write it was handed
    exactly once and in order, whatever the flags, the connects, the writes
    and the arrivals do: the answers so far belong to the first writes handed
    over and the rest is in hand or queued; once the worker has exited, every
    write was answered. On the wire, each connection carries whole batches
    and ends, when a write on it failed, in a part of the batch that failed,
    a run of consecutive writes (a retry writes the batch again from its
    start on a new connection, so bytes can be sent twice); the writes of the
    whole batches, over the connections in order, are exactly the writes
    answered with success, in order and each once. *)
Theorem writes_answered_in_order dest evs :
  let w := worker_run dest worker_new evs in
  ∃ done_ conns,
    omap arrival evs = done_ ++ in_hand (wk_phase w) ++ wk_queue w
    ∧ fst <$> wk_answers w = q_id <$> done_
    ∧ wk_wire w = conn_bytes <$> conns
    ∧ whole_writes conns = succeeded done_ (wk_answers w)
    ∧ cuts_ok (omap arrival evs) conns
    ∧ (wk_phase w = PExit → omap arrival evs = done_).
Proof.
  assert (Hi : worker_ok worker_new []) by (by exists [], []; repeat constructor).
  apply (run_inv dest evs) in Hi as (d & c & [[H1 H1'] H2 H3 H4 H5 H6]). exists d, c. split_and!; [done..|].
  intros He. rewrite He, (H6 He) in H5. by rewrite !app_nil_r in H5.
Qed.

(** ** A write in hand is answered within a bounded number of steps *)

(** The gate, eight connects, the coalescing, three writes and the two
    reconnects between them. *)
Definition MAX_STEPS : nat := 15.
Definition steps_left (w : Worker) : Z :=
  match wk_phase w with
  | PGate _ => 15
  | PConnect _ => 6 + (MAX_CONNECT_FAILS - wk_connect_fails w)
  | PCoalesce _ => 6
  | PWrite _ r => 2 * (MAX_WRITE_RETRIES - r) - 1
  | PReconnect _ r => 2 * (MAX_WRITE_RETRIES - r)
  | _ => 0
  end.
Definition counts_ok (w : Worker) : Prop :=
  0 ≤ wk_connect_fails w < MAX_CONNECT_FAILS + 1
  ∧ (wk_phase w ≠ PExit → wk_connect_fails w < MAX_CONNECT_FAILS)
  ∧ match wk_phase w with
    | PWrite _ r => 0 ≤ r < MAX_WRITE_RETRIES
    | PReconnect _ r => 0 < r < MAX_WRITE_RETRIES
    | _ => True
    end.

Lemma recv_counts w : counts_ok w → wk_phase w ≠ PExit → counts_ok (recv w).
Proof.
  intros (H1 & H2 & H3) Hx. unfold recv. destruct (wk_queue w); [|unfold counts_ok; cbn; auto].
  by destruct (wk_closed w).
Qed.

Lemma event_counts dest w ev : counts_ok w → counts_ok (worker_event dest w ev).
Proof.
  intros Hc. pose proof Hc as (H1 & H2 & H3). destruct ev as [q| |x]; cbn [worker_event].
  - unfold worker_arrive. destruct (wk_phase w) eqn:E; unfold counts_ok; cbn; rewrite E; auto.
  - done.
  - unfold worker_step. destruct (wk_phase w) as [|p|p|p|b r|b r| | |] eqn:E; try specialize (H2 ltac:(done)).
    1, 8: apply recv_counts; [done|congruence].
    + destruct (_ || _); [done|]. unfold counts_ok. cbn. destruct (wk_stream w); auto.
    + destruct (en_connect x) as [[]|e]; [unfold counts_ok, MAX_CONNECT_FAILS; cbn; lia|].
      destruct (Z.geb_spec (wk_connect_fails w + 1) MAX_CONNECT_FAILS);
        unfold counts_ok; cbn; rewrite ?E; split_and!; intros; try done; lia.
    + destruct (coalesce _ _ _). unfold counts_ok. cbn. unfold MAX_WRITE_RETRIES. split_and!; auto; lia.
    + destruct (en_write x) as [[e n]|]; [|unfold counts_ok; cbn; auto].
      destruct (Z.geb_spec (r + 1) MAX_WRITE_RETRIES); [done|]. unfold counts_ok; cbn. split_and!; auto; lia.
    + destruct (en_connect x) as [[]|e]; unfold counts_ok; cbn; [|done]. split_and!; auto; lia.
    + destruct (en_hold x); [apply recv_counts; congruence| |unfold counts_ok; cbn; auto].
      destruct (wk_queue w); [destruct (wk_closed w)|]; try (apply recv_counts; congruence).
      unfold counts_ok; cbn; auto.
    + done.
Qed.

Lemma run_counts dest evs w : counts_ok w → counts_ok (worker_run dest w evs).
Proof.
  revert w. induction evs as [|ev evs IH]; intros w Hc; [done|]. cbn. by apply IH, event_counts.
Qed.

Definition answered (w : Worker) (q : QueuedWrite) : Prop := q_id q ∈ fst <$> wk_answers w.

Lemma event_answered dest w ev q : answered w q → answered (worker_event dest w ev) q.
Proof.
  unfold answered. intros H.
  assert (Hp : ∃ l, wk_answers (worker_event dest w ev) = wk_answers w ++ l);
    [|destruct Hp as [l ->]; rewrite fmap_app; apply elem_of_app; by left].
  assert (Hr : ∀ w0, wk_answers w0 = wk_answers w → ∃ l, wk_answers (recv w0) = wk_answers w ++ l).
  { intros w0 H0. unfold recv. destruct (wk_queue w0); [destruct (wk_closed w0)|]; cbn; rewrite H0; [by eexists|..];
      exists []; by rewrite app_nil_r. }
  assert (Hn : ∃ l, wk_answers w = wk_answers w ++ l) by (exists []; by rewrite app_nil_r).
  destruct ev as [q'| |x]; cbn [worker_event]; [|done|].
  { unfold worker_arrive. destruct (wk_phase w); cbn; eauto. }
  unfold worker_step. destruct (wk_phase w); try (by apply Hr); try done.
  - destruct (_ || _); [cbn; by rewrite <- app_assoc; eexists|done].
  - destruct (en_connect x) as [[]|]; [done|]. destruct (_ >=? _); [cbn; by rewrite <- app_assoc; eexists|done].
  - by destruct (coalesce _ _ _).
  - destruct (en_write x) as [[]|]; [|by eexists]. destruct (_ >=? _); [cbn; by rewrite <- app_assoc; eexists|done].
  - destruct (en_connect x) as [[]|]; [done|]. cbn; by rewrite <- app_assoc; eexists.
  - destruct (en_hold x); [by apply Hr| |done].
    destruct (wk_queue w); [destruct (wk_closed w)|]; try (by apply Hr). done.
Qed.

Lemma run_answered dest evs w q : answered w q → answered (worker_run dest w evs) q.
Proof. revert w. induction evs as [|ev evs IH]; intros w Ha; [done|]. cbn. by apply IH, event_answered. Qed.

Lemma fail_answers w err l tail_ q :
  q ∈ l → q_id q ∈ fst <$> ((wk_answers w ++ fail_all err l) ++ tail_).
Proof.
  intros Hq. rewrite !fmap_app. apply elem_of_app. left. apply elem_of_app. right.
  rewrite (proj1 (fail_all_ids err l)). by apply list_elem_of_fmap_2.
Qed.

Lemma step_progress dest w x :
  counts_ok w → in_hand (wk_phase w) ≠ [] →
  let w' := worker_step dest w x in
  (∀ q, q ∈ in_hand (wk_phase w) → answered w' q)
  ∨ (in_hand (wk_phase w) ⊆ in_hand (wk_phase w') ∧ steps_left w' < steps_left w).
Proof.
  intros (H1 & H2 & H3) Hh. unfold worker_step, steps_left, answered, MAX_CONNECT_FAILS, MAX_WRITE_RETRIES in *.
  destruct (wk_phase w) as [|p|p|p|b r|b r| | |] eqn:E; try done; cbn [in_hand] in *.
  - destruct (_ || _).
    + left. intros q ->%list_elem_of_singleton. apply (fail_answers w _ (p :: wk_queue w)). by left.
    + right. destruct (wk_stream w); cbn; (split; [done|lia]).
  - specialize (H2 ltac:(done)). destruct (en_connect x) as [[]|e]; [right; cbn; split; [done|lia]|].
    destruct (_ >=? 8).
    + left. intros q ->%list_elem_of_singleton. apply (fail_answers w _ (p :: wk_queue w)). by left.
    + right. cbn. rewrite E. cbn. split; [done|lia].
  - right. unfold coalesce. destruct (take_batch _ _ _). cbn. split; [set_solver|lia].
  - destruct (en_write x) as [[e n]|].
    + destruct (_ >=? 3); [left|right; cbn; split; [done|lia]]. intros q Hq. by apply (fail_answers w _ b).
    + left. intros q Hq. cbn. rewrite fmap_app. apply elem_of_app. right. rewrite <- list_fmap_compose.
      by apply (list_elem_of_fmap_2 q_id).
  - destruct (en_connect x) as [[]|e]; [right; cbn; split; [done|lia]|].
    left. intros q Hq. by apply (fail_answers w _ b).
Qed.

(** Arrivals and the closing of the channel leave the worker where it is. *)
Definition is_step (ev : WorkerEvent) : bool := match ev with EvStep _ => true | _ => false end.
Lemma not_step_phase dest w ev :
  is_step ev = false →
  wk_phase (worker_event dest w ev) = wk_phase w ∧ wk_connect_fails (worker_event dest w ev) = wk_connect_fails w.
Proof. destruct ev as [q| |x]; [|done..]. intros _. cbn. unfold worker_arrive. by destruct (wk_phase w) eqn:E; cbn. Qed.

Definition steps_in (evs : list WorkerEvent) : nat := length (filter (λ ev, is_step ev = true) evs).

Lemma steps_answer dest evs w q :
  counts_ok w → steps_left w ≤ Z.of_nat (steps_in evs) → q ∈ in_hand (wk_phase w) →
  answered (worker_run dest w evs) q.
Proof.
  revert w. induction evs as [|ev evs IH]; intros w Hc Hl Hq; cbn [worker_run foldl].
  - exfalso. destruct Hc as (H1 & H2 & H3). revert Hl Hq.
    unfold steps_left, MAX_CONNECT_FAILS, MAX_WRITE_RETRIES in *. cbn.
    destruct (wk_phase w); cbn [in_hand]; try lia; intros _ []%not_elem_of_nil.
  - pose proof (event_counts dest w ev Hc) as Hc'. unfold steps_in in Hl. rewrite filter_cons in Hl.
    destruct (decide (is_step ev = true)) as [He|He].
    + destruct ev as [| |x]; try done.
      destruct (step_progress dest w x Hc) as [Ha|[Hs Hm]]; [by intros Hn; rewrite Hn in Hq; apply not_elem_of_nil in Hq| |].
      * by apply run_answered, Ha.
      * apply IH; [done| |set_solver]. unfold steps_in. cbn [length worker_event] in *. lia.
    + apply not_true_is_false in He. destruct (not_step_phase dest w ev He) as [Hp Hf].
      apply IH; [done| |by rewrite Hp]. unfold steps_left in *. rewrite Hp, Hf. done.
Qed.

(** ** How often it connects and writes *)

Definition at_connect (p : Phase) : bool := match p with PConnect _ => true | _ => false end.
Definition at_reconnect (p : Phase) : bool := match p with PReconnect _ _ => true | _ => false end.
Definition at_write (p : Phase) : bool := match p with PWrite _ _ => true | _ => false end.

(** The steps taken in the phases [at_] while something is in hand. *)
Fixpoint attempts (at_ : Phase → bool) (dest : string) (w : Worker) (evs : list WorkerEvent) : Z :=
  match evs with
  | [] => 0
  | ev :: evs =>
      match in_hand (wk_phase w) with
      | [] => 0
      | _ => (if is_step ev && at_ (wk_phase w) then 1 else 0) + attempts at_ dest (worker_event dest w ev) evs
      end
  end.

Lemma attempts_bound (at_ : Phase → bool) (m : Phase → Z → Z) dest evs w :
  (∀ w, counts_ok w → 0 ≤ m (wk_phase w) (wk_connect_fails w)) →
  (∀ w x, counts_ok w → in_hand (wk_phase w) ≠ [] →
     let w' := worker_step dest w x in
     (if at_ (wk_phase w) then 1 else 0) + m (wk_phase w') (wk_connect_fails w') ≤ m (wk_phase w) (wk_connect_fails w)) →
  counts_ok w → attempts at_ dest w evs ≤ m (wk_phase w) (wk_connect_fails w).
Proof.
  intros Hpos Hdec. revert w. induction evs as [|ev evs IH]; intros w Hc; cbn [attempts]; [by apply Hpos|].
  destruct (in_hand (wk_phase w)) eqn:Eh; [by apply Hpos|].
  specialize (IH (worker_event dest w ev) (event_counts dest w ev Hc)).
  destruct (is_step ev) eqn:Es; cbn [andb].
  - destruct ev as [| |x]; try done. specialize (Hdec w x Hc). cbn [worker_event] in *.
    specialize (Hdec ltac:(by rewrite Eh)). cbn zeta in Hdec. lia.
  - destruct (not_step_phase dest w ev Es) as [Hp Hf]. rewrite Hp, Hf in IH. lia.
Qed.

(** What each phase still allows. *)
Definition connects_left (p : Phase) (fails : Z) : Z :=
  match p with PGate _ | PConnect _ => MAX_CONNECT_FAILS - fails | _ => 0 end.
Definition writes_left (p : Phase) (_ : Z) : Z :=
  match p with
  | PGate _ | PConnect _ | PCoalesce _ => MAX_WRITE_RETRIES
  | PWrite _ r | PReconnect _ r => MAX_WRITE_RETRIES - r
  | _ => 0
  end.
Definition reconnects_left (p : Phase) (_ : Z) : Z :=
  match p with
  | PGate _ | PConnect _ | PCoalesce _ => MAX_WRITE_RETRIES - 1
  | PWrite _ r => MAX_WRITE_RETRIES - 1 - r
  | PReconnect _ r => MAX_WRITE_RETRIES - r
  | _ => 0
  end.

(** The cases of a step from a phase that has writes in hand. *)
Ltac step_cases w x :=
  intros (H1 & H2 & H3) Hh; cbv zeta; unfold worker_step;
  destruct (wk_phase w) as [|p|p|p|b r|b r| | |] eqn:E; try done; specialize (H2 ltac:(done));
  [ destruct (_ || _); [|destruct (wk_stream w)]
  | destruct (en_connect x) as [[]|e];
    [|destruct (Z.geb_spec (wk_connect_fails w + 1) MAX_CONNECT_FAILS)]
  | unfold coalesce; destruct (take_batch _ _ _)
  | destruct (en_write x) as [[e n]|]; [destruct (Z.geb_spec (r + 1) MAX_WRITE_RETRIES)|]
  | destruct (en_connect x) as [[]|e] ];
  cbn; rewrite ?E; cbn; unfold MAX_CONNECT_FAILS, MAX_WRITE_RETRIES in *; lia.

Lemma left_pos w :
  counts_ok w → 0 ≤ connects_left (wk_phase w) (wk_connect_fails w)
    ∧ 0 ≤ writes_left (wk_phase w) (wk_connect_fails w) ∧ 0 ≤ reconnects_left (wk_phase w) (wk_connect_fails w).
Proof.
  intros (H1 & H2 & H3). unfold connects_left, writes_left, reconnects_left, MAX_CONNECT_FAILS, MAX_WRITE_RETRIES in *.
  destruct (wk_phase w); lia.
Qed.

Lemma connects_step dest w x :
  counts_ok w → in_hand (wk_phase w) ≠ [] → let w' := worker_step dest w x in
  (if at_connect (wk_phase w) then 1 else 0) + connects_left (wk_phase w') (wk_connect_fails w')
  ≤ connects_left (wk_phase w) (wk_connect_fails w).
Proof. step_cases w x. Qed.
Lemma writes_step dest w x :
  counts_ok w → in_hand (wk_phase w) ≠ [] → let w' := worker_step dest w x in
  (if at_write (wk_phase w) then 1 else 0) + writes_left (wk_phase w') (wk_connect_fails w')
  ≤ writes_left (wk_phase w) (wk_connect_fails w).
Proof. step_cases w x. Qed.
Lemma reconnects_step dest w x :
  counts_ok w → in_hand (wk_phase w) ≠ [] → let w' := worker_step dest w x in
  (if at_reconnect (wk_phase w) then 1 else 0) + reconnects_left (wk_phase w') (wk_connect_fails w')
  ≤ reconnects_left (wk_phase w) (wk_connect_fails w).
Proof. step_cases w x. Qed.

(** C22: For a write a worker has taken in hand, and until it has nothing in
    hand any more, the worker makes at most eight attempts to connect, three
    attempts to write and two reconnects between them, whatever its steps
    find and whatever else arrives meanwhile; the write is answered, with
    success or a failure, by the fifteenth step: no failure makes a caller
    wait for ever. *)
Theorem write_answered_within_bound dest evs q :
  let w := worker_run dest worker_new evs in
  q ∈ in_hand (wk_phase w) →
  ∀ evs', attempts at_connect dest w evs' ≤ 8 ∧ attempts at_write dest w evs' ≤ 3
    ∧ attempts at_reconnect dest w evs' ≤ 2
    ∧ ((MAX_STEPS ≤ steps_in evs')%nat → answered (worker_run dest w evs') q).
Proof.
  intros w Hq evs'. assert (Hc : counts_ok w) by (apply run_counts; by unfold counts_ok, MAX_CONNECT_FAILS).
  pose proof Hc as (H1 & H2 & H3). split_and!.
  - etrans; [apply (attempts_bound _ connects_left); [apply left_pos|apply connects_step|done]|].
    unfold connects_left, MAX_CONNECT_FAILS in *. destruct (wk_phase w); lia.
  - etrans; [apply (attempts_bound _ writes_left); [apply left_pos|apply writes_step|done]|].
    unfold writes_left, MAX_WRITE_RETRIES in *. destruct (wk_phase w); lia.
  - etrans; [apply (attempts_bound _ reconnects_left); [apply left_pos|apply reconnects_step|done]|].
    unfold reconnects_left, MAX_WRITE_RETRIES in *. destruct (wk_phase w); lia.
  - intros Hl. apply steps_answer; [done| |done].
    unfold steps_left, MAX_STEPS, MAX_CONNECT_FAILS, MAX_WRITE_RETRIES in *. destruct (wk_phase w); lia.
Qed.

Definition demo_write : QueuedWrite := mkQueued 1 [zb 9].
Definition env_down : StepEnv := mkEnv false true (Err Offline) WRITE_COALESCE_MIN None HoldWait.

(** Against a proxy that is down all eight connects are made. *)
Lemma write_answered_within_bound_witness :
  let w := worker_run "d" worker_new [EvArrive demo_write; EvStep env_down] in
  let evs' := EvStep <$> replicate MAX_STEPS env_down in
  attempts at_connect "d" w evs' = 8
  ∧ attempts at_connect "d" w evs' ≤ 8 ∧ answered (worker_run "d" w evs') demo_write.
Proof.
  intros w evs'.
  destruct (write_answered_within_bound "d" [EvArrive demo_write; EvStep env_down] demo_write ltac:(by left) evs')
    as (H1 & _ & _ & H2).
  split; [reflexivity|]. split; [exact H1|]. apply H2. vm_compute. lia.
Defined.

(** A write that fails after one byte is sent again whole on a new
    connection: the peer has seen that byte twice. *)
Example write_cut_and_resent :
  let cut := mkEnv false true (Ok tt) WRITE_COALESCE_MIN (Some (Lit "EPIPE", 1%nat)) HoldWait in
  let up := mkEnv false true (Ok tt) WRITE_COALESCE_MIN None HoldWait in
  let w := worker_run "d" worker_new
             (EvArrive (mkQueued 1 [zb 9; zb 8]) :: (EvStep <$> replicate 4 up ++ [cut; up; up])) in
  wk_wire w = [[zb 9]; [zb 9; zb 8]] ∧ wk_answers w = [(1, Ok tt)].
Proof. split; reflexivity. Qed.

(** The flags are looked at only at the head of the loop: a write whose
    connect is under way when the kill switch goes on still goes out. *)
Definition env_killed : StepEnv := mkEnv true false (Ok tt) WRITE_COALESCE_MIN None HoldWait.
Example kill_switch_while_connecting :
  wk_wire (worker_run "d" worker_new
             ([EvArrive demo_write; EvStep env_down; EvStep env_down; EvStep env_down]
              ++ (EvStep <$> replicate 3 env_killed))) = [[zb 9]].
Proof. reflexivity. Qed.

(** ** The table of workers and [send] *)

(** [sd_dests] is the table of the workers that take new writes, by
    destination; [sd_workers] are the tasks that have not exited, each with
    its destination. *)
Record Sender := mkSender {
  sd_kill : bool;
  sd_online : bool;
  sd_dests : gmap bytes Z;
  sd_workers : gmap Z bytes;
  sd_next : Z;
}.
Definition sender_new (kill online : bool) : Sender := mkSender kill online ∅ ∅ 0.
Definition dest_count (s : Sender) : Z := Z.of_nat (size (sd_dests s)).

Section Pool.
(** [dests.keys().next()] of the hash map: some key of it. *)
Context (first_key : gmap bytes Z → option bytes).
Context (normalize : bytes → result TransportError bytes).

Definition evict_if_full (dests : gmap bytes Z) : gmap bytes Z :=
  if Z.of_nat (size dests) >=? MAX_LIVE_SESSIONS
  then match first_key dests with Some key => delete key dests | None => dests end
  else dests.

(** [send] up to the hand-over: the worker the write is queued to. *)
Definition sender_route (s : Sender) (dest : bytes) : Sender * result TransportError Z :=
  if sd_kill s then (s, Err KillSwitch)
  else if negb (sd_online s) then (s, Err Offline)
  else
    match normalize dest with
    | Err e => (s, Err e)
    | Ok dest =>
        match sd_dests s !! dest with
        | Some id => (s, Ok id)
        | None =>
            let dests := evict_if_full (sd_dests s) in
            (mkSender (sd_kill s) (sd_online s) (<[dest := sd_next s]> dests)
               (<[sd_next s := dest]> (sd_workers s)) (sd_next s + 1),
             Ok (sd_next s))
        end
    end.

(** A worker exits: it removes the entry of its destination. *)
Definition sender_exit (s : Sender) (id : Z) : Sender :=
  match sd_workers s !! id with
  | Some dest =>
      mkSender (sd_kill s) (sd_online s) (delete dest (sd_dests s)) (delete id (sd_workers s)) (sd_next s)
  | None => s
  end.

Inductive PoolEvent := PoolSend (dest : bytes) | PoolExit (id : Z).
Definition pool_step (s : Sender) (ev : PoolEvent) : Sender :=
  match ev with
  | PoolSend dest => fst (sender_route s dest)
  | PoolExit id => sender_exit s id
  end.
Definition pool_run (s : Sender) (evs : list PoolEvent) : Sender := foldl pool_step s evs.

(** ** The table is bounded and its workers are live *)

Definition pool_inv (s : Sender) : Prop :=
  dest_count s ≤ MAX_LIVE_SESSIONS
  ∧ (∀ dest id, sd_dests s !! dest = Some id → sd_workers s !! id = Some dest)
  ∧ (∀ id dest, sd_workers s !! id = Some dest → 0 ≤ id < sd_next s)
  ∧ 0 ≤ sd_next s.

Context (first_key_some : ∀ m, m ≠ ∅ → ∃ k, first_key m = Some k ∧ is_Some (m !! k)).

Lemma evict_bound dests :
  Z.of_nat (size dests) ≤ MAX_LIVE_SESSIONS → Z.of_nat (size (evict_if_full dests)) < MAX_LIVE_SESSIONS.
Proof.
  intros H. unfold evict_if_full. destruct (Z.geb_spec (Z.of_nat (size dests)) MAX_LIVE_SESSIONS); [|lia].
  destruct (first_key_some dests) as (k & -> & [id Hk]).
  - intros ->. rewrite map_size_empty in *. unfold MAX_LIVE_SESSIONS in *. lia.
  - rewrite map_size_delete, Hk. unfold MAX_LIVE_SESSIONS in *. lia.
Qed.

Lemma evict_lookup dests dest id : evict_if_full dests !! dest = Some id → dests !! dest = Some id.
Proof.
  unfold evict_if_full. case_match; [|done]. case_match; [|done]. by intros [_ ?]%lookup_delete_Some.
Qed.

Lemma pool_step_inv s ev : pool_inv s → pool_inv (pool_step s ev).
Proof.
  intros (H1 & H2 & H3 & H4). destruct ev as [dest|id]; cbn [pool_step].
  - unfold sender_route. destruct (sd_kill s); [done|]. destruct (negb _); [done|].
    destruct (normalize dest) as [d|]; [|done]. destruct (sd_dests s !! d) eqn:Ed; [done|].
    unfold pool_inv, dest_count. cbn. split_and!; [| | |lia].
    + pose proof (evict_bound _ H1). rewrite map_size_insert_None; [lia|].
      destruct (evict_if_full _ !! d) eqn:E; [|done]. apply evict_lookup in E. congruence.
    + intros d' id [[-> ->]|[Hne Hd]]%lookup_insert_Some; [by rewrite lookup_insert_eq|].
      apply evict_lookup, H2 in Hd. rewrite lookup_insert_ne; [done|]. intros <-. specialize (H3 _ _ Hd). lia.
    + intros id d' [[<- _]|[_ Hd]]%lookup_insert_Some; [lia|]. specialize (H3 _ _ Hd). lia.
  - unfold sender_exit. destruct (sd_workers s !! id) as [dest|] eqn:E; [|done].
    unfold pool_inv, dest_count in *. cbn. split_and!; [| | |done].
    + rewrite map_size_delete. destruct (_ !! dest); cbn; lia.
    + intros d i [Hne Hd]%lookup_delete_Some. apply H2 in Hd. rewrite lookup_delete_ne; [done|].
      intros <-. congruence.
    + intros i d [_ Hd]%lookup_delete_Some. by eapply H3.
Qed.

(** However sends and worker exits interleave, the table never has more
    than eight destinations, every worker in it is a live one of that very
    destination (so a write is never queued to the worker of another peer),
    and a send refused by the kill switch or offline touches nothing. *)
Theorem pool_bounded kill online evs :
  let s := pool_run (sender_new kill online) evs in
  dest_count s ≤ MAX_LIVE_SESSIONS
  ∧ (∀ dest id, sd_dests s !! dest = Some id → sd_workers s !! id = Some dest)
  ∧ (kill = true ∨ online = false → sd_workers s = ∅).
Proof.
  assert (Hrun : ∀ evs s, pool_inv s → pool_inv (pool_run s evs)).
  { clear evs. intros evs. induction evs as [|ev evs IH]; intros s Hs; [done|]. cbn. by apply IH, pool_step_inv. }
  assert (Hoff : ∀ evs s, (sd_kill s = true ∨ sd_online s = false) → sd_workers s = ∅ →
            sd_workers (pool_run s evs) = ∅).
  { clear evs. intros evs. induction evs as [|ev evs IH]; intros s Hs He; [done|]. cbn. apply IH.
    - destruct ev; cbn; [unfold sender_route|unfold sender_exit; by rewrite He, lookup_empty].
      destruct Hs as [Hs|Hs]; rewrite Hs; cbn; [by left|]. destruct (sd_kill s); cbn; by right.
    - destruct ev; cbn; [unfold sender_route|unfold sender_exit; by rewrite He, lookup_empty].
      destruct Hs as [->| ->]; [done|]. by destruct (sd_kill s). }
  intros s. destruct (Hrun evs (sender_new kill online)) as (H1 & H2 & _).
  { split_and!; cbn; [by vm_compute|by intros ? ? ?%lookup_empty_Some..|lia]. }
  split_and!; [done|done|]. intros Hk. apply Hoff; [done|done].
Qed.
End Pool.

Definition demo_first_key (m : gmap bytes Z) : option bytes := fst <$> head (map_to_list m).

Lemma demo_first_key_some m : m ≠ ∅ → ∃ k, demo_first_key m = Some k ∧ is_Some (m !! k).
Proof.
  intros Hm. unfold demo_first_key. destruct (map_to_list m) as [|[k v] l] eqn:E.
  - by apply map_to_list_empty_iff in E.
  - exists k. split; [done|]. exists v. apply elem_of_map_to_list. rewrite E. by left.
Qed.

Definition demo_sends (n : nat) : list PoolEvent := (λ i, PoolSend [zb (Z.of_nat i)]) <$> seq 0 n.

Lemma pool_bounded_witness :
  let s := pool_run demo_first_key (λ d, Ok d) (sender_new false true) (demo_sends 12) in
  dest_count s ≤ MAX_LIVE_SESSIONS
  ∧ (∀ dest id, sd_dests s !! dest = Some id → sd_workers s !! id = Some dest)
  ∧ (false = true ∨ true = false → sd_workers s = ∅).
Proof. exact (pool_bounded demo_first_key (λ d, Ok d) demo_first_key_some false true (demo_sends 12)). Defined.

(** The bound is on the table, not on the sessions: an evicted worker lives on. *)
Example live_workers_exceed_cap :
  size (sd_workers (pool_run demo_first_key (λ d, Ok d) (sender_new false true) (demo_sends 12))) = 12%nat.
Proof. vm_compute. reflexivity. Qed.
