(* ===== verification/Conn.v ===== *)
(** The inbound path of [core/src/transport/inbound.rs]: the bounded decode
    of one connection with its budgets, the flood gate, the duplicate ring
    and the cap on connections. *)

From S2P Require Import Prelude Bin Limits Frame RateLimit Seen.

Record InboundDrop := mkDrop {
  id_service_id : string;
  id_frame : OpaqueFrame;
  id_first_sight : bool;
}.

(** What a connection shares with the others of its service: the ring, the
    flood bucket, the drop counters, and the sink (the drops sent to it). *)
Record ConnState := mkConnState {
  cn_seen : SeenRing;
  cn_flood : TokenBucket;
  cn_limited : Counters;
  cn_out : list InboundDrop;
}.

Definition frame_cost (f : OpaqueFrame) : Z :=
  len (of_frame f) + from_option len 0 (of_intro f) + 3.

Section Connection.
Context (sha3 : bytes → bytes).
Context (service_id : string).
(** The wall clock at the check of the n-th frame, and whether the sink still
    has a receiver then. *)
Context (clock : Z → Z) (sink_open : Z → bool).
(** Whether the peer, after its last byte, keeps the stream open in silence
    (the read times out) or closes it. *)
Context (silent : bool).

(** One [timeout(read_frame)]: a frame and the rest, the end ([None]: the
    clean end of the stream, or the timeout), or the error. *)
Definition read_next (s : bytes) : result TransportError (option (OpaqueFrame * bytes)) :=
  match read_frame s with
  | Ok (Some f, rest) => Ok (Some (f, rest))
  | Ok (None, _) => Ok None
  | Err IoUnexpectedEof => if silent then Ok None else Err IoUnexpectedEof
  | Err e => Err e
  end.

Definition mark_frame (st : ConnState) (flood : TokenBucket) (f : OpaqueFrame) : ConnState * InboundDrop :=
  let '(ring, dup) := seen_or_mark sha3 (cn_seen st) (of_frame f) in
  (mkConnState ring flood (cn_limited st) (cn_out st), mkDrop service_id f (negb dup)).
Definition send_drop (st : ConnState) (d : InboundDrop) : ConnState :=
  mkConnState (cn_seen st) (cn_flood st) (cn_limited st) (cn_out st ++ [d]).

(** The loop of [read_connection]; [None] when the fuel is spent. *)
Fixpoint conn_loop (fuel : nat) (packets bytes_ : Z) (st : ConnState) (s : bytes)
    : option (ConnState * result TransportError unit) :=
  match fuel with
  | O => None
  | S fuel =>
      match read_next s with
      | Ok None => Some (st, Ok tt)
      | Err e => Some (st, Err e)
      | Ok (Some (f, rest)) =>
          let packets := packets + 1 in
          let bytes_ := bytes_ + frame_cost f in
          if (packets >? MAX_CONN_PACKETS) || (bytes_ >? MAX_CONN_BYTES)
          then Some (st, Err (MalformedFrame (Lit "connection budget exceeded")))
          else
            let '(flood, allowed) := bucket_check (cn_flood st) (clock packets) in
            if allowed then
              let '(st, d) := mark_frame st flood f in
              if sink_open packets then conn_loop fuel packets bytes_ (send_drop st d) rest
              else Some (st, Ok tt)
            else
              conn_loop fuel packets bytes_
                (mkConnState (cn_seen st) flood (note_limited (cn_limited st) InboundFrame) (cn_out st)) rest
      end
  end.

Definition CONN_FUEL : nat := Z.to_nat MAX_CONN_PACKETS + 1.
Definition read_connection (st : ConnState) (s : bytes) : option (ConnState * result TransportError unit) :=
  conn_loop CONN_FUEL 0 0 st s.

(** ** The gate on its own *)

(** What one frame within the budgets does: counted and dropped by the flood
    gate, or marked and handed to the sink. *)
Definition gate (packets : Z) (st : ConnState) (f : OpaqueFrame) : ConnState :=
  let '(flood, allowed) := bucket_check (cn_flood st) (clock packets) in
  if allowed then let '(st, d) := mark_frame st flood f in send_drop st d
  else mkConnState (cn_seen st) flood (note_limited (cn_limited st) InboundFrame) (cn_out st).
Fixpoint gate_all (packets : Z) (st : ConnState) (fs : list OpaqueFrame) : ConnState :=
  match fs with
  | [] => st
  | f :: fs => gate_all (packets + 1) (gate (packets + 1) st f) fs
  end.

Definition total_cost (fs : list OpaqueFrame) : Z := foldr (λ f acc, frame_cost f + acc) 0 fs.

Lemma frame_cost_pos f : 3 ≤ frame_cost f.
Proof.
  unfold frame_cost. pose proof (len_nonneg (of_frame f)). destruct (of_intro f) as [i|]; cbn; [|lia].
  pose proof (len_nonneg i). lia.
Qed.

Lemma total_cost_nonneg fs : 0 ≤ total_cost fs.
Proof. induction fs as [|f fs IH]; cbn; [lia|]. pose proof (frame_cost_pos f). unfold total_cost in IH. lia. Qed.

(** One frame: either delivered or counted. *)
Lemma gate_spec packets st f :
  (∃ b, cn_out (gate packets st f) = cn_out st ++ [mkDrop service_id f b] ∧ cn_limited (gate packets st f) = cn_limited st)
  ∨ cn_out (gate packets st f) = cn_out st
    ∧ cn_limited (gate packets st f) = note_limited (cn_limited st) InboundFrame.
Proof.
  unfold gate, mark_frame. destruct (bucket_check _ _) as [flood []]; [left|by right].
  destruct (seen_or_mark _ _ _) as [ring dup]. by exists (negb dup).
Qed.

Definition inbound_limited (st : ConnState) : Z := limited (cn_limited st) InboundFrame.

Lemma limited_note c s : limited (note_limited c s) s = (limited c s + 1) mod 2 ^ 64.
Proof. unfold limited at 1, note_limited. by rewrite lookup_insert_eq. Qed.

Lemma conn_loop_frame fuel packets bytes_ st s f rest :
  read_next s = Ok (Some (f, rest)) →
  packets + 1 ≤ MAX_CONN_PACKETS → bytes_ + frame_cost f ≤ MAX_CONN_BYTES → sink_open (packets + 1) = true →
  conn_loop (S fuel) packets bytes_ st s
  = conn_loop fuel (packets + 1) (bytes_ + frame_cost f) (gate (packets + 1) st f) rest.
Proof.
  intros Hr Hp Hb Ho. cbn [conn_loop]. rewrite Hr.
  destruct (Z.gtb_spec (packets + 1) MAX_CONN_PACKETS); [lia|].
  destruct (Z.gtb_spec (bytes_ + frame_cost f) MAX_CONN_BYTES); [lia|]. cbn [orb].
  unfold gate. destruct (bucket_check _ _) as [flood []]; [|done]. destruct (mark_frame st flood f). by rewrite Ho.
Qed.

(** The state after frames: what was added to the sink, and the count. *)
Definition accounted (fs : list OpaqueFrame) (st st' : ConnState) : Prop :=
  ∃ new, cn_out st' = cn_out st ++ new ∧ (id_frame <$> new) `sublist_of` fs
    ∧ Forall (λ d, id_service_id d = service_id) new
    ∧ ((∀ n, sink_open n = true) →
       (inbound_limited st' + len new) mod 2 ^ 64 = (inbound_limited st + len fs) mod 2 ^ 64).

Lemma mod_add_both a b k n : a mod n = b mod n → (a + k) mod n = (b + k) mod n.
Proof. intros H. rewrite <- (Zplus_mod_idemp_l a), H. apply Zplus_mod_idemp_l. Qed.

Lemma accounted_refl st : accounted [] st st.
Proof. exists []. rewrite app_nil_r. split_and!; by try constructor. Qed.

Lemma accounted_gate packets f fs st st' :
  accounted fs (gate packets st f) st' → accounted (f :: fs) st st'.
Proof.
  intros (new & Ho & Hs & Hf & Hc). unfold accounted, inbound_limited in *.
  destruct (gate_spec packets st f) as [(b & Ho1 & Hl1)|[Ho1 Hl1]]; rewrite Ho1 in Ho; rewrite Hl1 in Hc.
  - exists (mkDrop service_id f b :: new). split_and!.
    + by rewrite Ho, <- app_assoc.
    + cbn. by apply sublist_skip.
    + by constructor.
    + intros Hop. specialize (Hc Hop). rewrite !len_cons.
      rewrite !(Z.add_comm 1), !Z.add_assoc. by apply mod_add_both.
  - exists new. split_and!; [done|by apply sublist_cons|done|]. intros Hop. rewrite Hc by done.
    rewrite limited_note, Zplus_mod_idemp_l, len_cons. by rewrite Z.add_assoc.
Qed.

(** The frames [fs] are what the codec reads off the stream [s], one after
    the other, and [rest] is what is left of it. *)
Inductive reads : bytes → list OpaqueFrame → bytes → Prop :=
| reads_nil s : reads s [] s
| reads_cons s f t fs rest : read_frame s = Ok (Some f, t) → reads t fs rest → reads s (f :: fs) rest.

(** Why reading ended after [packets] frames of [bytes_] bytes, with [rest]
    unread: the end of the stream, the timeout, the sink gone, a frame the
    codec refuses, or one over a budget. *)
Definition ended (packets bytes_ : Z) (rest : bytes) (r : result TransportError unit) : Prop :=
  match r with
  | Ok _ => (∃ t, read_frame rest = Ok (None, t)) ∨ silent = true ∧ read_frame rest = Err IoUnexpectedEof
            ∨ (∃ n, sink_open n = false)
  | Err e => read_frame rest = Err e
             ∨ (∃ f t, read_frame rest = Ok (Some f, t)
                 ∧ (MAX_CONN_PACKETS < packets + 1 ∨ MAX_CONN_BYTES < bytes_ + frame_cost f)
                 ∧ e = MalformedFrame (Lit "connection budget exceeded"))
  end.

Lemma read_next_Some s f rest : read_next s = Ok (Some (f, rest)) → read_frame s = Ok (Some f, rest).
Proof.
  unfold read_next. destruct (read_frame s) as [[[f'|] t]|[]]; try done; [by intros [= -> ->]|by destruct silent].
Qed.

(** When no frame is read, that is why reading ends. *)
Lemma read_next_end packets bytes_ s r :
  match read_next s with Ok None => r = Ok tt | Err e => r = Err e | _ => False end → ended packets bytes_ s r.
Proof.
  unfold read_next. destruct (read_frame s) as [[[f'|] t]|e] eqn:E; try done.
  - intros ->. left. by exists t.
  - assert (Hd : r = Err e → ended packets bytes_ s r) by (intros ->; by left).
    destruct e; try exact Hd. destruct silent eqn:Es; [|exact Hd]. intros ->. right. by left.
Qed.

Lemma conn_loop_total fuel packets bytes_ st s :
  0 ≤ packets ≤ MAX_CONN_PACKETS → MAX_CONN_PACKETS - packets < Z.of_nat fuel → bytes_ ≤ MAX_CONN_BYTES →
  ∃ st' r fs rest, conn_loop fuel packets bytes_ st s = Some (st', r) ∧ reads s fs rest
    ∧ packets + len fs ≤ MAX_CONN_PACKETS ∧ bytes_ + total_cost fs ≤ MAX_CONN_BYTES ∧ accounted fs st st'
    ∧ ended (packets + len fs) (bytes_ + total_cost fs) rest r.
Proof.
  revert packets bytes_ st s. induction fuel as [|fuel IH]; intros packets bytes_ st s Hp Hf Hb; [lia|].
  pose proof (read_next_end packets bytes_ s) as Hend.
  destruct (read_next s) as [[[f rest]|]|e] eqn:Hr.
  2, 3: eexists st, _, [], s; cbn [conn_loop]; rewrite Hr, len_nil; cbn [total_cost foldr];
    rewrite !Z.add_0_r; split_and!; [done|constructor|lia|lia|apply accounted_refl|by apply Hend].
  clear Hend. pose proof (read_next_Some _ _ _ Hr) as Hread.
  destruct (decide (packets + 1 ≤ MAX_CONN_PACKETS ∧ bytes_ + frame_cost f ≤ MAX_CONN_BYTES)) as [[H1 H2]|H].
  2:{ eexists st, _, [], s. cbn [conn_loop]. rewrite Hr. rewrite (proj2 (orb_true_iff _ _)) by lia.
      rewrite len_nil. cbn [total_cost foldr]. rewrite !Z.add_0_r.
      split_and!; [done|constructor|lia|lia|apply accounted_refl|]. right. exists f, rest. split_and!; [done|lia|done]. }
  assert (Hgo : conn_loop (S fuel) packets bytes_ st s
      = conn_loop fuel (packets + 1) (bytes_ + frame_cost f) (gate (packets + 1) st f) rest →
    ∃ st' r fs rest, conn_loop (S fuel) packets bytes_ st s = Some (st', r) ∧ reads s fs rest
      ∧ packets + len fs ≤ MAX_CONN_PACKETS ∧ bytes_ + total_cost fs ≤ MAX_CONN_BYTES ∧ accounted fs st st'
      ∧ ended (packets + len fs) (bytes_ + total_cost fs) rest r).
  { intros ->. destruct (IH (packets + 1) (bytes_ + frame_cost f) (gate (packets + 1) st f) rest)
      as (st' & r & fs & rest' & He & Hrd & Hl & Hc & Ha & Hen); [lia|lia|lia|].
    exists st', r, (f :: fs), rest'. rewrite len_cons. cbn [total_cost foldr]. fold (total_cost fs).
    rewrite !Z.add_assoc.
    split_and!; [done|by eapply reads_cons|lia|lia|by apply (accounted_gate (packets + 1))|done]. }
  destruct (sink_open (packets + 1)) eqn:Ho; [apply Hgo; by apply conn_loop_frame|].
  cbn [conn_loop]. rewrite Hr, (proj2 (orb_false_iff _ _)) by lia.
  destruct (bucket_check _ _) as [flood []] eqn:Eb.
  - unfold mark_frame. destruct (seen_or_mark _ _ _) as [ring dup].
    rewrite Ho. eexists _, _, [], s. rewrite len_nil. cbn [total_cost foldr].
    split_and!; [done|constructor|lia|lia| |right; right; by eexists].
    exists []. cbn. rewrite app_nil_r. split_and!; by try constructor.
  - revert Hgo. cbn [conn_loop]. rewrite Hr, (proj2 (orb_false_iff _ _)) by lia. rewrite Eb. intros Hgo.
    apply Hgo. unfold gate. by rewrite Eb.
Qed.

(** C23: Whatever bytes a peer sends on a connection, reading it ends. The
    frames taken are those the frame codec reads off the front of the stream,
    one after the other, at most the packet budget of them and within the
    byte budget; what reaches the sink is a subsequence of them in order, all
    tagged with the service, and while the sink is there every frame taken
    is either delivered or counted (modulo 2^64) as dropped by the flood
    gate. Reading ends well only at the end of the stream, at the timeout or
    when the sink is gone, and ends in an error exactly as the codec refuses
    what is left of the stream or because its next frame is over a budget. *)
Theorem connection_bounded st s :
  ∃ st' r fs rest, read_connection st s = Some (st', r) ∧ reads s fs rest
    ∧ len fs ≤ MAX_CONN_PACKETS ∧ total_cost fs ≤ MAX_CONN_BYTES ∧ accounted fs st st'
    ∧ ended (len fs) (total_cost fs) rest r.
Proof.
  destruct (conn_loop_total CONN_FUEL 0 0 st s) as (st' & r & fs & rest & H); [done|done|done|].
  exists st', r, fs, rest. exact H.
Qed.

Lemma conn_loop_packed fs bss fuel packets bytes_ st :
  Forall2 (λ f bs, pack (of_intro f) (of_frame f) (of_alert f) = Ok bs) fs bss →
  (∀ n, sink_open n = true) → (length fs < fuel)%nat →
  packets + len fs ≤ MAX_CONN_PACKETS → bytes_ + total_cost fs ≤ MAX_CONN_BYTES →
  conn_loop fuel packets bytes_ st (concat bss) = Some (gate_all packets st fs, Ok tt).
Proof.
  intros H Ho. revert fuel packets bytes_ st.
  induction H as [|f bs fs bss Hf _ IH]; intros [|fuel] packets bytes_ st Hl Hp Hb; try (cbn in Hl; lia); [done|].
  cbn [concat gate_all]. cbn [total_cost foldr] in Hb. fold (total_cost fs) in Hb. rewrite len_cons in Hp.
  pose proof (total_cost_nonneg fs). pose proof (len_nonneg fs).
  rewrite (conn_loop_frame _ _ _ _ _ f (concat bss)); [|by unfold read_next; rewrite (read_pack _ _ _ _ _ Hf); destruct f|lia|lia|done].
  apply IH; [cbn in Hl; lia|lia|lia].
Qed.

(** A bucket with tokens lets the frame through and keeps at least the rest. *)
Lemma check_tokens b now k :
  bucket_wf b → is_u64 now → 0 ≤ k → k + 1 ≤ tb_tokens b →
  (bucket_check b now).2 = true ∧ k ≤ tb_tokens (bucket_check b now).1 ∧ bucket_wf (bucket_check b now).1.
Proof.
  intros Hw Hn Hk Ht. split_and!; [| |by apply bucket_check_wf];
    unfold bucket_check; rewrite bucket_refill_spec by done; cbv zeta; cbn [tb_tokens];
    destruct Hw as (Hc & Ht' & Hr & Hl); unfold is_u32, u32_max, is_u64 in *;
    match goal with |- context [?t >? 0] => assert (k + 1 ≤ t) by nia; destruct (Z.gtb_spec t 0); [|lia] end.
  - done.
  - cbn. lia.
Qed.

Lemma gate_all_delivers fs packets st :
  (∀ n, is_u64 (clock n)) → bucket_wf (cn_flood st) → len fs ≤ tb_tokens (cn_flood st) →
  ∃ new, cn_out (gate_all packets st fs) = cn_out st ++ new ∧ id_frame <$> new = fs.
Proof.
  intros Hck. revert packets st. induction fs as [|f fs IH]; intros packets st Hw Ht; cbn [gate_all].
  - exists []. by rewrite app_nil_r.
  - rewrite len_cons in Ht. pose proof (len_nonneg fs).
    destruct (check_tokens (cn_flood st) (clock (packets + 1)) (len fs)) as (Ha & Hk & Hw'); [done|done|lia|lia|].
    assert (Hg : ∃ b, cn_out (gate (packets + 1) st f) = cn_out st ++ [mkDrop service_id f b]
      ∧ cn_flood (gate (packets + 1) st f) = (bucket_check (cn_flood st) (clock (packets + 1))).1).
    { unfold gate, mark_frame. destruct (bucket_check _ _) as [fl al]. cbn in *. subst al.
      destruct (seen_or_mark _ _ _) as [ring dup]. by exists (negb dup). }
    destruct Hg as (b & Ho & Hfl).
    destruct (IH (packets + 1) (gate (packets + 1) st f)) as (new & Hn & Hnf); [by rewrite Hfl|rewrite Hfl; lia|].
    exists (mkDrop service_id f b :: new). rewrite Hn, Ho, <- app_assoc. cbn. by rewrite Hnf.
Qed.

(** C24: A sender that writes packed frames back to back within the budgets
    of a connection is read completely: reading the stream is the flood gate
    and the duplicate ring applied to the frames one by one, in order, to the
    clean end; and as long as the bucket holds a token per frame, every one of
    them reaches the sink. *)
Theorem connection_delivers fs bss st :
  Forall2 (λ f bs, pack (of_intro f) (of_frame f) (of_alert f) = Ok bs) fs bss →
  (∀ n, sink_open n = true) → len fs ≤ MAX_CONN_PACKETS → total_cost fs ≤ MAX_CONN_BYTES →
  read_connection st (concat bss) = Some (gate_all 0 st fs, Ok tt)
  ∧ ((∀ n, is_u64 (clock n)) → bucket_wf (cn_flood st) → len fs ≤ tb_tokens (cn_flood st) →
     ∃ new, cn_out (gate_all 0 st fs) = cn_out st ++ new ∧ id_frame <$> new = fs).
Proof.
  intros Hp Ho Hl Hc. split; [|by apply gate_all_delivers].
  apply conn_loop_packed; try done. unfold CONN_FUEL, len, MAX_CONN_PACKETS in *. lia.
Qed.
End Connection.

Definition demo_conn : ConnState := mkConnState (ring_new 8) (bucket_new 4 1 0) ∅ [].

Lemma connection_delivers_witness :
  let fs := demo_frames in
  let bss := (λ f, default [] (ok (pack (of_intro f) (of_frame f) (of_alert f)))) <$> fs in
  read_connection (λ b, b) "svc" (λ _, 0) (λ _, true) false demo_conn (concat bss)
  = Some (gate_all (λ b, b) "svc" (λ _, 0) 0 demo_conn fs, Ok tt).
Proof.
  intros fs bss.
  refine (proj1 (connection_delivers (λ b, b) "svc" (λ _, 0) (λ _, true) false fs bss demo_conn _ _ _ _)).
  - repeat constructor; by vm_compute.
  - reflexivity.
  - by vm_compute.
  - by vm_compute.
Defined.

(** Two frames, then a byte that starts no frame. *)
Lemma connection_bounded_witness :
  let s := concat ((λ f, default [] (ok (pack (of_intro f) (of_frame f) (of_alert f)))) <$> demo_frames) ++ [zb 255] in
  ∃ st' r fs rest, read_connection (λ b, b) "svc" (λ _, 0) (λ _, true) false demo_conn s = Some (st', r)
    ∧ reads s fs rest ∧ len fs ≤ MAX_CONN_PACKETS ∧ total_cost fs ≤ MAX_CONN_BYTES
    ∧ accounted "svc" (λ _, true) fs demo_conn st' ∧ ended (λ _, true) false (len fs) (total_cost fs) rest r.
Proof. intros s. exact (connection_bounded (λ b, b) "svc" (λ _, 0) (λ _, true) false demo_conn s). Defined.

(** ** The cap on connections *)

(** [try_acquire_owned] of a permit per connection: at the cap the stream is
    closed at once; a connection that ends gives its permit back. *)
Definition MAX_CONNECTIONS : Z := 32.
Definition listener_accept (active : Z) : Z * bool :=
  if active <? MAX_CONNECTIONS then (active + 1, true) else (active, false).
Definition listener_done (active : Z) : Z := active - 1.
