(* ===== verification/Ephemeral.v ===== *)
(** The RAM-only tables: typing indicators ([core/src/typing/mod.rs]) and
    presence ([core/src/presence/mod.rs]). A [HashMap] keyed by the
    relationship id is a [gmap]; the order of the ids a sweep returns is
    the map's own. *)

From S2P Require Import Prelude Payloads.

(** ** Typing *)

Definition TYPING_TTL_SECS : Z := 5.
Definition TYPING_SEND_INTERVAL_SECS : Z := 3.

Record TypingTable := mkTypingTable {
  tt_inbound : gmap string Z;
  tt_last_sent : gmap string Z;
}.

Definition typing_new : TypingTable := mkTypingTable ∅ ∅.

Definition is_typing (t : TypingTable) (rel_id : string) (now : Z) : bool :=
  match tt_inbound t !! rel_id with
  | Some exp => exp >? now
  | None => false
  end.

Definition typing_note (t : TypingTable) (rel_id : string) (typing : bool) (now : Z)
    : TypingTable * option bool :=
  let was := is_typing t rel_id now in
  let inbound := if typing then <[rel_id := wrap64 (now + TYPING_TTL_SECS)]> (tt_inbound t)
                 else delete rel_id (tt_inbound t) in
  (mkTypingTable inbound (tt_last_sent t),
   if Bool.eqb was typing then None else Some typing).

Definition typing_sweep (t : TypingTable) (now : Z) : TypingTable * list string :=
  let cleared := filter (λ kv : string * Z, kv.2 ≤ now) (tt_inbound t) in
  let kept := filter (λ kv : string * Z, ¬ kv.2 ≤ now) (tt_inbound t) in
  (mkTypingTable kept (tt_last_sent t), (map_to_list cleared).*1).

Definition should_send (t : TypingTable) (rel_id : string) (now : Z) : bool :=
  match tt_last_sent t !! rel_id with
  | Some at_ => sat_sub now at_ >=? TYPING_SEND_INTERVAL_SECS
  | None => true
  end.

Definition note_sent (t : TypingTable) (rel_id : string) (now : Z) : TypingTable :=
  mkTypingTable (tt_inbound t) (<[rel_id := now]> (tt_last_sent t)).

Definition typing_forget (t : TypingTable) (rel_id : string) : TypingTable :=
  mkTypingTable (delete rel_id (tt_inbound t)) (delete rel_id (tt_last_sent t)).

(** ** Presence *)

Definition PRESENCE_TTL_SECS : Z := 45.

#[export] Instance presence_eq_dec : EqDecision Presence.
Proof. solve_decision. Defined.

Record PeerPresence := mkPeerPresence { pp_in_app : bool; pp_do_not_disturb : bool }.

Abbreviation PresenceTable := (gmap string (Presence * Z)).

Definition presence_note (t : PresenceTable) (rel_id : string) (p : Presence) (now : Z)
    : PresenceTable * option PeerPresence :=
  let prev := fst <$> t !! rel_id in
  (<[rel_id := (p, now)]> t,
   if bool_decide (prev = Some p) then None
   else Some (mkPeerPresence (in_app p) (do_not_disturb p))).

Definition presence_fresh (at_ now : Z) : bool := sat_sub now at_ <? PRESENCE_TTL_SECS.

Definition presence_state (t : PresenceTable) (rel_id : string) (now : Z) : PeerPresence :=
  match t !! rel_id with
  | Some (p, at_) =>
      if presence_fresh at_ now then mkPeerPresence (in_app p) (do_not_disturb p)
      else mkPeerPresence false false
  | None => mkPeerPresence false false
  end.

Definition presence_sweep (t : PresenceTable) (now : Z) : PresenceTable * list string :=
  let kept := filter (λ kv : string * (Presence * Z), presence_fresh kv.2.2 now = true) t in
  let decayed := filter (λ kv : string * (Presence * Z),
                   presence_fresh kv.2.2 now = false ∧ in_app kv.2.1 = true) t in
  (kept, (map_to_list decayed).*1).

Definition presence_forget (t : PresenceTable) (rel_id : string) : PresenceTable :=
  delete rel_id t.

(** ** Lemmas *)

Lemma keys_of_filter {A} (P : string * A → Prop) `{!∀ x, Decision (P x)} (m : gmap string A) k :
  k ∈ (map_to_list (filter P m)).*1 ↔ ∃ v, m !! k = Some v ∧ P (k, v).
Proof.
  rewrite list_elem_of_fmap. split.
  - intros ([k' v] & -> & Hin%elem_of_map_to_list). apply map_lookup_filter_Some in Hin as [? ?]. eauto.
  - intros (v & Hm & HP). exists (k, v). split; [done|].
    by apply elem_of_map_to_list, map_lookup_filter_Some.
Qed.

Lemma is_typing_note t rel_id typing now later :
  0 ≤ now → now + TYPING_TTL_SECS < 2 ^ 64 →
  is_typing (typing_note t rel_id typing now).1 rel_id later
  = typing && (later <? now + TYPING_TTL_SECS).
Proof.
  intros H0 Hb. unfold is_typing, typing_note. cbn [fst tt_inbound]. destruct typing.
  - rewrite lookup_insert_eq. unfold wrap64, TYPING_TTL_SECS in *. rewrite Z.mod_small by lia. cbn. lia.
  - by rewrite lookup_delete_eq.
Qed.

(** A sweep is invisible to later reads, and reports exactly the
    indicators it put out. *)
Lemma typing_sweep_spec t now :
  (∀ rel_id later, now ≤ later →
     is_typing (typing_sweep t now).1 rel_id later = is_typing t rel_id later)
  ∧ (∀ rel_id, rel_id ∈ (typing_sweep t now).2 ↔
       is_Some (tt_inbound t !! rel_id) ∧ is_typing t rel_id now = false)
  ∧ (∀ rel_id, is_Some (tt_inbound (typing_sweep t now).1 !! rel_id) ↔ is_typing t rel_id now = true).
Proof.
  unfold is_typing, typing_sweep. cbn [fst snd tt_inbound]. split_and!.
  - intros rel_id later Hl. rewrite map_lookup_filter.
    destruct (tt_inbound t !! rel_id) as [exp|]; cbn; [|done]. case_guard; cbn; [done|]. lia.
  - intros rel_id. rewrite keys_of_filter. cbn. split.
    + intros (v & -> & Hv). split; [by eauto|lia].
    + intros [[v Hv] H]. rewrite Hv in *. exists v. split; [done|lia].
  - intros rel_id. rewrite map_lookup_filter.
    destruct (tt_inbound t !! rel_id) as [exp|]; cbn; [|by split; [intros [? ?]|]].
    case_guard; cbn; split; intros; try done; try lia.
Qed.

Lemma presence_sweep_spec t now :
  (∀ rel_id later, now ≤ later →
     presence_state (presence_sweep t now).1 rel_id later = presence_state t rel_id later)
  ∧ (∀ rel_id, rel_id ∈ (presence_sweep t now).2 ↔
       ∃ p at_, t !! rel_id = Some (p, at_) ∧ in_app p = true ∧ PRESENCE_TTL_SECS ≤ now - at_).
Proof.
  unfold presence_state, presence_sweep. cbn [fst snd]. split.
  - intros rel_id later Hl. rewrite map_lookup_filter.
    destruct (t !! rel_id) as [[p at_]|]; cbn; [|done]. case_guard as Hf; cbn in *; [done|].
    unfold presence_fresh, sat_sub in *.
    destruct (Z.ltb_spec (Z.max (later - at_) 0) PRESENCE_TTL_SECS); [lia|done].
  - intros rel_id. rewrite keys_of_filter. cbn. unfold presence_fresh, sat_sub.
    split.
    + intros ([p at_] & Ht & Hf & Hi). cbn in *. exists p, at_. unfold PRESENCE_TTL_SECS in *.
      split_and!; [done|done|lia].
    + intros (p & at_ & Ht & Hi & Hl). exists (p, at_). cbn. unfold PRESENCE_TTL_SECS in *.
      split_and!; [done|lia|done].
Qed.

(** The send throttle: two sends are never closer than the interval (on
    the clock the table was told). *)
Lemma should_send_throttle t rel_id now later :
  should_send (note_sent t rel_id now) rel_id later = true ↔ now + TYPING_SEND_INTERVAL_SECS ≤ later.
Proof.
  unfold should_send, note_sent. cbn [tt_last_sent]. rewrite lookup_insert_eq.
  unfold sat_sub, TYPING_SEND_INTERVAL_SECS. lia.
Qed.
