(* ===== verification/View.v ===== *)
(** The receive view: the contiguous horizon and LSB-first repair bitmap of
    [receive_view] ([core/src/store/messages.rs]) over an ascending list
    of sequence numbers, and the peer's reading of it, [is_missing]
    ([core/src/sync/resync.rs]). *)

From Stdlib Require Import Sorting.Sorted.
From S2P Require Import Prelude Limits.

Record ReceiveView := mkReceiveView {
  rv_max_contiguous_seq : Z;
  rv_bitmap : bytes;
}.

(** [while let Some(&seq) = iter.peek()]: the horizon and what is left. *)
Fixpoint walk (max : Z) (seqs : list Z) : Z * list Z :=
  match seqs with
  | [] => (max, [])
  | seq :: rest => if seq =? wrap64 (max + 1) then walk seq rest else (max, seqs)
  end.

(** [bitmap[offset / 8] |= 1 << (offset % 8)] *)
Definition set_bit (bitmap : bytes) (offset : Z) : bytes :=
  alter (λ b, zb (Z.lor (bz b) (Z.shiftl 1 (offset mod 8)))) (Z.to_nat (offset / 8)) bitmap.

Fixpoint set_bits (bitmap_bits max : Z) (seqs : list Z) (bitmap : bytes) (last_set : option Z)
    : bytes * option Z :=
  match seqs with
  | [] => (bitmap, last_set)
  | seq :: rest =>
      let offset := sat_sub seq (wrap64 (max + 1)) in
      if offset >=? bitmap_bits then (bitmap, last_set)
      else set_bits bitmap_bits max rest (set_bit bitmap offset) (Some offset)
  end.

(** The body of [receive_view] after the query. *)
Definition view_of_seqs (seqs : list Z) (bitmap_bits : Z) : ReceiveView :=
  let '(max, rest) := walk 0 seqs in
  let bitmap := replicate (Z.to_nat (div_ceil bitmap_bits 8)) Byte.x00 in
  let '(bitmap, last_set) := set_bits bitmap_bits max rest bitmap None in
  mkReceiveView max (take (from_option (λ i, Z.to_nat (i / 8 + 1)) 0%nat last_set) bitmap).

(** [is_missing] of the sync layer. *)
Definition is_missing (max_contiguous_seq : Z) (bitmap : bytes) (app_seq : Z) : bool :=
  if (app_seq =? 0) || (app_seq <=? max_contiguous_seq) then app_seq =? 0
  else
    let offset := app_seq - max_contiguous_seq - 1 in
    if offset >=? BITMAP_BITS then true
    else
      match bitmap !! Z.to_nat (offset / 8) with
      | Some b => Z.land (bz b) (Z.shiftl 1 (offset mod 8)) =? 0
      | None => true
      end.

(** ** Bits of a byte list *)

Definition get_bit (bitmap : bytes) (k : Z) : bool :=
  match bitmap !! Z.to_nat (k / 8) with
  | Some b => Z.testbit (bz b) (k mod 8)
  | None => false
  end.

Lemma land_bit b i : 0 ≤ i → (Z.land b (Z.shiftl 1 i) =? 0) = negb (Z.testbit b i).
Proof.
  intros Hi. rewrite Z.shiftl_1_l. destruct (Z.testbit b i) eqn:E; cbn.
  - apply Z.eqb_neq. intros H. apply (f_equal (λ x, Z.testbit x i)) in H.
    rewrite Z.land_spec, Z.pow2_bits_true, Z.bits_0, E in H by lia. done.
  - apply Z.eqb_eq, Z.bits_inj'. intros n Hn. rewrite Z.land_spec, Z.bits_0.
    destruct (Z.eq_dec i n) as [->|]; [by rewrite E|].
    by rewrite Z.pow2_bits_false, andb_false_r.
Qed.

Lemma testbit_or_byte b i j :
  0 ≤ i < 8 → 0 ≤ j →
  Z.testbit (bz (zb (Z.lor (bz b) (Z.shiftl 1 j)))) i = Z.testbit (bz b) i || (i =? j).
Proof.
  intros Hi Hj. rewrite bz_zb. change 256 with (2 ^ 8). rewrite Z.mod_pow2_bits_low by lia.
  rewrite Z.lor_spec, Z.shiftl_1_l, Z.pow2_bits_eqb by lia. by rewrite (Z.eqb_sym j i).
Qed.

Lemma div8_mod8 k : 0 ≤ k → k = 8 * (k / 8) + k mod 8 ∧ 0 ≤ k mod 8 < 8 ∧ 0 ≤ k / 8.
Proof.
  intros. pose proof (Z.div_mod k 8). pose proof (Z.mod_pos_bound k 8).
  pose proof (Z.div_pos k 8). lia.
Qed.

Lemma get_set_bit bm o k :
  0 ≤ k → 0 ≤ o < 8 * len bm → get_bit (set_bit bm o) k = get_bit bm k || (k =? o).
Proof.
  intros Hk Ho. destruct (div8_mod8 k Hk) as (Ek & Hkm & Hkd), (div8_mod8 o) as (Eo & Hom & Hod); [lia|].
  unfold get_bit, set_bit. destruct (decide (Z.to_nat (k / 8) = Z.to_nat (o / 8))) as [E|E].
  - rewrite E, list_lookup_alter. unfold len in Ho.
    destruct (lookup_lt_is_Some_2 bm (Z.to_nat (o / 8))) as [b Hb]; [lia|]. rewrite decide_True, Hb by done. cbn [fmap option_fmap option_map].
    rewrite testbit_or_byte by lia. f_equal. lia.
  - rewrite list_lookup_alter_ne by done. destruct (Z.eqb_spec k o); [subst; done|].
    by rewrite orb_false_r.
Qed.

Lemma len_set_bit bm o : len (set_bit bm o) = len bm.
Proof. unfold len, set_bit. by rewrite length_alter. Qed.

Lemma get_bit_zeros n k : get_bit (replicate n Byte.x00) k = false.
Proof.
  unfold get_bit. destruct (replicate n Byte.x00 !! _) as [b|] eqn:E; [|done].
  apply lookup_replicate in E as [-> _]. apply Z.bits_0.
Qed.

Lemma get_bit_take bm n k :
  0 ≤ k → get_bit (take n bm) k = get_bit bm k && (k / 8 <? Z.of_nat n).
Proof.
  intros Hk. destruct (div8_mod8 k Hk) as (_ & _ & Hkd). unfold get_bit.
  destruct (Z.ltb_spec (k / 8) (Z.of_nat n)).
  - rewrite lookup_take_lt by lia. by rewrite andb_true_r.
  - rewrite lookup_take_ge by lia. by rewrite andb_false_r.
Qed.

Lemma is_missing_spec m bm s :
  0 ≤ m → 0 < s →
  is_missing m bm s =
    negb ((s <=? m) || ((s - m - 1 <? BITMAP_BITS) && get_bit bm (s - m - 1))).
Proof.
  intros Hm Hs. unfold is_missing. destruct (Z.leb_spec s m).
  - rewrite orb_true_r. cbn. lia.
  - destruct (Z.eqb_spec s 0); [lia|]. cbn [orb].
    destruct (Z.geb_spec (s - m - 1) BITMAP_BITS), (Z.ltb_spec (s - m - 1) BITMAP_BITS);
      try done; try lia. cbn [andb]. unfold get_bit.
    destruct (bm !! _) as [b|]; [|done]. apply land_bit. apply Z.mod_pos_bound. lia.
Qed.

(** ** The view is exact on its window *)

(** Strictly ascending, as the query returns a set of sequence numbers. *)
Definition ascending (l : list Z) : Prop := StronglySorted Z.lt l.

Lemma ascending_cons x l : ascending (x :: l) ↔ Forall (Z.lt x) l ∧ ascending l.
Proof. split; [by inversion 1|]. intros [? ?]. by constructor. Qed.

Lemma ascending_NoDup l : ascending l → NoDup l.
Proof.
  induction 1 as [|x l Hl IH Hx]; [constructor|]. constructor; [|done].
  intros Hin. rewrite Forall_forall in Hx. specialize (Hx x Hin). lia.
Qed.

(** Room for the checked additions on sequence numbers. *)
Definition seqs_ok (l : list Z) : Prop := Forall (λ s, 0 < s < 2 ^ 63) l.

Lemma walk_spec m l :
  0 ≤ m < 2 ^ 63 → ascending l → seqs_ok l → Forall (Z.lt m) l →
  let '(max, rest) := walk m l in
  m ≤ max < 2 ^ 63 ∧ ascending rest ∧ Forall (λ s, max + 1 < s < 2 ^ 63) rest
  ∧ (∀ s, s ∈ l ↔ m < s ≤ max ∨ s ∈ rest) ∧ len l = (max - m) + len rest.
Proof.
  revert m. induction l as [|x l IH]; intros m Hm Ha Hok Hl; cbn [walk].
  - split_and!; try done; try lia. intros s. rewrite elem_of_nil. lia.
  - apply ascending_cons in Ha as [Hx Ha]. apply Forall_cons in Hok as [Hx63 Hok].
    apply Forall_cons in Hl as [Hmx Hl]. unfold wrap64. rewrite Z.mod_small by lia.
    destruct (Z.eqb_spec x (m + 1)) as [->|Hne].
    + assert (Hm' : 0 ≤ m + 1 < 2 ^ 63) by lia. specialize (IH (m + 1) Hm' Ha Hok Hx).
      destruct (walk (m + 1) l) as [max rest]. destruct IH as (H1 & H2 & H3 & H4 & H5).
      split_and!; [lia|lia|done|done| |rewrite len_cons; lia].
      intros s. rewrite elem_of_cons, H4. split.
      { intros [->|[?|?]]; [left; lia|left; lia|by right]. }
      intros [?|?]; [|by right; right]. destruct (Z.eq_dec s (m + 1)); [by left|right; left; lia].
    + split_and!; [lia|lia|by constructor| | |lia].
      * constructor; [lia|]. rewrite Forall_forall in Hx, Hok |- *. intros s Hs.
        specialize (Hx s Hs). specialize (Hok s Hs). cbn in *. lia.
      * intros s. split; [by right|]. intros [?|?]; [lia|done].
Qed.

Lemma set_bits_spec bits max l bm last :
  0 ≤ max < 2 ^ 63 → 0 ≤ bits ≤ 8 * len bm → ascending l →
  Forall (λ s, max + 1 < s < 2 ^ 63) l →
  (∀ k, 0 ≤ k → get_bit bm k = true → ∃ o, last = Some o ∧ k ≤ o) →
  (∀ o s, last = Some o → s ∈ l → o < s - (max + 1)) →
  let '(bm', last') := set_bits bits max l bm last in
  (∀ k, 0 ≤ k → get_bit bm' k = get_bit bm k || ((k <? bits) && bool_decide (max + 1 + k ∈ l)))
  ∧ (∀ k, 0 ≤ k → get_bit bm' k = true → ∃ o, last' = Some o ∧ k ≤ o).
Proof.
  intros Hmax. revert bm last. induction l as [|x l IH]; intros bm last Hbits Ha Hl Hinv Hlt;
    cbn [set_bits].
  - split; [|done]. intros k Hk. rewrite bool_decide_eq_false_2 by (by intros ?%elem_of_nil).
    by rewrite andb_false_r, orb_false_r.
  - apply ascending_cons in Ha as [Hx Ha]. apply Forall_cons in Hl as [Hxm Hl].
    unfold sat_sub, wrap64. rewrite Z.mod_small, Z.max_l by lia.
    destruct (Z.geb_spec (x - (max + 1)) bits) as [Hge|Hlt'].
    + split; [|done]. intros k Hk. destruct (Z.ltb_spec k bits); [|by rewrite orb_false_r].
      rewrite bool_decide_eq_false_2; [by rewrite andb_false_r, orb_false_r|].
      rewrite elem_of_cons. rewrite Forall_forall in Hx. intros [?|Hin]; [lia|].
      specialize (Hx _ Hin). lia.
    + set (o := x - (max + 1)) in *.
      specialize (IH (set_bit bm o) (Some o)). rewrite len_set_bit in IH.
      specialize (IH Hbits Ha Hl).
      assert (H1 : ∀ k, 0 ≤ k → get_bit (set_bit bm o) k = true → ∃ o', Some o = Some o' ∧ k ≤ o').
      { intros k Hk. rewrite get_set_bit by lia. intros [Hb|Hb]%orb_true_iff; [|exists o; split; [done|lia]].
        apply Hinv in Hb as (o' & E & Hko); [|done]. exists o. split; [done|].
        specialize (Hlt o' x E). rewrite elem_of_cons in Hlt. unfold o. lia. }
      assert (H2 : ∀ o' s, Some o = Some o' → s ∈ l → o' < s - (max + 1)).
      { intros o' s [= <-] Hs. rewrite Forall_forall in Hx. specialize (Hx s Hs). unfold o. lia. }
      specialize (IH H1 H2). destruct (set_bits bits max l (set_bit bm o) (Some o)) as [bm' last'].
      destruct IH as [IH1 IH2]. split; [|done]. intros k Hk. rewrite IH1, get_set_bit by lia.
      rewrite <- orb_assoc. f_equal. unfold o.
      destruct (Z.eqb_spec k (x - (max + 1))) as [Ek|Ek]; cbn [orb].
      * rewrite (bool_decide_eq_true_2 (max + 1 + k ∈ x :: l)) by (apply elem_of_cons; left; lia).
        symmetry. rewrite andb_true_r. lia.
      * f_equal. apply bool_decide_ext. rewrite elem_of_cons. split; [by right|].
        intros [?|?]; [lia|done].
Qed.

Lemma view_of_seqs_exact l s :
  ascending l → seqs_ok l → 0 < s →
  let v := view_of_seqs l BITMAP_BITS in
  is_missing (rv_max_contiguous_seq v) (rv_bitmap v) s
  = negb (bool_decide (s ∈ l) && (s <=? rv_max_contiguous_seq v + BITMAP_BITS)).
Proof.
  intros Ha Hok Hs. unfold view_of_seqs. cbv zeta.
  assert (Hpos : Forall (Z.lt 0) l) by (eapply Forall_impl; [exact Hok|]; cbn; lia).
  pose proof (walk_spec 0 l ltac:(lia) Ha Hok Hpos) as Hw.
  destruct (walk 0 l) as [max rest]. destruct Hw as (Hmax & Har & Hr & Hmem & _).
  set (z := replicate _ Byte.x00).
  assert (Hz : len z = MAX_BITMAP_BYTES) by (unfold z, len; by rewrite length_replicate).
  pose proof (set_bits_spec BITMAP_BITS max rest z None) as Hsb.
  destruct (set_bits BITMAP_BITS max rest z None) as [bm last] eqn:E.
  destruct Hsb as [Hbit Hlast]; [lia|unfold BITMAP_BITS, MAX_BITMAP_BYTES in *; lia|done|done
    |by intros k Hk; unfold z; rewrite get_bit_zeros|done|].
  cbn [rv_max_contiguous_seq rv_bitmap]. rewrite is_missing_spec by lia. f_equal.
  destruct (Z.leb_spec s max) as [Hle|Hgt]; cbn [orb].
  - rewrite bool_decide_eq_true_2 by (apply Hmem; lia).
    destruct (Z.leb_spec s (max + BITMAP_BITS)); [done|]. unfold BITMAP_BITS, MAX_BITMAP_BYTES in *. lia.
  - assert (Hk : 0 ≤ s - max - 1) by lia. rewrite get_bit_take by done.
    replace (get_bit bm (s - max - 1) && _) with (get_bit bm (s - max - 1)).
    2:{ destruct (get_bit bm (s - max - 1)) eqn:Eb; [|done].
        apply Hlast in Eb as (o & -> & Hko); [|done]. cbn [from_option andb].
        assert ((s - max - 1) / 8 ≤ o / 8) by (apply Z.div_le_mono; lia).
        assert (0 ≤ o / 8) by (apply Z.div_pos; lia). symmetry. apply Z.ltb_lt. lia. }
    rewrite Hbit by done. unfold z. rewrite get_bit_zeros. cbn [orb].
    replace (max + 1 + (s - max - 1)) with s by lia.
    destruct (Z.ltb_spec (s - max - 1) BITMAP_BITS), (Z.leb_spec s (max + BITMAP_BITS));
      cbn [andb]; try (by rewrite andb_false_r); try (exfalso; lia). rewrite andb_true_r.
    apply bool_decide_ext. rewrite Hmem. split; [by right|intros [?|?]; [lia|done]].
Qed.
