(* ===== verification/Hex.v ===== *)
(** Hexadecimal text ([hex_encode], [hex_decode] of [core/src/store/mod.rs])
    and the inline emoji tokens of [core/src/stickers/tokens.rs]. A [str] is
    the list of its UTF-8 bytes. *)

From S2P Require Import Prelude Bin RustStr Policy.

(** ** [store/mod.rs] *)

(** [HEX[d]] for [d < 16]. *)
Definition hex_char (d : Z) : byte := zb (if d <? 10 then 48 + d else 87 + d).

Definition hex_encode (bs : bytes) : bytes :=
  concat ((λ b, [hex_char (Z.shiftr (bz b) 4); hex_char (Z.land (bz b) 15)]) <$> bs).

(** [char::to_digit(16)] *)
Definition hex_digit (b : byte) : option Z :=
  let v := bz b in
  if in_range 48 57 v then Some (v - 48)
  else if in_range 97 102 v then Some (v - 87)
  else if in_range 65 70 v then Some (v - 55)
  else None.

(** [u8::from_str_radix(two bytes, 16)]: a leading [+] is a sign. *)
Definition from_str_radix16 (a b : byte) : option Z :=
  if bz a =? 43 then hex_digit b
  else h ← hex_digit a; l ← hex_digit b; Some (h * 16 + l).

(** The loop over the two-byte slices; [None] is the panic of a slice that
    ends inside a character. *)
Fixpoint hex_pairs (s : bytes) : option (result StoreError bytes) :=
  match s with
  | a :: b :: rest =>
      match rest with
      | c :: _ => if is_cont c then None else Some tt
      | [] => Some tt
      end ≫= λ _,
      match from_str_radix16 a b with
      | None => Some (Err (Corrupt (Lit "bad hex: {e}")))
      | Some v =>
          r ← hex_pairs rest;
          Some (let* l := r in Ok (zb v :: l))
      end
  | _ => Some (Ok [])
  end.

Definition hex_decode (s : bytes) : option (result StoreError bytes) :=
  if negb (len s mod 2 =? 0) then Some (Err (Corrupt (Lit "odd hex length")))
  else hex_pairs s.

(** ** [stickers/tokens.rs] *)

Definition COLON : byte := zb 58.
Definition token_head : bytes := [COLON; zb 101; COLON].

(** [b.is_ascii_hexdigit() && !b.is_ascii_uppercase()] *)
Definition lower_hex (b : byte) : bool := in_range 48 57 (bz b) || in_range 97 102 (bz b).

(** [str::is_char_boundary] below the end of the text. *)
Definition char_boundary (text : bytes) (i : nat) : bool :=
  match text !! i with
  | Some b => negb (is_cont b)
  | None => true
  end.

Definition slice (text : bytes) (i j : nat) : bytes := take (j - i) (drop i text).

(** The token that starts at [i], when the text has one there. *)
Definition token_at (text : bytes) (i : nat) : bool :=
  bool_decide (slice text i (i + 3) = token_head)
  && (char_boundary text (i + 3) && char_boundary text (i + 19))
  && bool_decide (text !! (i + 19)%nat = Some COLON)
  && forallb lower_hex (slice text (i + 3) (i + 19)).

(** The push of one decoded prefix. *)
Definition push_prefix (hex : bytes) (out : list bytes) : list bytes :=
  match hex_decode hex with
  | Some (Ok decoded) =>
      if (length decoded =? 8)%nat && negb (bool_decide (decoded ∈ out)) then out ++ [decoded] else out
  | _ => out
  end.

(** The [while] loop; [None] when the fuel is out before the loop ends. *)
Fixpoint extract_loop (fuel : nat) (text : bytes) (i : nat) (out : list bytes)
    : option (list bytes) :=
  match fuel with
  | O => None
  | S fuel =>
      if (i + 20 <=? length text)%nat then
        if token_at text i
        then extract_loop fuel text (i + 20) (push_prefix (slice text (i + 3) (i + 19)) out)
        else extract_loop fuel text (i + 1) out
      else Some out
  end.

Definition extract (text : bytes) : list bytes :=
  default [] (extract_loop (S (length text)) text 0 []).

Definition token_for (sha256 : bytes) : bytes :=
  token_head ++ hex_encode (take 8 sha256) ++ [COLON].

(** ** Hex round trip *)

Lemma nibbles b : 0 ≤ Z.shiftr (bz b) 4 < 16 ∧ 0 ≤ Z.land (bz b) 15 < 16
  ∧ Z.shiftr (bz b) 4 * 16 + Z.land (bz b) 15 = bz b.
Proof.
  pose proof (bz_range b). rewrite Z.shiftr_div_pow2 by lia.
  change 15 with (Z.ones 4). rewrite Z.land_ones by lia. change (2 ^ 4) with 16.
  pose proof (Z.div_mod (bz b) 16). pose proof (Z.mod_pos_bound (bz b) 16). 
  assert (bz b / 16 < 16) by (apply Z.div_lt_upper_bound; lia).
  assert (0 ≤ bz b / 16) by (apply Z.div_pos; lia). lia.
Qed.

Lemma bz_hex_char d : 0 ≤ d < 16 → bz (hex_char d) = if d <? 10 then 48 + d else 87 + d.
Proof. intros Hd. unfold hex_char. apply bz_zb_small. unfold is_u8, u8_max. case_match; lia. Qed.

Lemma hex_digit_char d : 0 ≤ d < 16 → hex_digit (hex_char d) = Some d.
Proof.
  intros Hd. unfold hex_digit, in_range. rewrite bz_hex_char by done.
  destruct (Z.ltb_spec d 10).
  - rewrite (proj2 (andb_true_iff _ _)) by lia. f_equal. lia.
  - rewrite (proj2 (andb_false_iff _ _)), (proj2 (andb_true_iff _ _)) by lia. f_equal. lia.
Qed.

Lemma lower_hex_char d : 0 ≤ d < 16 → lower_hex (hex_char d) = true.
Proof.
  intros Hd. unfold lower_hex, in_range. rewrite bz_hex_char by done.
  apply orb_true_iff. rewrite !andb_true_iff. case_match; [left|right]; lia.
Qed.

Lemma lower_hex_ascii b : lower_hex b = true → is_cont b = false ∧ bz b ≠ 43.
Proof.
  unfold lower_hex, is_cont, in_range. rewrite orb_true_iff, !andb_true_iff.
  intros H. split; [apply andb_false_iff; left|]; lia.
Qed.

Lemma from_str_radix16_char b :
  from_str_radix16 (hex_char (Z.shiftr (bz b) 4)) (hex_char (Z.land (bz b) 15)) = Some (bz b).
Proof.
  destruct (nibbles b) as (Hh & Hl & Hb). unfold from_str_radix16.
  destruct (lower_hex_ascii _ (lower_hex_char _ Hh)) as [_ Hp].
  rewrite (proj2 (Z.eqb_neq _ _)) by done. rewrite !hex_digit_char by done. cbn. by rewrite Hb.
Qed.

Lemma hex_encode_cons b bs :
  hex_encode (b :: bs)
  = hex_char (Z.shiftr (bz b) 4) :: hex_char (Z.land (bz b) 15) :: hex_encode bs.
Proof. done. Qed.

Lemma length_hex_encode bs : length (hex_encode bs) = (2 * length bs)%nat.
Proof. induction bs; [done|]. rewrite hex_encode_cons. cbn [length]. lia. Qed.

Lemma hex_encode_lower bs : forallb lower_hex (hex_encode bs) = true.
Proof.
  induction bs as [|b bs IH]; [done|]. rewrite hex_encode_cons. cbn [forallb].
  destruct (nibbles b) as (Hh & Hl & _). by rewrite !lower_hex_char, IH.
Qed.

Lemma hex_pairs_encode bs : hex_pairs (hex_encode bs) = Some (Ok bs).
Proof.
  induction bs as [|b bs IH]; [done|]. rewrite hex_encode_cons. cbn [hex_pairs].
  rewrite from_str_radix16_char, IH. cbn. rewrite zb_bz.
  destruct bs as [|c bs]; [done|]. rewrite hex_encode_cons.
  destruct (nibbles c) as (Hh & _ & _).
  by destruct (lower_hex_ascii _ (lower_hex_char _ Hh)) as [-> _].
Qed.

Lemma hex_decode_encode bs : hex_decode (hex_encode bs) = Some (Ok bs).
Proof.
  unfold hex_decode, len. rewrite length_hex_encode, Nat2Z.inj_mul, Z.mul_comm, Z.mod_mul by lia.
  apply hex_pairs_encode.
Qed.

Lemma hex_encode_inj a b : hex_encode a = hex_encode b → a = b.
Proof.
  intros H. pose proof (hex_decode_encode a) as Ha. rewrite H, hex_decode_encode in Ha.
  by injection Ha.
Qed.

(** ** The token scan *)

(** The loop seen from the bytes that are left. *)
Fixpoint scan (fuel : nat) (l : bytes) (out : list bytes) : option (list bytes) :=
  match fuel with
  | O => None
  | S fuel =>
      if (20 <=? length l)%nat then
        if token_at l 0 then scan fuel (drop 20 l) (push_prefix (slice l 3 19) out)
        else scan fuel (drop 1 l) out
      else Some out
  end.

Lemma slice_drop text i a b : slice text (i + a) (i + b) = slice (drop i text) a b.
Proof. unfold slice. rewrite drop_drop. f_equal. lia. Qed.

Lemma token_at_drop text i : token_at text i = token_at (drop i text) 0.
Proof.
  unfold token_at, char_boundary. rewrite !lookup_drop, !slice_drop.
  replace (slice text i (i + 3)) with (slice (drop i text) 0 3); [done|].
  rewrite <- slice_drop. by rewrite Nat.add_0_r.
Qed.

Lemma extract_loop_scan fuel text i out : extract_loop fuel text i out = scan fuel (drop i text) out.
Proof.
  revert i out. induction fuel as [|fuel IH]; intros i out; [done|]. cbn [extract_loop scan].
  rewrite length_drop, token_at_drop, slice_drop, !IH, !drop_drop.
  destruct (Nat.leb_spec (i + 20) (length text)), (Nat.leb_spec 20 (length text - i)); done || lia.
Qed.

Lemma scan_total fuel l out : (length l < fuel)%nat → is_Some (scan fuel l out).
Proof.
  revert l out. induction fuel as [|fuel IH]; intros l out Hl; [lia|]. cbn [scan].
  destruct (Nat.leb_spec 20 (length l)); [|by eexists].
  destruct (token_at l 0); apply IH; rewrite length_drop; lia.
Qed.

Lemma scan_mono fuel k l out r : scan fuel l out = Some r → scan (fuel + k) l out = Some r.
Proof.
  revert l out. induction fuel as [|fuel IH]; intros l out; [done|]. cbn [scan Nat.add].
  destruct (20 <=? length l)%nat; [|done]. destruct (token_at l 0); apply IH.
Qed.

Definition scans (l : bytes) (out r : list bytes) : Prop := ∃ fuel, scan fuel l out = Some r.

Lemma scans_extract l r : scans l [] r → extract l = r.
Proof.
  intros [fuel H]. unfold extract. rewrite extract_loop_scan, drop_0.
  destruct (scan_total (S (length l)) l []) as [r' H']; [lia|]. rewrite H'. cbn.
  apply (scan_mono _ (S (length l))) in H. apply (scan_mono _ fuel) in H'.
  rewrite Nat.add_comm in H'. congruence.
Qed.

Lemma scans_short l out : (length l < 20)%nat → scans l out out.
Proof. intros H. exists 1%nat. cbn [scan]. by rewrite (proj2 (Nat.leb_gt _ _)). Qed.

Lemma scans_skip b l out r : b ≠ COLON → scans l out r → scans (b :: l) out r.
Proof.
  intros Hb [fuel H]. destruct (decide (20 ≤ length (b :: l))%nat) as [Hl|Hl].
  - exists (S fuel). cbn [scan]. rewrite (proj2 (Nat.leb_le _ _)) by done.
    assert (token_at (b :: l) 0 = false) as ->; [|done].
    unfold token_at. rewrite bool_decide_eq_false_2; [done|]. unfold slice, token_head. cbn. congruence.
  - assert (r = out) as ->; [|apply scans_short; lia]. cbn [length] in Hl.
    destruct fuel; [done|]. cbn [scan] in H. rewrite (proj2 (Nat.leb_gt _ _)) in H by lia. by injection H.
Qed.

Lemma scans_plain p l out r : Forall (λ b, b ≠ COLON) p → scans l out r → scans (p ++ l) out r.
Proof. induction 1; [done|]. intros. by apply scans_skip; auto. Qed.

Lemma scans_tail p out : Forall (λ b, b ≠ COLON) p → scans p out out.
Proof.
  intros H. rewrite <- (app_nil_r p). apply scans_plain; [done|]. apply scans_short. cbn. lia.
Qed.

Lemma token_at_token h l :
  length h = 16%nat → forallb lower_hex h = true →
  token_at (token_head ++ h ++ COLON :: l) 0 = true ∧ slice (token_head ++ h ++ COLON :: l) 3 19 = h.
Proof.
  intros Hh Hx.
  assert (Hs : slice (token_head ++ h ++ COLON :: l) 3 19 = h)
    by (unfold slice; change (drop 3 _) with (h ++ COLON :: l); change (19 - 3)%nat with 16%nat;
        by rewrite take_app_length').
  split; [|done]. unfold token_at.
  assert ((token_head ++ h ++ COLON :: l) !! 19%nat = Some COLON) as H19
    by (rewrite app_assoc, lookup_app_r; rewrite ?length_app, Hh; done).
  assert ((token_head ++ h ++ COLON :: l) !! 3%nat = head h) as H3 by (by destruct h).
  unfold char_boundary. cbn [Nat.add]. rewrite Hs, H19, H3, Hx.
  rewrite !bool_decide_eq_true_2 by done. rewrite andb_true_r.
  destruct h as [|b h]; [done|]. cbn in Hx |- *. apply andb_true_iff in Hx as [Hb _].
  by rewrite (proj1 (lower_hex_ascii _ Hb)).
Qed.

(** First occurrences, in order. *)
Definition add_distinct (out : list bytes) (p : bytes) : list bytes :=
  if bool_decide (p ∈ out) then out else out ++ [p].
Definition distinct (l : list bytes) : list bytes := foldl add_distinct [] l.

Lemma push_prefix_hex p out :
  length p = 8%nat →
  push_prefix (hex_encode p) out = add_distinct out p.
Proof.
  intros Hp. unfold push_prefix, add_distinct. rewrite hex_decode_encode, Hp. cbn.
  by destruct (bool_decide (p ∈ out)).
Qed.

Lemma scans_token sha l out r :
  (8 ≤ length sha)%nat →
  scans l (add_distinct out (take 8 sha)) r →
  scans (token_for sha ++ l) out r.
Proof.
  intros Hs [fuel H]. assert (Hp : length (take 8 sha) = 8%nat) by (rewrite length_take; lia).
  assert (Hh : length (hex_encode (take 8 sha)) = 16%nat) by (rewrite length_hex_encode; lia).
  exists (S fuel). unfold token_for. rewrite <- !app_assoc. cbn [app scan].
  destruct (token_at_token _ l Hh (hex_encode_lower _)) as [Ht Hsl].
  unfold token_head in *. cbn [app] in *. rewrite Ht, Hsl, push_prefix_hex by done.
  rewrite (proj2 (Nat.leb_le _ _)); [|cbn [length]; rewrite length_app, Hh; cbn; lia].
  replace (drop 20 _) with l; [done|]. cbn. rewrite drop_app, Hh.
  rewrite drop_ge by lia. by cbn.
Qed.

(** A text built from plain stretches and tokens. *)
Definition render (pieces : list (bytes * bytes)) (tail : bytes) : bytes :=
  concat ((λ p : bytes * bytes, p.1 ++ token_for p.2) <$> pieces) ++ tail.

Definition piece_ok (p : bytes * bytes) : Prop :=
  Forall (λ b, b ≠ COLON) p.1 ∧ length p.2 = 32%nat.

(** A text made of stretches without a colon and the tokens of item
    hashes yields exactly the first eight bytes of those hashes, each once
    and in order of first appearance: what one side writes with [token_for]
    the other side finds with [extract]. *)
Theorem extract_rendered pieces tail :
  Forall piece_ok pieces → Forall (λ b, b ≠ COLON) tail →
  extract (render pieces tail) = distinct ((λ p, take 8 p.2) <$> pieces).
Proof.
  intros Hp Ht. apply scans_extract. unfold distinct. generalize (@nil bytes).
  induction Hp as [|[p sha] pieces [Hpl Hs] _ IH]; intros out.
  - by apply scans_tail.
  - unfold render. cbn [fmap list_fmap concat foldl fst snd] in *. rewrite <- !app_assoc.
    apply scans_plain; [done|]. apply scans_token; [lia|]. apply IH.
Qed.

Lemma extract_rendered_witness :
  extract (render [([zb 104], replicate 32 (zb 170)); ([zb 32], replicate 32 (zb 187));
                   ([], replicate 32 (zb 170))] [zb 33])
  = [replicate 8 (zb 170); replicate 8 (zb 187)].
Proof.
  rewrite extract_rendered; [by vm_compute| |]; repeat constructor; by vm_compute.
Defined.

(** The scan ends on every text: the loop with its fuel always returns. *)
Theorem extract_terminates text :
  extract_loop (S (length text)) text 0 [] = Some (extract text).
Proof.
  unfold extract. destruct (scan_total (S (length text)) text []) as [r Hr]; [lia|].
  rewrite <- (drop_0 text) in Hr at 2. rewrite <- extract_loop_scan in Hr. by rewrite Hr.
Qed.
