(* ===== verification/PairingQr.v ===== *)
(** The pairing payload ([core/src/pairing/qr.rs]) and what both sides derive
    from it ([core/src/pairing/sas.rs]). XEdDSA, the identity-key parser,
    Base58, Base32 and the hashes belong to other crates and are parameters. *)

From S2P Require Import Prelude Bin Limits RustStr Frame Onion Hex.

Definition QR_LABEL : bytes := str_bytes "SPAIR7".
Definition QR_VERSION : Z := 1.
Definition OFFER_TTL_SECONDS : Z := 300.
Definition MAX_FIELD : Z := 4096.

Inductive PairingError :=
| Invalid (detail : Detail)
| Expired
| BadSignature.

Record PairingPayload := mkPairingPayload {
  qp_identity_key : bytes;
  qp_registration_id : Z;
  qp_pre_key : option (Z * bytes);
  qp_signed_pre_key_id : Z;
  qp_signed_pre_key_public : bytes;
  qp_signed_pre_key_signature : bytes;
  qp_kyber_pre_key_id : Z;
  qp_kyber_pre_key_public : bytes;
  qp_kyber_pre_key_signature : bytes;
  qp_onion : bytes;
  qp_client_auth_public : bytes;
  qp_nonce : bytes;
  qp_expires_at : Z;
  qp_signature : bytes;
}.

(** ** The writer: each method appends. [lp] prefixes a [u16] length. *)

Definition qw_lp (v : bytes) : bytes := be_bytes 2 (len v) ++ v.

Definition signed_body (p : PairingPayload) : bytes :=
  QR_LABEL ++ [zb QR_VERSION]
  ++ qw_lp (qp_identity_key p) ++ be_bytes 4 (qp_registration_id p)
  ++ match qp_pre_key p with
     | Some (id, pk) => [zb 1] ++ be_bytes 4 id ++ qw_lp pk
     | None => [zb 0]
     end
  ++ be_bytes 4 (qp_signed_pre_key_id p) ++ qw_lp (qp_signed_pre_key_public p)
  ++ qw_lp (qp_signed_pre_key_signature p)
  ++ be_bytes 4 (qp_kyber_pre_key_id p) ++ qw_lp (qp_kyber_pre_key_public p)
  ++ qw_lp (qp_kyber_pre_key_signature p)
  ++ qw_lp (qp_onion p) ++ qw_lp (qp_client_auth_public p) ++ qw_lp (qp_nonce p)
  ++ be_bytes 8 (qp_expires_at p).

Definition qr_encode (p : PairingPayload) : bytes :=
  signed_body p ++ be_bytes 2 (len (qp_signature p)) ++ qp_signature p.

(** ** The reader: a cursor is the bytes still ahead of it, [buf[pos..]]. *)

Definition qparser (A : Type) : Type := bytes → result PairingError (A * bytes).

Definition qret {A} (a : A) : qparser A := λ l, Ok (a, l).
Definition qfail {A} (e : PairingError) : qparser A := λ _, Err e.
Definition qbind {A B} (p : qparser A) (k : A → qparser B) : qparser B := λ l,
  match p l with
  | Ok (a, l) => k a l
  | Err e => Err e
  end.
Notation "x <-* p ;; k" := (qbind p (λ x, k))
  (at level 20, p at level 99, k at level 200, right associativity) : schat_scope.

Definition q_take (n : Z) : qparser bytes := λ l,
  if n >? len l then Err (Invalid (Lit "truncated"))
  else Ok (take (Z.to_nat n) l, drop (Z.to_nat n) l).

Definition q_u8 : qparser Z := l <-* q_take 1 ;; qret (be_val l).
Definition q_u32be : qparser Z := l <-* q_take 4 ;; qret (be_val l).
Definition q_u64be : qparser Z := l <-* q_take 8 ;; qret (be_val l).

Definition q_lp (max : Z) : qparser bytes :=
  l <-* q_take 2 ;;
  let n := be_val l in
  if (n =? 0) || (n >? max) then qfail (Invalid (Fmt "lp length {len} out of range" [n]))
  else q_take n.

Definition q_expect_end : qparser unit := λ l,
  if len l =? 0 then Ok (tt, l) else Err (Invalid (Lit "trailing bytes")).

(** [.try_into()] to an array of [n] bytes. *)
Definition q_array (n : Z) (what : string) (l : bytes) : qparser bytes :=
  if len l =? n then qret l else qfail (Invalid (Lit what)).

Definition qr_body : qparser PairingPayload :=
  label <-* q_take (len QR_LABEL) ;;
  if negb (bool_decide (label = QR_LABEL)) then qfail (Invalid (Lit "label mismatch")) else
  version <-* q_u8 ;;
  if negb (version =? QR_VERSION) then qfail (Invalid (Lit "unsupported version")) else
  identity_key <-* q_lp 64 ;;
  registration_id <-* q_u32be ;;
  has_prekey <-* q_u8 ;;
  pre_key <-* (if has_prekey =? 0 then qret None
               else if has_prekey =? 1 then
                 id <-* q_u32be ;;
                 pk <-* q_lp 64 ;;
                 qret (Some (id, pk))
               else qfail (Invalid (Fmt "has_prekey {other}" [has_prekey]))) ;;
  signed_pre_key_id <-* q_u32be ;;
  signed_pre_key_public <-* q_lp 64 ;;
  signed_pre_key_signature <-* q_lp 64 ;;
  kyber_pre_key_id <-* q_u32be ;;
  kyber_pre_key_public <-* q_lp MAX_FIELD ;;
  kyber_pre_key_signature <-* q_lp 64 ;;
  onion <-* q_lp ONION_RAW_BYTES ;;
  onion <-* q_array ONION_RAW_BYTES "onion length" onion ;;
  client_auth_public <-* q_lp 32 ;;
  client_auth_public <-* q_array 32 "client auth length" client_auth_public ;;
  nonce <-* q_lp 32 ;;
  nonce <-* q_array 32 "nonce length" nonce ;;
  expires_at <-* q_u64be ;;
  signature <-* q_lp 64 ;;
  _ <-* q_expect_end ;;
  qret (mkPairingPayload identity_key registration_id pre_key signed_pre_key_id signed_pre_key_public
          signed_pre_key_signature kyber_pre_key_id kyber_pre_key_public kyber_pre_key_signature
          onion client_auth_public nonce expires_at signature).

Definition qr_decode (bs : bytes) : result PairingError PairingPayload :=
  if len bs >? MAX_QR_PAYLOAD_BYTES
  then Err (Invalid (Fmt "payload too large: {} > {}" [len bs; MAX_QR_PAYLOAD_BYTES]))
  else let* p := qr_body bs in Ok p.1.

(** ** [sas.rs] *)

Definition SAS_LABEL : bytes := str_bytes "s//chat6-v7 SAS".
Definition RELATIONSHIP_LABEL : bytes := str_bytes "s//chat6-v7 REL".

(** [Ord] on byte slices: lexicographic. *)
Fixpoint slice_le (a b : bytes) : bool :=
  match a, b with
  | [], _ => true
  | _ :: _, [] => false
  | x :: a, y :: b => if bz x <? bz y then true else if bz y <? bz x then false else slice_le a b
  end.

Definition ordered (a b : bytes) : bytes * bytes := if slice_le a b then (a, b) else (b, a).

(** [format!("{n:08}")] of a number below ten to the eighth. *)
Fixpoint decimal (n : nat) (v : Z) : bytes :=
  match n with
  | O => []
  | S n => zb (48 + (v / 10 ^ Z.of_nat n) mod 10) :: decimal n v
  end.

Section Derived.
Context (sha256 : bytes → bytes).

Definition relationship_id (identity_a identity_b : bytes) : bytes :=
  let '(min, max) := ordered identity_a identity_b in
  sha256 (RELATIONSHIP_LABEL ++ min ++ max).

Definition sas (identity_a nonce_a identity_b nonce_b : bytes) : bytes :=
  let '(min_ik, max_ik, min_nonce, max_nonce) :=
    if slice_le identity_a identity_b then (identity_a, identity_b, nonce_a, nonce_b)
    else (identity_b, identity_a, nonce_b, nonce_a) in
  let digest := sha256 (SAS_LABEL ++ min_ik ++ max_ik ++ min_nonce ++ max_nonce) in
  decimal 8 (be_val (take 8 digest) mod 100000000).
End Derived.

(** ** Signing, verifying, and the one-time code *)

Section Crypto.
Context {IdentityKey : Type}.
(** libsignal: the identity parser, the signature check under an identity's
    public key, and the (possibly failing) signature under a private key. *)
Context (identity_try_from : bytes → option IdentityKey).
Context (verify_signature : IdentityKey → bytes → bytes → bool).
Context (calculate_signature : bytes → option bytes).
Context (BASE32_NOPAD_encode : bytes → bytes) (sha3_256 : bytes → bytes).
Context (bs58_encode : bytes → bytes) (bs58_decode : bytes → option bytes).

Definition with_signature (p : PairingPayload) (sig : bytes) : PairingPayload :=
  mkPairingPayload (qp_identity_key p) (qp_registration_id p) (qp_pre_key p) (qp_signed_pre_key_id p)
    (qp_signed_pre_key_public p) (qp_signed_pre_key_signature p) (qp_kyber_pre_key_id p)
    (qp_kyber_pre_key_public p) (qp_kyber_pre_key_signature p) (qp_onion p)
    (qp_client_auth_public p) (qp_nonce p) (qp_expires_at p) sig.

Definition qr_sign (p : PairingPayload) : result PairingError PairingPayload :=
  let* sig := ok_or (calculate_signature (signed_body p)) (Invalid (Lit "sign: {e}")) in
  Ok (with_signature p sig).

Definition qr_identity (p : PairingPayload) : result PairingError IdentityKey :=
  ok_or (identity_try_from (qp_identity_key p)) (Invalid (Lit "identity key: {e}")).

Definition qr_verify (p : PairingPayload) (now_epoch_seconds : Z) (enforce_expiry : bool)
    : result PairingError unit :=
  if enforce_expiry && (qp_expires_at p <? now_epoch_seconds) then Err Expired
  else
    let* identity := qr_identity p in
    if negb (verify_signature identity (signed_body p) (qp_signature p)) then Err BadSignature
    else if negb (verify_signature identity (qp_signed_pre_key_public p) (qp_signed_pre_key_signature p))
    then Err BadSignature
    else if negb (verify_signature identity (qp_kyber_pre_key_public p) (qp_kyber_pre_key_signature p))
    then Err BadSignature
    else
      let* _ := map_err (λ _, Invalid (Lit "onion: {e}"))
                  (hostname_from_raw BASE32_NOPAD_encode sha3_256 (qp_onion p)) in
      Ok tt.

Definition encode_code (qr_bytes : bytes) : bytes := bs58_encode qr_bytes.

Definition decode_code (code : bytes) : result PairingError bytes :=
  ok_or (bs58_decode (str_trim code)) (Invalid (Lit "base58: {e}")).
End Crypto.

(** ** The codec *)

(** [qreads p bs rest a]: in front of [rest], [p] consumes [bs] and yields [a]. *)
Definition qreads {A} (p : qparser A) (bs rest : bytes) (a : A) : Prop := p (bs ++ rest) = Ok (a, rest).

Lemma qreads_ret {A} (a : A) rest : qreads (qret a) [] rest a.
Proof. done. Qed.

Lemma qreads_bind {A B} (p : qparser A) (k : A → qparser B) xs ys rest a b :
  qreads p xs (ys ++ rest) a → qreads (k a) ys rest b → qreads (qbind p k) (xs ++ ys) rest b.
Proof. intros Hp Hk. unfold qreads, qbind in *. by rewrite <- app_assoc, Hp. Qed.

Lemma qreads_bind_nil {A B} (p : qparser A) (k : A → qparser B) ys rest a b :
  qreads p [] (ys ++ rest) a → qreads (k a) ys rest b → qreads (qbind p k) ys rest b.
Proof. apply (qreads_bind p k []). Qed.

Lemma qreads_if {A} (c : bool) (p q : qparser A) bs rest a :
  c = false → qreads q bs rest a → qreads (if c then p else q) bs rest a.
Proof. by intros ->. Qed.

Lemma qreads_take n xs rest : len xs = n → qreads (q_take n) xs rest xs.
Proof.
  intros <-. unfold qreads, q_take. rewrite len_app. pose proof (len_nonneg rest).
  destruct (Z.gtb_spec (len xs) (len xs + len rest)); [lia|].
  unfold len. by rewrite Nat2Z.id, take_app_length, drop_app_length.
Qed.

Lemma qreads_uint (n : nat) v rest :
  0 ≤ v < 256 ^ Z.of_nat n → qreads (l <-* q_take (Z.of_nat n) ;; qret (be_val l)) (be_bytes n v) rest v.
Proof.
  intros Hv. rewrite <- (app_nil_r (be_bytes n v)). eapply qreads_bind; [apply qreads_take, len_be_bytes|].
  rewrite be_val_bytes_small by done. apply qreads_ret.
Qed.

Lemma qreads_u8 v rest : is_u8 v → qreads q_u8 [zb v] rest v.
Proof. intros Hv. rewrite <- be_bytes_1. apply (qreads_uint 1). unfold is_u8, u8_max in Hv. lia. Qed.
Lemma qreads_u32be v rest : is_u32 v → qreads q_u32be (be_bytes 4 v) rest v.
Proof. intros Hv. apply (qreads_uint 4). unfold is_u32, u32_max in Hv. lia. Qed.
Lemma qreads_u64be v rest : is_u64 v → qreads q_u64be (be_bytes 8 v) rest v.
Proof. intros Hv. apply (qreads_uint 8). unfold is_u64, u64_max in Hv. lia. Qed.

Lemma qreads_lp max xs rest : 1 ≤ len xs ≤ max → max ≤ u16_max → qreads (q_lp max) (qw_lp xs) rest xs.
Proof.
  intros Hx Hm. unfold qw_lp, q_lp. unfold u16_max in Hm.
  eapply qreads_bind; [apply qreads_take, len_be2|].
  rewrite be_val_bytes_small by (change (256 ^ Z.of_nat 2) with 65536; lia).
  apply qreads_if; [lia|]. by apply qreads_take.
Qed.

Lemma qreads_array n what l rest : len l = n → qreads (q_array n what l) [] rest l.
Proof. intros <-. unfold qreads, q_array. by rewrite Z.eqb_refl. Qed.

(** The inverse direction. *)
Lemma qbind_Ok {A B} (p : qparser A) (k : A → qparser B) l b r :
  qbind p k l = Ok (b, r) → ∃ a r1, p l = Ok (a, r1) ∧ k a r1 = Ok (b, r).
Proof. unfold qbind. destruct (p l) as [[a r1]|]; naive_solver. Qed.

Lemma qret_Ok {A} (a b : A) l r : qret a l = Ok (b, r) → a = b ∧ l = r.
Proof. by intros [= -> ->]. Qed.

Lemma q_take_Ok n l xs r : 0 ≤ n → q_take n l = Ok (xs, r) → l = xs ++ r ∧ len xs = n.
Proof.
  intros Hn. unfold q_take. destruct (Z.gtb_spec n (len l)); [done|]. intros [= <- <-].
  rewrite take_drop. split; [done|]. unfold len in *. rewrite length_take. lia.
Qed.

Lemma q_uint_Ok (n : nat) l v r :
  (x <-* q_take (Z.of_nat n) ;; qret (be_val x)) l = Ok (v, r) →
  l = be_bytes n v ++ r ∧ 0 ≤ v < 256 ^ Z.of_nat n.
Proof.
  intros (x & r1 & Ht & Hr)%qbind_Ok. injection Hr as <- <-. apply q_take_Ok in Ht as [-> Hx]; [|lia].
  unfold len in Hx. split; [by rewrite be_bytes_val by lia|].
  pose proof (be_val_range x) as Hv. unfold len in Hv. by rewrite Hx in Hv.
Qed.

Lemma q_u8_Ok l v r : q_u8 l = Ok (v, r) → l = [zb v] ++ r ∧ is_u8 v.
Proof. intros [-> Hv]%(q_uint_Ok 1). rewrite be_bytes_1. split; [done|]. unfold is_u8, u8_max. lia. Qed.
Lemma q_u32be_Ok l v r : q_u32be l = Ok (v, r) → l = be_bytes 4 v ++ r ∧ is_u32 v.
Proof. intros [-> Hv]%(q_uint_Ok 4). split; [done|]. unfold is_u32, u32_max. lia. Qed.
Lemma q_u64be_Ok l v r : q_u64be l = Ok (v, r) → l = be_bytes 8 v ++ r ∧ is_u64 v.
Proof. intros [-> Hv]%(q_uint_Ok 8). split; [done|]. unfold is_u64, u64_max. lia. Qed.

Lemma q_lp_Ok max l xs r : q_lp max l = Ok (xs, r) → l = qw_lp xs ++ r ∧ 1 ≤ len xs ≤ max.
Proof.
  intros (n & r1 & Hn & H)%qbind_Ok. apply q_take_Ok in Hn as [-> Hn]; [|lia].
  pose proof (be_val_range n) as Hv. rewrite Hn in Hv.
  cbv zeta in H. destruct ((be_val n =? 0) || (be_val n >? max)) eqn:E; [discriminate H|].
  apply q_take_Ok in H as [-> Hx]; [|lia]. unfold qw_lp. rewrite <- app_assoc, Hx.
  rewrite be_bytes_val by (unfold len in Hn; lia). split; [done|lia].
Qed.

Lemma q_array_Ok n what l x r r' : q_array n what l r = Ok (x, r') → x = l ∧ r' = r ∧ len l = n.
Proof. unfold q_array. destruct (Z.eqb_spec (len l) n); [|discriminate]. by intros [= <- <-]. Qed.

Lemma q_expect_end_Ok l u r : q_expect_end l = Ok (u, r) → l = [] ∧ r = [].
Proof.
  unfold q_expect_end. destruct (Z.eqb_spec (len l) 0) as [E|]; [|done].
  intros [= _ <-]. by apply len_0_nil in E.
Qed.

Definition field_ok (max : Z) (f : bytes) : Prop := 1 ≤ len f ≤ max.

Definition payload_wf (p : PairingPayload) : Prop :=
  field_ok 64 (qp_identity_key p) ∧ is_u32 (qp_registration_id p)
  ∧ match qp_pre_key p with
    | Some (id, pk) => is_u32 id ∧ field_ok 64 pk
    | None => True
    end
  ∧ is_u32 (qp_signed_pre_key_id p) ∧ field_ok 64 (qp_signed_pre_key_public p)
  ∧ field_ok 64 (qp_signed_pre_key_signature p)
  ∧ is_u32 (qp_kyber_pre_key_id p) ∧ field_ok MAX_FIELD (qp_kyber_pre_key_public p)
  ∧ field_ok 64 (qp_kyber_pre_key_signature p)
  ∧ len (qp_onion p) = ONION_RAW_BYTES ∧ len (qp_client_auth_public p) = 32 ∧ len (qp_nonce p) = 32
  ∧ is_u64 (qp_expires_at p) ∧ field_ok 64 (qp_signature p).

(** One field of the decoder. *)
Ltac qstep :=
  lazymatch goal with
  | |- qreads (qbind (q_lp _) _) _ _ _ => eapply qreads_bind; [apply qreads_lp; [try lia|done]|]
  | |- qreads (qbind q_u32be _) _ _ _ => eapply qreads_bind; [apply qreads_u32be; done|]
  | |- qreads (qbind q_u64be _) _ _ _ => eapply qreads_bind; [apply qreads_u64be; done|]
  | |- qreads (qbind q_u8 _) _ _ _ => eapply qreads_bind; [apply qreads_u8; done|]
  | |- qreads (qbind (q_array _ _ _) _) _ _ _ => eapply qreads_bind_nil; [apply qreads_array; done|]
  | |- qreads (if _ then _ else _) _ _ _ => apply qreads_if; [done|]
  end.

Lemma qr_body_reads p : payload_wf p → qr_body (qr_encode p) = Ok (p, []).
Proof.
  destruct p as [ik rid pk sid spk ss kid kpk ks on ca no ex sg]. unfold payload_wf, field_ok.
  cbn [qp_identity_key qp_registration_id qp_pre_key qp_signed_pre_key_id qp_signed_pre_key_public
    qp_signed_pre_key_signature qp_kyber_pre_key_id qp_kyber_pre_key_public qp_kyber_pre_key_signature
    qp_onion qp_client_auth_public qp_nonce qp_expires_at qp_signature].
  intros (H1 & H2 & H3 & H4 & H5 & H6 & H7 & H8 & H9 & H10 & H11 & H12 & H13 & H14).
  rewrite <- (app_nil_r (qr_encode _)). change (qreads qr_body
    (qr_encode (mkPairingPayload ik rid pk sid spk ss kid kpk ks on ca no ex sg)) []
    (mkPairingPayload ik rid pk sid spk ss kid kpk ks on ca no ex sg)).
  unfold qr_encode, signed_body, qr_body.
  cbn [qp_identity_key qp_registration_id qp_pre_key qp_signed_pre_key_id qp_signed_pre_key_public
    qp_signed_pre_key_signature qp_kyber_pre_key_id qp_kyber_pre_key_public qp_kyber_pre_key_signature
    qp_onion qp_client_auth_public qp_nonce qp_expires_at qp_signature].
  fold (qw_lp sg). rewrite <- (app_nil_r (qw_lp sg)), <- ?app_assoc.
  assert (Ho : 1 ≤ len on ≤ ONION_RAW_BYTES) by (rewrite H10; by vm_compute).
  destruct pk as [[id k]|]; rewrite <- ?app_assoc;
    (eapply qreads_bind; [by apply qreads_take|]); do 6 qstep.
  - destruct H3 as [Hi Hk]. rewrite (app_assoc (be_bytes 4 id)).
    cbn [Z.eqb Pos.eqb]. eapply qreads_bind.
    { rewrite <- (app_nil_r (be_bytes 4 id ++ qw_lp k)), <- app_assoc. do 2 qstep. apply qreads_ret. }
    repeat qstep. eapply qreads_bind_nil; [done|apply qreads_ret].
  - eapply qreads_bind_nil; [apply qreads_ret|].
    repeat qstep. eapply qreads_bind_nil; [done|apply qreads_ret].
Qed.

(** Invert one successful read. *)
Ltac qinv :=
  match goal with
  | H : qbind _ _ _ = Ok _ |- _ =>
      let H1 := fresh "Hrd" in apply qbind_Ok in H as (? & ? & H1 & H)
  | H : q_u8 _ = Ok _ |- _ => apply q_u8_Ok in H as [-> ?]
  | H : q_u32be _ = Ok _ |- _ => apply q_u32be_Ok in H as [-> ?]
  | H : q_u64be _ = Ok _ |- _ => apply q_u64be_Ok in H as [-> ?]
  | H : q_lp _ _ = Ok _ |- _ => apply q_lp_Ok in H as [-> ?]
  | H : q_take _ _ = Ok _ |- _ => apply q_take_Ok in H as [-> ?]; [|done]
  | H : q_array _ _ _ _ = Ok _ |- _ => apply q_array_Ok in H as (? & ? & ?); subst
  | H : q_expect_end _ = Ok _ |- _ => apply q_expect_end_Ok in H as [-> ->]
  | H : qret _ _ = Ok _ |- _ => apply qret_Ok in H as [? ?]; subst
  | H : qfail _ _ = Ok _ |- _ => discriminate H
  | H : (if ?b then _ else _) _ = Ok _ |- _ => let E := fresh "Hif" in destruct b eqn:E
  end.

Lemma qr_body_Ok bs p r : qr_body bs = Ok (p, r) → payload_wf p ∧ bs = qr_encode p ∧ r = [].
Proof.
  unfold qr_body. intros H. repeat qinv;
    repeat match goal with
    | H : negb (bool_decide _) = false |- _ => apply negb_false_iff, bool_decide_eq_true in H as ->
    | H : negb (_ =? _) = false |- _ => apply negb_false_iff, Z.eqb_eq in H as ->
    | H : (_ =? _) = true |- _ => apply Z.eqb_eq in H as ->
    end;
    (split; [unfold payload_wf, field_ok; cbn [qp_identity_key qp_registration_id qp_pre_key
      qp_signed_pre_key_id qp_signed_pre_key_public qp_signed_pre_key_signature qp_kyber_pre_key_id
      qp_kyber_pre_key_public qp_kyber_pre_key_signature qp_onion qp_client_auth_public qp_nonce
      qp_expires_at qp_signature]; split_and!; first [done|lia]|]);
    (split; [|done]); unfold qr_encode, signed_body; cbn [qp_identity_key qp_registration_id qp_pre_key
      qp_signed_pre_key_id qp_signed_pre_key_public qp_signed_pre_key_signature qp_kyber_pre_key_id
      qp_kyber_pre_key_public qp_kyber_pre_key_signature qp_onion qp_client_auth_public qp_nonce
      qp_expires_at qp_signature]; unfold qw_lp; rewrite ?app_nil_r; by rewrite <- ?app_assoc.
Qed.

Lemma qr_decode_iff bs p :
  qr_decode bs = Ok p ↔ payload_wf p ∧ len bs ≤ MAX_QR_PAYLOAD_BYTES ∧ bs = qr_encode p.
Proof.
  unfold qr_decode. destruct (Z.gtb_spec (len bs) MAX_QR_PAYLOAD_BYTES) as [Hl|Hl].
  - split; [done|]. intros (_ & ? & _). lia.
  - rewrite rbind_Ok. split.
    + intros ([q r] & (Hw & -> & ->)%qr_body_Ok & [= <-]). done.
    + intros (Hw & _ & ->). exists (p, []). by rewrite qr_body_reads.
Qed.

Lemma qr_decode_encode p q : payload_wf p → qr_decode (qr_encode p) = Ok q → q = p.
Proof.
  intros Hw H. unfold qr_decode in H. destruct (_ >? _); [done|]. rewrite qr_body_reads in H by done.
  by injection H as <-.
Qed.

(** The pairing payload codec is canonical: a byte string is accepted
    exactly when it is, within the size cap, the encoding of a payload whose
    fields respect their widths (no empty field, 35-byte address, 32-byte
    client key and nonce), and decoding returns that payload. *)
Theorem qr_codec bs p :
  qr_decode bs = Ok p ↔ payload_wf p ∧ len bs ≤ MAX_QR_PAYLOAD_BYTES ∧ bs = qr_encode p.
Proof. apply qr_decode_iff. Qed.

(** ** Safety code and relationship id *)

Lemma slice_le_total a b : slice_le a b = false → slice_le b a = true.
Proof.
  revert b. induction a as [|x a IH]; intros [|y b]; cbn; try done.
  destruct (Z.ltb_spec (bz x) (bz y)), (Z.ltb_spec (bz y) (bz x)); try done; try lia. apply IH.
Qed.

Lemma slice_le_antisym a b : slice_le a b = true → slice_le b a = true → a = b.
Proof.
  revert b. induction a as [|x a IH]; intros [|y b]; cbn; try done.
  destruct (Z.ltb_spec (bz x) (bz y)), (Z.ltb_spec (bz y) (bz x)); try done; try lia.
  intros. f_equal; [apply bz_inj; lia|by apply IH].
Qed.

Lemma ordered_sym a b : ordered a b = ordered b a.
Proof.
  unfold ordered. destruct (slice_le a b) eqn:E1, (slice_le b a) eqn:E2; try done.
  - by rewrite (slice_le_antisym a b).
  - apply slice_le_total in E1. congruence.
Qed.

Lemma length_decimal n v : length (decimal n v) = n.
Proof. induction n; cbn; auto. Qed.

Lemma decimal_digits n v : Forall (λ b, 48 ≤ bz b ≤ 57) (decimal n v).
Proof.
  induction n as [|n IH]; [constructor|]. cbn. constructor; [|done].
  pose proof (Z.mod_pos_bound (v / 10 ^ Z.of_nat n) 10). rewrite bz_zb_small; [lia|]. unfold is_u8, u8_max. lia.
Qed.

(** Both sides derive the same relationship id, and the same eight
    decimal digits to compare, from the two pairing payloads, whichever side
    each of them is on; only for equal identity keys (which pairing refuses)
    does the code depend on the side. *)
Lemma pairing_values_agree sha256 ika na ikb nb :
  relationship_id sha256 ika ikb = relationship_id sha256 ikb ika
  ∧ (ika ≠ ikb → sas sha256 ika na ikb nb = sas sha256 ikb nb ika na)
  ∧ length (sas sha256 ika na ikb nb) = 8%nat
  ∧ Forall (λ b, 48 ≤ bz b ≤ 57) (sas sha256 ika na ikb nb).
Proof.
  split_and!.
  - unfold relationship_id. by rewrite ordered_sym.
  - intros Hne. unfold sas.
    destruct (slice_le ika ikb) eqn:E1, (slice_le ikb ika) eqn:E2; try done.
    + by destruct Hne; apply slice_le_antisym.
    + apply slice_le_total in E1. congruence.
  - unfold sas. destruct (slice_le ika ikb); apply length_decimal.
  - unfold sas. destruct (slice_le ika ikb); apply decimal_digits.
Qed.

(** ** From offer to acceptance *)

Section Offer.
Context {IdentityKey : Type}.
Context (identity_try_from : bytes → option IdentityKey).
Context (verify_signature : IdentityKey → bytes → bytes → bool).
Context (calculate_signature : bytes → option bytes).
Context (BASE32_NOPAD_encode : bytes → bytes) (sha3_256 : bytes → bytes).
Context (bs58_encode : bytes → bytes) (bs58_decode : bytes → option bytes).
Context (ik : IdentityKey).

(** What the crates document: signing succeeds and verifies under the
    signer's identity with a 64-byte signature; Base58 is printable and
    decodes to what was encoded; a digest has 32 bytes. *)
Context (sign_verifies : ∀ m, ∃ s, calculate_signature m = Some s ∧ len s = 64 ∧ verify_signature ik m s = true).
Context (bs58_graphic : ∀ b, forallb graphic (bs58_encode b) = true).
Context (bs58_inverse : ∀ b, bs58_decode (bs58_encode b) = Some b).
Context (sha3_length : ∀ bs, len (sha3_256 bs) = 32).

(** An offer ready to sign: its own identity, pre-keys signed by it, and a
    well-formed address. *)
Definition offer_ready (p : PairingPayload) : Prop :=
  payload_wf (with_signature p (replicate 64 (zb 0)))
  ∧ identity_try_from (qp_identity_key p) = Some ik
  ∧ verify_signature ik (qp_signed_pre_key_public p) (qp_signed_pre_key_signature p) = true
  ∧ verify_signature ik (qp_kyber_pre_key_public p) (qp_kyber_pre_key_signature p) = true
  ∧ (∃ k, len k = 32 ∧ qp_onion p = raw_of_pubkey sha3_256 k)
  ∧ len (signed_body p) + 66 ≤ MAX_QR_PAYLOAD_BYTES.

Lemma with_signature_body p sig : signed_body (with_signature p sig) = signed_body p.
Proof. done. Qed.

Lemma decode_code_encode b : decode_code bs58_decode (encode_code bs58_encode b) = Ok b.
Proof. unfold decode_code, encode_code. by rewrite str_trim_graphic, bs58_inverse. Qed.

(** An offer reaches the other side: the signed payload, copied as a
    one-time code and read back, is the payload that was signed; it verifies
    at every instant up to its expiry, is refused as expired at every later
    one, and still verifies without the expiry check (an intro that arrives
    late). *)
Theorem offer_accepted p :
  offer_ready p →
  ∃ q, qr_sign calculate_signature p = Ok q
  ∧ signed_body q = signed_body p
  ∧ (let* bs := decode_code bs58_decode (encode_code bs58_encode (qr_encode q)) in qr_decode bs) = Ok q
  ∧ ∀ now, qr_verify identity_try_from verify_signature BASE32_NOPAD_encode sha3_256 q now true
           = (if qp_expires_at p <? now then Err Expired else Ok tt)
      ∧ qr_verify identity_try_from verify_signature BASE32_NOPAD_encode sha3_256 q now false = Ok tt.
Proof.
  intros (Hw & Hid & Hs & Hk & (k & Hkl & Ho) & Hlen).
  destruct (sign_verifies (signed_body p)) as (sig & Hsig & Hsl & Hv).
  exists (with_signature p sig). unfold qr_sign. rewrite Hsig. split_and!; [done|done| |].
  - rewrite decode_code_encode. cbn [rbind]. apply qr_decode_iff. split_and!; [|unfold qr_encode|done].
    + unfold payload_wf, field_ok in *. cbn in Hw |- *. rewrite Hsl. destruct_and! Hw. by split_and!.
    + rewrite !len_app, len_be2, with_signature_body. cbn [qp_signature with_signature]. rewrite Hsl. lia.
  - intros now.
    assert (Hf : qr_verify identity_try_from verify_signature BASE32_NOPAD_encode sha3_256
      (with_signature p sig) now false = Ok tt).
    { unfold qr_verify, qr_identity. cbn [andb qp_identity_key with_signature]. rewrite Hid. cbn [ok_or rbind].
      rewrite with_signature_body. cbn [with_signature qp_signature qp_signed_pre_key_public
        qp_signed_pre_key_signature qp_kyber_pre_key_public qp_kyber_pre_key_signature qp_onion].
      rewrite Hv, Hs, Hk. cbn [negb]. unfold hostname_from_raw.
      rewrite Ho, (proj2 (checked_pubkey_iff sha3_256 sha3_length _ _ _ k (len_raw_of_pubkey sha3_256 sha3_length k Hkl)));
        [done|by split]. }
    split; [|done]. unfold qr_verify in *. cbn [andb] in *. cbn [qp_expires_at with_signature].
    by destruct (qp_expires_at p <? now).
Qed.
End Offer.

(** An offer under toy crypto: every signature is sixty-four zeros. *)
Definition toy_bs58_decode (s : bytes) : option bytes :=
  match hex_decode s with
  | Some (Ok b) => Some b
  | _ => None
  end.

Definition demo_payload : PairingPayload :=
  mkPairingPayload (replicate 33 (zb 5)) 7 (Some (1, replicate 33 (zb 6))) 1 (replicate 33 (zb 8))
    (replicate 64 (zb 0)) 1 (replicate 40 (zb 9)) (replicate 64 (zb 0))
    (raw_of_pubkey (λ _, replicate 32 (zb 3)) (replicate 32 (zb 2))) (replicate 32 (zb 4))
    (replicate 32 (zb 1)) 1300 [].

Lemma hex_encode_graphic b : forallb graphic (hex_encode b) = true.
Proof.
  pose proof (hex_encode_lower b) as H. rewrite forallb_forall in H |- *. intros x Hx. apply H in Hx.
  unfold lower_hex, graphic, in_range in *. lia.
Qed.

Lemma offer_accepted_witness :
  ∃ q, qr_sign (λ _, Some (replicate 64 (zb 0))) demo_payload = Ok q
  ∧ (let* bs := decode_code toy_bs58_decode (encode_code hex_encode (qr_encode q)) in qr_decode bs) = Ok q.
Proof.
  destruct (offer_accepted (λ b, Some b) (λ _ _ s, bool_decide (s = replicate 64 (zb 0)))
              (λ _, Some (replicate 64 (zb 0))) b32_encode35 (λ _, replicate 32 (zb 3)) hex_encode toy_bs58_decode
              (replicate 33 (zb 5))) with (p := demo_payload) as (q & H1 & _ & H2 & _);
    [| | | | |by exists q].
  - intros m. by exists (replicate 64 (zb 0)).
  - apply hex_encode_graphic.
  - intros b. unfold toy_bs58_decode. by rewrite hex_decode_encode.
  - done.
  - unfold offer_ready. split_and!; try by vm_compute. exists (replicate 32 (zb 2)). by vm_compute.
Defined.
