(* ===== verification/Control.v ===== *)
(** The control-port client: the reply parser ([core/src/transport/control/
    reply.rs]), the asynchronous events ([events.rs]), the commands and the
    reader task ([control/mod.rs]). Text is the list of its UTF-8 bytes. *)

From S2P Require Import Prelude Bin RustStr Frame Limits RateLimit Hex PairingQr.

(** ** Replies *)

Record Reply := mkReply {
  r_code : Z;
  r_lines : list bytes;
  r_data : list (bytes * bytes);
}.

#[export] Instance reply_eq_dec : EqDecision Reply.
Proof. solve_decision. Defined.

Definition EQUALS : byte := zb 61.

Definition reply_get (r : Reply) (key : bytes) : option bytes :=
  match head (omap (strip_prefix (key ++ [EQUALS])) (r_lines r)) with
  | Some v => Some v
  | None => snd <$> head (filter (λ kv, kv.1 = key) (r_data r))
  end.

Definition reply_is_ok (r : Reply) : bool := r_code r =? 250.

Inductive LineKind := LkEnd | LkMore | LkData.

Record ReplyParser := mkParser {
  p_code : option Z;
  p_lines : list bytes;
  p_data : list (bytes * bytes);
  p_data_key : option bytes;
  p_data_buf : bytes;
}.
Definition parser_new : ReplyParser := mkParser None [] [] None [].

Definition is_digit (b : byte) : bool := in_range 48 57 (bz b).
(** The value of a text of digits. *)
Definition dec_val (l : bytes) : Z := foldl (λ acc b, acc * 10 + (bz b - 48)) 0 l.

Definition line_kind (sep : byte) : result TransportError LineKind :=
  if bz sep =? 32 then Ok LkEnd
  else if bz sep =? 45 then Ok LkMore
  else if bz sep =? 43 then Ok LkData
  else Err (TrControl (Fmt "bad reply separator 0x{other:02x}" [bz sep])).

(** The code, the separator and the text of a reply line. *)
Definition split_reply_line (line : bytes) : result TransportError (Z * LineKind * bytes) :=
  if (len line <? 4) || negb (forallb is_digit (take 3 line))
  then Err (TrControl (Lit "malformed reply line: {line:?}"))
  else
    let* kind := line_kind (default (zb 0) (line !! 3%nat)) in
    Ok (dec_val (take 3 line), kind, drop 4 line).

Definition feed_data (p : ReplyParser) (key line : bytes) : ReplyParser :=
  if decide (line = str_bytes ".")
  then mkParser (p_code p) (p_lines p) (p_data p ++ [(key, p_data_buf p)]) None []
  else
    mkParser (p_code p) (p_lines p) (p_data p) (Some key)
      (p_data_buf p ++ (if decide (p_data_buf p = []) then [] else [LF]) ++ line).

Definition feed (p : ReplyParser) (line : bytes)
    : result TransportError (ReplyParser * option Reply) :=
  match p_data_key p with
  | Some key => Ok (feed_data p key line, None)
  | None =>
      let* '(code, kind, text) := split_reply_line line in
      if negb (from_option (Z.eqb code) true (p_code p))
      then Err (TrControl (Fmt "reply code changed mid-reply: {c} then {code}"
                             [default 0 (p_code p); code]))
      else
        match kind with
        | LkData =>
            let key := default [] (head (split_on EQUALS text)) in
            let inline := from_option snd [] (split_once EQUALS text) in
            Ok (mkParser (Some code) (p_lines p) (p_data p) (Some key) (p_data_buf p ++ inline), None)
        | LkMore => Ok (mkParser (Some code) (p_lines p ++ [text]) (p_data p) None (p_data_buf p), None)
        | LkEnd =>
            Ok (mkParser None [] [] None (p_data_buf p),
                Some (mkReply code (p_lines p ++ [text]) (p_data p)))
        end
  end.

(** ** Events *)

Inductive TorEvent :=
| HsDesc (action : bytes) (args : list bytes)
| StatusGeneral (severity action : bytes) (args : list bytes)
| Circ (action : bytes) (args : list bytes)
| Unknown (raw : bytes).

Definition SPACE : byte := zb 32.

Definition parse_event (line : bytes) : TorEvent :=
  let body := default line (strip_prefix (str_bytes "650 ") line) in
  let parts := split_on SPACE body in
  let head_ := default [] (head parts) in
  let rest := tail parts in
  if decide (head_ = str_bytes "HS_DESC")
  then HsDesc (default [] (rest !! 0%nat)) (drop 1 rest)
  else if decide (head_ = str_bytes "STATUS_GENERAL")
  then StatusGeneral (default [] (rest !! 0%nat)) (default [] (rest !! 1%nat)) (drop 2 rest)
  else if decide (head_ = str_bytes "CIRC")
  then Circ (default [] (rest !! 1%nat)) (drop 2 rest)
  else Unknown body.

(** ** The reader task *)

(** [id] stands for the one-shot sender of a command. *)
Record ControlConn := mkConn {
  cc_parser : ReplyParser;
  cc_pending : list Z;
  cc_sent : list (Z * result TransportError Reply);
  cc_events : list TorEvent;
  cc_open : bool;
}.
Definition conn_new : ControlConn := mkConn parser_new [] [] [] true.

(** The tail of [reader_loop]: every pending command fails. *)
Definition conn_close (c : ControlConn) : ControlConn :=
  mkConn (cc_parser c) [] (cc_sent c ++ ((λ id, (id, Err ControlClosed)) <$> cc_pending c))
    (cc_events c) false.

(** One line read by [reader_loop]. *)
Definition reader_line (c : ControlConn) (line : bytes) : ControlConn :=
  let line := trim_end_matches (length line) [CR] line in
  if starts_with line (str_bytes "650")
  then mkConn (cc_parser c) (cc_pending c) (cc_sent c) (cc_events c ++ [parse_event line]) (cc_open c)
  else
    match feed (cc_parser c) line with
    | Err _ => conn_close c
    | Ok (p, None) => mkConn p (cc_pending c) (cc_sent c) (cc_events c) (cc_open c)
    | Ok (p, Some reply) =>
        match cc_pending c with
        | id :: pending =>
            mkConn p pending (cc_sent c ++ [(id, Ok reply)]) (cc_events c) (cc_open c)
        | [] => mkConn p [] (cc_sent c) (cc_events c) (cc_open c)
        end
    end.

(** The write half of [cmd]: the sender is queued once both writes are done;
    a failed write removes the newest queued sender. *)
Definition cmd_write (c : ControlConn) (id : Z) (written : bool) : ControlConn :=
  let pending :=
    if written then cc_pending c ++ [id] else take (length (cc_pending c) - 1) (cc_pending c) in
  mkConn (cc_parser c) pending (cc_sent c) (cc_events c) (cc_open c).

Inductive ConnInput :=
| InCmd (id : Z) (written : bool)
| InLine (line : bytes)
| InEof.

(** Nothing is read after the loop ended. *)
Definition conn_step (c : ControlConn) (i : ConnInput) : ControlConn :=
  match i with
  | InCmd id written => cmd_write c id written
  | InLine line => if cc_open c then reader_line c line else c
  | InEof => if cc_open c then conn_close c else c
  end.
Definition conn_run (c : ControlConn) (ins : list ConnInput) : ControlConn := foldl conn_step c ins.

(** ** Commands *)

Inductive ControlAuth :=
| NoAuth
| Cookie (cookie : bytes)
| Password (password : bytes).

(** [str::replace] of one ASCII character. *)
Definition replace_byte (c : byte) (by_ l : bytes) : bytes :=
  concat ((λ b, if decide (b = c) then by_ else [b]) <$> l).

Definition QUOTE : byte := zb 34.
Definition BACKSLASH : byte := zb 92.
Definition quote_password (password : bytes) : bytes :=
  [QUOTE]
  ++ replace_byte QUOTE [BACKSLASH; QUOTE] (replace_byte BACKSLASH [BACKSLASH; BACKSLASH] password)
  ++ [QUOTE].

Definition authenticate_command (auth : ControlAuth) : bytes :=
  match auth with
  | NoAuth => str_bytes "AUTHENTICATE"
  | Cookie cookie => str_bytes "AUTHENTICATE " ++ hex_encode cookie
  | Password password => str_bytes "AUTHENTICATE " ++ quote_password password
  end.

Definition setconf_arg (kv : bytes * bytes) : bytes := kv.1 ++ [EQUALS; QUOTE] ++ kv.2 ++ [QUOTE].
Definition setconf_command (pairs : list (bytes * bytes)) : bytes :=
  str_bytes "SETCONF " ++ join [SPACE] (setconf_arg <$> pairs).
Definition resetconf_command (keys : list bytes) : bytes :=
  str_bytes "RESETCONF " ++ join [SPACE] keys.
Definition add_onion_command (key_blob : option bytes) (target : bytes) (client_auth_v3 : list bytes)
    : bytes :=
  str_bytes "ADD_ONION "
  ++ (match key_blob with
      | Some blob => str_bytes "ED25519-V3:" ++ blob
      | None => str_bytes "NEW:ED25519-V3"
      end)
  ++ (if decide (client_auth_v3 = []) then [] else str_bytes " Flags=V3Auth")
  ++ str_bytes " PoWDefensesEnabled=1"
  ++ str_bytes " Port=80," ++ target
  ++ concat ((λ pk, str_bytes " ClientAuthV3=" ++ pk) <$> client_auth_v3).

(** [str::parse] of an unsigned type: an optional [+], at least one digit,
    at most the type's maximum. *)
Definition parse_uint (max : Z) (l : bytes) : option Z :=
  let ds := match l with b :: _ :: _ => if bz b =? 43 then tail l else l | _ => l end in
  if bool_decide (ds ≠ []) && forallb is_digit ds && (dec_val ds <=? max)
  then Some (dec_val ds) else None.
Definition parse_u8 : bytes → option Z := parse_uint u8_max.

Record AddOnionResult := mkAddOnion { ao_service_id : bytes; ao_private_key : option bytes }.

(** What becomes of a command on the wire: the write fails, the reply does
    not come within thirty seconds, the sender is dropped, or it is used. *)
Inductive CmdOutcome :=
| WriteFailed (e : Detail)
| NoReply
| SenderDropped
| Replied (r : result TransportError Reply).

Section Client.
Context {Tor : Type} (tor_exec : Tor → bytes → Tor * CmdOutcome).

Record ControlClient := mkClient {
  cl_tor : Tor;
  cl_budget : TokenBucket;
  cl_limited : Counters;
}.

(** The wait of [cmd] and its check of the reply. *)
Definition cmd_result (o : CmdOutcome) : result TransportError Reply :=
  match o with
  | WriteFailed e => Err (TrIo e)
  | NoReply => Err (TrTimeout (Lit "control command: {command}"))
  | SenderDropped => Err ControlClosed
  | Replied (Err e) => Err e
  | Replied (Ok reply) =>
      if reply_is_ok reply then Ok reply
      else Err (ControlReply (r_code reply) (Lit (bytes_str (join (str_bytes " | ") (r_lines reply)))))
  end.

Definition cmd (now : Z) (c : ControlClient) (command : bytes)
    : ControlClient * result TransportError Reply :=
  let '(budget, allowed) := bucket_check (cl_budget c) now in
  if allowed then
    let '(tor, o) := tor_exec (cl_tor c) command in
    (mkClient tor budget (cl_limited c), cmd_result o)
  else
    (mkClient (cl_tor c) budget (note_limited (cl_limited c) ControlCmd),
     Err (TrControl (Lit "control command rate limited (supervisor guard)"))).

Definition cmd_ok (now : Z) (c : ControlClient) (command : bytes)
    : ControlClient * result TransportError unit :=
  let '(c, r) := cmd now c command in (c, let* _ := r in Ok tt).

Definition authenticate (now : Z) (c : ControlClient) (auth : ControlAuth) :=
  cmd_ok now c (authenticate_command auth).

Definition client_new (now : Z) (tor : Tor) (limited : Counters) : ControlClient :=
  mkClient tor (bucket_new CONTROL_CMD_BURST CONTROL_CMD_PER_SEC now) limited.

Definition setconf (now : Z) (c : ControlClient) (pairs : list (bytes * bytes))
    : ControlClient * result TransportError unit :=
  if decide (pairs = []) then (c, Ok tt) else cmd_ok now c (setconf_command pairs).

Definition resetconf (now : Z) (c : ControlClient) (keys : list bytes)
    : ControlClient * result TransportError unit :=
  if decide (keys = []) then (c, Ok tt) else cmd_ok now c (resetconf_command keys).

Definition signal (now : Z) (c : ControlClient) (sig : bytes) :=
  cmd_ok now c (str_bytes "SIGNAL " ++ sig).

Definition getinfo (now : Z) (c : ControlClient) (key : bytes)
    : ControlClient * result TransportError bytes :=
  let '(c, r) := cmd now c (str_bytes "GETINFO " ++ key) in
  (c, let* reply := r in
      ok_or (reply_get reply key) (TrControl (Lit "GETINFO {key}: key missing in reply"))).

(** The loop of [bootstrap_progress] over the words of the phase. *)
Fixpoint progress_of (words : list bytes) : result TransportError Z :=
  match words with
  | [] => Err (TrControl (Lit "no PROGRESS in bootstrap phase {phase:?}"))
  | w :: words =>
      match strip_prefix (str_bytes "PROGRESS=") w with
      | Some v => ok_or (parse_u8 v) (TrControl (Lit "bad PROGRESS in {phase:?}"))
      | None => progress_of words
      end
  end.
Definition bootstrap_progress (now : Z) (c : ControlClient) : ControlClient * result TransportError Z :=
  let '(c, r) := getinfo now c (str_bytes "status/bootstrap-phase") in
  (c, let* phase := r in progress_of (split_whitespace phase)).

Definition circuit_established (now : Z) (c : ControlClient) : ControlClient * result TransportError bool :=
  let '(c, r) := getinfo now c (str_bytes "status/circuit-established") in
  (c, let* v := r in Ok (bool_decide (str_trim v = str_bytes "1"))).

Definition setevents (now : Z) (c : ControlClient) (events : list bytes) :=
  cmd_ok now c (str_bytes "SETEVENTS " ++ join [SPACE] events).

Definition add_onion (now : Z) (c : ControlClient) (key_blob : option bytes) (target : bytes)
    (client_auth_v3 : list bytes) : ControlClient * result TransportError AddOnionResult :=
  let '(c, r) := cmd now c (add_onion_command key_blob target client_auth_v3) in
  (c, let* reply := r in
      let* service_id := ok_or (reply_get reply (str_bytes "ServiceID"))
                           (TrControl (Lit "ADD_ONION reply missing ServiceID")) in
      Ok (mkAddOnion service_id (reply_get reply (str_bytes "PrivateKey")))).

Definition del_onion (now : Z) (c : ControlClient) (service_id : bytes) :=
  cmd_ok now c (str_bytes "DEL_ONION " ++ service_id).
End Client.
Arguments ControlClient Tor : clear implicits.

(** ** Reply blocks

    A reply as the control protocol writes it: single lines, data blocks, and
    a final line. *)

Inductive ReplyItem :=
| ItLine (text : bytes)
| ItData (key : bytes) (body : list bytes).

Definition code_line (code : Z) (sep : byte) (text : bytes) : bytes := decimal 3 code ++ sep :: text.
Definition render_item (code : Z) (it : ReplyItem) : list bytes :=
  match it with
  | ItLine text => [code_line code (zb 45) text]
  | ItData key body => code_line code (zb 43) (key ++ [EQUALS]) :: body ++ [str_bytes "."]
  end.
Definition render_reply (code : Z) (items : list ReplyItem) (last : bytes) : list bytes :=
  concat (render_item code <$> items) ++ [code_line code SPACE last].

(** The text kept of a data block: the lines from the first one that is not
    empty, joined by line feeds. *)
Fixpoint drop_blank (body : list bytes) : list bytes :=
  match body with
  | [] :: body => drop_blank body
  | _ => body
  end.
Definition data_text (body : list bytes) : bytes := join [LF] (drop_blank body).

Definition item_line (it : ReplyItem) : option bytes :=
  match it with ItLine text => Some text | _ => None end.
Definition item_data (it : ReplyItem) : option (bytes * bytes) :=
  match it with ItData key body => Some (key, data_text body) | _ => None end.
Definition reply_of (code : Z) (items : list ReplyItem) (last : bytes) : Reply :=
  mkReply code (omap item_line items ++ [last]) (omap item_data items).

Definition reply_item_ok (it : ReplyItem) : Prop :=
  match it with
  | ItLine _ => True
  | ItData key body => (EQUALS ∉ key) ∧ (str_bytes "." ∉ body)
  end.
#[export] Instance item_ok_dec it : Decision (reply_item_ok it).
Proof. destruct it; cbn; apply _. Defined.

Fixpoint feed_all (p : ReplyParser) (lines : list bytes)
    : result TransportError (ReplyParser * list Reply) :=
  match lines with
  | [] => Ok (p, [])
  | l :: lines =>
      let* '(p, r) := feed p l in
      let* '(p, rs) := feed_all p lines in
      Ok (p, option_list r ++ rs)
  end.

(** The lines complete the reply the parser is in. *)
Inductive completes : ReplyParser → list bytes → Reply → Prop :=
| completes_last p l r : feed p l = Ok (parser_new, Some r) → completes p [l] r
| completes_more p p' l ls r : feed p l = Ok (p', None) → completes p' ls r → completes p (l :: ls) r.

Lemma completes_feed_all p ls r : completes p ls r → feed_all p ls = Ok (parser_new, [r]).
Proof.
  induction 1 as [p l r Hf|p p' l ls r Hf _ IH]; cbn [feed_all]; rewrite Hf; cbn; [done|].
  by rewrite IH.
Qed.

Lemma dec_val_acc n v acc :
  foldl (λ acc b, acc * 10 + (bz b - 48)) acc (decimal n v) = acc * 10 ^ Z.of_nat n + v mod 10 ^ Z.of_nat n.
Proof.
  revert acc. induction n as [|n IH]; intros acc; [cbn; rewrite Z.mod_1_r; lia|].
  cbn [decimal foldl]. rewrite IH. pose proof (Z.mod_pos_bound (v / 10 ^ Z.of_nat n) 10 eq_refl).
  rewrite bz_zb_small by (unfold is_u8, u8_max; lia).
  replace (Z.of_nat (S n)) with (Z.of_nat n + 1) by lia. rewrite Z.pow_add_r by lia. change (10 ^ 1) with 10.
  rewrite (Z.rem_mul_r v (10 ^ Z.of_nat n) 10) by lia. lia.
Qed.

Lemma dec_val_decimal n v : 0 ≤ v < 10 ^ Z.of_nat n → dec_val (decimal n v) = v.
Proof. intros H. unfold dec_val. rewrite dec_val_acc, Z.mod_small by done. lia. Qed.

Lemma decimal_is_digit n v : forallb is_digit (decimal n v) = true.
Proof.
  apply forallb_forall. intros b Hb. pose proof (decimal_digits n v) as H. rewrite Forall_forall in H.
  unfold is_digit, in_range. specialize (H b ltac:(by apply list_elem_of_In)). lia.
Qed.

(** A line of a well-formed code is taken apart at its separator. *)
Lemma split_code_line code sep text kind :
  0 ≤ code < 1000 → line_kind sep = Ok kind →
  split_reply_line (code_line code sep text) = Ok (code, kind, text).
Proof.
  intros Hc Hk. unfold split_reply_line, code_line. pose proof (length_decimal 3 code) as Hl.
  assert (Hlen : len (decimal 3 code ++ sep :: text) = 4 + len text)
    by (unfold len; rewrite length_app, Hl; cbn; lia).
  pose proof (len_nonneg text). rewrite Hlen, (proj2 (Z.ltb_ge _ _)) by lia.
  rewrite take_app_length' by done. rewrite decimal_is_digit. cbn [orb negb].
  rewrite lookup_app_r by lia. rewrite Hl. cbn [Nat.sub lookup list_lookup default id from_option].
  rewrite Hk. cbn [rbind]. rewrite dec_val_decimal by (cbn; lia).
  rewrite drop_app_ge, Hl by lia. done.
Qed.

Ltac feed_unfold := unfold feed, feed_data; cbn [p_data_key p_code p_lines p_data p_data_buf].

Definition in_code (code : Z) (co : option Z) : Prop := co = None ∨ co = Some code.
Lemma in_code_eqb code co : in_code code co → from_option (Z.eqb code) true co = true.
Proof. intros [->| ->]; cbn; [done|apply Z.eqb_refl]. Qed.

(** The lines of a data block, up to the lone dot. *)
Lemma completes_body co lines data key buf body ls r :
  str_bytes "." ∉ body →
  completes (mkParser co lines (data ++ [(key, if decide (buf = []) then data_text body
                                              else join [LF] (buf :: body))]) None []) ls r →
  completes (mkParser co lines data (Some key) buf) (body ++ str_bytes "." :: ls) r.
Proof.
  revert buf. induction body as [|l body IH]; intros buf Hd Hc.
  - cbn [app]. eapply completes_more; [|exact Hc]. feed_unfold.
    rewrite (decide_True (P := str_bytes "." = _)) by done. case_decide; by subst.
  - apply not_elem_of_cons in Hd as [Hl Hd]. cbn [app]. eapply completes_more.
    { feed_unfold. rewrite (decide_False (P := l = _)) by done. reflexivity. }
    apply IH; [done|]. destruct (decide (buf = [])) as [->|Hb].
    + cbn [app]. destruct l as [|b l]; [by rewrite decide_True|by rewrite decide_False].
    + rewrite decide_False by (by destruct buf).
      assert (He : join [LF] ((buf ++ [LF] ++ l) :: body) = join [LF] (buf :: l :: body)); [|by rewrite He].
      destruct body; cbn [join]; by rewrite <- ?app_assoc.
Qed.

Lemma render_completes_from code items last co lines data :
  0 ≤ code < 1000 → in_code code co → Forall reply_item_ok items →
  completes (mkParser co lines data None []) (render_reply code items last)
    (mkReply code (lines ++ omap item_line items ++ [last]) (data ++ omap item_data items)).
Proof.
  intros Hcode. revert co lines data. induction items as [|it items IH]; intros co lines data Hco Hok.
  - unfold render_reply. cbn [fmap list_fmap concat omap list_omap app]. rewrite app_nil_r. apply completes_last. feed_unfold.
    rewrite (split_code_line _ _ _ LkEnd) by done. cbn [rbind]. by rewrite in_code_eqb.
  - apply Forall_cons in Hok as [Hit Hok]. unfold render_reply. cbn [fmap list_fmap concat]. rewrite <- app_assoc.
    destruct it as [text|key body]; cbn [render_item item_line item_data omap list_omap].
    + cbn [app]. eapply completes_more.
      { feed_unfold.
        rewrite (split_code_line _ _ _ LkMore) by done. cbn [rbind]. rewrite in_code_eqb by done. reflexivity. }
      specialize (IH (Some code) (lines ++ [text]) data). rewrite <- app_assoc in IH. apply IH; [by right|done].
    + destruct Hit as [Hk Hb]. cbn [app]. eapply completes_more.
      { feed_unfold.
        rewrite (split_code_line _ _ _ LkData) by done. cbn [rbind]. rewrite in_code_eqb by done. cbn [negb].
        rewrite split_once_app, split_on_app by done. reflexivity. }
      rewrite <- app_assoc. apply completes_body; [done|]. rewrite decide_True by done.
      specialize (IH (Some code) lines (data ++ [(key, data_text body)])). rewrite <- app_assoc in IH.
      apply IH; [by right|done].
Qed.

(** A reply written by the control protocol, single lines and data
    blocks in any order, is read back: the parser accepts every line, returns
    one reply after the last one with the code, the lines and the data blocks
    (without their leading empty lines) in order, and is back in its initial
    state for the next reply. *)
Theorem reply_roundtrip code items last :
  0 ≤ code < 1000 → Forall reply_item_ok items →
  feed_all parser_new (render_reply code items last) = Ok (parser_new, [reply_of code items last]).
Proof.
  intros Hc Hok. apply completes_feed_all. apply (render_completes_from code items last None [] []); [done|by left|done].
Qed.

Definition demo_items : list ReplyItem :=
  [ItLine (str_bytes "version=0.4.8"); ItData (str_bytes "onions/current") [str_bytes "a"; []; str_bytes "b"]].

Lemma reply_roundtrip_witness :
  feed_all parser_new (render_reply 250 demo_items (str_bytes "OK"))
  = Ok (parser_new, [mkReply 250 [str_bytes "version=0.4.8"; str_bytes "OK"]
                       [(str_bytes "onions/current", str_bytes "a" ++ [LF; LF] ++ str_bytes "b")]]).
Proof. apply (reply_roundtrip 250 demo_items (str_bytes "OK")); [lia|]. apply (bool_decide_unpack _). vm_compute. exact I. Defined.

(** ** Commands and their answers *)

Definition received (w : bytes) : bytes := trim_end_matches (length w) [CR] w.
Definition is_event (l : bytes) : bool := starts_with l (str_bytes "650").

(** A control port that answers its commands in order: [q] are the commands
    without an answer, [cur] what is left of the reply under way and the
    reply; commands and events come at any time. *)
Inductive exchange :
  list Z → option (list bytes * Reply) → list ConnInput → list (Z * Reply) → list TorEvent → Prop :=
| ex_end q : exchange q None [] [] []
| ex_cmd q cur id ins rs evs :
    exchange (q ++ [id]) cur ins rs evs → exchange q cur (InCmd id true :: ins) rs evs
| ex_event q cur w ins rs evs :
    is_event (received w) = true →
    exchange q cur ins rs evs →
    exchange q cur (InLine w :: ins) rs (parse_event (received w) :: evs)
| ex_begin id q code items last ins rs evs :
    0 ≤ code < 1000 → Forall reply_item_ok items →
    exchange (id :: q) (Some (render_reply code items last, reply_of code items last)) ins rs evs →
    exchange (id :: q) None ins rs evs
| ex_line q w l ls r ins rs evs :
    received w = w → is_event w = false →
    exchange q (Some (l :: ls, r)) ins rs evs →
    exchange q (Some (w :: l :: ls, r)) (InLine w :: ins) rs evs
| ex_last id q w r ins rs evs :
    received w = w → is_event w = false →
    exchange q None ins rs evs →
    exchange (id :: q) (Some ([w], r)) (InLine w :: ins) ((id, r) :: rs) evs.

Definition under_way (p : ReplyParser) (cur : option (list bytes * Reply)) : Prop :=
  match cur with
  | None => p = parser_new
  | Some (ls, r) => completes p ls r
  end.

Lemma reader_event c w :
  is_event (received w) = true →
  reader_line c w
  = mkConn (cc_parser c) (cc_pending c) (cc_sent c) (cc_events c ++ [parse_event (received w)]) (cc_open c).
Proof. unfold reader_line, is_event, received. by intros ->. Qed.

Lemma reader_feed c w p :
  received w = w → is_event w = false → feed (cc_parser c) w = Ok (p, None) →
  reader_line c w = mkConn p (cc_pending c) (cc_sent c) (cc_events c) (cc_open c).
Proof. unfold reader_line, is_event, received. by intros -> -> ->. Qed.

Lemma reader_reply c w p r id pending :
  received w = w → is_event w = false → feed (cc_parser c) w = Ok (p, Some r) →
  cc_pending c = id :: pending →
  reader_line c w = mkConn p pending (cc_sent c ++ [(id, Ok r)]) (cc_events c) (cc_open c).
Proof. unfold reader_line, is_event, received. by intros -> -> -> ->. Qed.

Lemma exchange_run q cur ins rs evs p sent ev :
  exchange q cur ins rs evs → under_way p cur →
  let c := conn_run (mkConn p q sent ev true) ins in
  cc_sent c = sent ++ (prod_map id Ok <$> rs) ∧ cc_events c = ev ++ evs ∧ cc_open c = true.
Proof.
  intros H. revert p sent ev.
  induction H as [q|q cur i ins rs evs _ IH|q cur w ins rs evs Hw _ IH|i q code items last ins rs evs Hc Hok _ IH
                 |q w l ls r ins rs evs Hr Hw _ IH|i q w r ins rs evs Hr Hw _ IH];
    intros p sent ev Hp; cbn [conn_run foldl conn_step] in *.
  - cbn. by rewrite !app_nil_r.
  - by apply IH.
  - cbn [cc_open]. rewrite reader_event by done. cbn [cc_parser cc_pending cc_sent cc_events cc_open].
    destruct (IH p sent (ev ++ [parse_event (received w)]) Hp) as (H1 & H2 & H3).
    rewrite <- app_assoc in H2. done.
  - apply IH. cbn in Hp. subst p. apply (render_completes_from code items last None [] []); [done|by left|done].
  - cbn [under_way] in Hp. inversion Hp as [|? p' ? ? ? Hf Hcm]; subst.
    cbn [cc_open]. rewrite (reader_feed _ _ p') by done. by apply IH.
  - cbn [under_way] in Hp. inversion Hp as [? ? ? Hf|? p' ? ? ? Hf Hcm]; subst; [|by inversion Hcm].
    cbn [cc_open]. rewrite (reader_reply _ _ parser_new r i q) by done. cbn [cc_sent cc_events cc_open].
    destruct (IH parser_new (sent ++ [(i, Ok r)]) ev eq_refl) as (H1 & H2 & H3).
    rewrite <- app_assoc in H1. done.
Qed.

(** C20: Against a control port that answers its commands in order, every
    command gets its own reply: for every interleaving of commands with the
    lines of the reply blocks and with asynchronous events (also in the middle
    of a reply or of a data block), the answers handed out are the replies of
    the blocks, in order, each to the oldest command without one; the events
    go to the event channel in order, and the connection stays open. *)
Theorem replies_in_order ins rs evs :
  exchange [] None ins rs evs →
  let c := conn_run conn_new ins in
  cc_sent c = prod_map id Ok <$> rs ∧ cc_events c = evs ∧ cc_open c = true.
Proof. intros H. exact (exchange_run [] None ins rs evs parser_new [] [] H eq_refl). Qed.

Definition demo_event : bytes := str_bytes "650 HS_DESC FAILED abc".
Definition demo_line (s : string) : ConnInput := InLine (str_bytes s).
Definition demo_ins : list ConnInput :=
  [InCmd 1 true; demo_line "250+key="; demo_line "x"; InLine demo_event; InCmd 2 true; demo_line ".";
   demo_line "250 OK"; demo_line "551 no"].
Definition demo_replies : list (Z * Reply) :=
  [(1, reply_of 250 [ItData (str_bytes "key") [str_bytes "x"]] (str_bytes "OK"));
   (2, reply_of 551 [] (str_bytes "no"))].

Lemma demo_exchange : exchange [] None demo_ins demo_replies [parse_event demo_event].
Proof.
  apply ex_cmd. eapply (ex_begin 1 _ 250 [ItData (str_bytes "key") [str_bytes "x"]] (str_bytes "OK")); [lia| |].
  { apply (bool_decide_unpack _). vm_compute. exact I. }
  apply ex_line; [reflexivity|reflexivity|]. apply ex_line; [reflexivity|reflexivity|].
  apply ex_event; [reflexivity|]. apply ex_cmd.
  apply ex_line; [reflexivity|reflexivity|]. apply ex_last; [reflexivity|reflexivity|].
  apply (ex_begin 2 _ 551 [] (str_bytes "no")); [lia|constructor|].
  apply ex_last; [reflexivity|reflexivity|]. apply ex_end.
Qed.

Lemma replies_in_order_witness :
  exchange [] None demo_ins demo_replies [parse_event demo_event]
  ∧ cc_sent (conn_run conn_new demo_ins) = prod_map id Ok <$> demo_replies.
Proof.
  split; [exact demo_exchange|].
  exact (proj1 (replies_in_order demo_ins demo_replies [parse_event demo_event] demo_exchange)).
Defined.

(** Whatever the peer sends, the answers go out in the order of the commands. *)
Definition cmd_id (i : ConnInput) : option Z :=
  match i with InCmd id true => Some id | _ => None end.
Definition write_ok (i : ConnInput) : bool :=
  match i with InCmd _ false => false | _ => true end.

Definition queued (c : ControlConn) : list Z := (fst <$> cc_sent c) ++ cc_pending c.

Lemma queued_close c : queued (conn_close c) = queued c.
Proof.
  unfold queued, conn_close. cbn. rewrite fmap_app, app_nil_r, <- list_fmap_compose. f_equal.
  etrans; [|apply list_fmap_id]. by apply list_fmap_ext.
Qed.

Lemma queued_step c i : write_ok i = true → queued (conn_step c i) = queued c ++ option_list (cmd_id i).
Proof.
  intros Hw. destruct i as [id []|w|]; cbn in Hw |- *; try done.
  - unfold queued. cbn. by rewrite app_assoc.
  - rewrite app_nil_r. destruct (cc_open c); [|done]. unfold reader_line.
    destruct (starts_with _ _); [done|]. destruct (feed _ _) as [[p [r|]]|e]; [|done|apply queued_close].
    unfold queued. destruct (cc_pending c) as [|i q] eqn:E; cbn; rewrite ?E; [done|].
    rewrite fmap_app, <- app_assoc. done.
  - rewrite app_nil_r. destruct (cc_open c); [apply queued_close|done].
Qed.

(** Whatever bytes arrive on the control connection, as long as the
    writes succeed no command is answered twice, out of order or in another's
    place: the answered commands followed by the waiting ones are the commands
    in the order they were issued; and when the stream of an open connection
    ends, every command has been answered. *)
Theorem commands_answered_once ins :
  forallb write_ok ins = true →
  queued (conn_run conn_new ins) = omap cmd_id ins
  ∧ (cc_open (conn_run conn_new ins) = true →
     fst <$> cc_sent (conn_run conn_new (ins ++ [InEof])) = omap cmd_id ins).
Proof.
  intros Hw.
  assert (Hq : ∀ c ins, forallb write_ok ins = true → queued (conn_run c ins) = queued c ++ omap cmd_id ins).
  { clear ins Hw. intros c ins. revert c. induction ins as [|i ins IH]; intros c; cbn [forallb].
    - intros _. cbn. by rewrite app_nil_r.
    - intros [Hi Hins]%andb_true_iff. unfold conn_run in *. cbn [foldl]. rewrite IH, queued_step by done.
      rewrite <- app_assoc. f_equal. cbn. by destruct (cmd_id i). }
  split; [by apply Hq|]. intros Ho. unfold conn_run. rewrite foldl_app. cbn [foldl conn_step].
  fold (conn_run conn_new ins). rewrite Ho. pose proof (Hq conn_new ins Hw) as H.
  rewrite <- queued_close in H. unfold queued in H. by rewrite app_nil_r in H.
Qed.

Lemma commands_answered_once_witness :
  forallb write_ok demo_ins = true ∧ queued (conn_run conn_new demo_ins) = [1; 2].
Proof.
  split; [reflexivity|]. exact (proj1 (commands_answered_once demo_ins eq_refl)).
Defined.

(** ** Quoting *)

(** The control protocol's reading of a quoted string, after the opening
    quote: the content and what follows the closing one. *)
Fixpoint unquote (l : bytes) : option (bytes * bytes) :=
  match l with
  | [] => None
  | b :: l =>
      if decide (b = QUOTE) then Some ([], l)
      else if decide (b = BACKSLASH) then
        match l with
        | [] => None
        | c :: l => '(x, y) ← unquote l; Some (c :: x, y)
        end
      else '(x, y) ← unquote l; Some (b :: x, y)
  end.

Lemma replace_byte_cons c by_ b l :
  replace_byte c by_ (b :: l) = (if decide (b = c) then by_ else [b]) ++ replace_byte c by_ l.
Proof. done. Qed.
Lemma replace_byte_app c by_ l k : replace_byte c by_ (l ++ k) = replace_byte c by_ l ++ replace_byte c by_ k.
Proof. unfold replace_byte. by rewrite fmap_app, concat_app. Qed.

(** A password of any bytes is read back from its quoted form. *)
Lemma unquote_password password rest :
  unquote (tail (quote_password password) ++ rest) = Some (password, rest).
Proof.
  unfold quote_password. cbn [app tail]. rewrite <- app_assoc. cbn [app].
  induction password as [|b p IH]; [done|]. rewrite replace_byte_cons, replace_byte_app, <- app_assoc.
  destruct (decide (b = BACKSLASH)) as [->|Hb].
  - change (replace_byte QUOTE _ [BACKSLASH; BACKSLASH]) with [BACKSLASH; BACKSLASH]. cbn [app unquote].
    rewrite decide_False, decide_True by done. by rewrite IH.
  - rewrite replace_byte_cons. change (replace_byte QUOTE _ []) with (@nil byte). rewrite app_nil_r.
    destruct (decide (b = QUOTE)) as [->|Hq]; cbn [app unquote].
    + rewrite decide_False, decide_True by done. by rewrite IH.
    + rewrite !decide_False by done. by rewrite IH.
Qed.

(** A configuration value is not quoted: one bridge line with a quote in it
    is the same command as two options. *)
Example setconf_value_unquoted :
  setconf_command [(str_bytes "Bridge", str_bytes "1.2.3.4:5" ++ [QUOTE] ++ str_bytes " SafeLogging="
                                        ++ [QUOTE] ++ str_bytes "0")]
  = setconf_command [(str_bytes "Bridge", str_bytes "1.2.3.4:5"); (str_bytes "SafeLogging", str_bytes "0")].
Proof. vm_compute. reflexivity. Qed.

(** A failed write removes the sender of the command before it: its reply
    comes and is not handed to it. *)
Example failed_write_drops_other :
  let c := conn_run conn_new [InCmd 1 true; InCmd 2 false; demo_line "250 OK"] in
  cc_sent c = [] ∧ cc_pending c = [].
Proof. split; vm_compute; reflexivity. Qed.

(** A data line that begins with [650] is taken for an event and missing from
    the block. *)
Example data_line_taken_for_event :
  cc_sent (conn_run conn_new [InCmd 1 true; demo_line "250+k="; demo_line "6501"; demo_line "."; demo_line "250 OK"])
  = [(1, Ok (mkReply 250 [str_bytes "OK"] [(str_bytes "k", [])]))].
Proof. vm_compute. reflexivity. Qed.

(** ** The command budget *)

(** A command that is not allowed does not reach the daemon; one that is
    takes a token. *)
Lemma cmd_limited {Tor} (tor_exec : Tor → bytes → Tor * CmdOutcome) now c command c' r :
  cmd tor_exec now c command = (c', r) → snd (bucket_check (cl_budget c) now) = false →
  cl_tor c' = cl_tor c ∧ r = Err (TrControl (Lit "control command rate limited (supervisor guard)")).
Proof. unfold cmd. destruct (bucket_check _ _) as [b []]; cbn; [done|]. by intros [= <- <-] _. Qed.
