(* ===== verification/Circumvention.v ===== *)
(** The circumvention configuration ([core/src/transport/circumvention.rs]):
    bridge lines, the pluggable-transport warning and the [SETCONF] batch. *)

From S2P Require Import Prelude Bin RustStr Frame Control.

Definition MAX_BRIDGES : Z := 24.
Definition MAX_BRIDGE_LINE_CHARS : Z := 512.

Definition PT_TYPES : list bytes :=
  str_bytes <$> ["obfs4"; "obfs3"; "scramblesuit"; "meek"; "meek_lite"; "snowflake"; "webtunnel"; "conjure"].
Definition MANAGED_KEYS : list bytes :=
  str_bytes <$> ["UseBridges"; "Bridge"; "FascistFirewall"; "ClientPreferIPv6ORPort"; "ClientUseIPv4";
                 "ClientUseIPv6"].

Record CircumventionConfig := mkCircumvention {
  cv_use_bridges : bool;
  cv_bridges : list bytes;
  cv_fascist_firewall : bool;
  cv_prefer_ipv6 : bool;
  cv_use_ipv4 : bool;
  cv_use_ipv6 : bool;
  cv_pt_available : bool;
}.

Definition normalized (c : CircumventionConfig) : CircumventionConfig :=
  if negb (cv_use_ipv4 c) && negb (cv_use_ipv6 c)
  then mkCircumvention (cv_use_bridges c) (cv_bridges c) (cv_fascist_firewall c) (cv_prefer_ipv6 c)
         true true (cv_pt_available c)
  else c.

Definition bridge_of (l : bytes) : bytes := str_trim (default l (strip_prefix (str_bytes "Bridge ") l)).
Definition parse_bridges (text : bytes) : list bytes :=
  take (Z.to_nat MAX_BRIDGES)
    (filter (λ l, l ≠ [] ∧ chars_count l ≤ MAX_BRIDGE_LINE_CHARS)
       (bridge_of <$> filter (λ l, l ≠ [] ∧ starts_with l (str_bytes "#") = false)
                        (str_trim <$> str_lines text))).

Definition looks_like_pluggable_transport (bridge : bytes) : bool :=
  bool_decide (default [] (head (split_whitespace bridge)) ∈ PT_TYPES).
Definition uses_pluggable_transport (c : CircumventionConfig) : bool :=
  existsb looks_like_pluggable_transport (cv_bridges c).

Definition PT_WARNING : bytes :=
  str_bytes "bridge lines name a pluggable transport, but this build has no PT binary; only vanilla IP:port bridges will work".
Definition pt_warning (c : CircumventionConfig) : option bytes :=
  if cv_use_bridges c && uses_pluggable_transport c && negb (cv_pt_available c)
  then Some PT_WARNING else None.

Definition flag_value (b : bool) : bytes := str_bytes (if b then "1" else "0").
Definition setconf_pairs (c : CircumventionConfig) : list (bytes * bytes) :=
  let cfg := normalized c in
  [(str_bytes "FascistFirewall", flag_value (cv_fascist_firewall cfg));
   (str_bytes "ClientPreferIPv6ORPort", flag_value (cv_prefer_ipv6 cfg));
   (str_bytes "ClientUseIPv4", flag_value (cv_use_ipv4 cfg));
   (str_bytes "ClientUseIPv6", flag_value (cv_use_ipv6 cfg))]
  ++ (if cv_use_bridges cfg && bool_decide (cv_bridges cfg ≠ [])
      then (str_bytes "UseBridges", str_bytes "1") :: ((λ b, (str_bytes "Bridge", b)) <$> cv_bridges cfg)
      else [(str_bytes "UseBridges", str_bytes "0")]).

Definition validate (c : CircumventionConfig) : result TransportError unit :=
  if len (cv_bridges c) >? MAX_BRIDGES
  then Err (TrControl (Fmt "too many bridges: {} > {MAX_BRIDGES}" [len (cv_bridges c)]))
  else if existsb (λ b, chars_count b >? MAX_BRIDGE_LINE_CHARS) (cv_bridges c)
  then Err (TrControl (Lit "bridge line too long"))
  else Ok tt.

(** ** What the parser lets through *)

Lemma split_on_clean c l w : w ∈ split_on c l → c ∉ w.
Proof.
  revert w. induction l as [|b l IH]; intros w; cbn.
  - intros ->%list_elem_of_singleton. apply not_elem_of_nil.
  - destruct (decide (b = c)) as [->|Hb].
    + intros [->|Hw]%elem_of_cons; [apply not_elem_of_nil|by apply IH].
    + destruct (split_on c l) as [|v ws].
      * intros ->%list_elem_of_singleton. set_solver.
      * intros [->|Hw]%elem_of_cons; [|apply IH; by right].
        apply not_elem_of_cons. split; [done|]. apply IH. by left.
Qed.

Lemma strip_suffix_elem suf l l' b : strip_suffix suf l = Some l' → b ∈ l' → b ∈ l.
Proof. 
  unfold strip_suffix. case_decide; [|done]. intros [= <-] (i & Hi & _)%elem_of_take.
  by eapply list_elem_of_lookup_2.
 Qed.

Lemma strip_prefix_elem pre l l' b : strip_prefix pre l = Some l' → b ∈ l' → b ∈ l.
Proof.
  unfold strip_prefix. case_decide; [|done]. intros [= <-] (i & Hi)%list_elem_of_lookup_1.
  rewrite lookup_drop in Hi. by eapply list_elem_of_lookup_2.
Qed.

Lemma trim_start_elem fuel l b : b ∈ trim_start fuel l → b ∈ l.
Proof.
  revert l. induction fuel as [|fuel IH]; intros l; cbn [trim_start]; [done|].
  destruct (ws_len l); [done|]. intros (i & Hi)%IH%list_elem_of_lookup_1. rewrite lookup_drop in Hi.
  by eapply list_elem_of_lookup_2.
Qed.

Lemma trim_end_elem fuel l b : b ∈ trim_end fuel l → b ∈ l.
Proof.
  revert l. induction fuel as [|fuel IH]; intros l; cbn [trim_end]; [done|].
  destruct (ws_tail l); [done|]. intros (i & Hi & _)%IH%elem_of_take. by eapply list_elem_of_lookup_2.
Qed.

Lemma str_trim_elem l b : b ∈ str_trim l → b ∈ l.
Proof. unfold str_trim. intros H%trim_end_elem. by eapply trim_start_elem. Qed.

Lemma lines_of_elem ws l b : l ∈ lines_of ws → b ∈ l → ∃ w, w ∈ ws ∧ b ∈ w.
Proof.
  induction ws as [|w ws IH]; [intros H; by apply not_elem_of_nil in H|].
  destruct ws as [|v ws]; cbn [lines_of].
  - case_decide; intros Hl; [by apply not_elem_of_nil in Hl|]. apply list_elem_of_singleton in Hl as ->.
    intros Hb. exists w. split; [by left|done].
  - intros [->|H]%elem_of_cons Hb.
    + exists w. split; [by left|]. destruct (strip_suffix [CR] w) eqn:E; cbn in Hb; [|done].
      by eapply strip_suffix_elem.
    + destruct (IH H Hb) as (u & Hu & ?). exists u. split; [by right|done].
Qed.

Lemma bridge_of_elem l b : b ∈ bridge_of l → b ∈ l.
Proof.
  unfold bridge_of. intros H%str_trim_elem. destruct (strip_prefix _ l) eqn:E; cbn in H; [|done].
  by eapply strip_prefix_elem.
Qed.

Lemma parse_bridges_elem text l :
  l ∈ parse_bridges text → l ≠ [] ∧ chars_count l ≤ MAX_BRIDGE_LINE_CHARS ∧ LF ∉ l.
Proof.
  unfold parse_bridges. intros (i & Hi & _)%elem_of_take. apply list_elem_of_lookup_2 in Hi.
  apply list_elem_of_filter in Hi as [[Hn Hc] Hi]. split_and!; [done|done|]. intros Hb.
  apply list_elem_of_fmap in Hi as (l1 & -> & [_ Hl]%list_elem_of_filter).
  apply bridge_of_elem in Hb. apply list_elem_of_fmap in Hl as (l2 & -> & Hl). apply str_trim_elem in Hb.
  destruct (lines_of_elem _ _ _ Hl Hb) as (w & Hw & Hin). exact (split_on_clean _ _ _ Hw Hin).
Qed.

Definition with_bridges (c : CircumventionConfig) (bs : list bytes) : CircumventionConfig :=
  mkCircumvention (cv_use_bridges c) bs (cv_fascist_firewall c) (cv_prefer_ipv6 c) (cv_use_ipv4 c)
    (cv_use_ipv6 c) (cv_pt_available c).

Lemma validate_ok c :
  len (cv_bridges c) ≤ MAX_BRIDGES → (∀ b, b ∈ cv_bridges c → chars_count b ≤ MAX_BRIDGE_LINE_CHARS) →
  validate c = Ok tt.
Proof.
  intros Hl Hb. unfold validate. destruct (Z.gtb_spec (len (cv_bridges c)) MAX_BRIDGES); [lia|].
  destruct (existsb _ _) eqn:E; [|done]. apply existsb_exists in E as (b & Hin & Hc).
  specialize (Hb b ltac:(by apply list_elem_of_In)). apply Z.gtb_lt in Hc. lia.
Qed.

Lemma filter_bridges_same (bs : list bytes) :
  filter (λ kv : bytes * bytes, kv.1 = str_bytes "Bridge") ((λ b, (str_bytes "Bridge", b)) <$> bs)
  = (λ b, (str_bytes "Bridge", b)) <$> bs.
Proof. apply filter_all. by intros ? (b & -> & _)%list_elem_of_fmap. Qed.

Lemma filter_bridges_other k (bs : list bytes) :
  k ≠ str_bytes "Bridge" →
  filter (λ kv : bytes * bytes, kv.1 = k) ((λ b, (str_bytes "Bridge", b)) <$> bs) = [].
Proof. intros Hk. induction bs as [|b bs IH]; [done|]. cbn [fmap list_fmap]. by rewrite filter_cons_False. Qed.

(** The bridge options of the batch are in its tail. *)
Lemma setconf_pairs_filter k c :
  k = str_bytes "Bridge" ∨ k = str_bytes "UseBridges" →
  filter (λ kv, kv.1 = k) (setconf_pairs c)
  = filter (λ kv, kv.1 = k)
      (if cv_use_bridges c && bool_decide (cv_bridges c ≠ [])
       then (str_bytes "UseBridges", str_bytes "1") :: ((λ b, (str_bytes "Bridge", b)) <$> cv_bridges c)
       else [(str_bytes "UseBridges", str_bytes "0")]).
Proof.
  intros Hk. unfold setconf_pairs. rewrite filter_app.
  assert (Hn : cv_use_bridges (normalized c) = cv_use_bridges c ∧ cv_bridges (normalized c) = cv_bridges c)
    by (unfold normalized; by case_match).
  destruct Hn as [-> ->].
  rewrite !filter_cons_False by (by destruct Hk as [-> | ->]). done.
Qed.

(** Bridge lines read from any text are at most 24, none empty, longer
    than 512 characters or with a line feed in it, and a configuration of
    them passes the validation; the [SETCONF] batch of any configuration
    never disables both address families, and switches bridges on exactly
    when it lists them, all of them in order. *)
Theorem circumvention_batch text c :
  (let bs := parse_bridges text in
   len bs ≤ MAX_BRIDGES
   ∧ (∀ b, b ∈ bs → b ≠ [] ∧ chars_count b ≤ MAX_BRIDGE_LINE_CHARS ∧ LF ∉ b)
   ∧ validate (with_bridges c bs) = Ok tt)
  ∧ (let pairs := setconf_pairs c in
     ((str_bytes "ClientUseIPv4", str_bytes "1") ∈ pairs ∨ (str_bytes "ClientUseIPv6", str_bytes "1") ∈ pairs)
     ∧ snd <$> filter (λ kv, kv.1 = str_bytes "Bridge") pairs = (if cv_use_bridges c then cv_bridges c else [])
     ∧ snd <$> filter (λ kv, kv.1 = str_bytes "UseBridges") pairs
       = [flag_value (cv_use_bridges c && bool_decide (cv_bridges c ≠ []))]).
Proof.
  assert (Hlen : len (parse_bridges text) ≤ MAX_BRIDGES).
  { unfold len, parse_bridges. rewrite length_take. unfold MAX_BRIDGES. lia. }
  split; [split_and!; [done|by apply parse_bridges_elem|apply validate_ok; [done|]; by intros b (_ & ? & _)%parse_bridges_elem]|split_and!].
  - unfold setconf_pairs, normalized. destruct (cv_use_ipv4 c) eqn:E4, (cv_use_ipv6 c) eqn:E6; cbn;
      rewrite ?E4, ?E6; set_solver.
  - rewrite setconf_pairs_filter by tauto. destruct (cv_use_bridges c); cbn [andb]; [|done].
    case_bool_decide as Hb; [|by rewrite Hb].
    rewrite filter_cons_False, filter_bridges_same by done. rewrite <- list_fmap_compose. apply list_fmap_id.
  - rewrite setconf_pairs_filter by tauto. destruct (cv_use_bridges c); cbn [andb]; [|done].
    case_bool_decide; [|done].
    by rewrite filter_cons_True, filter_bridges_other by done.
Qed.
