(* ===== verification/OnionKeys.v ===== *)
(** Onion service keys and hosting: the key files ([core/src/transport/onion/
    keystore.rs]), the local key generation ([keygen.rs]), the client-auth
    key files ([client_auth.rs]), the torrc ([torrc.rs]) and the service manager
    ([manager.rs]). The file system is the map from a path to the content;
    [io_error] gives the paths whose access fails. *)

From stdpp Require Import sorting.
From S2P Require Import Prelude Bin RustStr Frame Onion PairingQr Control.

Definition VIRTUAL_PORT : Z := 80.
Definition ONION_KEY_PREFIX : bytes := str_bytes "onion-key/".
Definition SLASH : byte := zb 47.

Abbreviation Files := (gmap bytes bytes).

(** ** Files *)

(** [Path::join]: an absolute second part replaces the first. *)
Definition path_join (dir p : bytes) : bytes :=
  if starts_with p [SLASH] then p else dir ++ [SLASH] ++ p.

Section Io.
Context (io_error : bytes → option Detail).

(** [std::fs::read_to_string] with [NotFound] told apart. *)
Definition read_to_string (files : Files) (path : bytes) : result TransportError (option bytes) :=
  match io_error path with
  | Some e => Err (TrIo e)
  | None =>
      match files !! path with
      | None => Ok None
      | Some s => if utf8_ok s then Ok (Some s) else Err (TrIo (Lit "stream did not contain valid UTF-8"))
      end
  end.
(** [create_dir_all] of the parent and [std::fs::write]. *)
Definition write_file (files : Files) (path content : bytes) : Files * result TransportError unit :=
  match io_error path with
  | Some e => (files, Err (TrIo e))
  | None => (<[path := content]> files, Ok tt)
  end.

(** ** [FileKeyStore] *)

(** [is_ascii_alphanumeric] or one of [-_/.]; a multi-byte character is none
    of them, and neither is any of its bytes. *)
Definition key_char (b : byte) : bool :=
  let v := bz b in
  in_range 48 57 v || in_range 65 90 v || in_range 97 122 v
  || (v =? 45) || (v =? 95) || (v =? 47) || (v =? 46).

Definition path_for (dir key : bytes) : result TransportError bytes :=
  if bool_decide (key = []) || negb (forallb key_char key)
  then Err (TrKeyStore (Lit "bad key {key:?}"))
  else Ok (path_join dir key).

Definition key_get (dir : bytes) (files : Files) (key : bytes) : result TransportError (option bytes) :=
  let* path := path_for dir key in
  let* s := read_to_string files path in
  Ok (str_trim <$> s).

Definition key_put (dir : bytes) (files : Files) (key value : bytes) : Files * result TransportError unit :=
  match path_for dir key with
  | Err e => (files, Err e)
  | Ok path => write_file files path value
  end.

Definition key_delete (dir : bytes) (files : Files) (key : bytes) : Files * result TransportError unit :=
  match path_for dir key with
  | Err e => (files, Err e)
  | Ok path =>
      match io_error path with
      | Some e => (files, Err (TrIo e))
      | None => (delete path files, Ok tt)
      end
  end.

(** The files directly below the directory, sorted. *)
Definition entry_name (base path : bytes) : option bytes :=
  name ← strip_prefix (if bool_decide (last base = Some SLASH) then base else base ++ [SLASH]) path;
  if decide (name ≠ [] ∧ SLASH ∉ name) then Some name else None.
Definition str_le (a b : bytes) : Prop := slice_le a b = true.
#[export] Instance str_le_dec a b : Decision (str_le a b).
Proof. unfold str_le. apply _. Defined.
Definition keys_with_prefix (dir : bytes) (files : Files) (prefix : bytes) : result TransportError (list bytes) :=
  let* base := path_for dir prefix in
  Ok (merge_sort str_le
        (omap (λ kv, app prefix <$> entry_name base kv.1) (map_to_list files))).
End Io.

(** ** Local key generation *)

(** The primitives of the crates: the Base32 and Base64 codecs, the digests,
    and the compressed point of a scalar times the base point. *)
Class OnionCrypto := {
  okg_base32 : bytes → bytes;
  okg_sha3_256 : bytes → bytes;
  okg_sha512 : bytes → bytes;
  okg_base64_encode : bytes → bytes;
  okg_base64_decode : bytes → option bytes;
  okg_basepoint_mul : bytes → bytes;
}.

(** What the crates document: base64 is printable text and decodes to what it
    encodes, a SHA-512 digest has 64 bytes. *)
Class OnionCryptoLaws `{!OnionCrypto} := {
  base64_inverse bs : okg_base64_decode (okg_base64_encode bs) = Some bs;
  base64_graphic bs : forallb graphic (okg_base64_encode bs) = true;
  sha512_length bs : len (okg_sha512 bs) = 64;
}.

Section Keygen.
Context {oc : OnionCrypto}.

(** RFC 8032 clamping of the first half. *)
Definition clamp (expanded : bytes) : bytes :=
  alter (λ b, zb (Z.lor (Z.land (bz b) 63) 64)) 31%nat (alter (λ b, zb (Z.land (bz b) 248)) 0%nat expanded).

Definition hostname_from_expanded (expanded : bytes) : bytes :=
  hostname_from_pubkey okg_base32 okg_sha3_256 (okg_basepoint_mul (take 32 expanded)).

Definition key_blob_from_seed (seed : bytes) : bytes * bytes :=
  let expanded := clamp (okg_sha512 seed) in
  (okg_base64_encode expanded, hostname_from_expanded expanded).

Definition hostname_from_key_blob (blob_b64 : bytes) : result TransportError bytes :=
  let* raw := ok_or (okg_base64_decode blob_b64) (TrKeyStore (Lit "bad v3 key blob: {e}")) in
  if negb (len raw =? 64) then Err (TrKeyStore (Lit "v3 key blob must be 64 bytes"))
  else Ok (hostname_from_expanded raw).

Context {oc_laws : OnionCryptoLaws}.

Lemma len_clamp l : len (clamp l) = len l.
Proof. unfold len, clamp. by rewrite !length_alter. Qed.

(** A generated blob names the host it was generated with. *)
Lemma key_blob_hostname seed :
  hostname_from_key_blob (key_blob_from_seed seed).1 = Ok (key_blob_from_seed seed).2.
Proof.
  unfold hostname_from_key_blob, key_blob_from_seed. cbn [fst snd]. rewrite base64_inverse. cbn [ok_or rbind].
  by rewrite len_clamp, sha512_length.
Qed.
End Keygen.

(** ** Client-auth files *)

Definition auth_private_line (host private_b32 : bytes) : bytes :=
  host ++ str_bytes ":descriptor:x25519:" ++ private_b32 ++ [LF].

Definition write_client_auth_file (io_error : bytes → option Detail) (files : Files)
    (dir hostname private_b32 : bytes) : Files * result TransportError bytes :=
  let host := host_of hostname in
  if negb (len host =? ONION_HOSTNAME_LEN)
  then (files, Err (InvalidOnion (Fmt "client-auth hostname length {} != {ONION_HOSTNAME_LEN}" [len host])))
  else
    let path := path_join dir (host ++ str_bytes ".auth_private") in
    let '(files, r) := write_file io_error files path (auth_private_line host private_b32) in
    (files, let* _ := r in Ok path).

(** ** The torrc *)

Record TorrcParams := mkTorrc {
  tp_data_dir : bytes;
  tp_control_port : bytes;
  tp_socks_port : bytes;
  tp_client_auth_dir : bytes;
  tp_log_file : option bytes;
  tp_extra : list bytes;
}.

(** The ports are the decimal text of them. *)
Definition base_torrc (p : TorrcParams) : bytes :=
  let line (s : bytes) := s ++ [LF] in
  line (str_bytes "ClientOnly 1")
  ++ line (str_bytes "SafeLogging 1")
  ++ line (str_bytes "DataDirectory " ++ tp_data_dir p)
  ++ line (str_bytes "ControlPort 127.0.0.1:" ++ tp_control_port p)
  ++ line (str_bytes "CookieAuthentication 1")
  ++ line (str_bytes "SocksPort 127.0.0.1:" ++ tp_socks_port p
           ++ str_bytes " IsolateSOCKSAuth IsolateDestAddr IsolateClientProtocol")
  ++ line (str_bytes "ClientOnionAuthDir " ++ tp_client_auth_dir p)
  ++ line (match tp_log_file p with
           | Some f => str_bytes "Log notice file " ++ f
           | None => str_bytes "Log notice stdout"
           end)
  ++ line (str_bytes "KeepalivePeriod 60")
  ++ line (str_bytes "MaxClientCircuitsPending 48")
  ++ line (str_bytes "VanguardsLiteEnabled 1")
  ++ concat (line <$> tp_extra p).

(** ** The service manager *)

Record HostedService := mkHosted { hs_service_id : bytes; hs_onion : bytes }.

(** [trim_start_matches] of a prefix. *)
Fixpoint trim_start_matches (fuel : nat) (pre l : bytes) : bytes :=
  match fuel, strip_prefix pre l with
  | S fuel, Some l => trim_start_matches fuel pre l
  | _, _ => l
  end.

Section Manager.
Context {Tor : Type} (tor_exec : Tor → bytes → Tor * CmdOutcome).
Context (io_error : bytes → option Detail) (dir : bytes).
Context {oc : OnionCrypto}.

(** The blob of a new key from the reply to [ADD_ONION NEW:]. *)
Definition new_blob (private_key : option bytes) : result TransportError bytes :=
  let* blob := ok_or private_key (TrControl (Lit "ADD_ONION NEW: reply missing PrivateKey")) in
  Ok (default blob (strip_prefix (str_bytes "ED25519-V3:") blob)).

(** [OnionServiceManager::host_service] *)
Definition manager_host (now : Z) (c : ControlClient Tor) (files : Files) (service_id target : bytes)
    (client_auth_v3 : list bytes) : ControlClient Tor * Files * result TransportError HostedService :=
  let store_key := ONION_KEY_PREFIX ++ service_id in
  match key_get io_error dir files store_key with
  | Err e => (c, files, Err e)
  | Ok existing =>
      let c :=
        match existing with
        | Some blob =>
            match hostname_from_key_blob blob with
            | Ok hostname => fst (del_onion tor_exec now c hostname)
            | Err _ => c
            end
        | None => c
        end in
      let '(c, r) := add_onion tor_exec now c existing target client_auth_v3 in
      match r with
      | Err e => (c, files, Err e)
      | Ok result =>
          let hosted := mkHosted (ao_service_id result) (ao_service_id result ++ ONION_SUFFIX) in
          match existing with
          | Some _ => (c, files, Ok hosted)
          | None =>
              match new_blob (ao_private_key result) with
              | Err e => (c, files, Err e)
              | Ok blob =>
                  let '(files, w) := key_put io_error dir files store_key blob in
                  (c, files, let* _ := w in Ok hosted)
              end
          end
      end
  end.

Definition manager_remove (now : Z) (c : ControlClient Tor) (service_id : bytes) :=
  del_onion tor_exec now c service_id.

(** [restore_services]: the loop over the persisted keys. *)
Fixpoint manager_restore_loop (now : Z) (target_for : bytes → bytes) (keys : list bytes) (c : ControlClient Tor)
    (files : Files) : ControlClient Tor * Files * result TransportError (list HostedService) :=
  match keys with
  | [] => (c, files, Ok [])
  | key :: keys =>
      let service_id := trim_start_matches (length key) ONION_KEY_PREFIX key in
      let '(c, files, r) := manager_host now c files service_id (target_for service_id) [] in
      match r with
      | Err e => (c, files, Err e)
      | Ok hosted =>
          let '(c, files, r) := manager_restore_loop now target_for keys c files in
          (c, files, let* out := r in Ok (hosted :: out))
      end
  end.
Definition manager_restore (now : Z) (target_for : bytes → bytes) (c : ControlClient Tor) (files : Files) :=
  match keys_with_prefix dir files ONION_KEY_PREFIX with
  | Err e => (c, files, Err e)
  | Ok keys => manager_restore_loop now target_for keys c files
  end.
End Manager.

(** ** The key store keeps what it is given *)

Lemma path_join_inj dir k1 k2 :
  starts_with k1 [SLASH] = false → starts_with k2 [SLASH] = false →
  path_join dir k1 = path_join dir k2 → k1 = k2.
Proof. unfold path_join. intros -> -> H. apply app_inv_head in H. by injection H. Qed.

(** A key of the store: not empty, of the allowed characters, relative. *)
Definition store_key_ok (key : bytes) : Prop :=
  key ≠ [] ∧ forallb key_char key = true ∧ starts_with key [SLASH] = false.

Lemma path_for_ok dir key : store_key_ok key → path_for dir key = Ok (path_join dir key).
Proof. intros (Hn & Hc & _). unfold path_for. by rewrite bool_decide_false, Hc. Qed.

(** The key store gives back what was put: after a put of a valid text
    under a valid key, a get of that key is the text without surrounding white
    space, every other key reads as before, and after a delete the key is
    gone; a key of other characters is refused by every operation. *)
Theorem key_store_laws io_error dir files key key' value :
  (∀ path, io_error path = None) → store_key_ok key → store_key_ok key' → utf8_ok value = true →
  let '(files1, r1) := key_put io_error dir files key value in
  let '(files2, r2) := key_delete io_error dir files1 key in
  r1 = Ok tt ∧ key_get io_error dir files1 key = Ok (Some (str_trim value))
  ∧ (key' ≠ key → key_get io_error dir files1 key' = key_get io_error dir files key')
  ∧ r2 = Ok tt ∧ key_get io_error dir files2 key = Ok None
  ∧ (∀ bad, forallb key_char bad = false →
       is_ok (key_get io_error dir files bad) = false ∧ key_put io_error dir files bad value
       = (files, Err (TrKeyStore (Lit "bad key {key:?}")))).
Proof.
  intros Hio Hk Hk' Hv. unfold key_put, key_delete, key_get, read_to_string, write_file.
  rewrite !path_for_ok by done. rewrite !Hio. cbn [rbind]. split_and!; [done| | |done| |].
  - by rewrite ?Hio, lookup_insert_eq, Hv.
  - intros Hne. rewrite Hio, lookup_insert_ne; [done|]. intros Heq. apply Hne. symmetry.
    destruct Hk as (_ & _ & ?), Hk' as (_ & _ & ?). by apply (path_join_inj dir).
  - by rewrite ?Hio, lookup_delete_eq.
  - intros bad Hb. unfold path_for. rewrite Hb, orb_true_r. done.
Qed.

Lemma key_store_laws_witness :
  store_key_ok (str_bytes "onion-key/ab") ∧
  let '(files1, r1) := key_put (λ _, None) (str_bytes "/d") ∅ (str_bytes "onion-key/ab") (str_bytes "v") in
  r1 = Ok tt ∧ key_get (λ _, None) (str_bytes "/d") files1 (str_bytes "onion-key/ab") = Ok (Some (str_bytes "v")).
Proof.
  assert (Hk : store_key_ok (str_bytes "onion-key/ab")) by (by split_and!).
  split; [exact Hk|].
  pose proof (key_store_laws (λ _, None) (str_bytes "/d") ∅ (str_bytes "onion-key/ab") (str_bytes "onion-key/ab")
                (str_bytes "v") (λ _, eq_refl) Hk Hk eq_refl) as (H1 & H2 & _).
  exact (conj H1 H2).
Defined.
