(* ===== verification/Ledger.v ===== *)
(** The store repositories: the message ledger ([store/messages.rs]), the
    delivery queue ([store/outbox.rs]), the inbound sequence table
    ([store/inbound_seqs.rs]), tombstones ([store/tombstones.rs]), the
    history cut ([store/relationships.rs]) and the settings blobs
    ([store/settings.rs]). A table is a [gmap] on its primary key; the
    injected [Clock] is the field [db_now]; a query's [ORDER BY] is a
    stable sort. SQL integers are signed: comparisons go through [as_i64]. *)

From stdpp Require Import sorting.
From S2P Require Import Prelude Limits Bin Payloads WirePolicy Envelope Policy View.

Inductive Direction := DirIn | DirOut.

Inductive DeliveryState := Received | Queued | Transmitted | Acknowledged | Failed.

#[export] Instance direction_eq_dec : EqDecision Direction.
Proof. solve_decision. Defined.
#[export] Instance delivery_eq_dec : EqDecision DeliveryState.
Proof. solve_decision. Defined.

Definition direction_as_str (d : Direction) : string :=
  match d with DirIn => "in" | DirOut => "out" end.

Definition direction_parse (s : string) : result StoreError Direction :=
  if decide (s = "in"%string) then Ok DirIn
  else if decide (s = "out"%string) then Ok DirOut
  else Err (Corrupt (Lit "direction {other:?}")).

Definition delivery_as_str (d : DeliveryState) : string :=
  match d with
  | Received => "received"
  | Queued => "queued"
  | Transmitted => "transmitted"
  | Acknowledged => "acknowledged"
  | Failed => "failed"
  end.

Definition delivery_parse (s : string) : result StoreError DeliveryState :=
  if decide (s = "received"%string) then Ok Received
  else if decide (s = "queued"%string) then Ok Queued
  else if decide (s = "transmitted"%string) then Ok Transmitted
  else if decide (s = "acknowledged"%string) then Ok Acknowledged
  else if decide (s = "failed"%string) then Ok Failed
  else Err (Corrupt (Lit "delivery state {other:?}")).

Record MessageRow := mkMessageRow {
  mr_msg_id : bytes;
  mr_rel_id : string;
  mr_direction : Direction;
  mr_app_seq : Z;
  mr_sent_at : Z;
  mr_received_at : option Z;
  mr_env_type : Z;
  mr_ref_id : option bytes;
  mr_payload : bytes;
  mr_state : DeliveryState;
  mr_expires_at : option Z;
  mr_created_at : Z;
  mr_edited : bool;
  mr_tombstone : bool;
  mr_read_at : option Z;
  mr_edit_count : Z;
  mr_last_edit_seq : Z;
}.

Record NewMessage := mkNewMessage {
  nm_msg_id : bytes;
  nm_rel_id : string;
  nm_direction : Direction;
  nm_app_seq : Z;
  nm_sent_at : Z;
  nm_received_at : option Z;
  nm_env_type : Z;
  nm_ref_id : option bytes;
  nm_payload : bytes;
  nm_state : DeliveryState;
  nm_expires_at : option Z;
}.

Record OutboxRow := mkOutboxRow {
  ob_msg_id : bytes;
  ob_rel_id : string;
  ob_record : bytes;
  ob_attempts : Z;
  ob_next_attempt_at : Z;
  ob_expires_at : Z;
  ob_created_at : Z;
}.

Inductive SessionState := SessNone | SessActive | SessBroken.

#[export] Instance session_state_eq_dec : EqDecision SessionState.
Proof. solve_decision. Defined.

(** The columns a pairing writes once: our hosted service and the keys of
    both sides. *)
Record PairingCols := mkPairingCols {
  pc_service_id : string;
  pc_onion : string;
  pc_peer_identity_key : bytes;
  pc_peer_client_auth_public : string;
  pc_our_client_auth_private : string;
  pc_our_nonce : bytes;
  pc_peer_nonce : bytes;
}.

(** The columns of a [relationships] row the modelled code reads or writes. *)
Record RelRow := mkRelRow {
  rel_role : string;
  rel_state : string;
  rel_peer_onion : string;
  rel_our_qr_bytes : bytes;
  rel_intro_pending : bool;
  rel_session : SessionState;
  rel_created_at : Z;
  rel_peer_caps : Z;
  rel_close_state : option string;
  rel_history_cut : Z;
  rel_policy : PolicyRow;
  rel_peer_prefs : option bytes;
  rel_pairing : PairingCols;
}.

Record AttachmentRow := mkAttachmentRow {
  ar_head_id : bytes;
  ar_rel_id : string;
  ar_msg_id : bytes;
  ar_direction : Direction;
  ar_media_class : Z;
  ar_mime_hint : bytes;
  ar_uncompressed_n : Z;
  ar_chunk_count : Z;
  ar_chunk_bucket : Z;
  ar_content_sha256 : bytes;
  ar_caption : bytes;
  ar_flags : Z;
  ar_orig_ext : bytes;
  ar_chunks : bytes;
  ar_complete : bool;
  ar_consumed : bool;
  ar_expires_at : option Z;
  ar_created_at : Z;
}.

(** A row of [attachment_chunks], keyed by head and index. *)
Record ChunkRow := mkChunkRow {
  ck_data : bytes;
  ck_rel_id : string;
  ck_created_at : Z;
}.

(** [profiles] *)
Record ProfileRow := mkProfileRow {
  pf_name : bytes;
  pf_jpeg : bytes;
  pf_updated_at : Z;
}.

(** [stickers], [sticker_items] and [sticker_cache]: these tables are read
    without an [ORDER BY], so a table is the list of its rows in rowid order
    (an INSERT appends, a DELETE filters). *)
Record PackRow := mkPackRow {
  pk_pack_id : bytes;
  pk_pack_pk : bytes;
  pk_title : bytes;
  pk_kind : Z;
  pk_visibility : Z;
  pk_item_count : Z;
  pk_icon_item_id : Z;
  pk_installed_at : Z;
  pk_cached : bool;
  pk_from_rel : option string;
  pk_last_used_at : Z;
}.

Record StickerItemRow := mkStickerItemRow {
  sr_pack_id : bytes;
  sr_item_id : Z;
  sr_w : Z;
  sr_h : Z;
  sr_sha256 : bytes;
  sr_bytes : bytes;
}.

Record CachedItemRow := mkCachedItemRow {
  ci_sha256 : bytes;
  ci_bytes : bytes;
  ci_w : Z;
  ci_h : Z;
  ci_kind : Z;
  ci_pack_id : option bytes;
  ci_from_rel : option string;
  ci_created_at : Z;
}.

Record StickerDb := mkStickerDb {
  sd_packs : list PackRow;
  sd_items : list StickerItemRow;
  sd_keys : gmap bytes bytes;
  sd_cache : list CachedItemRow;
  sd_serves : gmap (string * Z) Z;
}.

Definition sticker_db_empty : StickerDb := mkStickerDb [] [] ∅ [] ∅.

(** [pending_pairing]: at most one row. *)
Record PendingRow := mkPendingRow {
  pp_service_id : string;
  pp_onion : string;
  pp_qr_bytes : bytes;
  pp_client_auth_private : string;
  pp_expires_at : Z;
}.

Record Db := mkDb {
  db_now : Z;
  db_messages : gmap bytes MessageRow;
  db_outbox : gmap bytes OutboxRow;
  db_inbound_seqs : gset (string * Z);
  db_tombstones : gmap (string * bytes) Z;
  db_settings : gmap string bytes;
  db_ciphertexts : gmap bytes (string * bytes);
  db_inbound_frames : gmap (string * bytes) Z;
  db_attachments : gmap bytes AttachmentRow;
  db_chunks : gmap (bytes * Z) ChunkRow;
  db_rels : gmap string RelRow;
  db_profiles : gmap string ProfileRow;
  db_stickers : StickerDb;
  db_pending : option PendingRow;
}.

Definition pairing_empty : PairingCols := mkPairingCols "" "" [] "" "" [] [].

(** ** Table updates *)

Definition set_messages (db : Db) (t : gmap bytes MessageRow) : Db :=
  mkDb (db_now db) t (db_outbox db) (db_inbound_seqs db) (db_tombstones db) (db_settings db)
    (db_ciphertexts db) (db_inbound_frames db) (db_attachments db) (db_chunks db) (db_rels db)
    (db_profiles db) (db_stickers db) (db_pending db).
Definition set_outbox (db : Db) (t : gmap bytes OutboxRow) : Db :=
  mkDb (db_now db) (db_messages db) t (db_inbound_seqs db) (db_tombstones db) (db_settings db)
    (db_ciphertexts db) (db_inbound_frames db) (db_attachments db) (db_chunks db) (db_rels db)
    (db_profiles db) (db_stickers db) (db_pending db).
Definition set_inbound_seqs (db : Db) (t : gset (string * Z)) : Db :=
  mkDb (db_now db) (db_messages db) (db_outbox db) t (db_tombstones db) (db_settings db)
    (db_ciphertexts db) (db_inbound_frames db) (db_attachments db) (db_chunks db) (db_rels db)
    (db_profiles db) (db_stickers db) (db_pending db).
Definition set_tombstones (db : Db) (t : gmap (string * bytes) Z) : Db :=
  mkDb (db_now db) (db_messages db) (db_outbox db) (db_inbound_seqs db) t (db_settings db)
    (db_ciphertexts db) (db_inbound_frames db) (db_attachments db) (db_chunks db) (db_rels db)
    (db_profiles db) (db_stickers db) (db_pending db).
Definition set_settings (db : Db) (t : gmap string bytes) : Db :=
  mkDb (db_now db) (db_messages db) (db_outbox db) (db_inbound_seqs db) (db_tombstones db) t
    (db_ciphertexts db) (db_inbound_frames db) (db_attachments db) (db_chunks db) (db_rels db)
    (db_profiles db) (db_stickers db) (db_pending db).
Definition set_attachments (db : Db) (t : gmap bytes AttachmentRow) : Db :=
  mkDb (db_now db) (db_messages db) (db_outbox db) (db_inbound_seqs db) (db_tombstones db)
    (db_settings db) (db_ciphertexts db) (db_inbound_frames db) t (db_chunks db) (db_rels db)
    (db_profiles db) (db_stickers db) (db_pending db).
Definition set_chunks (db : Db) (t : gmap (bytes * Z) ChunkRow) : Db :=
  mkDb (db_now db) (db_messages db) (db_outbox db) (db_inbound_seqs db) (db_tombstones db)
    (db_settings db) (db_ciphertexts db) (db_inbound_frames db) (db_attachments db) t (db_rels db)
    (db_profiles db) (db_stickers db) (db_pending db).
Definition set_rels (db : Db) (t : gmap string RelRow) : Db :=
  mkDb (db_now db) (db_messages db) (db_outbox db) (db_inbound_seqs db) (db_tombstones db)
    (db_settings db) (db_ciphertexts db) (db_inbound_frames db) (db_attachments db) (db_chunks db)
    t (db_profiles db) (db_stickers db) (db_pending db).
Definition set_profiles (db : Db) (t : gmap string ProfileRow) : Db :=
  mkDb (db_now db) (db_messages db) (db_outbox db) (db_inbound_seqs db) (db_tombstones db)
    (db_settings db) (db_ciphertexts db) (db_inbound_frames db) (db_attachments db) (db_chunks db)
    (db_rels db) t (db_stickers db) (db_pending db).
Definition set_stickers (db : Db) (t : StickerDb) : Db :=
  mkDb (db_now db) (db_messages db) (db_outbox db) (db_inbound_seqs db) (db_tombstones db)
    (db_settings db) (db_ciphertexts db) (db_inbound_frames db) (db_attachments db) (db_chunks db)
    (db_rels db) (db_profiles db) t (db_pending db).
Definition set_pending (db : Db) (t : option PendingRow) : Db :=
  mkDb (db_now db) (db_messages db) (db_outbox db) (db_inbound_seqs db) (db_tombstones db)
    (db_settings db) (db_ciphertexts db) (db_inbound_frames db) (db_attachments db) (db_chunks db)
    (db_rels db) (db_profiles db) (db_stickers db) t.
Definition set_caches (db : Db) (c : gmap bytes (string * bytes)) (f : gmap (string * bytes) Z) : Db :=
  mkDb (db_now db) (db_messages db) (db_outbox db) (db_inbound_seqs db) (db_tombstones db)
    (db_settings db) c f (db_attachments db) (db_chunks db) (db_rels db) (db_profiles db)
    (db_stickers db) (db_pending db).

Definition with_state (r : MessageRow) (s : DeliveryState) : MessageRow :=
  mkMessageRow (mr_msg_id r) (mr_rel_id r) (mr_direction r) (mr_app_seq r) (mr_sent_at r)
    (mr_received_at r) (mr_env_type r) (mr_ref_id r) (mr_payload r) s (mr_expires_at r)
    (mr_created_at r) (mr_edited r) (mr_tombstone r) (mr_read_at r) (mr_edit_count r)
    (mr_last_edit_seq r).
Definition with_edit (r : MessageRow) (payload : bytes) (edit_seq : Z) : MessageRow :=
  mkMessageRow (mr_msg_id r) (mr_rel_id r) (mr_direction r) (mr_app_seq r) (mr_sent_at r)
    (mr_received_at r) (mr_env_type r) (mr_ref_id r) payload (mr_state r) (mr_expires_at r)
    (mr_created_at r) true (mr_tombstone r) (mr_read_at r) (wrap32 (mr_edit_count r + 1)) edit_seq.
Definition with_tombstone (r : MessageRow) : MessageRow :=
  mkMessageRow (mr_msg_id r) (mr_rel_id r) (mr_direction r) (mr_app_seq r) (mr_sent_at r)
    (mr_received_at r) (mr_env_type r) (mr_ref_id r) [] (mr_state r) (mr_expires_at r)
    (mr_created_at r) (mr_edited r) true (mr_read_at r) (mr_edit_count r) (mr_last_edit_seq r).
Definition with_read (r : MessageRow) (read_at : Z) : MessageRow :=
  mkMessageRow (mr_msg_id r) (mr_rel_id r) (mr_direction r) (mr_app_seq r) (mr_sent_at r)
    (mr_received_at r) (mr_env_type r) (mr_ref_id r) (mr_payload r) (mr_state r) (mr_expires_at r)
    (mr_created_at r) (mr_edited r) (mr_tombstone r) (Some read_at) (mr_edit_count r)
    (mr_last_edit_seq r).
Definition with_expiry (r : MessageRow) (exp : Z) : MessageRow :=
  mkMessageRow (mr_msg_id r) (mr_rel_id r) (mr_direction r) (mr_app_seq r) (mr_sent_at r)
    (mr_received_at r) (mr_env_type r) (mr_ref_id r) (mr_payload r) (mr_state r) (Some exp)
    (mr_created_at r) (mr_edited r) (mr_tombstone r) (mr_read_at r) (mr_edit_count r)
    (mr_last_edit_seq r).

(** ** [MessagesRepository] *)

Definition insert_message (db : Db) (m : NewMessage) : result StoreError Db :=
  match db_messages db !! nm_msg_id m with
  | Some _ => Err SqliteConstraint
  | None =>
      Ok (set_messages db (<[nm_msg_id m :=
        mkMessageRow (nm_msg_id m) (nm_rel_id m) (nm_direction m) (nm_app_seq m) (nm_sent_at m)
          (nm_received_at m) (nm_env_type m) (nm_ref_id m) (nm_payload m) (nm_state m)
          (nm_expires_at m) (db_now db) false false None 0 0]> (db_messages db)))
  end.

Definition message (db : Db) (msg_id : bytes) : option MessageRow := db_messages db !! msg_id.

(** [SELECT .. WHERE p ORDER BY app_seq ASC] *)
Definition seq_le (a b : MessageRow) : Prop := as_i64 (mr_app_seq a) ≤ as_i64 (mr_app_seq b).
#[export] Instance seq_le_dec : RelDecision seq_le := λ a b, Z_le_dec _ _.

Definition select_messages (db : Db) (p : MessageRow → bool) : list MessageRow :=
  merge_sort seq_le (filter (λ r, p r = true) ((map_to_list (db_messages db)).*2)).

Definition thread (db : Db) (rel_id : string) (limit : Z) (before_seq : option Z) : list MessageRow :=
  let rows := select_messages db (λ r, bool_decide (mr_rel_id r = rel_id)
    && from_option (λ b, as_i64 (mr_app_seq r) <? as_i64 b) true before_seq) in
  take (Z.to_nat limit) (reverse rows).

Definition set_delivery (db : Db) (msg_id : bytes) (s : DeliveryState) : Db * bool :=
  (set_messages db (alter (λ r, with_state r s) msg_id (db_messages db)),
   bool_decide (is_Some (db_messages db !! msg_id))).

Definition delete_message (db : Db) (msg_id : bytes) : Db * bool :=
  (set_messages db (delete msg_id (db_messages db)),
   bool_decide (is_Some (db_messages db !! msg_id))).

(** [DELETE FROM message_ciphertexts WHERE msg_id NOT IN (SELECT msg_id FROM messages)],
    for one relationship or for all. *)
Definition orphan_ciphertexts (db : Db) (scope : option string) : gmap bytes (string * bytes) :=
  filter (λ kv : bytes * (string * bytes),
    bool_decide (is_Some (db_messages db !! kv.1))
    || from_option (λ rel, negb (bool_decide (kv.2.1 = rel))) false scope = true)
    (db_ciphertexts db).

Definition expired_at (now : Z) (e : option Z) : bool :=
  match e with
  | Some e => as_i64 e <=? as_i64 now
  | None => false
  end.

Definition sweep_expired (db : Db) : Db * Z :=
  let dead := filter (λ kv : bytes * MessageRow, expired_at (db_now db) (mr_expires_at kv.2) = true)
                (db_messages db) in
  let live := filter (λ kv : bytes * MessageRow, expired_at (db_now db) (mr_expires_at kv.2) = false)
                (db_messages db) in
  let db := set_messages db live in
  let db := set_caches db (orphan_ciphertexts db None)
              (filter (λ kv : string * bytes * Z, expired_at (db_now db) (Some kv.2) = false)
                 (db_inbound_frames db)) in
  (db, Z.of_nat (size dead)).

(** The rows of [inbound_seqs] of one relationship, ascending. *)
Definition seqs_asc (db : Db) (rel_id : string) : list Z :=
  merge_sort Z.le ((filter (λ p : string * Z, p.1 = rel_id) (elements (db_inbound_seqs db))).*2).

Definition receive_view (db : Db) (rel_id : string) (bitmap_bits : Z) : ReceiveView :=
  let seqs := take (Z.to_nat VIEW_SCAN_LIMIT) (seqs_asc db rel_id) in
  view_of_seqs (as_u64 <$> seqs) bitmap_bits.

Definition deep_seqs (db : Db) (rel_id : string) (base max : Z) : list Z :=
  as_u64 <$> filter (λ s, as_i64 base ≤ s ≤ as_i64 max) (seqs_asc db rel_id).

Definition is_unsettled (s : DeliveryState) : bool :=
  match s with
  | Queued | Transmitted => true
  | _ => false
  end.

Definition is_outbound (rel_id : string) (r : MessageRow) : bool :=
  bool_decide (mr_rel_id r = rel_id) && bool_decide (mr_direction r = DirOut).

Definition outbound_window (db : Db) (rel_id : string) (after window : Z) : list MessageRow :=
  select_messages db (λ r, is_outbound rel_id r && (as_i64 after <? as_i64 (mr_app_seq r))
    && (as_i64 (mr_app_seq r) <=? as_i64 (wrap64 (after + window)))).

Definition unacked_outbound (db : Db) (rel_id : string) (through : Z) : list MessageRow :=
  select_messages db (λ r, is_outbound rel_id r && (as_i64 (mr_app_seq r) <=? as_i64 through)
    && is_unsettled (mr_state r)).

(** [SELECT MAX(app_seq) .. WHERE rel_id = ?1 AND direction = 'out'] *)
Definition max_out_seq (db : Db) (rel_id : string) : option Z :=
  foldr (λ r acc, if is_outbound rel_id r
                  then Some (from_option (Z.max (as_i64 (mr_app_seq r))) (as_i64 (mr_app_seq r)) acc)
                  else acc)
    None ((map_to_list (db_messages db)).*2).

Definition out_seq_floor_key (rel_id : string) : string := "out_seq_floor:" +:+ rel_id.

Definition next_out_seq (db : Db) (rel_id : string) : Db * Z :=
  let from_ledger := from_option (λ v, wrap64 (as_u64 v + 1)) 1 (max_out_seq db rel_id) in
  let key := out_seq_floor_key rel_id in
  let floor :=
    match db_settings db !! key with
    | Some v => if bool_decide (length v = 8%nat) then be_val v else 1
    | None => 1
    end in
  let next := Z.max from_ledger floor in
  (set_settings db (<[key := be_bytes 8 (sat_add64 next 1)]> (db_settings db)), next).

Definition mark_edited (db : Db) (msg_id payload : bytes) (edit_seq : Z) : Db * bool :=
  match db_messages db !! msg_id with
  | Some r =>
      if mr_tombstone r then (db, false)
      else (set_messages db (<[msg_id := with_edit r payload edit_seq]> (db_messages db)), true)
  | None => (db, false)
  end.

Definition mark_tombstoned (db : Db) (msg_id : bytes) : Db * bool :=
  (set_messages db (alter with_tombstone msg_id (db_messages db)),
   bool_decide (is_Some (db_messages db !! msg_id))).

Definition tombstone_thread (db : Db) (rel_id : string) : Db * Z :=
  let hit r := bool_decide (mr_rel_id r = rel_id) && negb (mr_tombstone r) in
  (set_messages db ((λ r, if hit r then with_tombstone r else r) <$> db_messages db),
   Z.of_nat (size (filter (λ kv : bytes * MessageRow, hit kv.2 = true) (db_messages db)))).

Definition mark_read (db : Db) (msg_id : bytes) (read_at : Z) : Db * bool :=
  match db_messages db !! msg_id with
  | Some r =>
      if bool_decide (mr_direction r = DirOut) && bool_decide (mr_read_at r = None)
      then (set_messages db (<[msg_id := with_read r read_at]> (db_messages db)), true)
      else (db, false)
  | None => (db, false)
  end.

Definition erase_history (db : Db) (rel_id : string) (keep : list bytes) : Db * Z :=
  let hit (kv : bytes * MessageRow) := bool_decide (mr_rel_id kv.2 = rel_id)
                                       && negb (bool_decide (kv.1 ∈ keep)) in
  let dead := filter (λ kv, hit kv = true) (db_messages db) in
  let db := set_messages db (filter (λ kv, hit kv = false) (db_messages db)) in
  (set_caches db (orphan_ciphertexts db (Some rel_id)) (db_inbound_frames db),
   Z.of_nat (size dead)).

(** ** [InboundSeqsRepository] *)

Definition note_inbound_seq (db : Db) (rel_id : string) (app_seq : Z) : Db * bool :=
  let key := (rel_id, as_i64 app_seq) in
  (set_inbound_seqs db ({[key]} ∪ db_inbound_seqs db), negb (bool_decide (key ∈ db_inbound_seqs db))).

Definition has_inbound_seq (db : Db) (rel_id : string) (app_seq : Z) : bool :=
  bool_decide ((rel_id, as_i64 app_seq) ∈ db_inbound_seqs db).

(** ** [OutboxRepository] *)

Definition fresh_outbox_row (db : Db) (msg_id : bytes) (rel_id : string) (record : bytes)
    (ttl_secs : Z) : OutboxRow :=
  mkOutboxRow msg_id rel_id record 0 (db_now db) (wrap64 (db_now db + ttl_secs)) (db_now db).

Definition enqueue (db : Db) (msg_id : bytes) (rel_id : string) (record : bytes) (ttl_secs : Z)
    : result StoreError Db :=
  match db_outbox db !! msg_id with
  | Some _ => Err SqliteConstraint
  | None => Ok (set_outbox db (<[msg_id := fresh_outbox_row db msg_id rel_id record ttl_secs]>
                                 (db_outbox db)))
  end.

Definition requeue (db : Db) (msg_id : bytes) (rel_id : string) (record : bytes) (ttl_secs : Z) : Db :=
  set_outbox db (<[msg_id := fresh_outbox_row db msg_id rel_id record ttl_secs]> (db_outbox db)).

Definition attempt_le (a b : OutboxRow) : Prop :=
  as_i64 (ob_next_attempt_at a) ≤ as_i64 (ob_next_attempt_at b).
#[export] Instance attempt_le_dec : RelDecision attempt_le := λ a b, Z_le_dec _ _.

Definition due (db : Db) (limit : Z) : list OutboxRow :=
  take (Z.to_nat limit) (merge_sort attempt_le
    (filter (λ r, as_i64 (ob_next_attempt_at r) ≤ as_i64 (db_now db))
       ((map_to_list (db_outbox db)).*2))).

Definition note_attempt (db : Db) (msg_id : bytes) (backoff_secs : Z) : Db :=
  set_outbox db (alter (λ r, mkOutboxRow (ob_msg_id r) (ob_rel_id r) (ob_record r)
      (ob_attempts r + 1) (wrap64 (db_now db + backoff_secs)) (ob_expires_at r) (ob_created_at r))
    msg_id (db_outbox db)).

Definition dequeue (db : Db) (msg_id : bytes) : Db * option OutboxRow :=
  (set_outbox db (delete msg_id (db_outbox db)), db_outbox db !! msg_id).

Definition outbox_expired (db : Db) (r : OutboxRow) : bool :=
  as_i64 (ob_expires_at r) <=? as_i64 (db_now db).

Definition fail_expired (db : Db) : Db * list OutboxRow :=
  (set_outbox db (filter (λ kv : bytes * OutboxRow, outbox_expired db kv.2 = false) (db_outbox db)),
   (map_to_list (filter (λ kv : bytes * OutboxRow, outbox_expired db kv.2 = true)
                   (db_outbox db))).*2).

Definition fail_relationship_outbound (db : Db) (rel_id : string) : Db * Z :=
  let hit r := is_outbound rel_id r && is_unsettled (mr_state r) in
  let n := Z.of_nat (size (filter (λ kv : bytes * MessageRow, hit kv.2 = true) (db_messages db))) in
  let db := set_messages db ((λ r, if hit r then with_state r Failed else r) <$> db_messages db) in
  (set_outbox db (filter (λ kv : bytes * OutboxRow, ob_rel_id kv.2 ≠ rel_id) (db_outbox db)), n).

(** ** [TombstonesRepository] and the history cut *)

Definition TOMBSTONE_TTL_SEC : Z := 86400.

Definition add_tombstone (db : Db) (rel_id : string) (ref_id : bytes) : Db :=
  set_tombstones db (<[(rel_id, ref_id) := wrap64 (db_now db + TOMBSTONE_TTL_SEC)]>
                       (db_tombstones db)).

Definition is_tombstoned (db : Db) (rel_id : string) (ref_id : bytes) : bool :=
  match db_tombstones db !! (rel_id, ref_id) with
  | Some expiry => as_i64 (db_now db) <? as_i64 expiry
  | None => false
  end.

Definition history_cut (db : Db) (rel_id : string) : Z :=
  as_u64 (from_option rel_history_cut 0 (db_rels db !! rel_id)).

Definition raise_history_cut (db : Db) (rel_id : string) (seq : Z) : Db :=
  set_rels db (alter (λ r, mkRelRow (rel_role r) (rel_state r) (rel_peer_onion r)
      (rel_our_qr_bytes r) (rel_intro_pending r) (rel_session r) (rel_created_at r)
      (rel_peer_caps r) (rel_close_state r) (Z.max (rel_history_cut r) (as_i64 seq)) (rel_policy r)
      (rel_peer_prefs r) (rel_pairing r))
    rel_id (db_rels db)).

(** [ORDER BY expiry DESC] *)
Definition expiry_ge (a b : string * bytes * Z) : Prop := as_i64 b.2 ≤ as_i64 a.2.
#[export] Instance expiry_ge_dec : RelDecision expiry_ge := λ a b, Z_le_dec _ _.

Definition prune_tombstones (db : Db) (rel_id : string) : Db * Z :=
  let hit (kv : string * bytes * Z) := bool_decide (kv.1.1 = rel_id)
                                       && (as_i64 kv.2 <=? as_i64 (db_now db)) in
  let expired := size (filter (λ kv, hit kv = true) (db_tombstones db)) in
  let t := filter (λ kv, hit kv = false) (db_tombstones db) in
  let over := drop (Z.to_nat TOMBSTONE_CAP)
                (merge_sort expiry_ge (filter (λ kv : string * bytes * Z, kv.1.1 = rel_id)
                                         (map_to_list t))) in
  let t := foldr (λ kv t, delete kv.1 t) t over in
  (set_tombstones db t, Z.of_nat (expired + length over)).

Definition tombstone_count (db : Db) (rel_id : string) : Z :=
  Z.of_nat (size (filter (λ kv : string * bytes * Z, kv.1.1 = rel_id) (db_tombstones db))).

(** ** Sequence tables *)

(** The relationship's recorded sequence numbers are positive and below
    the sign bit: what a peer that numbers its envelopes from 1 sends. *)
Definition seqs_sane (db : Db) (rel_id : string) : Prop :=
  ∀ s, (rel_id, s) ∈ db_inbound_seqs db → 0 < s < 2 ^ 63.

Definition seqs_of (db : Db) (rel_id : string) : list Z :=
  (filter (λ p : string * Z, p.1 = rel_id) (elements (db_inbound_seqs db))).*2.

Lemma elem_of_seqs_of db rel_id s : s ∈ seqs_of db rel_id ↔ (rel_id, s) ∈ db_inbound_seqs db.
Proof.
  unfold seqs_of. rewrite list_elem_of_fmap. split.
  - intros ([r x] & -> & [Hr Hin]%list_elem_of_filter). cbn in *. subst. by apply elem_of_elements.
  - intros H. exists (rel_id, s). split; [done|]. apply list_elem_of_filter. split; [done|].
    by apply elem_of_elements.
Qed.

Lemma NoDup_seqs_of db rel_id : NoDup (seqs_of db rel_id).
Proof.
  unfold seqs_of. apply NoDup_fmap_2_strong; [|apply NoDup_filter, NoDup_elements].
  intros [r1 s1] [r2 s2] [E1 _]%list_elem_of_filter [E2 _]%list_elem_of_filter Hs. cbn in *. congruence.
Qed.

Lemma ascending_sorted l : Sorted Z.le l → NoDup l → ascending l.
Proof.
  intros Hs Hn. apply Sorted_StronglySorted in Hs; [|intros x y z; lia].
  induction Hs as [|x l Hs IH Hall]; [constructor|]. apply NoDup_cons in Hn as [Hx Hn].
  constructor; [by apply IH|]. rewrite Forall_forall in Hall |- *. intros y Hy.
  specialize (Hall y Hy). assert (x ≠ y) by congruence. lia.
Qed.

Lemma seqs_asc_spec db rel_id :
  ascending (seqs_asc db rel_id)
  ∧ (∀ s, s ∈ seqs_asc db rel_id ↔ (rel_id, s) ∈ db_inbound_seqs db)
  ∧ length (seqs_asc db rel_id) = length (seqs_of db rel_id).
Proof.
  unfold seqs_asc. fold (seqs_of db rel_id).
  pose proof (merge_sort_Permutation Z.le (seqs_of db rel_id)) as Hp. split_and!.
  - apply ascending_sorted; [apply Sorted_merge_sort; intros x y; lia|].
    rewrite Hp. apply NoDup_seqs_of.
  - intros s. rewrite Hp. apply elem_of_seqs_of.
  - by rewrite Hp.
Qed.

Lemma fmap_as_u64 l : Forall (λ s, 0 < s < 2 ^ 63) l → as_u64 <$> l = l.
Proof.
  induction 1 as [|x l Hx _ IH]; [done|]. cbn. rewrite IH. unfold as_u64. rewrite Z.mod_small by lia. done.
Qed.

Lemma seqs_asc_ok db rel_id : seqs_sane db rel_id → seqs_ok (seqs_asc db rel_id).
Proof.
  intros Hs. apply Forall_forall. intros s Hin. apply Hs. by apply seqs_asc_spec.
Qed.

(** The view of a table that fits the scan is exact on the repair window. *)
Lemma receive_view_exact db rel_id s :
  seqs_sane db rel_id → len (seqs_of db rel_id) ≤ VIEW_SCAN_LIMIT → 0 < s →
  let v := receive_view db rel_id BITMAP_BITS in
  is_missing (rv_max_contiguous_seq v) (rv_bitmap v) s
  = negb (bool_decide ((rel_id, s) ∈ db_inbound_seqs db)
          && (s <=? rv_max_contiguous_seq v + BITMAP_BITS)).
Proof.
  intros Hs Hl Hpos. destruct (seqs_asc_spec db rel_id) as (Ha & Hin & Hlen).
  unfold receive_view. cbv zeta. rewrite take_ge by (unfold len in Hl; lia).
  rewrite fmap_as_u64 by (by apply seqs_asc_ok).
  rewrite view_of_seqs_exact by (by try apply seqs_asc_ok). f_equal. f_equal.
  by apply bool_decide_ext.
Qed.

(** ** Outbound sequence numbers *)

Lemma floor_after db rel_id n :
  0 ≤ n ≤ u64_max →
  match (<[out_seq_floor_key rel_id := be_bytes 8 n]> (db_settings db)) !! out_seq_floor_key rel_id with
  | Some v => if bool_decide (length v = 8%nat) then be_val v else 1
  | None => 1
  end = n.
Proof.
  intros Hn. rewrite lookup_insert_eq, length_be_bytes, bool_decide_eq_true_2 by done.
  apply be_val_bytes_small. unfold u64_max in Hn. lia.
Qed.

(** Outbound sequence numbers only grow: the number handed out next is
    larger than the one handed out before, whatever happened to the ledger
    rows in between (retention sweeps, history erasure), as long as the
    relationship's floor setting is kept and the counter has not reached
    its last value. *)
Theorem outbound_seq_monotone db rel_id db1 n1 db2 :
  next_out_seq db rel_id = (db1, n1) → 0 ≤ n1 < u64_max →
  db_settings db2 !! out_seq_floor_key rel_id = db_settings db1 !! out_seq_floor_key rel_id →
  n1 < (next_out_seq db2 rel_id).2.
Proof.
  intros H Hn Hset. unfold next_out_seq in H. injection H as <- Hn1. cbn [db_settings set_settings] in Hset.
  unfold next_out_seq. cbn [snd]. rewrite Hset. rewrite Hn1. rewrite floor_after.
  - unfold sat_add64. lia.
  - unfold sat_add64. lia.
Qed.


(** ** Main results *)

(** The receive view advertised to a peer is exact: over a table within
    the scan bound, the peer's reading of the horizon and bitmap calls a
    sequence number missing exactly when the table lacks it or it lies past
    the bitmap's window. *)
Theorem receive_view_sound db rel_id s :
  seqs_sane db rel_id → len (seqs_of db rel_id) ≤ VIEW_SCAN_LIMIT → 0 < s →
  let v := receive_view db rel_id BITMAP_BITS in
  is_missing (rv_max_contiguous_seq v) (rv_bitmap v) s
  = negb (bool_decide ((rel_id, s) ∈ db_inbound_seqs db)
          && (s <=? rv_max_contiguous_seq v + BITMAP_BITS)).
Proof. apply receive_view_exact. Qed.

Definition demo_seq_db : Db :=
  mkDb 1000 ∅ ∅ {[("rel"%string, 1); ("rel"%string, 2); ("rel"%string, 4)]} ∅ ∅ ∅ ∅ ∅ ∅ ∅
    ∅ sticker_db_empty None.

Lemma demo_seqs_sane : seqs_sane demo_seq_db "rel".
Proof. intros s Hs. cbn in Hs. rewrite !elem_of_union, !elem_of_singleton in Hs. naive_solver lia. Qed.

Lemma receive_view_sound_witness :
  let v := receive_view demo_seq_db "rel" BITMAP_BITS in
  is_missing (rv_max_contiguous_seq v) (rv_bitmap v) 3
  = negb (bool_decide (("rel"%string, 3) ∈ db_inbound_seqs demo_seq_db)
          && (3 <=? rv_max_contiguous_seq v + BITMAP_BITS)).
Proof. apply receive_view_sound; [apply demo_seqs_sane|by vm_compute|lia]. Defined.

Lemma outbound_seq_monotone_witness :
  (next_out_seq demo_seq_db "rel").2 < (next_out_seq (next_out_seq demo_seq_db "rel").1 "rel").2.
Proof.
  apply (outbound_seq_monotone demo_seq_db "rel" (next_out_seq demo_seq_db "rel").1
           (next_out_seq demo_seq_db "rel").2); [by vm_compute|by vm_compute|done].
Defined.
