(* ===== verification/Settings.v ===== *)
(** The [settings] table ([core/src/store/settings.rs]): opaque bytes under a
    key, the typed accessors over them, and the keys the engine uses. *)

From stdpp Require Import sorting.
From S2P Require Import Prelude Bin RustStr Policy Ledger.

(** ** Keys *)

Definition PROFILE_NAME : string := "profile_name".
Definition PROFILE_AVATAR : string := "profile_avatar".
Definition close_started_at_key (rel_id : string) : string := "close_started_at:" +:+ rel_id.
Definition resync_req_at_key (rel_id : string) : string := "resync_req_at:" +:+ rel_id.
Definition intro_at_key (service_id : string) : string := "intro_at:" +:+ service_id.
Definition activation_sent_key (rel_id : string) : string := "activation_sent:" +:+ rel_id.

(** ** [SettingsRepository] *)

Definition set_setting (db : Db) (key : string) (v : bytes) : Db :=
  set_settings db (<[key := v]> (db_settings db)).

Definition setting (db : Db) (key : string) : option bytes := db_settings db !! key.

Definition delete_setting (db : Db) (key : string) : Db * bool :=
  (set_settings db (delete key (db_settings db)), bool_decide (is_Some (setting db key))).

(** [ORDER BY key ASC] *)
Definition key_le (a b : string * bytes) : Prop := String.leb a.1 b.1 = true.
#[export] Instance key_le_dec : RelDecision key_le := λ a b, bool_eq_dec _ _.
Definition all_settings (db : Db) : list (string * bytes) :=
  merge_sort key_le (map_to_list (db_settings db)).

(** ** [TypedSettings] *)

Definition get_bool (db : Db) (key : string) : result StoreError (option bool) :=
  match setting db key with
  | None => Ok None
  | Some v =>
      if bool_decide (v = str_bytes "1") then Ok (Some true)
      else if bool_decide (v = str_bytes "0") then Ok (Some false)
      else Err (Corrupt (Lit "bool setting {key}"))
  end.

Definition set_bool (db : Db) (key : string) (value : bool) : Db :=
  set_setting db key (if value then str_bytes "1" else str_bytes "0").

Definition get_u64 (db : Db) (key : string) : result StoreError (option Z) :=
  match setting db key with
  | None => Ok None
  | Some v => if bool_decide (length v = 8%nat) then Ok (Some (be_val v))
              else Err (Corrupt (Lit "u64 setting {key}"))
  end.

Definition set_u64 (db : Db) (key : string) (value : Z) : Db := set_setting db key (be_bytes 8 value).

Definition get_string (db : Db) (key : string) : result StoreError (option bytes) :=
  match setting db key with
  | None => Ok None
  | Some v =>
      match from_utf8 v with
      | Some s => Ok (Some s)
      | None => Err (Corrupt (Lit "string setting {key}"))
      end
  end.

Definition set_string (db : Db) (key : string) (value : bytes) : Db := set_setting db key value.

(** [setting(key)?.and_then(|v| v.try_into().ok().map(u64::from_be_bytes))]:
    a stamp of eight bytes, anything else reads as absent. *)
Definition stamp (db : Db) (key : string) : option Z :=
  v ← setting db key; if bool_decide (length v = 8%nat) then Some (be_val v) else None.

(** ** Laws *)

Lemma be_val_u64 t : is_u64 t → be_val (be_bytes 8 t) = t.
Proof. unfold is_u64, u64_max. intros H. apply be_val_bytes_small. lia. Qed.

Lemma setting_set db key v other :
  setting (set_setting db key v) other = if decide (other = key) then Some v else setting db other.
Proof.
  unfold setting, set_setting. cbn [db_settings set_settings]. case_decide as H.
  - subst. apply lookup_insert_eq.
  - by rewrite lookup_insert_ne.
Qed.

Lemma stamp_set db key t : is_u64 t → stamp (set_u64 db key t) key = Some t.
Proof.
  intros Ht. unfold stamp, set_u64. rewrite setting_set, decide_True by done. cbn [mbind option_bind].
  rewrite bool_decide_true by apply length_be_bytes. by rewrite be_val_u64.
Qed.

Lemma typed_roundtrip db key :
  (∀ b, get_bool (set_bool db key b) key = Ok (Some b))
  ∧ (∀ v, is_u64 v → get_u64 (set_u64 db key v) key = Ok (Some v))
  ∧ (∀ s, utf8_ok s = true → get_string (set_string db key s) key = Ok (Some s)).
Proof.
  split_and!.
  - intros []; unfold get_bool, set_bool; by rewrite setting_set, decide_True.
  - intros v Hv. unfold get_u64, set_u64. rewrite setting_set, decide_True by done.
    rewrite bool_decide_true by apply length_be_bytes. by rewrite be_val_u64.
  - intros s Hs. unfold get_string, set_string. rewrite setting_set, decide_True by done.
    by rewrite from_utf8_ok.
Qed.

(** ** The key space *)

(** The constants of [mod keys], in the order of the source (the literals of
    the onion mode are values, not keys). *)
Definition static_keys : list string :=
  ["profile_name"; "profile_avatar"; "notify_arrivals"; "snatch_enabled"; "receive_media";
   "inactivity_erase_hours"; "do_not_disturb"; "presence_share"; "onion_mode"; "tor_reconnect_hint_at";
   "theme_json"; "wall_default_blur"; "wall_default_dim"; "wall_list_blur"; "wall_list_dim";
   "wall_default_dek"; "wall_list_dek"; "wall_version"; "wall_default_scale"; "wall_default_off_x";
   "wall_default_off_y"; "wall_list_scale"; "wall_list_off_x"; "wall_list_off_y"; "last_pref_sent_at";
   "default_cap_attach"; "default_cap_emoji"; "default_cap_presence"; "default_cap_typing";
   "default_cap_receipts"; "default_cap_green_dot"; "cap_defaults_v2_applied"; "profile_sync_fanout_at";
   "profile_sync_send"; "profile_sync_receive_disabled"]%string.

Definition ONION_MODES : list string := ["fast"; "normal"; "saver"]%string.

(** The families of keys that end in an id, by their literal part. *)
Definition key_families : list string :=
  ["profile_sent_"; "profile_req_sent_"; "profile_trade_await_"; "profile_trade_owed_"; "profile_sync_sent_";
   "share_chip_dismissed_"; "close_started_at:"; "resync_req_at:"; "intro_at:"; "activation_sent:";
   "out_seq_floor:"]%string.

Definition family_key (family id : string) : string := family +:+ id.

Lemma app_prefixes p q a b : p +:+ a = q +:+ b → String.prefix p q = true ∨ String.prefix q p = true.
Proof.
  revert q. induction p as [|c p IH]; intros q; [by left; destruct q|]. destruct q as [|d q]; [by right|].
  cbn. intros [= -> Heq]. destruct (Ascii.ascii_dec d d); [|done]. by apply IH.
Qed.

Lemma prefix_app p a : String.prefix p (p +:+ a) = true.
Proof. induction p as [|c p IH]; [by destruct a|]. change (String c p +:+ a) with (String c (p +:+ a)). cbn [String.prefix]. destruct (Ascii.ascii_dec c c); [apply IH|done]. Qed.

Lemma append_inj p a b : p +:+ a = p +:+ b → a = b.
Proof. induction p as [|c p IH]; [done|]. cbn. intros [= Heq]. by apply IH. Qed.

(** No two settings share a key: the constants are distinct, a key of a family
    determines its family and its id whatever the ids are, and no constant is
    in a family. *)
Theorem setting_keys_distinct :
  NoDup static_keys
  ∧ (∀ f g a b, f ∈ key_families → g ∈ key_families → family_key f a = family_key g b → f = g ∧ a = b)
  ∧ (∀ k f a, k ∈ static_keys → f ∈ key_families → k ≠ family_key f a).
Proof.
  split_and!.
  - by apply (bool_decide_unpack (NoDup static_keys)); vm_compute.
  - intros f g a b Hf Hg Heq.
    assert (Hfree : Forall (λ f, Forall (λ g, String.prefix f g = true → f = g) key_families) key_families).
    { by apply (bool_decide_unpack _); vm_compute. }
    rewrite Forall_forall in Hfree. pose proof (Hfree _ Hf) as H1. pose proof (Hfree _ Hg) as H2.
    rewrite Forall_forall in H1, H2. assert (f = g) as <-.
    { destruct (app_prefixes _ _ _ _ Heq); [by apply H1|symmetry; by apply H2]. }
    split; [done|]. by eapply append_inj.
  - intros k f a Hk Hf ->.
    assert (Hfree : Forall (λ k, Forall (λ f, String.prefix f k = false) key_families) static_keys).
    { by apply (bool_decide_unpack _); vm_compute. }
    rewrite Forall_forall in Hfree. specialize (Hfree _ Hk). rewrite Forall_forall in Hfree.
    specialize (Hfree _ Hf). unfold family_key in Hfree. by rewrite prefix_app in Hfree.
Qed.

Example engine_keys_in_families rel :
  [close_started_at_key rel; resync_req_at_key rel; intro_at_key rel; activation_sent_key rel; out_seq_floor_key rel]
  = (λ f, family_key f rel) <$> drop 6 key_families.
Proof. done. Qed.
