(* ===== verification/Sync.v ===== *)
(** The sync layer ([core/src/sync]): the [sent_at] gate, inbound ingress,
    the resync request and its handler, the outbox drain with its
    backoff, and the delivery-state transitions. Cryptographic state is
    not touched here: the handler reads the stored ciphertexts of the
    retransmission cache. *)

From stdpp Require Import sorting.
From S2P Require Import Prelude Limits Bin Payloads WirePolicy WireResync Envelope Policy View Ledger.

Definition MESSAGE_TTL_SECS : Z := 86400.

Inductive SyncError :=
| SyStore (e : StoreError)
| SyBroken
| SyWire (e : WireError)
| FutureTimestamp (sent_at now : Z)
| BadTransition (from to : DeliveryState)
| SySend.

(** ** [skew.rs] *)

Definition MAX_FUTURE_SKEW_SECS : Z := 300.

Definition clamp_sent_at (sent_at now : Z) : result SyncError Z :=
  if sent_at >? wrap64 (now + MAX_FUTURE_SKEW_SECS) then Err (FutureTimestamp sent_at now)
  else Ok (Z.min sent_at now).

(** ** [resync.rs] *)

Definition session_state (db : Db) (rel_id : string) : SessionState :=
  from_option rel_session SessNone (db_rels db !! rel_id).

Definition refuse_if_broken (db : Db) (rel_id : string) : result SyncError unit :=
  if bool_decide (session_state db rel_id = SessBroken) then Err SyBroken else Ok tt.

Definition build_request (sha256 : bytes → bytes) (db : Db) (rel_id : string)
    : result SyncError ResyncReq :=
  let* _ := refuse_if_broken db rel_id in
  let view := receive_view db rel_id BITMAP_BITS in
  let base := deep_base (rv_max_contiguous_seq view) in
  let deep := deep_seqs db rel_id base (rv_max_contiguous_seq view) in
  let hh := history_hash sha256 (rv_max_contiguous_seq view) (rv_bitmap view) deep in
  Ok (mkResyncReq (rv_max_contiguous_seq view) (rv_bitmap view) CAPS_LOCAL hh).

Definition opens_gap (db : Db) (rel_id : string) (app_seq : Z) : bool :=
  if app_seq <=? 1 then false
  else
    let view := receive_view db rel_id BITMAP_BITS in
    app_seq >? wrap64 (rv_max_contiguous_seq view + 1).

(** ** Delivery transitions ([outbox.rs]) *)

Definition legal (from to : DeliveryState) : bool :=
  match from, to with
  | Queued, Transmitted
  | Queued, Acknowledged
  | Transmitted, Acknowledged
  | Transmitted, Transmitted
  | Queued, Failed
  | Transmitted, Failed => true
  | _, _ => false
  end.

Definition transition (db : Db) (msg_id : bytes) (to : DeliveryState) : result SyncError Db :=
  let* row := ok_or (message db msg_id) (SyStore (Corrupt (Lit "transition on unknown msg_id"))) in
  let from := mr_state row in
  if negb (legal from to) then Err (BadTransition from to)
  else Ok (set_delivery db msg_id to).1.

Definition mark_transmitted (db : Db) (msg_id : bytes) : result SyncError Db :=
  transition db msg_id Transmitted.

Definition mark_acknowledged (db : Db) (msg_id : bytes) : result SyncError Db :=
  transition db msg_id Acknowledged.

(** ** The resync handler *)

Record Retransmit := mkRetransmit {
  rt_msg_id : bytes;
  rt_app_seq : Z;
  rt_frame : bytes;
}.

(** [session::stored_ciphertext] *)
Definition stored_ciphertext (db : Db) (rel_id : string) (msg_id : bytes) : option bytes :=
  match db_ciphertexts db !! msg_id with
  | Some (rel, frame) => if bool_decide (rel = rel_id) then Some frame else None
  | None => None
  end.

(** The loop over the candidate rows: the store and the frames to send. *)
Fixpoint settle (rel_id : string) (req : ResyncReq) (now : Z) (rows : list MessageRow) (db : Db)
    : result SyncError (Db * list Retransmit) :=
  match rows with
  | [] => Ok (db, [])
  | row :: rest =>
      if negb (is_missing (rq_max_contiguous_seq req) (rq_received_seq_bitmap req) (mr_app_seq row))
      then
        let* db := (if is_unsettled (mr_state row) then mark_acknowledged db (mr_msg_id row)
                    else Ok db) in
        settle rel_id req now rest db
      else if from_option (λ exp, exp <=? now) false (mr_expires_at row) then
        settle rel_id req now rest db
      else
        let* p := settle rel_id req now rest db in
        match stored_ciphertext db rel_id (mr_msg_id row) with
        | Some frame => Ok (p.1, mkRetransmit (mr_msg_id row) (mr_app_seq row) frame :: p.2)
        | None => Ok p
        end
  end.

Definition handle_request (db : Db) (rel_id : string) (req : ResyncReq)
    : result SyncError (Db * list Retransmit) :=
  let* _ := refuse_if_broken db rel_id in
  let now := db_now db in
  let through := wrap64 (rq_max_contiguous_seq req + BITMAP_BITS) in
  settle rel_id req now (unacked_outbound db rel_id through) db.

(** ** Ingress ([ingress.rs]) *)

Inductive IngestOutcome :=
| Stored (opens_gap : bool)
| Duplicate.

Definition track_inbound (db : Db) (rel_id : string) (env : Envelope) : result SyncError (Db * bool) :=
  let now := db_now db in
  let* _ := clamp_sent_at (env_sent_at env) now in
  Ok (note_inbound_seq db rel_id (env_app_seq env)).

Definition ingest_envelope (nfc : bytes → bytes) (db : Db) (rel_id : string) (env : Envelope)
    : result SyncError (Db * IngestOutcome) :=
  let now := db_now db in
  let* sent_at := clamp_sent_at (env_sent_at env) now in
  match message db (env_msg_id env) with
  | Some _ => Ok (db, Duplicate)
  | None =>
      let gap := opens_gap db rel_id (env_app_seq env) in
      let db := (note_inbound_seq db rel_id (env_app_seq env)).1 in
      let* payload := map_err SyWire (payload_encode nfc (env_payload env)) in
      let* db := map_err SyStore (insert_message db
        (mkNewMessage (env_msg_id env) rel_id DirIn (env_app_seq env) sent_at (Some now)
           (code (envelope_type env)) (env_ref_id env) payload Received
           (Some (wrap64 (now + MESSAGE_TTL_SECS))))) in
      Ok (db, Stored gap)
  end.

(** ** The drain ([outbox.rs]) *)

Definition BACKOFF_BASE_SECS : Z := 5.
Definition BACKOFF_CAP_SECS : Z := 900.

Definition backoff (attempts : Z) : Z :=
  Z.min (sat_mul64 BACKOFF_BASE_SECS (Z.min (3 ^ Z.min attempts 10) u64_max)) BACKOFF_CAP_SECS.

Record DrainOutcome := mkDrainOutcome {
  do_transmitted : list bytes;
  do_deferred : list bytes;
}.

Section Drain.
(** The caller's sink: an [FnMut] closure with its own state. *)
Context {S : Type} (send : S → string → bytes → S * bool).

Fixpoint drain_rows (rows : list OutboxRow) (db : Db) (s : S) : Db * S * DrainOutcome :=
  match rows with
  | [] => (db, s, mkDrainOutcome [] [])
  | row :: rest =>
      let '(s, sent) := send s (ob_rel_id row) (ob_record row) in
      if sent then
        let db := (dequeue db (ob_msg_id row)).1 in
        let db := (set_delivery db (ob_msg_id row) Transmitted).1 in
        let '(db, s, o) := drain_rows rest db s in
        (db, s, mkDrainOutcome (ob_msg_id row :: do_transmitted o) (do_deferred o))
      else
        let db := note_attempt db (ob_msg_id row) (backoff (ob_attempts row)) in
        let '(db, s, o) := drain_rows rest db s in
        (db, s, mkDrainOutcome (do_transmitted o) (ob_msg_id row :: do_deferred o))
  end.

Definition drain (db : Db) (limit : Z) (s : S) : Db * S * DrainOutcome :=
  drain_rows (due db limit) db s.
End Drain.

(** ** Ledger lemmas used by the handler *)

#[export] Instance message_row_eq_dec : EqDecision MessageRow.
Proof. solve_decision. Defined.

(** Rows sit under their own id. *)
Definition ledger_wf (db : Db) : Prop :=
  ∀ k r, db_messages db !! k = Some r → mr_msg_id r = k.

Lemma elem_of_select db p r :
  r ∈ select_messages db p ↔ p r = true ∧ ∃ k, db_messages db !! k = Some r.
Proof.
  unfold select_messages. rewrite merge_sort_Permutation, list_elem_of_filter, list_elem_of_fmap.
  split.
  - intros [Hp ([k r'] & -> & Hin%elem_of_map_to_list)]. eauto.
  - intros [Hp [k Hk]]. split; [done|]. exists (k, r). split; [done|]. by apply elem_of_map_to_list.
Qed.

Lemma NoDup_select_ids db p : ledger_wf db → NoDup (mr_msg_id <$> select_messages db p).
Proof.
  intros Hw. unfold select_messages. rewrite merge_sort_Permutation.
  assert (Hnd : NoDup (mr_msg_id <$> (map_to_list (db_messages db)).*2)).
  { rewrite <- list_fmap_compose.
    rewrite (list_fmap_ext _ fst); [apply NoDup_fst_map_to_list|].
    intros i [k r] Hi. cbn. apply Hw, elem_of_map_to_list. by eapply list_elem_of_lookup_2. }
  by apply NoDup_fmap_filter.
Qed.

Definition covered (req : ResyncReq) (r : MessageRow) : bool :=
  negb (is_missing (rq_max_contiguous_seq req) (rq_received_seq_bitmap req) (mr_app_seq r)).

(** The frame the handler returns for a row the peer lacks, if any. *)
Definition retransmit_of (rel_id : string) (req : ResyncReq) (db : Db) (r : MessageRow)
    : option Retransmit :=
  if covered req r then None
  else if from_option (λ exp, exp <=? db_now db) false (mr_expires_at r) then None
  else mkRetransmit (mr_msg_id r) (mr_app_seq r) <$> stored_ciphertext db rel_id (mr_msg_id r).

(** The ledger after the verdicts. *)
Definition settled (req : ResyncReq) (rows : list MessageRow) (r : MessageRow) : MessageRow :=
  if bool_decide (r ∈ rows) && covered req r then with_state r Acknowledged else r.

Definition unsettled_rows (db : Db) (rows : list MessageRow) : Prop :=
  NoDup (mr_msg_id <$> rows)
  ∧ Forall (λ r, db_messages db !! mr_msg_id r = Some r ∧ is_unsettled (mr_state r) = true) rows.

Lemma transition_ack db r :
  db_messages db !! mr_msg_id r = Some r → is_unsettled (mr_state r) = true →
  mark_acknowledged db (mr_msg_id r)
  = Ok (set_messages db (<[mr_msg_id r := with_state r Acknowledged]> (db_messages db))).
Proof.
  intros Hl Hs. unfold mark_acknowledged, transition, message. rewrite Hl. cbn [ok_or rbind].
  assert (legal (mr_state r) Acknowledged = true) as -> by (by destruct (mr_state r)). cbn [negb].
  unfold set_delivery. cbn [fst]. f_equal. f_equal. apply map_eq. intros k.
  destruct (decide (k = mr_msg_id r)) as [->|Hk].
  - by rewrite lookup_alter_eq, lookup_insert_eq, Hl.
  - by rewrite lookup_alter_ne, lookup_insert_ne.
Qed.

Lemma settle_spec rel_id req rows db :
  unsettled_rows db rows → ledger_wf db →
  ∃ m, settle rel_id req (db_now db) rows db
       = Ok (set_messages db m, omap (retransmit_of rel_id req db) rows)
    ∧ ∀ k, m !! k = settled req rows <$> db_messages db !! k.
Proof.
  revert db. induction rows as [|row rows IH]; intros db [Hnd Hall] Hw.
  - exists (db_messages db). split; [by destruct db|]. intros k. unfold settled.
    destruct (db_messages db !! k); [|done]. cbn. by rewrite bool_decide_eq_false_2 by (by intros ?%elem_of_nil).
  - apply NoDup_cons in Hnd as [Hrow Hnd]. apply Forall_cons in Hall as [[Hl Hs] Hall].
    cbn [settle omap list_omap]. unfold retransmit_of at 1. fold (covered req row).
    destruct (covered req row) eqn:Hc.
    + rewrite Hs, transition_ack by done. cbn [rbind].
      set (db1 := set_messages db _).
      assert (Hu1 : unsettled_rows db1 rows).
      { split; [done|]. rewrite Forall_forall in Hall |- *. intros r Hr. destruct (Hall r Hr).
        split; [|done]. unfold db1. cbn. rewrite lookup_insert_ne; [done|].
        intros E. apply Hrow, list_elem_of_fmap. exists r. done. }
      assert (Hw1 : ledger_wf db1).
      { intros k r. unfold db1. cbn. destruct (decide (k = mr_msg_id row)) as [->|Hk].
        - rewrite lookup_insert_eq. by intros [= <-].
        - rewrite lookup_insert_ne by done. apply Hw. }
      destruct (IH db1 Hu1 Hw1) as (m & Hm & Hk). exists m. split; [exact Hm|].
      intros k. rewrite Hk. unfold db1. cbn [db_messages set_messages].
      destruct (decide (k = mr_msg_id row)) as [->|Hne].
      * rewrite lookup_insert_eq, Hl. cbn. f_equal. unfold settled.
        rewrite (bool_decide_eq_true_2 (row ∈ row :: rows)) by (by apply elem_of_cons; left).
        rewrite Hc. cbn [andb]. rewrite bool_decide_eq_false_2; [done|].
        intros Hin. apply Hrow, list_elem_of_fmap. by exists (with_state row Acknowledged).
      * rewrite lookup_insert_ne by done. destruct (db_messages db !! k) as [r|] eqn:E; [|done].
        cbn. f_equal. unfold settled. rewrite (bool_decide_ext (r ∈ rows) (r ∈ row :: rows)); [done|].
        rewrite elem_of_cons. split; [by right|]. intros [->|?]; [|done]. by apply Hw in E.
    + assert (Hset : ∀ k, settled req (row :: rows) <$> db_messages db !! k
                       = settled req rows <$> db_messages db !! k).
      { intros k. destruct (db_messages db !! k) as [r|] eqn:E; [|done]. cbn. f_equal. unfold settled.
        destruct (decide (r = row)) as [->|Hne]; [by rewrite Hc, !andb_false_r|].
        rewrite (bool_decide_ext (r ∈ row :: rows) (r ∈ rows)); [done|].
        rewrite elem_of_cons. naive_solver. }
      destruct (IH db (conj Hnd Hall) Hw) as (m & Hm & Hk). exists m.
      split; [|intros k; by rewrite Hk, Hset]. cbn [negb].
      destruct (from_option _ _ (mr_expires_at row)); [exact Hm|]. rewrite Hm. cbn [rbind fst snd].
      by destruct (stored_ciphertext db rel_id (mr_msg_id row)).
Qed.

(** ** The handler *)

Lemma unacked_unsettled db rel_id through :
  ledger_wf db → unsettled_rows db (unacked_outbound db rel_id through).
Proof.
  intros Hw. split; [by apply NoDup_select_ids|]. apply Forall_forall. intros r Hr.
  unfold unacked_outbound in Hr. apply elem_of_select in Hr as [Hp [k Hk]].
  apply andb_true_iff in Hp as [_ Hs]. split; [|done]. by rewrite (Hw _ _ Hk).
Qed.

Lemma handle_request_spec db rel_id req :
  ledger_wf db → session_state db rel_id ≠ SessBroken →
  let rows := unacked_outbound db rel_id (wrap64 (rq_max_contiguous_seq req + BITMAP_BITS)) in
  ∃ m, handle_request db rel_id req
       = Ok (set_messages db m, omap (retransmit_of rel_id req db) rows)
    ∧ ∀ k, m !! k = settled req rows <$> db_messages db !! k.
Proof.
  intros Hw Hb. cbv zeta. unfold handle_request, refuse_if_broken.
  rewrite bool_decide_eq_false_2 by done. cbn [rbind].
  apply settle_spec; [by apply unacked_unsettled|done].
Qed.

Lemma handle_request_broken db rel_id req :
  session_state db rel_id = SessBroken → handle_request db rel_id req = Err SyBroken.
Proof. intros H. unfold handle_request, refuse_if_broken. by rewrite bool_decide_eq_true_2. Qed.

(** The request a peer builds from its own table. *)
Lemma build_request_view sha256 db rel_id req :
  build_request sha256 db rel_id = Ok req →
  rq_max_contiguous_seq req = rv_max_contiguous_seq (receive_view db rel_id BITMAP_BITS)
  ∧ rq_received_seq_bitmap req = rv_bitmap (receive_view db rel_id BITMAP_BITS).
Proof.
  unfold build_request. intros (u & _ & H)%rbind_Ok. apply Ok_inj in H. by subst req.
Qed.

(** The scanned prefix of the sequence table. *)
Lemma scan_ok db rel_id :
  seqs_sane db rel_id →
  let l := take (Z.to_nat VIEW_SCAN_LIMIT) (seqs_asc db rel_id) in
  ascending l ∧ seqs_ok l ∧ len l ≤ VIEW_SCAN_LIMIT
  ∧ ∀ s, s ∈ l → (rel_id, s) ∈ db_inbound_seqs db.
Proof.
  intros Hs. destruct (seqs_asc_spec db rel_id) as (Ha & Hin & _).
  pose proof (seqs_asc_ok db rel_id Hs) as Hok. cbv zeta. split_and!.
  - clear -Ha. revert Ha. generalize (Z.to_nat VIEW_SCAN_LIMIT).
    generalize (seqs_asc db rel_id). intros l n. revert l. induction n as [|n IH]; intros [|x l] Ha;
      try constructor; apply ascending_cons in Ha as [Hx Hl]; [by apply IH|by apply Forall_take].
  - by apply Forall_take.
  - unfold len. rewrite length_take. unfold VIEW_SCAN_LIMIT. lia.
  - intros s [i Hi]%list_elem_of_lookup. apply lookup_take_Some in Hi as [Hi _].
    apply Hin. by eapply list_elem_of_lookup_2.
Qed.

Lemma view_max_range db rel_id bits :
  seqs_sane db rel_id →
  0 ≤ rv_max_contiguous_seq (receive_view db rel_id bits) ≤ VIEW_SCAN_LIMIT
  ∧ ∀ s, 0 < s ≤ rv_max_contiguous_seq (receive_view db rel_id bits) →
      (rel_id, s) ∈ db_inbound_seqs db.
Proof.
  intros Hs. destruct (scan_ok db rel_id Hs) as (Ha & Hok & Hl & Hin).
  unfold receive_view. cbv zeta. set (l := take _ _) in *.
  rewrite fmap_as_u64 by done. unfold view_of_seqs.
  assert (Hpos : Forall (Z.lt 0) l) by (eapply Forall_impl; [exact Hok|]; cbn; lia).
  pose proof (walk_spec 0 l ltac:(lia) Ha Hok Hpos) as Hw. destruct (walk 0 l) as [max rest].
  destruct Hw as (Hmax & _ & _ & Hmem & Hlen). destruct (set_bits _ _ _ _ _).
  cbn [rv_max_contiguous_seq]. pose proof (len_nonneg rest). split; [lia|].
  intros s Hsm. apply Hin, Hmem. by left.
Qed.

(** A row of the sender against the table of the receiver. *)
Lemma covered_exact sha256 peer rel_id req r :
  build_request sha256 peer rel_id = Ok req → seqs_sane peer rel_id →
  len (seqs_of peer rel_id) ≤ VIEW_SCAN_LIMIT → 0 < mr_app_seq r →
  covered req r = bool_decide ((rel_id, mr_app_seq r) ∈ db_inbound_seqs peer)
                  && (mr_app_seq r <=? rq_max_contiguous_seq req + BITMAP_BITS).
Proof.
  intros Hb Hs Hl Hr. apply build_request_view in Hb as [Hm Hbm]. unfold covered. rewrite Hm, Hbm.
  rewrite receive_view_exact by done. by rewrite negb_involutive.
Qed.

(** The rows a resync may touch: outbound rows of the relationship, not yet in
    a final state, up to the end of the peer's window. *)
Definition repairable (rel_id : string) (req : ResyncReq) (r : MessageRow) : Prop :=
  mr_direction r = DirOut ∧ mr_rel_id r = rel_id ∧ is_unsettled (mr_state r) = true
  ∧ mr_app_seq r ≤ rq_max_contiguous_seq req + BITMAP_BITS.

#[export] Instance repairable_dec rel_id req r : Decision (repairable rel_id req r).
Proof. unfold repairable. apply _. Defined.

(** The sequence numbers of what was sent start at one and fit a signed column. *)
Definition out_seqs_sane (db : Db) (rel_id : string) : Prop :=
  ∀ k r, db_messages db !! k = Some r → mr_direction r = DirOut → mr_rel_id r = rel_id →
    0 < mr_app_seq r < 2 ^ 63.

Lemma elem_of_unacked db rel_id req k r :
  out_seqs_sane db rel_id → 0 ≤ rq_max_contiguous_seq req ≤ 2 ^ 62 → db_messages db !! k = Some r →
  r ∈ unacked_outbound db rel_id (wrap64 (rq_max_contiguous_seq req + BITMAP_BITS)) ↔ repairable rel_id req r.
Proof.
  intros Hs Hm Hr. unfold unacked_outbound, repairable, is_outbound.
  rewrite elem_of_select, !andb_true_iff, !bool_decide_eq_true, Z.leb_le.
  assert (Hi : mr_direction r = DirOut → mr_rel_id r = rel_id →
    as_i64 (mr_app_seq r) = mr_app_seq r
    ∧ as_i64 (wrap64 (rq_max_contiguous_seq req + BITMAP_BITS)) = rq_max_contiguous_seq req + BITMAP_BITS).
  { intros Hd Hrel. specialize (Hs _ _ Hr Hd Hrel). unfold as_i64, wrap64, BITMAP_BITS, MAX_BITMAP_BYTES in *.
    rewrite (Z.mod_small (_ + _)) by lia. by rewrite !decide_True by lia. }
  split.
  - intros [(((Hrel & Hd) & Hle) & Hu) _]. destruct (Hi Hd Hrel) as [E1 E2]. rewrite E1, E2 in Hle. done.
  - intros (Hd & Hrel & Hu & Hle). destruct (Hi Hd Hrel) as [-> ->]. split; [done|eauto].
Qed.

(** C3: One resync between two parties. The sender's ledger rows sit under
    their own ids and its session is not broken, the sequence numbers of both
    sides for this relationship are positive and fit a signed column, and the
    peer recorded no more of them than its receive view scans. The sender's ledger afterwards has exactly its
    unsettled outbound rows of this relationship in the repair window that the
    peer recorded acknowledged, and every other row, of whatever relationship,
    direction or state, as it was; the frames handed to retransmission are
    exactly the stored ciphertexts of the rows of that window the peer lacks
    and that have not expired; no other table changes. *)
Theorem resync_settles sha256 sender peer rel_id req :
  ledger_wf sender → out_seqs_sane sender rel_id → session_state sender rel_id ≠ SessBroken →
  build_request sha256 peer rel_id = Ok req → seqs_sane peer rel_id →
  len (seqs_of peer rel_id) ≤ VIEW_SCAN_LIMIT →
  ∃ sender' out, handle_request sender rel_id req = Ok (sender', out)
  ∧ (∀ k, db_messages sender' !! k =
       (λ r, if decide (repairable rel_id req r ∧ ((rel_id, mr_app_seq r) ∈ db_inbound_seqs peer))
             then with_state r Acknowledged else r) <$> db_messages sender !! k)
  ∧ (∀ rt, rt ∈ out ↔ ∃ k r frame, db_messages sender !! k = Some r ∧ repairable rel_id req r
       ∧ ((rel_id, mr_app_seq r) ∉ db_inbound_seqs peer)
       ∧ from_option (λ e, db_now sender < e) True (mr_expires_at r)
       ∧ stored_ciphertext sender rel_id k = Some frame ∧ rt = mkRetransmit k (mr_app_seq r) frame)
  ∧ sender' = set_messages sender (db_messages sender').
Proof.
  intros Hw Hos Hb Hreq Hs Hl. destruct (view_max_range peer rel_id BITMAP_BITS Hs) as [Hvm _].
  pose proof (build_request_view _ _ _ _ Hreq) as [Hm _]. rewrite <- Hm in Hvm.
  destruct (handle_request_spec sender rel_id req Hw Hb) as (m & Hh & Hk).
  set (rows := unacked_outbound _ _ _) in *.
  assert (Hrow : ∀ k r, db_messages sender !! k = Some r → r ∈ rows ↔ repairable rel_id req r)
    by (intros k r; apply elem_of_unacked; [done|unfold VIEW_SCAN_LIMIT in Hvm; lia]).
  assert (Hc : ∀ k r, db_messages sender !! k = Some r → repairable rel_id req r →
            covered req r = bool_decide ((rel_id, mr_app_seq r) ∈ db_inbound_seqs peer)).
  { intros k r Hr (Hd & Hrel & _ & Hle). pose proof (Hos _ _ Hr Hd Hrel). erewrite covered_exact by (done || lia).
    destruct (Z.leb_spec (mr_app_seq r) (rq_max_contiguous_seq req + BITMAP_BITS)); [|lia]. apply andb_true_r. }
  eexists _, _. split; [exact Hh|]. cbn [db_messages set_messages]. split_and!; [| |done].
  - intros k. rewrite Hk. destruct (db_messages sender !! k) as [r|] eqn:Hr; [|done]. cbn. f_equal. unfold settled.
    destruct (decide (repairable rel_id req r)) as [Hp|Hp].
    + rewrite bool_decide_eq_true_2 by (by eapply Hrow). rewrite (Hc _ _ Hr Hp). cbn [andb].
      case_bool_decide; [by rewrite decide_True|by rewrite decide_False by tauto].
    + rewrite bool_decide_eq_false_2 by (by rewrite Hrow by done). by rewrite decide_False by tauto.
  - intros rt. rewrite list_elem_of_omap. unfold retransmit_of. split.
    + intros (r & Hin & Hrt). pose proof Hin as [_ [k Hr]]%elem_of_select.
      pose proof (proj1 (Hrow k r Hr) Hin) as Hp. rewrite (Hc _ _ Hr Hp), (Hw _ _ Hr) in Hrt.
      case_bool_decide as Hpeer; [done|]. destruct (stored_ciphertext sender rel_id k) as [frame|] eqn:Ef.
      2:{ by destruct (from_option _ _ _). }
      exists k, r, frame. destruct (mr_expires_at r) as [e|]; cbn in *; [|by injection Hrt].
      destruct (Z.leb_spec e (db_now sender)); [done|]. by injection Hrt.
    + intros (k & r & frame & Hr & Hp & Hpeer & He & Hf & ->). exists r. split; [by eapply Hrow|].
      rewrite (Hc _ _ Hr Hp), bool_decide_eq_false_2, (Hw _ _ Hr), Hf by done.
      destruct (mr_expires_at r) as [e|]; cbn in *; [|done]. by destruct (Z.leb_spec e (db_now sender)); [lia|].
Qed.

(** ** The history fingerprint *)

Lemma elem_of_seq_range base n s : s ∈ seq_range base n ↔ base ≤ s < base + Z.of_nat n.
Proof.
  unfold seq_range. rewrite list_elem_of_fmap. split.
  - intros (i & -> & Hi%elem_of_seq). lia.
  - intros H. exists (Z.to_nat (s - base)). split; [lia|]. apply elem_of_seq. lia.
Qed.

Lemma ascending_seq_range base n : ascending (seq_range base n).
Proof.
  revert base. induction n as [|n IH]; intros base; [constructor|]. rewrite seq_range_S.
  constructor; [apply IH|]. apply Forall_forall. intros s Hs%elem_of_seq_range. lia.
Qed.

(** An ascending list is determined by its elements. *)
Lemma ascending_ext l k : ascending l → ascending k → (∀ s, s ∈ l ↔ s ∈ k) → l = k.
Proof.
  intros Hl. revert k. induction Hl as [|x l Hl IH Hx]; intros k Hk Heq.
  - destruct k as [|y k]; [done|]. by specialize (proj2 (Heq y) (list_elem_of_here _ _)) as []%elem_of_nil.
  - destruct k as [|y k].
    { by specialize (proj1 (Heq x) (list_elem_of_here _ _)) as []%elem_of_nil. }
    apply ascending_cons in Hk as [Hy Hk]. rewrite Forall_forall in Hx, Hy.
    assert (x = y) as ->.
    { pose proof (proj1 (Heq x) (list_elem_of_here _ _)) as H1.
      pose proof (proj2 (Heq y) (list_elem_of_here _ _)) as H2.
      apply elem_of_cons in H1 as [?|H1%Hy]; [done|]. apply elem_of_cons in H2 as [?|H2%Hx]; [done|]. lia. }
    f_equal. apply IH; [done|]. intros s. specialize (Heq s). rewrite !elem_of_cons in Heq.
    split; intros Hs.
    + destruct (proj1 Heq (or_intror Hs)) as [->|?]; [|done]. specialize (Hx _ Hs). lia.
    + destruct (proj2 Heq (or_intror Hs)) as [->|?]; [|done]. specialize (Hy _ Hs). lia.
Qed.

Lemma ascending_filter (P : Z → Prop) `{!∀ x, Decision (P x)} l : ascending l → ascending (filter P l).
Proof.
  induction 1 as [|x l Hl IH Hx]; [constructor|]. rewrite filter_cons. case_decide; [|done].
  constructor; [done|]. rewrite Forall_forall in Hx |- *. intros y [_ Hy]%list_elem_of_filter. auto.
Qed.


(** The history fingerprint a receiver computes from the sequence
    numbers it stores equals the one the sender recomputes from the horizon
    and bitmap alone, as there is no hole below the horizon. *)
Theorem resync_hash_agrees sha256 db rel_id req :
  build_request sha256 db rel_id = Ok req → seqs_sane db rel_id →
  hash_contiguous sha256 (rq_max_contiguous_seq req) (rq_received_seq_bitmap req)
  = Some (rq_history_hash req).
Proof.
  unfold build_request. intros (u & _ & <-%Ok_inj)%rbind_Ok Hs.
  cbn [rq_max_contiguous_seq rq_received_seq_bitmap rq_history_hash].
  destruct (view_max_range db rel_id BITMAP_BITS Hs) as [Hr Hin].
  set (m := rv_max_contiguous_seq _) in *. unfold VIEW_SCAN_LIMIT in Hr.
  assert (Hu : is_u64 m) by (unfold is_u64, u64_max; lia).
  rewrite hash_contiguous_materialised by (done || (unfold u64_max; lia)).
  do 2 f_equal. unfold deep_window, deep_seqs. pose proof (deep_base_spec m Hu) as Hb.
  destruct (seqs_asc_spec db rel_id) as (Ha & Hmem & _).
  rewrite fmap_as_u64.
  - apply ascending_ext; [apply ascending_seq_range|by apply ascending_filter|].
    intros s. rewrite elem_of_seq_range, list_elem_of_filter, Hmem.
    unfold as_i64. rewrite !decide_True by (unfold DEEP_WINDOW in *; lia). split.
    + intros Hr'. split; [lia|]. apply Hin. lia.
    + intros [? _]. lia.
  - apply Forall_forall. intros s [_ Hs']%list_elem_of_filter. by apply Hs, Hmem.
Qed.

(** The scan bound: beyond it every envelope reads as opening a gap. *)
Lemma opens_gap_beyond_scan db rel_id s :
  seqs_sane db rel_id → VIEW_SCAN_LIMIT + 1 < s → opens_gap db rel_id s = true.
Proof.
  intros Hs Hl. unfold opens_gap. destruct (view_max_range db rel_id BITMAP_BITS Hs) as [Hr _].
  unfold VIEW_SCAN_LIMIT in *. destruct (Z.leb_spec s 1); [lia|].
  unfold wrap64. rewrite Z.mod_small by lia. lia.
Qed.

(** ** Ingress *)

Lemma clamp_sent_at_Ok sent_at now t :
  0 ≤ now → now + MAX_FUTURE_SKEW_SECS < 2 ^ 64 →
  clamp_sent_at sent_at now = Ok t ↔ sent_at ≤ now + MAX_FUTURE_SKEW_SECS ∧ t = Z.min sent_at now.
Proof.
  intros H0 H1. unfold clamp_sent_at, wrap64, MAX_FUTURE_SKEW_SECS in *. rewrite Z.mod_small by lia.
  destruct (Z.gtb_spec sent_at (now + 300)); split; [done|lia| |].
  - intros <-%Ok_inj. done.
  - by intros [_ ->].
Qed.

(** Ingress of an envelope that came off the wire, with an acceptable
    timestamp and a new message id: it cannot fail; the sequence number is
    recorded, the ledger gains exactly the received row with the clamped
    timestamp and the retention deadline, and the gap verdict is that of the
    table before the envelope. *)
Theorem ingest_stores nfc db rel_id bs env t :
  envelope_decode nfc bs = Ok env → clamp_sent_at (env_sent_at env) (db_now db) = Ok t →
  message db (env_msg_id env) = None →
  ∃ db' payload,
    payload_encode nfc (env_payload env) = Ok payload
    ∧ ingest_envelope nfc db rel_id env = Ok (db', Stored (opens_gap db rel_id (env_app_seq env)))
    ∧ has_inbound_seq db' rel_id (env_app_seq env) = true
    ∧ db_messages db' = <[env_msg_id env :=
        mkMessageRow (env_msg_id env) rel_id DirIn (env_app_seq env) t (Some (db_now db))
          (code (envelope_type env)) (env_ref_id env) payload Received
          (Some (wrap64 (db_now db + MESSAGE_TTL_SECS))) (db_now db) false false None 0 0]>
        (db_messages db).
Proof.
  intros Hd Hc Hm. apply envelope_decoded in Hd as (_ & He & _).
  destruct (payload_encode nfc (env_payload env)) as [payload|] eqn:Ep; [|done].
  unfold ingest_envelope. rewrite Hc. cbn [rbind]. rewrite Hm, Ep. cbn [map_err rbind].
  unfold message in Hm. unfold insert_message.
  cbn [db_messages note_inbound_seq set_inbound_seqs fst nm_msg_id]. rewrite Hm. cbn [map_err rbind].
  eexists _, payload. split; [done|]. split; [reflexivity|]. split; [|done].
  unfold has_inbound_seq. cbn. apply bool_decide_eq_true. set_solver.
Qed.

(** Ingress is idempotent: a second copy of an ingested envelope is
    reported as a duplicate and changes nothing. *)
Theorem ingest_idempotent nfc db rel_id env db1 o :
  ingest_envelope nfc db rel_id env = Ok (db1, o) →
  ingest_envelope nfc db1 rel_id env = Ok (db1, Duplicate).
Proof.
  unfold ingest_envelope. intros (t & Hc & H)%rbind_Ok.
  destruct (message db (env_msg_id env)) as [r|] eqn:Hm.
  - apply Ok_inj in H. injection H as <- _. rewrite Hc. cbn [rbind]. by rewrite Hm.
  - apply rbind_Ok in H as (payload & _ & H). apply rbind_Ok in H as (db2 & Hi & H).
    apply Ok_inj in H. injection H as <- _. unfold insert_message in Hi.
    destruct (db_messages _ !! _); [done|]. cbn in Hi. apply Ok_inj in Hi. subst db2.
    cbn [db_now set_messages set_inbound_seqs]. rewrite Hc. cbn [rbind]. unfold message.
    cbn [db_messages set_messages]. by rewrite lookup_insert_eq.
Qed.

(** ** The delivery lifecycle *)

Definition rank (s : DeliveryState) : nat :=
  match s with
  | Queued => 0
  | Transmitted => 1
  | Received | Acknowledged | Failed => 2
  end.

Lemma legal_rank from to : legal from to = true → (rank from ≤ rank to ∧ rank from < 2)%nat.
Proof. destruct from, to; cbn; intros; try done; lia. Qed.

Lemma transition_Ok db msg_id to db' :
  transition db msg_id to = Ok db' →
  ∃ r, db_messages db !! msg_id = Some r ∧ legal (mr_state r) to = true
    ∧ db' = set_messages db (<[msg_id := with_state r to]> (db_messages db)).
Proof.
  unfold transition, message. intros (r & Hr & H)%rbind_Ok.
  destruct (db_messages db !! msg_id) as [r'|] eqn:E; [|done]. apply Ok_inj in Hr. subst r'.
  destruct (legal (mr_state r) to) eqn:El; [|done]. apply Ok_inj in H. subst db'.
  exists r. split; [done|]. split; [done|]. unfold set_delivery. cbn [fst]. f_equal.
  apply map_eq. intros k. destruct (decide (k = msg_id)) as [->|].
  - by rewrite lookup_alter_eq, lookup_insert_eq, E.
  - by rewrite lookup_alter_ne, lookup_insert_ne.
Qed.

(** Steps of the ledger by the transition function. *)
Inductive delivery_step : Db → Db → Prop :=
| delivery_transition db msg_id to db' :
    transition db msg_id to = Ok db' → delivery_step db db'.

(** C36: The delivery lifecycle: under any sequence of transitions a row
    is never lost, never moves backwards (queued, transmitted, then a final
    state), and a row in a final state never changes again. *)
Theorem delivery_lifecycle db db' k r :
  rtc delivery_step db db' → db_messages db !! k = Some r →
  ∃ r', db_messages db' !! k = Some r' ∧ (rank (mr_state r) ≤ rank (mr_state r'))%nat
    ∧ (rank (mr_state r) = 2%nat → r' = r).
Proof.
  intros H. revert r. induction H as [db|db db1 db2 Hstep _ IH]; intros r Hr; [by exists r|].
  destruct Hstep as [db id to db1 Ht]. apply transition_Ok in Ht as (r0 & Hr0 & Hlegal & ->).
  apply legal_rank in Hlegal as [Hle Hlt]. destruct (decide (k = id)) as [->|Hne].
  - assert (r0 = r) as -> by congruence.
    destruct (IH (with_state r to)) as (r' & Hr' & Hrank & _); [cbn; apply lookup_insert_eq|].
    exists r'. split; [done|]. cbn in Hrank. split; lia.
  - apply IH. cbn. by rewrite lookup_insert_ne.
Qed.

(** ** The drain *)

Lemma backoff_spec attempts :
  0 ≤ attempts → backoff attempts = Z.min (5 * 3 ^ Z.min attempts 10) 900.
Proof.
  intros Ha. unfold backoff, sat_mul64, BACKOFF_BASE_SECS, BACKOFF_CAP_SECS, u64_max.
  assert (3 ^ 0 ≤ 3 ^ Z.min attempts 10 ≤ 3 ^ 10) by (split; apply Z.pow_le_mono_r; lia).
  change (3 ^ 0) with 1 in *. change (3 ^ 10) with 59049 in *. lia.
Qed.

Lemma backoff_monotone a b : 0 ≤ a ≤ b → 5 ≤ backoff a ≤ backoff b ∧ backoff b ≤ 900.
Proof.
  intros H. rewrite !backoff_spec by lia.
  assert (3 ^ 0 ≤ 3 ^ Z.min a 10) by (apply Z.pow_le_mono_r; lia).
  assert (3 ^ Z.min a 10 ≤ 3 ^ Z.min b 10) by (apply Z.pow_le_mono_r; lia).
  change (3 ^ 0) with 1 in *. lia.
Qed.

(** Every drained row is accounted for, once, in the queue and in the
    outcome. *)
Lemma drain_rows_spec {S} (send : S → string → bytes → S * bool) rows db s :
  NoDup (ob_msg_id <$> rows) →
  Forall (λ r, db_outbox db !! ob_msg_id r = Some r) rows →
  let '(db', _, o) := drain_rows send rows db s in
  do_transmitted o ++ do_deferred o ≡ₚ ob_msg_id <$> rows
  ∧ (∀ k, k ∉ ob_msg_id <$> rows → db_outbox db' !! k = db_outbox db !! k)
  ∧ Forall (λ r,
      (ob_msg_id r ∈ do_transmitted o ∧ db_outbox db' !! ob_msg_id r = None)
      ∨ (ob_msg_id r ∈ do_deferred o
         ∧ db_outbox db' !! ob_msg_id r = Some (mkOutboxRow (ob_msg_id r) (ob_rel_id r) (ob_record r)
             (ob_attempts r + 1) (wrap64 (db_now db + backoff (ob_attempts r)))
             (ob_expires_at r) (ob_created_at r)))) rows
  ∧ db_now db' = db_now db.
Proof.
  revert db s. induction rows as [|row rows IH]; intros db s Hnd Hall; cbn [drain_rows].
  - split_and!; [done|done|constructor|done].
  - apply NoDup_cons in Hnd as [Hrow Hnd]. apply Forall_cons in Hall as [Hl Hall].
    destruct (send s (ob_rel_id row) (ob_record row)) as [s1 []].
    + set (db1 := (set_delivery (dequeue db (ob_msg_id row)).1 (ob_msg_id row) Transmitted).1).
      assert (Hall1 : Forall (λ r, db_outbox db1 !! ob_msg_id r = Some r) rows).
      { rewrite Forall_forall in Hall |- *. intros r Hr. unfold db1. cbn. rewrite lookup_delete_ne; [auto|].
        intros E. apply Hrow, list_elem_of_fmap. eauto. }
      specialize (IH db1 s1 Hnd Hall1). destruct (drain_rows send rows db1 s1) as [[db2 s2] o].
      destruct IH as (Hp & Hk & Hf & Hn). cbn [do_transmitted do_deferred]. split_and!; [| | |done].
      * cbn [app fmap list_fmap]. by rewrite Hp.
      * intros k [Hk1 Hk2]%not_elem_of_cons. rewrite Hk by done. unfold db1. cbn.
        by rewrite lookup_delete_ne.
      * constructor.
        -- left. split; [by apply elem_of_cons; left|]. rewrite Hk by done. unfold db1. cbn.
           apply lookup_delete_eq.
        -- eapply Forall_impl; [exact Hf|]. intros r [[? ?]|[? ?]]; [left|right]; (split; [|done]);
             [by apply elem_of_cons; right|done].
    + set (db1 := note_attempt db (ob_msg_id row) (backoff (ob_attempts row))).
      assert (Hall1 : Forall (λ r, db_outbox db1 !! ob_msg_id r = Some r) rows).
      { rewrite Forall_forall in Hall |- *. intros r Hr. unfold db1. cbn. rewrite lookup_alter_ne; [auto|].
        intros E. apply Hrow, list_elem_of_fmap. eauto. }
      specialize (IH db1 s1 Hnd Hall1). destruct (drain_rows send rows db1 s1) as [[db2 s2] o].
      destruct IH as (Hp & Hk & Hf & Hn). cbn [do_transmitted do_deferred]. split_and!; [| | |done].
      * cbn [fmap list_fmap]. rewrite <- Permutation_middle. by rewrite Hp.
      * intros k [Hk1 Hk2]%not_elem_of_cons. rewrite Hk by done. unfold db1. cbn.
        by rewrite lookup_alter_ne.
      * constructor.
        -- right. split; [by apply elem_of_cons; left|]. rewrite Hk by done. unfold db1. cbn.
           by rewrite lookup_alter_eq, Hl.
        -- eapply Forall_impl; [exact Hf|]. intros r [[? ?]|[? ?]]; [left|right]; (split; [|done]);
             [done|by apply elem_of_cons; right].
Qed.

(** The queue sits under its own ids. *)
Definition outbox_wf (db : Db) : Prop := ∀ k r, db_outbox db !! k = Some r → ob_msg_id r = k.

Lemma due_spec db limit :
  outbox_wf db →
  NoDup (ob_msg_id <$> due db limit)
  ∧ Forall (λ r, db_outbox db !! ob_msg_id r = Some r
      ∧ as_i64 (ob_next_attempt_at r) ≤ as_i64 (db_now db)) (due db limit).
Proof.
  intros Hw. unfold due. set (all := (map_to_list (db_outbox db)).*2).
  assert (Hnd : NoDup (ob_msg_id <$> all)).
  { unfold all. rewrite <- list_fmap_compose.
    rewrite (list_fmap_ext _ fst); [apply NoDup_fst_map_to_list|].
    intros i [k r] Hi. cbn. apply Hw, elem_of_map_to_list. by eapply list_elem_of_lookup_2. }
  set (P := λ r, as_i64 (ob_next_attempt_at r) ≤ as_i64 (db_now db)).
  assert (Hnd2 : NoDup (ob_msg_id <$> merge_sort attempt_le (filter P all))).
  { rewrite merge_sort_Permutation. by apply NoDup_fmap_filter. }
  split.
  - rewrite fmap_take. eapply sublist_NoDup; [exact Hnd2|]. apply sublist_take.
  - apply Forall_take, Forall_forall. intros r. rewrite merge_sort_Permutation.
    intros [HP Hin]%list_elem_of_filter. split; [|done].
    apply list_elem_of_fmap in Hin as ([k r'] & -> & Hk%elem_of_map_to_list). cbn.
    by rewrite (Hw _ _ Hk).
Qed.

(** ** Main results *)

(** One drain of the outbox through any sink, however it behaves: the
    due rows (each once) are exactly the rows reported as transmitted or
    deferred; a transmitted row has left the queue, a deferred one keeps its
    record with one more attempt and the backed-off next attempt, and no
    other queued row is touched. *)
Theorem drain_accounts {S} (send : S → string → bytes → S * bool) db limit s :
  outbox_wf db →
  let rows := due db limit in
  let '(db', _, o) := drain send db limit s in
  NoDup (ob_msg_id <$> rows)
  ∧ do_transmitted o ++ do_deferred o ≡ₚ ob_msg_id <$> rows
  ∧ (∀ k, k ∉ ob_msg_id <$> rows → db_outbox db' !! k = db_outbox db !! k)
  ∧ Forall (λ r,
      (ob_msg_id r ∈ do_transmitted o ∧ db_outbox db' !! ob_msg_id r = None)
      ∨ (ob_msg_id r ∈ do_deferred o
         ∧ db_outbox db' !! ob_msg_id r = Some (mkOutboxRow (ob_msg_id r) (ob_rel_id r) (ob_record r)
             (ob_attempts r + 1) (wrap64 (db_now db + backoff (ob_attempts r)))
             (ob_expires_at r) (ob_created_at r)))) rows.
Proof.
  intros Hw. cbv zeta. destruct (due_spec db limit Hw) as [Hnd Hall]. unfold drain.
  pose proof (drain_rows_spec send (due db limit) db s Hnd) as H.
  destruct (drain_rows send (due db limit) db s) as [[db' s'] o].
  destruct H as (H1 & H2 & H3 & _); [|by split_and!].
  eapply Forall_impl; [exact Hall|]. by intros r [? _].
Qed.

Definition demo_outbox_row : OutboxRow := mkOutboxRow (replicate 16 (zb 1)) "rel" [zb 9] 2 900 90000 800.
Definition demo_out_row : MessageRow :=
  mkMessageRow (replicate 16 (zb 1)) "rel" DirOut 2 900 None (code TMsg) None [] Queued (Some 90000) 900
    false false None 0 0.
Definition demo_sender : Db :=
  mkDb 1000 {[replicate 16 (zb 1) := demo_out_row]} {[replicate 16 (zb 1) := demo_outbox_row]} ∅ ∅ ∅
    {[replicate 16 (zb 1) := ("rel"%string, [zb 2; zb 7])]} ∅ ∅ ∅ ∅ ∅ sticker_db_empty None.

Lemma demo_sender_wf : ledger_wf demo_sender ∧ outbox_wf demo_sender.
Proof.
  split; intros k r; unfold demo_sender; cbn [db_messages db_outbox]; rewrite lookup_singleton_Some;
    by intros [<- <-].
Qed.

Definition defer_all (s : unit) (rel_id : string) (record : bytes) : unit * bool := (s, false).

Lemma drain_accounts_witness :
  let rows := due demo_sender 10 in
  let '(db', _, o) := drain defer_all demo_sender 10 tt in
  NoDup (ob_msg_id <$> rows)
  ∧ do_transmitted o ++ do_deferred o ≡ₚ ob_msg_id <$> rows
  ∧ (∀ k, k ∉ ob_msg_id <$> rows → db_outbox db' !! k = db_outbox demo_sender !! k)
  ∧ Forall (λ r,
      (ob_msg_id r ∈ do_transmitted o ∧ db_outbox db' !! ob_msg_id r = None)
      ∨ (ob_msg_id r ∈ do_deferred o
         ∧ db_outbox db' !! ob_msg_id r = Some (mkOutboxRow (ob_msg_id r) (ob_rel_id r) (ob_record r)
             (ob_attempts r + 1) (wrap64 (db_now demo_sender + backoff (ob_attempts r)))
             (ob_expires_at r) (ob_created_at r)))) rows.
Proof. apply (drain_accounts defer_all demo_sender 10 tt). apply demo_sender_wf. Defined.

Definition demo_request : ResyncReq :=
  default (mkResyncReq 0 [] 0 []) (ok (build_request id demo_seq_db "rel")).

Lemma demo_out_seqs : out_seqs_sane demo_sender "rel".
Proof.
  intros k r. unfold demo_sender. cbn [db_messages]. rewrite lookup_singleton_Some. intros [_ <-] _ _. by vm_compute.
Qed.

Lemma resync_settles_witness :
  ∃ sender' out, handle_request demo_sender "rel" demo_request = Ok (sender', out)
  ∧ (∀ k, db_messages sender' !! k =
       (λ r, if decide (repairable "rel" demo_request r ∧ (("rel"%string, mr_app_seq r) ∈ db_inbound_seqs demo_seq_db))
             then with_state r Acknowledged else r) <$> db_messages demo_sender !! k)
  ∧ sender' = set_messages demo_sender (db_messages sender').
Proof.
  destruct (resync_settles id demo_sender demo_seq_db "rel" demo_request) as (s' & out & H1 & H2 & _ & H3);
    [apply demo_sender_wf|apply demo_out_seqs|by vm_compute|by vm_compute|apply demo_seqs_sane|by vm_compute|].
  exists s', out. split; [exact H1|split; [exact H2|exact H3]].
Defined.

Lemma resync_hash_agrees_witness :
  hash_contiguous id (rq_max_contiguous_seq demo_request) (rq_received_seq_bitmap demo_request)
  = Some (rq_history_hash demo_request).
Proof. apply (resync_hash_agrees id demo_seq_db "rel"); [by vm_compute|apply demo_seqs_sane]. Defined.

Definition demo_transmitted : Db := (default demo_sender (ok (mark_transmitted demo_sender (replicate 16 (zb 1))))).

Lemma delivery_lifecycle_witness :
  ∃ r', db_messages demo_transmitted !! replicate 16 (zb 1) = Some r'
    ∧ (rank (mr_state demo_out_row) ≤ rank (mr_state r'))%nat
    ∧ (rank (mr_state demo_out_row) = 2%nat → r' = demo_out_row).
Proof.
  apply (delivery_lifecycle demo_sender); [|by vm_compute].
  apply rtc_once. by eapply (delivery_transition _ (replicate 16 (zb 1)) Transmitted).
Defined.

Lemma ingest_stores_witness :
  ∃ db' payload,
    payload_encode id (env_payload demo_envelope) = Ok payload
    ∧ ingest_envelope id demo_seq_db "rel" demo_envelope
      = Ok (db', Stored (opens_gap demo_seq_db "rel" (env_app_seq demo_envelope)))
    ∧ has_inbound_seq db' "rel" (env_app_seq demo_envelope) = true
    ∧ db_messages db' = <[env_msg_id demo_envelope :=
        mkMessageRow (env_msg_id demo_envelope) "rel" DirIn (env_app_seq demo_envelope) 1000 (Some 1000)
          (code (envelope_type demo_envelope)) (env_ref_id demo_envelope) payload Received
          (Some (wrap64 (1000 + MESSAGE_TTL_SECS))) 1000 false false None 0 0]>
        (db_messages demo_seq_db).
Proof. apply (ingest_stores id demo_seq_db "rel" demo_envelope_bytes); by vm_compute. Defined.

Definition demo_ingested : Db :=
  from_option fst demo_seq_db (ok (ingest_envelope id demo_seq_db "rel" demo_envelope)).

Lemma ingest_idempotent_witness :
  ingest_envelope id demo_ingested "rel" demo_envelope = Ok (demo_ingested, Duplicate).
Proof. apply (ingest_idempotent id demo_seq_db "rel" demo_envelope demo_ingested (Stored true)). by vm_compute. Defined.
