(* ===== verification/Session.v ===== *)
(** The session layer ([core/src/session]): the I11 ciphertext cache in front
    of [encrypt], the replay cache and error classification in front of
    [decrypt], and the broken-session path. libsignal (the ratchet) is a
    third-party library: its state and its two operations are parameters. *)

From S2P Require Import Prelude Limits Bin Payloads WirePolicy Envelope Policy Ledger Sync.

(** ** [session/error.rs] *)

Inductive SessionError :=
| SeBroken (reason : Detail)
| SeDuplicate
| SeMalformed (detail : Detail)
| SeNoSession
| SeTooLarge (size max : Z)
| SeMsgIdConflict
| SeStore (e : StoreError).

(** The libsignal failures the classifier names; [SigOther] is any other. *)
Inductive SignalProtocolError :=
| DuplicatedMessage | InvalidMessage | InvalidSessionStructure | UntrustedIdentity
| InvalidKeyAgreement | SignatureValidationFailed | SessionNotFound | InvalidRegistrationId
| InvalidPreKeyId | InvalidSignedPreKeyId | InvalidKyberPreKeyId | InvalidProtobufEncoding
| CiphertextMessageTooShort | LegacyCiphertextVersion | UnrecognizedCiphertextVersion
| UnrecognizedMessageVersion | NoKeyTypeIdentifier | BadKeyType | BadKeyLength | SigOther.

Definition classify_signal_error (e : SignalProtocolError) : SessionError :=
  match e with
  | DuplicatedMessage => SeDuplicate
  | InvalidMessage => SeBroken (Lit "invalid {t:?} message: {d}")
  | InvalidSessionStructure => SeBroken (Lit "invalid session: {d}")
  | UntrustedIdentity => SeBroken (Lit "untrusted identity {addr}")
  | InvalidKeyAgreement => SeBroken (Lit "invalid key agreement")
  | SignatureValidationFailed => SeBroken (Lit "signature validation failed")
  | SessionNotFound => SeBroken (Lit "peer has session, we don't: {s}")
  | InvalidRegistrationId => SeBroken (Lit "invalid registration id {id:X} for {addr}")
  | InvalidPreKeyId | InvalidSignedPreKeyId | InvalidKyberPreKeyId =>
      SeBroken (Lit "pre-key id unknown: {e}")
  | InvalidProtobufEncoding | CiphertextMessageTooShort | LegacyCiphertextVersion
  | UnrecognizedCiphertextVersion | UnrecognizedMessageVersion | NoKeyTypeIdentifier
  | BadKeyType | BadKeyLength => SeMalformed (Lit "{e}")
  | SigOther => SeBroken (Lit "{other}")
  end.

(** ** [session/mod.rs] *)

Definition TAG_SIGNAL : Z := 2.
Definition TAG_PREKEY : Z := 3.
Definition INBOUND_FRAME_TTL_SECS : Z := 86400.

Inductive CiphertextType := CtSignal | CtPreKey | CtOther.

Definition with_session (r : RelRow) (s : SessionState) : RelRow :=
  mkRelRow (rel_role r) (rel_state r) (rel_peer_onion r) (rel_our_qr_bytes r) (rel_intro_pending r)
    s (rel_created_at r) (rel_peer_caps r) (rel_close_state r) (rel_history_cut r) (rel_policy r)
    (rel_peer_prefs r) (rel_pairing r).

Definition with_intro (r : RelRow) (pending : bool) : RelRow :=
  mkRelRow (rel_role r) (rel_state r) (rel_peer_onion r) (rel_our_qr_bytes r) pending
    (rel_session r) (rel_created_at r) (rel_peer_caps r) (rel_close_state r) (rel_history_cut r)
    (rel_policy r)
    (rel_peer_prefs r) (rel_pairing r).

Definition mark_broken (db : Db) (rel_id : string) : Db :=
  let db := set_rels db (alter (λ r, with_session r SessBroken) rel_id (db_rels db)) in
  (fail_relationship_outbound db rel_id).1.

Definition parse_frame (frame : bytes) : result SessionError (Z * bytes) :=
  match frame with
  | [] => Err (SeMalformed (Lit "empty frame"))
  | tag :: rest =>
      if (bz tag =? TAG_SIGNAL) || (bz tag =? TAG_PREKEY) then Ok (bz tag, rest)
      else Err (SeMalformed (Fmt "unknown ciphertext tag 0x{other:02x}" [bz tag]))
  end.

Section Session.
(** The ratchet state of every namespace, and libsignal's operations on it:
    [message_encrypt], the two [try_from] parsers and the two decryptions. *)
Context {Sig : Type}.
Context (message_encrypt : Sig → string → bytes → Z
                           → Sig * result SignalProtocolError (CiphertextType * bytes)).
Context (message_parses : Z → bytes → bool).
Context (message_decrypt : Sig → string → Z → bytes → Sig * result SignalProtocolError bytes).
Context (sha256 : bytes → bytes).

Definition is_known_inbound_frame (db : Db) (rel_id : string) (frame : bytes) : bool :=
  bool_decide (is_Some (db_inbound_frames db !! (rel_id, sha256 frame))).

(** [INSERT OR IGNORE] *)
Definition note_inbound_frame (db : Db) (rel_id : string) (frame : bytes) (now : Z) : Db :=
  let key := (rel_id, sha256 frame) in
  match db_inbound_frames db !! key with
  | Some _ => db
  | None => set_caches db (db_ciphertexts db)
              (<[key := wrap64 (now + INBOUND_FRAME_TTL_SECS)]> (db_inbound_frames db))
  end.

Definition encrypt (db : Db) (sg : Sig) (rel_id : string) (msg_id plaintext : bytes) (now : Z)
    : Db * Sig * result SessionError bytes :=
  if len plaintext >? MAX_ENVELOPE_BYTES
  then (db, sg, Err (SeTooLarge (len plaintext) MAX_ENVELOPE_BYTES))
  else
    match session_state db rel_id with
    | SessBroken => (db, sg, Err (SeBroken (Lit "relationship is broken")))
    | SessNone => (db, sg, Err SeNoSession)
    | SessActive =>
        match db_ciphertexts db !! msg_id with
        | Some (stored_rel, frame) =>
            if negb (bool_decide (stored_rel = rel_id)) then (db, sg, Err SeMsgIdConflict)
            else (db, sg, Ok frame)
        | None =>
            let '(sg, r) := message_encrypt sg rel_id plaintext now in
            match r with
            | Err e =>
                match classify_signal_error e with
                | SeBroken reason => (mark_broken db rel_id, sg, Err (SeBroken reason))
                | other => (db, sg, Err other)
                end
            | Ok (CtOther, _) => (db, sg, Err (SeMalformed (Lit "unexpected ciphertext type {:?}")))
            | Ok (ty, body) =>
                let tag := if ty is CtSignal then TAG_SIGNAL else TAG_PREKEY in
                let frame := zb tag :: body in
                (set_caches db (<[msg_id := (rel_id, frame)]> (db_ciphertexts db))
                   (db_inbound_frames db), sg, Ok frame)
            end
        end
    end.

Definition finish_decrypt (db : Db) (rel_id : string) (r : result SignalProtocolError bytes)
    : Db * result SessionError bytes :=
  match r with
  | Ok plaintext =>
      (set_rels db (alter (λ r, with_intro r false) rel_id (db_rels db)), Ok plaintext)
  | Err e =>
      match classify_signal_error e with
      | SeBroken reason => (mark_broken db rel_id, Err (SeBroken reason))
      | other => (db, Err other)
      end
  end.

Definition decrypt (db : Db) (sg : Sig) (rel_id : string) (frame : bytes) (now : Z)
    : Db * Sig * result SessionError bytes :=
  if bool_decide (session_state db rel_id = SessBroken)
  then (db, sg, Err (SeBroken (Lit "relationship is broken")))
  else if is_known_inbound_frame db rel_id frame then (db, sg, Err SeDuplicate)
  else
    match parse_frame frame with
    | Err e => (db, sg, Err e)
    | Ok (tag, rest) =>
        if negb (message_parses tag rest) then (db, sg, Err (SeMalformed (Lit "{e}")))
        else
          let '(sg, r) := message_decrypt sg rel_id tag rest in
          let '(db, p) := finish_decrypt db rel_id r in
          match p with
          | Ok plaintext => (note_inbound_frame db rel_id frame now, sg, Ok plaintext)
          | Err e => (db, sg, Err e)
          end
    end.

(** ** I11: one message id, one ciphertext *)

Lemma encrypt_Ok db sg rel_id msg_id plaintext now db1 sg1 frame :
  encrypt db sg rel_id msg_id plaintext now = (db1, sg1, Ok frame) →
  session_state db rel_id = SessActive ∧ db_ciphertexts db1 !! msg_id = Some (rel_id, frame)
  ∧ db_rels db1 = db_rels db
  ∧ (∀ k, k ≠ msg_id → db_ciphertexts db1 !! k = db_ciphertexts db !! k)
  ∧ db1 = set_caches db (db_ciphertexts db1) (db_inbound_frames db).
Proof.
  unfold encrypt. destruct (_ >? _); [done|]. destruct (session_state db rel_id); try done.
  destruct (db_ciphertexts db !! msg_id) as [[rel f]|] eqn:Ec.
  - destruct (negb (bool_decide (rel = rel_id))) eqn:Er; [done|]. intros [= <- <- <-].
    apply negb_false_iff, bool_decide_eq_true in Er as ->. split_and!; try done. by destruct db.
  - destruct (message_encrypt sg rel_id plaintext now) as [sg2 [[ty body]|e]].
    + destruct ty; try done; intros [= <- <- <-]; cbn; split_and!; try done;
        try apply lookup_insert_eq; intros k Hk; by rewrite lookup_insert_ne.
    + by destruct (classify_signal_error e).
Qed.

Lemma session_state_rels db db' rel_id :
  db_rels db' = db_rels db → session_state db' rel_id = session_state db rel_id.
Proof. unfold session_state. by intros ->. Qed.

(** ** Broken sessions *)

Lemma mark_broken_state db rel_id :
  is_Some (db_rels db !! rel_id) → session_state (mark_broken db rel_id) rel_id = SessBroken.
Proof.
  intros [r Hr]. unfold session_state, mark_broken, fail_relationship_outbound.
  cbn [fst db_rels set_outbox set_messages set_rels]. by rewrite lookup_alter_eq, Hr.
Qed.

Lemma fail_outbound_settles db rel_id :
  let db' := (fail_relationship_outbound db rel_id).1 in
  (∀ k r, db_messages db' !! k = Some r → is_outbound rel_id r = true → is_unsettled (mr_state r) = false)
  ∧ (∀ k o, db_outbox db' !! k = Some o → ob_rel_id o ≠ rel_id)
  ∧ (∀ k r, db_messages db !! k = Some r → is_outbound rel_id r = false →
       db_messages db' !! k = Some r).
Proof.
  unfold fail_relationship_outbound. cbn [fst db_messages db_outbox set_outbox set_messages]. split_and!.
  - intros k r Hr Ho. rewrite lookup_fmap in Hr. apply fmap_Some in Hr as (r0 & _ & ->).
    destruct (is_outbound rel_id r0 && is_unsettled (mr_state r0)) eqn:E; [done|].
    rewrite Ho in E. by rewrite andb_true_l in E.
  - intros k o [Ho Hne]%map_lookup_filter_Some. exact Hne.
  - intros k r Hr Ho. rewrite lookup_fmap, Hr. cbn. by rewrite Ho.
Qed.

Lemma decrypt_Ok db sg rel_id frame now db1 sg1 p :
  decrypt db sg rel_id frame now = (db1, sg1, Ok p) →
  session_state db1 rel_id = session_state db rel_id ∧ session_state db rel_id ≠ SessBroken
  ∧ is_known_inbound_frame db rel_id frame = false
  ∧ is_known_inbound_frame db1 rel_id frame = true.
Proof.
  unfold decrypt. destruct (bool_decide _) eqn:Eb; [done|]. apply bool_decide_eq_false in Eb.
  destruct (is_known_inbound_frame db rel_id frame) eqn:Ek; [done|].
  destruct (parse_frame frame) as [[tag rest]|]; [|done]. destruct (negb _); [done|].
  destruct (message_decrypt sg rel_id tag rest) as [sg2 r]. destruct (finish_decrypt db rel_id r) as [db2 q] eqn:Ef.
  destruct q as [q|]; [|done]. intros [= <- <- <-].
  destruct r as [r|e]; cbn in Ef; [|by destruct (classify_signal_error e)].
  injection Ef as <- _. unfold is_known_inbound_frame, note_inbound_frame in *. cbn [db_inbound_frames set_rels].
  apply bool_decide_eq_false in Ek. apply eq_None_not_Some in Ek. rewrite Ek.
  cbn [db_inbound_frames set_caches db_ciphertexts]. split_and!; [|done|done|].
  - unfold session_state. cbn [db_rels set_caches set_rels]. rewrite lookup_alter_eq.
    by destruct (db_rels db !! rel_id).
  - apply bool_decide_eq_true. rewrite lookup_insert_eq. by eexists.
Qed.
End Session.

(** ** Main results *)

(** One message id, one ciphertext: after a successful encryption the
    cache holds the frame, every later call with that id returns the same
    frame without touching the ratchet or the store whatever the plaintext,
    and a call with that id under another live relationship is refused. *)
Theorem encrypt_immutable {Sig} (message_encrypt : Sig → string → bytes → Z
      → Sig * result SignalProtocolError (CiphertextType * bytes))
    db sg rel_id msg_id plaintext now db1 sg1 frame :
  encrypt message_encrypt db sg rel_id msg_id plaintext now = (db1, sg1, Ok frame) →
  stored_ciphertext db1 rel_id msg_id = Some frame
  ∧ ∀ sg' plaintext' now', len plaintext' ≤ MAX_ENVELOPE_BYTES →
      encrypt message_encrypt db1 sg' rel_id msg_id plaintext' now' = (db1, sg', Ok frame)
      ∧ ∀ other, other ≠ rel_id → session_state db1 other = SessActive →
          encrypt message_encrypt db1 sg' other msg_id plaintext' now' = (db1, sg', Err SeMsgIdConflict).
Proof.
  intros (Hact & Hc & Hr & _ & _)%encrypt_Ok. split.
  - unfold stored_ciphertext. rewrite Hc. by rewrite bool_decide_eq_true_2.
  - intros sg' p' now' Hl. unfold encrypt. destruct (Z.gtb_spec (len p') MAX_ENVELOPE_BYTES); [lia|].
    rewrite (session_state_rels db db1 rel_id Hr), Hact, Hc, bool_decide_eq_true_2 by done.
    split; [done|]. intros other Hne ->. by rewrite bool_decide_eq_false_2.
Qed.

(** A replayed frame is dropped before the ratchet sees it: once a frame
    has been decrypted, the same bytes are reported as a duplicate and leave
    the store and the ratchet exactly as they are. *)
Theorem replay_dropped {Sig} message_parses
    (message_decrypt : Sig → string → Z → bytes → Sig * result SignalProtocolError bytes) sha256
    db sg rel_id frame now db1 sg1 plaintext sg' now' :
  decrypt message_parses message_decrypt sha256 db sg rel_id frame now = (db1, sg1, Ok plaintext) →
  decrypt message_parses message_decrypt sha256 db1 sg' rel_id frame now' = (db1, sg', Err SeDuplicate).
Proof.
  intros (Hs & Hb & _ & Hk)%decrypt_Ok. unfold decrypt. rewrite Hs, bool_decide_eq_false_2 by done.
  by rewrite Hk.
Qed.

(** A broken session fails closed: marking it leaves no queued or
    transmitted outbound row of the relationship and nothing of it in the
    outbox, other relationships' rows are untouched, and from then on both
    encryption and decryption are refused without any effect. *)
Theorem broken_fails_closed {Sig} (message_encrypt : Sig → string → bytes → Z
      → Sig * result SignalProtocolError (CiphertextType * bytes)) message_parses
    (message_decrypt : Sig → string → Z → bytes → Sig * result SignalProtocolError bytes) sha256
    db rel_id :
  is_Some (db_rels db !! rel_id) →
  let db' := mark_broken db rel_id in
  (∀ k r, db_messages db' !! k = Some r → is_outbound rel_id r = true → is_unsettled (mr_state r) = false)
  ∧ (∀ k o, db_outbox db' !! k = Some o → ob_rel_id o ≠ rel_id)
  ∧ (∀ k r, db_messages db !! k = Some r → is_outbound rel_id r = false → db_messages db' !! k = Some r)
  ∧ ∀ sg msg_id plaintext frame now,
      encrypt message_encrypt db' sg rel_id msg_id plaintext now
      = (db', sg, Err (if len plaintext >? MAX_ENVELOPE_BYTES
                       then SeTooLarge (len plaintext) MAX_ENVELOPE_BYTES
                       else SeBroken (Lit "relationship is broken")))
      ∧ decrypt message_parses message_decrypt sha256 db' sg rel_id frame now
        = (db', sg, Err (SeBroken (Lit "relationship is broken"))).
Proof.
  intros Hr. cbv zeta. pose proof (mark_broken_state db rel_id Hr) as Hs.
  destruct (fail_outbound_settles (set_rels db (alter (λ r, with_session r SessBroken) rel_id (db_rels db))) rel_id)
    as (H1 & H2 & H3).
  split_and!; [exact H1|exact H2|exact H3|]. intros sg msg_id plaintext frame now.
  unfold encrypt, decrypt. rewrite Hs, bool_decide_eq_true_2 by done. by destruct (_ >? _).
Qed.

(** A toy ratchet for the witnesses: the state counts the messages. *)
Definition toy_encrypt (sg : Z) (rel_id : string) (p : bytes) (now : Z)
    : Z * result SignalProtocolError (CiphertextType * bytes) := (sg + 1, Ok (CtSignal, p)).
Definition toy_decrypt (sg : Z) (rel_id : string) (tag : Z) (p : bytes)
    : Z * result SignalProtocolError bytes := (sg + 1, Ok p).

Definition demo_session_rel : RelRow :=
  mkRelRow "accepter" "active" "peer.onion" [] true SessActive 0 CAPS_LOCAL None 0
    (save_row policy_default) None pairing_empty.
Definition demo_session_db : Db :=
  mkDb 1000 ∅ ∅ ∅ ∅ ∅ ∅ ∅ ∅ ∅ {["rel"%string := demo_session_rel]}
    ∅ sticker_db_empty None.

Definition demo_encrypted : Db * Z * result SessionError bytes :=
  encrypt toy_encrypt demo_session_db 0 "rel" (replicate 16 (zb 1)) [zb 5] 1000.

Lemma encrypt_immutable_witness :
  stored_ciphertext demo_encrypted.1.1 "rel" (replicate 16 (zb 1)) = Some [zb 2; zb 5].
Proof.
  apply (encrypt_immutable toy_encrypt demo_session_db 0 "rel" (replicate 16 (zb 1)) [zb 5] 1000
           demo_encrypted.1.1 1). by vm_compute.
Defined.

Definition demo_decrypted : Db * Z * result SessionError bytes :=
  decrypt (λ _ _, true) toy_decrypt id demo_session_db 0 "rel" [zb 2; zb 5] 1000.

Lemma replay_dropped_witness :
  decrypt (λ _ _, true) toy_decrypt id demo_decrypted.1.1 7 "rel" [zb 2; zb 5] 1010
  = (demo_decrypted.1.1, 7, Err SeDuplicate).
Proof.
  apply (replay_dropped (λ _ _, true) toy_decrypt id demo_session_db 0 "rel" [zb 2; zb 5] 1000
           demo_decrypted.1.1 1 [zb 5]). by vm_compute.
Defined.

Lemma broken_fails_closed_witness :
  is_Some (db_rels demo_session_db !! "rel"%string)
  ∧ ∀ k o, db_outbox (mark_broken demo_session_db "rel") !! k = Some o → ob_rel_id o ≠ "rel"%string.
Proof.
  assert (is_Some (db_rels demo_session_db !! "rel"%string)) as Hrel
    by (exists demo_session_rel; by vm_compute).
  split; first done.
  apply (broken_fails_closed toy_encrypt (λ _ _, true) toy_decrypt id demo_session_db "rel"), Hrel.
Defined.
