(* ===== verification/SignalStores.v ===== *)
(** The libsignal stores over SQL ([core/src/session/stores]): the six tables
    keyed by namespace (a relationship id, or [pending] for the outstanding
    invitation), the trust and pre-key rules they implement, and the moves a
    persona makes between namespaces. Records and keys are the serialized
    bytes the rows hold. The class [SignalStore] is what the engine asks of
    them. *)

From S2P Require Import Prelude Bin Policy Ledger Session.

Definition PENDING_NAMESPACE : string := "pending".

Record SignalTables := mkSignalTables {
  st_locals : gmap (string * unit) (Z * bytes);
  st_identities : gmap (string * string) bytes;
  st_sessions : gmap (string * string) bytes;
  st_prekeys : gmap (string * Z) bytes;
  st_signed_prekeys : gmap (string * Z) bytes;
  st_kyber_prekeys : gmap (string * Z) (bytes * option bytes);
}.

Definition signal_empty : SignalTables := mkSignalTables ∅ ∅ ∅ ∅ ∅ ∅.

(** ** [stores/mod.rs] *)

(** A plain INSERT: the namespace is the primary key. *)
Definition create_local (t : SignalTables) (namespace : string) (registration_id : Z) (keypair : bytes)
    : result StoreError SignalTables :=
  match st_locals t !! (namespace, tt) with
  | Some _ => Err SqliteConstraint
  | None =>
      Ok (mkSignalTables (<[(namespace, tt) := (registration_id, keypair)]> (st_locals t))
            (st_identities t) (st_sessions t) (st_prekeys t) (st_signed_prekeys t) (st_kyber_prekeys t))
  end.

Section Rows.
Context {K A : Type} `{Countable K}.

(** [DELETE FROM table WHERE namespace = ns] *)
Definition delete_rows (ns : string) (m : gmap (string * K) A) : gmap (string * K) A :=
  filter (λ kv : string * K * A, kv.1.1 ≠ ns) m.

(** [UPDATE table SET namespace = to WHERE namespace = from]; [None] when a
    row of [to] has the key of a moved row (the statement fails). *)
Definition rename_rows (from to : string) (m : gmap (string * K) A) : option (gmap (string * K) A) :=
  let moved := filter (λ kv : string * K * A, kv.1.1 = from) m in
  let rest := delete_rows from m in
  if bool_decide (Exists (λ kv : string * K * A, is_Some (rest !! (to, kv.1.2))) (map_to_list moved)) then None
  else Some (list_to_map ((λ kv : string * K * A, ((to, kv.1.2), kv.2)) <$> map_to_list moved) ∪ rest).

Lemma delete_rows_lookup ns m k i :
  delete_rows ns m !! (k, i) = if decide (k = ns) then None else m !! (k, i).
Proof.
  unfold delete_rows. rewrite map_lookup_filter. destruct (m !! (k, i)); cbn; repeat case_decide; try done;
    by repeat case_guard.
Qed.

Lemma rename_rows_lookup from to m m' ns i :
  from ≠ to → rename_rows from to m = Some m' →
  m' !! (ns, i) = if decide (ns = to) then (if decide (is_Some (m !! (from, i))) then m !! (from, i) else m !! (to, i))
                  else if decide (ns = from) then None else m !! (ns, i).
Proof.
  intros Hne. unfold rename_rows. case_bool_decide as Hex; [done|]. intros [= <-].
  set (moved := filter (λ kv : string * K * A, kv.1.1 = from) m) in *.
  assert (Hm : (list_to_map ((λ kv : string * K * A, ((to, kv.1.2), kv.2)) <$> map_to_list moved)
                : gmap (string * K) A) !! (ns, i)
               = if decide (ns = to) then m !! (from, i) else None).
  { destruct (decide (ns = to)) as [->|Hns].
    - destruct (m !! (from, i)) as [x|] eqn:E.
      + apply elem_of_list_to_map_1'.
        * intros y ([[k j] z] & [= <- ->] & Hin)%list_elem_of_fmap.
          apply elem_of_map_to_list in Hin. unfold moved in Hin.
          apply map_lookup_filter_Some in Hin as [Hin Hk]. cbn in Hk. subst k. congruence.
        * apply list_elem_of_fmap. exists ((from, i), x). split; [done|].
          apply elem_of_map_to_list, map_lookup_filter_Some. done.
      + apply not_elem_of_list_to_map_1.
        intros ([[k j] z] & Hk & Hin)%list_elem_of_fmap. cbn in Hk. injection Hk as <- <-.
        apply list_elem_of_fmap in Hin as ([[k' j'] z'] & Hq & Hin). cbn in Hq.
        injection Hq as -> ->. apply elem_of_map_to_list, map_lookup_filter_Some in Hin as [Hin Hf].
        cbn in Hf. subst. congruence.
    - apply not_elem_of_list_to_map_1.
      intros ([[k j] z] & Hk & Hin)%list_elem_of_fmap. cbn in Hk. injection Hk as -> ->.
      apply list_elem_of_fmap in Hin as ([[k' j'] z'] & Hq & Hin). cbn in Hq. by injection Hq as -> _ _. }
  rewrite lookup_union, Hm, delete_rows_lookup.
  destruct (decide (ns = to)) as [->|Hns].
  - rewrite decide_False by done. destruct (m !! (from, i)) eqn:E; cbn.
    + rewrite decide_True by done. by destruct (m !! (to, i)).
    + rewrite decide_False by (by intros []). by destruct (m !! (to, i)).
  - destruct (decide (ns = from)); by destruct (m !! (ns, i)).
Qed.

Lemma rename_into_empty from to m :
  from ≠ to → (∀ i, m !! (to, i) = None) →
  ∃ m', rename_rows from to m = Some m'
  ∧ (∀ i, m' !! (to, i) = m !! (from, i)) ∧ (∀ i, m' !! (from, i) = None)
  ∧ (∀ ns i, ns ≠ from → ns ≠ to → m' !! (ns, i) = m !! (ns, i)).
Proof.
  intros Hne Hto. destruct (rename_rows from to m) as [m'|] eqn:E.
  - exists m'. pose proof (λ ns i, rename_rows_lookup from to m m' ns i Hne E) as Hl.
    split_and!; [done| | |]; intros; rewrite Hl.
    + rewrite decide_True by done. case_decide as Hs; [done|]. rewrite Hto. symmetry. by apply eq_None_not_Some.
    + by rewrite decide_False, decide_True.
    + by rewrite !decide_False.
  - exfalso. unfold rename_rows in E. case_bool_decide as Hx; [|done].
    apply Exists_exists in Hx as ([[k i] x] & _ & [y Hy]). cbn in Hy.
    rewrite delete_rows_lookup, decide_False, Hto in Hy by done. done.
Qed.
End Rows.

(** The six tables in order; a failed statement keeps the tables already
    moved. *)
Definition migrate_namespace (t : SignalTables) (from to : string) : SignalTables * result SignalProtocolError unit :=
  match rename_rows from to (st_locals t) with
  | None => (t, Err SigOther)
  | Some l =>
    let t := mkSignalTables l (st_identities t) (st_sessions t) (st_prekeys t) (st_signed_prekeys t)
               (st_kyber_prekeys t) in
    match rename_rows from to (st_identities t) with
    | None => (t, Err SigOther)
    | Some i =>
      let t := mkSignalTables l i (st_sessions t) (st_prekeys t) (st_signed_prekeys t) (st_kyber_prekeys t) in
      match rename_rows from to (st_sessions t) with
      | None => (t, Err SigOther)
      | Some s =>
        let t := mkSignalTables l i s (st_prekeys t) (st_signed_prekeys t) (st_kyber_prekeys t) in
        match rename_rows from to (st_prekeys t) with
        | None => (t, Err SigOther)
        | Some p =>
          let t := mkSignalTables l i s p (st_signed_prekeys t) (st_kyber_prekeys t) in
          match rename_rows from to (st_signed_prekeys t) with
          | None => (t, Err SigOther)
          | Some g =>
            let t := mkSignalTables l i s p g (st_kyber_prekeys t) in
            match rename_rows from to (st_kyber_prekeys t) with
            | None => (t, Err SigOther)
            | Some k => (mkSignalTables l i s p g k, Ok tt)
            end
          end
        end
      end
    end
  end.

Definition delete_namespace (t : SignalTables) (namespace : string) : SignalTables :=
  mkSignalTables (delete_rows namespace (st_locals t)) (delete_rows namespace (st_identities t))
    (delete_rows namespace (st_sessions t)) (delete_rows namespace (st_prekeys t))
    (delete_rows namespace (st_signed_prekeys t)) (delete_rows namespace (st_kyber_prekeys t)).

(** ** [stores/identity.rs] *)

Definition get_identity_key_pair (t : SignalTables) (ns : string) : result SignalProtocolError bytes :=
  ok_or (snd <$> st_locals t !! (ns, tt)) SigOther.

Definition get_local_registration_id (t : SignalTables) (ns : string) : result SignalProtocolError Z :=
  ok_or (fst <$> st_locals t !! (ns, tt)) SigOther.

Definition get_identity (t : SignalTables) (ns address : string) : option bytes :=
  st_identities t !! (ns, address).

(** The flag says whether a different identity was replaced. *)
Definition save_identity (t : SignalTables) (ns address : string) (identity : bytes) : SignalTables * bool :=
  let replaced := match get_identity t ns address with
                  | Some old => negb (bool_decide (old = identity))
                  | None => false
                  end in
  (mkSignalTables (st_locals t) (<[(ns, address) := identity]> (st_identities t)) (st_sessions t)
     (st_prekeys t) (st_signed_prekeys t) (st_kyber_prekeys t), replaced).

Definition is_trusted_identity (t : SignalTables) (ns address : string) (identity : bytes) : bool :=
  match get_identity t ns address with
  | None => true
  | Some stored => bool_decide (stored = identity)
  end.

(** ** [stores/session.rs] *)

Definition load_session (t : SignalTables) (ns address : string) : option bytes :=
  st_sessions t !! (ns, address).

Definition store_session (t : SignalTables) (ns address : string) (record : bytes) : SignalTables :=
  mkSignalTables (st_locals t) (st_identities t) (<[(ns, address) := record]> (st_sessions t))
    (st_prekeys t) (st_signed_prekeys t) (st_kyber_prekeys t).

(** ** [stores/prekey.rs] *)

Definition get_pre_key (t : SignalTables) (ns : string) (id : Z) : result SignalProtocolError bytes :=
  ok_or (st_prekeys t !! (ns, id)) InvalidPreKeyId.

Definition save_pre_key (t : SignalTables) (ns : string) (id : Z) (record : bytes) : SignalTables :=
  mkSignalTables (st_locals t) (st_identities t) (st_sessions t) (<[(ns, id) := record]> (st_prekeys t))
    (st_signed_prekeys t) (st_kyber_prekeys t).

Definition remove_pre_key (t : SignalTables) (ns : string) (id : Z) : SignalTables :=
  mkSignalTables (st_locals t) (st_identities t) (st_sessions t) (delete (ns, id) (st_prekeys t))
    (st_signed_prekeys t) (st_kyber_prekeys t).

Definition get_signed_pre_key (t : SignalTables) (ns : string) (id : Z) : result SignalProtocolError bytes :=
  ok_or (st_signed_prekeys t !! (ns, id)) InvalidSignedPreKeyId.

Definition save_signed_pre_key (t : SignalTables) (ns : string) (id : Z) (record : bytes) : SignalTables :=
  mkSignalTables (st_locals t) (st_identities t) (st_sessions t) (st_prekeys t)
    (<[(ns, id) := record]> (st_signed_prekeys t)) (st_kyber_prekeys t).

Definition get_kyber_pre_key (t : SignalTables) (ns : string) (id : Z) : result SignalProtocolError bytes :=
  ok_or (fst <$> st_kyber_prekeys t !! (ns, id)) InvalidKyberPreKeyId.

Definition set_kyber (t : SignalTables) (m : gmap (string * Z) (bytes * option bytes)) : SignalTables :=
  mkSignalTables (st_locals t) (st_identities t) (st_sessions t) (st_prekeys t) (st_signed_prekeys t) m.

(** [ON CONFLICT DO UPDATE SET record]: [used_with] survives. *)
Definition save_kyber_pre_key (t : SignalTables) (ns : string) (id : Z) (record : bytes) : SignalTables :=
  set_kyber t (<[(ns, id) := (record, st_kyber_prekeys t !! (ns, id) ≫= snd)]> (st_kyber_prekeys t)).

Definition mark_kyber_pre_key_used (t : SignalTables) (ns : string) (id spk : Z) (base_key : bytes)
    : SignalTables * result SignalProtocolError unit :=
  let tuple := be_bytes 4 spk ++ base_key in
  match st_kyber_prekeys t !! (ns, id) with
  | None => (t, Err InvalidKyberPreKeyId)
  | Some (record, None) => (set_kyber t (<[(ns, id) := (record, Some tuple)]> (st_kyber_prekeys t)), Ok tt)
  | Some (_, Some existing) => if bool_decide (existing = tuple) then (t, Ok tt) else (t, Err SigOther)
  end.

(** ** What the namespaces promise *)

(** The rows of a namespace agree in two states of the tables. *)
Definition same_ns (ns ns' : string) (t t' : SignalTables) : Prop :=
  st_locals t !! (ns, tt) = st_locals t' !! (ns', tt)
  ∧ (∀ a, st_identities t !! (ns, a) = st_identities t' !! (ns', a))
  ∧ (∀ a, st_sessions t !! (ns, a) = st_sessions t' !! (ns', a))
  ∧ (∀ i, st_prekeys t !! (ns, i) = st_prekeys t' !! (ns', i))
  ∧ (∀ i, st_signed_prekeys t !! (ns, i) = st_signed_prekeys t' !! (ns', i))
  ∧ (∀ i, st_kyber_prekeys t !! (ns, i) = st_kyber_prekeys t' !! (ns', i)).

Definition ns_empty (ns : string) (t : SignalTables) : Prop := same_ns ns ns t signal_empty.

Lemma delete_namespace_spec t ns other :
  ns_empty ns (delete_namespace t ns)
  ∧ (other ≠ ns → same_ns other other (delete_namespace t ns) t).
Proof.
  split; [|intros Hne]; unfold ns_empty, same_ns, signal_empty, delete_namespace; cbn;
    split_and!; intros; rewrite ?delete_rows_lookup, ?lookup_empty;
    by rewrite ?decide_True, ?decide_False by done.
Qed.

Lemma migrate_tables t from to t' :
  migrate_namespace t from to = (t', Ok tt) →
  rename_rows from to (st_locals t) = Some (st_locals t')
  ∧ rename_rows from to (st_identities t) = Some (st_identities t')
  ∧ rename_rows from to (st_sessions t) = Some (st_sessions t')
  ∧ rename_rows from to (st_prekeys t) = Some (st_prekeys t')
  ∧ rename_rows from to (st_signed_prekeys t) = Some (st_signed_prekeys t')
  ∧ rename_rows from to (st_kyber_prekeys t) = Some (st_kyber_prekeys t').
Proof.
  unfold migrate_namespace. cbn. repeat (case_match; [|done]). by intros [= <-].
Qed.

Lemma migrate_into_empty t from to :
  from ≠ to → ns_empty to t →
  ∃ t', migrate_namespace t from to = (t', Ok tt)
  ∧ same_ns to from t' t ∧ ns_empty from t' ∧ (∀ ns, ns ≠ from → ns ≠ to → same_ns ns ns t' t).
Proof.
  intros Hne (H1 & H2 & H3 & H4 & H5 & H6). unfold signal_empty in *. cbn in *.
  destruct (rename_into_empty from to (st_locals t)) as (l & El & Hl1 & Hl2 & Hl3); [done|by intros []|].
  destruct (rename_into_empty from to (st_identities t)) as (i & Ei & Hi1 & Hi2 & Hi3); [done|done|].
  destruct (rename_into_empty from to (st_sessions t)) as (s & Es & Hs1 & Hs2 & Hs3); [done|done|].
  destruct (rename_into_empty from to (st_prekeys t)) as (p & Ep & Hp1 & Hp2 & Hp3); [done|done|].
  destruct (rename_into_empty from to (st_signed_prekeys t)) as (g & Eg & Hg1 & Hg2 & Hg3); [done|done|].
  destruct (rename_into_empty from to (st_kyber_prekeys t)) as (k & Ek & Hk1 & Hk2 & Hk3); [done|done|].
  exists (mkSignalTables l i s p g k). unfold migrate_namespace. cbn. rewrite El, Ei, Es, Ep, Eg, Ek.
  split; [done|]. split; [by split_and!|]. split; [by split_and!|].
  intros ns Hf Ht. split_and!; cbn; intros; auto.
Qed.

(** The persona moves whole. Into an empty namespace the migration
    always succeeds and the new namespace holds exactly the rows the old one
    held (identity, sessions, every kind of pre-key with its used mark), the
    old one holds none, and no other namespace changes. *)
Theorem migration_moves_persona t from to :
  from ≠ to → ns_empty to t →
  ∃ t', migrate_namespace t from to = (t', Ok tt)
  ∧ same_ns to from t' t ∧ ns_empty from t' ∧ (∀ ns, ns ≠ from → ns ≠ to → same_ns ns ns t' t).
Proof. apply migrate_into_empty. Qed.

Definition demo_persona : SignalTables :=
  save_kyber_pre_key (save_pre_key (default signal_empty (ok (create_local signal_empty "pending" 7 [zb 1])))
    "pending" 1 [zb 2]) "pending" 1 [zb 3].

Lemma migration_moves_persona_witness :
  ∃ t', migrate_namespace demo_persona "pending" "rel" = (t', Ok tt)
  ∧ same_ns "rel" "pending" t' demo_persona.
Proof.
  destruct (migration_moves_persona demo_persona "pending" "rel") as (t' & H1 & H2 & _);
    [discriminate| |exists t'; exact (conj H1 H2)].
  split_and!; intros; [vm_compute; reflexivity|..]; unfold demo_persona, create_local; cbn;
    repeat (rewrite lookup_insert_ne by discriminate); apply lookup_empty.
Defined.

(** ** Trust and pre-key reuse *)

(** The writes libsignal makes through the stores. *)
Inductive StoreOp :=
| SaveIdentity (ns address : string) (identity : bytes)
| StoreSession (ns address : string) (record : bytes)
| SavePreKey (ns : string) (id : Z) (record : bytes)
| RemovePreKey (ns : string) (id : Z)
| SaveSignedPreKey (ns : string) (id : Z) (record : bytes)
| SaveKyberPreKey (ns : string) (id : Z) (record : bytes)
| MarkKyberUsed (ns : string) (id spk : Z) (base_key : bytes).

Definition store_step (t : SignalTables) (op : StoreOp) : SignalTables :=
  match op with
  | SaveIdentity ns address identity => (save_identity t ns address identity).1
  | StoreSession ns address record => store_session t ns address record
  | SavePreKey ns id record => save_pre_key t ns id record
  | RemovePreKey ns id => remove_pre_key t ns id
  | SaveSignedPreKey ns id record => save_signed_pre_key t ns id record
  | SaveKyberPreKey ns id record => save_kyber_pre_key t ns id record
  | MarkKyberUsed ns id spk base_key => (mark_kyber_pre_key_used t ns id spk base_key).1
  end.

Definition used_with (t : SignalTables) (ns : string) (id : Z) : option bytes :=
  st_kyber_prekeys t !! (ns, id) ≫= snd.

Lemma used_with_step t op ns id u :
  used_with t ns id = Some u → used_with (store_step t op) ns id = Some u.
Proof.
  unfold used_with. destruct op as [| | | | |ns' id' rec|ns' id' spk bk]; cbn; try done.
  - destruct (decide ((ns', id') = (ns, id))) as [[= -> ->]|Hne].
    + rewrite lookup_insert_eq. cbn. by intros ->.
    + by rewrite lookup_insert_ne.
  - unfold mark_kyber_pre_key_used. destruct (st_kyber_prekeys t !! (ns', id')) as [[r [x|]]|] eqn:E; cbn.
    + by case_bool_decide.
    + destruct (decide ((ns', id') = (ns, id))) as [[= -> ->]|Hne].
      * by rewrite E.
      * by rewrite lookup_insert_ne.
    + done.
Qed.

(** A last-resort pre-key serves one session. Once it is used with a
    signed pre-key and base key, then after any further writes through the
    stores (saving it again included) the same pair is accepted again without
    a change, and every other pair is refused. *)
Theorem kyber_single_use t ns id spk base_key t1 ops :
  mark_kyber_pre_key_used t ns id spk base_key = (t1, Ok tt) →
  let t2 := foldl store_step t1 ops in
  mark_kyber_pre_key_used t2 ns id spk base_key = (t2, Ok tt)
  ∧ ∀ spk' base_key', is_u32 spk → is_u32 spk' → (spk', base_key') ≠ (spk, base_key) →
      mark_kyber_pre_key_used t2 ns id spk' base_key' = (t2, Err SigOther).
Proof.
  intros H t2.
  assert (Hu : used_with t2 ns id = Some (be_bytes 4 spk ++ base_key)).
  { assert (Hu1 : used_with t1 ns id = Some (be_bytes 4 spk ++ base_key)).
    { unfold mark_kyber_pre_key_used in H. unfold used_with.
      destruct (st_kyber_prekeys t !! (ns, id)) as [[r [x|]]|] eqn:E; [|injection H as <-|done].
      - case_bool_decide as Hx; [|done]. injection H as <-. by rewrite E, <- Hx.
      - cbn. by rewrite lookup_insert_eq. }
    unfold t2. clear H t2. revert t1 Hu1. induction ops as [|op ops IH]; intros t1 Hu1; [done|].
    cbn. apply IH. by apply used_with_step. }
  unfold used_with in Hu. unfold mark_kyber_pre_key_used.
  destruct (st_kyber_prekeys t2 !! (ns, id)) as [[r u]|]; [|done]. cbn in Hu. subst u. split.
  - by rewrite bool_decide_eq_true_2.
  - intros spk' bk' Hs Hs' Hne. rewrite bool_decide_eq_false_2; [done|]. intros Heq.
    apply app_inj_1 in Heq as [Hb ->]; [|by rewrite !length_be_bytes].
    apply Hne. f_equal. apply (f_equal be_val) in Hb. unfold is_u32, u32_max in *.
    rewrite !be_val_bytes_small in Hb by (change (256 ^ Z.of_nat 4) with (2 ^ 32); lia). done.
Qed.

Lemma kyber_single_use_witness :
  let t1 := (mark_kyber_pre_key_used demo_persona "pending" 1 5 [zb 9]).1 in
  mark_kyber_pre_key_used t1 "pending" 1 5 [zb 9] = (t1, Ok tt).
Proof.
  apply (kyber_single_use demo_persona "pending" 1 5 [zb 9] _ []). by vm_compute.
Defined.

(** Trust on first use: an address with a stored identity trusts only it. *)
Lemma identity_tofu t ns address identity :
  get_identity t ns address = Some identity →
  ∀ other, is_trusted_identity t ns address other = true ↔ other = identity.
Proof.
  intros H other. unfold is_trusted_identity. rewrite H. rewrite bool_decide_eq_true.
  split; congruence.
Qed.

(** ** The interface the engine uses *)

Class SignalStore (Sig : Type) := {
  wipe_namespace : string → Sig → Sig;
  holds_namespace : string → Sig → Prop;
  wipe_namespace_gone : ∀ ns s, ¬ holds_namespace ns (wipe_namespace ns s);
  wipe_namespace_other : ∀ ns other s,
    other ≠ ns → holds_namespace other (wipe_namespace ns s) ↔ holds_namespace other s;
}.

Lemma same_ns_empty ns t t' : same_ns ns ns t t' → ns_empty ns t ↔ ns_empty ns t'.
Proof.
  intros (H1 & H2 & H3 & H4 & H5 & H6). unfold ns_empty, same_ns. rewrite H1.
  setoid_rewrite H2. setoid_rewrite H3. setoid_rewrite H4. setoid_rewrite H5. by setoid_rewrite H6.
Qed.

#[export] Program Instance signal_tables_store : SignalStore SignalTables := {
  wipe_namespace ns t := delete_namespace t ns;
  holds_namespace ns t := ¬ ns_empty ns t;
}.
Next Obligation. intros ns s H. apply H, (delete_namespace_spec s ns ns). Qed.
Next Obligation.
  intros ns other s Hne. cbn. by rewrite (same_ns_empty _ _ _ (proj2 (delete_namespace_spec s ns other) Hne)).
Qed.
