(* ===== verification/EngineTypes.v ===== *)
(** What the engine components share ([core/src/engine/mod.rs]): the client
    events, the error type, and the policy columns seen through the
    relationship rows of the store. *)

From S2P Require Import Prelude Bin Payloads WirePolicy Media Envelope Frame StickerDocs Policy PairingQr Ledger Sync Session.

Inductive EngineEvent :=
| EvMessage (rel_id : string) (msg_id : bytes)
| EvEdited (rel_id : string) (msg_id : bytes)
| EvDeleted (rel_id : string) (msg_id : bytes)
| EvHistoryCleared (rel_id : string)
| EvRead (rel_id : string) (msg_id : bytes)
| EvTyping (rel_id : string) (typing : bool)
| EvPresence (rel_id : string) (in_app do_not_disturb : bool)
| EvProfileUpdated (rel_id : string)
| EvProfileRequested (rel_id : string)
| EvPeerPrefs (rel_id : string)
| EvSticker (rel_id : string) (msg_id : bytes) (ready : bool)
| EvStickerPackInstalled (pack_id : bytes)
| EvStickerPackRefused (pack_id : bytes) (reason : Z)
| EvStickerThumbs (pack_id : bytes) (doc : StickerThumbsDoc)
| EvAttachmentProgress (rel_id : string) (head_id : bytes) (received total : Z)
| EvAttachmentComplete (rel_id : string) (head_id msg_id : bytes)
| EvAttachmentFailed (rel_id : string) (head_id : bytes)
| EvAttachmentChunkDropped (rel_id : string) (head_id : bytes)
| EvPolicyChanged (rel_id : string)
| EvContactClosed (rel_id : string)
| EvGapDetected (rel_id : string).

(** [pairing::PairingFailure] *)
Inductive PairingFailure :=
| PfPayload (e : PairingError)
| PfSession (e : SessionError)
| PfTransport (e : TransportError)
| PfStore (e : StoreError)
| PfSqlite (what : Detail)
| PfWire (e : WireError)
| ContactExists
| SelfPairing
| PfNotFound
| NotARequest
| CapReached (what : Detail).

Inductive EngineError :=
| UnknownRelationship
| NotActive
| Closing
| SessionBroken
| CapGated (t : EnvelopeType)
| PolicyDenied (t : EnvelopeType)
| NotFound
| EditDenied (why : string)
| EWire (e : WireError)
| EStore (e : StoreError)
| ESession (e : SessionError)
| ETransport (e : TransportError)
| EPairing (e : PairingFailure)
| ESync (e : SyncError)
| EMedia (e : MediaError).

(** ** The policy columns *)

Definition policies (db : Db) : gmap string PolicyRow := rel_policy <$> db_rels db.

Definition with_policy (r : RelRow) (p : PolicyRow) : RelRow :=
  mkRelRow (rel_role r) (rel_state r) (rel_peer_onion r) (rel_our_qr_bytes r) (rel_intro_pending r)
    (rel_session r) (rel_created_at r) (rel_peer_caps r) (rel_close_state r) (rel_history_cut r) p
    (rel_peer_prefs r) (rel_pairing r).

Definition load_policy (db : Db) (rel_id : string) : result StoreError PolicyState :=
  Policy.load_policy (policies db) rel_id.

Definition save_policy (db : Db) (rel_id : string) (s : PolicyState) : Db :=
  set_rels db (alter (λ r, with_policy r (save_row s)) rel_id (db_rels db)).

Lemma policies_save db rel_id s :
  policies (save_policy db rel_id s) = Policy.save_policy (policies db) rel_id s.
Proof.
  unfold policies, save_policy, Policy.save_policy. cbn [db_rels set_rels].
  apply map_eq. intros k. rewrite lookup_fmap, (lookup_fmap _ (db_rels db) rel_id).
  destruct (decide (k = rel_id)) as [->|Hk].
  - rewrite lookup_alter_eq. destruct (db_rels db !! rel_id) as [r|] eqn:E; cbn.
    + by rewrite lookup_insert_eq.
    + by rewrite lookup_fmap, E.
  - rewrite lookup_alter_ne by done. destruct (db_rels db !! rel_id) as [r|] eqn:E; cbn.
    + by rewrite lookup_insert_ne, lookup_fmap by done.
    + by rewrite lookup_fmap.
Qed.

(** [policy::store::attachments_allowed] and [message_expiry]. *)
Definition attachments_allowed (db : Db) (rel_id : string) : result StoreError bool :=
  let* s := load_policy db rel_id in Ok (attachments s).

Definition message_expiry (db : Db) (rel_id : string) (floor : Z) : result StoreError (option Z) :=
  let* s := load_policy db rel_id in Ok (expiry_at s floor).

(** ** Main result *)

(** C15: Every policy state the machine can reach from the default keeps its
    invariant (an allowed TTL, only known want bits, a well-formed pending
    proposal) and survives the store: saved on its relationship row and
    loaded again it is unchanged, and no other relationship's policy moves. *)
Theorem reachable_policy_persists db rel_id s :
  policy_reachable s → is_Some (db_rels db !! rel_id) →
  policy_state_wf s ∧ load_policy (save_policy db rel_id s) rel_id = Ok s
  ∧ ∀ other, other ≠ rel_id → load_policy (save_policy db rel_id s) other = load_policy db other.
Proof.
  intros Hs Hr. pose proof (policy_reachable_wf s Hs) as Hw. split; [done|].
  unfold load_policy. rewrite policies_save. apply load_save_policy; [done|].
  unfold policies. by rewrite lookup_fmap, fmap_is_Some.
Qed.

Definition demo_rel : RelRow :=
  mkRelRow "accepter" "active" "peer.onion" [] false SessActive 0 CAPS_LOCAL None 0
    (save_row policy_default) None pairing_empty.
Definition demo_db : Db :=
  mkDb 1000 ∅ ∅ ∅ ∅ ∅ ∅ ∅ ∅ ∅ {["rel"%string := demo_rel]}
    ∅ sticker_db_empty None.

Lemma reachable_policy_persists_witness :
  policy_state_wf (decline_rules policy_default)
  ∧ load_policy (save_policy demo_db "rel" (decline_rules policy_default)) "rel"
    = Ok (decline_rules policy_default)
  ∧ ∀ other, other ≠ "rel"%string →
      load_policy (save_policy demo_db "rel" (decline_rules policy_default)) other = load_policy demo_db other.
Proof.
  apply reachable_policy_persists; [apply rtc_once, step_decline|]. exists demo_rel. by vm_compute.
Defined.
