(* ===== verification/Persona.v ===== *)
(** Personas ([core/src/session/persona.rs]), the bundle they advertise
    ([core/src/pairing/qr.rs]), client-authorization keys
    ([core/src/transport/onion/client_auth.rs]) and the session set-up of
    [core/src/session/mod.rs]. Keys are held by their serialized bytes. The
    class [PairingCrypto] collects what libsignal, x25519, the hashes and the
    text codecs provide. *)

From S2P Require Import Prelude Bin RustStr Limits Frame Onion PairingQr Policy Ledger Session SignalStores EngineTypes.

Record KeyPair := mkKeyPair { kp_public : bytes; kp_private : bytes }.

Record SignedPreKeyRecord := mkSignedPreKeyRecord {
  spk_id : Z; spk_timestamp : Z; spk_pair : KeyPair; spk_signature : bytes;
}.
Record KyberPreKeyRecord := mkKyberPreKeyRecord {
  kpk_id : Z; kpk_public : bytes; kpk_secret : bytes; kpk_signature : bytes;
}.
Record PreKeyRecord := mkPreKeyRecord { opk_id : Z; opk_pair : KeyPair }.

Record PreKeyBundle := mkPreKeyBundle {
  pb_registration_id : Z;
  pb_device_id : Z;
  pb_pre_key : option (Z * bytes);
  pb_signed_pre_key_id : Z;
  pb_signed_pre_key_public : bytes;
  pb_signed_pre_key_signature : bytes;
  pb_kyber_pre_key_id : Z;
  pb_kyber_pre_key_public : bytes;
  pb_kyber_pre_key_signature : bytes;
  pb_identity_key : bytes;
}.

(** The crates under the pairing code. A parser returns the canonical
    serialization of what it read. *)
Class PairingCrypto (Rng : Type) := {
  rng_next : Rng → Rng;
  fill_bytes : Rng → nat → bytes;
  random_range : Rng → Z → Z → Z;
  keypair_generate : Rng → KeyPair;
  kyber_generate : Rng → Z → bytes → option KyberPreKeyRecord;
  calculate_signature : bytes → bytes → Rng → option bytes;
  verify_signature : bytes → bytes → bytes → bool;
  identity_key_try_from : bytes → option bytes;
  identity_pair_serialize : KeyPair → bytes;
  identity_pair_try_from : bytes → option KeyPair;
  public_key_deserialize : bytes → option bytes;
  kem_key_deserialize : bytes → option bytes;
  pre_key_serialize : PreKeyRecord → bytes;
  signed_pre_key_serialize : SignedPreKeyRecord → bytes;
  kyber_pre_key_serialize : KyberPreKeyRecord → bytes;
  x25519_public : bytes → bytes;
  (** [PreKeySignalMessage::try_from] and the identity key inside it. *)
  prekey_message_identity : bytes → option bytes;
  signal_message_parses : bytes → bool;
  process_prekey_bundle : SignalTables → string → PreKeyBundle → Z → Rng
                          → SignalTables * result SignalProtocolError unit;
  message_decrypt_prekey : SignalTables → string → bytes → SignalTables * result SignalProtocolError bytes;
  message_decrypt_signal : SignalTables → string → bytes → SignalTables * result SignalProtocolError bytes;
  message_encrypt : SignalTables → string → bytes → Z
                    → SignalTables * result SignalProtocolError (CiphertextType * bytes);
  BASE32_NOPAD_encode : bytes → bytes;
  BASE32_NOPAD_decode : bytes → option bytes;
  bs58_encode : bytes → bytes;
  bs58_decode : bytes → option bytes;
  sha256 : bytes → bytes;
  sha3_256 : bytes → bytes;
}.

Definition SIGNED_PREKEY_ID : Z := 1.
Definition KYBER_PREKEY_ID : Z := 1.
Definition ONE_TIME_PREKEY_ID : Z := 1.

Record Persona := mkPersona {
  pe_identity : KeyPair;
  pe_registration_id : Z;
  pe_signed_pre_key : SignedPreKeyRecord;
  pe_kyber_pre_key : KyberPreKeyRecord;
  pe_one_time_pre_key : PreKeyRecord;
}.

(** [ClientAuthKeys] *)
Record ClientAuthKeys := mkClientAuthKeys { public_b32 : bytes; private_b32 : bytes }.

Section Persona.
Context {Rng : Type} `{crypto : !PairingCrypto Rng}.

(** The generator after the six draws of [generate_persona]. *)
Definition persona_draws (rng : Rng) : Rng :=
  rng_next (rng_next (rng_next (rng_next (rng_next (rng_next rng))))).

Definition generate_persona (rng : Rng) : result SessionError Persona :=
  let identity := keypair_generate rng in
  let rng := rng_next rng in
  let registration_id := random_range rng 1 16383 in
  let rng := rng_next rng in
  let signed_pair := keypair_generate rng in
  let rng := rng_next rng in
  let* signed_sig := ok_or (calculate_signature (kp_private identity) (kp_public signed_pair) rng)
                       (SeMalformed (Lit "spk sign: {e}")) in
  let rng := rng_next rng in
  let signed_pre_key := mkSignedPreKeyRecord SIGNED_PREKEY_ID 0 signed_pair signed_sig in
  let* kyber_pre_key := ok_or (kyber_generate rng KYBER_PREKEY_ID (kp_private identity))
                          (SeMalformed (Lit "kyber keygen: {e}")) in
  let rng := rng_next rng in
  let one_time_pre_key := mkPreKeyRecord ONE_TIME_PREKEY_ID (keypair_generate rng) in
  Ok (mkPersona identity registration_id signed_pre_key kyber_pre_key one_time_pre_key).

(** The three saves are upserts; only [create_local] can refuse. *)
Definition store_persona (t : SignalTables) (namespace : string) (p : Persona) : result SessionError SignalTables :=
  match create_local t namespace (pe_registration_id p) (identity_pair_serialize (pe_identity p)) with
  | Err _ => Err (SeStore (Corrupt (Lit "{e}")))
  | Ok t =>
      let t := save_pre_key t namespace ONE_TIME_PREKEY_ID (pre_key_serialize (pe_one_time_pre_key p)) in
      let t := save_signed_pre_key t namespace SIGNED_PREKEY_ID
                 (signed_pre_key_serialize (pe_signed_pre_key p)) in
      Ok (save_kyber_pre_key t namespace KYBER_PREKEY_ID (kyber_pre_key_serialize (pe_kyber_pre_key p)))
  end.

(** The accessors cannot fail on the records [generate_persona] builds. *)
Definition persona_bundle (p : Persona) : PreKeyBundle :=
  mkPreKeyBundle (pe_registration_id p) 1
    (Some (ONE_TIME_PREKEY_ID, kp_public (opk_pair (pe_one_time_pre_key p))))
    SIGNED_PREKEY_ID (kp_public (spk_pair (pe_signed_pre_key p))) (spk_signature (pe_signed_pre_key p))
    KYBER_PREKEY_ID (kpk_public (pe_kyber_pre_key p)) (kpk_signature (pe_kyber_pre_key p))
    (kp_public (pe_identity p)).

(** ** [qr.rs]: payload and bundle *)

Definition from_bundle (b : PreKeyBundle) (onion client_auth_public nonce : bytes) (expires_at : Z)
    : PairingPayload :=
  mkPairingPayload (pb_identity_key b) (pb_registration_id b) (pb_pre_key b) (pb_signed_pre_key_id b)
    (pb_signed_pre_key_public b) (pb_signed_pre_key_signature b) (pb_kyber_pre_key_id b)
    (pb_kyber_pre_key_public b) (pb_kyber_pre_key_signature b) onion client_auth_public nonce expires_at [].

Definition to_bundle (p : PairingPayload) : result PairingError PreKeyBundle :=
  let* pre_key :=
    match qp_pre_key p with
    | Some (id, pk) =>
        let* pk := ok_or (public_key_deserialize pk) (Invalid (Lit "{e}")) in
        Ok (Some (id, pk))
    | None => Ok None
    end in
  let* spk := ok_or (public_key_deserialize (qp_signed_pre_key_public p)) (Invalid (Lit "{e}")) in
  let* kpk := ok_or (kem_key_deserialize (qp_kyber_pre_key_public p)) (Invalid (Lit "{e}")) in
  let* identity := qr_identity identity_key_try_from p in
  Ok (mkPreKeyBundle (qp_registration_id p) 1 pre_key (qp_signed_pre_key_id p) spk
        (qp_signed_pre_key_signature p) (qp_kyber_pre_key_id p) kpk (qp_kyber_pre_key_signature p) identity).

(** ** Client authorization *)

Definition client_auth_generate (rng : Rng) : ClientAuthKeys :=
  let secret := fill_bytes rng 32 in
  mkClientAuthKeys (base32_lower BASE32_NOPAD_encode (x25519_public secret))
    (base32_lower BASE32_NOPAD_encode secret).

Definition decode_client_auth_key (b32 : bytes) : result TransportError bytes :=
  let* raw := base32_decode BASE32_NOPAD_decode b32 in
  if len raw =? 32 then Ok raw else Err (TrKeyStore (Lit "client-auth key must be 32 bytes")).

Definition public_bytes (k : ClientAuthKeys) : result TransportError bytes :=
  decode_client_auth_key (public_b32 k).

(** ** [session/mod.rs] *)

Definition process_bundle (t : SignalTables) (rel_id : string) (b : PreKeyBundle) (now : Z) (rng : Rng)
    : SignalTables * result SessionError unit :=
  let '(t, r) := process_prekey_bundle t rel_id b now rng in
  (t, map_err classify_signal_error r).

(** The sender's identity key and the ciphertext of a pre-key frame. *)
Definition parse_prekey_frame (frame : bytes) : result SessionError (bytes * bytes) :=
  let* p := parse_frame frame in
  let '(tag, rest) := p in
  if negb (tag =? TAG_PREKEY) then Err (SeMalformed (Lit "not a pre-key frame"))
  else
    let* ik := ok_or (prekey_message_identity rest) (SeMalformed (Lit "{e}")) in
    Ok (ik, rest).

(** The two decryptions [decrypt] chooses between by the frame's tag. *)
Definition message_parses (tag : Z) (rest : bytes) : bool :=
  if tag =? TAG_PREKEY then bool_decide (is_Some (prekey_message_identity rest)) else signal_message_parses rest.

Definition message_decrypt (t : SignalTables) (rel_id : string) (tag : Z) (rest : bytes)
    : SignalTables * result SignalProtocolError bytes :=
  if tag =? TAG_PREKEY then message_decrypt_prekey t rel_id rest else message_decrypt_signal t rel_id rest.
End Persona.
