(* ===== verification/TransportTypes.v ===== *)
(** The transport's data ([core/src/transport/mod.rs], [status.rs]), the kill
    switch file ([killswitch.rs]) and the daemon trait with its two
    implementations ([daemon.rs]). *)

From S2P Require Import Prelude Bin RustStr Frame RateLimit Seen Heal Control OnionKeys SendPool Conn.

(** ** Status *)

Inductive TorState :=
| TsOff
| TsStarting
| TsBootstrapping (pct : Z)
| TsOnline
| TsDegraded (reason : Detail)
| TsDead (reason : Detail).

Inductive ServiceState := Publishing | Reachable | Unreachable.

Record ServiceStatus := mkServiceStatus {
  ss_service_id : bytes;
  ss_onion : option bytes;
  ss_state : ServiceState;
}.
Record OutboxStatus := mkOutboxStatus { os_queued : Z; os_oldest_age_secs : Z; os_next_retry_secs : option Z }.
Record InboxStatus := mkInboxStatus { is_pending : Z; is_last_drain_secs_ago : option Z }.

Inductive OnionMode := Fast | Normal | Saver.
Definition mode_as_str (m : OnionMode) : bytes :=
  str_bytes (match m with Fast => "fast" | Normal => "normal" | Saver => "saver" end).
Definition mode_parse (s : bytes) : OnionMode :=
  if decide (s = str_bytes "fast") then Fast
  else if decide (s = str_bytes "saver") then Saver else Normal.

Lemma mode_roundtrip m : mode_parse (mode_as_str m) = m.
Proof. by destruct m. Qed.

Record TransportStatus := mkTStatus {
  ts_tor : TorState;
  ts_services : list ServiceStatus;
  ts_outbox : OutboxStatus;
  ts_inbox : InboxStatus;
  ts_kill_switch : bool;
  ts_mode : OnionMode;
  ts_last_error : option Detail;
  ts_updated_at : Z;
}.
Definition status_default : TransportStatus :=
  mkTStatus TsOff [] (mkOutboxStatus 0 0 None) (mkInboxStatus 0 None) false Normal None 0.

Inductive TransportEvent :=
| EvStatus (s : TransportStatus)
| EvArrival (service_id : string).

(** ** The kill switch file *)

Definition KILL_FILE : bytes := str_bytes "tor_kill_switch".
Definition kill_path (data_dir : bytes) : bytes := path_join data_dir KILL_FILE.

(** [KillSwitch::load]: a missing or unreadable file is off. *)
Definition kill_load (io_error : bytes → option Detail) (files : Files) (data_dir : bytes) : bool :=
  match read_to_string io_error files (kill_path data_dir) with
  | Ok (Some s) => bool_decide (str_trim s = str_bytes "1")
  | _ => false
  end.

(** [KillSwitch::set]: the file first, then the flag. *)
Definition kill_set (io_error : bytes → option Detail) (files : Files) (data_dir : bytes) (flag on : bool)
    : Files * bool * result TransportError unit :=
  let '(files, r) := write_file io_error files (kill_path data_dir) (str_bytes (if on then "1" else "0")) in
  match r with
  | Ok _ => (files, on, Ok tt)
  | Err e => (files, flag, Err e)
  end.

Lemma kill_switch_persists io_error files data_dir flag on files' flag' :
  (∀ p, io_error p = None) → kill_set io_error files data_dir flag on = (files', flag', Ok tt) →
  flag' = on ∧ kill_load io_error files' data_dir = on.
Proof.
  intros Hio. unfold kill_set, write_file, kill_load, read_to_string. rewrite !Hio. intros [= <- <-].
  rewrite ?Hio, lookup_insert_eq. by destruct on.
Qed.

(** ** The daemon *)

(** A control port and the process behind it: dialling it (the error, when
    the connection is refused), and a command's outcome. *)
Class ControlPort (Tor : Type) := {
  tor_dial : Tor → Tor * option Detail;
  tor_exec : Tor → bytes → Tor * CmdOutcome;
}.

(** [trait TorDaemon] *)
Class TorDaemon (Tor : Type) := {
  daemon_start : Tor → Tor * result TransportError unit;
  daemon_restart : Tor → Tor * result TransportError unit;
  daemon_stop : Tor → Tor * result TransportError unit;
  unexpected_exit : Tor → Tor * bool;
  control_auth : Tor → ControlAuth;
  daemon_auth_dir : bytes;
}.

(** [AttachedDaemon]: the client owns the process. *)
Record Attached (P : Type) := mkAttached { at_port : P; at_auth : ControlAuth }.
Arguments mkAttached {P}.
Arguments at_port {P}.
Arguments at_auth {P}.

Definition attached_daemon {P : Type} (client_auth_dir : bytes) : TorDaemon (Attached P) := {|
  daemon_start t := (t, Ok tt);
  daemon_restart t := (t, Ok tt);
  daemon_stop t := (t, Ok tt);
  unexpected_exit t := (t, false);
  control_auth t := at_auth t;
  daemon_auth_dir := client_auth_dir;
|}.

(** [SubprocessTor]: the handle of the child, while there is one, beside the
    operating system [Os] it runs in. *)
Record Subprocess (Os : Type) := mkSubprocess {
  sp_work_dir : bytes;
  sp_socks_port : bytes;
  sp_control_port : bytes;
  sp_extra_torrc : list bytes;
  sp_child : option Z;
  sp_os : Os;
}.
Arguments mkSubprocess {Os}.
Arguments sp_work_dir {Os}.
Arguments sp_socks_port {Os}.
Arguments sp_control_port {Os}.
Arguments sp_extra_torrc {Os}.
Arguments sp_child {Os}.
Arguments sp_os {Os}.

Section Subprocess.
Context {Os : Type}.
(** Writing a file, spawning [tor -f torrc], one poll of the control port and
    the cookie file, [kill] with [wait], [try_wait] (the child has exited), and
    the content of the cookie file. *)
Context (os_write : Os → bytes → bytes → Os * result TransportError unit).
Context (os_spawn : Os → bytes → Os * option Z).
Context (os_control_up : Os → Os * bool).
Context (os_kill : Os → Z → Os).
Context (os_exited : Os → Z → bool).
Context (os_cookie : Os → bytes → option bytes).
(** The polls of the control port that fit into thirty seconds. *)
Context (polls : nat).

Definition set_child (t : Subprocess Os) (child : option Z) (os : Os) : Subprocess Os :=
  mkSubprocess (sp_work_dir t) (sp_socks_port t) (sp_control_port t) (sp_extra_torrc t) child os.

Definition sp_data_dir (t : Subprocess Os) : bytes := path_join (sp_work_dir t) (str_bytes "data").

Definition torrc_params (t : Subprocess Os) : TorrcParams :=
  mkTorrc (sp_data_dir t) (sp_control_port t) (sp_socks_port t)
    (path_join (sp_work_dir t) (str_bytes "client_auth"))
    (Some (path_join (sp_work_dir t) (str_bytes "tor.log"))) (sp_extra_torrc t).

Definition write_torrc (t : Subprocess Os) : Subprocess Os * result TransportError bytes :=
  let torrc := path_join (sp_work_dir t) (str_bytes "torrc") in
  let '(os, r) := os_write (sp_os t) torrc (base_torrc (torrc_params t)) in
  (set_child t (sp_child t) os, let* _ := r in Ok torrc).

Fixpoint wait_for_control (polls : nat) (os : Os) : Os * result TransportError unit :=
  let '(os, up) := os_control_up os in
  if up then (os, Ok tt)
  else match polls with
       | O => (os, Err (TrTimeout (Lit "tor control port did not come up")))
       | S polls => wait_for_control polls os
       end.

Definition sub_start (t : Subprocess Os) : Subprocess Os * result TransportError unit :=
  match sp_child t with
  | Some _ => (t, Ok tt)
  | None =>
      let '(t, r) := write_torrc t in
      match r with
      | Err e => (t, Err e)
      | Ok torrc =>
          let '(os, child) := os_spawn (sp_os t) torrc in
          match child with
          | None => (set_child t None os, Err (TrControl (Lit "spawn {}: {e}")))
          | Some pid =>
              let '(os, r) := wait_for_control polls os in
              (set_child t (Some pid) os, r)
          end
      end
  end.

Definition sub_stop (t : Subprocess Os) : Subprocess Os * result TransportError unit :=
  match sp_child t with
  | Some pid => (set_child t None (os_kill (sp_os t) pid), Ok tt)
  | None => (t, Ok tt)
  end.

Definition sub_restart (t : Subprocess Os) : Subprocess Os * result TransportError unit :=
  let '(t, r) := sub_stop t in
  match r with
  | Err e => (t, Err e)
  | Ok _ => sub_start t
  end.

Definition sub_unexpected_exit (t : Subprocess Os) : Subprocess Os * bool :=
  match sp_child t with
  | None => (t, false)
  | Some pid =>
      if os_exited (sp_os t) pid then (set_child t None (sp_os t), true) else (t, false)
  end.

Definition sub_control_auth (t : Subprocess Os) : ControlAuth :=
  match os_cookie (sp_os t) (path_join (sp_data_dir t) (str_bytes "control_auth_cookie")) with
  | Some cookie => Cookie cookie
  | None => NoAuth
  end.

Definition subprocess_daemon (work_dir : bytes) : TorDaemon (Subprocess Os) := {|
  daemon_start := sub_start;
  daemon_restart := sub_restart;
  daemon_stop := sub_stop;
  unexpected_exit := sub_unexpected_exit;
  control_auth := sub_control_auth;
  daemon_auth_dir := path_join work_dir (str_bytes "client_auth");
|}.

(** A start while the child is there does nothing; a restart always begins
    with no child, so it spawns afresh; a detected exit is reported once. *)
Lemma sub_start_idempotent t : is_Some (sp_child t) → sub_start t = (t, Ok tt).
Proof. unfold sub_start. by intros [pid ->]. Qed.

Lemma sub_restart_spawns t : sub_restart t = sub_start (sub_stop t).1 ∧ sp_child (sub_stop t).1 = None.
Proof. unfold sub_restart, sub_stop. by destruct (sp_child t) eqn:E. Qed.

Lemma exit_reported_once t t' b : sub_unexpected_exit t = (t', true) → sub_unexpected_exit t' = (t', b) → b = false.
Proof.
  unfold sub_unexpected_exit at 1. destruct (sp_child t); [|done]. case_match; [|done].
  intros [= <-]. unfold sub_unexpected_exit. cbn. by intros [= <-].
Qed.
End Subprocess.
