(* ===== verification/Args.v ===== *)
(** The argument parser of the command line ([cli/src/args.rs]): flags with
    and without a value in any order, a value taking whatever follows it, and
    the last occurrence winning. The [bool] fields of [Args] are the set of
    those that are true, the [Option<String>] and [Option<PathBuf>] fields the
    map of those that are set. Arguments are UTF-8 text. *)

From S2P Require Import Prelude Bin RustStr Hex PairingQr Control TransportTypes.

(** [usage_msg] and [usage] print and exit with code 2. *)
Inductive UsageError := Usage (msg : string).

(** ** Flags *)

Inductive Switch :=
| SwAlert | SwOnce | SwFlap | SwRestricted | SwOffer | SwAcceptRequest | SwRequests | SwAbort | SwViewOnce | SwOn | SwOff
| SwDnd | SwRemove | SwList | SwShow | SwBroadcast | SwRequest | SwPropose | SwDecline | SwSet | SwCreate | SwSend
| SwFetch | SwAcceptRules.

Inductive TextOpt :=
| ToChutneyNodes | ToTo | ToText | ToAccept | ToCode | ToOut | ToRel | ToMsgId | ToFile | ToCaption | ToName | ToJpeg
| ToCap | ToPack | ToPk | ToTitle | ToFiles | ToKind | ToVisibility | ToDekFile.

Inductive FlagKind :=
| FkSwitch (s : Switch)
| FkText (t : TextOpt)
| FkDataDir
| FkMode
| FkTtl
| FkItem
| FkScreenshot
| FkAttachDownload.

#[export] Instance switch_eq_dec : EqDecision Switch.
Proof. solve_decision. Defined.
#[export] Instance text_opt_eq_dec : EqDecision TextOpt.
Proof. solve_decision. Defined.
#[export] Instance flag_kind_eq_dec : EqDecision FlagKind.
Proof. solve_decision. Defined.

(** The flag of each field, as [parse_args] spells it. *)
Definition switch_flag (s : Switch) : string :=
  match s with
  | SwAlert => "--alert" | SwOnce => "--once" | SwFlap => "--simulate-network-flap" | SwRestricted => "--restricted"
  | SwOffer => "--offer" | SwAcceptRequest => "--accept-request" | SwRequests => "--requests" | SwAbort => "--abort"
  | SwViewOnce => "--view-once" | SwOn => "--on" | SwOff => "--off" | SwDnd => "--dnd" | SwRemove => "--remove"
  | SwList => "--list" | SwShow => "--show" | SwBroadcast => "--broadcast" | SwRequest => "--request"
  | SwPropose => "--propose" | SwDecline => "--decline" | SwSet => "--set" | SwCreate => "--create" | SwSend => "--send"
  | SwFetch => "--fetch" | SwAcceptRules => "--accept-rules"
  end.
Definition text_flag (t : TextOpt) : string :=
  match t with
  | ToChutneyNodes => "--chutney-nodes" | ToTo => "--to" | ToText => "--text" | ToAccept => "--accept"
  | ToCode => "--code" | ToOut => "--out" | ToRel => "--rel" | ToMsgId => "--msg-id" | ToFile => "--file"
  | ToCaption => "--caption" | ToName => "--name" | ToJpeg => "--jpeg" | ToCap => "--cap" | ToPack => "--pack"
  | ToPk => "--pk" | ToTitle => "--title" | ToFiles => "--files" | ToKind => "--kind"
  | ToVisibility => "--visibility" | ToDekFile => "--dek-file"
  end.

Definition ALL_SWITCHES : list Switch :=
  [SwAlert; SwOnce; SwFlap; SwRestricted; SwOffer; SwAcceptRequest; SwRequests; SwAbort; SwViewOnce; SwOn; SwOff; SwDnd;
   SwRemove; SwList; SwShow; SwBroadcast; SwRequest; SwPropose; SwDecline; SwSet; SwCreate; SwSend; SwFetch;
   SwAcceptRules].
Definition ALL_TEXTS : list TextOpt :=
  [ToChutneyNodes; ToTo; ToText; ToAccept; ToCode; ToOut; ToRel; ToMsgId; ToFile; ToCaption; ToName; ToJpeg; ToCap;
   ToPack; ToPk; ToTitle; ToFiles; ToKind; ToVisibility; ToDekFile].

Definition flag_of (k : FlagKind) : string :=
  match k with
  | FkSwitch s => switch_flag s
  | FkText t => text_flag t
  | FkDataDir => "--data-dir"
  | FkMode => "--mode"
  | FkTtl => "--ttl"
  | FkItem => "--item"
  | FkScreenshot => "--screenshot"
  | FkAttachDownload => "--attach-download"
  end.
Definition ALL_FLAGS : list FlagKind :=
  (FkSwitch <$> ALL_SWITCHES) ++ (FkText <$> ALL_TEXTS)
  ++ [FkDataDir; FkMode; FkTtl; FkItem; FkScreenshot; FkAttachDownload].

(** The [match] over the flag's text. *)
Definition flag_kind (arg : bytes) : option FlagKind :=
  List.find (λ k, bool_decide (str_bytes (flag_of k) = arg)) ALL_FLAGS.

Lemma flag_kind_of k : flag_kind (str_bytes (flag_of k)) = Some k.
Proof. destruct k as [[]|[]| | | | | |]; vm_compute; reflexivity. Qed.

(** The tables are keyed by fields. *)
#[export] Instance switch_countable : Countable Switch.
Proof.
  refine (inj_countable switch_flag
    (λ s, match flag_kind (str_bytes s) with Some (FkSwitch s) => Some s | _ => None end) _).
  intros s. pose proof (flag_kind_of (FkSwitch s)) as H. cbn [flag_of] in H. by rewrite H.
Defined.
#[export] Instance text_opt_countable : Countable TextOpt.
Proof.
  refine (inj_countable text_flag
    (λ s, match flag_kind (str_bytes s) with Some (FkText t) => Some t | _ => None end) _).
  intros t. pose proof (flag_kind_of (FkText t)) as H. cbn [flag_of] in H. by rewrite H.
Defined.

(** ** The parsed arguments *)

Record Args := mkArgs {
  a_cmd : bytes;
  a_data_dir : bytes;
  a_mode : OnionMode;
  a_ttl : option Z;
  a_item : option Z;
  a_screenshot : option bool;
  a_attach_download : option bool;
  a_texts : gmap TextOpt bytes;
  a_switches : gset Switch;
}.

Definition args_default (cmd : bytes) : Args :=
  mkArgs cmd (str_bytes "./schat-data") Normal None None None None ∅ ∅.

Definition text_of (t : TextOpt) (a : Args) : option bytes := a_texts a !! t.
Definition switch_on (s : Switch) (a : Args) : bool := bool_decide (s ∈ a_switches a).

Definition parse_on_off (v : bytes) : result UsageError bool :=
  if bool_decide (v ∈ (str_bytes <$> ["on"; "true"; "1"; "yes"])) then Ok true
  else if bool_decide (v ∈ (str_bytes <$> ["off"; "false"; "0"; "no"])) then Ok false
  else Err (Usage "expected on|off").

Definition set_switch (s : Switch) (a : Args) : Args :=
  mkArgs (a_cmd a) (a_data_dir a) (a_mode a) (a_ttl a) (a_item a) (a_screenshot a) (a_attach_download a) (a_texts a)
    ({[s]} ∪ a_switches a).

(** A flag with its value. *)
Definition set_value (k : FlagKind) (v : bytes) (a : Args) : result UsageError Args :=
  match k with
  | FkSwitch s => Ok (set_switch s a)
  | FkText t =>
      Ok (mkArgs (a_cmd a) (a_data_dir a) (a_mode a) (a_ttl a) (a_item a) (a_screenshot a) (a_attach_download a)
            (<[t := v]> (a_texts a)) (a_switches a))
  | FkDataDir =>
      Ok (mkArgs (a_cmd a) v (a_mode a) (a_ttl a) (a_item a) (a_screenshot a) (a_attach_download a) (a_texts a)
            (a_switches a))
  | FkMode =>
      Ok (mkArgs (a_cmd a) (a_data_dir a) (mode_parse v) (a_ttl a) (a_item a) (a_screenshot a) (a_attach_download a)
            (a_texts a) (a_switches a))
  | FkTtl =>
      let* n := ok_or (parse_uint u32_max v) (Usage "--ttl needs seconds (0 = never)") in
      Ok (mkArgs (a_cmd a) (a_data_dir a) (a_mode a) (Some n) (a_item a) (a_screenshot a) (a_attach_download a)
            (a_texts a) (a_switches a))
  | FkItem =>
      let* n := ok_or (parse_uint u16_max v) (Usage "--item needs a number") in
      Ok (mkArgs (a_cmd a) (a_data_dir a) (a_mode a) (a_ttl a) (Some n) (a_screenshot a) (a_attach_download a)
            (a_texts a) (a_switches a))
  | FkScreenshot =>
      let* b := parse_on_off v in
      Ok (mkArgs (a_cmd a) (a_data_dir a) (a_mode a) (a_ttl a) (a_item a) (Some b) (a_attach_download a) (a_texts a)
            (a_switches a))
  | FkAttachDownload =>
      let* b := parse_on_off v in
      Ok (mkArgs (a_cmd a) (a_data_dir a) (a_mode a) (a_ttl a) (a_item a) (a_screenshot a) (Some b) (a_texts a)
            (a_switches a))
  end.

Fixpoint parse_flags (args : list bytes) (a : Args) : result UsageError Args :=
  match args with
  | [] => Ok a
  | arg :: args =>
      match flag_kind arg with
      | None => Err (Usage "unknown flag {other}")
      | Some (FkSwitch s) => parse_flags args (set_switch s a)
      | Some k =>
          match args with
          | [] => Err (Usage "{name} needs a value")
          | v :: args => let* a := set_value k v a in parse_flags args a
          end
      end
  end.

(** [argv] without the program's name. *)
Definition parse_args (argv : list bytes) : result UsageError Args :=
  match argv with
  | [] => Err (Usage "usage")
  | cmd :: args => parse_flags args (args_default cmd)
  end.

(** The pairs of [hex_id]: [None] is the panic of [&s[i..i + 2]] when the
    text has an odd length or a character across the slice's end. *)
Fixpoint cli_hex_pairs (s : bytes) : option (result UsageError bytes) :=
  match s with
  | [] => Some (Ok [])
  | [_] => None
  | a :: b :: rest =>
      match rest with
      | c :: _ => if is_cont c then None else Some tt
      | [] => Some tt
      end ≫= λ _,
      match from_str_radix16 a b with
      | None => Some (Err (Usage "invalid hex id"))
      | Some v => r ← cli_hex_pairs rest; Some (let* l := r in Ok (zb v :: l))
      end
  end.
Definition cli_hex_id (n : Z) (s : bytes) : option (result UsageError bytes) :=
  r ← cli_hex_pairs s;
  Some (let* v := r in if len v =? n then Ok v else Err (Usage "hex id has the wrong length")).

(** ** A command line for any arguments *)

Definition flag_value (k : FlagKind) (v : bytes) : list bytes := [str_bytes (flag_of k); v].
Definition on_off_text (b : bool) : bytes := str_bytes (if b then "on" else "off").

Definition render_args (a : Args) : list bytes :=
  a_cmd a
  :: flag_value FkDataDir (a_data_dir a)
  ++ flag_value FkMode (mode_as_str (a_mode a))
  ++ from_option (λ n, flag_value FkTtl (decimal 10 n)) [] (a_ttl a)
  ++ from_option (λ n, flag_value FkItem (decimal 10 n)) [] (a_item a)
  ++ from_option (λ b, flag_value FkScreenshot (on_off_text b)) [] (a_screenshot a)
  ++ from_option (λ b, flag_value FkAttachDownload (on_off_text b)) [] (a_attach_download a)
  ++ concat ((λ tv, flag_value (FkText tv.1) tv.2) <$> map_to_list (a_texts a))
  ++ ((λ s, str_bytes (switch_flag s)) <$> elements (a_switches a)).

Definition args_wf (a : Args) : Prop :=
  from_option is_u32 True (a_ttl a) ∧ from_option is_u16 True (a_item a).

Lemma parse_uint_decimal max n :
  0 ≤ n ≤ max → n < 10 ^ 10 → parse_uint max (decimal 10 n) = Some n.
Proof.
  intros Hn Hlt. unfold parse_uint.
  assert (Hd : match decimal 10 n with b :: _ :: _ => if bz b =? 43 then tail (decimal 10 n) else decimal 10 n
               | _ => decimal 10 n end = decimal 10 n).
  { pose proof (decimal_digits 10 n) as Hf. destruct (decimal 10 n) as [|b [|c l]]; [done..|].
    apply Forall_cons in Hf as [Hb _]. by rewrite (proj2 (Z.eqb_neq (bz b) 43)) by lia. }
  rewrite Hd, dec_val_decimal by (cbn; lia). rewrite decimal_is_digit.
  rewrite bool_decide_true by (intros H; apply (f_equal length) in H; rewrite length_decimal in H; done).
  by rewrite (proj2 (Z.leb_le n max)) by lia.
Qed.

Lemma parse_on_off_text b : parse_on_off (on_off_text b) = Ok b.
Proof. by destruct b. Qed.

(** One flag with its value, whatever the value looks like. *)
Lemma parse_value k v rest a a' :
  (∀ s, k ≠ FkSwitch s) → set_value k v a = Ok a' → parse_flags (flag_value k v ++ rest) a = parse_flags rest a'.
Proof.
  intros Hk Hv. unfold flag_value. cbn [app parse_flags]. rewrite flag_kind_of.
  destruct k as [s| | | | | | |]; [by destruct (Hk s)|by rewrite Hv..].
Qed.
Lemma parse_opt {A} (f : A → bytes) k (o : option A) a a' rest :
  (∀ s, k ≠ FkSwitch s) → match o with Some x => set_value k (f x) a = Ok a' | None => a = a' end →
  parse_flags (from_option (λ x, flag_value k (f x)) [] o ++ rest) a = parse_flags rest a'.
Proof. intros Hk Hs. destruct o as [x|]; [by apply parse_value|by subst]. Qed.

Definition with_texts (m : gmap TextOpt bytes) (a : Args) : Args :=
  mkArgs (a_cmd a) (a_data_dir a) (a_mode a) (a_ttl a) (a_item a) (a_screenshot a) (a_attach_download a) m (a_switches a).
Definition with_switches (s : gset Switch) (a : Args) : Args :=
  mkArgs (a_cmd a) (a_data_dir a) (a_mode a) (a_ttl a) (a_item a) (a_screenshot a) (a_attach_download a) (a_texts a) s.

Lemma parse_texts l rest a :
  NoDup l.*1 →
  parse_flags (concat ((λ tv, flag_value (FkText tv.1) tv.2) <$> l) ++ rest) a
  = parse_flags rest (with_texts (list_to_map l ∪ a_texts a) a).
Proof.
  revert a. induction l as [|[k v] l IH]; intros a Hn.
  - cbn. rewrite (left_id_L ∅ (∪)). by destruct a.
  - cbn in Hn. apply NoDup_cons in Hn as [Hk Hn]. cbn [fmap list_fmap concat]. rewrite <- app_assoc.
    rewrite (parse_value _ v _ a (with_texts (<[k := v]> (a_texts a)) a)) by done. rewrite IH by done. f_equal.
    unfold with_texts. cbn. f_equal. rewrite <- insert_union_r, insert_union_l; [done|].
    by apply not_elem_of_list_to_map_1.
Qed.

Lemma parse_switches l a :
  parse_flags ((λ s, str_bytes (switch_flag s)) <$> l) a = Ok (with_switches (list_to_set l ∪ a_switches a) a).
Proof.
  revert a. induction l as [|s l IH]; intros a.
  - cbn. rewrite (left_id_L ∅ (∪)). by destruct a.
  - cbn [fmap list_fmap parse_flags]. pose proof (flag_kind_of (FkSwitch s)) as H.
    cbn [flag_of] in H. rewrite H, IH. f_equal.
    unfold with_switches, set_switch. cbn. f_equal. set_solver.
Qed.

(** Every set of arguments has a command line: whatever command, texts,
    numbers, rules and switches, in range, the parser reads the rendered line
    back as exactly those arguments; in particular no value is taken for a
    flag, also when it looks like one. *)
Theorem args_roundtrip a : args_wf a → parse_args (render_args a) = Ok a.
Proof.
  destruct a as [c d m t i sc ad tx sw]. intros [Ht Hi]. cbn in Ht, Hi. unfold render_args, parse_args. 
  cbn [a_cmd a_data_dir a_mode a_ttl a_item a_screenshot a_attach_download a_texts a_switches].
  rewrite (parse_value FkDataDir _ _ _ (mkArgs c d Normal None None None None ∅ ∅)) by done.
  rewrite (parse_value FkMode _ _ _ (mkArgs c d m None None None None ∅ ∅)) by (done || (cbn; by rewrite mode_roundtrip)).
  rewrite (parse_opt _ FkTtl t _ (mkArgs c d m t None None None ∅ ∅)); [|done|].
  2:{ destruct t; cbn [set_value]; [|done]. by rewrite parse_uint_decimal by (unfold is_u32, u32_max in *; cbn in Ht; lia). }
  rewrite (parse_opt _ FkItem i _ (mkArgs c d m t i None None ∅ ∅)); [|done|].
  2:{ destruct i; cbn [set_value]; [|done]. by rewrite parse_uint_decimal by (unfold is_u16, u16_max in *; cbn in Hi; lia). }
  rewrite (parse_opt _ FkScreenshot sc _ (mkArgs c d m t i sc None ∅ ∅)); [|done|by destruct sc as [[]|]].
  rewrite (parse_opt _ FkAttachDownload ad _ (mkArgs c d m t i sc ad ∅ ∅)); [|done|by destruct ad as [[]|]].
  rewrite parse_texts by apply NoDup_fst_map_to_list. rewrite parse_switches. unfold with_switches, with_texts. cbn.
  by rewrite list_to_map_to_list, list_to_set_elements_L, !(right_id_L ∅ (∪)).
Qed.

Definition demo_args : Args :=
  mkArgs (str_bytes "policy") (str_bytes "/tmp/d") Saver (Some 3600) None (Some false) (Some true)
    {[ToRel := str_bytes "--to"; ToText := []]} {[SwPropose; SwOnce]}.
Lemma args_roundtrip_witness : parse_args (render_args demo_args) = Ok demo_args.
Proof. apply (args_roundtrip demo_args). by split. Defined.

(** A flag that needs a value takes the next argument, even a flag; the last
    occurrence wins; a sign is read, an overflow and an empty number are not. *)
Example demo_value_looks_like_flag :
  (λ a, (text_of ToTo a, text_of ToRel a, switch_on SwAlert a))
    <$> ok (parse_args (str_bytes <$> ["send"; "--to"; "--alert"; "--rel"; "a"; "--rel"; "b"]))
  = Some (Some (str_bytes "--alert"), Some (str_bytes "b"), false).
Proof. vm_compute. reflexivity. Qed.
Example demo_ttl_limits :
  (λ v, is_ok (parse_args (str_bytes <$> ["policy"; "--ttl"; v])))
    <$> ["4294967295"; "+7"; "4294967296"; ""; "-1"; "+"] = [true; true; false; false; false; false].
Proof. vm_compute. reflexivity. Qed.
Example demo_no_value : ok (parse_args (str_bytes <$> ["daemon"; "--mode"])) = None.
Proof. vm_compute. reflexivity. Qed.
