(* ===== verification/Transport.v ===== *)
(** The transport: its state ([core/src/transport/mod.rs]), onion hosting
    ([services.rs]), the policy knobs ([policy.rs]), bring-up, shutdown and
    the health loop ([lifecycle.rs]).

    One operation reads the clock once ([now] in seconds, [ms] in
    milliseconds). The control client
    is its command budget: the daemon behind it is [tr_tor]. *)

From S2P Require Import Prelude Bin RustStr Frame Limits RateLimit Heal Control Circumvention OnionKeys SendPool Conn TransportTypes Persona.

Record HostedEntry := mkHostedEntry {
  he_onion : bytes;
  he_state : ServiceState;
  he_target : bytes;
  he_client_auth : list bytes;
  he_published : bool;
}.

(** [tr_files] is the data directory; [tr_daemon] tells whether a daemon is
    configured, [tr_supervisor] whether the health task runs; [tr_sender] is
    the table of workers, its flags are those of the transport. *)
Record Transport (Tor : Type) := mkTransport {
  tr_status : TransportStatus;
  tr_events : list TransportEvent;
  tr_kill : bool;
  tr_online : bool;
  tr_shutdown : bool;
  tr_files : Files;
  tr_daemon : bool;
  tr_control : option TokenBucket;
  tr_limited : Counters;
  tr_sender : option Sender;
  tr_services : gmap bytes HostedEntry;
  tr_last_drain : option Z;
  tr_supervisor : bool;
  tr_tor : Tor;
}.
Arguments mkTransport {Tor}.
Arguments tr_status {Tor}.
Arguments tr_events {Tor}.
Arguments tr_kill {Tor}.
Arguments tr_online {Tor}.
Arguments tr_shutdown {Tor}.
Arguments tr_files {Tor}.
Arguments tr_daemon {Tor}.
Arguments tr_control {Tor}.
Arguments tr_limited {Tor}.
Arguments tr_sender {Tor}.
Arguments tr_services {Tor}.
Arguments tr_last_drain {Tor}.
Arguments tr_supervisor {Tor}.
Arguments tr_tor {Tor}.

Section Setters.
Context {Tor : Type}.
Implicit Types t : Transport Tor.

Definition set_status t s evs : Transport Tor :=
  mkTransport s (tr_events t ++ evs) (tr_kill t) (tr_online t) (tr_shutdown t) (tr_files t) (tr_daemon t)
    (tr_control t) (tr_limited t) (tr_sender t) (tr_services t) (tr_last_drain t) (tr_supervisor t) (tr_tor t).
Definition set_kill t b files : Transport Tor :=
  mkTransport (tr_status t) (tr_events t) b (tr_online t) (tr_shutdown t) files (tr_daemon t)
    (tr_control t) (tr_limited t) (tr_sender t) (tr_services t) (tr_last_drain t) (tr_supervisor t) (tr_tor t).
Definition set_online t b : Transport Tor :=
  mkTransport (tr_status t) (tr_events t) (tr_kill t) b (tr_shutdown t) (tr_files t) (tr_daemon t)
    (tr_control t) (tr_limited t) (tr_sender t) (tr_services t) (tr_last_drain t) (tr_supervisor t) (tr_tor t).
Definition set_files t files : Transport Tor := set_kill t (tr_kill t) files.
Definition set_shutdown t shutdown supervisor : Transport Tor :=
  mkTransport (tr_status t) (tr_events t) (tr_kill t) (tr_online t) shutdown (tr_files t) (tr_daemon t)
    (tr_control t) (tr_limited t) (tr_sender t) (tr_services t) (tr_last_drain t) supervisor (tr_tor t).
Definition set_daemon t : Transport Tor :=
  mkTransport (tr_status t) (tr_events t) (tr_kill t) (tr_online t) (tr_shutdown t) (tr_files t) true
    (tr_control t) (tr_limited t) (tr_sender t) (tr_services t) (tr_last_drain t) (tr_supervisor t) (tr_tor t).
Definition set_control t control limited tor : Transport Tor :=
  mkTransport (tr_status t) (tr_events t) (tr_kill t) (tr_online t) (tr_shutdown t) (tr_files t) (tr_daemon t)
    control limited (tr_sender t) (tr_services t) (tr_last_drain t) (tr_supervisor t) tor.
Definition set_tor t tor : Transport Tor := set_control t (tr_control t) (tr_limited t) tor.
Definition set_sender t sender : Transport Tor :=
  mkTransport (tr_status t) (tr_events t) (tr_kill t) (tr_online t) (tr_shutdown t) (tr_files t) (tr_daemon t)
    (tr_control t) (tr_limited t) sender (tr_services t) (tr_last_drain t) (tr_supervisor t) (tr_tor t).
Definition set_services t services : Transport Tor :=
  mkTransport (tr_status t) (tr_events t) (tr_kill t) (tr_online t) (tr_shutdown t) (tr_files t) (tr_daemon t)
    (tr_control t) (tr_limited t) (tr_sender t) services (tr_last_drain t) (tr_supervisor t) (tr_tor t).
Definition set_last_drain t d : Transport Tor :=
  mkTransport (tr_status t) (tr_events t) (tr_kill t) (tr_online t) (tr_shutdown t) (tr_files t) (tr_daemon t)
    (tr_control t) (tr_limited t) (tr_sender t) (tr_services t) d (tr_supervisor t) (tr_tor t).

(** ** Status *)

Definition stamped (s : TransportStatus) (now : Z) : TransportStatus :=
  mkTStatus (ts_tor s) (ts_services s) (ts_outbox s) (ts_inbox s) (ts_kill_switch s) (ts_mode s)
    (ts_last_error s) now.
Definition update_status (now : Z) (f : TransportStatus → TransportStatus) t : Transport Tor :=
  let s := stamped (f (tr_status t)) now in set_status t s [EvStatus s].

Definition with_tor (tor : TorState) (s : TransportStatus) : TransportStatus :=
  mkTStatus tor (ts_services s) (ts_outbox s) (ts_inbox s) (ts_kill_switch s) (ts_mode s) (ts_last_error s)
    (ts_updated_at s).
Definition with_services (services : list ServiceStatus) (s : TransportStatus) : TransportStatus :=
  mkTStatus (ts_tor s) services (ts_outbox s) (ts_inbox s) (ts_kill_switch s) (ts_mode s) (ts_last_error s)
    (ts_updated_at s).
Definition with_boxes (o : OutboxStatus) (i : InboxStatus) (s : TransportStatus) : TransportStatus :=
  mkTStatus (ts_tor s) (ts_services s) o i (ts_kill_switch s) (ts_mode s) (ts_last_error s) (ts_updated_at s).
Definition with_kill (on : bool) (s : TransportStatus) : TransportStatus :=
  mkTStatus (ts_tor s) (ts_services s) (ts_outbox s) (ts_inbox s) on (ts_mode s) (ts_last_error s)
    (ts_updated_at s).
Definition with_mode (m : OnionMode) (s : TransportStatus) : TransportStatus :=
  mkTStatus (ts_tor s) (ts_services s) (ts_outbox s) (ts_inbox s) (ts_kill_switch s) m (ts_last_error s)
    (ts_updated_at s).
Definition with_error (e : Detail) (s : TransportStatus) : TransportStatus :=
  mkTStatus (ts_tor s) (ts_services s) (ts_outbox s) (ts_inbox s) (ts_kill_switch s) (ts_mode s) (Some e)
    (ts_updated_at s).

Definition set_tor_state (now : Z) (tor : TorState) t := update_status now (with_tor tor) t.
Definition set_mode (now : Z) (m : OnionMode) t := update_status now (with_mode m) t.

Definition note_inbound (now : Z) t : Transport Tor :=
  update_status now (λ s, with_boxes (ts_outbox s)
    (mkInboxStatus (sat_add32 (is_pending (ts_inbox s)) 1) (is_last_drain_secs_ago (ts_inbox s))) s) t.
Definition note_inbound_drain (now : Z) t : Transport Tor :=
  update_status now (λ s, with_boxes (ts_outbox s) (mkInboxStatus 0 (Some 0)) s) (set_last_drain t (Some now)).
Definition last_drain_secs_ago (now : Z) t : option Z := (λ d, sat_sub now d) <$> tr_last_drain t.

Definition service_status (kv : bytes * HostedEntry) : ServiceStatus :=
  mkServiceStatus kv.1 (Some (he_onion kv.2)) (he_state kv.2).
Definition refresh_services_status (now : Z) t : Transport Tor :=
  update_status now (with_services (service_status <$> map_to_list (tr_services t))) t.

(** The task between a listener and the core: a drop goes out, is counted,
    and the first sight of an alert is an arrival. *)
Definition pump_drop (now : Z) (d : InboundDrop) t : Transport Tor :=
  let t := note_inbound now t in
  if of_alert (id_frame d) && id_first_sight d
  then set_status t (tr_status t) [EvArrival (id_service_id d)] else t.
End Setters.

Section Transport.
Context {Tor : Type} `{!ControlPort Tor, !TorDaemon Tor}.
Context (io_error : bytes → option Detail) (data_dir : bytes).
Context {oc : OnionCrypto}.
(** The attempts to attach that fit into thirty seconds, less one. *)
Context (attach_tries : nat).
Implicit Types t : Transport Tor.

Definition keys_dir : bytes := path_join data_dir (str_bytes "keys").
Definition own_auth_dir : bytes := path_join data_dir (str_bytes "client_auth").

Definition transport_new (files : Files) (tor : Tor) : Transport Tor :=
  mkTransport status_default [] (kill_load io_error files data_dir) false false files false None ∅ None ∅
    None false tor.

Definition attach_tor t : Transport Tor := set_daemon t.

(** An operation of the control client, when there is one. *)
Definition on_control {A} (f : ControlClient Tor → ControlClient Tor * A) (budget : TokenBucket) t
    : Transport Tor * A :=
  let '(c, a) := f (mkClient (tr_tor t) budget (tr_limited t)) in
  (set_control t (Some (cl_budget c)) (cl_limited c) (cl_tor c), a).

Definition not_attached : TransportError := TrControl (Lit "not attached").

(** ** [policy.rs] *)

Definition disable_network (on : bool) : list (bytes * bytes) :=
  [(str_bytes "DisableNetwork", flag_value on)].

Definition set_kill_switch (now : Z) (on : bool) t : Transport Tor * result TransportError unit :=
  let '(files, flag, r) := kill_set io_error (tr_files t) data_dir (tr_kill t) on in
  let t := set_kill t flag files in
  match r with
  | Err e => (t, Err e)
  | Ok _ =>
      let t := update_status now (with_kill on) t in
      let '(t, r) :=
        match tr_control t with
        | Some budget => on_control (λ c, setconf tor_exec now c (disable_network on)) budget t
        | None => (t, Ok tt)
        end in
      match r with
      | Err e => (t, Err e)
      | Ok _ => (if on then t else set_tor_state now TsStarting t, Ok tt)
      end
  end.

Definition apply_circumvention (now : Z) (config : CircumventionConfig) t
    : Transport Tor * result TransportError (option bytes) :=
  match validate config with
  | Err e => (t, Err e)
  | Ok _ =>
      match tr_control t with
      | None => (t, Err not_attached)
      | Some budget =>
          on_control (λ c,
            let '(c, _) := resetconf tor_exec now c MANAGED_KEYS in
            let '(c, r) := setconf tor_exec now c (setconf_pairs config) in
            (c, let* _ := r in Ok (pt_warning config))) budget t
      end
  end.

Definition on_network_changed (now : Z) (has_path : bool) t : Transport Tor * result TransportError unit :=
  match tr_control t with
  | None => (t, Ok tt)
  | Some budget =>
      let '(t, r) := on_control (λ c, setconf tor_exec now c (disable_network true)) budget t in
      match r with
      | Err e => (t, Err e)
      | Ok _ =>
          if has_path then
            match tr_control t with
            | Some budget => on_control (λ c, setconf tor_exec now c (disable_network false)) budget t
            | None => (t, Ok tt)
            end
          else (set_tor_state now (TsDegraded (Lit "network path lost")) (set_online t false), Ok tt)
      end
  end.

(** ** [lifecycle.rs]: publishing *)

Definition published_entry (e : HostedEntry) : HostedEntry :=
  mkHostedEntry (he_onion e) Reachable (he_target e) (he_client_auth e) true.

(** One iteration of the loop of [publish_pending]. *)
Definition publish_one (now : Z) (budget : TokenBucket) t (entry : bytes * HostedEntry)
    : TokenBucket * Transport Tor :=
  let '(service_id, e) := entry in
  let '(c, files, r) :=
    manager_host tor_exec io_error keys_dir now
      (mkClient (tr_tor t) budget (tr_limited t)) (tr_files t) service_id (he_target e) (he_client_auth e) in
  let t := set_control (set_files t files) (Some (cl_budget c)) (cl_limited c) (cl_tor c) in
  (cl_budget c,
   match r with
   | Ok _ => set_services t (alter published_entry service_id (tr_services t))
   | Err _ => update_status now (with_error (Lit "publish {service_id}: {e}")) t
   end).

Definition pending_services t : list (bytes * HostedEntry) :=
  filter (λ kv, he_published kv.2 = false) (map_to_list (tr_services t)).

Definition publish_pending (now : Z) t : Transport Tor :=
  if negb (tr_online t) then t
  else
    match pending_services t with
    | [] => t
    | entries =>
        match tr_control t with
        | None => t
        | Some budget =>
            refresh_services_status now
              (snd (foldl (λ bt entry, publish_one now bt.1 bt.2 entry) (budget, t) entries))
        end
    end.

(** ** [services.rs] *)

(** [InboundListener::bind] gives the local port, as text, or fails; [seed] is
    the randomness of a new key. *)
Definition host_service_with_auth (now : Z) (bind : result TransportError bytes) (seed : bytes)
    (service_id : bytes) (client_auth : list bytes) t : Transport Tor * result TransportError bytes :=
  match bind with
  | Err e => (t, Err e)
  | Ok port =>
      let target := str_bytes "127.0.0.1:" ++ port in
      let store_key := ONION_KEY_PREFIX ++ service_id in
      let '(t, r) :=
        match key_get io_error keys_dir (tr_files t) store_key with
        | Err e => (t, Err e)
        | Ok (Some blob) => (t, let* host := hostname_from_key_blob blob in Ok (host ++ str_bytes ".onion"))
        | Ok None =>
            let '(blob, hostname) := key_blob_from_seed seed in
            let '(files, w) := key_put io_error keys_dir (tr_files t) store_key blob in
            (set_files t files, let* _ := w in Ok (hostname ++ str_bytes ".onion"))
        end in
      match r with
      | Err e => (t, Err e)
      | Ok onion =>
          let t := set_services t (<[service_id := mkHostedEntry onion Publishing target client_auth false]>
                                     (tr_services t)) in
          (publish_pending now (refresh_services_status now t), Ok onion)
      end
  end.

(** [keys] is what [ClientAuthKeys::generate] draws. *)
Definition host_service (now : Z) (bind : result TransportError bytes) (seed : bytes) (keys : ClientAuthKeys)
    (service_id : bytes) (restricted : bool) t : Transport Tor * result TransportError bytes :=
  if restricted then
    let '(files, r) := key_put io_error keys_dir (tr_files t) (str_bytes "client-auth/" ++ service_id)
                         (private_b32 keys) in
    let t := set_files t files in
    match r with
    | Err e => (t, Err e)
    | Ok _ => host_service_with_auth now bind seed service_id [public_b32 keys] t
    end
  else host_service_with_auth now bind seed service_id [] t.

Definition remove_service (now : Z) (service_id : bytes) t : Transport Tor * result TransportError unit :=
  let tor_id :=
    e ← tr_services t !! service_id;
    if he_published e then Some (trim_end_matches (length (he_onion e)) (str_bytes ".onion") (he_onion e))
    else None in
  let '(t, r) :=
    match tor_id with
    | None => (t, Ok tt)
    | Some tor_id =>
        match tr_control t with
        | None => (t, Err not_attached)
        | Some budget => on_control (λ c, manager_remove tor_exec now c tor_id) budget t
        end
    end in
  match r with
  | Err e => (t, Err e)
  | Ok _ => (refresh_services_status now (set_services t (delete service_id (tr_services t))), Ok tt)
  end.

Definition install_client_auth (now : Z) (peer_onion private_b32 : bytes) t
    : Transport Tor * result TransportError unit :=
  let dir := if tr_daemon t then daemon_auth_dir else own_auth_dir in
  let '(files, r) := write_client_auth_file io_error (tr_files t) dir peer_onion private_b32 in
  let t := set_files t files in
  match r with
  | Err e => (t, Err e)
  | Ok _ =>
      match tr_control t with
      | None => (t, Ok tt)
      | Some budget =>
          on_control (λ c,
            let '(c, r) := setconf tor_exec now c [(str_bytes "ClientOnionAuthDir", dir)] in
            match r with
            | Err e => (c, Err e)
            | Ok _ => signal tor_exec now c (str_bytes "RELOAD")
            end) budget t
      end
  end.

Definition client_auth_private (service_id : bytes) t : result TransportError (option bytes) :=
  key_get io_error keys_dir (tr_files t) (str_bytes "client-auth/" ++ service_id).

(** ** [lifecycle.rs]: attaching *)

(** [ControlClient::connect]: dial, then authenticate. *)
Definition control_connect (now : Z) t : Transport Tor * result TransportError TokenBucket :=
  let '(tor, refused) := tor_dial (tr_tor t) in
  let t := set_tor t tor in
  match refused with
  | Some e => (t, Err (TrIo e))
  | None =>
      let '(c, r) := authenticate tor_exec now (client_new now tor (tr_limited t)) (control_auth tor) in
      (set_control t (tr_control t) (cl_limited c) (cl_tor c), let* _ := r in Ok (cl_budget c))
  end.
Fixpoint attach_loop (tries : nat) (now : Z) t : Transport Tor * result TransportError TokenBucket :=
  let '(t, r) := control_connect now t in
  match r, tries with
  | Err _, S tries => attach_loop tries now t
  | _, _ => (t, r)
  end.

Definition unpublished (e : HostedEntry) : HostedEntry :=
  mkHostedEntry (he_onion e) (he_state e) (he_target e) (he_client_auth e) false.

Definition connect_control (now : Z) t : Transport Tor * result TransportError unit :=
  let '(t, r) := attach_loop attach_tries now t in
  match r with
  | Err e => (t, Err e)
  | Ok budget =>
      let t := set_control t (Some budget) (tr_limited t) (tr_tor t) in
      let t := set_services t (unpublished <$> tr_services t) in
      (set_sender t (Some (sender_new (tr_kill t) (tr_online t))), Ok tt)
  end.

Definition WATCHED : list bytes := str_bytes <$> ["HS_DESC"; "STATUS_GENERAL"; "CIRC"].

(** A command on the control connection just made; the error when there is
    none (the callers have one). *)
Definition with_control {A} (f : ControlClient Tor → ControlClient Tor * result TransportError A) t
    : Transport Tor * result TransportError A :=
  match tr_control t with
  | Some budget => on_control f budget t
  | None => (t, Err not_attached)
  end.

Definition start (now : Z) t : Transport Tor * result TransportError unit :=
  if tr_supervisor t then (t, Ok tt)
  else
    let t := set_shutdown t false (tr_supervisor t) in
    if negb (tr_daemon t) then (t, Err (TrControl (Lit "no daemon configured")))
    else
      let t := set_tor_state now TsStarting t in
      let '(tor, r) := daemon_start (tr_tor t) in
      let t := set_tor t tor in
      match r with
      | Err e => (t, Err e)
      | Ok _ =>
          let '(t, r) := connect_control now t in
          match r with
          | Err e => (t, Err e)
          | Ok _ =>
              let '(t, r) := with_control (λ c, setevents tor_exec now c WATCHED) t in
              match r with
              | Err e => (t, Err e)
              | Ok _ =>
                  let '(t, r) :=
                    if tr_kill t then
                      let t := update_status now (with_kill true) t in
                      let '(t, r) := with_control (λ c, setconf tor_exec now c (disable_network true)) t in
                      match r with
                      | Err e => (t, Err e)
                      | Ok _ => (set_tor_state now TsOff t, Ok tt)
                      end
                    else (t, Ok tt) in
                  match r with
                  | Err e => (t, Err e)
                  | Ok _ => (set_shutdown (publish_pending now t) false true, Ok tt)
                  end
              end
          end
      end.

Definition stop (now : Z) t : Transport Tor :=
  let t := set_shutdown t true false in
  let t := if tr_daemon t then set_tor t (fst (daemon_stop (tr_tor t))) else t in
  set_tor_state now TsOff (set_online t false).

(** ** [lifecycle.rs]: the health loop *)

(** [hs_tx.send(!failed)] of the event pump. *)
Definition contains (needle l : bytes) : bool :=
  existsb (λ i, bool_decide (take (length needle) (drop i l) = needle)) (seq 0 (S (length l))).
Definition hs_report (ev : TorEvent) : option bool :=
  match ev with
  | HsDesc action _ =>
      let failed := contains (str_bytes "FAILED") action in
      let uploaded := bool_decide (action = str_bytes "UPLOADED") in
      if failed || uploaded then Some (negb failed) else None
  | _ => None
  end.

(** [now_secs] beside [now_millis]. *)
Definition secs (ms : Z) : Z := ms / 1000.

(** The variables of [health_loop]. *)
Record Health := mkHealth {
  h_ladder : HealLadder;
  h_restarts : list Z;
  h_hs : HsHealth;
  h_window_start : Z;
  h_connect_fails : Z;
}.
Definition health_new (now : Z) : Health := mkHealth ladder_new [] hs_default (now * 1000) 0.

Definition run_heal (ms : Z) (h : Health) (reason : Detail) t : Health * Transport Tor :=
  let now := secs ms in
  let '(ladder, action) := escalate (h_ladder h) ms in
  let h := mkHealth ladder (h_restarts h) (h_hs h) (h_window_start h) (h_connect_fails h) in
  match action with
  | None => (h, t)
  | Some action =>
      let t := update_status now (with_error (Lit "heal {action:?}: {reason}")) t in
      match action with
      | Reload => (h, fst (with_control (λ c, signal tor_exec now c (str_bytes "RELOAD")) t))
      | Newnym => (h, fst (with_control (λ c, signal tor_exec now c (str_bytes "NEWNYM")) t))
      | Restart =>
          let '(restarts, ok) := record_restart (h_restarts h) ms in
          let h := mkHealth (h_ladder h) restarts (h_hs h) (h_window_start h) (h_connect_fails h) in
          if ok then (h, set_tor t (fst (daemon_restart (tr_tor t))))
          else (h, set_tor_state now (TsDead (Lit "restart budget exhausted ({reason})")) t)
      end
  end.

(** The subprocess is gone: restart it at once, within the budget. *)
Definition heal_exit (ms : Z) (h : Health) t : Health * Transport Tor * bool :=
  let now := secs ms in
  let t := set_tor_state now (TsDegraded (Lit "tor subprocess exited")) (set_online t false) in
  let '(restarts, ok) := record_restart (h_restarts h) ms in
  let h := mkHealth (h_ladder h) restarts (h_hs h) (h_window_start h) 0 in
  if ok then
    let t := set_tor t (fst (daemon_restart (tr_tor t))) in
    let '(t, r) := connect_control now t in
    match r with
    | Ok _ => (h, fst (with_control (λ c, setevents tor_exec now c WATCHED) t), true)
    | Err _ => (h, t, true)
    end
  else
    (h, set_tor_state now (TsDead (Lit "restart budget exhausted (tor subprocess exited)")) t, false).

(** The window of descriptor health. *)
Definition hs_window (ms : Z) (reports : list bool) (h : Health) t : Health * Transport Tor :=
  let now := secs ms in
  let hs := foldl (λ hs up, if (up : bool) then record_uploaded hs else record_failed hs) (h_hs h) reports in
  let h := mkHealth (h_ladder h) (h_restarts h) hs (h_window_start h) (h_connect_fails h) in
  if sat_sub (now * 1000) (h_window_start h) >=? HS_WINDOW_MS then
    let '(escalate, healthy) := hs_evaluate hs in
    let h := mkHealth (if healthy then ladder_reset (h_ladder h) else h_ladder h) (h_restarts h) hs_default
               (now * 1000) (h_connect_fails h) in
    if escalate then run_heal ms h (Lit "hs_desc failures") t else (h, t)
  else (h, t).

Definition is_online_state (s : TorState) : bool := match s with TsOnline => true | _ => false end.

(** The poll answered: online from 100 percent on. *)
Definition poll_ok (now pct : Z) (h : Health) t : Health * Transport Tor :=
  let h := mkHealth (h_ladder h) (h_restarts h) (h_hs h) (h_window_start h) 0 in
  if pct >=? 100 then
    let t := fst (with_control (circuit_established tor_exec now) t) in
    let h := if tr_online t then h
             else mkHealth (ladder_reset (h_ladder h)) (h_restarts h) (h_hs h) (h_window_start h) 0 in
    let t := set_online t true in
    let t := if is_online_state (ts_tor (tr_status t)) then t else set_tor_state now TsOnline t in
    (h, publish_pending now t)
  else (h, set_tor_state now (TsBootstrapping pct) (set_online t false)).

(** The poll failed: heal after six in a row, and attach again. *)
Definition poll_err (ms : Z) (h : Health) t : Health * Transport Tor :=
  let now := secs ms in
  let fails := h_connect_fails h + 1 in
  let h := mkHealth (h_ladder h) (h_restarts h) (h_hs h) (h_window_start h) fails in
  let t := set_tor_state now (TsDegraded (Lit "{reason}")) (set_online t false) in
  if fails >=? HEAL_CONNECT_FAILS then
    let '(h, t) := run_heal ms h (Lit "control poll failures: {reason}") t in
    let h := mkHealth (h_ladder h) (h_restarts h) (h_hs h) (h_window_start h) 0 in
    let '(t, r) := connect_control now t in
    match r with
    | Ok _ => (h, publish_pending now (fst (with_control (λ c, setevents tor_exec now c WATCHED) t)))
    | Err _ => (h, t)
    end
  else (h, t).

Definition rollup (now : Z) t : Transport Tor :=
  let queued := from_option dest_count 0 (tr_sender t) in
  update_status now (λ s, with_boxes (mkOutboxStatus (wrap32 queued) 0 None)
    (mkInboxStatus (is_pending (ts_inbox s)) (last_drain_secs_ago now t)) s) t.

(** One iteration of [health_loop]; [false] when it returns. *)
Definition health_tick (ms : Z) (reports : list bool) (h : Health) t : Health * Transport Tor * bool :=
  let now := secs ms in
  if tr_shutdown t then (h, t, false)
  else if tr_kill t then (h, set_tor_state now TsOff (set_online t false), true)
  else
    let '(tor, exited) := unexpected_exit (tr_tor t) in
    let t := set_tor t tor in
    if exited then heal_exit ms h t
    else
      let '(h, t) := hs_window ms reports h t in
      let '(t, r) := with_control (bootstrap_progress tor_exec now) t in
      let '(h, t) :=
        match r with
        | Ok pct => poll_ok now pct h t
        | Err _ => poll_err ms h t
        end in
      (h, rollup now t, true).
End Transport.
