(* ===== verification/TransportFacts.v ===== *)
(** Theorems of the transport: the kill switch, the stable onion addresses,
    the publishing of services and the supervision of the daemon. *)

From S2P Require Import Prelude Bin RustStr Frame Limits RateLimit Heal Hex Control Circumvention OnionKeys SendPool Conn TransportTypes Transport.

Section Facts.
Context {Tor : Type} `{!ControlPort Tor, !TorDaemon Tor}.
Context (io_error : bytes → option Detail) (data_dir : bytes).
Context {oc : OnionCrypto}.
Context (attach_tries : nat).
Implicit Types t : Transport Tor.

#[local] Abbreviation set_kill_switch := (Transport.set_kill_switch (Tor := Tor) io_error data_dir).
#[local] Abbreviation health_tick := (Transport.health_tick (Tor := Tor) io_error data_dir attach_tries).
#[local] Abbreviation publish_pending := (Transport.publish_pending (Tor := Tor) io_error data_dir).
#[local] Abbreviation host_service_with_auth := (Transport.host_service_with_auth (Tor := Tor) io_error data_dir).

(** ** Commands *)

Lemma cmd_Ok now (c c' : ControlClient Tor) command reply :
  cmd tor_exec now c command = (c', Ok reply) →
  tor_exec (cl_tor c) command = (cl_tor c', Replied (Ok reply)) ∧ reply_is_ok reply = true.
Proof.
  unfold cmd. destruct (bucket_check _ _) as [b []]; [|done].
  destruct (tor_exec (cl_tor c) command) as [tor o]. intros [= <- Ho]. cbn [cl_tor].
  destruct o as [| | |[r|]]; cbn in Ho; try done. destruct (reply_is_ok r) eqn:E; [|done].
  by injection Ho as ->.
Qed.

Lemma cmd_ok_Ok now (c c' : ControlClient Tor) command :
  cmd_ok tor_exec now c command = (c', Ok tt) →
  ∃ reply, tor_exec (cl_tor c) command = (cl_tor c', Replied (Ok reply)) ∧ reply_is_ok reply = true.
Proof.
  unfold cmd_ok. destruct (cmd _ _ _ _) as [c1 [r|]] eqn:E; [|done]. intros [= <-].
  exists r. by apply cmd_Ok in E.
Qed.

(** ** The kill switch *)

Lemma kill_tick ms reports h t h' t' go :
  tr_kill t = true → tr_shutdown t = false → health_tick ms reports h t = (h', t', go) →
  tr_online t' = false ∧ ts_tor (tr_status t') = TsOff ∧ tr_tor t' = tr_tor t ∧ tr_kill t' = true
  ∧ tr_shutdown t' = false ∧ go = true.
Proof. unfold Transport.health_tick. intros Hk Hs. rewrite Hs, Hk.
  by intros [[<- <-]%pair_equal_spec <-]%pair_equal_spec.
Qed.

(** C12: The kill switch fails closed: once engaging it has succeeded, the
    flag is on and persisted (a transport loaded from the same directory
    starts with it on), an attached daemon has acknowledged
    [DisableNetwork=1], every send through the pool is refused before any
    worker is touched, and every tick of the supervisor leaves the transport
    offline without a word to the daemon. *)
Theorem kill_switch_closed now t t' :
  (∀ p, io_error p = None) → set_kill_switch now true t = (t', Ok tt) →
  tr_kill t' = true
  ∧ (∀ tor : Tor, tr_kill (transport_new io_error data_dir (tr_files t') tor) = true)
  ∧ (is_Some (tr_control t) →
     ∃ reply, tor_exec (tr_tor t) (setconf_command (disable_network true)) = (tr_tor t', Replied (Ok reply))
              ∧ reply_is_ok reply = true)
  ∧ (∀ first_key normalize s dest,
       sd_kill s = tr_kill t' → sender_route first_key normalize s dest = (s, Err KillSwitch))
  ∧ (∀ ms reports h h' t'' go, tr_shutdown t' = false → health_tick ms reports h t' = (h', t'', go) →
       tr_online t'' = false ∧ ts_tor (tr_status t'') = TsOff ∧ tr_tor t'' = tr_tor t').
Proof.
  intros Hio. unfold Transport.set_kill_switch.
  destruct (kill_set _ _ _ _ _) as [[files flag] [[]|]] eqn:Ek; [|done].
  destruct (kill_switch_persists _ _ _ _ _ _ _ Hio Ek) as [-> Hl].
  assert (Hrest : ∀ t1, tr_kill t1 = true → tr_files t1 = files →
    tr_kill t1 = true
    ∧ (∀ tor : Tor, tr_kill (transport_new io_error data_dir (tr_files t1) tor) = true)
    ∧ (∀ first_key normalize s dest,
         sd_kill s = tr_kill t1 → sender_route first_key normalize s dest = (s, Err KillSwitch))
    ∧ (∀ ms reports h h' t'' go, tr_shutdown t1 = false → health_tick ms reports h t1 = (h', t'', go) →
         tr_online t'' = false ∧ ts_tor (tr_status t'') = TsOff ∧ tr_tor t'' = tr_tor t1)).
  { intros t1 Hk Hf. split_and!; [done| | |].
    - intros tor. cbn. by rewrite Hf.
    - intros fk nm s dest Hs. unfold sender_route. by rewrite Hs, Hk.
    - intros ms reports h h' t'' go Hs Ht. destruct (kill_tick _ _ _ _ _ _ _ Hk Hs Ht) as (? & ? & ? & _). done. }
  cbn [tr_control update_status set_status set_kill]. destruct (tr_control t) as [budget|] eqn:Ec.
  - unfold on_control, setconf. rewrite decide_False by done.
    destruct (cmd_ok _ _ _ _) as [c [[]|]] eqn:Eo; [|done]. intros [= <-].
    apply cmd_ok_Ok in Eo as (reply & He & Hr). cbn in He.
    destruct (Hrest (set_control (update_status now (with_kill true) (set_kill t true files)) (Some (cl_budget c))
                       (cl_limited c) (cl_tor c)) eq_refl eq_refl) as (H1 & H2 & H3 & H4).
    split_and!; [done|done|by eauto|done|done].
  - intros [= <-]. destruct (Hrest (update_status now (with_kill true) (set_kill t true files)) eq_refl eq_refl)
      as (H1 & H2 & H3 & H4). split_and!; [done|done|by intros [? ?]|done|done].
Qed.

(** A regained network path bounces the daemon's network whatever the
    kill switch says: when both commands are acknowledged, the last one is
    [DisableNetwork=0], and the kill switch is untouched. *)
Theorem roaming_reset now t t' :
  on_network_changed now true t = (t', Ok tt) → is_Some (tr_control t) →
  tr_kill t' = tr_kill t
  ∧ ∃ tor r1 r2,
      tor_exec (tr_tor t) (setconf_command (disable_network true)) = (tor, Replied (Ok r1))
      ∧ tor_exec tor (setconf_command (disable_network false)) = (tr_tor t', Replied (Ok r2)).
Proof.
  intros H [budget Hc]. unfold on_network_changed in H. rewrite Hc in H.
  unfold on_control, setconf in H. rewrite !decide_False in H by done.
  destruct (cmd_ok _ _ _ (setconf_command (disable_network true))) as [c1 [[]|]] eqn:E1; [|done].
  cbn [tr_control set_control] in H.
  destruct (cmd_ok _ _ _ (setconf_command (disable_network false))) as [c2 r2] eqn:E2.
  injection H as <- ->. apply cmd_ok_Ok in E1 as (p1 & H1 & _), E2 as (p2 & H2 & _).
  split; [done|]. by exists (cl_tor c1), p1, p2.
Qed.

(** ** Onion addresses *)

Definition key_path (service_id : bytes) : bytes :=
  path_join (keys_dir data_dir) (ONION_KEY_PREFIX ++ service_id).

(** Hosting through the manager never changes a key file that is there. *)
Lemma manager_host_files now c files service_id target auth c' files' r p v :
  manager_host (Tor := Tor) tor_exec io_error (keys_dir data_dir) now c files service_id target auth
  = (c', files', r) → files !! p = Some v → files' !! p = Some v.
Proof.
  unfold manager_host, key_get. destruct (path_for _ _) as [path|] eqn:Ep; cbn [rbind]; [|by intros [= <- <- <-]].
  unfold read_to_string. destruct (io_error path) eqn:Ei; cbn [rbind]; [by intros [= <- <- <-]|].
  destruct (files !! path) as [s|] eqn:Ef; [destruct (utf8_ok s)|]; cbn [rbind fmap option_fmap option_map]; [|by intros [= <- <- <-]|].
  - destruct (add_onion _ _ _ _ _ _) as [c1 [a|]]; by intros [= <- <- <-].
  - destruct (add_onion _ _ _ _ _ _) as [c1 [a|]]; [|by intros [= <- <- <-]].
    destruct (new_blob _); [|by intros [= <- <- <-]]. unfold key_put, write_file. rewrite Ep, Ei.
    intros [= <- <- <-] Hp. rewrite lookup_insert_ne; [done|]. intros ->. congruence.
Qed.

Lemma publish_one_files now budget t entry p v :
  tr_files t !! p = Some v →
  tr_files (publish_one io_error data_dir now budget t entry).2 !! p = Some v.
Proof.
  intros Hp. destruct entry as [id e]. unfold publish_one.
  destruct (manager_host _ _ _ _ _ _ _ _ _) as [[c files] r] eqn:E. apply manager_host_files with (p := p) (v := v) in E; [|done].
  by destruct r.
Qed.

Lemma publish_files now t p v : tr_files t !! p = Some v → tr_files (publish_pending now t) !! p = Some v.
Proof.
  intros Hp. unfold Transport.publish_pending. destruct (negb _); [done|].
  destruct (pending_services t) as [|e es] eqn:Ee; [done|]. rewrite <- Ee. destruct (tr_control t) as [budget|]; [|done].
  cbn [refresh_services_status update_status set_status tr_files].
  generalize (pending_services t) as l. clear Ee. intros l. revert t Hp budget.
  induction l as [|x l IH]; intros t Hp budget; [done|]. cbn [foldl fst snd].
  pose proof (publish_one_files now budget t x p v Hp) as H1.
  destruct (publish_one _ _ now budget t x) as [b1 t1]. by apply IH.
Qed.

Lemma graphic_utf8 l : forallb graphic l = true → utf8_ok l = true.
Proof.
  intros H. apply ascii_utf8_ok. rewrite forallb_forall in *. intros b Hb. specialize (H b Hb).
  unfold graphic, in_range, is_ascii in *. lia.
Qed.

Context {oc_laws : OnionCryptoLaws}.

(** The key file holds the key the address belongs to. *)
Definition key_names (files : Files) (service_id onion : bytes) : Prop :=
  ∃ s host, files !! key_path service_id = Some s ∧ hostname_from_key_blob (str_trim s) = Ok host
    ∧ onion = host ++ str_bytes ".onion".

(** A host call that answers leaves the key it answers for in the store. *)
Lemma host_key now bind seed service_id auth t t1 onion :
  host_service_with_auth now bind seed service_id auth t = (t1, Ok onion) →
  io_error (key_path service_id) = None
  ∧ path_for (keys_dir data_dir) (ONION_KEY_PREFIX ++ service_id) = Ok (key_path service_id)
  ∧ ∃ s host, tr_files t1 !! key_path service_id = Some s ∧ utf8_ok s = true
    ∧ hostname_from_key_blob (str_trim s) = Ok host ∧ onion = host ++ str_bytes ".onion".
Proof.
  unfold Transport.host_service_with_auth. destruct bind as [port0|]; [|done].
  unfold key_get, key_put. destruct (path_for _ _) as [path|] eqn:Ep; cbn [rbind]; [|done].
  assert (path = key_path service_id) as ->.
  { unfold path_for in Ep. destruct (_ || _); [done|]. by injection Ep as <-. }
  unfold read_to_string, write_file. destruct (io_error (key_path service_id)) eqn:Ei; cbn [rbind]; [done|].
  destruct (tr_files t !! key_path service_id) as [s|] eqn:Ef; [destruct (utf8_ok s) eqn:Eu|]; cbn [rbind fmap option_fmap option_map]; [|done|].
  - destruct (hostname_from_key_blob (str_trim s)) as [host|] eqn:Eh; cbn [rbind]; [|done]. intros [= <- <-].
    split_and!; [done..|]. exists s, host. split_and!; try done. by apply publish_files.
  - pose proof (key_blob_hostname seed) as Hh. pose proof (base64_graphic (clamp (okg_sha512 seed))) as Hg.
    change (okg_base64_encode _) with (key_blob_from_seed seed).1 in Hg.
    destruct (key_blob_from_seed seed) as [blob host]. cbn [rbind fst snd] in *. intros [= <- <-].
    split_and!; [done..|]. exists blob, host. split_and!; [|by apply graphic_utf8| |done].
    + apply publish_files. cbn. by rewrite lookup_insert_eq.
    + by rewrite str_trim_graphic.
Qed.

Lemma host_same_address now bind seed service_id auth t t1 onion now' port seed' auth' t2 :
  host_service_with_auth now bind seed service_id auth t = (t1, Ok onion) →
  tr_files t2 !! key_path service_id = tr_files t1 !! key_path service_id →
  snd (host_service_with_auth now' (Ok port) seed' service_id auth' t2) = Ok onion.
Proof.
  intros (Hio & Hp & s & host & Hs & Hu & Hh & ->)%host_key Hfiles. rewrite Hs in Hfiles.
  unfold Transport.host_service_with_auth, key_get, read_to_string.
  rewrite Hp. cbn [rbind]. rewrite Hio, Hfiles, Hu. cbn [rbind fmap option_fmap option_map]. by rewrite Hh.
Qed.

(** C25: A hosted service keeps its onion address: once a host call returned
    an address, the key file it left (a fresh one generated from the drawn
    seed, or the one that was there) is the key of that address, and every
    later host call of the same service returns the same address, with any
    client-auth list, port and randomness, on any transport whose directory
    still has that key file (after other operations, or after a restart of
    the program). *)
Theorem onion_address_stable now bind seed service_id auth t t1 onion now' port seed' auth' t2 :
  host_service_with_auth now bind seed service_id auth t = (t1, Ok onion) →
  tr_files t2 !! key_path service_id = tr_files t1 !! key_path service_id →
  key_names (tr_files t1) service_id onion
  ∧ snd (host_service_with_auth now' (Ok port) seed' service_id auth' t2) = Ok onion.
Proof.
  intros H Hf. split; [|by eapply host_same_address].
  apply host_key in H as (_ & _ & s & host & H1 & _ & H2 & H3). by exists s, host.
Qed.

(** ** Publishing *)

(** A daemon that accepts every command and names the service. *)
Definition accepting : Prop :=
  ∀ tor command, ∃ tor' reply,
    tor_exec tor command = (tor', Replied (Ok reply)) ∧ reply_is_ok reply = true
    ∧ is_Some (reply_get reply (str_bytes "ServiceID")).

(** The budget has at least [k] tokens. *)
Definition tokens_ok (k : Z) (b : TokenBucket) : Prop := bucket_wf b ∧ k ≤ tb_tokens b.

Lemma cmd_accepted now (c : ControlClient Tor) command k :
  accepting → is_u64 now → 0 ≤ k → tokens_ok (k + 1) (cl_budget c) →
  ∃ c' reply, cmd tor_exec now c command = (c', Ok reply) ∧ is_Some (reply_get reply (str_bytes "ServiceID"))
    ∧ tokens_ok k (cl_budget c').
Proof.
  intros Hacc Hn Hk [Hw Ht]. unfold cmd. destruct (check_tokens _ now k Hw Hn Hk Ht) as (Ha & Hl & Hw').
  destruct (bucket_check _ _) as [b al]. cbn in *. subst al.
  destruct (Hacc (cl_tor c) command) as (tor & reply & -> & Hr & Hs).
  eexists _, reply. cbn [cmd_result]. rewrite Hr. by split_and!.
Qed.

Lemma host_accepted now (c : ControlClient Tor) files service_id target auth blob k :
  accepting → is_u64 now → 0 ≤ k → tokens_ok (k + 2) (cl_budget c) →
  key_get io_error (keys_dir data_dir) files (ONION_KEY_PREFIX ++ service_id) = Ok (Some blob) →
  ∃ c' hosted,
    manager_host tor_exec io_error (keys_dir data_dir) now c files service_id target auth
    = (c', files, Ok hosted) ∧ tokens_ok k (cl_budget c').
Proof.
  intros Hacc Hn Hk Ht Hg. unfold manager_host. rewrite Hg.
  assert (Hd : ∃ c1, tokens_ok (k + 1) (cl_budget c1)
    ∧ (match hostname_from_key_blob blob with
       | Ok hostname => fst (del_onion tor_exec now c hostname)
       | Err _ => c
       end) = c1).
  { destruct (hostname_from_key_blob blob) as [hostname|].
    - destruct (cmd_accepted now c (str_bytes "DEL_ONION " ++ hostname) (k + 1)) as (c1 & r & H1 & _ & H2);
        [done|done|lia|by replace (k + 1 + 1) with (k + 2) by lia|].
      exists c1. split; [done|]. unfold del_onion, cmd_ok. by rewrite H1.
    - exists c. split; [|done]. destruct Ht. split; [done|lia]. }
  destruct Hd as (c1 & Ht1 & ->). unfold add_onion.
  destruct (cmd_accepted now c1 (add_onion_command (Some blob) target auth) k) as (c2 & r & -> & [sid Hs] & Ht2);
    [done|done|lia|done|].
  cbn [rbind]. rewrite Hs. cbn [ok_or rbind]. by eexists _, _.
Qed.

Lemma publish_one_accepted now budget t service_id e blob k :
  accepting → is_u64 now → 0 ≤ k → tokens_ok (k + 2) budget →
  key_get io_error (keys_dir data_dir) (tr_files t) (ONION_KEY_PREFIX ++ service_id) = Ok (Some blob) →
  ∃ b' t', publish_one io_error data_dir now budget t (service_id, e) = (b', t')
    ∧ tokens_ok k b' ∧ tr_files t' = tr_files t
    ∧ tr_services t' = alter published_entry service_id (tr_services t).
Proof.
  intros Hacc Hn Hk Ht Hg. unfold publish_one.
  destruct (host_accepted now (mkClient (tr_tor t) budget (tr_limited t)) (tr_files t) service_id (he_target e)
              (he_client_auth e) blob k) as (c' & hosted & -> & Ht'); [done..|].
  eexists _, _. split; [reflexivity|]. done.
Qed.

Lemma publish_all_accepted now l budget t :
  accepting → is_u64 now → tokens_ok (2 * len l) budget →
  (∀ x, x ∈ l → ∃ blob, key_get io_error (keys_dir data_dir) (tr_files t) (ONION_KEY_PREFIX ++ x.1) = Ok (Some blob)) →
  tr_services (foldl (λ bt entry, publish_one io_error data_dir now bt.1 bt.2 entry) (budget, t) l).2
  = foldl (λ m x, alter published_entry x.1 m) (tr_services t) l.
Proof.
  intros Hacc Hn. revert budget t. induction l as [|[id e] l IH]; intros budget t Ht Hk; [done|].
  rewrite len_cons in Ht. pose proof (len_nonneg l). cbn [foldl fst snd].
  destruct (Hk (id, e)) as [blob Hb]; [by left|].
  destruct (publish_one_accepted now budget t id e blob (2 * len l)) as (b' & t' & -> & Ht' & Hf & Hs);
    [done|done|lia|by replace (2 * len l + 2) with (2 * (1 + len l)) by lia|done|].
  rewrite IH, Hs; [done|done|]. intros x Hx. rewrite Hf. apply Hk. by right.
Qed.

Lemma published_lookup (l : list (bytes * HostedEntry)) (m : gmap bytes HostedEntry) id :
  foldl (λ m x, alter published_entry x.1 m) m l !! id
  = (if decide (id ∈ l.*1) then published_entry <$> m !! id else m !! id).
Proof.
  revert m. induction l as [|[k e] l IH]; intros m; [done|]. cbn [foldl fst]. rewrite IH. cbn [fmap list_fmap].
  destruct (decide (k = id)) as [->|Hne].
  - rewrite lookup_alter_eq, (decide_True (P := id ∈ id :: _)) by by left.
    case_decide; [|done]. by destruct (m !! id).
  - rewrite lookup_alter_ne by done. destruct (decide (id ∈ l.*1)).
    + by rewrite decide_True by (by right).
    + rewrite decide_False; [done|]. by intros [->|?]%elem_of_cons.
Qed.


(** ** Supervision *)

Lemma connect_services now t t' r :
  connect_control attach_tries now t = (t', r) →
  tr_services t' = (if is_ok r then unpublished <$> tr_services t else tr_services t)
  ∧ tr_kill t' = tr_kill t ∧ tr_online t' = tr_online t.
Proof.
  unfold connect_control.
  assert (Hl : ∀ n t t1 r1, attach_loop n now t = (t1, r1) →
    tr_services t1 = tr_services t ∧ tr_kill t1 = tr_kill t ∧ tr_online t1 = tr_online t).
  { clear. induction n as [|n IH]; intros t t1 r1; cbn [attach_loop]; unfold control_connect;
      destruct (tor_dial (tr_tor t)) as [tor [e|]]; try destruct (authenticate _ _ _ _) as [c [[]|]];
      cbn [rbind]; intros H; try (by injection H as <- <-); by apply IH in H. }
  destruct (attach_loop _ _ _) as [t1 r1] eqn:E. destruct (Hl _ _ _ _ E) as (H1 & H2 & H3).
  destruct r1 as [b|]; intros [= <- <-]; cbn; by rewrite ?H1.
Qed.
(** Publishing and the commands leave the link state alone. *)
Definition same_link t t' : Prop :=
  tr_online t' = tr_online t ∧ tr_kill t' = tr_kill t ∧ ts_tor (tr_status t') = ts_tor (tr_status t).

Lemma publish_one_link now budget t entry :
  same_link t (publish_one io_error data_dir now budget t entry).2.
Proof.
  destruct entry as [id e]. unfold publish_one. destruct (manager_host _ _ _ _ _ _ _ _ _) as [[c files] r].
  by destruct r.
Qed.

Lemma publish_link now t : same_link t (publish_pending now t).
Proof.
  unfold Transport.publish_pending. destruct (negb _); [done|].
  destruct (pending_services t) as [|e es] eqn:Ee; [done|]. rewrite <- Ee. destruct (tr_control t) as [budget|]; [|done].
  assert (Hf : ∀ l b t0, same_link t t0 →
    same_link t (foldl (λ bt entry, publish_one io_error data_dir now bt.1 bt.2 entry) (b, t0) l).2).
  { clear. induction l as [|x l IH]; intros b t0 H; [done|]. cbn [foldl fst snd].
    pose proof (publish_one_link now b t0 x) as H1. destruct (publish_one _ _ now b t0 x) as [b1 t1]. apply IH.
    destruct H as (? & ? & ?), H1 as (? & ? & ?). cbn in *. unfold same_link. split_and!; congruence. }
  destruct (Hf (pending_services t) budget t) as (H1 & H2 & H3); [done|]. done.
Qed.

Lemma with_control_link {A} (f : ControlClient Tor → ControlClient Tor * result TransportError A) t :
  same_link t (with_control f t).1.
Proof.
  unfold with_control. destruct (tr_control t); [|done]. unfold on_control. by destruct (f _).
Qed.

Definition is_down (s : TorState) : Prop :=
  match s with TsDegraded _ | TsDead _ => True | _ => False end.

Lemma run_heal_link ms h reason t :
  is_down (ts_tor (tr_status t)) →
  tr_online (run_heal ms h reason t).2 = tr_online t ∧ is_down (ts_tor (tr_status (run_heal ms h reason t).2)).
Proof.
  intros Hd. unfold run_heal. destruct (escalate _ _) as [l [[]|]]; cbn [fst snd]; [| | |done].
  1, 2: match goal with |- context [with_control ?f ?t0] =>
    destruct (with_control_link f t0) as (-> & _ & ->) end; done.
  destruct (record_restart _ _) as [r []]; done.
Qed.

Lemma connect_link now t : same_link t (connect_control attach_tries now t).1.
Proof.
  assert (Hl : ∀ n t, same_link t (attach_loop n now t).1).
  { clear. induction n as [|n IH]; intros t; cbn [attach_loop]; unfold control_connect;
      destruct (tor_dial (tr_tor t)) as [tor [e|]]; try destruct (authenticate _ _ _ _) as [c [[]|]];
      cbn [rbind]; try done; match goal with |- same_link _ (attach_loop n now ?t0).1 =>
        destruct (IH t0) as (H1 & H2 & H3) end; unfold same_link; by rewrite H1, H2, H3. }
  unfold connect_control. specialize (Hl attach_tries t). destruct (attach_loop _ _ _) as [t1 [b|]]; done.
Qed.

Lemma poll_err_link ms h t :
  let t' := (poll_err io_error data_dir attach_tries ms h t).2 in
  tr_online t' = false ∧ is_down (ts_tor (tr_status t')).
Proof.
  unfold poll_err. destruct (_ >=? _); [|done].
  match goal with |- context [run_heal ms ?h0 ?r0 ?t0] =>
    pose proof (run_heal_link ms h0 r0 t0 I) as [H1 H2]; destruct (run_heal ms h0 r0 t0) as [h1 t1] end.
  cbn [fst snd] in *. pose proof (connect_link (secs ms) t1) as (H3 & _ & H4).
  destruct (connect_control _ _ t1) as [t2 [[]|]]; cbn [fst snd] in *; [|by rewrite H3, H4, H1].
  match goal with |- context [Transport.publish_pending _ _ ?n ?t0] =>
    destruct (publish_link n t0) as (-> & _ & ->) end.
  match goal with |- context [with_control ?f t2] => destruct (with_control_link f t2) as (-> & _ & ->) end.
  by rewrite H3, H4, H1.
Qed.

Lemma poll_ok_link now pct h t :
  let t' := (poll_ok io_error data_dir now pct h t).2 in
  if pct >=? 100 then tr_online t' = true ∧ ts_tor (tr_status t') = TsOnline
  else tr_online t' = false ∧ ts_tor (tr_status t') = TsBootstrapping pct.
Proof.
  unfold poll_ok. destruct (pct >=? 100); [|done]. cbn [snd].
  match goal with |- context [Transport.publish_pending _ _ ?n ?t0] =>
    destruct (publish_link n t0) as (-> & _ & ->) end.
  match goal with |- context [is_online_state ?s] => destruct s eqn:E end; by cbn [is_online_state].
Qed.

(** C27: What a tick of the supervisor makes of the link: with the kill
    switch on it is off; a daemon found dead takes the transport offline and
    is restarted only while the budget of three in ten minutes lasts,
    otherwise the state is dead, nothing is restarted and the loop ends; a
    poll that answers decides between online (from 100 percent) and
    bootstrapping, and one that fails leaves it offline, degraded or dead. *)
Theorem supervisor_tick ms reports h t h' t' go tor exited :
  health_tick ms reports h t = (h', t', go) → tr_shutdown t = false →
  unexpected_exit (tr_tor t) = (tor, exited) →
  (tr_kill t = true → tr_online t' = false ∧ ts_tor (tr_status t') = TsOff)
  ∧ (tr_kill t = false → exited = true →
     tr_online t' = false ∧ go = snd (record_restart (h_restarts h) ms)
     ∧ (go = false → tr_tor t' = tor ∧ ∃ m, ts_tor (tr_status t') = TsDead m))
  ∧ (tr_kill t = false → exited = false →
     let r := (with_control (bootstrap_progress tor_exec (secs ms)) (hs_window ms reports h (set_tor t tor)).2).2 in
     go = true ∧
     match r with
     | Ok pct => if pct >=? 100 then tr_online t' = true ∧ ts_tor (tr_status t') = TsOnline
                 else tr_online t' = false ∧ ts_tor (tr_status t') = TsBootstrapping pct
     | Err _ => tr_online t' = false ∧ is_down (ts_tor (tr_status t'))
     end).
Proof.
  intros H Hs Hx. unfold Transport.health_tick in H. rewrite Hs, Hx in H.
  destruct (tr_kill t) eqn:Ek.
  { apply pair_equal_spec in H as [[<- <-]%pair_equal_spec <-]. by split_and!. }
  split; [done|]. destruct exited; split; intros _ ?; try done.
  - unfold heal_exit in H. destruct (record_restart (h_restarts h) ms) as [rs ok]. cbn [snd]. destruct ok.
    + match type of H with context [connect_control _ _ ?t0] =>
        pose proof (connect_link (secs ms) t0) as (H1 & _ & _); destruct (connect_control _ _ t0) as [t2 [[]|]] end;
        apply pair_equal_spec in H as [[<- <-]%pair_equal_spec <-]; cbn [fst] in *; [|by split_and!].
      match goal with |- context [with_control ?f t2] => destruct (with_control_link f t2) as (-> & _) end.
      by split_and!.
    + apply pair_equal_spec in H as [[<- <-]%pair_equal_spec <-]. split_and!; [done|done|].
      intros _. split; [done|]. by eexists.
  - cbn [snd]. destruct (hs_window _ _ _ _) as [h1 t1]. cbn [snd].
    destruct (with_control _ t1) as [t2 [pct|e]]; cbn [snd].
    + pose proof (poll_ok_link (secs ms) pct h1 t2) as Hp. destruct (poll_ok _ _ _ _ _ _) as [h2 t3].
      apply pair_equal_spec in H as [[<- <-]%pair_equal_spec <-]. split; [done|]. exact Hp.
    + pose proof (poll_err_link ms h1 t2) as Hp. destruct (poll_err _ _ _ _ _ _) as [h2 t3].
      apply pair_equal_spec in H as [[<- <-]%pair_equal_spec <-]. split; [done|]. exact Hp.
Qed.
End Facts.

(** ** A concrete daemon *)

(** An attached daemon that logs the commands and answers each with success,
    naming a service and a finished bootstrap. *)
Abbreviation DemoTor := (Attached (list bytes)).
Definition demo_reply : Reply :=
  mkReply 250 [str_bytes "ServiceID=abc"; str_bytes "status/bootstrap-phase=NOTICE PROGRESS=100"; str_bytes "OK"] [].
Definition demo_exec (tor : DemoTor) (command : bytes) : DemoTor * CmdOutcome :=
  (mkAttached (at_port tor ++ [command]) (at_auth tor), Replied (Ok demo_reply)).
#[local] Instance demo_port : ControlPort DemoTor := {| tor_dial t := (t, None); tor_exec := demo_exec |}.
#[local] Instance demo_daemon : TorDaemon DemoTor := attached_daemon (str_bytes "/auth").

Definition demo_no_error : bytes → option Detail := λ _, None.
Definition demo_dir : bytes := str_bytes "/data".
(** A codec and digests that keep the laws: hexadecimal text for Base64, and
    a digest of the first 64 bytes. *)
#[local] Instance demo_crypto : OnionCrypto := {|
  okg_base32 bs := hex_encode (take 4 bs);
  okg_sha3_256 bs := replicate 32 (zb (len bs));
  okg_sha512 bs := take 64 (bs ++ replicate 64 (zb 7));
  okg_base64_encode := hex_encode;
  okg_base64_decode s := match hex_decode s with Some (Ok bs) => Some bs | _ => None end;
  okg_basepoint_mul bs := reverse bs;
|}.
#[local] Instance demo_crypto_laws : OnionCryptoLaws.
Proof.
  split; cbn [okg_base64_decode okg_base64_encode okg_sha512 demo_crypto].
  - intros bs. by rewrite hex_decode_encode.
  - intros bs. pose proof (hex_encode_lower bs) as H. rewrite forallb_forall in *. intros b Hb.
    specialize (H b Hb). unfold lower_hex, graphic, in_range in *. lia.
  - intros bs. unfold len. rewrite length_take, length_app, length_replicate. lia.
Qed.
Definition demo_budget : TokenBucket := bucket_new 64 8 0.
Definition demo_transport : Transport DemoTor :=
  set_control (set_daemon (transport_new demo_no_error demo_dir ∅ (mkAttached [] NoAuth)))
    (Some demo_budget) ∅ (mkAttached [] NoAuth).

Definition killed : Transport DemoTor := fst (set_kill_switch demo_no_error demo_dir 1 true demo_transport).

Lemma kill_switch_closed_witness :
  set_kill_switch demo_no_error demo_dir 1 true demo_transport = (killed, Ok tt) ∧ tr_kill killed = true.
Proof.
  assert (H : set_kill_switch demo_no_error demo_dir 1 true demo_transport = (killed, Ok tt)).
  { rewrite (surjective_pairing (set_kill_switch _ _ _ _ _)). f_equal. }
  split; [exact H|].
  exact (proj1 (kill_switch_closed demo_no_error demo_dir 0 1 demo_transport killed (λ _, eq_refl) H)).
Defined.

Definition roamed : Transport DemoTor := fst (on_network_changed 2 true killed).

Lemma roaming_reset_witness :
  tr_kill roamed = true ∧ at_port (tr_tor roamed)
  = setconf_command <$> [disable_network true; disable_network true; disable_network false].
Proof.
  assert (H : on_network_changed 2 true killed = (roamed, Ok tt)).
  { rewrite (surjective_pairing (on_network_changed _ _ _)). f_equal. }
  split; [|reflexivity].
  exact (proj1 (roaming_reset 2 killed roamed H (ex_intro _ _ eq_refl))).
Defined.

Definition hosted : Transport DemoTor :=
  fst (host_service_with_auth demo_no_error demo_dir 1 (Ok (str_bytes "1")) []
         (str_bytes "svc") [] (set_online demo_transport true)).

Lemma onion_address_stable_witness :
  let onion := (key_blob_from_seed []).2 ++ str_bytes ".onion" in
  key_names demo_dir (tr_files hosted) (str_bytes "svc") onion
  ∧ snd (host_service_with_auth demo_no_error demo_dir 9 (Ok (str_bytes "2")) [zb 1]
           (str_bytes "svc") [str_bytes "pk"] hosted) = Ok onion.
Proof.
  intros onion. apply (onion_address_stable demo_no_error demo_dir 1 (Ok (str_bytes "1")) []
           (str_bytes "svc") [] (set_online demo_transport true) hosted).
  - rewrite (surjective_pairing (host_service_with_auth _ _ _ _ _ _ _ _)). f_equal.
  - reflexivity.
Defined.

Lemma demo_accepting : accepting (Tor := DemoTor).
Proof.
  intros tor command. eexists _, demo_reply. split; [reflexivity|]. split; [reflexivity|]. by eexists.
Qed.

(** The service of [hosted] after a new control connection. *)
Definition reattached : Transport DemoTor :=
  fst (connect_control 0 5 hosted).


Definition ticked : Health * Transport DemoTor * bool :=
  health_tick demo_no_error demo_dir 0 5000 [] (health_new 0) demo_transport.

Lemma supervisor_tick_witness :
  tr_online ticked.1.2 = true ∧ ts_tor (tr_status ticked.1.2) = TsOnline.
Proof.
  assert (H : health_tick demo_no_error demo_dir 0 5000 [] (health_new 0) demo_transport
    = (ticked.1.1, ticked.1.2, ticked.2)) by (by destruct ticked as [[]] eqn:E; rewrite <- E).
  destruct (supervisor_tick demo_no_error demo_dir 0 5000 [] (health_new 0) demo_transport
              ticked.1.1 ticked.1.2 ticked.2 (mkAttached [] NoAuth) false H eq_refl eq_refl) as (_ & _ & H3).
  exact (proj2 (H3 eq_refl eq_refl)).
Defined.
