(* ===== verification/Queue.v ===== *)
(** The queue at rest ([core/src/vault/queue.rs]): the blob codec, the caps,
    and the oldest-first drain. The directory is the map from file names to
    modification time and contents; AES-256-GCM and SHA-256 are parameters,
    and any file-system call may fail. *)

From stdpp Require Import sorting.
From S2P Require Import Prelude Bin RustStr Limits Hex PairingQr Policy EngineTypes.

Inductive VaultError :=
| VLocked
| VBadDek
| VStore (e : StoreError)
| VSqlite (detail : Detail)
| VIo (detail : Detail)
| VQueue (detail : Detail)
| VPairing (e : PairingFailure)
| VEngine (e : EngineError).

Record QueuedDrop := mkQueuedDrop { qd_service_id : bytes; qd_intro : option bytes; qd_frame : bytes }.

Definition MAGIC : bytes := str_bytes "S6Q".
Definition QUEUE_VERSION : Z := 1.
Definition NONCE_LEN : Z := 12.

(** ** The blob *)

Definition encode_blob (service_id : bytes) (intro : option bytes) (frame : bytes) : bytes :=
  MAGIC ++ [zb QUEUE_VERSION] ++ be_bytes 2 (len service_id) ++ service_id
  ++ match intro with
     | Some intro => [zb 1] ++ be_bytes 2 (len intro) ++ intro
     | None => [zb 0]
     end
  ++ be_bytes 4 (len frame) ++ frame.

Definition blob_bad (m : string) : VaultError := VQueue (Lit m).

(** [take(&mut pos, n)]: the next [n] bytes and those after them. *)
Definition blob_take (n : Z) (l : bytes) : result VaultError (bytes * bytes) :=
  if n >? len l then Err (blob_bad "truncated") else Ok (take (Z.to_nat n) l, drop (Z.to_nat n) l).

Definition decode_blob (blob : bytes) : result VaultError QueuedDrop :=
  if (len blob <? 4) || negb (bool_decide (take 3 blob = MAGIC))
     || negb (bool_decide (take 1 (drop 3 blob) = [zb QUEUE_VERSION]))
  then Err (blob_bad "bad magic/version")
  else
    let* n := blob_take 2 (drop 4 blob) in
    let* id := blob_take (be_val n.1) n.2 in
    let* service_id := ok_or (from_utf8 id.1) (blob_bad "service id not utf8") in
    let* flag := blob_take 1 id.2 in
    let* intro :=
      (if be_val flag.1 =? 0 then Ok (None, flag.2)
       else if be_val flag.1 =? 1 then
         let* n := blob_take 2 flag.2 in
         let* i := blob_take (be_val n.1) n.2 in
         Ok (Some i.1, i.2)
       else Err (blob_bad "bad intro flag")) in
    let* n := blob_take 4 intro.2 in
    let* frame := blob_take (be_val n.1) n.2 in
    if negb (bool_decide (frame.2 = [])) then Err (blob_bad "trailing bytes")
    else Ok (mkQueuedDrop service_id intro.1 frame.1).

Definition drop_wf (d : QueuedDrop) : Prop :=
  len (qd_service_id d) ≤ u16_max ∧ utf8_ok (qd_service_id d) = true
  ∧ from_option (λ i, len i ≤ u16_max) True (qd_intro d) ∧ len (qd_frame d) ≤ u32_max.

Lemma blob_take_app xs rest : blob_take (len xs) (xs ++ rest) = Ok (xs, rest).
Proof.
  unfold blob_take. rewrite len_app. pose proof (len_nonneg rest). destruct (Z.gtb_spec (len xs) (len xs + len rest)); [lia|].
  unfold len. by rewrite Nat2Z.id, take_app_length, drop_app_length.
Qed.
Lemma blob_take_bytes n v rest : blob_take (Z.of_nat n) (be_bytes n v ++ rest) = Ok (be_bytes n v, rest).
Proof. rewrite <- (len_be_bytes n v). apply blob_take_app. Qed.

Lemma blob_take_Ok n l p : 0 ≤ n → blob_take n l = Ok p → l = p.1 ++ p.2 ∧ len p.1 = n.
Proof.
  intros Hn. unfold blob_take. destruct (Z.gtb_spec n (len l)); [done|]. intros [= <-]. cbn [fst snd].
  rewrite take_drop. split; [done|]. unfold len in *. rewrite length_take. lia.
Qed.

Lemma decode_encode_blob d :
  drop_wf d → decode_blob (encode_blob (qd_service_id d) (qd_intro d) (qd_frame d)) = Ok d.
Proof.
  destruct d as [id intro frame]. unfold drop_wf. cbn [qd_service_id qd_intro qd_frame]. intros (H1 & H2 & H3 & H4).
  unfold encode_blob, decode_blob. rewrite (app_assoc MAGIC).
  set (rest := be_bytes 2 (len id) ++ _). change (drop 4 ((MAGIC ++ [zb QUEUE_VERSION]) ++ rest)) with rest.
  change (take 3 ((MAGIC ++ [zb QUEUE_VERSION]) ++ rest)) with MAGIC.
  change (take 1 (drop 3 ((MAGIC ++ [zb QUEUE_VERSION]) ++ rest))) with [zb QUEUE_VERSION].
  rewrite len_app. change (len (MAGIC ++ [zb QUEUE_VERSION])) with 4. pose proof (len_nonneg rest).
  destruct (Z.ltb_spec (4 + len rest) 4); [lia|]. rewrite !bool_decide_true by done. cbn [negb orb]. unfold rest.
  pose proof (len_nonneg id). pose proof (len_nonneg frame).
  rewrite (blob_take_bytes 2). cbn [rbind fst snd].
  rewrite be_val_bytes_small by (unfold u16_max in *; change (256 ^ Z.of_nat 2) with 65536; lia).
  rewrite blob_take_app. cbn [rbind fst snd]. rewrite from_utf8_ok by done. cbn [ok_or rbind].
  assert (Hf : ∀ i, (let* n := blob_take 4 (be_bytes 4 (len frame) ++ frame) in
    let* frame := blob_take (be_val n.1) n.2 in
    if negb (bool_decide (frame.2 = [])) then Err (blob_bad "trailing bytes")
    else Ok (mkQueuedDrop id i frame.1)) = Ok (mkQueuedDrop id i frame)).
  { intros i. rewrite (blob_take_bytes 4). cbn [rbind fst snd].
    rewrite be_val_bytes_small by (unfold u32_max in *; change (256 ^ Z.of_nat 4) with 4294967296; lia).
    rewrite <- (app_nil_r frame) at 2. rewrite blob_take_app. done. }
  destruct intro as [i|]; cbn [from_option] in H3.
  - rewrite <- !app_assoc. rewrite (blob_take_app [zb 1]). cbn [rbind fst snd]. change (be_val [zb 1]) with 1. cbn [Z.eqb].
    pose proof (len_nonneg i). rewrite (blob_take_bytes 2). cbn [rbind fst snd].
    rewrite be_val_bytes_small by (unfold u16_max in *; change (256 ^ Z.of_nat 2) with 65536; lia).
    rewrite blob_take_app. cbn [rbind fst snd]. apply Hf.
  - rewrite (blob_take_app [zb 0]). cbn [rbind fst snd]. change (be_val [zb 0]) with 0. cbn [Z.eqb rbind fst snd]. apply Hf.
Qed.

(** ** The directory *)

Record QFile := mkQFile { qf_mtime : Z; qf_data : bytes }.
Abbreviation QDir := (gmap bytes QFile).

(** The file-system calls, and which of them fail during an operation.
    [std::fs::write] first creates or truncates the file ([FsWrite]) and then
    writes the bytes, the n-th of them by [FsFill]. *)
Inductive FsOp :=
| FsReadDir
| FsMetadata (name : bytes)
| FsWrite (name : bytes)
| FsFill (name : bytes) (n : nat)
| FsRename (name : bytes)
| FsRead (name : bytes)
| FsRemove (name : bytes).
Definition Faults : Type := FsOp → option Detail.
Definition no_faults : Faults := λ _, None.

Definition DOT : byte := zb 46.
(** Temp files and foreign files are not listed. *)
Definition listed (name : bytes) : bool :=
  negb (bool_decide (take 1 name = [DOT])) && bool_decide (DOT ∈ name).

(** The order of [entries.sort()]: by time, then by path. *)
Fixpoint name_leb (a b : bytes) : bool :=
  match a, b with
  | [], _ => true
  | _ :: _, [] => false
  | x :: a, y :: b => (bz x <? bz y) || ((bz x =? bz y) && name_leb a b)
  end.
Definition age_le (a b : Z * bytes) : Prop := a.1 < b.1 ∨ a.1 = b.1 ∧ name_leb a.2 b.2 = true.
#[export] Instance age_le_dec a b : Decision (age_le a b).
Proof. unfold age_le. apply _. Defined.

Section Directory.
Context (faults : Faults).

Definition try_fs (op : FsOp) : result VaultError unit :=
  match faults op with Some e => Err (VIo e) | None => Ok tt end.

(** [std::fs::write]: what it leaves in the file ([None]: the file was not
    touched), and how it ends. *)
Fixpoint fs_fill (name : bytes) (n : nat) (data : bytes) : bytes * result VaultError unit :=
  match data with
  | [] => ([], Ok tt)
  | b :: data =>
      match try_fs (FsFill name n) with
      | Err e => ([], Err e)
      | Ok _ => let '(written, r) := fs_fill name (S n) data in (b :: written, r)
      end
  end.
Definition fs_put (name data : bytes) : option bytes * result VaultError unit :=
  match try_fs (FsWrite name) with
  | Err e => (None, Err e)
  | Ok _ => let '(written, r) := fs_fill name 0 data in (Some written, r)
  end.

Fixpoint read_entries (l : list (bytes * QFile)) : result VaultError (list (Z * bytes)) :=
  match l with
  | [] => Ok []
  | (name, f) :: l =>
      if listed name then
        let* _ := try_fs (FsMetadata name) in
        let* rest := read_entries l in
        Ok ((qf_mtime f, name) :: rest)
      else read_entries l
  end.

Definition files_oldest_first (dir : QDir) : result VaultError (list bytes) :=
  let* _ := try_fs FsReadDir in
  let* entries := read_entries (map_to_list dir) in
  Ok (merge_sort age_le entries).*2.

Fixpoint usage_loop (dir : QDir) (paths : list bytes) : result VaultError Z :=
  match paths with
  | [] => Ok 0
  | p :: paths =>
      let* _ := try_fs (FsMetadata p) in
      let* f := ok_or (dir !! p) (VIo (Lit "No such file or directory")) in
      let* rest := usage_loop dir paths in
      Ok (len (qf_data f) + rest)
  end.

Definition usage (dir : QDir) : result VaultError (Z * Z) :=
  let* paths := files_oldest_first dir in
  let* bytes := usage_loop dir paths in
  Ok (len paths, bytes).

Definition queue_len (dir : QDir) : Z := match usage dir with Ok (files, _) => files | Err _ => 0 end.
Definition queue_is_empty (dir : QDir) : bool := queue_len dir =? 0.

Fixpoint purge_loop (dir : QDir) (paths : list bytes) (n : Z) : QDir * result VaultError Z :=
  match paths with
  | [] => (dir, Ok n)
  | p :: paths =>
      match try_fs (FsRemove p) with
      | Err e => (dir, Err e)
      | Ok _ => purge_loop (delete p dir) paths (n + 1)
      end
  end.

Definition purge (dir : QDir) : QDir * result VaultError Z :=
  match files_oldest_first dir with
  | Err e => (dir, Err e)
  | Ok paths => purge_loop dir paths 0
  end.
End Directory.

(** ** The queue *)

(** [c.is_ascii_alphanumeric() || c == '-' || c == '_'] *)
Definition safe_char (c : Z) : bool :=
  in_range 48 57 c || in_range 65 90 c || in_range 97 122 c || (c =? 45) || (c =? 95).
Definition sanitize (service_id : bytes) : bytes :=
  take 64 ((λ c, zb (if safe_char c then c else 95)) <$> str_chars service_id).

(** AES-256-GCM under a nonce: the ciphertext with its tag, and the opening. *)
Class Aead := {
  aead_encrypt : bytes → bytes → bytes → option bytes;
  aead_decrypt : bytes → bytes → bytes → option bytes;
}.

Section Queue.
Context `{aead : !Aead} (sha256 : bytes → bytes).
(** [DropQueue]: the key and the caps; the directory is its state. *)
Record DropQueue := mkDropQueue { dq_key : bytes; dq_max_files : Z; dq_max_bytes : Z }.

Definition queue_new (key : bytes) : DropQueue := mkDropQueue key MAX_FILES MAX_BYTES.

Definition wrap (q : DropQueue) (nonce blob : bytes) : result VaultError bytes :=
  if negb (len (dq_key q) =? 32) then Err (VQueue (Lit "tier-a key: {e}"))
  else
    let* ct := ok_or (aead_encrypt (dq_key q) nonce blob) (VQueue (Lit "tier-a wrap failed")) in
    Ok (nonce ++ ct).

Definition unwrap_blob (q : DropQueue) (wrapped : bytes) : result VaultError bytes :=
  if len wrapped <? NONCE_LEN + 16 then Err (VQueue (Lit "queue file too short"))
  else if negb (len (dq_key q) =? 32) then Err (VQueue (Lit "tier-a key: {e}"))
  else ok_or (aead_decrypt (dq_key q) (take (Z.to_nat NONCE_LEN) wrapped) (drop (Z.to_nat NONCE_LEN) wrapped))
         (VQueue (Lit "tier-a unwrap failed")).

Definition queue_name (service_id blob : bytes) : bytes :=
  sanitize service_id ++ [DOT] ++ hex_encode (sha256 blob).
Definition tmp_name (name : bytes) : bytes := [DOT] ++ name ++ str_bytes ".tmp".

Definition enqueue (faults : Faults) (q : DropQueue) (nonce : bytes) (now : Z) (dir : QDir)
    (service_id : bytes) (intro : option bytes) (frame : bytes) : QDir * result VaultError bool :=
  match usage faults dir with
  | Err e => (dir, Err e)
  | Ok (files, used) =>
      let blob := encode_blob service_id intro frame in
      if (files >=? dq_max_files q) || (used + len blob + 40 >? dq_max_bytes q) then (dir, Ok false)
      else
        match wrap q nonce blob with
        | Err e => (dir, Err e)
        | Ok wrapped =>
            let name := queue_name service_id blob in
            let tmp := tmp_name name in
            let '(kept, r) := fs_put faults tmp wrapped in
            let dir := match kept with Some written => <[tmp := mkQFile now written]> dir | None => dir end in
            match r with
            | Err e => (dir, Err e)
            | Ok _ =>
                match try_fs faults (FsRename tmp) with
                | Err e => (dir, Err e)
                | Ok _ => (<[name := mkQFile now wrapped]> (delete tmp dir), Ok true)
                end
            end
        end
  end.

(** [unwrap_blob(..).and_then(decode_blob)] *)
Definition open_file (q : DropQueue) (f : QFile) : result VaultError QueuedDrop :=
  let* blob := unwrap_blob q (qf_data f) in decode_blob blob.

Fixpoint drain_loop (faults : Faults) (q : DropQueue) (dir : QDir) (paths : list bytes)
    (out : list QueuedDrop) : QDir * result VaultError (list QueuedDrop) :=
  match paths with
  | [] => (dir, Ok out)
  | p :: paths =>
      match (let* _ := try_fs faults (FsRead p) in
             ok_or (dir !! p) (VIo (Lit "No such file or directory"))) with
      | Err e => (dir, Err e)
      | Ok f =>
          let out := match open_file q f with Ok d => out ++ [d] | Err _ => out end in
          let dir := match try_fs faults (FsRemove p) with Ok _ => delete p dir | Err _ => dir end in
          drain_loop faults q dir paths out
      end
  end.

Definition drain (faults : Faults) (q : DropQueue) (dir : QDir)
    : QDir * result VaultError (list QueuedDrop) :=
  match files_oldest_first faults dir with
  | Err e => (dir, Err e)
  | Ok paths => drain_loop faults q dir paths []
  end.
End Queue.

(** ** Writing *)

Lemma fs_fill_Ok faults name n data w : fs_fill faults name n data = (w, Ok tt) → w = data.
Proof.
  revert n w. induction data as [|b data IH]; intros n w; cbn [fs_fill]; [by intros [= <-]|].
  destruct (try_fs faults _); [|done]. destruct (fs_fill faults name (S n) data) as [w1 r] eqn:E.
  intros [= <- ->]. f_equal. by eapply IH.
Qed.
Lemma fs_put_Ok faults name data kept : fs_put faults name data = (kept, Ok tt) → kept = Some data.
Proof.
  unfold fs_put. destruct (try_fs faults _); [|done]. destruct (fs_fill _ _ _ _) as [w r] eqn:E.
  intros [= <- ->]. f_equal. by eapply fs_fill_Ok.
Qed.
Lemma fs_fill_no_faults name n data : fs_fill no_faults name n data = (data, Ok tt).
Proof. revert n. induction data as [|b data IH]; intros n; [done|]. cbn [fs_fill]. cbn. by rewrite IH. Qed.
Lemma fs_put_no_faults name data : fs_put no_faults name data = (Some data, Ok tt).
Proof. unfold fs_put. cbn. by rewrite fs_fill_no_faults. Qed.

(** ** Listing *)

#[export] Instance name_le_total : Total age_le.
Proof.
  assert (Ht : ∀ a b, name_leb a b = true ∨ name_leb b a = true).
  { induction a as [|x a IH]; intros [|y b]; cbn; auto. destruct (IH b) as [-> | ->];
      destruct (Z.ltb_spec (bz x) (bz y)), (Z.ltb_spec (bz y) (bz x)), (Z.eqb_spec (bz x) (bz y)), (Z.eqb_spec (bz y) (bz x));
      cbn; auto; lia. }
  intros [s a] [t b]. unfold age_le. cbn. destruct (Ht a b), (Z.lt_trichotomy s t) as [?|[?|?]]; auto.
Qed.
#[export] Instance age_le_trans : Transitive age_le.
Proof.
  assert (Ht : ∀ a b c, name_leb a b = true → name_leb b c = true → name_leb a c = true).
  { induction a as [|x a IH]; intros [|y b] [|z c]; cbn; try done.
    intros [H1%Z.ltb_lt|[H1%Z.eqb_eq H1']%andb_true_iff]%orb_true_iff
      [H2%Z.ltb_lt|[H2%Z.eqb_eq H2']%andb_true_iff]%orb_true_iff; apply orb_true_iff;
      [left; apply Z.ltb_lt; lia..|right]. apply andb_true_iff. split; [apply Z.eqb_eq; lia|by eapply IH]. }
  intros [s a] [t b] [u c]. unfold age_le. cbn. intros [?|[? ?]] [?|[? ?]]; [left; lia..|right]. split; [lia|by eapply Ht].
Qed.
#[export] Instance age_le_antisymm : AntiSymm (=) age_le.
Proof.
  assert (Ht : ∀ a b, name_leb a b = true → name_leb b a = true → a = b).
  { induction a as [|x a IH]; intros [|y b]; cbn; try done.
    intros [H1%Z.ltb_lt|[H1%Z.eqb_eq H1']%andb_true_iff]%orb_true_iff
      [H2%Z.ltb_lt|[H2%Z.eqb_eq H2']%andb_true_iff]%orb_true_iff; try lia.
    f_equal; [by apply bz_inj|auto]. }
  intros [s a] [t b]. unfold age_le. cbn. intros [?|[? ?]] [?|[? ?]]; try lia. f_equal; [lia|auto].
Qed.

(** The files a listing shows, and their names oldest first. *)
Definition shown (dir : QDir) : QDir := filter (λ kv : bytes * QFile, listed kv.1 = true) dir.
Definition ages (dir : QDir) : list (Z * bytes) :=
  (λ kv : bytes * QFile, (qf_mtime kv.2, kv.1)) <$> map_to_list (shown dir).
Definition visible (dir : QDir) : list bytes := (merge_sort age_le (ages dir)).*2.

Lemma read_entries_Ok faults l r :
  read_entries faults l = Ok r →
  r = (λ kv : bytes * QFile, (qf_mtime kv.2, kv.1)) <$> filter (λ kv : bytes * QFile, listed kv.1 = true) l.
Proof.
  revert r. induction l as [|[n f] l IH]; intros r; cbn [read_entries].
  - by intros [= <-].
  - rewrite filter_cons. cbn [fst]. case_decide as Hl.
    + rewrite Hl. intros ([] & _ & (rest & Hr & [= <-])%rbind_Ok)%rbind_Ok. cbn. f_equal. by apply IH.
    + destruct (listed n); [done|]. apply IH.
Qed.
Lemma read_entries_no_faults l : is_ok (read_entries no_faults l) = true.
Proof.
  induction l as [|[n f] l IH]; [done|]. cbn [read_entries]. destruct (listed n); [|done].
  cbn. by destruct (read_entries no_faults l).
Qed.

Lemma ages_listing dir :
  (λ kv : bytes * QFile, (qf_mtime kv.2, kv.1)) <$> filter (λ kv : bytes * QFile, listed kv.1 = true) (map_to_list dir)
  ≡ₚ ages dir.
Proof.
  unfold ages, shown. apply Permutation_map. rewrite map_filter_alt, map_to_list_to_map; [done|].
  apply NoDup_fmap_filter, NoDup_fst_map_to_list.
Qed.

(** The listing does not depend on the order the directory is read in. *)
Lemma sorted_listing l k : l ≡ₚ k → merge_sort age_le l = merge_sort age_le k.
Proof.
  intros H. apply (StronglySorted_unique age_le).
  - by apply StronglySorted_merge_sort; apply _.
  - by apply StronglySorted_merge_sort; apply _.
  - by rewrite !merge_sort_Permutation.
Qed.

Lemma files_Ok faults dir ps : files_oldest_first faults dir = Ok ps → ps = visible dir.
Proof.
  unfold files_oldest_first. intros ([] & _ & (es & Hes & [= <-])%rbind_Ok)%rbind_Ok.
  apply read_entries_Ok in Hes as ->. unfold visible. f_equal. apply sorted_listing, ages_listing.
Qed.
Lemma files_no_faults dir : files_oldest_first no_faults dir = Ok (visible dir).
Proof.
  destruct (files_oldest_first no_faults dir) as [ps|x] eqn:E; [f_equal; by eapply files_Ok|].
  unfold files_oldest_first in E. cbn in E. pose proof (read_entries_no_faults (map_to_list dir)) as H.
  by destruct (read_entries no_faults (map_to_list dir)).
Qed.

Lemma visible_names dir : visible dir ≡ₚ (map_to_list (shown dir)).*1.
Proof.
  unfold visible. rewrite merge_sort_Permutation. unfold ages. rewrite <- list_fmap_compose. reflexivity.
Qed.
Lemma visible_elem dir p : p ∈ visible dir ↔ listed p = true ∧ is_Some (dir !! p).
Proof.
  rewrite visible_names, list_elem_of_fmap. split.
  - intros ([n f] & -> & H%elem_of_map_to_list). apply map_lookup_filter_Some in H as [H1 H2]. split; [done|by exists f].
  - intros [Hl [f Hf]]. exists (p, f). split; [done|]. apply elem_of_map_to_list, map_lookup_filter_Some. done.
Qed.
Lemma visible_NoDup dir : NoDup (visible dir).
Proof. rewrite visible_names. apply NoDup_fst_map_to_list. Qed.
Lemma visible_count dir : len (visible dir) = Z.of_nat (size (shown dir)).
Proof. unfold len. by rewrite visible_names, length_fmap, length_map_to_list. Qed.

(** ** The caps *)

Definition file_size (p : bytes) (f : QFile) (acc : Z) : Z := len (qf_data f) + acc.
Definition disk_bytes (dir : QDir) : Z := map_fold file_size 0 (shown dir).
Definition within_caps (q : DropQueue) (dir : QDir) : Prop :=
  len (visible dir) ≤ dq_max_files q ∧ disk_bytes dir ≤ dq_max_bytes q.

Lemma disk_bytes_insert m n f :
  m !! n = None → map_fold file_size 0 (<[n := f]> m) = len (qf_data f) + map_fold file_size 0 m.
Proof. intros H. rewrite map_fold_insert_L; [done| |done]. intros. unfold file_size. lia. Qed.
Lemma disk_bytes_delete m n : map_fold file_size 0 (delete n m) ≤ map_fold file_size 0 m.
Proof.
  destruct (m !! n) as [f|] eqn:E; [|by rewrite delete_id].
  rewrite <- (insert_delete_id m n f) at 2 by done. rewrite disk_bytes_insert by apply lookup_delete_eq.
  pose proof (len_nonneg (qf_data f)). lia.
Qed.

Lemma usage_loop_sum faults dir ps n :
  usage_loop faults dir ps = Ok n →
  n = foldr (λ p acc, from_option (λ f, len (qf_data f)) 0 (dir !! p) + acc) 0 ps.
Proof.
  revert n. induction ps as [|p ps IH]; intros n; cbn [usage_loop foldr]; [by intros [= <-]|].
  intros ([] & _ & (f & Hf & (rest & Hr & [= <-])%rbind_Ok)%rbind_Ok)%rbind_Ok.
  destruct (dir !! p); [|done]. injection Hf as <-. cbn. by rewrite (IH rest).
Qed.
Lemma usage_Ok faults dir files used :
  usage faults dir = Ok (files, used) → files = len (visible dir) ∧ used = disk_bytes dir.
Proof.
  unfold usage. intros (ps & ->%files_Ok & (n & Hn & [= <- <-])%rbind_Ok)%rbind_Ok. split; [done|].
  apply usage_loop_sum in Hn as ->. unfold disk_bytes. rewrite map_fold_foldr.
  rewrite (foldr_permutation_proper (=) _ 0); [| |apply visible_names].
  2:{ intros. lia. }
  assert (H : ∀ l, (∀ p f, (p, f) ∈ l → dir !! p = Some f) →
    foldr (λ p acc, from_option (λ f, len (qf_data f)) 0 (dir !! p) + acc) 0 l.*1
    = foldr (uncurry file_size) 0 l).
  { induction l as [|[p f] l IH]; intros Hl; [done|]. cbn. rewrite IH by (intros; apply Hl; by right).
    rewrite (Hl p f) by (by left). done. }
  apply H. intros p f Hin%elem_of_map_to_list. by apply map_lookup_filter_Some in Hin as [? _].
Qed.

Lemma listed_tmp n : listed (tmp_name n) = false.
Proof. done. Qed.
Lemma shown_insert dir n f : listed n = true → shown (<[n := f]> dir) = <[n := f]> (shown dir).
Proof. intros H. unfold shown. by rewrite map_filter_insert_True. Qed.
Lemma shown_hidden dir n f : listed n = false → shown (<[n := f]> dir) = shown dir.
Proof.
  intros H. apply map_eq. intros k. unfold shown. destruct (decide (k = n)) as [->|Hk].
  - rewrite (map_lookup_filter_None_2 _ dir), map_lookup_filter_None_2; [done|right..]; cbn; rewrite H; done.
  - apply option_eq. intros g. rewrite !map_lookup_filter_Some, lookup_insert_ne by done. done.
Qed.
Lemma shown_delete dir n : shown (delete n dir) = delete n (shown dir).
Proof. unfold shown. by rewrite map_filter_delete. Qed.
Lemma shown_delete_hidden dir n : listed n = false → shown (delete n dir) = shown dir.
Proof.
  intros H. rewrite shown_delete. apply delete_id, map_lookup_filter_None_2. right. cbn. rewrite H. done.
Qed.

Lemma delete_within q dir n : within_caps q dir → within_caps q (delete n dir).
Proof.
  unfold within_caps, disk_bytes. rewrite !visible_count, shown_delete. intros [H1 H2].
  pose proof (disk_bytes_delete (shown dir) n). rewrite map_size_delete.
  destruct (shown dir !! n); unfold id; lia.
Qed.

(** What the queue relies on of AES-GCM: it seals anything up to its size
    limit, the tag adds sixteen bytes, and what it sealed it opens. *)
Class AeadLaws `{!Aead} := {
  aead_total key nonce p : len p ≤ 2 ^ 36 - 32 → is_Some (aead_encrypt key nonce p);
  aead_tag key nonce p c : aead_encrypt key nonce p = Some c → len c = len p + 16;
  aead_opens key nonce p c : aead_encrypt key nonce p = Some c → aead_decrypt key nonce c = Some p;
}.

Section Facts.
Context `{aead : !Aead, laws : !AeadLaws} (sha256 : bytes → bytes).
Local Abbreviation enqueue := (enqueue sha256).

Lemma wrap_len q nonce blob w : len nonce = NONCE_LEN → wrap q nonce blob = Ok w → len w = len blob + 28.
Proof.
  intros Hn. unfold wrap. destruct (len (dq_key q) =? 32); [|done]. cbn.
  destruct (aead_encrypt (dq_key q) nonce blob) as [c|] eqn:E; [|done]. intros [= <-].
  apply aead_tag in E. rewrite len_app, Hn, E. unfold NONCE_LEN. lia.
Qed.

Lemma insert_within q dir n f :
  len (visible dir) < dq_max_files q → disk_bytes dir + len (qf_data f) ≤ dq_max_bytes q →
  within_caps q (<[n := f]> dir).
Proof.
  unfold within_caps, disk_bytes. rewrite !visible_count. intros H1 H2. destruct (listed n) eqn:Hl.
  - rewrite shown_insert by done. rewrite <- insert_delete_eq. rewrite disk_bytes_insert by apply lookup_delete_eq.
    rewrite map_size_insert_None by apply lookup_delete_eq. pose proof (disk_bytes_delete (shown dir) n).
    rewrite map_size_delete. destruct (shown dir !! n); unfold id; lia.
  - rewrite shown_hidden by done. pose proof (len_nonneg (qf_data f)). lia.
Qed.

Lemma enqueue_within faults q nonce now dir sid intro frame :
  len nonce = NONCE_LEN → within_caps q dir → within_caps q (enqueue faults q nonce now dir sid intro frame).1.
Proof.
  intros Hn Hw. unfold Queue.enqueue. destruct (usage faults dir) as [[files used]|x] eqn:Hu; [|done].
  apply usage_Ok in Hu as [-> ->]. destruct (_ || _) eqn:Hf; [done|].
  apply orb_false_iff in Hf as [Hf Hb].
  assert (len (visible dir) < dq_max_files q) by (destruct (Z.geb_spec (len (visible dir)) (dq_max_files q)); [done|lia]).
  assert (disk_bytes dir + len (encode_blob sid intro frame) + 40 ≤ dq_max_bytes q)
    by (destruct (Z.gtb_spec (disk_bytes dir + len (encode_blob sid intro frame) + 40) (dq_max_bytes q)); [done|lia]).
  destruct (wrap q nonce _) as [w|x] eqn:Hwr; [|done]. apply wrap_len in Hwr; [|done].
  destruct (fs_put faults _ w) as [kept r] eqn:Ep.
  set (dir1 := match kept with Some written => <[_ := _]> dir | None => dir end).
  assert (Hs : shown dir1 = shown dir) by (unfold dir1; destruct kept; [apply shown_hidden, listed_tmp|done]).
  assert (Hw1 : within_caps q dir1) by (unfold within_caps, disk_bytes in *; by rewrite visible_count, Hs, <- visible_count).
  destruct r as [[]|x]; [|done]. destruct (try_fs faults (FsRename _)); [|done]. cbn [fst].
  assert (Hd : ∀ n, listed n = false → shown (delete n dir1) = shown dir) by (intros n Hn'; by rewrite shown_delete_hidden).
  apply insert_within; cbn [qf_data].
  - rewrite visible_count, (Hd _ (listed_tmp _)), <- visible_count. done.
  - unfold disk_bytes in *. rewrite (Hd _ (listed_tmp _)). lia.
Qed.

Lemma drain_loop_within faults q q' dir ps out :
  within_caps q dir → within_caps q (drain_loop faults q' dir ps out).1.
Proof.
  revert dir out. induction ps as [|p ps IH]; intros dir out Hw; [done|]. cbn [drain_loop].
  destruct (rbind _ _) as [f|x]; [|done]. apply IH. destruct (try_fs faults (FsRemove p)); [|done]. by apply delete_within.
Qed.
Lemma purge_loop_within faults q dir ps n : within_caps q dir → within_caps q (purge_loop faults dir ps n).1.
Proof.
  revert dir n. induction ps as [|p ps IH]; intros dir n Hw; [done|]. cbn [purge_loop].
  destruct (try_fs faults (FsRemove p)); [|done]. by apply IH, delete_within.
Qed.

(** ** First in, first out *)

(** What the queue holds, oldest first: the drops its listed files open to. *)
Definition contents (q : DropQueue) (dir : QDir) : list QueuedDrop :=
  omap (λ p, dir !! p ≫= λ f, ok (open_file q f)) (visible dir).

Definition has_room (q : DropQueue) (dir : QDir) (blob : bytes) : bool :=
  negb ((len (visible dir) >=? dq_max_files q) || (disk_bytes dir + len blob + 40 >? dq_max_bytes q)).

Lemma drain_loop_no_faults q dir ps out :
  NoDup ps → (∀ p, p ∈ ps → is_Some (dir !! p)) →
  ∃ dir', drain_loop no_faults q dir ps out
          = (dir', Ok (out ++ omap (λ p, dir !! p ≫= λ f, ok (open_file q f)) ps))
    ∧ ∀ k, dir' !! k = if decide (k ∈ ps) then None else dir !! k.
Proof.
  revert dir out. induction ps as [|p ps IH]; intros dir out Hnd Hin.
  - exists dir. cbn. rewrite app_nil_r. split; [done|]. intros k. by rewrite decide_False by apply not_elem_of_nil.
  - apply NoDup_cons in Hnd as [Hp Hnd]. destruct (Hin p) as [f Hf]; [by left|].
    cbn [drain_loop]. unfold try_fs, no_faults. cbn [rbind]. rewrite Hf. cbn [ok_or].
    destruct (IH (delete p dir) (match open_file q f with Ok d => out ++ [d] | Err _ => out end)) as (dir' & Hd & Hl); [done| |].
    { intros k Hk. rewrite lookup_delete_ne by (intros ->; done). apply Hin. by right. }
    exists dir'. fold no_faults in Hd. unfold no_faults in Hd. rewrite Hd. split.
    + do 2 f_equal. cbn. rewrite Hf. cbn.
      assert (Hom : omap (λ p0, delete p dir !! p0 ≫= λ f, ok (open_file q f)) ps
                    = omap (λ p0, dir !! p0 ≫= λ f, ok (open_file q f)) ps).
      { clear -Hp. induction ps as [|k ps IH]; [done|]. apply not_elem_of_cons in Hp as [H1 H2]. cbn.
        rewrite lookup_delete_ne by done. by rewrite IH. }
      rewrite Hom. destruct (open_file q f); cbn; [by rewrite <- app_assoc|done].
    + intros k. rewrite Hl. destruct (decide (k = p)) as [->|Hk].
      * rewrite (decide_True (P := p ∈ p :: ps)) by (by left). rewrite decide_False by done. apply lookup_delete_eq.
      * rewrite lookup_delete_ne by done. destruct (decide (k ∈ ps)).
        -- rewrite decide_True; [done|by right].
        -- rewrite decide_False; [done|]. by apply not_elem_of_cons.
Qed.

Lemma drain_fifo q dir :
  ∃ dir', drain no_faults q dir = (dir', Ok (contents q dir)) ∧ visible dir' = [].
Proof.
  unfold drain. rewrite files_no_faults.
  destruct (drain_loop_no_faults q dir (visible dir) []) as (dir' & Hd & Hl);
    [apply visible_NoDup|intros p Hp; by apply visible_elem in Hp as [_ ?]|].
  exists dir'. split; [done|]. destruct (visible dir') as [|p ps] eqn:E; [done|].
  assert (Hp : p ∈ visible dir') by (rewrite E; by left). apply visible_elem in Hp as [H1 [f Hf]].
  rewrite Hl in Hf. case_decide as Hd'; [done|]. exfalso. apply Hd', visible_elem. by split; [|exists f].
Qed.

Lemma visible_insert dir n f :
  listed n = true → dir !! n = None → (∀ p g, shown dir !! p = Some g → qf_mtime g < qf_mtime f) →
  visible (<[n := f]> dir) = visible dir ++ [n].
Proof.
  intros Hl Hn Hlt. unfold visible. change [n] with ([(qf_mtime f, n)].*2).
  rewrite <- fmap_app. f_equal. apply (StronglySorted_unique age_le).
  - apply StronglySorted_merge_sort; apply _.
  - apply StronglySorted_app_2; [|by apply StronglySorted_merge_sort; apply _|repeat constructor].
    intros a b Ha Hb. apply list_elem_of_singleton in Hb as ->. rewrite merge_sort_Permutation in Ha.
    apply list_elem_of_fmap in Ha as ([p g] & -> & Hg%elem_of_map_to_list). left. cbn. by eapply Hlt.
  - rewrite !merge_sort_Permutation. unfold ages. rewrite shown_insert by done.
    rewrite map_to_list_insert; [|by apply map_lookup_filter_None_2; left]. cbn. by rewrite Permutation_cons_append.
Qed.

Lemma safe_char_byte c : let b := zb (if safe_char c then c else 95) in b ≠ DOT.
Proof.
  cbn. intros H. apply (f_equal bz) in H. unfold DOT in H. rewrite !bz_zb in H. change (46 mod 256) with 46 in H.
  unfold safe_char, in_range in H. destruct (_ || _) eqn:E in H; [|done].
  rewrite Z.mod_small in H by (repeat setoid_rewrite orb_true_iff in E; repeat setoid_rewrite andb_true_iff in E; lia).
  subst c. done.
Qed.
Lemma queue_name_listed sid blob : utf8_ok sid = true → sid ≠ [] → listed (queue_name sha256 sid blob) = true.
Proof.
  intros Hu Hne. unfold queue_name, listed. apply andb_true_iff. split.
  - apply negb_true_iff, bool_decide_false. unfold sanitize, str_chars.
    assert (Hc : ∃ c cs, utf8_chars sid = Some (c :: cs)).
    { unfold utf8_ok in Hu. destruct (utf8_chars sid) as [[|c cs]|] eqn:E; [|by eauto|done].
      destruct sid as [|b l]; [done|]. exfalso. cbn in E.
      repeat (case_match; try done); by destruct (utf8_chars _). }
    destruct Hc as (c & cs & ->). cbn. intros [= H]. by eapply safe_char_byte.
  - apply bool_decide_true. set_solver.
Qed.

Lemma encode_blob_len d : drop_wf d → len (encode_blob (qd_service_id d) (qd_intro d) (qd_frame d)) ≤ 2 ^ 36 - 32.
Proof.
  destruct d as [id intro frame]. unfold drop_wf, encode_blob, u16_max, u32_max. cbn [qd_service_id qd_intro qd_frame].
  intros (H1 & _ & H3 & H4). rewrite !len_app, len_be2, len_be4. change (len MAGIC) with 3. rewrite len_cons, len_nil.
  destruct intro as [i|]; cbn [from_option] in H3; rewrite ?len_app, ?len_be2, ?len_cons, ?len_nil; lia.
Qed.

Lemma open_wrapped q nonce now d w :
  len (dq_key q) = 32 → len nonce = NONCE_LEN → drop_wf d →
  wrap q nonce (encode_blob (qd_service_id d) (qd_intro d) (qd_frame d)) = Ok w →
  open_file q (mkQFile now w) = Ok d.
Proof.
  intros Hk Hn Hd Hw. pose proof (wrap_len _ _ _ _ Hn Hw) as Hl. unfold wrap in Hw. rewrite Hk in Hw. cbn in Hw.
  destruct (aead_encrypt _ _ _) as [c|] eqn:E; [|done]. injection Hw as <-.
  unfold open_file, unwrap_blob. cbn [qf_data]. rewrite Hl, Hk.
  pose proof (len_nonneg (encode_blob (qd_service_id d) (qd_intro d) (qd_frame d))).
  destruct (Z.ltb_spec (len (encode_blob (qd_service_id d) (qd_intro d) (qd_frame d)) + 28) (NONCE_LEN + 16));
    [unfold NONCE_LEN in *; lia|]. cbn [Z.eqb negb Pos.eqb].
  assert (length nonce = Z.to_nat NONCE_LEN) as Hnn by (unfold len in Hn; lia). rewrite <- Hnn.
  rewrite take_app_length, drop_app_length. apply aead_opens in E. rewrite E. cbn [ok_or rbind]. by apply decode_encode_blob.
Qed.

Lemma wrap_Ok q nonce d :
  len (dq_key q) = 32 → drop_wf d →
  let blob := encode_blob (qd_service_id d) (qd_intro d) (qd_frame d) in
  wrap q nonce blob = Ok (default [] (ok (wrap q nonce blob))).
Proof.
  intros Hk Hd blob. apply ok_default. unfold wrap. rewrite Hk. cbn [Z.eqb negb Pos.eqb].
  by destruct (aead_total (dq_key q) nonce blob) as [c ->]; [apply encode_blob_len|].
Qed.

Lemma usage_no_faults dir : usage no_faults dir = Ok (len (visible dir), disk_bytes dir).
Proof.
  destruct (usage no_faults dir) as [[files used]|x] eqn:E.
  - by apply usage_Ok in E as [-> ->].
  - unfold usage in E. rewrite files_no_faults in E. cbn [rbind] in E.
    assert (H : ∀ ps, (∀ p, p ∈ ps → is_Some (dir !! p)) → is_ok (usage_loop no_faults dir ps) = true).
    { induction ps as [|p ps IH]; intros Hp; [done|]. cbn. destruct (Hp p) as [f ->]; [by left|]. cbn.
      destruct (usage_loop no_faults dir ps); [done|]. apply IH. intros. apply Hp. by right. }
    specialize (H (visible dir)). destruct (usage_loop no_faults dir (visible dir)); [done|].
    discriminate H. intros p Hp. by apply visible_elem in Hp as [_ ?].
Qed.

Local Abbreviation blob_of d := (encode_blob (qd_service_id d) (qd_intro d) (qd_frame d)).
Local Abbreviation name_of d := (queue_name sha256 (qd_service_id d) (blob_of d)).

Definition newest (dir : QDir) (now : Z) : Prop := ∀ p f, shown dir !! p = Some f → qf_mtime f < now.

Lemma enqueue_no_faults q nonce now dir d :
  len (dq_key q) = 32 → drop_wf d →
  enqueue no_faults q nonce now dir (qd_service_id d) (qd_intro d) (qd_frame d)
  = if has_room q dir (blob_of d) then
      (<[name_of d := mkQFile now (default [] (ok (wrap q nonce (blob_of d))))]> (delete (tmp_name (name_of d)) dir),
       Ok true)
    else (dir, Ok false).
Proof.
  intros Hk Hd. unfold Queue.enqueue, has_room. rewrite usage_no_faults. destruct (_ || _); [done|]. cbn [negb].
  rewrite wrap_Ok by done. rewrite fs_put_no_faults. unfold try_fs, no_faults. by rewrite delete_insert_eq.
Qed.

Lemma enqueue_fifo q nonce now dir d :
  len (dq_key q) = 32 → len nonce = NONCE_LEN → drop_wf d → qd_service_id d ≠ [] →
  newest dir now → dir !! name_of d = None → has_room q dir (blob_of d) = true →
  ∃ dir', enqueue no_faults q nonce now dir (qd_service_id d) (qd_intro d) (qd_frame d) = (dir', Ok true)
    ∧ contents q dir' = contents q dir ++ [d]
    ∧ shown dir' = <[name_of d := mkQFile now (default [] (ok (wrap q nonce (blob_of d))))]> (shown dir).
Proof.
  intros Hk Hn Hd Hne Hnew Hfresh Hroom. rewrite enqueue_no_faults, Hroom by done. eexists. split; [done|].
  set (f := mkQFile now _). set (tmp := tmp_name _).
  pose proof (queue_name_listed (qd_service_id d) (blob_of d)) as Hl. destruct Hd as (? & Hu & ? & ?).
  specialize (Hl Hu Hne). assert (Hht : shown (delete tmp dir) = shown dir) by (apply shown_delete_hidden, listed_tmp).
  split; [|by rewrite shown_insert, Hht].
  assert (Hv : visible (<[name_of d := f]> (delete tmp dir)) = visible dir ++ [name_of d]).
  { rewrite visible_insert.
    - unfold visible, ages. by rewrite Hht.
    - done.
    - by apply lookup_delete_None; right.
    - by rewrite Hht. }
  unfold contents at 1. rewrite Hv, omap_app. f_equal.
  - unfold contents. apply list_omap_ext, Forall_Forall2_diag, Forall_forall.
    intros p [Hp1 [g Hp2]]%visible_elem. rewrite lookup_insert_ne by (intros <-; congruence).
    rewrite lookup_delete_ne; [done|]. intros Hpt. subst tmp. rewrite <- Hpt, listed_tmp in Hp1. done.
  - cbn. rewrite lookup_insert_eq. cbn. unfold f. rewrite (open_wrapped q nonce now d); [done..|].
    apply wrap_Ok; done.
Qed.

(** An operation on the queue, whatever calls fail during it. *)
Inductive queue_step (q : DropQueue) : QDir → QDir → Prop :=
| qs_enqueue faults nonce now dir sid intro frame :
    len nonce = NONCE_LEN → queue_step q dir (enqueue faults q nonce now dir sid intro frame).1
| qs_drain faults dir : queue_step q dir (drain faults q dir).1
| qs_purge faults dir : queue_step q dir (purge faults dir).1.

(** The queue at rest stays within its caps: whatever is enqueued,
    drained or purged, in whatever order and whichever file-system calls
    fail, it never lists more than [max_files] files nor holds more than
    [max_bytes] in them. *)
Theorem queue_caps_hold q dir dir' : within_caps q dir → rtc (queue_step q) dir dir' → within_caps q dir'.
Proof.
  intros Hw Hr. induction Hr as [dir|dir dir1 dir' Hs _ IH]; [done|]. apply IH. clear IH.
  destruct Hs as [faults nonce now dir sid intro frame Hn|faults dir|faults dir].
  - by apply enqueue_within.
  - unfold drain. destruct (files_oldest_first faults dir); [|done]. by apply drain_loop_within.
  - unfold purge. destruct (files_oldest_first faults dir); [|done]. by apply purge_loop_within.
Qed.

(** ** What a failing file system does to an enqueue *)

Definition some_fault (faults : Faults) : Prop := ∃ op x, faults op = Some x.

Lemma try_fs_Err faults op x : try_fs faults op = Err x → some_fault faults.
Proof. unfold try_fs. destruct (faults op) as [d|] eqn:E; [|done]. intros _. by exists op, d. Qed.

Lemma fs_fill_Err faults name n data w x : fs_fill faults name n data = (w, Err x) → some_fault faults.
Proof.
  revert n w. induction data as [|b data IH]; intros n w; cbn [fs_fill]; [done|].
  destruct (try_fs faults _) eqn:E; [|intros _; by eapply try_fs_Err].
  destruct (fs_fill faults name (S n) data) as [w1 r] eqn:Ef. intros [= _ ->]. by eapply IH.
Qed.
Lemma fs_put_Err faults name data kept x : fs_put faults name data = (kept, Err x) → some_fault faults.
Proof.
  unfold fs_put. destruct (try_fs faults _) eqn:E; [|intros _; by eapply try_fs_Err].
  destruct (fs_fill _ _ _ _) as [w r] eqn:Ef. intros [= _ ->]. by eapply fs_fill_Err.
Qed.

Lemma read_entries_Err faults l x : read_entries faults l = Err x → some_fault faults.
Proof.
  induction l as [|[n f] l IH]; [done|]. cbn [read_entries]. destruct (listed n); [|done].
  destruct (try_fs faults _) as [[]|y] eqn:E; [|intros _; by eapply try_fs_Err].
  cbn [rbind]. destruct (read_entries faults l); [done|]. intros [= ->]. by apply IH.
Qed.

Lemma usage_loop_Err faults dir ps x :
  (∀ p, p ∈ ps → is_Some (dir !! p)) → usage_loop faults dir ps = Err x → some_fault faults.
Proof.
  induction ps as [|p ps IH]; intros Hp; [done|]. cbn [usage_loop].
  destruct (try_fs faults _) as [[]|y] eqn:E; [|intros _; by eapply try_fs_Err].
  destruct (Hp p) as [f ->]; [by left|]. cbn [rbind ok_or]. destruct (usage_loop faults dir ps); [done|].
  intros [= ->]. apply IH; [|done]. intros k Hk. apply Hp. by right.
Qed.

Lemma usage_Err faults dir x : usage faults dir = Err x → some_fault faults.
Proof.
  unfold usage. destruct (files_oldest_first faults dir) as [ps|y] eqn:E; cbn [rbind].
  - apply files_Ok in E as ->. destruct (usage_loop faults dir (visible dir)) eqn:Eu; [done|]. intros _.
    eapply usage_loop_Err; [|done]. intros p Hp. by apply visible_elem in Hp as [_ ?].
  - intros _. revert E. unfold files_oldest_first.
    destruct (try_fs faults FsReadDir) as [[]|z] eqn:Ed; [|intros _; by eapply try_fs_Err]. cbn [rbind].
    destruct (read_entries faults (map_to_list dir)) eqn:Er; [done|]. intros _. by eapply read_entries_Err.
Qed.

(** Files that are not listed are not part of the queue. *)
Lemma contents_shown q dir dir' : shown dir' = shown dir → contents q dir' = contents q dir.
Proof.
  intros Hs. unfold contents, visible, ages. rewrite Hs. fold (ages dir). fold (visible dir).
  apply list_omap_ext, Forall_Forall2_diag, Forall_forall. intros p [Hl _]%visible_elem.
  assert (H : ∀ d : QDir, shown d !! p = d !! p).
  { intros d. unfold shown. destruct (d !! p) as [f|] eqn:E.
    - by apply map_lookup_filter_Some.
    - apply map_lookup_filter_None. by left. }
  by rewrite <- (H dir'), <- (H dir), Hs.
Qed.

(** A drop under a name already there replaces that file and comes last. *)
Lemma enqueue_last q nonce now dir d :
  len (dq_key q) = 32 → len nonce = NONCE_LEN → drop_wf d → qd_service_id d ≠ [] → newest dir now →
  contents q (<[name_of d := mkQFile now (default [] (ok (wrap q nonce (blob_of d))))]> (delete (tmp_name (name_of d)) dir))
  = contents q (delete (name_of d) dir) ++ [d].
Proof.
  intros Hk Hn Hd Hne Hnew. set (f := mkQFile now _). set (tmp := tmp_name _).
  pose proof (queue_name_listed (qd_service_id d) (blob_of d)) as Hl. destruct Hd as (? & Hu & ? & ?).
  specialize (Hl Hu Hne). rewrite <- insert_delete_eq. set (base := delete (name_of d) (delete tmp dir)).
  assert (Hbase : shown base = shown (delete (name_of d) dir)).
  { unfold base. rewrite !shown_delete. rewrite (delete_id (shown dir) tmp); [done|].
    apply map_lookup_filter_None_2. right. cbn [fst]. unfold tmp. by rewrite listed_tmp. }
  assert (Hv : visible (<[name_of d := f]> base) = visible base ++ [name_of d]).
  { apply visible_insert; [done|apply lookup_delete_eq|]. intros p g. rewrite Hbase, shown_delete.
    intros [_ Hg]%lookup_delete_Some. by eapply Hnew. }
  rewrite <- (contents_shown q (delete (name_of d) dir) base Hbase).
  unfold contents at 1. rewrite Hv, omap_app. f_equal.
  - apply list_omap_ext, Forall_Forall2_diag, Forall_forall. intros p [Hp1 [g Hp2]]%visible_elem.
    rewrite lookup_insert_ne; [done|]. intros <-. unfold base in Hp2. by rewrite lookup_delete_eq in Hp2.
  - cbn. rewrite lookup_insert_eq. cbn. unfold f. rewrite (open_wrapped q nonce now d); [done..|].
    apply wrap_Ok; done.
Qed.

(** C35: The queue at rest is a bounded first-in first-out queue of drops,
    whatever file-system calls fail. Enqueueing a well-formed drop for a
    named service, at a time later than that of every queued file, answers
    false and changes nothing exactly when the caps leave no room for it;
    answers true when there is room, and the drop is then last, after the
    others in their order (a queued file of the same name, an identical
    drop, is replaced); or errs, which only a failed file-system call makes
    it do, and the queue holds what it held. Draining it, when no call
    fails, returns what it holds, oldest first and through its encryption
    and encoding, and leaves it empty. *)
Theorem queue_refines_fifo faults q nonce now dir d :
  len (dq_key q) = 32 → len nonce = NONCE_LEN → drop_wf d → qd_service_id d ≠ [] → newest dir now →
  let '(dir', r) := enqueue faults q nonce now dir (qd_service_id d) (qd_intro d) (qd_frame d) in
  match r with
  | Ok true => has_room q dir (blob_of d) = true
               ∧ contents q dir' = contents q (delete (name_of d) dir) ++ [d]
  | Ok false => has_room q dir (blob_of d) = false ∧ dir' = dir
  | Err _ => some_fault faults ∧ contents q dir' = contents q dir
  end
  ∧ ∃ dir'', drain no_faults q dir' = (dir'', Ok (contents q dir')) ∧ visible dir'' = [].
Proof.
  intros Hk Hn Hd Hne Hnew. destruct (enqueue _ _ _ _ _ _ _ _) as [dir' r] eqn:E. split; [|apply drain_fifo].
  revert E. unfold Queue.enqueue, has_room. destruct (usage faults dir) as [[files used]|x] eqn:Hu.
  2:{ intros [= <- <-]. split; [by eapply usage_Err|done]. }
  apply usage_Ok in Hu as [-> ->]. destruct (_ || _); [by intros [= <- <-]|]. rewrite wrap_Ok by done.
  destruct (fs_put faults _ _) as [kept r1] eqn:Ep.
  set (dir1 := match kept with Some written => <[_ := _]> dir | None => dir end).
  assert (Hs : contents q dir1 = contents q dir)
    by (unfold dir1; destruct kept; [apply contents_shown, shown_hidden, listed_tmp|done]).
  destruct r1 as [[]|x]; [|intros [= <- <-]; split; [by eapply fs_put_Err|done]].
  destruct (try_fs faults (FsRename _)) as [[]|x] eqn:Er; intros [= <- <-]; [|split; [by eapply try_fs_Err|done]].
  split; [done|]. apply fs_put_Ok in Ep. subst dir1 kept. rewrite delete_insert_eq. by apply enqueue_last.
Qed.
End Facts.

(** ** Witnesses *)

#[export] Instance toy_aead : Aead := {|
  aead_encrypt _ _ p := Some (replicate 16 (zb 0) ++ p);
  aead_decrypt _ _ c := Some (drop 16 c);
|}.
#[export] Instance toy_aead_laws : AeadLaws.
Proof.
  split.
  - intros. by eexists.
  - intros key nonce p c [= <-]. rewrite !len_cons. lia.
  - intros key nonce p c [= <-]. done.
Qed.

Definition toy_key : bytes := replicate 32 (zb 9).
Definition toy_nonce : bytes := replicate 12 (zb 1).
Definition toy_drop (sid : string) (frame : Z) : QueuedDrop := mkQueuedDrop (str_bytes sid) None [zb frame].
Definition toy_hash (b : bytes) : bytes := drop (length b - 4) b.
Definition toy_enqueue (faults : Faults) (now : Z) (dir : QDir) (d : QueuedDrop) : QDir :=
  (enqueue toy_hash faults (queue_new toy_key) toy_nonce now dir (qd_service_id d) (qd_intro d) (qd_frame d)).1.
Definition toy_dir : QDir := toy_enqueue no_faults 5 ∅ (toy_drop "svc-b" 7).

Lemma queue_caps_hold_witness : within_caps (queue_new toy_key) toy_dir.
Proof.
  eapply (queue_caps_hold toy_hash (queue_new toy_key) ∅).
  - by vm_compute.
  - apply rtc_once. by apply qs_enqueue.
Defined.

Lemma queue_refines_fifo_witness :
  contents (queue_new toy_key) (toy_enqueue no_faults 6 toy_dir (toy_drop "svc-a" 8))
  = [toy_drop "svc-b" 7; toy_drop "svc-a" 8].
Proof.
  pose proof (queue_refines_fifo toy_hash no_faults (queue_new toy_key) toy_nonce 6 toy_dir (toy_drop "svc-a" 8)) as H.
  assert (Hr : (enqueue toy_hash no_faults (queue_new toy_key) toy_nonce 6 toy_dir (str_bytes "svc-a") None [zb 8]).2
    = Ok true) by (by vm_compute).
  unfold toy_enqueue. change (qd_service_id (toy_drop "svc-a" 8)) with (str_bytes "svc-a") in *.
  change (qd_intro (toy_drop "svc-a" 8)) with (@None bytes) in *. change (qd_frame (toy_drop "svc-a" 8)) with [zb 8] in *.
  destruct (enqueue toy_hash no_faults (queue_new toy_key) toy_nonce 6 toy_dir _ _ _) as [dir' r].
  cbn [snd] in Hr. subst r. destruct H as ((_ & H) & _).
  - reflexivity.
  - reflexivity.
  - by vm_compute.
  - discriminate.
  - intros p f Hf. apply elem_of_map_to_list in Hf. revert Hf. vm_compute. set_solver.
  - cbn [fst]. rewrite H. by vm_compute.
Defined.

(** A read that fails stops the drain after the files before it are gone:
    the drops already read are returned to nobody. *)
Example drain_read_error_loses :
  let later := toy_enqueue no_faults 6 toy_dir (toy_drop "svc-a" 8) in
  let stuck := queue_name toy_hash (str_bytes "svc-a") (encode_blob (str_bytes "svc-a") None [zb 8]) in
  let faults op := match op with FsRead n => if decide (n = stuck) then Some (Lit "EIO") else None | _ => None end in
  let '(dir, r) := drain faults (queue_new toy_key) later in
  r = Err (VIo (Lit "EIO")) ∧ contents (queue_new toy_key) dir = [toy_drop "svc-a" 8].
Proof. by vm_compute. Qed.

(** The empty service id gives a hidden file name: the drop is reported
    queued, and no drain finds it. *)
Example empty_service_id_hidden :
  let r := enqueue toy_hash no_faults (queue_new toy_key) toy_nonce 5 ∅ [] None [zb 7] in
  is_ok r.2 = true ∧ size r.1 = 1%nat ∧ visible r.1 = [].
Proof. split; [by vm_compute|]. split; by vm_compute. Qed.
