(* ===== verification/Wipe.v ===== *)
(** The panic wipe ([core/src/vault/wipe.rs]): what is left of the data
    directory when any overwrite or removal may fail. The directory is a map
    from names to files and directories; [metadata] and [read_dir] succeed
    on what exists. *)

From S2P Require Import Prelude Bin RustStr.

Inductive Node :=
| NFile (data : bytes)
| NDir (entries : list Entry)
with Entry :=
| mkEntry (name : string) (node : Node).
Abbreviation DataDir := (gmap string Node).

Definition OWNED_FILES : list string :=
  ["schat.db"; "schat.db-wal"; "schat.db-shm"; "schat.db-journal"; "tor_kill_switch"; "tor_circumvention"]%string.
Definition OWNED_DIRS : list string := ["keys"; "client_auth"; "queue"; "vault"; "tor"]%string.
Definition ZERO_OVERWRITE_MAX : Z := 1024 * 1024.

Record WipeReport := mkWipeReport { wr_files_removed : Z; wr_dirs_removed : Z; wr_errors : Z }.
Definition wipe_report_default : WipeReport := mkWipeReport 0 0 0.
Definition note_error (r : WipeReport) : WipeReport :=
  mkWipeReport (wr_files_removed r) (wr_dirs_removed r) (wr_errors r + 1).
Definition note_file (r : WipeReport) : WipeReport :=
  mkWipeReport (wr_files_removed r + 1) (wr_dirs_removed r) (wr_errors r).
Definition note_dir (r : WipeReport) : WipeReport :=
  mkWipeReport (wr_files_removed r) (wr_dirs_removed r + 1) (wr_errors r).

Section Wipe.
(** Which overwrites fail, and after how many bytes, and which removals; a
    path is its directory and name, the directory empty at the top. *)
Context (overwrite_stops : string → string → option nat) (remove_fails : string → bool).

Definition zeroed (data : bytes) : bytes := (λ _, zb 0) <$> data.

(** The contents it leaves, and whether all of them were overwritten. *)
Definition zero_overwrite (dir name : string) (data : bytes) : bytes * bool :=
  match overwrite_stops dir name with
  | None => (zeroed data, true)
  | Some n => (zeroed (take n data) ++ drop n data, false)
  end.

Definition remove_regular (name : string) (data : bytes) (tree : DataDir) (r : WipeReport) : DataDir * WipeReport :=
  let '(tree, r) :=
    if len data <=? ZERO_OVERWRITE_MAX then
      let '(data, ok) := zero_overwrite "" name data in
      (<[name := NFile data]> tree, if ok : bool then r else note_error r)
    else (tree, r) in
  if remove_fails name then (tree, note_error r) else (delete name tree, note_file r).

(** The small files of a directory, each zeroed where that succeeds. *)
Definition zero_entry (dir : string) (entry : Entry) : Entry :=
  match entry with
  | mkEntry name (NFile data) =>
      if len data <=? ZERO_OVERWRITE_MAX then mkEntry name (NFile (zero_overwrite dir name data).1)
      else entry
  | mkEntry _ (NDir _) => entry
  end.

Definition remove_tree (name : string) (entries : list Entry) (tree : DataDir) (r : WipeReport)
    : DataDir * WipeReport :=
  let tree := <[name := NDir (zero_entry name <$> entries)]> tree in
  if remove_fails name then (tree, note_error r) else (delete name tree, note_dir r).

(** [remove_file_zeroed] and [remove_dir] each hand the other's kind over,
    so both do what the path's kind asks. *)
Definition remove_path (name : string) (st : DataDir * WipeReport) : DataDir * WipeReport :=
  let '(tree, r) := st in
  match tree !! name with
  | Some (NFile data) => remove_regular name data tree r
  | Some (NDir entries) => remove_tree name entries tree r
  | None => (tree, r)
  end.
Definition remove_file_zeroed : string → DataDir * WipeReport → DataDir * WipeReport := remove_path.
Definition remove_dir : string → DataDir * WipeReport → DataDir * WipeReport := remove_path.

Definition panic_wipe (tree : DataDir) : DataDir * WipeReport :=
  let st := foldl (λ st name, remove_file_zeroed name st) (tree, wipe_report_default) OWNED_FILES in
  foldl (λ st name, remove_dir name st) st OWNED_DIRS.

(** ** What it leaves *)

(** A node as a removal that failed leaves it: the small files in it zeroed
    unless that failed too. *)
Definition scrubbed (name : string) (old new : Node) : Prop :=
  match old, new with
  | NFile data, NFile data' =>
      len data ≤ ZERO_OVERWRITE_MAX → overwrite_stops "" name = None → data' = zeroed data
  | NDir es, NDir es' => es' = (zero_entry name <$> es)
  | _, _ => False
  end.

Lemma remove_path_spec name tree r :
  let '(tree', r') := remove_path name (tree, r) in
  (∀ k, k ≠ name → tree' !! k = tree !! k)
  ∧ wr_errors r ≤ wr_errors r'
  ∧ match tree !! name, tree' !! name with
    | None, None => r' = r
    | Some old, None => wr_files_removed r + wr_dirs_removed r + 1 = wr_files_removed r' + wr_dirs_removed r'
    | Some old, Some new => scrubbed name old new ∧ wr_errors r < wr_errors r'
    | None, Some _ => False
    end.
Proof.
  unfold remove_path. destruct (tree !! name) as [[data|es]|] eqn:E.
  - unfold remove_regular, zero_overwrite. destruct (Z.leb_spec (len data) ZERO_OVERWRITE_MAX);
      [destruct (overwrite_stops "" name) eqn:Ho|]; destruct (remove_fails name); cbn;
      (split; [intros k Hk; by rewrite ?lookup_delete_ne, ?lookup_insert_ne|]); (split; [lia|]);
      rewrite ?lookup_delete_eq, ?lookup_insert_eq, ?E; cbn; try lia; (split; [|lia]); intros; done || congruence || lia.
  - unfold remove_tree. destruct (remove_fails name); cbn;
      (split; [intros k Hk; by rewrite ?lookup_delete_ne, ?lookup_insert_ne|]); (split; [lia|]);
      rewrite ?lookup_delete_eq, ?lookup_insert_eq; cbn; [split; [done|lia]|lia].
  - rewrite E. done.
Qed.

Lemma remove_all_spec names tree r :
  NoDup names →
  let '(tree', r') := foldl (λ st name, remove_path name st) (tree, r) names in
  (∀ k, k ∉ names → tree' !! k = tree !! k)
  ∧ wr_errors r ≤ wr_errors r'
  ∧ ∀ k, k ∈ names → (tree' !! k = None)
      ∨ ∃ old new, tree !! k = Some old ∧ tree' !! k = Some new ∧ scrubbed k old new ∧ wr_errors r < wr_errors r'.
Proof.
  revert tree r. induction names as [|n names IH]; intros tree r Hnd.
  { split; [done|]. split; [done|]. intros k Hk. by apply not_elem_of_nil in Hk. }
  apply NoDup_cons in Hnd as [Hn Hnd]. cbn [foldl].
  pose proof (remove_path_spec n tree r) as H1. destruct (remove_path n (tree, r)) as [tree1 r1].
  destruct H1 as (Ho1 & He1 & Hk1). specialize (IH tree1 r1 Hnd).
  destruct (foldl _ _ names) as [tree2 r2]. destruct IH as (Ho2 & He2 & Hk2). split; [|split; [lia|]].
  - intros k [Hk Hk']%not_elem_of_cons. by rewrite Ho2, Ho1.
  - intros k [->|Hk]%elem_of_cons.
    + rewrite (Ho2 n Hn). destruct (tree !! n) as [old|], (tree1 !! n) as [new|]; [right|by left|done|by left].
      exists old, new. destruct Hk1 as [Hs Hlt]. split_and!; [done..|lia].
    + destruct (Hk2 k Hk) as [?|(old & new & Hold & Hnew & Hs & Hlt)]; [by left|right].
      exists old, new. rewrite <- (Ho1 k) by (intros ->; done). split_and!; [done..|lia].
Qed.

(** The panic wipe always finishes, and whatever fails on the way it
    touches nothing the core does not own; each owned name is gone at the
    end, or its removal failed, is counted in [errors], and left the small
    files behind it zeroed wherever overwriting them worked. In particular a
    report without errors means that no owned file or directory is left. *)
Theorem panic_wipe_erases tree :
  let '(tree', r) := panic_wipe tree in
  (∀ k, k ∉ OWNED_FILES ++ OWNED_DIRS → tree' !! k = tree !! k)
  ∧ (wr_errors r = 0 → ∀ k, k ∈ OWNED_FILES ++ OWNED_DIRS → tree' !! k = None)
  ∧ ∀ k, k ∈ OWNED_FILES ++ OWNED_DIRS →
      tree' !! k = None
      ∨ ∃ old new, tree !! k = Some old ∧ tree' !! k = Some new ∧ scrubbed k old new ∧ 0 < wr_errors r.
Proof.
  unfold panic_wipe, remove_file_zeroed, remove_dir. rewrite <- foldl_app.
  assert (Hnd : NoDup (OWNED_FILES ++ OWNED_DIRS)) by (apply (bool_decide_eq_true (NoDup (OWNED_FILES ++ OWNED_DIRS))); by vm_compute).
  pose proof (remove_all_spec (OWNED_FILES ++ OWNED_DIRS) tree wipe_report_default Hnd) as H.
  destruct (foldl _ _ _) as [tree' r]. destruct H as (Ho & _ & Hk). cbn [wr_errors wipe_report_default] in *.
  split; [done|]. split; [|done]. intros Hr k Hin. destruct (Hk k Hin) as [?|(old & new & _ & _ & _ & ?)]; [done|lia].
Qed.
End Wipe.

(** A store whose removal fails is left zeroed, a foreign file as it was. *)
Example wipe_demo :
  let tree : DataDir := <["schat.db"%string := NFile [zb 1; zb 2]]> {["README.keep"%string := NFile [zb 3]]} in
  panic_wipe (λ _ _, None) (λ n, bool_decide (n = "schat.db"%string)) tree
  = (<["schat.db"%string := NFile [zb 0; zb 0]]> {["README.keep"%string := NFile [zb 3]]}, mkWipeReport 0 0 1).
Proof. vm_compute. reflexivity. Qed.
