(* ===== verification/StickerStore.v ===== *)
(** The sticker tables and what is built on them alone: the repositories
    [store/stickers.rs], [store/sticker_items.rs] and
    [store/sticker_cache.rs], the cache hygiene of [stickers/mod.rs], the
    pack keys of [stickers/keys.rs], and the quotas and installation of
    [stickers/packs.rs]. Curve25519 keys and XEdDSA are parameters. *)

From stdpp Require Import sorting.
From S2P Require Import Prelude Bin Limits WireSticker StickerDocs Policy Ledger EngineTypes.

(** ** Table updates *)

Definition set_packs (db : Db) (l : list PackRow) : Db :=
  let s := db_stickers db in
  set_stickers db (mkStickerDb l (sd_items s) (sd_keys s) (sd_cache s) (sd_serves s)).
Definition set_items (db : Db) (l : list StickerItemRow) : Db :=
  let s := db_stickers db in
  set_stickers db (mkStickerDb (sd_packs s) l (sd_keys s) (sd_cache s) (sd_serves s)).
Definition set_keys (db : Db) (m : gmap bytes bytes) : Db :=
  let s := db_stickers db in
  set_stickers db (mkStickerDb (sd_packs s) (sd_items s) m (sd_cache s) (sd_serves s)).
Definition set_cache (db : Db) (l : list CachedItemRow) : Db :=
  let s := db_stickers db in
  set_stickers db (mkStickerDb (sd_packs s) (sd_items s) (sd_keys s) l (sd_serves s)).
Definition set_serves (db : Db) (m : gmap (string * Z) Z) : Db :=
  let s := db_stickers db in
  set_stickers db (mkStickerDb (sd_packs s) (sd_items s) (sd_keys s) (sd_cache s) m).

Abbreviation packs db := (sd_packs (db_stickers db)).
Abbreviation items db := (sd_items (db_stickers db)).
Abbreviation cache db := (sd_cache (db_stickers db)).

(** INSERT OR REPLACE on the primary key: the old row goes, the new one
    takes a new rowid. *)
Definition replace_pack (l : list PackRow) (p : PackRow) : list PackRow :=
  filter (λ q, pk_pack_id q ≠ pk_pack_id p) l ++ [p].

(** The first row, in rowid order. *)
Definition first {A} (P : A → Prop) `{!∀ x, Decision (P x)} (l : list A) : option A :=
  head (filter P l).

(** ** [store/stickers.rs] *)

Definition repo_install_pack (db : Db) (p : PackRow) : Db :=
  set_packs db (replace_pack (packs db)
    (mkPackRow (pk_pack_id p) (pk_pack_pk p) (pk_title p) (pk_kind p) (pk_visibility p)
       (pk_item_count p) (pk_icon_item_id p) (as_i64 (db_now db)) false None 0)).

Definition repo_pack (db : Db) (pack_id : bytes) : option PackRow :=
  first (λ p, pk_pack_id p = pack_id) (packs db).

(** [ORDER BY installed_at ASC] *)
Definition installed_le (a b : PackRow) : Prop := pk_installed_at a ≤ pk_installed_at b.
#[export] Instance installed_le_dec : RelDecision installed_le := λ a b, Z_le_dec _ _.

Definition repo_list_packs (db : Db) : list PackRow := merge_sort installed_le (packs db).

Definition repo_remove_pack (db : Db) (pack_id : bytes) : Db * bool :=
  (set_packs db (filter (λ p, pk_pack_id p ≠ pack_id) (packs db)),
   bool_decide (is_Some (repo_pack db pack_id))).

(** ** [store/sticker_items.rs] *)

Definition repo_item (db : Db) (pack_id : bytes) (item_id : Z) : option StickerItemRow :=
  first (λ r, sr_pack_id r = pack_id ∧ sr_item_id r = item_id) (items db).

Definition put_item (db : Db) (it : StickerItemRow) : result StoreError Db :=
  match repo_item db (sr_pack_id it) (sr_item_id it) with
  | Some prev =>
      if negb (bool_decide (sr_sha256 prev = sr_sha256 it)) || negb (bool_decide (sr_bytes prev = sr_bytes it))
      then Err (Corrupt (Fmt "sticker item {}:{} rewritten" [sr_item_id it]))
      else Ok db
  | None => Ok (set_items db (items db ++ [it]))
  end.

(** [ORDER BY item_id ASC] *)
Definition item_id_le (a b : StickerItemRow) : Prop := sr_item_id a ≤ sr_item_id b.
#[export] Instance item_id_le_dec : RelDecision item_id_le := λ a b, Z_le_dec _ _.

Definition items_for (db : Db) (pack_id : bytes) : list StickerItemRow :=
  merge_sort item_id_le (filter (λ r, sr_pack_id r = pack_id) (items db)).

Definition item_by_sha (db : Db) (sha256 : bytes) : option StickerItemRow :=
  first (λ r, sr_sha256 r = sha256) (items db).

Definition delete_items (db : Db) (pack_id : bytes) : Db * Z :=
  (set_items db (filter (λ r, sr_pack_id r ≠ pack_id) (items db)),
   len (filter (λ r, sr_pack_id r = pack_id) (items db))).

Definition put_pack_key (db : Db) (pack_id secret : bytes) : Db :=
  set_keys db (<[pack_id := secret]> (sd_keys (db_stickers db))).

Definition pack_key (db : Db) (pack_id : bytes) : option bytes := sd_keys (db_stickers db) !! pack_id.

(** ** [store/sticker_cache.rs] *)

Record NewCachedItem := mkNewCachedItem {
  nc_sha256 : bytes;
  nc_bytes : bytes;
  nc_w : Z;
  nc_h : Z;
  nc_kind : Z;
  nc_pack_id : option bytes;
  nc_from_rel : option string;
}.

Definition cache_get (db : Db) (sha256 : bytes) : option CachedItemRow :=
  first (λ r, ci_sha256 r = sha256) (cache db).

Definition cache_put (db : Db) (it : NewCachedItem) : Db :=
  match cache_get db (nc_sha256 it) with
  | Some _ => db
  | None =>
      set_cache db (cache db ++
        [mkCachedItemRow (nc_sha256 it) (nc_bytes it) (nc_w it) (nc_h it) (nc_kind it) (nc_pack_id it)
           (nc_from_rel it) (as_i64 (db_now db))])
  end.

(** [ORDER BY created_at ASC] and [DESC] *)
Definition created_le (a b : CachedItemRow) : Prop := ci_created_at a ≤ ci_created_at b.
#[export] Instance created_le_dec : RelDecision created_le := λ a b, Z_le_dec _ _.
Definition created_ge (a b : CachedItemRow) : Prop := ci_created_at b ≤ ci_created_at a.
#[export] Instance created_ge_dec : RelDecision created_ge := λ a b, Z_le_dec _ _.

Definition cache_list_oldest (db : Db) (limit : Z) : list CachedItemRow :=
  take (Z.to_nat limit) (merge_sort created_le (cache db)).

Definition cache_delete (db : Db) (sha256 : bytes) : Db * bool :=
  (set_cache db (filter (λ r, ci_sha256 r ≠ sha256) (cache db)),
   bool_decide (is_Some (cache_get db sha256))).

Definition cache_stats (db : Db) : Z * Z :=
  (len (cache db), foldr (λ r n, len (ci_bytes r) + n) 0 (cache db)).

Definition cache_evict_before (db : Db) (before : Z) : Db * Z :=
  (set_cache db (filter (λ r, ¬ ci_created_at r < as_i64 before) (cache db)),
   len (filter (λ r, ci_created_at r < as_i64 before) (cache db))).

Definition note_pack_serve (db : Db) (rel_id : string) (day : Z) : Db * Z :=
  let count := default 0 (sd_serves (db_stickers db) !! (rel_id, as_i64 day)) + 1 in
  (set_serves db (<[(rel_id, as_i64 day) := count]> (sd_serves (db_stickers db))), count).

(** ** [sweep_cache] of [stickers/mod.rs] *)

(** [ORDER BY last_used_at DESC] *)
Definition used_ge (a b : PackRow) : Prop := pk_last_used_at b ≤ pk_last_used_at a.
#[export] Instance used_ge_dec : RelDecision used_ge := λ a b, Z_le_dec _ _.

(** The five DELETE statements, in order. *)
Definition sweep_cache (db : Db) : Db :=
  let horizon := as_i64 (sat_sub (db_now db) CACHE_TTL_SEC) in
  let c := filter (λ r, ¬ ci_created_at r < horizon) (cache db) in
  let newest := take (Z.to_nat MAX_CACHE_ENTRIES) (merge_sort created_ge c) in
  let c := filter (λ r, ci_sha256 r ∈ (ci_sha256 <$> newest)) c in
  let p := filter (λ r, ¬ (pk_cached r = true ∧ pk_last_used_at r < horizon)) (packs db) in
  let kept := take (Z.to_nat MAX_CACHED_PACKS)
                (merge_sort used_ge (filter (λ r, pk_cached r = true) p)) in
  let p := filter (λ r, ¬ (pk_cached r = true ∧ pk_pack_id r ∉ (pk_pack_id <$> kept))) p in
  let i := filter (λ r, sr_pack_id r ∈ (pk_pack_id <$> p)) (items db) in
  set_items (set_packs (set_cache db c) p) i.

(** ** [stickers/keys.rs] *)

Section Keys.
Context (private_ok public_ok : bytes → bool).
Context (verify_signature : bytes → bytes → bytes → bool).

(** The DJB type byte. *)
Definition public_from_raw (raw : bytes) : result StoreError bytes :=
  let buf := zb 5 :: raw in
  if public_ok buf then Ok buf else Err (Corrupt (Lit "pack pk: {e}")).

Definition verify_with (pack_pk body sig : bytes) : bool :=
  match public_from_raw pack_pk with
  | Ok pk => verify_signature pk body sig
  | Err _ => false
  end.

(** A [PackKey]: the raw public half and the private half. *)
Record PackKey := mkPackKey { pkey_public : bytes; pkey_private : bytes }.

Definition store_pack_key (db : Db) (pack_id : bytes) (key : PackKey) : Db :=
  put_pack_key db pack_id (pkey_private key).

Definition load_pack_key (db : Db) (pack_id : bytes) : result StoreError (option PackKey) :=
  match pack_key db pack_id with
  | None => Ok None
  | Some secret =>
      if negb (private_ok secret) then Err (Corrupt (Lit "pack key: {e}"))
      else
        match repo_pack db pack_id with
        | None => Err (Corrupt (Lit "pack key without pack row"))
        | Some row =>
            let* _ := public_from_raw (pk_pack_pk row) in
            Ok (Some (mkPackKey (pk_pack_pk row) secret))
        end
  end.
End Keys.

(** ** [stickers/packs.rs] *)

Record PackInfo := mkPackInfo {
  in_pack_id : bytes;
  in_pack_pk : bytes;
  in_title : bytes;
  in_kind : Z;
  in_visibility : Z;
  in_item_count : Z;
  in_icon_item_id : Z;
  in_ours : bool;
  in_cached : bool;
}.

Definition row_to_info (db : Db) (r : PackRow) : PackInfo :=
  mkPackInfo (pk_pack_id r) (pk_pack_pk r) (pk_title r) (pk_kind r) (pk_visibility r)
    (pk_item_count r) (pk_icon_item_id r) (bool_decide (is_Some (pack_key db (pk_pack_id r))))
    (pk_cached r).

Definition list_packs (db : Db) : list PackInfo := row_to_info db <$> merge_sort installed_le (packs db).

Definition pack_info (db : Db) (pack_id : bytes) : option PackInfo :=
  row_to_info db <$> repo_pack db pack_id.

Definition admit_pack (db : Db) (from_rel : option string) (cached : bool) : result EngineError unit :=
  if len (packs db) >=? MAX_PACKS_TOTAL then Err (EditDenied "pack quota reached")
  else
    let* _ := match from_rel with
              | Some rel =>
                  if len (filter (λ p, pk_from_rel p = Some rel) (packs db)) >=? MAX_PACKS_PER_SENDER
                  then Err (EditDenied "per-sender pack quota reached") else Ok tt
              | None => Ok tt
              end in
    if cached && (len (filter (λ p, pk_cached p = true) (packs db)) >=? MAX_CACHED_PACKS)
    then Err (EditDenied "cached pack quota reached") else Ok tt.

(** The row of one item of a document. *)
Definition item_row (pack_id : bytes) (it : PackDocItem) : StickerItemRow :=
  mkStickerItemRow pack_id (pi_item_id it) (pi_w it) (pi_h it) (pi_sha256 it) (pi_bytes it).

Fixpoint put_items (db : Db) (rows : list StickerItemRow) : Db * result EngineError unit :=
  match rows with
  | [] => (db, Ok tt)
  | r :: rows =>
      match put_item db r with
      | Err e => (db, Err (EStore e))
      | Ok db => put_items db rows
      end
  end.

Definition install_doc (db : Db) (doc : StickerPackDoc) (pack_pk : bytes) (from_rel : option string)
    (cached : bool) : Db * result EngineError unit :=
  match admit_pack db from_rel cached with
  | Err e => (db, Err e)
  | Ok _ =>
      let now := as_i64 (db_now db) in
      let row := mkPackRow (pd_pack_id doc) pack_pk (pd_title doc) (pd_kind doc) (pd_visibility doc)
                   (len (pd_items doc)) (pd_icon_item_id doc) now cached from_rel now in
      let db := set_packs db (replace_pack (packs db) row) in
      let db := (delete_items db (pd_pack_id doc)).1 in
      put_items db (item_row (pd_pack_id doc) <$> pd_items doc)
  end.

Definition remove_pack (db : Db) (pack_id : bytes) : Db * bool :=
  let n := len (filter (λ p, pk_pack_id p = pack_id) (packs db)) in
  let db := set_packs db (filter (λ p, pk_pack_id p ≠ pack_id) (packs db)) in
  let db := (delete_items db pack_id).1 in
  let db := set_keys db (delete pack_id (sd_keys (db_stickers db))) in
  (db, n >? 0).

(** The document a pack's rows spell out ([pack_document], before signing). *)
Definition stored_doc (db : Db) (info : PackInfo) (pack_id : bytes) : StickerPackDoc :=
  mkStickerPackDoc pack_id (in_kind info) (in_visibility info) (in_title info) (in_icon_item_id info)
    ((λ r, mkPackDocItem (sr_item_id r) (sr_w r) (sr_h r) (sr_sha256 r) (sr_bytes r))
     <$> items_for db pack_id).

Section Documents.
Context (private_ok public_ok : bytes → bool).
Context (verify_signature : bytes → bytes → bytes → bool).
Context (sha256 : bytes → bytes).

(** [sign]: the signature of a body under a private key, with the random
    bytes XEdDSA draws. *)
Context (calculate_signature : bytes → bytes → bytes → bytes).

Definition pack_document (db : Db) (random pack_id : bytes) : result EngineError (option bytes) :=
  match pack_info db pack_id with
  | None => Ok None
  | Some info =>
      let* body := map_err EWire (body_bytes (stored_doc db info pack_id)) in
      let* key := map_err EStore (load_pack_key private_ok public_ok db pack_id) in
      match key with
      | None => Ok None
      | Some key => Ok (Some (body ++ calculate_signature (pkey_private key) body random))
      end
  end.

Definition install_pack_blob (db : Db) (blob pack_pk : bytes) (from_rel : option string) (cached : bool)
    : Db * result EngineError bytes :=
  match decode_signed (verify_with public_ok verify_signature) sha256 blob pack_pk with
  | Err e => (db, Err (EWire e))
  | Ok doc =>
      match install_doc db doc pack_pk from_rel cached with
      | (db, Err e) => (db, Err e)
      | (db, Ok _) => (db, Ok (pd_pack_id doc))
      end
  end.

(** [pack_id] and [key] are what the generator drew. *)
Definition create_pack (db : Db) (pack_id : bytes) (key : PackKey) (title : bytes) (kind visibility
    icon_item_id : Z) (its : list PackDocItem) : Db * result EngineError (bytes * bytes) :=
  let doc := mkStickerPackDoc pack_id kind visibility title icon_item_id its in
  match body_bytes doc with
  | Err e => (db, Err (EWire e))
  | Ok _ =>
      match install_doc db doc (pkey_public key) None false with
      | (db, Err e) => (db, Err e)
      | (db, Ok _) => (store_pack_key db pack_id key, Ok (pack_id, pkey_public key))
      end
  end.
End Documents.

(** ** Row lists *)

Lemma first_Some {A} (P : A → Prop) `{!∀ x, Decision (P x)} l x :
  first P l = Some x → P x ∧ x ∈ l.
Proof.
  unfold first. destruct (filter P l) as [|y k] eqn:E; [done|]. intros [= ->].
  apply (list_elem_of_filter P l). rewrite E. by left.
Qed.

Lemma first_None {A} (P : A → Prop) `{!∀ x, Decision (P x)} l :
  first P l = None ↔ ∀ x, x ∈ l → ¬ P x.
Proof.
  unfold first. split.
  - intros Hn x Hx HP. destruct (filter P l) as [|y k] eqn:E; [|done].
    apply (not_elem_of_nil x). rewrite <- E. by apply (list_elem_of_filter P l).
  - intros Hn. destruct (filter P l) as [|y k] eqn:E; [done|].
    assert (y ∈ filter P l) as [? ?]%list_elem_of_filter by (rewrite E; by left). by destruct (Hn y).
Qed.

Lemma filter_filter_imp {A} (P Q : A → Prop) `{!∀ x, Decision (P x), !∀ x, Decision (Q x)} (l : list A) :
  (∀ x, P x → Q x) → filter P (filter Q l) = filter P l.
Proof.
  intros HPQ. induction l as [|x l IH]; [done|]. rewrite (filter_cons Q), (filter_cons P x l).
  destruct (decide (Q x)) as [Hq|Hq].
  - rewrite filter_cons. by destruct (decide (P x)); rewrite IH.
  - by rewrite decide_False by auto.
Qed.

(** With unique keys, the first row with a key is the row with that key. *)
Lemma first_unique {A B} (f : A → B) `{!EqDecision B} l x :
  NoDup (f <$> l) → x ∈ l → first (λ y, f y = f x) l = Some x.
Proof.
  intros Hnd Hx. destruct (first _ l) as [y|] eqn:E.
  - apply first_Some in E as [Hf Hy]. f_equal.
    apply list_elem_of_lookup in Hx as [i Hi], Hy as [j Hj].
    assert (i = j) as <-; [|congruence].
    eapply NoDup_lookup; [exact Hnd| |]; rewrite list_lookup_fmap; [by rewrite Hi|by rewrite Hj, <- Hf].
  - rewrite first_None in E. by destruct (E x Hx).
Qed.

Lemma len_filter_le {A} (P : A → Prop) `{!∀ x, Decision (P x)} l : len (filter P l) ≤ len l.
Proof. unfold len. pose proof (length_filter P l). lia. Qed.

Lemma len_filter_filter {A} (P Q : A → Prop) `{!∀ x, Decision (P x), !∀ x, Decision (Q x)} l :
  len (filter P (filter Q l)) ≤ len (filter P l).
Proof.
  induction l as [|x l IH]; [done|]. rewrite (filter_cons Q), (filter_cons P x l).
  destruct (decide (Q x)).
  - rewrite filter_cons. case_decide; rewrite ?len_cons; lia.
  - case_decide; rewrite ?len_cons; lia.
Qed.

Lemma len_filter_replace (P : PackRow → Prop) `{!∀ x, Decision (P x)} l p :
  len (filter P (replace_pack l p)) ≤ len (filter P l) + (if decide (P p) then 1 else 0).
Proof.
  unfold replace_pack. rewrite filter_app, len_app.
  pose proof (len_filter_filter P (λ q, pk_pack_id q ≠ pk_pack_id p) l).
  rewrite filter_cons. destruct (decide (P p)); cbn; rewrite ?len_cons, ?len_nil; lia.
Qed.

Lemma NoDup_replace l p : NoDup (pk_pack_id <$> l) → NoDup (pk_pack_id <$> replace_pack l p).
Proof.
  intros H. unfold replace_pack. rewrite fmap_app. apply NoDup_app. split_and!.
  - by apply NoDup_fmap_filter.
  - intros k Hk. apply list_elem_of_fmap in Hk as (q & -> & [Hq _]%list_elem_of_filter).
    by intros ?%list_elem_of_singleton.
  - apply NoDup_singleton.
Qed.

(** ** The invariant of the sticker tables *)

Definition item_key (r : StickerItemRow) : bytes * Z := (sr_pack_id r, sr_item_id r).

(** Primary keys are unique, every item has its pack, and the device quotas
    hold. *)
Record sticker_tables_wf (s : StickerDb) : Prop := {
  wf_pack_ids : NoDup (pk_pack_id <$> sd_packs s);
  wf_item_keys : NoDup (item_key <$> sd_items s);
  wf_item_pack : Forall (λ r, sr_pack_id r ∈ (pk_pack_id <$> sd_packs s)) (sd_items s);
  wf_cache_keys : NoDup (ci_sha256 <$> sd_cache s);
  wf_total : len (sd_packs s) ≤ MAX_PACKS_TOTAL;
  wf_sender : ∀ rel, len (filter (λ p, pk_from_rel p = Some rel) (sd_packs s)) ≤ MAX_PACKS_PER_SENDER;
  wf_cached : len (filter (λ p, pk_cached p = true) (sd_packs s)) ≤ MAX_CACHED_PACKS;
}.

Definition stickers_wf (db : Db) : Prop := sticker_tables_wf (db_stickers db).

Lemma admit_pack_Ok db from_rel cached :
  admit_pack db from_rel cached = Ok tt →
  len (packs db) < MAX_PACKS_TOTAL
  ∧ (∀ rel, from_rel = Some rel →
       len (filter (λ p, pk_from_rel p = Some rel) (packs db)) < MAX_PACKS_PER_SENDER)
  ∧ (cached = true → len (filter (λ p, pk_cached p = true) (packs db)) < MAX_CACHED_PACKS).
Proof.
  unfold admit_pack. destruct (Z.geb_spec (len (packs db)) MAX_PACKS_TOTAL); [done|].
  intros (u & Hs & Hc)%rbind_Ok. split_and!; [done| |].
  - intros rel ->. revert Hs. destruct (Z.geb_spec (len (filter (λ p, pk_from_rel p = Some rel) (packs db)))
      MAX_PACKS_PER_SENDER); [done|lia].
  - intros ->. revert Hc. cbn [andb]. destruct (Z.geb_spec (len (filter (λ p, pk_cached p = true) (packs db)))
      MAX_CACHED_PACKS); [done|lia].
Qed.

Lemma put_item_Ok db r db' :
  put_item db r = Ok db' →
  db' = db ∨ (db' = set_items db (items db ++ [r]) ∧ item_key r ∉ (item_key <$> items db)).
Proof.
  unfold put_item. destruct (repo_item db _ _) as [prev|] eqn:E.
  - destruct (_ || _); [done|]. intros [= ->]. by left.
  - intros [= <-]. right. split; [done|]. intros (q & Hq & Hin)%list_elem_of_fmap.
    unfold repo_item in E. rewrite first_None in E. apply (E q Hin). by injection Hq as -> ->.
Qed.

(** Only the item table moves. *)
Lemma put_items_only db rows db' r :
  put_items db rows = (db', r) → ∃ l, db' = set_items db l.
Proof.
  revert db. induction rows as [|x rows IH]; intros db; cbn [put_items].
  - intros [= <- <-]. exists (items db). by destruct db as [???????????? []].
  - destruct (put_item db x) as [db1|e] eqn:E.
    + intros [l ->]%IH. exists l. by apply put_item_Ok in E as [->|[-> _]].
    + intros [= <- <-]. exists (items db). by destruct db as [???????????? []].
Qed.

Lemma put_items_wf db rows db' r :
  put_items db rows = (db', r) → Forall (λ x, sr_pack_id x ∈ (pk_pack_id <$> packs db)) rows →
  stickers_wf db → stickers_wf db'.
Proof.
  revert db. induction rows as [|x rows IH]; intros db; cbn [put_items].
  - by intros [= <- <-].
  - destruct (put_item db x) as [db1|e] eqn:E; [|by intros [= <- <-]].
    intros Hp [Hx Hr]%Forall_cons Hw.
    apply put_item_Ok in E as [->|[-> Hnew]]; [by eapply IH|].
    eapply IH; [exact Hp|done|]. destruct Hw. split; cbn; try done.
    + rewrite fmap_app. apply NoDup_app. split_and!; [done| |apply NoDup_singleton].
      intros k Hk Hin. cbn in Hin. apply list_elem_of_singleton in Hin as ->. done.
    + apply Forall_app. split; [done|]. by constructor.
Qed.

Lemma install_doc_wf db doc pk from_rel cached db' r :
  install_doc db doc pk from_rel cached = (db', r) → stickers_wf db → stickers_wf db'.
Proof.
  unfold install_doc. destruct (admit_pack db from_rel cached) as [[]|e] eqn:Ha; [|by intros [= <- <-]].
  apply admit_pack_Ok in Ha as (Ht & Hs & Hc). intros Hp Hw.
  eapply put_items_wf; [exact Hp| |].
  - apply Forall_fmap, Forall_forall. intros it _. cbn. unfold replace_pack.
    rewrite fmap_app. apply elem_of_app. right. by left.
  - destruct Hw. split; cbn.
    + by apply NoDup_replace.
    + by apply NoDup_fmap_filter.
    + apply Forall_forall. intros x [Hne Hin]%list_elem_of_filter.
      rewrite Forall_forall in wf_item_pack0. apply wf_item_pack0 in Hin as (q & Hq & Hin)%list_elem_of_fmap.
      apply list_elem_of_fmap. exists q. split; [done|]. apply elem_of_app. left.
      apply list_elem_of_filter. split; [|done]. cbn. by rewrite <- Hq.
    + done.
    + unfold replace_pack. rewrite len_app.
      pose proof (len_filter_le (λ q, pk_pack_id q ≠ pd_pack_id doc) (packs db)). cbn in *.
      rewrite len_cons, len_nil. lia.
    + intros rel. etrans; [apply len_filter_replace|]. cbn. case_decide as Hf.
      * specialize (Hs rel Hf). lia.
      * specialize (wf_sender0 rel). lia.
    + etrans; [apply len_filter_replace|]. cbn. case_decide as Hf; [specialize (Hc Hf); lia|lia].
Qed.

Lemma remove_pack_wf db pack_id : stickers_wf db → stickers_wf (remove_pack db pack_id).1.
Proof.
  intros [H1 H2 H3 H4 H5 H6 H7]. unfold remove_pack. cbn. split; cbn.
  - by apply NoDup_fmap_filter.
  - by apply NoDup_fmap_filter.
  - apply Forall_forall. intros x [Hne Hin]%list_elem_of_filter. rewrite Forall_forall in H3.
    apply H3 in Hin as (q & Hq & Hin)%list_elem_of_fmap. apply list_elem_of_fmap. exists q.
    split; [done|]. apply list_elem_of_filter. split; [by rewrite <- Hq|done].
  - done.
  - pose proof (len_filter_le (λ p, pk_pack_id p ≠ pack_id) (packs db)). lia.
  - intros rel. specialize (H6 rel). etrans; [apply len_filter_filter|done].
  - etrans; [apply len_filter_filter|done].
Qed.

Lemma cache_put_wf db it : stickers_wf db → stickers_wf (cache_put db it).
Proof.
  intros Hw. unfold cache_put. destruct (cache_get db (nc_sha256 it)) eqn:E; [done|].
  destruct Hw. split; cbn; try done. rewrite fmap_app. apply NoDup_app.
  split_and!; [done| |apply NoDup_singleton]. intros k (q & -> & Hq)%list_elem_of_fmap Hin.
  cbn in Hin. apply list_elem_of_singleton in Hin. unfold cache_get in E. rewrite first_None in E.
  by apply (E q Hq).
Qed.

Lemma sweep_cache_wf db : stickers_wf db → stickers_wf (sweep_cache db).
Proof.
  intros [H1 H2 H3 H4 H5 H6 H7]. unfold sweep_cache. split; cbn.
  - by do 2 apply NoDup_fmap_filter.
  - by apply NoDup_fmap_filter.
  - apply Forall_forall. by intros x [Hin _]%list_elem_of_filter.
  - by do 2 apply NoDup_fmap_filter.
  - etrans; [apply len_filter_le|]. etrans; [apply len_filter_le|done].
  - intros rel. etrans; [apply len_filter_filter|]. etrans; [apply len_filter_filter|]. apply H6.
  - etrans; [apply len_filter_filter|]. etrans; [apply len_filter_filter|done].
Qed.

(** ** Sorting *)

#[export] Instance created_ge_trans : Transitive created_ge.
Proof. intros a b c. unfold created_ge. lia. Qed.
#[export] Instance created_ge_total : Total created_ge.
Proof. intros a b. unfold created_ge. lia. Qed.
#[export] Instance used_ge_trans : Transitive used_ge.
Proof. intros a b c. unfold used_ge. lia. Qed.
#[export] Instance used_ge_total : Total used_ge.
Proof. intros a b. unfold used_ge. lia. Qed.
#[export] Instance item_id_le_trans : Transitive item_id_le.
Proof. intros a b c. unfold item_id_le. lia. Qed.
#[export] Instance item_id_le_total : Total item_id_le.
Proof. intros a b. unfold item_id_le. lia. Qed.

(** What [ORDER BY ... LIMIT n] keeps comes before what it leaves. *)
Lemma limit_before {A} (R : A → A → Prop) `{!RelDecision R, !Transitive R, !Total R} n l x y :
  x ∈ take n (merge_sort R l) → y ∈ l → y ∉ take n (merge_sort R l) → R x y.
Proof.
  intros Hx Hy Hny. pose proof (StronglySorted_merge_sort R l) as Hs.
  rewrite <- (take_drop n (merge_sort R l)) in Hs.
  rewrite <- (merge_sort_Permutation R l), <- (take_drop n (merge_sort R l)), elem_of_app in Hy.
  destruct Hy as [Hy|Hy]; [done|]. by eapply StronglySorted_app_1_elem_of.
Qed.

(** Two sorted listings of the same rows agree when the sort key is unique. *)
Lemma sorted_listing_unique (l k : list StickerItemRow) :
  l ≡ₚ k → NoDup (sr_item_id <$> l) →
  StronglySorted item_id_le l → StronglySorted item_id_le k → l = k.
Proof.
  revert k. induction l as [|x l IH]; intros k Hp Hnd Hl Hk.
  - by apply Permutation_nil_l in Hp as ->.
  - destruct k as [|y k]; [by apply Permutation_nil_r in Hp|].
    apply StronglySorted_inv in Hl as [Hl Hx], Hk as [Hk Hy].
    rewrite Forall_forall in Hx, Hy.
    assert (x = y) as ->.
    { assert (Hxy : x ∈ y :: k) by (rewrite <- Hp; by left).
      assert (Hyx : y ∈ x :: l) by (rewrite Hp; by left).
      apply elem_of_cons in Hxy as [|Hxy], Hyx as [|Hyx]; try done.
      cbn in Hnd. apply NoDup_cons in Hnd as [Hnx _]. exfalso. apply Hnx.
      apply list_elem_of_fmap. exists y. split; [|done].
      specialize (Hx y Hyx). specialize (Hy x Hxy). unfold item_id_le in *. lia. }
    f_equal. cbn in Hnd. apply NoDup_cons in Hnd as [_ Hnd]. apply IH; try done. by eapply Permutation_cons_inv.
Qed.

(** ** Eviction *)

Definition cache_horizon (db : Db) : Z := as_i64 (sat_sub (db_now db) CACHE_TTL_SEC).

Lemma newest_in (P : CachedItemRow → Prop) (l newest : list CachedItemRow) r :
  NoDup (ci_sha256 <$> l) → (∀ x, x ∈ newest → x ∈ l) →
  r ∈ filter (λ r, ci_sha256 r ∈ (ci_sha256 <$> newest)) l ↔ r ∈ newest.
Proof.
  intros Hnd Hsub. rewrite list_elem_of_filter, list_elem_of_fmap. split.
  - intros [(q & Hq & Hin) Hr]. assert (Some r = Some q) as [= ->]; [|done].
    rewrite <- (first_unique ci_sha256 l r), <- (first_unique ci_sha256 l q) by auto. by rewrite Hq.
  - intros Hr. split; [by exists r|auto].
Qed.

(** The cache hygiene pass leaves at most the entry cap of loose items,
    none older than a week, evicts the oldest first, and takes nothing else:
    fresh items within the cap stay, a user-installed pack stays with all its
    items, and the tables' invariant is kept. *)
Theorem sweep_cache_spec db :
  stickers_wf db →
  let db' := sweep_cache db in
  stickers_wf db'
  ∧ len (cache db') ≤ MAX_CACHE_ENTRIES
  ∧ (∀ r, r ∈ cache db' → r ∈ cache db ∧ cache_horizon db ≤ ci_created_at r)
  ∧ (∀ r q, r ∈ cache db' → q ∈ cache db → cache_horizon db ≤ ci_created_at q → q ∉ cache db' →
       ci_created_at q ≤ ci_created_at r)
  ∧ (len (cache db) ≤ MAX_CACHE_ENTRIES →
       ∀ r, r ∈ cache db → cache_horizon db ≤ ci_created_at r → r ∈ cache db')
  ∧ (∀ p, p ∈ packs db → pk_cached p = false →
       p ∈ packs db' ∧ items_for db' (pk_pack_id p) = items_for db (pk_pack_id p)).
Proof.
  intros Hw db'. pose proof (sweep_cache_wf db Hw) as Hw'. split; [done|].
  set (c := filter (λ r, ¬ ci_created_at r < cache_horizon db) (cache db)).
  set (newest := take (Z.to_nat MAX_CACHE_ENTRIES) (merge_sort created_ge c)).
  assert (Hnd : NoDup (ci_sha256 <$> c)) by (apply NoDup_fmap_filter; apply Hw).
  assert (Hsub : ∀ x, x ∈ newest → x ∈ c).
  { intros x Hx. rewrite <- (merge_sort_Permutation created_ge c). unfold newest in Hx.
    apply elem_of_take in Hx as (i & Hi & _). by eapply list_elem_of_lookup_2. }
  assert (Hc : cache db' = filter (λ r, ci_sha256 r ∈ (ci_sha256 <$> newest)) c) by done.
  assert (Hin : ∀ r, r ∈ cache db' ↔ r ∈ newest)
    by (intros r; rewrite Hc; by apply (newest_in (λ _, True))).
  assert (Hcin : ∀ r, r ∈ c ↔ r ∈ cache db ∧ cache_horizon db ≤ ci_created_at r)
    by (intros r; unfold c; rewrite list_elem_of_filter, Z.nlt_ge; tauto).
  split_and!.
  - assert (Hs : cache db' ⊆+ newest).
    { apply NoDup_submseteq; [eapply NoDup_fmap_1, (wf_cache_keys _ Hw')|]. intros r. by rewrite Hin. }
    apply submseteq_length in Hs. unfold newest in Hs. rewrite length_take in Hs.
    unfold len, MAX_CACHE_ENTRIES in *. lia.
  - intros r Hr%Hin%Hsub%Hcin. done.
  - intros r q Hr%Hin Hq Hh Hnq. rewrite Hin in Hnq.
    apply (limit_before created_ge (Z.to_nat MAX_CACHE_ENTRIES) c r q); [done|by apply Hcin|done].
  - intros Hl r Hr Hh. apply Hin. unfold newest.
    rewrite take_ge; [by rewrite merge_sort_Permutation; apply Hcin|].
    rewrite (Permutation_length (merge_sort_Permutation created_ge c)).
    pose proof (len_filter_le (λ r, ¬ ci_created_at r < cache_horizon db) (cache db)) as Hle.
    fold c in Hle. unfold len, MAX_CACHE_ENTRIES in *. lia.
  - intros p Hp Hcd.
    assert (Hp' : p ∈ packs db').
    { unfold db', sweep_cache. cbn. rewrite !list_elem_of_filter, Hcd. split_and!; [naive_solver..|done]. }
    split; [done|]. unfold items_for. f_equal. unfold db', sweep_cache. cbn.
    apply filter_filter_imp. intros x ->. apply list_elem_of_fmap. by exists p.
Qed.

(** ** Installation *)

Lemma put_items_fresh db rows :
  NoDup (item_key <$> rows) → (∀ r, r ∈ rows → item_key r ∉ (item_key <$> items db)) →
  put_items db rows = (set_items db (items db ++ rows), Ok tt).
Proof.
  revert db. induction rows as [|x rows IH]; intros db Hnd Hnew; cbn [put_items].
  - rewrite app_nil_r. by destruct db as [???????????? []].
  - unfold put_item. destruct (repo_item db _ _) as [q|] eqn:E.
    + apply first_Some in E as [[E1 E2] Hq]. destruct (Hnew x); [by left|].
      apply list_elem_of_fmap. exists q. split; [|done]. unfold item_key. by rewrite E1, E2.
    + cbn in Hnd. apply NoDup_cons in Hnd as [Hx Hnd]. rewrite IH; [cbn; by rewrite <- app_assoc|done|].
      intros r Hr. cbn. rewrite fmap_app. intros [Hin|Hin]%elem_of_app.
      * apply (Hnew r); [by right|done].
      * cbn in Hin. apply list_elem_of_singleton in Hin. apply Hx. rewrite <- Hin.
        apply list_elem_of_fmap. by exists r.
Qed.

Lemma doc_row_keys pack_id its :
  NoDup (pi_item_id <$> its) → NoDup (item_key <$> (item_row pack_id <$> its)).
Proof.
  intros H. rewrite <- list_fmap_compose.
  replace ((item_key ∘ item_row pack_id) <$> its) with (pair pack_id <$> (pi_item_id <$> its))
    by (by rewrite <- list_fmap_compose).
  apply NoDup_fmap_2; [|done]. by intros ?? [= ->].
Qed.

(** An installation that passes the quotas always succeeds and leaves
    exactly the document's rows for its pack. *)
Lemma install_doc_Ok db doc pk from_rel cached :
  admit_pack db from_rel cached = Ok tt → NoDup (pi_item_id <$> pd_items doc) →
  ∃ db', install_doc db doc pk from_rel cached = (db', Ok tt)
  ∧ repo_pack db' (pd_pack_id doc)
    = Some (mkPackRow (pd_pack_id doc) pk (pd_title doc) (pd_kind doc) (pd_visibility doc)
              (len (pd_items doc)) (pd_icon_item_id doc) (as_i64 (db_now db)) cached from_rel
              (as_i64 (db_now db)))
  ∧ filter (λ r, sr_pack_id r = pd_pack_id doc) (items db') = item_row (pd_pack_id doc) <$> pd_items doc
  ∧ (∀ other, other ≠ pd_pack_id doc →
       repo_pack db' other = repo_pack db other ∧ items_for db' other = items_for db other)
  ∧ sd_keys (db_stickers db') = sd_keys (db_stickers db).
Proof.
  intros Ha Hnd. unfold install_doc. rewrite Ha. eexists. split.
  { apply put_items_fresh; [by apply doc_row_keys|].
    intros r (it & -> & _)%list_elem_of_fmap (q & Hq & Hin)%list_elem_of_fmap. cbn in Hin.
    apply list_elem_of_filter in Hin as [Hne _]. by injection Hq as Hq _. }
  assert (Hsame : ∀ l : list StickerItemRow,
    filter (λ r, sr_pack_id r = pd_pack_id doc) (filter (λ r, sr_pack_id r ≠ pd_pack_id doc) l) = []).
  { intros l. induction l as [|x l IH]; [done|]. rewrite filter_cons. case_decide; [|done].
    by rewrite filter_cons, decide_False. }
  split_and!; cbn.
  - unfold repo_pack, first. cbn. unfold replace_pack. rewrite filter_app. cbn.
    assert (filter (λ p, pk_pack_id p = pd_pack_id doc)
              (filter (λ q, pk_pack_id q ≠ pd_pack_id doc) (packs db)) = []) as ->.
    { induction (packs db) as [|x l IH]; [done|]. rewrite filter_cons. case_decide; [|done].
      by rewrite filter_cons, decide_False. }
    cbn. by rewrite decide_True.
  - rewrite filter_app, Hsame. cbn. induction (pd_items doc) as [|it l IH]; [done|].
    cbn [fmap list_fmap]. rewrite filter_cons, decide_True by done. f_equal. apply IH.
    cbn in Hnd. by apply NoDup_cons in Hnd as [_ ?].
  - intros other Hne. split.
    + unfold repo_pack, first. cbn. unfold replace_pack. rewrite filter_app. cbn.
      rewrite decide_False by done. rewrite app_nil_r.
      by rewrite filter_filter_imp by (by intros x ->).
    + unfold items_for. cbn. f_equal. rewrite filter_app.
      assert (filter (λ r, sr_pack_id r = other) (item_row (pd_pack_id doc) <$> pd_items doc) = []) as ->.
      { induction (pd_items doc) as [|it l IH]; [done|]. cbn [fmap list_fmap].
        rewrite filter_cons, decide_False by done. apply IH. cbn in Hnd. by apply NoDup_cons in Hnd as [_ ?]. }
      rewrite app_nil_r. apply filter_filter_imp. by intros x ->.
  - done.
Qed.

(** The items of a document as the store lists them. *)
Definition doc_item (r : StickerItemRow) : PackDocItem :=
  mkPackDocItem (sr_item_id r) (sr_w r) (sr_h r) (sr_sha256 r) (sr_bytes r).

Lemma items_for_sorted db pack_id : StronglySorted item_id_le (items_for db pack_id).
Proof. apply StronglySorted_merge_sort; apply _. Qed.

Lemma items_for_pack db pack_id : Forall (λ r, sr_pack_id r = pack_id) (items_for db pack_id).
Proof.
  apply Forall_forall. intros r. unfold items_for. rewrite merge_sort_Permutation.
  by intros [? _]%list_elem_of_filter.
Qed.

Lemma row_of_doc_item pack_id l :
  Forall (λ r, sr_pack_id r = pack_id) l → item_row pack_id <$> (doc_item <$> l) = l.
Proof. induction 1 as [|[] l <- _ IH]; [done|]. cbn [fmap list_fmap]. by rewrite IH. Qed.

Section Transfer.
Context (private_ok public_ok : bytes → bool).
Context (verify_signature : bytes → bytes → bytes → bool).
Context (sha256 : bytes → bytes).
Context (calculate_signature : bytes → bytes → bytes → bytes).

(** The pack's stored private key signs for its public key. *)
Definition key_signs (db : Db) (pack_id : bytes) : Prop :=
  ∀ row secret, repo_pack db pack_id = Some row → pack_key db pack_id = Some secret →
  ∀ body random,
    verify_signature (zb 5 :: pk_pack_pk row) body (calculate_signature secret body random) = true
    ∧ len (calculate_signature secret body random) = 64.

Lemma pack_document_Some db random pack_id info blob :
  pack_info db pack_id = Some info →
  pack_document private_ok public_ok calculate_signature db random pack_id = Ok (Some blob) →
  ∃ row secret body, repo_pack db pack_id = Some row ∧ info = row_to_info db row
    ∧ pack_key db pack_id = Some secret ∧ public_ok (zb 5 :: pk_pack_pk row) = true
    ∧ body_bytes (stored_doc db info pack_id) = Ok body
    ∧ blob = body ++ calculate_signature secret body random.
Proof.
  intros Hinfo. unfold pack_document. rewrite Hinfo.
  intros (body & Hb & (key & Hk & Hdoc)%rbind_Ok)%rbind_Ok.
  destruct (body_bytes (stored_doc db info pack_id)) as [b|]; [|done]. injection Hb as ->.
  destruct key as [key|]; [|done]. injection Hdoc as <-. unfold load_pack_key in Hk.
  unfold pack_info in Hinfo. destruct (repo_pack db pack_id) as [row|]; [|done]. injection Hinfo as <-.
  destruct (pack_key db pack_id) as [secret|]; [|done].
  destruct (private_ok secret); [|done]. unfold public_from_raw in Hk. cbn [negb] in Hk.
  destruct (public_ok _) eqn:Hp; [|done]. injection Hk as <-. by eexists _, _, _.
Qed.

End Transfer.

(** A toy signature scheme, and a pack created under it. *)
Definition toy_sign (secret body random : bytes) : bytes := replicate 64 (zb 9).
Definition toy_verify (pk body sig : bytes) : bool := bool_decide (sig = replicate 64 (zb 9)).
Definition toy_sha256 (bs : bytes) : bytes := replicate 32 (zb 7).

Definition demo_created : Db :=
  (create_pack demo_db (pd_pack_id demo_pack_doc) (mkPackKey (replicate 32 (zb 1)) (replicate 32 (zb 2)))
     (pd_title demo_pack_doc) (pd_kind demo_pack_doc) (pd_visibility demo_pack_doc)
     (pd_icon_item_id demo_pack_doc) (pd_items demo_pack_doc)).1.
Definition demo_blob : bytes := demo_pack_body ++ replicate 64 (zb 9).
Definition demo_info : PackInfo :=
  mkPackInfo (replicate 16 (zb 1)) (replicate 32 (zb 1)) [zb 104] KIND_EMOJI VISIBILITY_PUBLIC 1 5 true false.

Lemma sweep_cache_spec_witness :
  len (cache (sweep_cache demo_created)) ≤ MAX_CACHE_ENTRIES ∧ stickers_wf (sweep_cache demo_created).
Proof.
  destruct (sweep_cache_spec demo_created) as (H1 & H2 & _).
  - split; vm_compute; repeat (constructor || set_solver).
  - split; [exact H2|exact H1].
Defined.


(** Nothing ties a pack id to the key that first signed it: a document
    for an installed pack's id, signed by any other key, replaces the pack's
    public key, items and provenance as soon as the quotas admit it (a
    user-installed pack becomes an evictable cached one). *)
Theorem pack_replaced_by_any_key (public_ok : bytes → bool) verify_signature sha256 db blob doc pk rel old :
  repo_pack db (pd_pack_id doc) = Some old → pk_pack_pk old ≠ pk →
  decode_signed (verify_with public_ok verify_signature) sha256 blob pk = Ok doc →
  admit_pack db (Some rel) true = Ok tt →
  ∃ db', install_pack_blob public_ok verify_signature sha256 db blob pk (Some rel) true
         = (db', Ok (pd_pack_id doc))
  ∧ (∃ new, repo_pack db' (pd_pack_id doc) = Some new ∧ pk_pack_pk new = pk
       ∧ pk_pack_pk new ≠ pk_pack_pk old ∧ pk_cached new = true)
  ∧ filter (λ r, sr_pack_id r = pd_pack_id doc) (items db') = item_row (pd_pack_id doc) <$> pd_items doc.
Proof.
  intros _ Hne Hd Ha. pose proof (decode_signed_sound _ _ _ _ _ Hd) as (body & sig & _ & _ & _ & Hb & _).
  apply body_bytes_Ok in Hb as (_ & _ & _ & [Hids _]%items_fit_ids & _).
  destruct (install_doc_Ok db doc pk (Some rel) true Ha Hids) as (db' & Hi & Hr & Hit & _).
  exists db'. unfold install_pack_blob. rewrite Hd, Hi. split_and!; [done| |done]. eexists. split_and!; [exact Hr|done|by apply not_eq_sym|done].
Qed.

Lemma pack_replaced_by_any_key_witness :
  ∃ db', install_pack_blob (λ _, true) toy_verify toy_sha256 demo_created demo_blob (replicate 32 (zb 3))
           (Some "rel"%string) true = (db', Ok (replicate 16 (zb 1))).
Proof.
  destruct (pack_replaced_by_any_key (λ _, true) toy_verify toy_sha256 demo_created demo_blob demo_pack_doc
              (replicate 32 (zb 3)) "rel"
              (mkPackRow (replicate 16 (zb 1)) (replicate 32 (zb 1)) [zb 104] KIND_EMOJI VISIBILITY_PUBLIC
                 1 5 1000 false None 1000)) as (db' & Hi & _); [..|by exists db'].
  - by vm_compute.
  - by vm_compute.
  - by vm_compute.
  - by vm_compute.
Defined.

(** [create_pack] signs what no peer accepts: without an item for its icon
    the pack is created and served, and every receiver refuses it. *)
Example create_pack_missing_icon :
  let '(db, r) := create_pack demo_db (replicate 16 (zb 1)) (mkPackKey (replicate 32 (zb 1)) (replicate 32 (zb 2)))
                    [zb 104] KIND_EMOJI VISIBILITY_PUBLIC 9 (pd_items demo_pack_doc) in
  r = Ok (replicate 16 (zb 1), replicate 32 (zb 1))
  ∧ match pack_document (λ _, true) (λ _, true) toy_sign db [] (replicate 16 (zb 1)) with
    | Ok (Some blob) =>
        decode_signed (verify_with (λ _, true) toy_verify) toy_sha256 blob (replicate 32 (zb 1))
        = Err (bad "pack_doc.icon" (Lit "icon item missing"))
    | _ => False
    end.
Proof. by vm_compute. Qed.
