(* ===== verification/Attach.v ===== *)
(** The attachment pipeline: the [attachments] and [attachment_chunks]
    repositories ([core/src/store/attachments.rs], [store/chunks.rs]) and the
    feature logic of [core/src/attach/mod.rs] (chunk planning, inbound
    reassembly with its hash check, orphan caps, view-once erasure). *)

From stdpp Require Import sorting list_numbers.
From S2P Require Import Prelude Bin Limits Payloads WireResync WireAttach Envelope Policy View Ledger Sync EngineTypes.

(** ** [ChunksRepository] *)

Definition chunk (db : Db) (head_id : bytes) (index : Z) : option bytes :=
  ck_data <$> db_chunks db !! (head_id, index).

Definition put_chunk (db : Db) (head_id : bytes) (index : Z) (data : bytes) (rel_id : string)
    (now : Z) : result StoreError Db :=
  match chunk db head_id index with
  | Some prev =>
      if negb (bool_decide (prev = data))
      then Err (Corrupt (Fmt "chunk {id}:{index} rewritten with different bytes" [index]))
      else Ok db
  | None => Ok (set_chunks db (<[(head_id, index) := mkChunkRow data rel_id now]> (db_chunks db)))
  end.

(** The rows of one transfer, [ORDER BY idx ASC]. *)
Definition idx_le (a b : Z * bytes) : Prop := a.1 ≤ b.1.
#[export] Instance idx_le_dec : RelDecision idx_le := λ a b, Z_le_dec _ _.

Definition head_rows (db : Db) (head_id : bytes) : list (Z * bytes) :=
  merge_sort idx_le ((λ kv : bytes * Z * ChunkRow, (kv.1.2, ck_data kv.2))
    <$> filter (λ kv : bytes * Z * ChunkRow, kv.1.1 = head_id) (map_to_list (db_chunks db))).

Definition chunks_for (db : Db) (head_id : bytes) : list bytes := (head_rows db head_id).*2.

Definition delete_chunks (db : Db) (head_id : bytes) : Db :=
  set_chunks db (filter (λ kv : bytes * Z * ChunkRow, kv.1.1 ≠ head_id) (db_chunks db)).

(** [COUNT] and [SUM(LENGTH(data))] of the rows a predicate selects. *)
Definition chunk_stats (rows : list (bytes * Z * ChunkRow)) : Z * Z :=
  (len rows, foldr (λ kv n, len (ck_data kv.2) + n) 0 rows).

Definition orphan_head_stats (db : Db) (head_id : bytes) : Z * Z :=
  chunk_stats (filter (λ kv : bytes * Z * ChunkRow, kv.1.1 = head_id) (map_to_list (db_chunks db))).

Definition is_orphan (db : Db) (head_id : bytes) : bool :=
  bool_decide (db_attachments db !! head_id = None).

Definition orphan_of (db : Db) (rel_id : string) (kv : bytes * Z * ChunkRow) : bool :=
  bool_decide (ck_rel_id kv.2 = rel_id) && is_orphan db kv.1.1.

Definition orphan_rel_stats (db : Db) (rel_id : string) : Z * Z :=
  chunk_stats (filter (λ kv, orphan_of db rel_id kv = true) (map_to_list (db_chunks db))).

Definition sweep_orphans (db : Db) (older_than : Z) : Db * Z :=
  let hit (kv : bytes * Z * ChunkRow) := (ck_created_at kv.2 <? older_than) && is_orphan db kv.1.1 in
  (set_chunks db (filter (λ kv, hit kv = false) (db_chunks db)),
   Z.of_nat (size (filter (λ kv, hit kv = true) (db_chunks db)))).

(** ** [AttachmentsRepository] *)

Record NewAttachment := mkNewAttachment {
  na_head_id : bytes;
  na_rel_id : string;
  na_msg_id : bytes;
  na_direction : Direction;
  na_head : AttachHead;
  na_expires_at : option Z;
}.

Definition insert_head (db : Db) (h : NewAttachment) : result StoreError Db :=
  match db_attachments db !! na_head_id h with
  | Some _ => Err SqliteConstraint
  | None =>
      let a := na_head h in
      Ok (set_attachments db (<[na_head_id h :=
        mkAttachmentRow (na_head_id h) (na_rel_id h) (na_msg_id h) (na_direction h)
          (ah_media_class a) (ah_mime_hint a) (ah_uncompressed_n a) (ah_chunk_count a)
          (ah_chunk_bucket a) (ah_content_sha256 a) (ah_caption a) (ah_flags a) (ah_orig_ext a)
          [] false false (na_expires_at h) (db_now db)]> (db_attachments db)))
  end.

Definition attachment (db : Db) (head_id : bytes) : option AttachmentRow :=
  db_attachments db !! head_id.

Definition for_message (db : Db) (msg_id : bytes) : list AttachmentRow :=
  filter (λ r, ar_msg_id r = msg_id) ((map_to_list (db_attachments db)).*2).

(** [UPDATE attachments SET chunks, complete, consumed]. *)
Definition with_progress (r : AttachmentRow) (chunks : bytes) (complete consumed : bool)
    : AttachmentRow :=
  mkAttachmentRow (ar_head_id r) (ar_rel_id r) (ar_msg_id r) (ar_direction r) (ar_media_class r)
    (ar_mime_hint r) (ar_uncompressed_n r) (ar_chunk_count r) (ar_chunk_bucket r)
    (ar_content_sha256 r) (ar_caption r) (ar_flags r) (ar_orig_ext r) chunks complete consumed
    (ar_expires_at r) (ar_created_at r).

Definition update_head (db : Db) (head_id : bytes) (f : AttachmentRow → AttachmentRow) : Db :=
  set_attachments db (alter f head_id (db_attachments db)).

Definition mark_consumed (db : Db) (head_id : bytes) : Db * bool :=
  (update_head db head_id (λ r, with_progress r (ar_chunks r) (ar_complete r) true),
   bool_decide (is_Some (db_attachments db !! head_id))).

(** [Vec::resize(need, 0)] and [u8::count_ones]. *)
Definition resize (n : nat) (l : bytes) : bytes := take n l ++ replicate (n - length l) (zb 0).
Definition count_ones (b : byte) : Z :=
  foldr (λ i n, (if Z.testbit (bz b) i then 1 else 0) + n) 0 [0; 1; 2; 3; 4; 5; 6; 7].
Definition popcount (l : bytes) : Z := foldr (λ b n, count_ones b + n) 0 l.

Definition note_chunk (db : Db) (head_id : bytes) (index : Z) : Db * option bool :=
  match db_attachments db !! head_id with
  | None => (db, None)
  | Some row =>
      if index >=? ar_chunk_count row then (db, None)
      else
        let need := Z.to_nat (div_ceil (ar_chunk_count row) 8) in
        let chunks := set_bit (resize need (ar_chunks row)) index in
        let done := popcount chunks >=? ar_chunk_count row in
        (update_head db head_id (λ r, with_progress r chunks (ar_complete r) (ar_consumed r)),
         Some done)
  end.

Definition attachments_sweep_expired (db : Db) : Db * Z :=
  (set_attachments db (filter (λ kv : bytes * AttachmentRow,
     expired_at (db_now db) (ar_expires_at kv.2) = false) (db_attachments db)),
   Z.of_nat (size (filter (λ kv : bytes * AttachmentRow,
     expired_at (db_now db) (ar_expires_at kv.2) = true) (db_attachments db)))).

Definition delete_attachment (db : Db) (head_id : bytes) : Db :=
  set_attachments db (delete head_id (db_attachments db)).

(** ** Planning *)

Inductive ChunkOut :=
| Data (d : bytes)
| Pad.

Record AttachPlan := mkAttachPlan {
  plan_head : AttachHead;
  plan_chunks : list ChunkOut;
}.

(** [slice::chunks(n)]; the fuel bounds the number of pieces. *)
Fixpoint pieces (fuel : nat) (n : nat) (l : bytes) : list bytes :=
  match fuel, l with
  | O, _ | _, [] => []
  | S fuel, _ => take n l :: pieces fuel n (drop n l)
  end.

Section Feature.
Context (sha256 : bytes → bytes).

Definition plan_transfer (media_class : Z) (mime_hint orig_ext bs caption : bytes) (view_once : bool)
    : result EngineError AttachPlan :=
  if bool_decide (bs = []) || (len bs >? MAX_ATTACH)
  then Err (EditDenied "attachment size out of range")
  else
    let inline := len bs <=? INLINE_MAX in
    let chunk_count := if inline then 0 else (div_ceil (len bs) CHUNK_DATA_MAX) mod 2 ^ 16 in
    let chunk_bucket :=
      if inline then 0 else div_ceil chunk_count BUCKET_GRANULARITY * BUCKET_GRANULARITY in
    let chunks :=
      if inline then []
      else
        let data := Data <$> pieces (length bs) (Z.to_nat CHUNK_DATA_MAX) bs in
        data ++ replicate (Z.to_nat chunk_bucket - length data) Pad in
    Ok (mkAttachPlan
          (mkAttachHead media_class mime_hint orig_ext (len bs) chunk_count chunk_bucket
             (sha256 bs) caption (if view_once then FLAG_VIEW_ONCE else 0))
          chunks).

(** ** Reassembly *)

(** [vec![0xff; need]] with the last byte masked to [count % 8] bits. *)
Definition full_bitmap (chunk_count : Z) : bytes :=
  let need := Z.to_nat (div_ceil chunk_count 8) in
  let bitmap := replicate need (zb 255) in
  if negb (chunk_count mod 8 =? 0)
  then <[(need - 1)%nat := zb (Z.shiftl 1 (chunk_count mod 8) - 1)]> bitmap
  else bitmap.

Definition try_complete (db : Db) (rel_id : string) (head_id : bytes) : Db * list EngineEvent :=
  match attachment db head_id with
  | None => (db, [])
  | Some row =>
      if ar_complete row then (db, [])
      else
        let stored := chunks_for db head_id in
        if len stored <? ar_chunk_count row then (db, [])
        else
          let bs := concat stored in
          if negb (len bs =? ar_uncompressed_n row)
             || negb (bool_decide (sha256 bs = ar_content_sha256 row))
          then
            let db := delete_chunks db head_id in
            let db := delete_attachment db head_id in
            (db, [EvAttachmentFailed rel_id head_id])
          else
            (update_head db head_id
               (λ r, with_progress r (full_bitmap (ar_chunk_count row)) true (ar_consumed r)),
             [EvAttachmentComplete rel_id head_id (ar_msg_id row)])
  end.

Definition on_attach_head (db : Db) (rel_id : string) (env : Envelope) (payload : AttachHeadPayload)
    : result EngineError (Db * list EngineEvent) :=
  let* allowed := map_err EStore (attachments_allowed db rel_id) in
  if negb allowed then Ok (db, [])
  else
    match attachment db (env_msg_id env) with
    | Some _ => Ok (db, [])
    | None =>
        let head := ahp_head payload in
        let* expiry := map_err EStore (message_expiry db rel_id (db_now db)) in
        let* db := map_err EStore (insert_head db
          (mkNewAttachment (env_msg_id env) rel_id (env_msg_id env) DirIn head expiry)) in
        match ahp_inline payload with
        | Some bs =>
            if negb (bool_decide (sha256 bs = ah_content_sha256 head)) then
              Ok (delete_attachment db (env_msg_id env),
                  [EvAttachmentFailed rel_id (env_msg_id env)])
            else
              let* db := map_err EStore
                (put_chunk db (env_msg_id env) 0 bs rel_id (as_i64 (db_now db))) in
              Ok (update_head db (env_msg_id env)
                    (λ r, with_progress r (ar_chunks r) true (ar_consumed r)),
                  [EvAttachmentComplete rel_id (env_msg_id env) (env_msg_id env)])
        | None => Ok (try_complete db rel_id (env_msg_id env))
        end
    end.

(** The orphan caps: the chunk is refused. *)
Definition orphan_capped (db : Db) (rel_id : string) (c : AttachChunk) : bool :=
  let data_len := len (ac_data c) in
  let '(count, bs) := orphan_head_stats db (ac_head_id c) in
  let '(rel_count, rel_bytes) := orphan_rel_stats db rel_id in
  (count >=? MAX_ORPHAN_CHUNKS_PER_HEAD) || (bs + data_len >? MAX_ORPHAN_BYTES_PER_HEAD)
  || (rel_count >=? MAX_ORPHAN_CHUNKS_PER_REL) || (rel_bytes + data_len >? MAX_ORPHAN_BYTES_PER_REL).

Definition chunk_refused (db : Db) (rel_id : string) (c : AttachChunk) : bool :=
  match attachment db (ac_head_id c) with
  | None => orphan_capped db rel_id c
  | Some head_row => ac_index c >=? ar_chunk_count head_row
  end.

Definition on_attach_chunk (db : Db) (rel_id : string) (c : AttachChunk)
    : result EngineError (Db * list EngineEvent) :=
  if ac_pad c then Ok (db, [])
  else if chunk_refused db rel_id c
  then Ok (db, [EvAttachmentChunkDropped rel_id (ac_head_id c)])
  else
    let* db := map_err EStore
      (put_chunk db (ac_head_id c) (ac_index c) (ac_data c) rel_id (as_i64 (db_now db))) in
    match note_chunk db (ac_head_id c) (ac_index c) with
    | (db, None) => Ok (db, [])
    | (db, Some false) =>
        let row := attachment db (ac_head_id c) in
        Ok (db, [EvAttachmentProgress rel_id (ac_head_id c)
                   (from_option (λ r, popcount (ar_chunks r)) 0 row)
                   (from_option ar_chunk_count 0 row)])
    | (db, Some true) => Ok (try_complete db rel_id (ac_head_id c))
    end.

Definition on_delete_target (db : Db) (target : bytes) : Db :=
  foldl (λ db att, delete_attachment (delete_chunks db (ar_head_id att)) (ar_head_id att))
    db (for_message db target).

(** The chunk envelopes of [send_attachment], in plan order. *)
Definition outbound_chunks (head_id : bytes) (plan : AttachPlan) : list AttachChunk :=
  imap (λ index c, match c with
                   | Data d => mkAttachChunk head_id (Z.of_nat index) false d
                   | Pad => mkAttachChunk head_id (Z.of_nat index) true []
                   end) (plan_chunks plan).

Definition attachment_bytes (db : Db) (head_id : bytes) : option bytes :=
  match attachment db head_id with
  | None => None
  | Some row =>
      if negb (ar_complete row) || ar_consumed row then None
      else
        match chunks_for db head_id with
        | [] => None
        | stored => Some (concat stored)
        end
  end.

Definition attachment_viewed (db : Db) (head_id : bytes) : Db :=
  match attachment db head_id with
  | Some row =>
      if has_flag (ar_flags row) FLAG_VIEW_ONCE && negb (ar_consumed row)
      then (mark_consumed (delete_chunks db head_id) head_id).1
      else db
  | None => db
  end.
End Feature.

(** ** Counting bits *)

Lemma get_bit_cons b l k :
  0 ≤ k → get_bit (b :: l) k = if k <? 8 then Z.testbit (bz b) k else get_bit l (k - 8).
Proof.
  intros Hk. unfold get_bit. destruct (Z.ltb_spec k 8).
  - rewrite Z.div_small, Z.mod_small by lia. done.
  - assert (k / 8 = (k - 8) / 8 + 1) as -> by (rewrite <- Z.div_add by lia; f_equal; lia).
    assert (k mod 8 = (k - 8) mod 8) as -> by (rewrite <- (Z.mod_add (k - 8) 1 8) by lia; f_equal; lia).
    pose proof (Z.div_pos (k - 8) 8). replace (Z.to_nat ((k - 8) / 8 + 1)) with (S (Z.to_nat ((k - 8) / 8))) by lia.
    done.
Qed.

Lemma filter_fmap_len {A B} (f : A → B) (P : B → bool) (l : list A) :
  len (filter (λ x, P x = true) (f <$> l)) = len (filter (λ x, P (f x) = true) l).
Proof.
  induction l as [|x l IH]; [done|]. cbn [fmap list_fmap]. rewrite !filter_cons.
  case_decide; rewrite ?len_cons; fold (fmap f l); lia.
Qed.

Lemma filter_ext_len {A} (P Q : A → bool) (l : list A) :
  (∀ x, x ∈ l → P x = Q x) → len (filter (λ x, P x = true) l) = len (filter (λ x, Q x = true) l).
Proof.
  induction l as [|x l IH]; intros H; [done|]. rewrite !filter_cons.
  rewrite (H x) by (by apply elem_of_cons; left).
  case_decide; rewrite ?len_cons, IH; try done; intros y Hy; apply H; by apply elem_of_cons; right.
Qed.

Lemma popcount_spec l :
  popcount l = len (filter (λ k, get_bit l k = true) (seqZ 0 (8 * len l))).
Proof.
  induction l as [|b l IH]; [done|]. cbn [popcount foldr]. fold (popcount l). rewrite IH, len_cons.
  pose proof (len_nonneg l). replace (8 * (1 + len l)) with (8 + 8 * len l) by lia.
  rewrite seqZ_app, filter_app, len_app by lia. f_equal.
  - rewrite (filter_ext_len _ (λ k, Z.testbit (bz b) k)).
    + unfold count_ones. change (seqZ 0 8) with [0; 1; 2; 3; 4; 5; 6; 7].
      generalize [0; 1; 2; 3; 4; 5; 6; 7]. intros ks. induction ks as [|k ks IHk]; [done|].
      cbn [foldr]. rewrite filter_cons, IHk. destruct (Z.testbit (bz b) k); case_decide;
        rewrite ?len_cons; done || lia.
    + intros k [? ?]%elem_of_seqZ. rewrite get_bit_cons by lia. destruct (Z.ltb_spec k 8); [done|lia].
  - rewrite <- (fmap_add_seqZ 8 0). rewrite filter_fmap_len. apply filter_ext_len.
    intros k [? ?]%elem_of_seqZ. rewrite get_bit_cons by lia. destruct (Z.ltb_spec (8 + k) 8); [lia|].
    f_equal. lia.
Qed.

(** A bitmap that holds exactly the indices of a set counts its size. *)
Lemma popcount_set l (S : gset Z) :
  (∀ k, 0 ≤ k → get_bit l k = bool_decide (k ∈ S)) → (∀ k, k ∈ S → 0 ≤ k < 8 * len l) →
  popcount l = Z.of_nat (size S).
Proof.
  intros Hb Hr. rewrite popcount_spec. unfold len at 1. f_equal.
  set (ks := filter _ _). assert (Hnd : NoDup ks) by apply NoDup_filter, NoDup_seqZ.
  rewrite <- (size_list_to_set (C := gset Z) ks) by done. f_equal. apply set_eq. intros k.
  rewrite elem_of_list_to_set. unfold ks. rewrite list_elem_of_filter, elem_of_seqZ. split.
  - intros [Hk ?]. rewrite Hb in Hk by lia. by apply bool_decide_eq_true in Hk.
  - intros Hk. specialize (Hr k Hk). split; [|lia]. rewrite Hb by lia. by apply bool_decide_eq_true.
Qed.

(** ** The stored rows of a transfer *)

Lemma elem_of_head_rows db h i d : (i, d) ∈ head_rows db h ↔ chunk db h i = Some d.
Proof.
  unfold head_rows, chunk. rewrite merge_sort_Permutation, list_elem_of_fmap. split.
  - intros ([[h' i'] r] & [= -> ->] & [Hh Hin%elem_of_map_to_list]%list_elem_of_filter). cbn in *.
    subst h'. by rewrite Hin.
  - intros (r & Hr & ->)%fmap_Some. exists (h, i, r). split; [done|].
    apply list_elem_of_filter. split; [done|]. by apply elem_of_map_to_list.
Qed.

Lemma head_rows_ascending db h : ascending (head_rows db h).*1.
Proof.
  apply ascending_sorted.
  - unfold head_rows. set (l := (λ kv : bytes * Z * ChunkRow, _) <$> _).
    assert (Hs : Sorted idx_le (merge_sort idx_le l)).
    { apply Sorted_merge_sort. intros x y. unfold idx_le. lia. }
    induction Hs as [|x k Hs IH Hx]; [constructor|]. cbn. constructor; [done|].
    destruct Hx; constructor. done.
  - unfold head_rows. rewrite merge_sort_Permutation, <- list_fmap_compose.
    apply NoDup_fmap_2_strong; [|apply NoDup_filter, NoDup_map_to_list].
    intros [[h1 i1] r1] [[h2 i2] r2] [E1 H1%elem_of_map_to_list]%list_elem_of_filter
      [E2 H2%elem_of_map_to_list]%list_elem_of_filter Hi. cbn in *. subst. congruence.
Qed.

Lemma chunks_for_exact db h ps :
  (∀ i, chunk db h i = if decide (0 ≤ i) then ps !! Z.to_nat i else None) → chunks_for db h = ps.
Proof.
  intros H. assert (Hf : (head_rows db h).*1 = seq_range 0 (length ps)).
  { apply ascending_ext; [apply head_rows_ascending|apply ascending_seq_range|]. intros k.
    rewrite elem_of_seq_range, list_elem_of_fmap. split.
    - intros ([i d] & -> & Hin%elem_of_head_rows). cbn. rewrite H in Hin. case_decide; [|done].
      apply lookup_lt_Some in Hin. lia.
    - intros Hk. destruct (lookup_lt_is_Some_2 ps (Z.to_nat k)) as [d Hd]; [lia|].
      exists (k, d). split; [done|]. apply elem_of_head_rows. rewrite H, decide_True by lia. done. }
  assert (Hl : length (head_rows db h) = length ps).
  { rewrite <- (length_fmap fst), Hf. unfold seq_range. by rewrite length_fmap, length_seq. }
  unfold chunks_for. apply list_eq. intros k. rewrite list_lookup_fmap.
  destruct (head_rows db h !! k) as [[i d]|] eqn:E; cbn.
  - assert (i = Z.of_nat k) as ->.
    { assert (Hi : (head_rows db h).*1 !! k = Some i) by (by rewrite list_lookup_fmap, E).
      rewrite Hf in Hi. unfold seq_range in Hi. rewrite list_lookup_fmap in Hi.
      apply fmap_Some in Hi as (j & Hj%lookup_seq & ->). lia. }
    apply list_elem_of_lookup_2, elem_of_head_rows in E. rewrite H, decide_True, Nat2Z.id in E by lia. done.
  - apply lookup_ge_None in E. symmetry. apply lookup_ge_None. lia.
Qed.

(** ** Reassembly in any order *)

Definition indices (ps : list bytes) : gset Z := list_to_set (seqZ 0 (len ps)).

Lemma elem_of_indices ps k : k ∈ indices ps ↔ 0 ≤ k < len ps.
Proof. unfold indices. rewrite elem_of_list_to_set, elem_of_seqZ. lia. Qed.

Lemma size_indices ps : Z.of_nat (size (indices ps)) = len ps.
Proof.
  unfold indices. rewrite size_list_to_set by apply NoDup_seqZ. rewrite length_seqZ.
  pose proof (len_nonneg ps). lia.
Qed.

Lemma chunks_for_indices db h ps :
  (∀ i, chunk db h i = if decide (i ∈ indices ps) then ps !! Z.to_nat i else None) →
  chunks_for db h = ps.
Proof.
  intros Hc. apply chunks_for_exact. intros i. rewrite Hc. case_decide as Hi.
  - apply elem_of_indices in Hi. by rewrite decide_True by lia.
  - case_decide; [|done]. symmetry. apply lookup_ge_None. rewrite elem_of_indices in Hi.
    unfold len in Hi. lia.
Qed.

(** The head [r0] is known and exactly the pieces of [S] have arrived. *)
Definition receiving (db : Db) (r0 : AttachmentRow) (ps : list bytes) (S : gset Z) : Prop :=
  (∃ bm, db_attachments db !! ar_head_id r0
         = Some (with_progress r0 bm (bool_decide (S = indices ps)) false)
     ∧ (bm = [] ∨ len bm = div_ceil (len ps) 8)
     ∧ ∀ k, 0 ≤ k → get_bit bm k = bool_decide (k ∈ S))
  ∧ S ⊆ indices ps
  ∧ ∀ i, chunk db (ar_head_id r0) i = if decide (i ∈ S) then ps !! Z.to_nat i else None.

(** The head row announces the pieces. *)
Definition announces (sha256 : bytes → bytes) (r0 : AttachmentRow) (ps : list bytes) : Prop :=
  ar_chunk_count r0 = len ps ∧ ar_uncompressed_n r0 = len (concat ps)
  ∧ ar_content_sha256 r0 = sha256 (concat ps).

Lemma div_ceil8 n : 0 ≤ n → 8 * div_ceil n 8 - 8 < n ≤ 8 * div_ceil n 8 ∧ 0 ≤ div_ceil n 8.
Proof.
  intros. unfold div_ceil. pose proof (Z.div_mod (n + 8 - 1) 8). pose proof (Z.mod_pos_bound (n + 8 - 1) 8).
  lia.
Qed.

Lemma get_bit_app_zeros l n k : get_bit (l ++ replicate n (zb 0)) k = get_bit l k.
Proof.
  unfold get_bit. destruct (decide (Z.to_nat (k / 8) < length l)%nat).
  - by rewrite lookup_app_l.
  - rewrite lookup_app_r by lia. rewrite (lookup_ge_None_2 l) by lia.
    destruct (replicate n (zb 0) !! _) eqn:E; [|done]. apply lookup_replicate in E as [-> _].
    apply Z.bits_0.
Qed.

Lemma get_bit_out l k : 8 * len l ≤ k → get_bit l k = false.
Proof.
  intros Hk. pose proof (len_nonneg l). destruct (div8_mod8 k) as (E & Hm & Hd); [lia|].
  unfold get_bit, len in *. by rewrite lookup_ge_None_2 by lia.
Qed.

Lemma resize_same n l : (l = [] ∨ length l = n) → ∀ k, get_bit (resize n l) k = get_bit l k.
Proof.
  intros H k. unfold resize. rewrite take_ge by (destruct H; subst; cbn; lia). apply get_bit_app_zeros.
Qed.

Lemma len_resize n l : (l = [] ∨ length l = n) → len (resize n l) = Z.of_nat n.
Proof.
  intros H. unfold resize, len. rewrite length_app, length_take, length_replicate.
  destruct H; subst; cbn; lia.
Qed.

Lemma bitmap_noted ps bm S i :
  (bm = [] ∨ len bm = div_ceil (len ps) 8) → (∀ k, 0 ≤ k → get_bit bm k = bool_decide (k ∈ S)) →
  S ⊆ indices ps → i ∈ indices ps →
  let bm' := set_bit (resize (Z.to_nat (div_ceil (len ps) 8)) bm) i in
  len bm' = div_ceil (len ps) 8
  ∧ (∀ k, 0 ≤ k → get_bit bm' k = bool_decide (k ∈ {[i]} ∪ S))
  ∧ (popcount bm' >=? len ps) = bool_decide ({[i]} ∪ S = indices ps).
Proof.
  intros Hl Hb HS Hi. cbv zeta. set (n := Z.to_nat _). set (bm' := set_bit _ _).
  pose proof (len_nonneg ps) as Hp. destruct (div_ceil8 (len ps) Hp) as [Hd Hd0].
  assert (Hl' : bm = [] ∨ length bm = n) by (unfold n, len in *; destruct Hl; [by left|right; lia]).
  apply elem_of_indices in Hi.
  assert (Hlen : len bm' = div_ceil (len ps) 8).
  { unfold bm'. rewrite len_set_bit, len_resize by done. unfold n. lia. }
  assert (Hbits : ∀ k, 0 ≤ k → get_bit bm' k = bool_decide (k ∈ {[i]} ∪ S)).
  { intros k Hk. unfold bm'. rewrite get_set_bit by (rewrite ?len_resize by done; unfold n; lia).
    rewrite resize_same, Hb by done. destruct (Z.eqb_spec k i) as [->|Hne].
    - rewrite orb_true_r. symmetry. apply bool_decide_eq_true. set_solver.
    - rewrite orb_false_r. apply bool_decide_ext. set_solver. }
  split; [done|]. split; [done|].
  assert (Hsub : {[i]} ∪ S ⊆ indices ps).
  { intros k [->%elem_of_singleton|Hk]%elem_of_union; [by apply elem_of_indices|by apply HS]. }
  rewrite (popcount_set bm' ({[i]} ∪ S) Hbits).
  2: { intros k Hk%Hsub%elem_of_indices. rewrite Hlen. lia. }
  rewrite <- size_indices. apply eq_bool_prop_intro. split; intros H.
  - apply bool_decide_spec. apply set_subseteq_size_eq; [done|]. apply Is_true_true in H. lia.
  - apply bool_decide_spec in H. rewrite H. apply Is_true_true. lia.
Qed.

Lemma get_full_bitmap n k : 0 ≤ n → 0 ≤ k → get_bit (full_bitmap n) k = bool_decide (k < n).
Proof.
  intros Hn Hk. destruct (div_ceil8 n Hn) as [Hd Hd0]. destruct (div8_mod8 k Hk) as (Ek & Hm & Hkd).
  pose proof (Z.div_mod n 8) as En. pose proof (Z.mod_pos_bound n 8) as Hmn.
  unfold full_bitmap. set (need := Z.to_nat (div_ceil n 8)).
  assert (Hff : ∀ i, 0 ≤ i < 8 → Z.testbit (bz (zb 255)) i = true).
  { intros i Hi. rewrite bz_zb. change (255 mod 256) with (Z.ones 8). apply Z.ones_spec_low. lia. }
  destruct (Z.eqb_spec (n mod 8) 0) as [E0|E0]; cbn [negb].
  - unfold get_bit. destruct (decide (Z.to_nat (k / 8) < need)%nat) as [Hlt|Hge].
    + rewrite lookup_replicate_2 by done. rewrite Hff by lia. symmetry. apply bool_decide_eq_true.
      unfold need in Hlt. lia.
    + rewrite lookup_ge_None_2 by (rewrite length_replicate; lia). symmetry.
      apply bool_decide_eq_false. unfold need in Hge. lia.
  - assert (Hneed : Z.of_nat need = n / 8 + 1) by (unfold need; lia).
    unfold get_bit. destruct (decide (Z.to_nat (k / 8) = (need - 1)%nat)) as [Heq|Hne].
    + rewrite Heq, list_lookup_insert_eq by (rewrite length_replicate; lia).
      rewrite bz_zb. change 256 with (2 ^ 8). rewrite Z.mod_pow2_bits_low by lia.
      rewrite Z.shiftl_1_l, Z.sub_1_r, <- Z.ones_equiv, Z.testbit_ones by lia.
      apply eq_bool_prop_intro. rewrite bool_decide_spec. rewrite Is_true_true. lia.
    + rewrite list_lookup_insert_ne by done.
      destruct (decide (Z.to_nat (k / 8) < need)%nat) as [Hlt|Hge].
      * rewrite lookup_replicate_2 by done. rewrite Hff by lia. symmetry. apply bool_decide_eq_true. lia.
      * rewrite lookup_ge_None_2 by (rewrite length_replicate; lia). symmetry.
        apply bool_decide_eq_false. lia.
Qed.

Lemma with_progress_idem r a b c x y z :
  with_progress (with_progress r a b c) x y z = with_progress r x y z.
Proof. done. Qed.

Lemma len_full_bitmap n : 0 ≤ n → len (full_bitmap n) = div_ceil n 8.
Proof.
  intros Hn. destruct (div_ceil8 n Hn) as [_ Hd]. unfold full_bitmap, len.
  destruct (negb _); rewrite ?length_insert, length_replicate; lia.
Qed.

Lemma update_head_lookup db h r f :
  db_attachments db !! h = Some r → db_attachments (update_head db h f) !! h = Some (f r).
Proof. intros H. cbn. by rewrite lookup_alter_eq, H. Qed.

(** The pieces are all there: the transfer completes with its hash verified. *)
Lemma try_complete_full sha256 db r0 ps rel_id bm :
  announces sha256 r0 ps → ps ≠ [] →
  db_attachments db !! ar_head_id r0 = Some (with_progress r0 bm false false) →
  (∀ i, chunk db (ar_head_id r0) i = if decide (i ∈ indices ps) then ps !! Z.to_nat i else None) →
  ∃ db' ev, try_complete sha256 db rel_id (ar_head_id r0) = (db', ev) ∧ receiving db' r0 ps (indices ps).
Proof.
  intros (Hcc & Hn & Hsha) Hne Hl Hc.
  pose proof (chunks_for_indices db _ ps Hc) as Hst.
  unfold try_complete, attachment. rewrite Hl. cbn [ar_complete with_progress ar_chunk_count
    ar_uncompressed_n ar_content_sha256 ar_msg_id]. rewrite Hst, Hcc, Hn, Hsha.
  destruct (Z.ltb_spec (len ps) (len ps)); [lia|].
  rewrite Z.eqb_refl, bool_decide_eq_true_2 by done. cbn [negb orb].
  eexists _, _. split; [reflexivity|]. split; [|split].
  - exists (full_bitmap (len ps)). pose proof (len_nonneg ps). split_and!.
    + erewrite update_head_lookup by exact Hl. rewrite bool_decide_eq_true_2 by done. done.
    + right. by apply len_full_bitmap.
    + intros k Hk. rewrite get_full_bitmap by done. apply bool_decide_ext.
      rewrite elem_of_indices. lia.
  - done.
  - intros i. rewrite <- Hc. done.
Qed.

Lemma put_chunk_receiving db r0 ps S i d rel_id :
  receiving db r0 ps S → i ∈ indices ps → ps !! Z.to_nat i = Some d →
  ∃ db', put_chunk db (ar_head_id r0) i d rel_id (as_i64 (db_now db)) = Ok db'
    ∧ db_attachments db' = db_attachments db
    ∧ ∀ k, chunk db' (ar_head_id r0) k = if decide (k ∈ {[i]} ∪ S) then ps !! Z.to_nat k else None.
Proof.
  intros (_ & _ & Hc) Hi Hd. unfold put_chunk. rewrite Hc. case_decide as HiS.
  - rewrite Hd, bool_decide_eq_true_2 by done. exists db. split_and!; [done..|].
    intros k. rewrite Hc. assert ({[i]} ∪ S = S) as -> by set_solver. done.
  - eexists. split; [reflexivity|]. split; [done|]. intros k. unfold chunk in *. cbn [db_chunks set_chunks].
    destruct (decide (k = i)) as [->|Hk].
    + rewrite lookup_insert_eq, decide_True by set_solver. by rewrite Hd.
    + rewrite lookup_insert_ne by congruence. rewrite Hc.
      case_decide; case_decide; done || set_solver.
Qed.

Lemma on_attach_chunk_step sha256 db r0 ps S i d rel_id :
  announces sha256 r0 ps → ps ≠ [] → receiving db r0 ps S → i ∈ indices ps →
  ps !! Z.to_nat i = Some d →
  ∃ db' ev, on_attach_chunk sha256 db rel_id (mkAttachChunk (ar_head_id r0) i false d) = Ok (db', ev)
    ∧ receiving db' r0 ps ({[i]} ∪ S).
Proof.
  intros Ha Hne Hr Hi Hd. pose proof Ha as (Hcc & Hn & Hsha).
  destruct (put_chunk_receiving db r0 ps S i d rel_id Hr Hi Hd) as (db1 & Hput & Hatt & Hc1).
  destruct Hr as ((bm & Hl & Hbm & Hbits) & HS & Hc).
  destruct (bitmap_noted ps bm S i Hbm Hbits HS Hi) as (Hlen' & Hbits' & Hpop).
  set (bm' := set_bit _ _) in *.
  assert (Hsub : {[i]} ∪ S ⊆ indices ps) by set_solver.
  unfold on_attach_chunk, chunk_refused, attachment. cbn [ac_pad ac_head_id ac_index ac_data].
  rewrite Hl. cbn [ar_chunk_count with_progress]. rewrite Hcc.
  pose proof (proj1 (elem_of_indices ps i) Hi) as Hir.
  destruct (Z.geb_spec i (len ps)); [lia|]. rewrite Hput. cbn [map_err rbind].
  unfold note_chunk. rewrite Hatt, Hl. cbn [ar_chunk_count ar_chunks with_progress]. rewrite Hcc.
  destruct (Z.geb_spec i (len ps)); [lia|]. fold bm'. rewrite Hpop.
  set (db2 := update_head db1 _ _).
  assert (Hl2 : db_attachments db2 !! ar_head_id r0
    = Some (with_progress r0 bm' (bool_decide (S = indices ps)) false)).
  { unfold db2. erewrite update_head_lookup by (by rewrite Hatt). done. }
  destruct (bool_decide ({[i]} ∪ S = indices ps)) eqn:Efull.
  - apply bool_decide_eq_true in Efull. rewrite Efull in *.
    destruct (decide (S = indices ps)) as [HSf|HSf].
    + rewrite (bool_decide_eq_true_2 (S = indices ps)) in Hl2 by done.
      unfold try_complete, attachment. rewrite Hl2. cbn [ar_complete with_progress].
      eexists _, _. split; [reflexivity|]. split; [|split; [done|exact Hc1]].
      exists bm'. rewrite bool_decide_eq_true_2 by done. split; [done|]. split; [by right|done].
    + rewrite (bool_decide_eq_false_2 (S = indices ps)) in Hl2 by done.
      destruct (try_complete_full sha256 db2 r0 ps rel_id bm' Ha Hne Hl2 Hc1) as (db' & ev & Ht & Hr').
      rewrite Ht. eauto.
  - eexists _, _. split; [reflexivity|]. split; [|split; [done|exact Hc1]].
    exists bm'. rewrite Efull. apply bool_decide_eq_false in Efull. split; [|split; [by right|done]].
    rewrite Hl2. do 2 f_equal. apply bool_decide_eq_false. intros ->. apply Efull. set_solver.
Qed.

(** Chunks handled one after the other. *)
Fixpoint feed_chunks (sha256 : bytes → bytes) (db : Db) (rel_id : string) (cs : list AttachChunk)
    : result EngineError Db :=
  match cs with
  | [] => Ok db
  | c :: cs =>
      let* p := on_attach_chunk sha256 db rel_id c in
      feed_chunks sha256 p.1 rel_id cs
  end.

Definition is_piece (h : bytes) (ps : list bytes) (c : AttachChunk) : Prop :=
  ac_pad c = true
  ∨ ∃ i d, c = mkAttachChunk h i false d ∧ i ∈ indices ps ∧ ps !! Z.to_nat i = Some d.

(** The piece indices a list of chunks carries. *)
Definition carried (cs : list AttachChunk) : gset Z :=
  list_to_set (ac_index <$> filter (λ c, ac_pad c = false) cs).

Lemma carried_cons c cs :
  carried (c :: cs) = if ac_pad c then carried cs else {[ac_index c]} ∪ carried cs.
Proof. unfold carried. rewrite filter_cons. destruct (ac_pad c); case_decide; done. Qed.

Lemma feed_receiving sha256 r0 ps rel_id cs db S :
  announces sha256 r0 ps → ps ≠ [] → receiving db r0 ps S → Forall (is_piece (ar_head_id r0) ps) cs →
  ∃ db', feed_chunks sha256 db rel_id cs = Ok db' ∧ receiving db' r0 ps (carried cs ∪ S).
Proof.
  intros Ha Hne. revert db S. induction cs as [|c cs IH]; intros db S Hr Hcs.
  - exists db. split; [done|]. assert (carried [] ∪ S = S) as -> by set_solver. done.
  - apply Forall_cons in Hcs as [Hc Hcs]. cbn [feed_chunks]. rewrite carried_cons.
    destruct Hc as [Hpad|(i & d & -> & Hi & Hd)].
    + unfold on_attach_chunk. rewrite Hpad. cbn [rbind fst]. by apply IH.
    + destruct (on_attach_chunk_step sha256 db r0 ps S i d rel_id Ha Hne Hr Hi Hd) as (db1 & ev & -> & Hr1).
      cbn [rbind fst ac_pad ac_index]. destruct (IH db1 _ Hr1 Hcs) as (db' & Hf & Hr'). exists db'.
      split; [done|]. assert ({[i]} ∪ carried cs ∪ S = carried cs ∪ ({[i]} ∪ S)) as -> by set_solver. done.
Qed.

Lemma receiving_bytes db r0 ps :
  ps ≠ [] → receiving db r0 ps (indices ps) → attachment_bytes db (ar_head_id r0) = Some (concat ps).
Proof.
  intros Hne ((bm & Hl & _) & _ & Hc). unfold attachment_bytes, attachment. rewrite Hl.
  rewrite bool_decide_eq_true_2 by done. cbn [ar_complete ar_consumed with_progress negb orb].
  rewrite (chunks_for_indices db _ ps) by done. by destruct ps.
Qed.

(** ** The plan *)

Lemma pieces_nil fuel n : pieces fuel n [] = [].
Proof. by destruct fuel. Qed.

Lemma concat_pieces fuel n l : (0 < n)%nat → (length l ≤ fuel)%nat → concat (pieces fuel n l) = l.
Proof.
  intros Hn. revert l. induction fuel as [|fuel IH]; intros l Hl.
  - destruct l; [done|]. cbn in Hl. lia.
  - destruct l as [|x l]; [done|]. cbn [pieces concat].
    rewrite IH; [by rewrite take_drop|]. rewrite length_drop. cbn in *. lia.
Qed.

Lemma len_pieces fuel n l :
  (0 < n)%nat → (length l ≤ fuel)%nat → len (pieces fuel n l) = div_ceil (len l) (Z.of_nat n).
Proof.
  intros Hn. revert l. induction fuel as [|fuel IH]; intros l Hl.
  - destruct l; [|cbn in Hl; lia]. cbn. unfold div_ceil. rewrite Z.div_small; unfold len; cbn; lia.
  - destruct l as [|x l]; [cbn; unfold div_ceil; rewrite Z.div_small; unfold len; cbn; lia|].
    cbn [pieces]. rewrite len_cons, IH by (rewrite length_drop; cbn in *; lia).
    unfold div_ceil, len. rewrite length_drop. cbn [length] in *.
    destruct (decide (S (length l) ≤ n)%nat).
    + replace (S (length l) - n)%nat with 0%nat by lia. rewrite Z.div_small by lia.
      apply (Z.div_unique _ _ _ (Z.of_nat (length l))); lia.
    + replace (Z.of_nat (S (length l)) + Z.of_nat n - 1)
        with ((Z.of_nat (S (length l) - n) + Z.of_nat n - 1) + 1 * Z.of_nat n) by lia.
      rewrite Z.div_add by lia. lia.
Qed.

Lemma pieces_sizes fuel n l :
  (0 < n)%nat → Forall (λ p, 0 < len p ≤ Z.of_nat n) (pieces fuel n l).
Proof.
  intros Hn. revert l. induction fuel as [|fuel IH]; intros l; [constructor|].
  destruct l as [|x l]; [constructor|]. cbn [pieces]. constructor; [|apply IH].
  unfold len. rewrite length_take. cbn. lia.
Qed.

Definition data_pieces (bs : bytes) : list bytes :=
  pieces (length bs) (Z.to_nat CHUNK_DATA_MAX) bs.

Lemma plan_chunked sha256 mc mime ext bs caption vo plan :
  plan_transfer sha256 mc mime ext bs caption vo = Ok plan → INLINE_MAX < len bs →
  plan_head plan = mkAttachHead mc mime ext (len bs) (len (data_pieces bs))
      (div_ceil (len (data_pieces bs)) BUCKET_GRANULARITY * BUCKET_GRANULARITY) (sha256 bs) caption
      (if vo then FLAG_VIEW_ONCE else 0)
  ∧ plan_chunks plan = (Data <$> data_pieces bs)
      ++ replicate (Z.to_nat (ah_chunk_bucket (plan_head plan)) - length (data_pieces bs)) Pad
  ∧ len bs ≤ MAX_ATTACH
  ∧ 0 < len (data_pieces bs) ≤ 1024.
Proof.
  unfold plan_transfer. intros H Hi. destruct (bool_decide (bs = []) || _) eqn:E; [done|].
  apply orb_false_iff in E as [_ E].
  assert (Hp : len (data_pieces bs) = div_ceil (len bs) CHUNK_DATA_MAX).
  { unfold data_pieces. rewrite len_pieces by (unfold CHUNK_DATA_MAX; lia). done. }
  assert (Hr : 0 < div_ceil (len bs) CHUNK_DATA_MAX ≤ 1024 ∧ len bs ≤ MAX_ATTACH).
  { unfold div_ceil, CHUNK_DATA_MAX, MAX_ATTACH, INLINE_MAX in *. split; [|lia]. split.
    - apply Z.div_str_pos. lia.
    - apply Z.div_le_upper_bound; lia. }
  destruct (Z.leb_spec (len bs) INLINE_MAX); [lia|].
  rewrite Z.mod_small in H by lia. apply Ok_inj in H. subst plan. cbn [plan_head plan_chunks ah_chunk_bucket].
  rewrite Hp. split; [done|]. split; [|lia]. fold (data_pieces bs). by rewrite length_fmap.
Qed.

(** ** The head arrives *)

Definition head_row (rel_id : string) (id : bytes) (h : AttachHead) (expiry : option Z) (now : Z)
    : AttachmentRow :=
  mkAttachmentRow id rel_id id DirIn (ah_media_class h) (ah_mime_hint h) (ah_uncompressed_n h)
    (ah_chunk_count h) (ah_chunk_bucket h) (ah_content_sha256 h) (ah_caption h) (ah_flags h)
    (ah_orig_ext h) [] false false expiry now.

Lemma with_progress_same r : with_progress r (ar_chunks r) (ar_complete r) (ar_consumed r) = r.
Proof. by destruct r. Qed.

(** A chunked head on an open relationship: the row is stored and the
    pieces that are already there are tried. *)
Lemma on_attach_head_chunked sha256 db rel_id env payload s :
  load_policy db rel_id = Ok s → attachments s = true → attachment db (env_msg_id env) = None →
  ahp_inline payload = None →
  on_attach_head sha256 db rel_id env payload
  = Ok (try_complete sha256
      (set_attachments db (<[env_msg_id env :=
         head_row rel_id (env_msg_id env) (ahp_head payload) (expiry_at s (db_now db)) (db_now db)]>
         (db_attachments db)))
      rel_id (env_msg_id env)).
Proof.
  intros Hp Ha Hn Hi. unfold on_attach_head, attachments_allowed, message_expiry.
  rewrite Hp. cbn [rbind map_err]. rewrite Ha, Hn, Hi. cbn [negb rbind map_err].
  unfold insert_head. cbn [na_head_id]. unfold attachment in Hn. by rewrite Hn.
Qed.

Lemma receiving_start sha256 db rel_id env payload s ps :
  load_policy db rel_id = Ok s → attachments s = true → attachment db (env_msg_id env) = None →
  ahp_inline payload = None → (∀ i, chunk db (env_msg_id env) i = None) → ps ≠ [] →
  let r0 := head_row rel_id (env_msg_id env) (ahp_head payload) (expiry_at s (db_now db)) (db_now db) in
  announces sha256 r0 ps →
  ∃ db' ev, on_attach_head sha256 db rel_id env payload = Ok (db', ev) ∧ receiving db' r0 ps ∅.
Proof.
  intros Hp Ha Hn Hi Hc Hne r0 (Hcc & _).
  assert (Hlen : 0 < len ps) by (destruct ps; [done|rewrite len_cons; pose proof (len_nonneg ps); lia]).
  rewrite (on_attach_head_chunked sha256 db rel_id env payload s) by done. fold r0. set (db1 := set_attachments db _).
  assert (Hl : db_attachments db1 !! env_msg_id env = Some r0) by (cbn; apply lookup_insert_eq).
  unfold try_complete, attachment. rewrite Hl. cbn [ar_complete r0 head_row].
  rewrite (chunks_for_exact db1 _ []) by (intros i; case_decide; apply Hc).
  change (len []) with 0. fold (head_row rel_id (env_msg_id env) (ahp_head payload) (expiry_at s (db_now db)) (db_now db)).
  fold r0. rewrite Hcc. destruct (Z.ltb_spec 0 (len ps)); [|lia].
  exists db1, []. split; [done|]. split; [|split].
  - exists []. split_and!; [|by left|].
    + change (ar_head_id r0) with (env_msg_id env). rewrite Hl. f_equal. rewrite bool_decide_eq_false_2.
      * done.
      * intros E. assert (Hz : 0 ∈ indices ps) by (apply elem_of_indices; lia). rewrite <- E in Hz. set_solver.
    + intros k Hk. by rewrite bool_decide_eq_false_2 by set_solver.
  - set_solver.
  - intros i. rewrite decide_False by set_solver. apply Hc.
Qed.

Lemma outbound_pieces h plan ps :
  plan_chunks plan = (Data <$> ps) ++ replicate (Z.to_nat (ah_chunk_bucket (plan_head plan)) - length ps) Pad →
  ∀ c, c ∈ outbound_chunks h plan →
    is_piece h ps c.
Proof.
  intros Hp c Hc. unfold outbound_chunks in Hc. rewrite Hp in Hc.
  apply list_elem_of_lookup in Hc as [i Hi]. rewrite list_lookup_imap in Hi.
  apply fmap_Some in Hi as (co & Hco & ->). apply lookup_app_Some in Hco as [Hco|[_ Hco]].
  - rewrite list_lookup_fmap in Hco. apply fmap_Some in Hco as (d & Hd & ->). right.
    exists (Z.of_nat i), d. rewrite Nat2Z.id. split; [done|]. split; [|done]. apply elem_of_indices.
    apply lookup_lt_Some in Hd. unfold len. lia.
  - apply lookup_replicate in Hco as [-> _]. by left.
Qed.

Lemma outbound_carries h plan ps i :
  plan_chunks plan = (Data <$> ps) ++ replicate (Z.to_nat (ah_chunk_bucket (plan_head plan)) - length ps) Pad →
  i ∈ indices ps → ∃ d, mkAttachChunk h i false d ∈ outbound_chunks h plan.
Proof.
  intros Hp Hi%elem_of_indices. destruct (lookup_lt_is_Some_2 ps (Z.to_nat i)) as [d Hd]; [unfold len in Hi; lia|].
  exists d. apply list_elem_of_lookup. exists (Z.to_nat i). unfold outbound_chunks.
  rewrite list_lookup_imap, Hp, lookup_app_l by (rewrite length_fmap; by eapply lookup_lt_Some).
  rewrite list_lookup_fmap, Hd. cbn. by rewrite Z2Nat.id by lia.
Qed.

(** C16: A chunked transfer end to end: the sender plans the chunks, the
    receiver stores the head and then sees every chunk envelope the sender
    emits, pads included, in any order and any number of times; no step
    fails and the receiver holds exactly the sender's bytes. *)
Theorem transfer_any_order sha256 db rel_id s env mc mime ext bs caption vo plan cs :
  plan_transfer sha256 mc mime ext bs caption vo = Ok plan → INLINE_MAX < len bs →
  load_policy db rel_id = Ok s → attachments s = true →
  attachment db (env_msg_id env) = None → (∀ i, chunk db (env_msg_id env) i = None) →
  (∀ c, c ∈ cs ↔ c ∈ outbound_chunks (env_msg_id env) plan) →
  ∃ db1 ev db2,
    on_attach_head sha256 db rel_id env (mkAttachHeadPayload (plan_head plan) None) = Ok (db1, ev)
    ∧ feed_chunks sha256 db1 rel_id cs = Ok db2
    ∧ attachment_bytes db2 (env_msg_id env) = Some bs.
Proof.
  intros Hplan Hi Hp Ha Hn Hc Hcs. set (ps := data_pieces bs).
  destruct (plan_chunked sha256 _ _ _ _ _ _ _ Hplan Hi) as (Hh & Hch & _ & Hlen). fold ps in Hh, Hch, Hlen.
  assert (Hcat : concat ps = bs) by (apply concat_pieces; unfold CHUNK_DATA_MAX; lia).
  assert (Hne : ps ≠ []) by (intros E; rewrite E in Hlen; unfold len in Hlen; cbn in Hlen; lia).
  set (r0 := head_row rel_id (env_msg_id env) (plan_head plan) (expiry_at s (db_now db)) (db_now db)).
  assert (Hann : announces sha256 r0 ps).
  { unfold announces. subst r0. rewrite Hcat, Hh. done. }
  destruct (receiving_start sha256 db rel_id env (mkAttachHeadPayload (plan_head plan) None) s ps
              Hp Ha Hn eq_refl Hc Hne Hann) as (db1 & ev & H1 & Hr1).
  destruct (feed_receiving sha256 r0 ps rel_id cs db1 ∅ Hann Hne Hr1) as (db2 & H2 & Hr2).
  { apply Forall_forall. intros c Hin. eapply outbound_pieces; [exact Hch|]. by apply Hcs. }
  exists db1, ev, db2. split; [done|]. split; [done|].
  assert (Hall : carried cs ∪ ∅ = indices ps).
  { destruct Hr2 as (_ & Hsub & _). apply set_eq. intros i. split; [by apply Hsub|]. intros Hin.
    destruct (outbound_carries (env_msg_id env) plan ps i Hch Hin) as [d Hd%Hcs].
    apply elem_of_union_l. unfold carried. apply elem_of_list_to_set, list_elem_of_fmap.
    exists (mkAttachChunk (env_msg_id env) i false d). split; [done|]. by apply list_elem_of_filter. }
  rewrite Hall in Hr2. rewrite <- Hcat. exact (receiving_bytes db2 r0 ps Hne Hr2).
Qed.

Definition demo_media : bytes := replicate (Z.to_nat 27901) (zb 5).
Definition demo_media_sha (bs : bytes) : bytes := be_bytes 32 (len bs).
Definition demo_plan : AttachPlan :=
  default (mkAttachPlan (mkAttachHead 0 [] [] 0 0 0 [] [] 0) [])
    (ok (plan_transfer demo_media_sha CLASS_IMAGE [] [] demo_media [] false)).
Definition demo_head_env : Envelope :=
  mkEnvelope (be_bytes 16 7) 3 1000 None (PAttachHead (mkAttachHeadPayload (plan_head demo_plan) None)).

Lemma demo_plan_ok : plan_transfer demo_media_sha CLASS_IMAGE [] [] demo_media [] false = Ok demo_plan.
Proof.
  assert (H : is_ok (plan_transfer demo_media_sha CLASS_IMAGE [] [] demo_media [] false) = true)
    by (by vm_compute).
  unfold demo_plan. by destruct (plan_transfer _ _ _ _ _ _ _).
Qed.

Lemma transfer_any_order_witness :
  ∃ db1 ev db2,
    on_attach_head demo_media_sha demo_db "rel" demo_head_env (mkAttachHeadPayload (plan_head demo_plan) None)
    = Ok (db1, ev)
    ∧ feed_chunks demo_media_sha db1 "rel" (reverse (outbound_chunks (be_bytes 16 7) demo_plan)) = Ok db2
    ∧ attachment_bytes db2 (be_bytes 16 7) = Some demo_media.
Proof.
  apply (transfer_any_order demo_media_sha demo_db "rel" policy_default demo_head_env CLASS_IMAGE [] []
           demo_media [] false demo_plan);
    [apply demo_plan_ok|by vm_compute|by vm_compute|by vm_compute|by vm_compute|done|].
  intros c. by rewrite reverse_Permutation.
Defined.
