(* ===== verification/Rows.v ===== *)
(** From the columns of a SELECT to a row and back: the [row_to_*] functions
    of store/messages.rs, outbox.rs, attachments.rs, sticker_items.rs,
    sticker_cache.rs and stickers.rs, and the parameters their INSERTs bind.
    A column value and the conversions of the database binding are an
    interface with laws; the tables of [Ledger] hold the rows themselves, and
    the theorem says that is what a SELECT gives back. *)

From S2P Require Import Prelude Bin RustStr Hex Policy WireAttach Ledger StickerStore Attach.

(** ** The interface: a column value *)

(** [get_int lo hi] reads a column as the integer type with that range. *)
Class Sql (Cell : Type) := {
  int_cell : Z → Cell;
  text_cell : bytes → Cell;
  blob_cell : bytes → Cell;
  null_cell : Cell;
  get_int : Z → Z → Cell → result Detail Z;
  get_text : Cell → result Detail bytes;
  get_blob : Cell → result Detail bytes;
  is_null : Cell → bool;
}.

Definition i64_min : Z := - 2 ^ 63.
Definition i64_max : Z := 2 ^ 63 - 1.

(** What the binding documents: a bound value is read back as itself by a
    type it fits, and a conversion gives only values of its type. *)
Class SqlLaws (Cell : Type) `{Sql Cell} := {
  get_int_cell : ∀ lo hi v, i64_min ≤ v ≤ i64_max → lo ≤ v ≤ hi → get_int lo hi (int_cell v) = Ok v;
  get_int_range : ∀ lo hi c v, get_int lo hi c = Ok v → lo ≤ v ≤ hi;
  get_text_cell : ∀ s, utf8_ok s = true → get_text (text_cell s) = Ok s;
  get_text_utf8 : ∀ c s, get_text c = Ok s → utf8_ok s = true;
  get_blob_cell : ∀ b, get_blob (blob_cell b) = Ok b;
  is_null_null : is_null null_cell = true;
  is_null_int : ∀ v, is_null (int_cell v) = false;
  is_null_text : ∀ s, is_null (text_cell s) = false;
}.

Inductive RowError :=
| InvalidColumnIndex (i : nat)
| ColumnError (i : nat) (e : Detail)
| ConversionFailure (e : StoreError)
| RowPanic.

Section Rows.
Context {Cell : Type} `{Sql Cell}.

Definition Cells : Type := list Cell.

(** [r.get(i)] *)
Definition get {A} (r : Cells) (i : nat) (f : Cell → result Detail A) : result RowError A :=
  match r !! i with
  | None => Err (InvalidColumnIndex i)
  | Some c => match f c with Ok a => Ok a | Err e => Err (ColumnError i e) end
  end.

Definition get_opt {A} (f : Cell → result Detail A) (c : Cell) : result Detail (option A) :=
  if is_null c then Ok None else let* a := f c in Ok (Some a).

Definition get_i64 : Cell → result Detail Z := get_int i64_min i64_max.
Definition get_u8 : Cell → result Detail Z := get_int 0 u8_max.
Definition get_u16 : Cell → result Detail Z := get_int 0 u16_max.
Definition get_u32 : Cell → result Detail Z := get_int 0 u32_max.

Definition opt_cell {A} (f : A → Cell) (o : option A) : Cell := from_option f null_cell o.

(** [.map_err(corrupt)] *)
Definition converted {A} (r : result StoreError A) : result RowError A :=
  match r with Ok a => Ok a | Err e => Err (ConversionFailure e) end.

(** [try_into()] to an array of [n] bytes. *)
Definition fixed (n : nat) (b : bytes) (at_ : Detail) : result RowError bytes :=
  if decide (length b = n) then Ok b else Err (ConversionFailure (Corrupt at_)).

Definition parse_id16 (hex : bytes) (at_ : Detail) : result RowError bytes :=
  match hex_decode hex with
  | None => Err RowPanic
  | Some r => let* b := converted r in fixed 16 b at_
  end.

Definition transpose {A B} (f : A → result RowError B) (o : option A) : result RowError (option B) :=
  match o with
  | None => Ok None
  | Some a => let* b := f a in Ok (Some b)
  end.

(** ** [messages] *)

Definition row_to_message (r : Cells) : result RowError MessageRow :=
  let* msg_id := get r 0 get_text in
  let* rel_id := get r 1 get_text in
  let* direction := get r 2 get_text in
  let* app_seq := get r 3 get_i64 in
  let* sent_at := get r 4 get_i64 in
  let* received_at := get r 5 (get_opt get_i64) in
  let* env_type := get r 6 get_u8 in
  let* ref_id := get r 7 (get_opt get_text) in
  let* payload := get r 8 get_blob in
  let* state := get r 9 get_text in
  let* expires_at := get r 10 (get_opt get_i64) in
  let* created_at := get r 11 get_i64 in
  let* edited := get r 12 get_i64 in
  let* tombstone := get r 13 get_i64 in
  let* read_at := get r 14 (get_opt get_i64) in
  let* edit_count := get r 15 get_i64 in
  let* last_edit_seq := get r 16 get_i64 in
  let* msg_id := parse_id16 msg_id (Lit "messages.msg_id: not 16 bytes") in
  let* direction := converted (direction_parse (bytes_str direction)) in
  let* ref_id := transpose (λ h, parse_id16 h (Lit "messages.ref_id: not 16 bytes")) ref_id in
  let* state := converted (delivery_parse (bytes_str state)) in
  Ok (mkMessageRow msg_id (bytes_str rel_id) direction (as_u64 app_seq) (as_u64 sent_at)
        (as_u64 <$> received_at) env_type ref_id payload state (as_u64 <$> expires_at) (as_u64 created_at)
        (negb (edited =? 0)) (negb (tombstone =? 0)) (as_u64 <$> read_at) (edit_count mod 2 ^ 32)
        (as_u64 last_edit_seq)).

(** The parameters of [insert_message], and the defaults of the columns it
    does not name. *)
Definition insert_message_cells (now : Z) (m : NewMessage) : Cells :=
  [text_cell (hex_encode (nm_msg_id m)); text_cell (str_bytes (nm_rel_id m));
   text_cell (str_bytes (direction_as_str (nm_direction m))); int_cell (as_i64 (nm_app_seq m));
   int_cell (as_i64 (nm_sent_at m)); opt_cell (λ v, int_cell (as_i64 v)) (nm_received_at m);
   int_cell (nm_env_type m); opt_cell (λ id, text_cell (hex_encode id)) (nm_ref_id m);
   blob_cell (nm_payload m); text_cell (str_bytes (delivery_as_str (nm_state m)));
   opt_cell (λ v, int_cell (as_i64 v)) (nm_expires_at m); int_cell (as_i64 now)]
  ++ [int_cell 0; int_cell 0; null_cell; int_cell 0; int_cell 0].

(** ** [outbox] *)

Definition row_to_outbox (r : Cells) : result RowError OutboxRow :=
  let* msg_id := get r 0 get_text in
  let* msg_id := parse_id16 msg_id (Lit "outbox.msg_id: not 16 bytes") in
  let* rel_id := get r 1 get_text in
  let* record := get r 2 get_blob in
  let* attempts := get r 3 get_u32 in
  let* next_attempt_at := get r 4 get_i64 in
  let* expires_at := get r 5 get_i64 in
  let* created_at := get r 6 get_i64 in
  Ok (mkOutboxRow msg_id (bytes_str rel_id) record attempts (as_u64 next_attempt_at) (as_u64 expires_at)
        (as_u64 created_at)).

Definition enqueue_cells (now : Z) (msg_id : bytes) (rel_id : string) (record : bytes) (ttl_secs : Z) : Cells :=
  [text_cell (hex_encode msg_id); text_cell (str_bytes rel_id); blob_cell record; int_cell 0;
   int_cell (as_i64 now); int_cell (as_i64 (wrap64 (now + ttl_secs))); int_cell (as_i64 now)].

(** ** [attachments] *)

Definition row_to_attachment (r : Cells) : result RowError AttachmentRow :=
  let* head_id := get r 0 get_text in
  let* msg_id := get r 2 get_text in
  let* direction := get r 3 get_text in
  let* sha := get r 9 get_blob in
  let* head_id := parse_id16 head_id (Lit "attachments.head_id: not 16 bytes") in
  let* rel_id := get r 1 get_text in
  let* msg_id := parse_id16 msg_id (Lit "attachments.msg_id: not 16 bytes") in
  let* direction := converted (direction_parse (bytes_str direction)) in
  let* media_class := get r 4 get_u8 in
  let* mime_hint := get r 5 get_text in
  let* uncompressed_n := get r 6 get_u32 in
  let* chunk_count := get r 7 get_u16 in
  let* chunk_bucket := get r 8 get_u16 in
  let* sha := fixed 32 sha (Lit "attachments.sha: not 32 bytes") in
  let* caption := get r 10 get_text in
  let* flags := get r 11 get_u8 in
  let* orig_ext := get r 12 get_text in
  let* chunks := get r 13 get_blob in
  let* complete := get r 14 get_i64 in
  let* consumed := get r 15 get_i64 in
  let* expires_at := get r 16 (get_opt get_i64) in
  let* created_at := get r 17 get_i64 in
  Ok (mkAttachmentRow head_id (bytes_str rel_id) msg_id direction media_class mime_hint uncompressed_n
        chunk_count chunk_bucket sha caption flags orig_ext chunks (negb (complete =? 0))
        (negb (consumed =? 0)) (as_u64 <$> expires_at) (as_u64 created_at)).

Definition insert_head_cells (now : Z) (h : NewAttachment) : Cells :=
  let a := na_head h in
  [text_cell (hex_encode (na_head_id h)); text_cell (str_bytes (na_rel_id h));
   text_cell (hex_encode (na_msg_id h)); text_cell (str_bytes (direction_as_str (na_direction h)));
   int_cell (ah_media_class a); text_cell (ah_mime_hint a); int_cell (ah_uncompressed_n a);
   int_cell (ah_chunk_count a); int_cell (ah_chunk_bucket a); blob_cell (ah_content_sha256 a);
   text_cell (ah_caption a); int_cell (ah_flags a); text_cell (ah_orig_ext a); blob_cell [];
   int_cell 0; int_cell 0; opt_cell (λ v, int_cell (as_i64 v)) (na_expires_at h); int_cell (as_i64 now)].

(** ** [sticker_items], [sticker_cache] and [stickers] *)

Definition row_to_item (r : Cells) : result RowError StickerItemRow :=
  let* pack_id := get r 0 get_text in
  let* sha := get r 4 get_blob in
  let* pack_id := parse_id16 pack_id (Lit "sticker_items.pack_id") in
  let* item_id := get r 1 get_u16 in
  let* w := get r 2 get_u16 in
  let* h := get r 3 get_u16 in
  let* sha := fixed 32 sha (Lit "sticker_items.sha256") in
  let* bs := get r 5 get_blob in
  Ok (mkStickerItemRow pack_id item_id w h sha bs).

Definition put_item_cells (it : StickerItemRow) : Cells :=
  [text_cell (hex_encode (sr_pack_id it)); int_cell (sr_item_id it); int_cell (sr_w it); int_cell (sr_h it);
   blob_cell (sr_sha256 it); blob_cell (sr_bytes it)].

Definition row_to_cached (r : Cells) : result RowError CachedItemRow :=
  let* sha := get r 0 get_blob in
  let* pack_id := get r 5 (get_opt get_text) in
  let* sha := fixed 32 sha (Lit "sticker_cache.sha256") in
  let* bs := get r 1 get_blob in
  let* w := get r 2 get_u16 in
  let* h := get r 3 get_u16 in
  let* kind := get r 4 get_u8 in
  let* pack_id := transpose (λ h, parse_id16 h (Lit "sticker_cache.pack_id")) pack_id in
  let* from_rel := get r 6 (get_opt get_text) in
  let* created_at := get r 7 get_i64 in
  Ok (mkCachedItemRow sha bs w h kind pack_id (bytes_str <$> from_rel) (as_u64 created_at)).

Definition cache_put_cells (now : Z) (it : NewCachedItem) : Cells :=
  [blob_cell (nc_sha256 it); blob_cell (nc_bytes it); int_cell (nc_w it); int_cell (nc_h it);
   int_cell (nc_kind it); opt_cell (λ p, text_cell (hex_encode p)) (nc_pack_id it);
   opt_cell (λ s, text_cell (str_bytes s)) (nc_from_rel it); int_cell (as_i64 now)].

(** [StickerPackRow], the columns [store/stickers.rs] reads of a pack. *)
Record StickerPackRow := mkStickerPackRow {
  spr_pack_id : bytes;
  spr_pack_pk : bytes;
  spr_title : bytes;
  spr_kind : Z;
  spr_visibility : Z;
  spr_item_count : Z;
  spr_icon_item_id : Z;
  spr_installed_at : Z;
}.

Definition row_to_pack (r : Cells) : result RowError StickerPackRow :=
  let* pack_id := get r 0 get_text in
  let* pack_pk := get r 1 get_blob in
  let* pack_id := parse_id16 pack_id (Lit "stickers.pack_id: not 16 bytes") in
  let* pack_pk := fixed 32 pack_pk (Lit "stickers.pack_pk: not 32 bytes") in
  let* title := get r 2 get_text in
  let* kind := get r 3 get_u8 in
  let* visibility := get r 4 get_u8 in
  let* item_count := get r 5 get_u16 in
  let* icon_item_id := get r 6 get_u16 in
  let* installed_at := get r 7 get_i64 in
  Ok (mkStickerPackRow pack_id pack_pk title kind visibility item_count icon_item_id (as_u64 installed_at)).

Definition install_pack_cells (now : Z) (p : StickerPackRow) : Cells :=
  [text_cell (hex_encode (spr_pack_id p)); blob_cell (spr_pack_pk p); text_cell (spr_title p);
   int_cell (spr_kind p); int_cell (spr_visibility p); int_cell (spr_item_count p);
   int_cell (spr_icon_item_id p); int_cell (as_i64 now)].

(** ** Reading back *)

Context `{!SqlLaws Cell}.

Definition opt_u64 (o : option Z) : Prop := from_option is_u64 True o.
Definition is_id16 (b : bytes) : Prop := length b = 16%nat.
Definition is_str (s : string) : Prop := utf8_ok (str_bytes s) = true.

Lemma get_at {A} (r : Cells) i c (f : Cell → result Detail A) a :
  r !! i = Some c → f c = Ok a → get r i f = Ok a.
Proof. unfold get. by intros -> ->. Qed.

Lemma get_i64_u64 v : is_u64 v → get_i64 (int_cell (as_i64 v)) = Ok (as_i64 v).
Proof.
  intros Hv. unfold is_u64, u64_max in Hv. apply get_int_cell; unfold i64_min, i64_max, as_i64; case_decide; lia.
Qed.

Lemma get_small hi v : hi ≤ u32_max → 0 ≤ v ≤ hi → get_int 0 hi (int_cell v) = Ok v.
Proof. intros Hh Hv. unfold u32_max in Hh. apply get_int_cell; [unfold i64_min, i64_max; lia|done]. Qed.

Lemma get_opt_i64 o : opt_u64 o → get_opt get_i64 (opt_cell (λ v, int_cell (as_i64 v)) o) = Ok (as_i64 <$> o).
Proof.
  unfold get_opt. destruct o as [v|]; cbn; intros Hv; [|by rewrite is_null_null].
  by rewrite is_null_int, get_i64_u64.
Qed.

Lemma get_opt_text {A} (g : A → bytes) (o : option A) :
  from_option (λ a, utf8_ok (g a) = true) True o →
  get_opt get_text (opt_cell (λ a, text_cell (g a)) o) = Ok (g <$> o).
Proof.
  unfold get_opt. destruct o as [v|]; cbn; intros Hv; [|by rewrite is_null_null].
  by rewrite is_null_text, get_text_cell.
Qed.

Lemma hex_utf8 b : utf8_ok (hex_encode b) = true.
Proof.
  apply ascii_utf8_ok. pose proof (hex_encode_lower b) as Hl. rewrite forallb_forall in *. intros x Hx.
  specialize (Hl x Hx). unfold lower_hex, in_range, is_ascii in *. lia.
Qed.

Lemma get_opt_hex o : get_opt get_text (opt_cell (λ a, text_cell (hex_encode a)) o) = Ok (hex_encode <$> o).
Proof. apply (get_opt_text hex_encode). destruct o; [apply hex_utf8|done]. Qed.

Lemma get_opt_null {A} (f : Cell → result Detail A) : get_opt f null_cell = Ok None.
Proof. unfold get_opt. by rewrite is_null_null. Qed.

Lemma parse_id16_hex b at_ : is_id16 b → parse_id16 (hex_encode b) at_ = Ok b.
Proof. intros Hb. unfold parse_id16. rewrite hex_decode_encode. cbn. unfold fixed. by rewrite decide_True. Qed.

Lemma transpose_id16 o at_ :
  from_option is_id16 True o → transpose (λ h, parse_id16 h at_) (hex_encode <$> o) = Ok o.
Proof. destruct o as [b|]; cbn; intros Hb; [|done]. by rewrite parse_id16_hex. Qed.

Lemma fmap_u64 o : opt_u64 o → as_u64 <$> (as_i64 <$> o) = o.
Proof. destruct o as [v|]; cbn; intros Hv; [|done]. by rewrite as_u64_i64. Qed.

Lemma direction_str d : utf8_ok (str_bytes (direction_as_str d)) = true ∧ direction_parse (direction_as_str d) = Ok d.
Proof. by destruct d. Qed.

Lemma delivery_str s : utf8_ok (str_bytes (delivery_as_str s)) = true ∧ delivery_parse (delivery_as_str s) = Ok s.
Proof. by destruct s. Qed.

(** The values the types of the source allow. *)
Definition typed_message (m : NewMessage) : Prop :=
  is_id16 (nm_msg_id m) ∧ is_str (nm_rel_id m) ∧ is_u64 (nm_app_seq m) ∧ is_u64 (nm_sent_at m)
  ∧ opt_u64 (nm_received_at m) ∧ is_u8 (nm_env_type m) ∧ from_option is_id16 True (nm_ref_id m)
  ∧ opt_u64 (nm_expires_at m).

Definition typed_head (h : NewAttachment) : Prop :=
  let a := na_head h in
  is_id16 (na_head_id h) ∧ is_str (na_rel_id h) ∧ is_id16 (na_msg_id h) ∧ is_u8 (ah_media_class a)
  ∧ utf8_ok (ah_mime_hint a) = true ∧ is_u32 (ah_uncompressed_n a) ∧ is_u16 (ah_chunk_count a)
  ∧ is_u16 (ah_chunk_bucket a) ∧ length (ah_content_sha256 a) = 32%nat ∧ utf8_ok (ah_caption a) = true
  ∧ is_u8 (ah_flags a) ∧ utf8_ok (ah_orig_ext a) = true ∧ opt_u64 (na_expires_at h).

Definition typed_item (it : StickerItemRow) : Prop :=
  is_id16 (sr_pack_id it) ∧ is_u16 (sr_item_id it) ∧ is_u16 (sr_w it) ∧ is_u16 (sr_h it)
  ∧ length (sr_sha256 it) = 32%nat.

Definition typed_cached (it : NewCachedItem) : Prop :=
  length (nc_sha256 it) = 32%nat ∧ is_u16 (nc_w it) ∧ is_u16 (nc_h it) ∧ is_u8 (nc_kind it)
  ∧ from_option is_id16 True (nc_pack_id it) ∧ from_option is_str True (nc_from_rel it).

Definition typed_pack (p : StickerPackRow) : Prop :=
  is_id16 (spr_pack_id p) ∧ length (spr_pack_pk p) = 32%nat ∧ utf8_ok (spr_title p) = true
  ∧ is_u8 (spr_kind p) ∧ is_u8 (spr_visibility p) ∧ is_u16 (spr_item_count p) ∧ is_u16 (spr_icon_item_id p).

Lemma fixed_ok n b at_ : length b = n → fixed n b at_ = Ok b.
Proof. intros Hb. unfold fixed. by rewrite decide_True. Qed.

Lemma from_str_opt o : from_option is_str True o → bytes_str <$> (str_bytes <$> o) = o.
Proof. destruct o; [|done]. intros _. cbn. by rewrite bytes_str_bytes. Qed.

Ltac read_cell :=
  first [ apply get_blob_cell
        | apply get_i64_u64; assumption
        | apply (get_small u8_max); [done|assumption]
        | apply (get_small u16_max); [done|assumption]
        | apply (get_small u32_max); [done|assumption]
        | apply get_opt_i64; assumption
        | apply get_opt_hex
        | apply get_opt_null
        | apply (get_opt_text str_bytes); assumption
        | apply get_text_cell;
          first [assumption|apply hex_utf8|apply direction_str|apply delivery_str]
        | by apply get_int_cell ].

Ltac read_columns :=
  repeat first
    [ match goal with |- context [get ?r ?i ?f] =>
        erewrite (get_at r i _ f); [|reflexivity|read_cell]; cbn [rbind] end
    | rewrite parse_id16_hex by assumption; cbn [rbind]
    | rewrite transpose_id16 by assumption; cbn [rbind]
    | rewrite fixed_ok by assumption; cbn [rbind]
    | rewrite bytes_str_bytes
    | rewrite (proj2 (direction_str _)); cbn [rbind converted]
    | rewrite (proj2 (delivery_str _)); cbn [rbind converted] ].

Lemma message_read_back db m db' :
  is_u64 (db_now db) → typed_message m → insert_message db m = Ok db' →
  ∃ r, db_messages db' !! nm_msg_id m = Some r ∧ row_to_message (insert_message_cells (db_now db) m) = Ok r.
Proof.
  intros Hnow (Hid & Hrel & Hseq & Hsent & Hrecv & Htype & Href & Hexp). unfold is_str in Hrel.
  unfold insert_message. destruct (db_messages db !! _); [done|]. intros [= <-].
  eexists. split; [cbn; apply lookup_insert_eq|]. unfold row_to_message, insert_message_cells. read_columns.
  by rewrite !as_u64_i64, !fmap_u64 by done.
Qed.

(** [now + ttl] in a u64 *)
Lemma wrap64_u64 v : is_u64 (wrap64 v).
Proof. unfold is_u64, u64_max, wrap64. pose proof (Z.mod_pos_bound v (2 ^ 64)). lia. Qed.

Lemma outbox_read_back db msg_id rel_id record ttl :
  is_u64 (db_now db) → is_id16 msg_id → is_str rel_id →
  row_to_outbox (enqueue_cells (db_now db) msg_id rel_id record ttl)
  = Ok (fresh_outbox_row db msg_id rel_id record ttl).
Proof.
  intros Hnow Hid Hrel. unfold is_str in Hrel. pose proof (wrap64_u64 (db_now db + ttl)).
  unfold row_to_outbox, enqueue_cells. read_columns. by rewrite !as_u64_i64.
Qed.

Lemma head_read_back db h db' :
  is_u64 (db_now db) → typed_head h → insert_head db h = Ok db' →
  ∃ r, db_attachments db' !! na_head_id h = Some r ∧ row_to_attachment (insert_head_cells (db_now db) h) = Ok r.
Proof.
  intros Hnow (Hid & Hrel & Hmsg & Hclass & Hmime & Hn & Hcount & Hbucket & Hsha & Hcap & Hflags & Hext & Hexp).
  unfold is_str in Hrel. unfold insert_head. destruct (db_attachments db !! _); [done|]. intros [= <-].
  eexists. split; [cbn; apply lookup_insert_eq|]. unfold row_to_attachment, insert_head_cells. read_columns.
  by rewrite !as_u64_i64, !fmap_u64 by done.
Qed.

Lemma item_read_back it : typed_item it → row_to_item (put_item_cells it) = Ok it.
Proof.
  intros (Hid & Hitem & Hw & Hh & Hsha). unfold row_to_item, put_item_cells. read_columns. by destruct it.
Qed.

Lemma cached_read_back now it :
  is_u64 now → typed_cached it →
  row_to_cached (cache_put_cells now it)
  = Ok (mkCachedItemRow (nc_sha256 it) (nc_bytes it) (nc_w it) (nc_h it) (nc_kind it) (nc_pack_id it)
          (nc_from_rel it) now).
Proof.
  intros Hnow (Hsha & Hw & Hh & Hk & Hp & Hf). unfold row_to_cached, cache_put_cells. read_columns.
  by rewrite !as_u64_i64, from_str_opt.
Qed.

Lemma pack_read_back now p :
  is_u64 now → typed_pack p →
  row_to_pack (install_pack_cells now p)
  = Ok (mkStickerPackRow (spr_pack_id p) (spr_pack_pk p) (spr_title p) (spr_kind p) (spr_visibility p)
          (spr_item_count p) (spr_icon_item_id p) now).
Proof.
  intros Hnow (Hid & Hpk & Ht & Hk & Hv & Hc & Hi). unfold row_to_pack, install_pack_cells. read_columns.
  by rewrite as_u64_i64.
Qed.

(** ** What a conversion gives is of its type *)

Lemma get_range r i lo hi v : get r i (get_int lo hi) = Ok v → lo ≤ v ≤ hi.
Proof.
  unfold get. destruct (r !! i); [|done]. destruct (get_int lo hi c) eqn:E; [|done]. intros [= <-].
  by eapply get_int_range.
Qed.

Lemma parse_id16_typed hex at_ b : parse_id16 hex at_ = Ok b → is_id16 b.
Proof.
  unfold parse_id16, fixed. destruct (hex_decode hex) as [[d|]|]; cbn; [case_decide|..]; by intros [= <-].
Qed.

Lemma transpose_id16_typed o at_ o' :
  transpose (λ h, parse_id16 h at_) o = Ok o' → from_option is_id16 True o'.
Proof.
  destruct o as [h|]; cbn; [|by intros [= <-]]. destruct (parse_id16 h at_) eqn:E; [|done]. intros [= <-].
  by apply parse_id16_typed in E.
Qed.

Lemma as_u64_typed v : is_u64 (as_u64 v).
Proof. apply wrap64_u64. Qed.

Lemma opt_u64_typed o : opt_u64 (as_u64 <$> o).
Proof. destruct o; [apply as_u64_typed|done]. Qed.

(** A row of any cells, whatever wrote them, is either refused or has ids of
    sixteen bytes and integers of their widths. *)
Lemma row_to_message_typed cells r :
  row_to_message cells = Ok r →
  is_id16 (mr_msg_id r) ∧ from_option is_id16 True (mr_ref_id r) ∧ is_u8 (mr_env_type r)
  ∧ is_u64 (mr_app_seq r) ∧ is_u64 (mr_sent_at r) ∧ opt_u64 (mr_received_at r) ∧ opt_u64 (mr_expires_at r)
  ∧ is_u64 (mr_created_at r) ∧ opt_u64 (mr_read_at r) ∧ is_u32 (mr_edit_count r) ∧ is_u64 (mr_last_edit_seq r).
Proof.
  unfold row_to_message. intros Hr. repeat (apply rbind_Ok in Hr as (? & ? & Hr)). injection Hr as <-. cbn.
  split_and!; try apply as_u64_typed; try apply opt_u64_typed; eauto using parse_id16_typed, transpose_id16_typed.
  - by eapply get_range.
  - unfold is_u32, u32_max. pose proof (Z.mod_pos_bound x14 (2 ^ 32)). lia.
Qed.
End Rows.

(** C38: What is written is what is read: over any binding with the laws above, the
    row an INSERT of a message, a queued record, an attachment head or a
    sticker item adds to the model's table is exactly the row the source's
    conversion makes of the bound parameters, so no value of the source's
    types is refused or changed on the way through the signed columns and the
    hexadecimal ids. *)
Theorem inserted_rows_read_back {Cell} `{SqlLaws Cell} db :
  is_u64 (db_now db) →
  (∀ m db', typed_message m → insert_message db m = Ok db' →
     ∃ r, db_messages db' !! nm_msg_id m = Some r
       ∧ row_to_message (Cell := Cell) (insert_message_cells (db_now db) m) = Ok r)
  ∧ (∀ msg_id rel_id record ttl db', is_id16 msg_id → is_str rel_id → enqueue db msg_id rel_id record ttl = Ok db' →
     ∃ r, db_outbox db' !! msg_id = Some r
       ∧ row_to_outbox (Cell := Cell) (enqueue_cells (db_now db) msg_id rel_id record ttl) = Ok r)
  ∧ (∀ h db', typed_head h → insert_head db h = Ok db' →
     ∃ r, db_attachments db' !! na_head_id h = Some r
       ∧ row_to_attachment (Cell := Cell) (insert_head_cells (db_now db) h) = Ok r)
  ∧ (∀ it db', typed_item it → put_item db it = Ok db' → repo_item db (sr_pack_id it) (sr_item_id it) = None →
     ∃ r, r ∈ sd_items (db_stickers db') ∧ row_to_item (Cell := Cell) (put_item_cells it) = Ok r).
Proof.
  intros Hnow. split_and!.
  - intros m db'. by apply message_read_back.
  - intros msg_id rel_id record ttl db' Hid Hrel. unfold enqueue. case_match; [done|]. intros [= <-].
    eexists. split; [cbn; apply lookup_insert_eq|by apply outbox_read_back].
  - intros h db'. by apply head_read_back.
  - intros it db' Hty. unfold put_item. intros Hput Hnone. rewrite Hnone in Hput. injection Hput as <-.
    exists it. split; [cbn; set_solver|by apply item_read_back].
Qed.

(** ** A binding *)

Inductive Value := VNull | VInteger (v : Z) | VText (s : bytes) | VBlob (b : bytes).

#[export] Instance value_sql : Sql Value := {
  int_cell := VInteger; text_cell := VText; blob_cell := VBlob; null_cell := VNull;
  get_int lo hi c := match c with
    | VInteger v => if (lo <=? v) && (v <=? hi) then Ok v else Err (Lit "out of range")
    | _ => Err (Lit "invalid type") end;
  get_text c := match c with
    | VText s => if utf8_ok s then Ok s else Err (Lit "utf-8")
    | _ => Err (Lit "invalid type") end;
  get_blob c := match c with VBlob b => Ok b | _ => Err (Lit "invalid type") end;
  is_null c := match c with VNull => true | _ => false end;
}.

#[export] Instance value_laws : SqlLaws Value.
Proof.
  split; cbn; try done.
  - intros lo hi v _ Hv. destruct (Z.leb_spec lo v), (Z.leb_spec v hi); cbn; (done || lia).
  - intros lo hi c v. destruct c; try done.
    destruct (Z.leb_spec lo v0), (Z.leb_spec v0 hi); cbn; try done. intros [= <-]. lia.
  - by intros s ->.
  - intros c s. destruct c; try done. destruct (utf8_ok s0) eqn:E; [|done]. by intros [= <-].
Qed.

Definition demo_new_message : NewMessage :=
  mkNewMessage (replicate 16 (zb 7)) "rel" DirIn (2 ^ 64 - 1) 5 (Some (2 ^ 63)) 1 (Some (replicate 16 (zb 9)))
    [zb 1] Received None.
Definition demo_rows_db : Db := mkDb 1000 ∅ ∅ ∅ ∅ ∅ ∅ ∅ ∅ ∅ ∅ ∅ sticker_db_empty None.

Lemma inserted_rows_read_back_witness :
  ∃ db' r, insert_message demo_rows_db demo_new_message = Ok db'
    ∧ db_messages db' !! replicate 16 (zb 7) = Some r
    ∧ row_to_message (Cell := Value) (insert_message_cells 1000 demo_new_message) = Ok r.
Proof.
  destruct (inserted_rows_read_back (Cell := Value) demo_rows_db) as (Hm & _); [by vm_compute|].
  destruct (Hm demo_new_message (set_messages demo_rows_db {[replicate 16 (zb 7) :=
    mkMessageRow (replicate 16 (zb 7)) "rel" DirIn (2 ^ 64 - 1) 5 (Some (2 ^ 63)) 1 (Some (replicate 16 (zb 9)))
    [zb 1] Received None 1000 false false None 0 0]})) as (r & Hr & Hd); [by vm_compute|by vm_compute|].
  eauto.
Defined.

(** An id of the wrong length and an
    envelope type past a byte are refused. *)
Example demo_refused :
  row_to_message (Cell := Value) (<[0%nat := VText (str_bytes "00ff")]> (insert_message_cells 1000 demo_new_message))
    = Err (ConversionFailure (Corrupt (Lit "messages.msg_id: not 16 bytes")))
  ∧ row_to_message (Cell := Value) (<[6%nat := VInteger 256]> (insert_message_cells 1000 demo_new_message))
    = Err (ColumnError 6 (Lit "out of range")).
Proof. by vm_compute. Qed.
