(* ===== verification/AttachSafety.v ===== *)
(** Safety of the attachment store: what the client is handed has the hash
    its head announced, orphan chunks stay within their caps, and the
    deliveries for which reassembly does not finish. *)

From stdpp Require Import sorting list_numbers.
From S2P Require Import Prelude Bin Limits Payloads WireResync WireAttach Envelope Policy View WirePolicy Ledger Sync EngineTypes Attach.

(** ** Integrity *)

Definition slots (row : AttachmentRow) : Z := Z.max 1 (ar_chunk_count row).

(** The rows of a transfer lie in its index range. *)
Definition in_slots (db : Db) (h : bytes) (n : Z) : Prop :=
  ∀ i, is_Some (chunk db h i) → 0 ≤ i < n.

Definition transfer_ok (sha256 : bytes → bytes) (db : Db) (h : bytes) (row : AttachmentRow) : Prop :=
  ar_consumed row = false →
  in_slots db h (slots row)
  ∧ (ar_complete row = true →
       (∀ i, 0 ≤ i < slots row → is_Some (chunk db h i))
       ∧ sha256 (concat (chunks_for db h)) = ar_content_sha256 row).

Definition attach_inv (sha256 : bytes → bytes) (db : Db) : Prop :=
  ∀ h row, db_attachments db !! h = Some row → transfer_ok sha256 db h row.

Lemma head_rows_chunk_ext db db' h :
  (∀ i, chunk db' h i = chunk db h i) → (head_rows db' h).*1 = (head_rows db h).*1.
Proof.
  intros H. apply ascending_ext; [apply head_rows_ascending..|]. intros i.
  rewrite !list_elem_of_fmap. split; intros ([j d] & -> & Hin%elem_of_head_rows); exists (j, d);
    (split; [done|]); apply elem_of_head_rows; congruence.
Qed.

Lemma chunks_for_ext db db' h :
  (∀ i, chunk db' h i = chunk db h i) → chunks_for db' h = chunks_for db h.
Proof.
  intros H. pose proof (head_rows_chunk_ext db db' h H) as Hf. unfold chunks_for.
  f_equal. apply list_eq. intros k.
  pose proof (f_equal (λ l, l !! k) Hf) as Hk. cbn in Hk. rewrite !list_lookup_fmap in Hk.
  destruct (head_rows db' h !! k) as [[i d]|] eqn:E', (head_rows db h !! k) as [[j e]|] eqn:E;
    try done; cbn in Hk. injection Hk as ->.
  apply list_elem_of_lookup_2, elem_of_head_rows in E, E'. congruence.
Qed.

Lemma transfer_ok_ext sha256 db db' h row :
  (∀ i, chunk db' h i = chunk db h i) → transfer_ok sha256 db h row → transfer_ok sha256 db' h row.
Proof.
  intros H Hok Hc. destruct (Hok Hc) as [Hin Hcomp]. split.
  - intros i. rewrite H. apply Hin.
  - intros Hd. destruct (Hcomp Hd) as [Hall Hsha]. split.
    + intros i. rewrite H. apply Hall.
    + by rewrite (chunks_for_ext db db').
Qed.

(** A bitmap update leaves a transfer as it is. *)
Lemma transfer_ok_bitmap sha256 db h row bm :
  transfer_ok sha256 db h row →
  transfer_ok sha256 db h (with_progress row bm (ar_complete row) (ar_consumed row)).
Proof. done. Qed.

(** As many rows as slots, all of them in range: every slot is filled. *)
Lemma slots_filled db h n :
  in_slots db h n → n ≤ len (chunks_for db h) → ∀ i, 0 ≤ i < n → is_Some (chunk db h i).
Proof.
  intros Hin Hlen i Hi. set (S := list_to_set (head_rows db h).*1 : gset Z).
  assert (Hnd : NoDup (head_rows db h).*1).
  { apply ascending_NoDup, head_rows_ascending. }
  assert (Hsub : S ⊆ list_to_set (seqZ 0 n)).
  { intros k. unfold S. rewrite !elem_of_list_to_set, elem_of_seqZ.
    intros ([j d] & -> & Hj%elem_of_head_rows)%list_elem_of_fmap. cbn.
    destruct (Hin j); [by eexists|]. lia. }
  assert (Heq : S = list_to_set (seqZ 0 n)).
  { apply set_subseteq_size_eq; [done|]. unfold S.
    rewrite !size_list_to_set by (done || apply NoDup_seqZ).
    assert (Hl : len (chunks_for db h) = Z.of_nat (length (head_rows db h).*1)).
    { unfold chunks_for, len. by rewrite !length_fmap. }
    rewrite length_seqZ. lia. }
  assert (HiS : i ∈ S) by (rewrite Heq; apply elem_of_list_to_set, elem_of_seqZ; lia).
  unfold S in HiS. apply elem_of_list_to_set, list_elem_of_fmap in HiS as ([j d] & -> & Hj%elem_of_head_rows).
  by eexists.
Qed.

(** ** Preservation *)

Lemma inv_other sha256 db db' h :
  attach_inv sha256 db → (∀ h', h' ≠ h → db_attachments db' !! h' = db_attachments db !! h') →
  (∀ h' i, h' ≠ h → chunk db' h' i = chunk db h' i) →
  (∀ row, db_attachments db' !! h = Some row → transfer_ok sha256 db' h row) →
  attach_inv sha256 db'.
Proof.
  intros Hinv Ha Hc Hh h' row Hr. destruct (decide (h' = h)) as [->|Hne]; [by apply Hh|].
  rewrite Ha in Hr by done. apply (transfer_ok_ext sha256 db); [intros i; by apply Hc|by apply Hinv].
Qed.

Lemma put_chunk_Ok db h i d rel now db' :
  put_chunk db h i d rel now = Ok db' →
  db_attachments db' = db_attachments db ∧ chunk db' h i = Some d
  ∧ (∀ h' j, (h', j) ≠ (h, i) → chunk db' h' j = chunk db h' j)
  ∧ (is_Some (chunk db h i) → db' = db).
Proof.
  unfold put_chunk. destruct (chunk db h i) as [prev|] eqn:E.
  - destruct (negb (bool_decide (prev = d))) eqn:Eb; [done|]. intros <-%Ok_inj.
    apply negb_false_iff, bool_decide_eq_true in Eb as ->. by split_and!.
  - intros <-%Ok_inj. cbn [db_attachments set_chunks]. split; [done|]. unfold chunk. cbn [db_chunks set_chunks].
    split; [by rewrite lookup_insert_eq|]. split; [|by intros []].
    intros h' j Hne. by rewrite lookup_insert_ne.
Qed.

Lemma chunk_deleted db h h' i :
  chunk (delete_chunks db h) h' i = if decide (h' = h) then None else chunk db h' i.
Proof.
  unfold chunk, delete_chunks. cbn [db_chunks set_chunks]. rewrite map_lookup_filter. case_decide as E.
  - subst h'. destruct (db_chunks db !! (h, i)); cbn; [|done]. by rewrite option_guard_False by naive_solver.
  - destruct (db_chunks db !! (h', i)); cbn; [|done]. by rewrite option_guard_True by done.
Qed.

Lemma try_complete_inv sha256 db rel_id h :
  attach_inv sha256 db →
  (∀ row, db_attachments db !! h = Some row → 1 ≤ ar_chunk_count row) →
  attach_inv sha256 (try_complete sha256 db rel_id h).1.
Proof.
  intros Hinv Hcc. unfold try_complete, attachment.
  destruct (db_attachments db !! h) as [row|] eqn:Er; [|done].
  destruct (ar_complete row) eqn:Ec; [done|].
  destruct (Z.ltb_spec (len (chunks_for db h)) (ar_chunk_count row)) as [|Hlen]; [done|].
  specialize (Hcc row eq_refl). destruct (negb _ || negb _) eqn:Eb; cbn [fst].
  - apply (inv_other sha256 db _ h Hinv).
    + intros h' Hne. cbn. by rewrite lookup_delete_ne.
    + intros h' i Hne. change (chunk (delete_chunks db h) h' i = chunk db h' i).
      rewrite chunk_deleted. by rewrite decide_False.
    + intros r. cbn. by rewrite lookup_delete_eq.
  - apply orb_false_iff in Eb as [_ Eb]. apply negb_false_iff, bool_decide_eq_true in Eb.
    apply (inv_other sha256 db _ h Hinv).
    + intros h' Hne. cbn. by rewrite lookup_alter_ne.
    + done.
    + intros r Hr. erewrite update_head_lookup in Hr by exact Er. injection Hr as <-.
      intros Hcons. destruct (Hinv h row Er Hcons) as [Hin _]. split; [exact Hin|]. intros _.
      assert (Hs : slots row = ar_chunk_count row) by (unfold slots; lia).
      split; [|exact Eb]. apply slots_filled; [exact Hin|]. change (slots row ≤ len (chunks_for db h)). lia.
Qed.

Lemma note_chunk_inv sha256 db h i db' o :
  note_chunk db h i = (db', o) → attach_inv sha256 db →
  attach_inv sha256 db' ∧ (∀ h' j, chunk db' h' j = chunk db h' j)
  ∧ (∀ row', db_attachments db' !! h = Some row' →
       ∃ row, db_attachments db !! h = Some row ∧ ar_chunk_count row' = ar_chunk_count row).
Proof.
  intros Hn Hinv. unfold note_chunk in Hn. destruct (db_attachments db !! h) as [row|] eqn:Er.
  - destruct (i >=? ar_chunk_count row).
    { apply (f_equal fst) in Hn. cbn [fst] in Hn. subst db'. split_and!; [done|done|]. intros r Hr. exists r. split; congruence. }
    apply (f_equal fst) in Hn. cbn [fst] in Hn. subst db'. split_and!.
    + apply (inv_other sha256 db _ h Hinv); [intros h' Hne; cbn; by rewrite lookup_alter_ne|done|].
      intros r Hr. erewrite update_head_lookup in Hr by exact Er. injection Hr as <-.
      apply transfer_ok_bitmap. by apply Hinv.
    + done.
    + intros r Hr. erewrite update_head_lookup in Hr by exact Er. injection Hr as <-. by exists row.
  - apply (f_equal fst) in Hn. cbn [fst] in Hn. subst db'. split_and!; [done|done|]. intros r Hr. congruence.
Qed.

Lemma on_attach_chunk_inv sha256 db rel_id c db' ev :
  on_attach_chunk sha256 db rel_id c = Ok (db', ev) → 0 ≤ ac_index c →
  attach_inv sha256 db → attach_inv sha256 db'.
Proof.
  unfold on_attach_chunk. intros H Hi Hinv. destruct (ac_pad c); [apply Ok_inj in H; by simplify_eq|].
  destruct (chunk_refused db rel_id c) eqn:Eref; [apply Ok_inj in H; by simplify_eq|].
  apply rbind_Ok in H as (db1 & Hput & H).
  destruct (put_chunk db _ _ _ _ _) as [db1'|] eqn:Ep; [|done]. cbn in Hput. apply Ok_inj in Hput as ->.
  apply put_chunk_Ok in Ep as (Ha & Hc & Ho & Hsame).
  assert (Hinv1 : attach_inv sha256 db1).
  { apply (inv_other sha256 db _ (ac_head_id c) Hinv); [intros h' _; by rewrite Ha| |].
    - intros h' j Hne. apply Ho. congruence.
    - intros row Hrow. rewrite Ha in Hrow. unfold chunk_refused, attachment in Eref. rewrite Hrow in Eref.
      intros Hcons. destruct (Hinv _ _ Hrow Hcons) as [Hin Hcomp].
      destruct (chunk db (ac_head_id c) (ac_index c)) as [prev|] eqn:Eold.
      { assert (db1 = db) as -> by (by apply Hsame). by split. }
      split.
      + intros j Hj. destruct (decide (j = ac_index c)) as [->|Hne]; [unfold slots; lia|].
        apply Hin. rewrite <- (Ho (ac_head_id c) j); [done|congruence].
      + intros Hd. destruct (Hcomp Hd) as [Hall _]. destruct (Hall (ac_index c)) as [x Hx]; [unfold slots; lia|].
        congruence. }
  destruct (note_chunk db1 (ac_head_id c) (ac_index c)) as [db2 o] eqn:En.
  assert (Hcc : o = Some true → ∀ row, db_attachments db2 !! ac_head_id c = Some row → 1 ≤ ar_chunk_count row).
  { intros -> row Hrow. destruct (note_chunk_inv sha256 _ _ _ _ _ En Hinv1) as (_ & _ & Hrows).
    destruct (Hrows row Hrow) as (row1 & Hr1 & ->). rewrite Ha in Hr1.
    unfold chunk_refused, attachment in Eref. rewrite Hr1 in Eref. lia. }
  destruct (note_chunk_inv sha256 _ _ _ _ _ En Hinv1) as (Hinv2 & _).
  destruct o as [[|]|]; apply Ok_inj in H.
  - rewrite (surjective_pairing (try_complete sha256 db2 rel_id (ac_head_id c))) in H.
    injection H as <- _. apply try_complete_inv; auto.
  - by simplify_eq.
  - by simplify_eq.
Qed.

Lemma on_attach_head_inv sha256 db rel_id env payload db' ev :
  on_attach_head sha256 db rel_id env payload = Ok (db', ev) →
  in_slots db (env_msg_id env) (Z.max 1 (ah_chunk_count (ahp_head payload))) →
  (ahp_inline payload = None → 1 ≤ ah_chunk_count (ahp_head payload)) →
  (is_Some (ahp_inline payload) → ah_chunk_count (ahp_head payload) = 0) →
  attach_inv sha256 db → attach_inv sha256 db'.
Proof.
  unfold on_attach_head. intros H Hin Hchunked Hinl Hinv.
  apply rbind_Ok in H as (allowed & _ & H). destruct allowed; cbn [negb] in H; [|apply Ok_inj in H; by simplify_eq].
  destruct (attachment db (env_msg_id env)) eqn:En; [apply Ok_inj in H; by simplify_eq|].
  apply rbind_Ok in H as (expiry & _ & H). apply rbind_Ok in H as (db1 & Hins & H).
  unfold insert_head in Hins. cbn [na_head_id] in Hins. unfold attachment in En. rewrite En in Hins.
  cbn in Hins. apply Ok_inj in Hins. fold (head_row rel_id (env_msg_id env) (ahp_head payload) expiry (db_now db)) in Hins.
  set (id := env_msg_id env) in *. set (r0 := head_row rel_id id (ahp_head payload) expiry (db_now db)) in Hins.
  assert (Hl1 : db_attachments db1 !! id = Some r0) by (subst db1; cbn; apply lookup_insert_eq).
  assert (Hc1 : ∀ h i, chunk db1 h i = chunk db h i) by (intros; by subst db1).
  assert (Hinv1 : attach_inv sha256 db1).
  { apply (inv_other sha256 db _ id Hinv).
    - intros h' Hne. subst db1. cbn. by rewrite lookup_insert_ne.
    - intros h' i _. apply Hc1.
    - intros row Hrow. rewrite Hl1 in Hrow. injection Hrow as <-. intros _. split; [|done].
      intros i. rewrite Hc1. apply Hin. }
  destruct (ahp_inline payload) as [bs|] eqn:Ei.
  - destruct (negb (bool_decide (sha256 bs = _))) eqn:Eb.
    { apply Ok_inj in H. injection H as <- _. apply (inv_other sha256 db1 _ id Hinv1).
      - intros h' Hne. cbn. by rewrite lookup_delete_ne.
      - done.
      - intros r. cbn. by rewrite lookup_delete_eq. }
    apply negb_false_iff, bool_decide_eq_true in Eb.
    apply rbind_Ok in H as (db2 & Hput & H). destruct (put_chunk db1 _ _ _ _ _) as [db2'|] eqn:Ep; [|done].
    cbn in Hput. apply Ok_inj in Hput as ->. apply put_chunk_Ok in Ep as (Ha2 & Hc2 & Ho2 & _).
    apply Ok_inj in H. injection H as <- _. specialize (Hinl ltac:(by eexists)).
    assert (Hrows : chunks_for db2 id = [bs]).
    { apply chunks_for_exact. intros i. destruct (decide (i = 0)) as [->|Hne]; [by rewrite Hc2|].
      rewrite Ho2, Hc1 by congruence. destruct (chunk db id i) as [d|] eqn:Ed.
      - destruct (Hin i) as [? ?]; [by eexists|]. lia.
      - case_decide; [|done]. symmetry. apply lookup_ge_None. cbn. lia. }
    apply (inv_other sha256 db1 _ id Hinv1).
    + intros h' Hne. cbn. rewrite lookup_alter_ne by done. by rewrite Ha2.
    + intros h' i Hne. change (chunk db2 h' i = chunk db1 h' i). apply Ho2. congruence.
    + intros r Hr. erewrite update_head_lookup in Hr by (by rewrite Ha2). injection Hr as <-. intros _.
      assert (Hs : slots r0 = 1) by (unfold slots; cbn; lia). split.
      * intros i Hi. change (is_Some (chunk db2 id i)) in Hi. change (0 ≤ i < slots r0). rewrite Hs.
        destruct (decide (i = 0)) as [->|Hne]; [lia|]. rewrite Ho2, Hc1 in Hi by congruence.
        specialize (Hin i Hi). lia.
      * intros _. split.
        -- intros i Hi. change (0 ≤ i < slots r0) in Hi. assert (i = 0) as -> by lia. by exists bs.
        -- change (sha256 (concat (chunks_for db2 id)) = ah_content_sha256 (ahp_head payload)).
           rewrite Hrows. cbn. by rewrite app_nil_r.
  - apply Ok_inj in H. rewrite (surjective_pairing (try_complete sha256 db1 rel_id id)) in H.
    injection H as <- _. apply try_complete_inv; [done|]. intros row Hrow. rewrite Hl1 in Hrow.
    injection Hrow as <-. cbn. auto.
Qed.

Lemma attachment_viewed_inv sha256 db h :
  attach_inv sha256 db → attach_inv sha256 (attachment_viewed db h).
Proof.
  intros Hinv. unfold attachment_viewed, attachment. destruct (db_attachments db !! h) as [row|] eqn:Er; [|done].
  destruct (_ && _); [|done]. apply (inv_other sha256 db _ h Hinv).
  - intros h' Hne. cbn. by rewrite lookup_alter_ne.
  - intros h' i Hne. change (chunk (delete_chunks db h) h' i = chunk db h' i).
    by rewrite chunk_deleted, decide_False.
  - intros r. cbn. rewrite lookup_alter_eq, Er. by intros [= <-].
Qed.

Lemma delete_transfer_inv sha256 db h :
  attach_inv sha256 db → attach_inv sha256 (delete_attachment (delete_chunks db h) h).
Proof.
  intros Hinv. apply (inv_other sha256 db _ h Hinv).
  - intros h' Hne. cbn. by rewrite lookup_delete_ne.
  - intros h' i Hne. change (chunk (delete_chunks db h) h' i = chunk db h' i).
    by rewrite chunk_deleted, decide_False.
  - intros r. cbn. by rewrite lookup_delete_eq.
Qed.

Lemma on_delete_target_inv sha256 db target :
  attach_inv sha256 db → attach_inv sha256 (on_delete_target db target).
Proof.
  unfold on_delete_target. generalize (for_message db target). intros l. revert db.
  induction l as [|a l IH]; intros db Hinv; [done|]. cbn [foldl]. apply IH. by apply delete_transfer_inv.
Qed.

(** The inbound attachment events of one store. A head whose orphans lie
    in its index range is what [attach_head] steps are restricted to. *)
Inductive attach_step (sha256 : bytes → bytes) : Db → Db → Prop :=
| step_attach_head db rel_id env payload db' ev :
    on_attach_head sha256 db rel_id env payload = Ok (db', ev) →
    in_slots db (env_msg_id env) (Z.max 1 (ah_chunk_count (ahp_head payload))) →
    (if ahp_inline payload is Some _ then ah_chunk_count (ahp_head payload) = 0
     else 1 ≤ ah_chunk_count (ahp_head payload)) →
    attach_step sha256 db db'
| step_attach_chunk db rel_id c db' ev :
    on_attach_chunk sha256 db rel_id c = Ok (db', ev) → is_u16 (ac_index c) →
    attach_step sha256 db db'
| step_attach_viewed db h : attach_step sha256 db (attachment_viewed db h)
| step_attach_delete db target : attach_step sha256 db (on_delete_target db target).

Lemma attach_step_inv sha256 db db' :
  attach_step sha256 db db' → attach_inv sha256 db → attach_inv sha256 db'.
Proof.
  intros [db1 rel_id env payload db2 ev H Hin Hk|db1 rel_id c db2 ev H [Hi _]|db1 h|db1 target] Hinv.
  - eapply on_attach_head_inv; [exact H|exact Hin| | |exact Hinv].
    + intros E. by rewrite E in Hk.
    + intros [bs E]. by rewrite E in Hk.
  - eapply on_attach_chunk_inv; eauto.
  - by apply attachment_viewed_inv.
  - by apply on_delete_target_inv.
Qed.

Lemma attach_inv_bytes sha256 db h bs :
  attach_inv sha256 db → attachment_bytes db h = Some bs →
  ∃ row, attachment db h = Some row ∧ sha256 bs = ar_content_sha256 row ∧ ar_consumed row = false.
Proof.
  intros Hinv. unfold attachment_bytes, attachment. destruct (db_attachments db !! h) as [row|] eqn:Er; [|done].
  destruct (negb (ar_complete row) || ar_consumed row) eqn:Eb; [done|].
  apply orb_false_iff in Eb as [Ec Eu]. apply negb_false_iff in Ec.
  destruct (Hinv h row Er Eu) as [_ Hd]. destruct (Hd Ec) as [_ Hsha].
  destruct (chunks_for db h) eqn:Ek; [done|]. intros [= <-]. by exists row.
Qed.

(** ** Orphan caps *)

Definition orphan_bounded (db : Db) (rel_id : string) : Prop :=
  (orphan_rel_stats db rel_id).1 ≤ MAX_ORPHAN_CHUNKS_PER_REL
  ∧ (orphan_rel_stats db rel_id).2 ≤ MAX_ORPHAN_BYTES_PER_REL.

Lemma chunk_stats_perm l k : l ≡ₚ k → chunk_stats l = chunk_stats k.
Proof.
  intros H. unfold chunk_stats. f_equal; [unfold len; by rewrite H|].
  induction H as [|x l k _ IH|x y l|l k m _ IH1 _ IH2]; cbn; lia.
Qed.

Lemma chunk_stats_cons kv l :
  chunk_stats (kv :: l) = (1 + (chunk_stats l).1, len (ck_data kv.2) + (chunk_stats l).2).
Proof. unfold chunk_stats. by rewrite len_cons. Qed.

Lemma chunk_stats_app_le l k :
  (chunk_stats l).1 ≤ (chunk_stats (l ++ k)).1 ∧ (chunk_stats l).2 ≤ (chunk_stats (l ++ k)).2.
Proof.
  induction l as [|x l IH]; cbn [app].
  - change (chunk_stats []) with (0, 0). induction k as [|y k IHk]; [done|]. rewrite chunk_stats_cons. cbn [fst snd] in *.
    pose proof (len_nonneg (ck_data y.2)). lia.
  - rewrite !chunk_stats_cons. cbn [fst snd]. lia.
Qed.

(** Orphans that were there before are no more than those. *)
Lemma orphans_shrink db db' rel_id :
  (∀ k r, db_chunks db' !! k = Some r → orphan_of db' rel_id (k, r) = true →
     db_chunks db !! k = Some r ∧ orphan_of db rel_id (k, r) = true) →
  orphan_bounded db rel_id → orphan_bounded db' rel_id.
Proof.
  intros H [H1 H2]. unfold orphan_bounded, orphan_rel_stats in *.
  set (l' := filter _ (map_to_list (db_chunks db'))). set (l := filter _ _) in H1, H2.
  assert (Hsub : l' ⊆+ l).
  { apply NoDup_submseteq; [apply NoDup_filter, NoDup_map_to_list|]. intros [k r].
    unfold l, l'. rewrite !list_elem_of_filter, !elem_of_map_to_list. intros [Ho Hk].
    by destruct (H k r Hk Ho). }
  apply submseteq_Permutation in Hsub as [m Hm]. rewrite (chunk_stats_perm l (l' ++ m) Hm) in H1, H2.
  destruct (chunk_stats_app_le l' m). lia.
Qed.

(** A chunk that is let in as an orphan adds itself, under the caps. *)
Lemma put_orphan_stats db rel_id c db' rel_id' :
  put_chunk db (ac_head_id c) (ac_index c) (ac_data c) rel_id (as_i64 (db_now db)) = Ok db' →
  attachment db (ac_head_id c) = None → orphan_capped db rel_id c = false →
  orphan_bounded db rel_id' → orphan_bounded db' rel_id'.
Proof.
  intros Hput Hn Hcap [Hb1 Hb2]. unfold put_chunk in Hput.
  destruct (chunk db (ac_head_id c) (ac_index c)) eqn:Ec.
  { destruct (negb _); [done|]. apply Ok_inj in Hput as <-. by split. }
  apply Ok_inj in Hput as <-. unfold chunk in Ec. apply fmap_None in Ec.
  unfold orphan_bounded, orphan_rel_stats in *. cbn [db_chunks set_chunks].
  set (row := mkChunkRow _ _ _). set (key := (ac_head_id c, ac_index c)) in *.
  rewrite (chunk_stats_perm _ (filter (λ kv, orphan_of db rel_id' kv = true)
                                 ((key, row) :: map_to_list (db_chunks db)))).
  2: { apply filter_Permutation. by apply map_to_list_insert. }
  rewrite filter_cons. case_decide as HP; [|done].
  apply andb_true_iff in HP as [HP _]. apply bool_decide_eq_true in HP. cbn in HP. subst rel_id'.
  rewrite chunk_stats_cons. cbn [fst snd ck_data row].
  unfold orphan_capped in Hcap. destruct (orphan_head_stats db (ac_head_id c)) as [a b].
  unfold orphan_rel_stats in Hcap.
  set (st := chunk_stats _) in *. destruct st as [x y]. cbn [fst snd].
  rewrite !orb_false_iff in Hcap. lia.
Qed.

Lemma put_known_shrink db rel_id c db' rel_id' :
  put_chunk db (ac_head_id c) (ac_index c) (ac_data c) rel_id (as_i64 (db_now db)) = Ok db' →
  is_Some (attachment db (ac_head_id c)) → orphan_bounded db rel_id' → orphan_bounded db' rel_id'.
Proof.
  intros Hput [row Hrow]. unfold put_chunk in Hput.
  destruct (chunk db (ac_head_id c) (ac_index c)) eqn:Ec.
  { destruct (negb _); [done|]. by apply Ok_inj in Hput as <-. }
  apply Ok_inj in Hput as <-. apply orphans_shrink. intros k r Hk Ho. cbn in Hk.
  destruct (decide (k = (ac_head_id c, ac_index c))) as [->|Hne].
  - unfold orphan_of, is_orphan in Ho. cbn in Ho. unfold attachment in Hrow.
    rewrite Hrow, (bool_decide_eq_false_2 (Some row = None)), andb_false_r in Ho by done. done.
  - by rewrite lookup_insert_ne in Hk by done.
Qed.

Lemma same_orphans db db' rel_id :
  db_chunks db' = db_chunks db →
  (∀ h, is_Some (db_attachments db !! h) → is_Some (db_attachments db' !! h)) →
  orphan_bounded db rel_id → orphan_bounded db' rel_id.
Proof.
  intros Hc Ha. apply orphans_shrink. intros k r. rewrite Hc. intros Hk Ho. split; [done|].
  unfold orphan_of, is_orphan in *. apply andb_true_iff in Ho as [-> Ho%bool_decide_eq_true].
  apply bool_decide_eq_true, eq_None_not_Some. intros Hs%Ha. cbn in *. rewrite Ho in Hs. by destruct Hs.
Qed.

Lemma update_head_dom db h f h' :
  is_Some (db_attachments db !! h') → is_Some (db_attachments (update_head db h f) !! h').
Proof. intros H. cbn. destruct (decide (h' = h)) as [->|]; by rewrite ?lookup_alter_eq, ?lookup_alter_ne, ?fmap_is_Some. Qed.

Lemma try_complete_orphans sha256 db rel_id h rel_id' :
  orphan_bounded db rel_id' → orphan_bounded (try_complete sha256 db rel_id h).1 rel_id'.
Proof.
  intros Hb. unfold try_complete, attachment. destruct (db_attachments db !! h) as [row|] eqn:Er; [|done].
  destruct (ar_complete row); [done|]. destruct (_ <? _); [done|]. destruct (_ || _); cbn [fst].
  - revert Hb. apply orphans_shrink. intros [h' i] r Hk Ho.
    cbn [db_chunks delete_attachment delete_chunks set_chunks set_attachments] in Hk.
    apply map_lookup_filter_Some in Hk as [Hk Hne]. cbn in Hne. split; [done|].
    unfold orphan_of, is_orphan in *. cbn in *. by rewrite lookup_delete_ne in Ho by done.
  - revert Hb. by apply same_orphans; [|apply update_head_dom].
Qed.

Lemma on_attach_chunk_orphans sha256 db rel_id c db' ev rel_id' :
  on_attach_chunk sha256 db rel_id c = Ok (db', ev) →
  orphan_bounded db rel_id' → orphan_bounded db' rel_id'.
Proof.
  unfold on_attach_chunk. intros H Hb. destruct (ac_pad c); [apply Ok_inj in H; by simplify_eq|].
  destruct (chunk_refused db rel_id c) eqn:Eref; [apply Ok_inj in H; by simplify_eq|].
  apply rbind_Ok in H as (db1 & Hput & H). destruct (put_chunk db _ _ _ _ _) as [db1'|] eqn:Ep; [|done].
  cbn in Hput. apply Ok_inj in Hput as ->.
  assert (Hb1 : orphan_bounded db1 rel_id').
  { unfold chunk_refused in Eref. destruct (attachment db (ac_head_id c)) as [row|] eqn:Er.
    - eapply put_known_shrink; eauto.
    - eapply put_orphan_stats; eauto. }
  unfold note_chunk in H. destruct (db_attachments db1 !! ac_head_id c) as [row|] eqn:Er.
  - destruct (_ >=? ar_chunk_count row); [apply Ok_inj in H; by simplify_eq|].
    set (db2 := update_head db1 _ _) in H.
    assert (Hb2 : orphan_bounded db2 rel_id').
    { revert Hb1. by apply same_orphans; [|apply update_head_dom]. }
    destruct (popcount _ >=? _); apply Ok_inj in H.
    + rewrite (surjective_pairing (try_complete sha256 db2 rel_id (ac_head_id c))) in H.
      injection H as <- _. by apply try_complete_orphans.
    + by injection H as <- _.
  - apply Ok_inj in H. by injection H as <- _.
Qed.

(** ** Main results *)

(** C17: Attachment integrity: from a store in which it holds, along any
    sequence of heads (whose already-stored orphans lie in range), chunks,
    views and deletes, the bytes the client is ever handed hash to what the
    head announced, and a consumed view-once payload is never handed out. *)
Theorem attachment_integrity sha256 db db' h bs :
  attach_inv sha256 db → rtc (attach_step sha256) db db' → attachment_bytes db' h = Some bs →
  ∃ row, attachment db' h = Some row ∧ sha256 bs = ar_content_sha256 row ∧ ar_consumed row = false.
Proof.
  intros Hinv Hsteps. apply attach_inv_bytes.
  induction Hsteps as [|x y z Hstep _ IH]; [done|]. apply IH. by eapply attach_step_inv.
Qed.

(** Orphan chunks (their head not yet seen) stay within the caps: no
    chunk, whoever sends it and whatever it carries, pushes a relationship's
    orphan count or bytes past the limits. *)
Theorem orphan_caps_hold sha256 db rel_id c db' ev rel_id' :
  on_attach_chunk sha256 db rel_id c = Ok (db', ev) →
  orphan_bounded db rel_id' → orphan_bounded db' rel_id'.
Proof. apply on_attach_chunk_orphans. Qed.

(** ** A delivery order that never completes *)

Definition demo_id : bytes := be_bytes 16 7.
Definition demo_pieces : list bytes := [be_bytes 2 1; be_bytes 2 2].
Definition demo_sha (bs : bytes) : bytes := take 32 (bs ++ replicate 32 (zb 0)).
Definition demo_head : AttachHead :=
  mkAttachHead CLASS_IMAGE [] [] 4 2 8 (demo_sha (concat demo_pieces)) [] 0.
Definition demo_payload : AttachHeadPayload := mkAttachHeadPayload demo_head None.
Definition demo_env : Envelope := mkEnvelope demo_id 3 1000 None (PAttachHead demo_payload).
Definition demo_chunk (i : nat) : AttachChunk :=
  mkAttachChunk demo_id (Z.of_nat i) false (nth i demo_pieces []).

(** Deliver [before], the head, then [after]. *)
Definition deliver (before after : list AttachChunk) : result EngineError Db :=
  let* db := feed_chunks demo_sha demo_db "rel" before in
  let* p := on_attach_head demo_sha db "rel" demo_env demo_payload in
  feed_chunks demo_sha p.1 "rel" after.

(** A transfer whose head arrives between its chunks never completes:
    with the first chunk ahead of the head and the second behind it, both
    pieces are stored and no bytes are ever handed out, although all chunks
    before the head, or all after it, complete the same transfer. *)
Theorem mixed_order_stalls :
  match deliver [demo_chunk 0] [demo_chunk 1] with
  | Ok db => chunks_for db demo_id = demo_pieces ∧ attachment_bytes db demo_id = None
  | Err _ => False
  end
  ∧ match deliver [demo_chunk 0; demo_chunk 1] [] with
    | Ok db => attachment_bytes db demo_id = Some (concat demo_pieces)
    | Err _ => False
    end
  ∧ match deliver [] [demo_chunk 1; demo_chunk 0] with
    | Ok db => attachment_bytes db demo_id = Some (concat demo_pieces)
    | Err _ => False
    end.
Proof. vm_compute. by split_and!. Qed.

Definition far_chunk : AttachChunk := mkAttachChunk demo_id 5 false (be_bytes 2 2).

(** An orphan past the announced range is counted as a piece: the transfer
    completes on it, and a later chunk in range then changes bytes that were
    already verified. *)
Lemma out_of_range_orphan :
  match deliver [demo_chunk 0; far_chunk] [] with
  | Ok db =>
      attachment_bytes db demo_id = Some (concat demo_pieces)
      ∧ match on_attach_chunk demo_sha db "rel" (mkAttachChunk demo_id 1 false (be_bytes 2 9)) with
        | Ok (db', _) =>
            attachment_bytes db' demo_id = Some (be_bytes 2 1 ++ be_bytes 2 9 ++ be_bytes 2 2)
        | Err _ => False
        end
  | Err _ => False
  end.
Proof. vm_compute. by split. Qed.

Lemma demo_db_inv : attach_inv demo_sha demo_db.
Proof. intros h row H. unfold demo_db in H. cbn [db_attachments] in H. by rewrite lookup_empty in H. Qed.

Definition demo_s1 : Db :=
  from_option fst demo_db (ok (on_attach_head demo_sha demo_db "rel" demo_env demo_payload)).
Definition demo_s2 : Db :=
  from_option fst demo_db (ok (on_attach_chunk demo_sha demo_s1 "rel" (demo_chunk 1))).

Definition demo_complete : Db :=
  from_option fst demo_db (ok (on_attach_chunk demo_sha demo_s2 "rel" (demo_chunk 0))).

Lemma demo_steps : rtc (attach_step demo_sha) demo_db demo_complete.
Proof.
  apply rtc_l with demo_s1; [eapply step_attach_head;
    [apply (ok_default_pair demo_db []); by vm_compute| |done]|].
  { intros i [x Hx]. unfold chunk, demo_db in Hx. cbn [db_chunks] in Hx. by rewrite lookup_empty in Hx. }
  apply rtc_l with demo_s2; [eapply step_attach_chunk;
    [apply (ok_default_pair demo_db []); by vm_compute|done]|].
  apply rtc_once. eapply step_attach_chunk; [apply (ok_default_pair demo_db []); by vm_compute|done].
Qed.

Lemma attachment_integrity_witness :
  ∃ row, attachment demo_complete demo_id = Some row
    ∧ demo_sha (concat demo_pieces) = ar_content_sha256 row ∧ ar_consumed row = false.
Proof. apply (attachment_integrity demo_sha demo_db); [apply demo_db_inv|apply demo_steps|by vm_compute]. Defined.

Definition demo_orphaned : Db :=
  from_option fst demo_db (ok (on_attach_chunk demo_sha demo_db "rel" (demo_chunk 0))).

Lemma orphan_caps_hold_witness : orphan_bounded demo_orphaned "rel".
Proof.
  eapply (orphan_caps_hold demo_sha demo_db "rel" (demo_chunk 0));
    [apply (ok_default_pair demo_db []); by vm_compute|by vm_compute].
Defined.
