(* ===== verification/Messages.v ===== *)
(** The MSG/EDIT/DELETE/DELETE_ALL decisions ([core/src/messages]), the
    store effects of a policy change ([core/src/policy/store.rs]), and the
    engine's edit and delete handlers ([core/src/engine/inbound.rs]). *)

From stdpp Require Import sorting.
From S2P Require Import Prelude Bin Limits Payloads WireAttach Envelope Policy Ledger Sync EngineTypes Attach.

(** ** [messages/delete.rs] *)

Definition is_history_type (t : EnvelopeType) : bool :=
  match t with
  | TMsg | TEdit | TAttachHead | TAttachChunk | TSticker => true
  | _ => false
  end.

Definition should_drop_inbound (t : EnvelopeType) (app_seq history_cut_seq : Z) (tombstoned : bool)
    : bool :=
  if negb (is_history_type t) then false
  else if tombstoned then true
  else (history_cut_seq >? 0) && (app_seq <? history_cut_seq).

(** ** [messages/edit.rs] *)

Definition EDIT_WINDOW_SEC : Z := 3600.
Definition EDIT_MAX_EDITS : Z := 30.

Inductive EditDecision :=
| Apply | DropTombstone | DropHistoryCut | DropMissing | DropAuthorship | DropKind
| DropExpired | DropWindow | DropCap | DropStaleSeq | DropTooLarge.

#[export] Instance edit_decision_eq_dec : EqDecision EditDecision.
Proof. solve_decision. Defined.

Definition can_offer_edit (row : MessageRow) (now : Z) : bool :=
  if negb (bool_decide (mr_direction row = DirOut)) then false
  else if negb (mr_env_type row =? code TMsg) then false
  else if mr_tombstone row || (mr_edit_count row >=? EDIT_MAX_EDITS) then false
  else now <? wrap64 (mr_sent_at row + EDIT_WINDOW_SEC).

Definition first_received (target : MessageRow) : Z :=
  default (mr_created_at target) (mr_received_at target).

Definition edit_decision (target : option MessageRow) (now incoming_app_seq body_bytes max_body_bytes : Z)
    (tombstoned : bool) (history_cut_seq : Z) : EditDecision :=
  if (history_cut_seq >? 0) && (incoming_app_seq <? history_cut_seq) then DropHistoryCut
  else if tombstoned then DropTombstone
  else
    match target with
    | None => DropMissing
    | Some target =>
        if negb (bool_decide (mr_direction target = DirIn)) then DropAuthorship
        else if negb (mr_env_type target =? code TMsg) then DropKind
        else if from_option (λ exp, now >=? exp) false (mr_expires_at target) then DropExpired
        else if now >=? wrap64 (first_received target + EDIT_WINDOW_SEC) then DropWindow
        else if mr_edit_count target >=? EDIT_MAX_EDITS then DropCap
        else if incoming_app_seq <=? mr_last_edit_seq target then DropStaleSeq
        else if body_bytes >? max_body_bytes then DropTooLarge
        else Apply
    end.

(** ** [messages/mod.rs] and the rendered thread *)

Definition is_thread_row (env_type : Z) : bool :=
  match from_code env_type with
  | Some (TMsg | TAttachHead | TSticker | TChatPolicy | TProfile | TProfileReq | TPref) => true
  | _ => false
  end.

Definition thread_visible (db : Db) (rel_id : string) (limit : Z) (before_seq : option Z)
    : list MessageRow :=
  let rows := thread db rel_id (Z.min (limit * 4) u32_max) before_seq in
  take (Z.to_nat limit)
    (filter (λ r, is_thread_row (mr_env_type r) && negb (mr_tombstone r) = true) rows).

(** ** [policy/store.rs]: the side effects *)

Definition clamp_hit (rel_id : string) (before : Z) (r : MessageRow) : bool :=
  bool_decide (mr_rel_id r = rel_id)
  && from_option (λ e, as_i64 e >? as_i64 before) true (mr_expires_at r).

Definition clamp_message_expiry (db : Db) (rel_id : string) (before : Z) : Db * Z :=
  (set_messages db ((λ r, if clamp_hit rel_id before r then with_expiry r before else r)
                      <$> db_messages db),
   Z.of_nat (size (filter (λ kv : bytes * MessageRow, clamp_hit rel_id before kv.2 = true)
                     (db_messages db)))).

Definition erase_attach_messages (db : Db) (rel_id : string) : Db * Z :=
  let heads := mr_msg_id <$> filter (λ r, bool_decide (mr_rel_id r = rel_id)
                  && (mr_env_type r =? code TAttachHead) && negb (mr_tombstone r) = true)
                  ((map_to_list (db_messages db)).*2) in
  (foldl (λ db head_id,
      let db := delete_chunks db head_id in
      let db := delete_attachment db head_id in
      (mark_tombstoned db head_id).1) db heads, len heads).

(** ** The engine's handlers *)

Definition apply_edit (db : Db) (rel_id : string) (env : Envelope) (body : bytes)
    : Db * list EngineEvent :=
  match env_ref_id env with
  | None => (db, [])
  | Some target_id =>
      let target := message db target_id in
      let now := db_now db in
      let cut := history_cut db rel_id in
      let tombstoned := is_tombstoned db rel_id (env_msg_id env) in
      match edit_decision target now (env_app_seq env) (len body) MAX_BODY_BYTES tombstoned cut with
      | Apply => ((mark_edited db target_id body (env_app_seq env)).1, [EvEdited rel_id target_id])
      | _ => (db, [])
      end
  end.

Definition apply_delete (db : Db) (rel_id : string) (env : Envelope) : Db * list EngineEvent :=
  match env_ref_id env with
  | None => (db, [])
  | Some target_id =>
      let db := on_delete_target db target_id in
      let db := add_tombstone db rel_id target_id in
      let '(db, hit) := mark_tombstoned db target_id in
      (db, if hit then [EvDeleted rel_id target_id] else [])
  end.

(** The DELETE_ALL arm of [handle_plaintext]. *)
Definition apply_delete_all (db : Db) (rel_id : string) (env : Envelope) : Db * list EngineEvent :=
  let db := raise_history_cut db rel_id (env_app_seq env) in
  let db := (erase_history db rel_id [env_msg_id env]).1 in
  (db, [EvHistoryCleared rel_id]).

(** The READ arm. *)
Definition apply_read (db : Db) (rel_id : string) (env : Envelope)
    : result EngineError (Db * list EngineEvent) :=
  let* policy := map_err EStore (load_policy db rel_id) in
  if receipts policy then
    match env_ref_id env with
    | Some target =>
        let '(db, hit) := mark_read db target (db_now db) in
        Ok (db, if hit then [EvRead rel_id target] else [])
    | None => Ok (db, [])
    end
  else Ok (db, []).

(** ** Edits *)

Lemma edit_decision_Apply target now seq body max tomb cut :
  edit_decision target now seq body max tomb cut = Apply ↔
  tomb = false ∧ (cut ≤ 0 ∨ cut ≤ seq)
  ∧ ∃ t, target = Some t ∧ mr_direction t = DirIn ∧ mr_env_type t = code TMsg
    ∧ (∀ e, mr_expires_at t = Some e → now < e)
    ∧ now < wrap64 (first_received t + EDIT_WINDOW_SEC)
    ∧ mr_edit_count t < EDIT_MAX_EDITS ∧ mr_last_edit_seq t < seq ∧ body ≤ max.
Proof.
  unfold edit_decision. split.
  - destruct (_ && _) eqn:Ec; [done|]. destruct tomb; [done|]. destruct target as [t|]; [|done].
    destruct (negb (bool_decide _)) eqn:Ed; [done|]. destruct (negb (mr_env_type t =? _)) eqn:Et; [done|].
    destruct (from_option _ _ _) eqn:Ee; [done|]. destruct (now >=? _) eqn:Ew; [done|].
    destruct (mr_edit_count t >=? _) eqn:En; [done|]. destruct (seq <=? _) eqn:Es; [done|].
    destruct (body >? max) eqn:Eb; [done|]. intros _. split; [done|]. split; [lia|]. exists t.
    apply negb_false_iff, bool_decide_eq_true in Ed. split_and!; [done|done|lia| |lia..].
    intros e He. rewrite He in Ee. cbn in Ee. lia.
  - intros (-> & Hc & t & -> & Hd & Ht & He & Hw & Hn & Hs & Hb).
    destruct (_ && _) eqn:Ec; [lia|]. rewrite bool_decide_eq_true_2, Ht, Z.eqb_refl by done. cbn [negb].
    assert (from_option (λ exp, now >=? exp) false (mr_expires_at t) = false) as ->.
    { destruct (mr_expires_at t) as [e|]; [|done]. cbn. specialize (He e eq_refl). lia. }
    destruct (now >=? _) eqn:Ew; [lia|]. destruct (mr_edit_count t >=? _) eqn:En; [lia|].
    destruct (seq <=? _) eqn:Es; [lia|]. destruct (body >? max) eqn:Eb; [lia|]. done.
Qed.

(** The row an edit leaves behind, and nothing else changes. *)
Lemma apply_edit_spec db rel_id env body db' evs :
  apply_edit db rel_id env body = (db', evs) →
  db' = db
  ∨ ∃ id t, env_ref_id env = Some id ∧ db_messages db !! id = Some t
      ∧ mr_direction t = DirIn ∧ mr_env_type t = code TMsg ∧ mr_tombstone t = false
      ∧ mr_edit_count t < EDIT_MAX_EDITS ∧ mr_last_edit_seq t < env_app_seq env
      ∧ len body ≤ MAX_BODY_BYTES
      ∧ db' = set_messages db (<[id := with_edit t body (env_app_seq env)]> (db_messages db)).
Proof.
  unfold apply_edit. intros H. destruct (env_ref_id env) as [id|]; [|left; congruence].
  destruct (edit_decision _ _ _ _ _ _ _) eqn:Ed; try (left; congruence).
  apply edit_decision_Apply in Ed as (_ & _ & t & Ht & Hd & Hk & _ & _ & Hn & Hs & Hb).
  unfold message in Ht. unfold mark_edited in H. rewrite Ht in H.
  destruct (mr_tombstone t) eqn:Et; [left; cbn in H; congruence|]. right. exists id, t.
  injection H as <- _. by split_and!.
Qed.

(** Edits of one row, any number of them, from any state in which its count
    and last sequence number are sane. *)
Definition edits_ok (r : MessageRow) : Prop := 0 ≤ mr_edit_count r ≤ EDIT_MAX_EDITS.

Inductive edit_step : Db → Db → Prop :=
| edit_step_intro db rel_id env body db' evs :
    apply_edit db rel_id env body = (db', evs) → edit_step db db'.

(** Inbound edits, any number of them from anyone: a row is never
    edited more than thirty times, each applied edit carries a newer
    sequence number than the last, and our own messages, tombstoned rows and
    anything but plain text never change. *)
Theorem edits_bounded db db' k r :
  rtc edit_step db db' → db_messages db !! k = Some r → edits_ok r →
  ∃ r', db_messages db' !! k = Some r' ∧ edits_ok r' ∧ mr_edit_count r ≤ mr_edit_count r'
    ∧ mr_last_edit_seq r ≤ mr_last_edit_seq r'
    ∧ (mr_edit_count r < mr_edit_count r' → mr_last_edit_seq r < mr_last_edit_seq r')
    ∧ (mr_direction r = DirOut ∨ mr_tombstone r = true ∨ mr_env_type r ≠ code TMsg → r' = r).
Proof.
  intros H. revert r. induction H as [db|db db1 db2 Hstep _ IH]; intros r Hr Hok.
  { exists r. split_and!; try done; lia. }
  destruct Hstep as [db rel_id env body db1 evs He].
  apply apply_edit_spec in He as [->|(id & t & _ & Ht & Hd & Hk & Hts & Hn & Hs & _ & ->)]; [by apply IH|].
  destruct (decide (k = id)) as [->|Hne].
  - assert (t = r) as -> by congruence. unfold edits_ok in Hok.
    assert (Hc : mr_edit_count (with_edit r body (env_app_seq env)) = mr_edit_count r + 1).
    { cbn. unfold wrap32, EDIT_MAX_EDITS in *. apply Z.mod_small. lia. }
    destruct (IH (with_edit r body (env_app_seq env))) as (r' & Hr' & Hok' & H1 & H2 & H3 & _).
    { cbn. apply lookup_insert_eq. }
    { unfold edits_ok. lia. }
    cbn [mr_last_edit_seq with_edit] in *. exists r'. split_and!; [done|done|lia|lia|lia|].
    intros [?|[?|?]]; congruence.
  - apply IH; [|done]. cbn. by rewrite lookup_insert_ne.
Qed.

(** ** Deletes *)

Lemma for_message_deleted db target :
  (∀ h r, db_attachments db !! h = Some r → ar_head_id r = h) →
  for_message (on_delete_target db target) target = [].
Proof.
  intros Hw. unfold on_delete_target.
  assert (Hfold : ∀ l d h, db_attachments (foldl (λ db att,
      delete_attachment (delete_chunks db (ar_head_id att)) (ar_head_id att)) d l) !! h
    = if decide (h ∈ ar_head_id <$> l) then None else db_attachments d !! h).
  { induction l as [|a l IH]; intros d h; cbn [foldl]; [by rewrite decide_False by apply not_elem_of_nil|].
    rewrite IH. cbn [fmap list_fmap db_attachments delete_attachment delete_chunks set_attachments set_chunks].
    fold (ar_head_id <$> l). destruct (decide (h = ar_head_id a)) as [->|Hne].
    - rewrite lookup_delete_eq. rewrite (decide_True (P := _ ∈ _ :: _)) by (by apply elem_of_cons; left).
      by case_decide.
    - rewrite lookup_delete_ne by done. case_decide as Hin; case_decide as Hin'; try done;
        rewrite elem_of_cons in Hin'; naive_solver. }
  unfold for_message at 1. apply elem_of_nil_inv. intros r [Hr Hin]%list_elem_of_filter.
  apply list_elem_of_fmap in Hin as ([h r'] & -> & Hh%elem_of_map_to_list). cbn in Hr.
  rewrite Hfold in Hh. case_decide as Hd; [done|]. apply Hd. apply list_elem_of_fmap.
  exists r'. split; [by rewrite (Hw _ _ Hh)|]. apply list_elem_of_filter. split; [done|].
  apply list_elem_of_fmap. exists (h, r'). split; [done|]. by apply elem_of_map_to_list.
Qed.

Lemma on_delete_target_frame db target :
  db_messages (on_delete_target db target) = db_messages db
  ∧ db_tombstones (on_delete_target db target) = db_tombstones db
  ∧ db_now (on_delete_target db target) = db_now db
  ∧ db_rels (on_delete_target db target) = db_rels db.
Proof.
  unfold on_delete_target. generalize (for_message db target). intros l. revert db.
  induction l as [|a l IH]; intros db; [done|]. cbn [foldl].
  destruct (IH (delete_attachment (delete_chunks db (ar_head_id a)) (ar_head_id a))) as (-> & -> & -> & ->).
  done.
Qed.

(** DELETE: the target's payload is wiped and its attachments are
    gone, no other ledger row moves, the client is told exactly when a row
    was there, and for the tombstone's day a late copy is recognised even if
    the target had never arrived. *)
Theorem delete_erases db rel_id env target db' evs :
  env_ref_id env = Some target → apply_delete db rel_id env = (db', evs) →
  0 ≤ db_now db → db_now db + TOMBSTONE_TTL_SEC < 2 ^ 63 →
  (∀ h r, db_attachments db !! h = Some r → ar_head_id r = h) →
  db_messages db' !! target = with_tombstone <$> db_messages db !! target
  ∧ (∀ k, k ≠ target → db_messages db' !! k = db_messages db !! k)
  ∧ for_message db' target = []
  ∧ (∀ later, db_tombstones later = db_tombstones db' →
       0 ≤ db_now later < db_now db + TOMBSTONE_TTL_SEC → is_tombstoned later rel_id target = true)
  ∧ (evs = [EvDeleted rel_id target] ↔ is_Some (db_messages db !! target)).
Proof.
  intros Href H Hn0 Hn1 Hw. unfold apply_delete in H. rewrite Href in H.
  destruct (on_delete_target_frame db target) as (Hm & Ht & Hnow & _).
  pose proof (for_message_deleted db target Hw) as Hf.
  set (db1 := on_delete_target db target) in *. unfold mark_tombstoned in H.
  apply pair_equal_spec in H as [<- <-]. cbn [db_messages set_messages add_tombstone set_tombstones].
  rewrite Hm. split_and!.
  - apply lookup_alter_eq.
  - intros k Hk. by apply lookup_alter_ne.
  - exact Hf.
  - intros later Hl Hnl. unfold is_tombstoned. rewrite Hl.
    cbn [db_tombstones set_messages add_tombstone set_tombstones]. rewrite lookup_insert_eq, Hnow.
    unfold wrap64, as_i64, TOMBSTONE_TTL_SEC in *. rewrite Z.mod_small by lia.
    rewrite !decide_True by lia. lia.
  - destruct (db_messages db !! target) as [r|]; [rewrite bool_decide_eq_true_2 by (by eexists)|
      rewrite bool_decide_eq_false_2 by (by intros [])]; split; done.
Qed.

(** DELETE_ALL: every ledger row of the relationship but the
    DELETE_ALL's own is gone, every other row stays, the history cut only
    rises, and every history envelope older than the DELETE_ALL is dropped
    from then on. *)
Theorem delete_all_cuts db rel_id env db' evs rel :
  apply_delete_all db rel_id env = (db', evs) → db_rels db !! rel_id = Some rel →
  0 ≤ env_app_seq env < 2 ^ 63 → 0 ≤ rel_history_cut rel < 2 ^ 63 →
  (∀ k r, db_messages db' !! k = Some r ↔
     db_messages db !! k = Some r ∧ (mr_rel_id r = rel_id → k = env_msg_id env))
  ∧ history_cut db' rel_id = Z.max (history_cut db rel_id) (env_app_seq env)
  ∧ (∀ t seq tomb, is_history_type t = true → 0 ≤ seq < env_app_seq env →
       should_drop_inbound t seq (history_cut db' rel_id) tomb = true).
Proof.
  intros H Hrel Hs Hc. unfold apply_delete_all in H. apply pair_equal_spec in H as [<- _].
  assert (Hcut : history_cut (erase_history (raise_history_cut db rel_id (env_app_seq env)) rel_id [env_msg_id env]).1 rel_id
            = Z.max (history_cut db rel_id) (env_app_seq env)).
  { unfold history_cut, erase_history, raise_history_cut. cbn [fst db_rels set_caches set_messages set_rels].
    rewrite lookup_alter_eq, Hrel. cbn [fmap option_fmap option_map from_option rel_history_cut].
    unfold as_u64, as_i64. rewrite decide_True by lia. rewrite !Z.mod_small by lia. done. }
  split; [|split; [done|]].
  - intros k r. unfold erase_history. cbn [fst db_messages set_caches set_messages raise_history_cut set_rels].
    rewrite map_lookup_filter_Some. cbn [fst snd]. rewrite andb_false_iff, negb_false_iff.
    rewrite bool_decide_eq_false, bool_decide_eq_true, list_elem_of_singleton. split.
    + intros [Hk [Hne|Heq]]; (split; [done|]); intros E; [by rewrite E in Hne|done].
    + intros [Hk Himp]. split; [done|]. destruct (decide (mr_rel_id r = rel_id)); [right; auto|by left].
  - intros t seq tomb Ht Hlt. unfold should_drop_inbound. rewrite Ht, Hcut. cbn [negb].
    destruct tomb; [done|]. lia.
Qed.

(** A shortened message TTL: every message of the chat that would
    outlive the new horizon (or had no expiry) now expires there, no expiry
    ever grows, and other chats' messages are untouched. *)
Theorem clamp_only_shrinks db rel_id before k r :
  db_messages db !! k = Some r → 0 ≤ before < 2 ^ 63 →
  (∀ e, mr_expires_at r = Some e → 0 ≤ e < 2 ^ 63) →
  db_messages (clamp_message_expiry db rel_id before).1 !! k
  = Some (if decide (mr_rel_id r = rel_id)
          then match mr_expires_at r with
               | Some e => if e <=? before then r else with_expiry r before
               | None => with_expiry r before
               end
          else r).
Proof.
  intros Hr Hb He. unfold clamp_message_expiry. cbn [fst db_messages set_messages].
  rewrite lookup_fmap, Hr. cbn. f_equal. unfold clamp_hit. case_decide as Hrel.
  - rewrite bool_decide_eq_true_2 by done. destruct (mr_expires_at r) as [e|] eqn:Ee; [|done]. cbn.
    specialize (He e eq_refl). unfold as_i64. rewrite !decide_True by lia.
    destruct (Z.gtb_spec e before), (Z.leb_spec e before); done || lia.
  - by rewrite bool_decide_eq_false_2.
Qed.

(** ** Witnesses *)

Definition demo_in_row : MessageRow :=
  mkMessageRow (be_bytes 16 1) "rel" DirIn 2 900 (Some 900) (code TMsg) None [zb 1] Received (Some 90000) 900
    false false None 0 0.
Definition demo_thread : Db :=
  set_messages demo_db {[be_bytes 16 1 := demo_in_row]}.
Definition demo_edit_env : Envelope :=
  mkEnvelope (be_bytes 16 2) 5 1000 (Some (be_bytes 16 1)) (PEdit (mkEdit [zb 9])).
Definition demo_edited : Db := (apply_edit demo_thread "rel" demo_edit_env [zb 9]).1.

Lemma edits_bounded_witness :
  ∃ r', db_messages demo_edited !! be_bytes 16 1 = Some r' ∧ edits_ok r'
    ∧ mr_edit_count demo_in_row ≤ mr_edit_count r'
    ∧ mr_last_edit_seq demo_in_row ≤ mr_last_edit_seq r'
    ∧ (mr_edit_count demo_in_row < mr_edit_count r' → mr_last_edit_seq demo_in_row < mr_last_edit_seq r')
    ∧ (mr_direction demo_in_row = DirOut ∨ mr_tombstone demo_in_row = true
       ∨ mr_env_type demo_in_row ≠ code TMsg → r' = demo_in_row).
Proof.
  apply (edits_bounded demo_thread); [|by vm_compute|by vm_compute].
  apply rtc_once. eapply edit_step_intro. apply surjective_pairing.
Defined.

Definition demo_delete_env : Envelope :=
  mkEnvelope (be_bytes 16 3) 6 1000 (Some (be_bytes 16 1)) (PDelete mkDelete).
Definition demo_deleted : Db := (apply_delete demo_thread "rel" demo_delete_env).1.

Lemma delete_erases_witness :
  db_messages demo_deleted !! be_bytes 16 1 = with_tombstone <$> db_messages demo_thread !! be_bytes 16 1.
Proof.
  eapply (delete_erases demo_thread "rel" demo_delete_env (be_bytes 16 1));
    [done|apply surjective_pairing|by vm_compute|by vm_compute|].
  intros h r H. unfold demo_thread, demo_db in H. cbn [db_attachments set_messages] in H.
  by rewrite lookup_empty in H.
Defined.

Definition demo_delete_all_env : Envelope :=
  mkEnvelope (be_bytes 16 4) 7 1000 None (PDeleteAll mkDeleteAll).
Definition demo_cleared : Db := (apply_delete_all demo_thread "rel" demo_delete_all_env).1.

Lemma delete_all_cuts_witness : history_cut demo_cleared "rel" = Z.max (history_cut demo_thread "rel") 7.
Proof.
  eapply (delete_all_cuts demo_thread "rel" demo_delete_all_env);
    [apply surjective_pairing|by vm_compute|by vm_compute|by vm_compute].
Defined.

Lemma clamp_only_shrinks_witness :
  db_messages (clamp_message_expiry demo_thread "rel" 5000).1 !! be_bytes 16 1
  = Some (with_expiry demo_in_row 5000).
Proof.
  apply (clamp_only_shrinks demo_thread "rel" 5000 (be_bytes 16 1) demo_in_row); [by vm_compute|by vm_compute|].
  intros e [= <-]. by vm_compute.
Defined.
