(* ===== verification/Caps.v ===== *)
(** Capability advertisement and gating ([core/src/caps/mod.rs]). *)

From S2P Require Import Prelude Payloads WirePolicy Envelope Policy Ledger.

(** [wire_types::caps::has] *)
Definition caps_has (caps bit : Z) : bool := negb (Z.land caps bit =? 0).

Definition required_cap (t : EnvelopeType) : option Z :=
  match t with
  | TSticker | TStickerCtrl => Some CAP_STICKER
  | TPresence => Some CAP_PRESENCE
  | TTyping => Some CAP_TYPING
  | TRead => Some CAP_READ
  | TChatPolicy => Some CAP_POLICY
  | _ => None
  end.

Definition with_caps (r : RelRow) (caps : Z) : RelRow :=
  mkRelRow (rel_role r) (rel_state r) (rel_peer_onion r) (rel_our_qr_bytes r) (rel_intro_pending r)
    (rel_session r) (rel_created_at r) caps (rel_close_state r) (rel_history_cut r) (rel_policy r)
    (rel_peer_prefs r) (rel_pairing r).

Definition note_peer_caps (db : Db) (rel_id : string) (peer_caps : Z) : Db :=
  set_rels db (alter (λ r, with_caps r peer_caps) rel_id (db_rels db)).

Definition peer_caps (db : Db) (rel_id : string) : Z :=
  wrap32 (from_option rel_peer_caps 0 (db_rels db !! rel_id)).

Definition allows (peer_caps : Z) (t : EnvelopeType) : bool :=
  match required_cap t with
  | None => true
  | Some bit => caps_has peer_caps bit
  end.

(** The drop counter is explicit state. *)
Definition check_inbound (db : Db) (rel_id : string) (t : EnvelopeType) (gated_drops : Z) : bool * Z :=
  let caps := peer_caps db rel_id in
  if allows caps t then (true, gated_drops) else (false, wrap64 (gated_drops + 1)).

Definition check_outbound (peer_caps : Z) (t : EnvelopeType) : bool := allows peer_caps t.

(** What was advertised is what is read back. *)
Lemma peer_caps_noted db rel_id caps :
  is_u32 caps → is_Some (db_rels db !! rel_id) →
  peer_caps (note_peer_caps db rel_id caps) rel_id = caps.
Proof.
  intros Hc [r Hr]. unfold peer_caps, note_peer_caps. cbn [db_rels set_rels].
  rewrite lookup_alter_eq, Hr. cbn. unfold wrap32, is_u32, u32_max in *. apply Z.mod_small. lia.
Qed.
