(* ===== verification/Engine.v ===== *)
(** The engine ([core/src/engine], [core/src/close], [core/src/policy/engine.rs]):
    the outbound pipeline, the drain, the close flow, and the inbound
    resync and policy handlers. An engine method is a computation over the
    engine state that may fail; a failure keeps the writes made before it,
    as in the source. libsignal, the Tor network and the CSPRNG are
    parameters. *)

From stdpp Require Import sorting.
From S2P Require Import Prelude Bin Limits Payloads WirePolicy WireResync WireAttach Envelope Frame Policy RateLimit Ephemeral View Ledger Sync Session EngineTypes Settings Attach Messages Caps StickerPending.

Section Engine.
Context {Sig Net Rng : Type}.
Context (nfc sha256 : bytes → bytes).
Context (message_encrypt : Sig → string → bytes → Z
                           → Sig * result SignalProtocolError (CiphertextType * bytes)).
(** The transport below [send_record]: the kill switch, whether a sender is
    installed, and the sender. *)
Context (kill_switch online : Net → bool).
Context (sender_send : Net → string → bytes → Net * result TransportError unit).
(** The CSPRNG: a message id and padding drawn from a state, and the next state. *)
Context (rng_id : Rng → bytes) (rng_fill : Rng → nat → bytes) (rng_next : Rng → Rng).

(** The process-wide drop counters: rate limits, unknown types, gated types. *)
Record Drops := mkDrops { dr_limited : Counters; dr_unknown : Z; dr_gated : Z }.
Definition drops_new : Drops := mkDrops ∅ 0 0.

Record Engine := mkEngine {
  en_db : Db;
  en_sig : Sig;
  en_net : Net;
  en_rng : Rng;
  en_presence : PresenceTable;
  en_typing : TypingTable;
  en_pending : PendingBuffers;
  en_rate : RateTables;
  en_drops : Drops;
}.

Definition M (A : Type) : Type := Engine → Engine * result EngineError A.

Definition mret {A} (a : A) : M A := λ e, (e, Ok a).
Definition throw {A} (x : EngineError) : M A := λ e, (e, Err x).
Definition mbind {A B} (m : M A) (k : A → M B) : M B := λ e,
  match m e with
  | (e, Ok a) => k a e
  | (e, Err x) => (e, Err x)
  end.
Definition lift {A} (r : result EngineError A) : M A := λ e, (e, r).

Notation "x <- m ;; k" := (mbind m (λ x, k)) (at level 100, m at next level, right associativity).
Notation "m ;; k" := (mbind m (λ _, k)) (at level 100, k at level 200, right associativity).

Definition get_db : M Db := λ e, (e, Ok (en_db e)).
Definition put_db (db : Db) : M unit := λ e,
  (mkEngine db (en_sig e) (en_net e) (en_rng e) (en_presence e) (en_typing e)
     (en_pending e) (en_rate e) (en_drops e), Ok tt).
Definition now : M Z := db <- get_db ;; mret (db_now db).
Definition put_typing (t : TypingTable) : M unit := λ e,
  (mkEngine (en_db e) (en_sig e) (en_net e) (en_rng e) (en_presence e) t
     (en_pending e) (en_rate e) (en_drops e), Ok tt).
Definition get_typing : M TypingTable := λ e, (e, Ok (en_typing e)).

Definition random_msg_id : M bytes := λ e,
  (mkEngine (en_db e) (en_sig e) (en_net e) (rng_next (en_rng e)) (en_presence e) (en_typing e)
     (en_pending e) (en_rate e) (en_drops e),
   Ok (rng_id (en_rng e))).

(** [framing::build_record], its padding drawn from the CSPRNG. *)
Definition pad_record (payload : bytes) : M bytes := λ e,
  (mkEngine (en_db e) (en_sig e) (en_net e) (rng_next (en_rng e)) (en_presence e) (en_typing e)
     (en_pending e) (en_rate e) (en_drops e),
   map_err EWire (build_record (rng_fill (en_rng e)) payload)).

Definition run_encrypt (rel_id : string) (msg_id plaintext : bytes) (at_ : Z) : M bytes := λ e,
  let '(db, sg, r) := encrypt message_encrypt (en_db e) (en_sig e) rel_id msg_id plaintext at_ in
  (mkEngine db sg (en_net e) (en_rng e) (en_presence e) (en_typing e)
     (en_pending e) (en_rate e) (en_drops e), map_err ESession r).

(** ** [transport/sending.rs] *)

Definition send_record (net : Net) (dest_onion : string) (intro : option bytes) (payload : bytes)
    (alert : bool) : Net * result TransportError unit :=
  if kill_switch net then (net, Err KillSwitch)
  else
    match pack intro payload alert with
    | Err x => (net, Err x)
    | Ok packed => if online net then sender_send net dest_onion packed else (net, Err Offline)
    end.

(** The call from the engine: a transport failure is a value, not an error. *)
Definition try_send (dest_onion : string) (intro : option bytes) (record : bytes) (alert : bool)
    : M (result TransportError unit) := λ e,
  let '(net, r) := send_record (en_net e) dest_onion intro record alert in
  (mkEngine (en_db e) (en_sig e) net (en_rng e) (en_presence e) (en_typing e)
     (en_pending e) (en_rate e) (en_drops e), Ok r).

(** ** [engine/send.rs] *)

Definition close_state (db : Db) (rel_id : string) : option string :=
  db_rels db !! rel_id ≫= rel_close_state.

Definition load_relationship (db : Db) (rel_id : string) : option RelRow := db_rels db !! rel_id.

Definition closing_exempt (t : EnvelopeType) : bool :=
  match t with
  | TDeleteAll | TContactClose | TResyncReq => true
  | _ => false
  end.

Definition policy_denies (policy : PolicyState) (t : EnvelopeType) : bool :=
  match t with
  | TTyping => negb (typing_enforced policy)
  | TPresence => negb (presence policy)
  | TRead => negb (receipts policy)
  | TSticker | TStickerCtrl => negb (emoji policy)
  | TAttachHead | TAttachChunk => negb (attachments policy)
  | _ => false
  end.

Definition gate_outbound (db : Db) (rel_id : string) (row : RelRow) (t : EnvelopeType)
    : result EngineError unit :=
  if bool_decide (rel_session row = SessBroken) then Err SessionBroken
  else if bool_decide (rel_role row = "inviter"%string) && bool_decide (rel_state row = "request"%string)
  then Err NotActive
  else if negb (bool_decide (rel_state row = "active"%string))
          && negb (bool_decide (rel_state row = "request"%string))
  then Err NotActive
  else if bool_decide (is_Some (close_state db rel_id)) && negb (closing_exempt t) then Err Closing
  else if negb (check_outbound (peer_caps db rel_id) t) then Err (CapGated t)
  else
    let* policy := map_err EStore (load_policy db rel_id) in
    if policy_denies policy t then Err (PolicyDenied t) else Ok tt.

Record Sent := mkSent { sent_msg_id : bytes; sent_app_seq : Z }.

Definition queue_first_send (rel_id : string) (row : RelRow) (env : Envelope) (record : bytes)
    (alert : bool) : M Sent :=
  db <- get_db ;;
  expiry <- lift (map_err EStore (message_expiry db rel_id (env_sent_at env))) ;;
  payload <- lift (map_err EWire (payload_encode nfc (env_payload env))) ;;
  db <- lift (map_err EStore (insert_message db
    (mkNewMessage (env_msg_id env) rel_id DirOut (env_app_seq env) (env_sent_at env) None
       (code (envelope_type env)) (env_ref_id env) payload Queued expiry))) ;;
  put_db db ;;
  db <- lift (map_err EStore (enqueue db (env_msg_id env) rel_id record MESSAGE_TTL_SECS)) ;;
  put_db db ;;
  let intro := if rel_intro_pending row then Some (rel_our_qr_bytes row) else None in
  r <- try_send (rel_peer_onion row) intro record alert ;;
  match r with
  | Ok _ =>
      db <- get_db ;;
      let db := (dequeue db (env_msg_id env)).1 in
      put_db db ;;
      db <- lift (map_err ESync (mark_transmitted db (env_msg_id env))) ;;
      put_db db ;;
      mret (mkSent (env_msg_id env) (env_app_seq env))
  | Err _ => mret (mkSent (env_msg_id env) (env_app_seq env))
  end.

Definition send_envelope (rel_id : string) (payload : Payload) (ref_id : option bytes) (alert : bool)
    : M Sent :=
  db <- get_db ;;
  row <- lift (ok_or (load_relationship db rel_id) UnknownRelationship) ;;
  lift (gate_outbound db rel_id row (payload_type payload)) ;;
  let '(db1, seq) := next_out_seq db rel_id in
  put_db db1 ;;
  msg_id <- random_msg_id ;;
  let env := mkEnvelope msg_id seq (db_now db) ref_id payload in
  plaintext <- lift (map_err EWire (envelope_encode nfc env)) ;;
  frame <- run_encrypt rel_id msg_id plaintext (db_now db) ;;
  record <- pad_record frame ;;
  queue_first_send rel_id row env record alert.

Definition send_edit (rel_id : string) (target new_body : bytes) : M bytes :=
  db <- get_db ;;
  row <- lift (ok_or (message db target) NotFound) ;;
  if negb (bool_decide (mr_rel_id row = rel_id)) then throw NotFound
  else if negb (can_offer_edit row (db_now db))
  then throw (EditDenied "window closed, cap reached, or not our text")
  else
    edit <- lift (map_err EWire (edit_new new_body)) ;;
    sent <- send_envelope rel_id (PEdit edit) (Some target) false ;;
    db <- get_db ;;
    put_db (mark_edited db target new_body (sent_app_seq sent)).1 ;;
    mret (sent_msg_id sent).

Definition send_delete (rel_id : string) (target : bytes) : M bytes :=
  sent <- send_envelope rel_id (PDelete mkDelete) (Some target) false ;;
  db <- get_db ;;
  let db := (mark_tombstoned db target).1 in
  put_db (add_tombstone db rel_id target) ;;
  mret (sent_msg_id sent).

Definition send_delete_all (rel_id : string) : M bytes :=
  sent <- send_envelope rel_id (PDeleteAll mkDeleteAll) None false ;;
  db <- get_db ;;
  let db := raise_history_cut db rel_id (sent_app_seq sent) in
  put_db (erase_history db rel_id [sent_msg_id sent]).1 ;;
  mret (sent_msg_id sent).

Definition send_typing (rel_id : string) (typing : bool) : M unit :=
  t <- now ;;
  tt_ <- get_typing ;;
  if typing && negb (should_send tt_ rel_id t) then mret tt
  else
    (if typing then put_typing (note_sent tt_ rel_id t) else mret tt) ;;
    send_envelope rel_id (PTyping (mkTyping typing)) None false ;;
    mret tt.

Definition send_presence (rel_id : string) (in_app do_not_disturb : bool) : M unit :=
  send_envelope rel_id (PPresence (mkPresence in_app do_not_disturb)) None false ;;
  mret tt.

Definition send_read (rel_id : string) (target : bytes) : M unit :=
  send_envelope rel_id (PRead mkRead) (Some target) false ;;
  mret tt.

(** ** [engine/drain.rs] *)

Definition CLOSE_SETTLE_SECS : Z := 60.

Definition backoff_secs (attempts : Z) : Z := Z.min (Z.shiftl 5 (Z.min attempts 6)) 300.

(** The loop of [drain_outbox]; the accumulators are the failed onions and
    the count of records that went out. *)
Fixpoint drain_loop (due_rows : list OutboxRow) (failed_onions : gset string) (sent : Z) : M Z :=
  match due_rows with
  | [] => mret sent
  | row :: rest =>
      db <- get_db ;;
      match load_relationship db (ob_rel_id row) with
      | None =>
          put_db (dequeue db (ob_msg_id row)).1 ;;
          drain_loop rest failed_onions sent
      | Some rel =>
          if bool_decide (rel_peer_onion rel ∈ failed_onions) then
            put_db (note_attempt db (ob_msg_id row) (backoff_secs (ob_attempts row))) ;;
            drain_loop rest failed_onions sent
          else
            let intro := if rel_intro_pending rel then Some (rel_our_qr_bytes rel) else None in
            r <- try_send (rel_peer_onion rel) intro (ob_record row) false ;;
            match r with
            | Ok _ =>
                let db := (dequeue db (ob_msg_id row)).1 in
                put_db db ;;
                db <- lift (map_err ESync (mark_transmitted db (ob_msg_id row))) ;;
                put_db db ;;
                drain_loop rest failed_onions (sent + 1)
            | Err _ =>
                put_db (note_attempt db (ob_msg_id row) (backoff_secs (ob_attempts row))) ;;
                drain_loop rest ({[rel_peer_onion rel]} ∪ failed_onions) sent
            end
      end
  end.

Definition drain_outbox : M Z :=
  db <- get_db ;;
  sent <- drain_loop (due db DRAIN_BATCH) ∅ 0 ;;
  db <- get_db ;;
  let '(db, expired) := fail_expired db in
  put_db (foldl (λ db r, (set_delivery db (ob_msg_id r) Failed).1) db expired) ;;
  mret sent.

Definition with_close (r : RelRow) (c : option string) : RelRow :=
  mkRelRow (rel_role r) (rel_state r) (rel_peer_onion r) (rel_our_qr_bytes r) (rel_intro_pending r)
    (rel_session r) (rel_created_at r) (rel_peer_caps r) c (rel_history_cut r) (rel_policy r)
    (rel_peer_prefs r) (rel_pairing r).

Definition enter_closing (rel_id : string) : M unit :=
  db <- get_db ;;
  if bool_decide (is_Some (close_state db rel_id)) then mret tt
  else
    let db := set_rels db (alter (λ r, with_close r (Some "closing"%string)) rel_id (db_rels db)) in
    put_db (set_setting db (close_started_at_key rel_id) (be_bytes 8 (db_now db))).

(** ** [close/mod.rs] *)

Definition close_contact (rel_id : string) : M unit :=
  db <- get_db ;;
  if bool_decide (is_Some (close_state db rel_id)) then mret tt
  else
    enter_closing rel_id ;;
    da <- send_envelope rel_id (PDeleteAll mkDeleteAll) None false ;;
    cc <- send_envelope rel_id (PContactClose mkContactClose) None false ;;
    let cut := Z.max (sent_app_seq da) (sent_app_seq cc) in
    db <- get_db ;;
    let db := raise_history_cut db rel_id cut in
    put_db (erase_history db rel_id [sent_msg_id da; sent_msg_id cc]).1.

(** ** [policy/engine.rs] *)

Definition apply_outcome (rel_id : string) (outcome : ApplyOutcome) : M (list EngineEvent) :=
  db <- get_db ;;
  let db := match clamp_expiry_to outcome with
            | Some clamp_to => (clamp_message_expiry db rel_id clamp_to).1
            | None => db
            end in
  let db := if erase_attachments outcome then (erase_attach_messages db rel_id).1 else db in
  put_db db ;;
  mret (if changed outcome then [EvPolicyChanged rel_id] else []).

Definition propose_rules (rel_id : string) (ttl_sec : Z) (screenshot attach_download : bool) : M unit :=
  db <- get_db ;;
  state <- lift (map_err EStore (load_policy db rel_id)) ;;
  propose_id <- random_msg_id ;;
  match build_propose state ttl_sec screenshot attach_download propose_id with
  | None => throw (EditDenied "disallowed TTL")
  | Some (next, payload) =>
      put_db (save_policy db rel_id next) ;;
      send_envelope rel_id (PChatPolicy payload) None false ;;
      mret tt
  end.

Definition accept_rules (rel_id : string) : M (list EngineEvent) :=
  db <- get_db ;;
  state <- lift (map_err EStore (load_policy db rel_id)) ;;
  match build_accept state (db_now db) with
  | None => throw (EditDenied "no inbound proposal pending")
  | Some (next, payload, outcome) =>
      put_db (save_policy db rel_id next) ;;
      events <- apply_outcome rel_id outcome ;;
      send_envelope rel_id (PChatPolicy payload) None false ;;
      mret events
  end.

Definition engine_decline_rules (rel_id : string) : M unit :=
  db <- get_db ;;
  state <- lift (map_err EStore (load_policy db rel_id)) ;;
  put_db (save_policy db rel_id (decline_rules state)).

Definition set_capability (rel_id : string) (cap_id : Z) (on : bool) : M (list EngineEvent) :=
  db <- get_db ;;
  state <- lift (map_err EStore (load_policy db rel_id)) ;;
  match build_cap_set state cap_id on with
  | None => mret []
  | Some (next, payload, outcome) =>
      put_db (save_policy db rel_id next) ;;
      events <- apply_outcome rel_id outcome ;;
      send_envelope rel_id (PChatPolicy payload) None false ;;
      mret events
  end.

(** ** [engine/inbound.rs]: the resync and policy handlers *)

Definition RESYNC_REQ_MIN_SECS : Z := 10.

(** The retransmissions enter the outbox one by one. *)
Fixpoint requeue_all (rel_id : string) (rts : list Retransmit) : M unit :=
  match rts with
  | [] => mret tt
  | rt :: rest =>
      record <- pad_record (rt_frame rt) ;;
      db <- get_db ;;
      put_db (requeue db (rt_msg_id rt) rel_id record MESSAGE_TTL_SECS) ;;
      requeue_all rel_id rest
  end.

Definition apply_resync_req (rel_id : string) (req : ResyncReq) : M unit :=
  db <- get_db ;;
  let db := note_peer_caps db rel_id (rq_caps req) in
  put_db db ;;
  p <- lift (map_err ESync (handle_request db rel_id req)) ;;
  put_db p.1 ;;
  requeue_all rel_id p.2 ;;
  db <- get_db ;;
  state <- lift (map_err EStore (load_policy db rel_id)) ;;
  if db_now db >=? wrap64 (ps_last_sync_at state + SYNC_REPLY_MIN_SEC) then
    let '(next, sync_payload) := build_sync state (db_now db) in
    put_db (save_policy db rel_id next) ;;
    send_envelope rel_id (PChatPolicy sync_payload) None false ;;
    mret tt
  else mret tt.

(** The op dispatch: the next state, its outcome, and whether SYNC is owed. *)
Definition policy_dispatch (state : PolicyState) (env : Envelope) (cp : ChatPolicy) (t : Z)
    : option (PolicyState * ApplyOutcome * bool) :=
  if cp_op cp =? OP_RULE_PROPOSE then
    Some (apply_propose state cp (env_msg_id env), mkOutcome true None false, false)
  else if cp_op cp =? OP_RULE_ACCEPT then
    match apply_accept state cp t with
    | Some (s, o) => Some (s, o, false)
    | None => None
    end
  else if cp_op cp =? OP_CAP_SET then
    let '(s, o) := apply_cap_set state (cp_cap_id cp) (cp_cap_on cp) in Some (s, o, false)
  else if cp_op cp =? OP_SYNC then
    let '(s, o) := apply_sync state cp in Some (s, o, true)
  else None.

Definition apply_chat_policy (rel_id : string) (env : Envelope) (cp : ChatPolicy)
    : M (list EngineEvent) :=
  db <- get_db ;;
  state <- lift (map_err EStore (load_policy db rel_id)) ;;
  match policy_dispatch state env cp (db_now db) with
  | None => mret []
  | Some (next, outcome, respond) =>
      put_db (save_policy db rel_id next) ;;
      events <- apply_outcome rel_id outcome ;;
      if respond && (db_now db >=? wrap64 (ps_last_sync_at next + SYNC_REPLY_MIN_SEC)) then
        let '(s2, sync_payload) := build_sync next (db_now db) in
        db <- get_db ;;
        put_db (save_policy db rel_id s2) ;;
        send_envelope rel_id (PChatPolicy sync_payload) None false ;;
        mret events
      else mret events
  end.

Definition maybe_request_resync (rel_id : string) : M (list EngineEvent) :=
  db <- get_db ;;
  let key := resync_req_at_key rel_id in
  let last := default 0 (stamp db key) in
  if db_now db <? wrap64 (last + RESYNC_REQ_MIN_SECS) then mret []
  else
    let db := set_setting db key (be_bytes 8 (db_now db)) in
    put_db db ;;
    req <- lift (map_err ESync (build_request sha256 db rel_id)) ;;
    send_envelope rel_id (PResyncReq req) None false ;;
    mret [EvGapDetected rel_id].

(** ** Reasoning about engine computations *)

Lemma mbind_Ok {A B} (m : M A) (k : A → M B) e e' b :
  mbind m k e = (e', Ok b) → ∃ e1 a, m e = (e1, Ok a) ∧ k a e1 = (e', Ok b).
Proof. unfold mbind. destruct (m e) as [e1 [a|x]]; [eauto|done]. Qed.

Lemma lift_Ok {A} (r : result EngineError A) e e' a : lift r e = (e', Ok a) → e' = e ∧ r = Ok a.
Proof. unfold lift. by intros [= <- ->]. Qed.

Lemma map_err_Ok {E F A} (f : E → F) (r : result E A) a : map_err f r = Ok a → r = Ok a.
Proof. destruct r; cbn; [by intros [= ->]|done]. Qed.

(** A reflexive, transitive relation kept by every step of a computation. *)
Section Keeps.
Context (R : Engine → Engine → Prop) `{!PreOrder R}.

Definition keeps {A} (m : M A) : Prop := ∀ e, R e (m e).1.

Lemma keeps_ret {A} (a : A) : keeps (mret a).
Proof. intros e. reflexivity. Qed.
Lemma keeps_throw {A} x : keeps (@throw A x).
Proof. intros e. reflexivity. Qed.
Lemma keeps_lift {A} (r : result EngineError A) : keeps (lift r).
Proof. intros e. reflexivity. Qed.
Lemma keeps_get : keeps get_db.
Proof. intros e. reflexivity. Qed.

Lemma keeps_bind {A B} (m : M A) (k : A → M B) : keeps m → (∀ a, keeps (k a)) → keeps (mbind m k).
Proof.
  intros Hm Hk e. unfold mbind. specialize (Hm e). destruct (m e) as [e1 [a|x]]; cbn [fst] in *; [|done].
  etransitivity; [exact Hm|]. apply Hk.
Qed.

(** Writes whose value comes from the store just read. *)
Lemma keeps_get_bind {B} (k : Db → M B) : (∀ e, R e (k (en_db e) e).1) → keeps (mbind get_db k).
Proof. intros Hk e. exact (Hk e). Qed.
End Keeps.

(** The policy columns and the clock. *)
Definition same_policies (e e' : Engine) : Prop :=
  policies (en_db e') = policies (en_db e) ∧ db_now (en_db e') = db_now (en_db e).

#[local] Instance same_policies_preorder : PreOrder same_policies.
Proof. split; [by intros e|]. intros a b c [H1 H2] [H3 H4]. split; congruence. Qed.

Lemma policies_mark_broken db rel_id : policies (mark_broken db rel_id) = policies db.
Proof.
  unfold policies, mark_broken, fail_relationship_outbound. cbn [fst db_rels set_outbox set_messages set_rels].
  apply map_eq. intros k. rewrite !lookup_fmap. destruct (decide (k = rel_id)) as [->|Hne].
  - rewrite lookup_alter_eq. by destruct (db_rels db !! rel_id).
  - by rewrite lookup_alter_ne.
Qed.

Lemma encrypt_policies db sg rel_id msg_id plaintext at_ :
  let '(db', _, _) := encrypt message_encrypt db sg rel_id msg_id plaintext at_ in
  policies db' = policies db ∧ db_now db' = db_now db.
Proof.
  unfold encrypt. destruct (_ >? _); [done|]. destruct (session_state db rel_id); try done.
  destruct (db_ciphertexts db !! msg_id) as [[rel f]|]; [by destruct (negb _)|].
  destruct (message_encrypt sg rel_id plaintext at_) as [sg2 [[ty body]|x]]; [by destruct ty|].
  destruct (classify_signal_error x); try done. split; [apply policies_mark_broken|done].
Qed.

Lemma insert_message_policies db m db' : insert_message db m = Ok db' → db_rels db' = db_rels db ∧ db_now db' = db_now db.
Proof. unfold insert_message. destruct (db_messages db !! _); [done|]. by intros <-%Ok_inj. Qed.

Lemma enqueue_policies db i r b t db' : enqueue db i r b t = Ok db' → db_rels db' = db_rels db ∧ db_now db' = db_now db.
Proof. unfold enqueue. destruct (db_outbox db !! _); [done|]. by intros <-%Ok_inj. Qed.

Lemma transition_policies db i s db' : transition db i s = Ok db' → db_rels db' = db_rels db ∧ db_now db' = db_now db.
Proof. by intros (r & _ & _ & ->)%transition_Ok. Qed.

Lemma same_policies_intro db e sg net rng pr ty pe ra dr :
  db_rels db = db_rels (en_db e) → db_now db = db_now (en_db e) →
  same_policies e (mkEngine db sg net rng pr ty pe ra dr).
Proof. intros H1 H2. split; [|done]. unfold policies. cbn. by rewrite H1. Qed.


(** ** The outbound pipeline *)

Definition sent_row (rel_id : string) (env : Envelope) (payload : bytes) (expiry : option Z)
    (created : Z) (st : DeliveryState) : MessageRow :=
  mkMessageRow (env_msg_id env) rel_id DirOut (env_app_seq env) (env_sent_at env) None
    (code (envelope_type env)) (env_ref_id env) payload st expiry created false false None 0 0.

(** What a first send leaves in the store, by what the transport answered: a
    transmitted row and nothing queued, or a queued row with its record
    waiting in the outbox. *)
Definition first_sent (db db' : Db) (rel_id : string) (env : Envelope) (record : bytes)
    (answer : result TransportError unit) : Prop :=
  ∃ payload expiry,
    payload_encode nfc (env_payload env) = Ok payload
    ∧ db_messages db !! env_msg_id env = None
    ∧ match answer with
      | Ok _ =>
          db_messages db' !! env_msg_id env = Some (sent_row rel_id env payload expiry (db_now db) Transmitted)
          ∧ db_outbox db' !! env_msg_id env = None
      | Err _ =>
          db_messages db' !! env_msg_id env = Some (sent_row rel_id env payload expiry (db_now db) Queued)
          ∧ db_outbox db' !! env_msg_id env
            = Some (fresh_outbox_row db (env_msg_id env) rel_id record MESSAGE_TTL_SECS)
      end.

(** Everything but the new message's own rows. *)
Definition only_row (id : bytes) (db db' : Db) : Prop :=
  (∀ k, k ≠ id → db_messages db' !! k = db_messages db !! k)
  ∧ (∀ k, k ≠ id → db_outbox db' !! k = db_outbox db !! k)
  ∧ db_rels db' = db_rels db ∧ db_now db' = db_now db ∧ db_settings db' = db_settings db
  ∧ db_ciphertexts db' = db_ciphertexts db ∧ db_inbound_seqs db' = db_inbound_seqs db.

Lemma queue_first_send_Ok rel_id row env record alert e e' sent :
  queue_first_send rel_id row env record alert e = (e', Ok sent) →
  sent = mkSent (env_msg_id env) (env_app_seq env)
  ∧ (∃ answer,
       send_record (en_net e) (rel_peer_onion row)
         (if rel_intro_pending row then Some (rel_our_qr_bytes row) else None) record alert = (en_net e', answer)
       ∧ first_sent (en_db e) (en_db e') rel_id env record answer)
  ∧ only_row (env_msg_id env) (en_db e) (en_db e').
Proof.
  unfold queue_first_send. intros H.
  apply mbind_Ok in H as (? & db & [= <- <-] & H).
  apply mbind_Ok in H as (? & expiry & [-> _]%lift_Ok & H).
  apply mbind_Ok in H as (? & payload & [-> Hp%map_err_Ok]%lift_Ok & H).
  apply mbind_Ok in H as (? & db1 & [-> Hi%map_err_Ok]%lift_Ok & H).
  apply mbind_Ok in H as (? & ? & [= <- _] & H).
  apply mbind_Ok in H as (? & db2 & [-> Hq%map_err_Ok]%lift_Ok & H).
  apply mbind_Ok in H as (? & ? & [= <- _] & H).
  apply mbind_Ok in H as (e1 & r & Ht & H). unfold try_send in Ht. cbn [en_net en_db] in Ht.
  destruct (send_record _ _ _ _ _) as [net r']. injection Ht as <- <-.
  unfold insert_message in Hi. cbn [nm_msg_id] in Hi.
  destruct (db_messages (en_db e) !! env_msg_id env) eqn:Em; [done|]. apply Ok_inj in Hi.
  unfold enqueue in Hq. subst db1. cbn [db_outbox set_messages] in Hq.
  destruct (db_outbox (en_db e) !! env_msg_id env) eqn:Eo; [done|]. apply Ok_inj in Hq. subst db2.
  destruct r' as [u|x].
  - apply mbind_Ok in H as (? & ? & [= <- <-] & H). cbn [en_db] in H.
    apply mbind_Ok in H as (? & ? & [= <- _] & H).
    apply mbind_Ok in H as (? & db3 & [-> Hm%map_err_Ok]%lift_Ok & H).
    apply mbind_Ok in H as (? & ? & [= <- _] & H). injection H as <- <-. split; [done|].
    apply transition_Ok in Hm as (r & Hr & _ & ->). cbn in Hr. rewrite lookup_insert_eq in Hr.
    injection Hr as <-. cbn [en_db]. split.
    + exists (Ok u). split; [done|]. exists payload, expiry. split_and!; [done|done| |]; cbn.
      * by rewrite lookup_insert_eq.
      * apply lookup_delete_eq.
    + split_and!; try done; intros k Hk; cbn.
      * by rewrite !lookup_insert_ne.
      * by rewrite lookup_delete_ne, lookup_insert_ne.
  - injection H as <- <-. split; [done|]. cbn [en_db]. split.
    + exists (Err x). split; [done|]. exists payload, expiry. split_and!; [done|done| |]; cbn;
        by rewrite lookup_insert_eq.
    + split_and!; try done; intros k Hk; cbn; by rewrite lookup_insert_ne.
Qed.

Lemma send_envelope_Ok rel_id payload ref_id alert e e' sent :
  (∀ r n, length (rng_fill r n) = n) →
  send_envelope rel_id payload ref_id alert e = (e', Ok sent) →
  ∃ row frame record answer,
    db_rels (en_db e) !! rel_id = Some row
    ∧ gate_outbound (en_db e) rel_id row (payload_type payload) = Ok tt
    ∧ sent_app_seq sent = (next_out_seq (en_db e) rel_id).2
    ∧ send_record (en_net e) (rel_peer_onion row)
        (if rel_intro_pending row then Some (rel_our_qr_bytes row) else None) record alert = (en_net e', answer)
    ∧ first_sent (en_db e) (en_db e') rel_id
        (mkEnvelope (sent_msg_id sent) (sent_app_seq sent) (db_now (en_db e)) ref_id payload) record answer
    ∧ stored_ciphertext (en_db e') rel_id (sent_msg_id sent) = Some frame
    ∧ parse_record record = Ok frame
    ∧ (∀ k, k ≠ sent_msg_id sent → db_messages (en_db e') !! k = db_messages (en_db e) !! k)
    ∧ (∀ k, k ≠ sent_msg_id sent → db_outbox (en_db e') !! k = db_outbox (en_db e) !! k)
    ∧ db_rels (en_db e') = db_rels (en_db e)
    ∧ db_settings (en_db e') = db_settings (next_out_seq (en_db e) rel_id).1.
Proof.
  intros Hfill H. unfold send_envelope in H.
  apply mbind_Ok in H as (? & db & [= <- <-] & H).
  apply mbind_Ok in H as (? & row & [-> Hrow]%lift_Ok & H).
  apply mbind_Ok in H as (? & [] & [-> Hg]%lift_Ok & H).
  destruct (next_out_seq (en_db e) rel_id) as [db1 seq] eqn:En.
  assert (Hdb1 : db1 = set_settings (en_db e) (db_settings db1)).
  { unfold next_out_seq in En. by injection En as <- _. }
  apply mbind_Ok in H as (? & ? & [= <- _] & H).
  apply mbind_Ok in H as (? & msg_id & [= <- <-] & H).
  apply mbind_Ok in H as (? & plaintext & [-> _]%lift_Ok & H).
  apply mbind_Ok in H as (e1 & frame & Hf & H). unfold run_encrypt in Hf. cbn [en_db en_sig en_rng] in Hf.
  destruct (encrypt _ _ _ _ _ _ _) as [[db2 sg] r] eqn:Ee. injection Hf as <- Hr%map_err_Ok. subst r.
  apply encrypt_Ok in Ee as (_ & Hc & Hrels & Hoth & Hdb2).
  apply mbind_Ok in H as (e2 & record & Hrec & H). unfold pad_record in Hrec. cbn [en_db en_rng] in Hrec.
  injection Hrec as <- Hrec%map_err_Ok. apply parse_build in Hrec; [|apply Hfill].
  apply queue_first_send_Ok in H as (-> & (answer & Hans & Hfs) & Honly). cbn [en_db env_msg_id env_app_seq sent_msg_id sent_app_seq] in *.
  assert (Hsame : ∀ m, db_messages db2 !! m = db_messages (en_db e) !! m) by (intros m; by rewrite Hdb2, Hdb1).
  assert (Hsame' : ∀ m, db_outbox db2 !! m = db_outbox (en_db e) !! m) by (intros m; by rewrite Hdb2, Hdb1).
  assert (Hnow : db_now db2 = db_now (en_db e)) by (by rewrite Hdb2, Hdb1).
  destruct Honly as (Hm & Ho & Hr & _ & Hset & Hct & _).
  exists row, frame, record, answer. split_and!; [|done|done|done| | |done| | | |].
  - unfold load_relationship in Hrow. by destruct (db_rels (en_db e) !! rel_id); [apply Ok_inj in Hrow; subst|].
  - destruct Hfs as (pl & ex & H1 & H2 & H3). exists pl, ex. rewrite Hsame in H2. rewrite Hnow in H3.
    split_and!; [done|done|]. destruct answer; [done|]. destruct H3 as [H3 ->]. split; [done|].
    unfold fresh_outbox_row. by rewrite Hnow.
  - unfold stored_ciphertext. rewrite Hct, Hc. by rewrite bool_decide_eq_true_2.
  - intros k Hk. by rewrite Hm, Hsame.
  - intros k Hk. by rewrite Ho, Hsame'.
  - by rewrite Hr, Hrels, Hdb1.
  - rewrite Hset, Hdb2. done.
Qed.


(** The gate lets an envelope out exactly when the session is alive, the
    relationship is open for it, the peer speaks the type and the chat
    rules allow it. *)
Lemma gate_outbound_Ok db rel_id row t :
  gate_outbound db rel_id row t = Ok tt ↔
  rel_session row ≠ SessBroken
  ∧ (rel_state row = "active"%string
     ∨ rel_state row = "request"%string ∧ rel_role row ≠ "inviter"%string)
  ∧ (close_state db rel_id = None ∨ closing_exempt t = true)
  ∧ allows (peer_caps db rel_id) t = true
  ∧ ∃ policy, load_policy db rel_id = Ok policy ∧ policy_denies policy t = false.
Proof.
  unfold gate_outbound, check_outbound. split.
  - destruct (bool_decide (rel_session row = SessBroken)) eqn:E1; [done|].
    destruct (_ && _) eqn:E2; [done|]. destruct (negb _ && negb _) eqn:E3; [done|].
    destruct (bool_decide (is_Some _) && negb _) eqn:E4; [done|].
    destruct (negb (allows _ t)) eqn:E5; [done|]. intros (policy & Hp%map_err_Ok & H)%rbind_Ok.
    destruct (policy_denies policy t) eqn:E6; [done|].
    apply bool_decide_eq_false in E1. apply andb_false_iff in E2, E3, E4. apply negb_false_iff in E5.
    rewrite !negb_false_iff, !bool_decide_eq_true in E3. rewrite !bool_decide_eq_false in E2.
    rewrite bool_decide_eq_false, negb_false_iff, <- eq_None_not_Some in E4.
    split_and!; [done| |done|done|eauto]. destruct E3 as [E3|E3]; [by left|right].
    split; [done|]. by destruct E2.
  - intros (H1 & H2 & H3 & H4 & policy & Hp & Hd). rewrite bool_decide_eq_false_2 by done.
    assert (bool_decide (rel_role row = "inviter"%string) && bool_decide (rel_state row = "request"%string)
            = false) as ->.
    { apply andb_false_iff. rewrite !bool_decide_eq_false. destruct H2 as [->|[_ ?]]; [by right|by left]. }
    assert (negb (bool_decide (rel_state row = "active"%string))
            && negb (bool_decide (rel_state row = "request"%string)) = false) as ->.
    { apply andb_false_iff. rewrite !negb_false_iff, !bool_decide_eq_true. naive_solver. }
    assert (bool_decide (is_Some (close_state db rel_id)) && negb (closing_exempt t) = false) as ->.
    { apply andb_false_iff. rewrite bool_decide_eq_false, negb_false_iff, <- eq_None_not_Some. done. }
    rewrite H4, Hp. cbn [negb map_err rbind]. by rewrite Hd.
Qed.

Lemma send_envelope_refused rel_id payload ref_id alert e row x :
  db_rels (en_db e) !! rel_id = Some row →
  gate_outbound (en_db e) rel_id row (payload_type payload) = Err x →
  send_envelope rel_id payload ref_id alert e = (e, Err x).
Proof.
  intros Hr Hg. unfold send_envelope, mbind, get_db, lift, load_relationship. rewrite Hr. cbn [ok_or].
  by rewrite Hg.
Qed.

(** ** The policy handlers refine the policy machine *)

Lemma keeps_queue_first_send rel_id row env record alert :
  keeps same_policies (queue_first_send rel_id row env record alert).
Proof.
  intros e. unfold queue_first_send, mbind, get_db, lift, put_db, try_send. cbn [en_db en_net].
  destruct (message_expiry _ _ _) as [expiry|]; [|reflexivity]. cbn [map_err].
  destruct (payload_encode nfc _) as [payload|]; [|reflexivity]. cbn [map_err].
  destruct (insert_message _ _) as [db1|] eqn:E1; [|reflexivity]. apply insert_message_policies in E1 as [R1 N1].
  cbn [map_err]. destruct (enqueue db1 _ _ _ _) as [db2|] eqn:E2; [|by apply same_policies_intro].
  apply enqueue_policies in E2 as [R2 N2]. cbn [map_err].
  destruct (send_record _ _ _ _ _) as [net [u|x]]; cbn [fst en_db]; [|apply same_policies_intro; congruence].
  destruct (mark_transmitted _ _) as [db3|] eqn:E3; cbn [map_err fst].
  - apply transition_policies in E3 as [R3 N3]. cbn in R3, N3. apply same_policies_intro; congruence.
  - apply same_policies_intro; cbn; congruence.
Qed.

Lemma keeps_send_envelope rel_id payload ref_id alert :
  keeps same_policies (send_envelope rel_id payload ref_id alert).
Proof.
  unfold send_envelope. apply keeps_get_bind. intros e. unfold mbind at 1, lift at 1.
  destruct (ok_or _ _) as [row|]; [|reflexivity]. unfold mbind at 1, lift at 1.
  destruct (gate_outbound _ _ _ _); [|reflexivity].
  destruct (next_out_seq (en_db e) rel_id) as [db1 seq] eqn:En.
  assert (Hdb1 : db_rels db1 = db_rels (en_db e) ∧ db_now db1 = db_now (en_db e)).
  { unfold next_out_seq in En. by injection En as <- _. }
  unfold mbind at 1, put_db at 1. unfold mbind at 1, random_msg_id at 1. cbn [en_db en_sig en_net en_rng].
  set (e1 := mkEngine db1 _ _ _ _ _ _ _ _).
  assert (H1 : same_policies e e1) by (destruct Hdb1; by apply same_policies_intro). etransitivity; [exact H1|]. clearbody e1.
  generalize e1. apply (keeps_bind same_policies); [apply (keeps_lift same_policies)|]. intros plaintext.
  apply (keeps_bind same_policies).
  { intros e2. unfold run_encrypt.
    pose proof (encrypt_policies (en_db e2) (en_sig e2) rel_id (rng_id (en_rng e)) plaintext (db_now (en_db e))) as He.
    destruct (encrypt _ _ _ _ _ _ _) as [[db' sg] r]. exact He. }
  intros frame. apply (keeps_bind same_policies); [by intros e2|]. intros record. apply keeps_queue_first_send.
Qed.

(** The abstract specification of a policy call: the machine's operation on
    the relationship's state, given a fresh id and the time. *)
Inductive PolicyCall :=
| CallPropose (ttl_sec : Z) (screenshot attach_download : bool)
| CallAccept
| CallDecline
| CallSetCapability (cap_id : Z) (on : bool)
| CallInbound (env : Envelope) (cp : ChatPolicy).

Definition inbound_spec (env : Envelope) (cp : ChatPolicy) (t : Z) (s : PolicyState) : PolicyState :=
  if decide (cp_op cp = OP_RULE_PROPOSE) then apply_propose s cp (env_msg_id env)
  else if decide (cp_op cp = OP_RULE_ACCEPT) then from_option fst s (apply_accept s cp t)
  else if decide (cp_op cp = OP_CAP_SET) then (apply_cap_set s (cp_cap_id cp) (cp_cap_on cp)).1
  else if decide (cp_op cp = OP_SYNC) then
    let next := (apply_sync s cp).1 in
    if decide (wrap64 (ps_last_sync_at next + SYNC_REPLY_MIN_SEC) ≤ t) then (build_sync next t).1 else next
  else s.

Definition call_spec (c : PolicyCall) (id : bytes) (t : Z) (s : PolicyState) : PolicyState :=
  match c with
  | CallPropose ttl ss ad => from_option fst s (build_propose s ttl ss ad id)
  | CallAccept => from_option (λ x, x.1.1) s (build_accept s t)
  | CallDecline => decline_rules s
  | CallSetCapability cap_id on => from_option (λ x, x.1.1) s (build_cap_set s cap_id on)
  | CallInbound env cp => inbound_spec env cp t s
  end.

(** What the codec and the envelope guarantee of an inbound call. *)
Definition call_ok (c : PolicyCall) : Prop :=
  match c with
  | CallInbound env cp =>
      policy_validate cp = Ok tt ∧ len (cp_propose_id cp) = 16 ∧ len (env_msg_id env) = 16
  | _ => True
  end.

(** The engine's code for it. *)
Definition run_call (c : PolicyCall) (rel_id : string) : M unit :=
  match c with
  | CallPropose ttl ss ad => propose_rules rel_id ttl ss ad
  | CallAccept => accept_rules rel_id ;; mret tt
  | CallDecline => engine_decline_rules rel_id
  | CallSetCapability cap_id on => set_capability rel_id cap_id on ;; mret tt
  | CallInbound env cp => apply_chat_policy rel_id env cp ;; mret tt
  end.

(** The relationship's stored policy is now [s]; the others' are as before. *)
Definition policy_moves (rel_id : string) (e e' : Engine) (s : PolicyState) : Prop :=
  load_policy (en_db e') rel_id = Ok s
  ∧ ∀ other, other ≠ rel_id → load_policy (en_db e') other = load_policy (en_db e) other.

Lemma load_policy_policies db db' rel_id :
  policies db' = policies db → load_policy db' rel_id = load_policy db rel_id.
Proof. unfold load_policy. by intros ->. Qed.

Lemma load_policy_Some db rel_id s : load_policy db rel_id = Ok s → is_Some (policies db !! rel_id).
Proof. unfold load_policy, Policy.load_policy. by destruct (policies db !! rel_id). Qed.

Lemma load_saved db rel_id s s' :
  load_policy db rel_id = Ok s → policy_state_wf s' →
  load_policy (save_policy db rel_id s') rel_id = Ok s'
  ∧ ∀ other, other ≠ rel_id → load_policy (save_policy db rel_id s') other = load_policy db other.
Proof.
  intros Hl Hw. unfold load_policy. rewrite policies_save.
  apply load_save_policy; [done|by eapply load_policy_Some].
Qed.

Lemma policies_clamp db rel_id b : policies (clamp_message_expiry db rel_id b).1 = policies db.
Proof. done. Qed.

Lemma policies_erase db rel_id : policies (erase_attach_messages db rel_id).1 = policies db.
Proof.
  unfold erase_attach_messages. cbn [fst]. generalize (mr_msg_id <$> filter
    (λ r, bool_decide (mr_rel_id r = rel_id) && (mr_env_type r =? code TAttachHead) && negb (mr_tombstone r) = true)
    (map_to_list (db_messages db)).*2).
  intros l. revert db. induction l as [|x l IH]; intros db; [done|]. cbn [foldl]. by rewrite IH.
Qed.

Lemma apply_outcome_policies rel_id o e :
  policies (en_db (apply_outcome rel_id o e).1) = policies (en_db e).
Proof.
  unfold apply_outcome, mbind, get_db, put_db, mret. cbn [fst en_db].
  destruct (erase_attachments o); rewrite ?policies_erase; by destruct (clamp_expiry_to o).
Qed.

(** The tail every policy call shares: save, then effects that leave the
    policy columns alone. *)
Lemma saved_moves rel_id e e' s s' :
  load_policy (en_db e) rel_id = Ok s → policy_state_wf s' →
  policies (en_db e') = policies (save_policy (en_db e) rel_id s') → policy_moves rel_id e e' s'.
Proof.
  intros Hl Hw Hp. destruct (load_saved (en_db e) rel_id s s' Hl Hw) as [H1 H2].
  split; [by rewrite (load_policy_policies _ _ _ Hp)|].
  intros other Ho. rewrite (load_policy_policies _ _ _ Hp). by apply H2.
Qed.

Lemma same_moves rel_id e e' s :
  load_policy (en_db e) rel_id = Ok s → policies (en_db e') = policies (en_db e) →
  policy_moves rel_id e e' s.
Proof. intros Hl Hp. split; [|intros other _]; by rewrite (load_policy_policies _ _ _ Hp). Qed.

Lemma moves_trans rel_id e1 e2 e3 s s' :
  policy_moves rel_id e1 e2 s → policy_moves rel_id e2 e3 s' → policy_moves rel_id e1 e3 s'.
Proof. intros [_ H1] [H2 H3]. split; [done|]. intros other Ho. by rewrite H3, H1. Qed.

(** The abstract calls are steps of the machine. *)
Lemma inbound_spec_steps env cp t s :
  call_ok (CallInbound env cp) → is_u64 t → rtc policy_step s (inbound_spec env cp t s).
Proof.
  intros (Hv & Hp & Hm) Ht. unfold inbound_spec. destruct (decide _).
  { apply rtc_once. by apply step_propose. }
  destruct (decide _).
  { destruct (apply_accept s cp t) as [[s1 o1]|] eqn:Ea; [|apply rtc_refl].
    apply rtc_once. by eapply step_accept. }
  destruct (decide _); [apply rtc_once, step_cap_set|]. destruct (decide _); [|apply rtc_refl].
  cbn zeta. destruct (decide _); [|apply rtc_once, step_sync].
  eapply rtc_l; [apply step_sync|]. by apply rtc_once, step_build_sync.
Qed.

Lemma call_spec_steps c id t s :
  call_ok c → len id = 16 → is_u64 t → rtc policy_step s (call_spec c id t s).
Proof.
  intros Hc Hid Ht. destruct c as [ttl ss ad| | |cap_id on|env cp]; cbn [call_spec].
  - destruct (build_propose _ _ _ _ _) as [[]|] eqn:E; [|apply rtc_refl].
    apply rtc_once. by eapply step_build_propose.
  - destruct (build_accept _ _) as [[[]]|] eqn:E; [|apply rtc_refl]. apply rtc_once. by eapply step_build_accept.
  - apply rtc_once, step_decline.
  - destruct (build_cap_set _ _ _) as [[[]]|] eqn:E; [|apply rtc_refl]. apply rtc_once. by eapply step_build_cap_set.
  - by apply inbound_spec_steps.
Qed.

Lemma steps_wf s s' : rtc policy_step s s' → policy_state_wf s → policy_state_wf s'.
Proof. induction 1; [done|]. intros Hw. eauto using policy_step_wf. Qed.

Lemma send_policies rel_id payload ref_id alert e :
  policies (en_db (send_envelope rel_id payload ref_id alert e).1) = policies (en_db e).
Proof. apply keeps_send_envelope. Qed.


(** A call followed by a send (whatever it returns) leaves the policy
    columns as the call left them. *)
Lemma bind_send_policies {A B} (m : M A) rel_id p ref_id alert (k : A → B) e :
  policies (en_db ((x <- m ;; (send_envelope rel_id (p x) ref_id alert ;; mret (k x))) e).1)
  = policies (en_db (m e).1).
Proof.
  unfold mbind, mret. destruct (m e) as [e1 [a|x]]; [|done].
  pose proof (send_policies rel_id (p a) ref_id alert e1) as H.
  by destruct (send_envelope rel_id (p a) ref_id alert e1) as [e2 []].
Qed.

Lemma propose_rules_moves rel_id ttl ss ad e s :
  load_policy (en_db e) rel_id = Ok s →
  let s' := from_option fst s (build_propose s ttl ss ad (rng_id (en_rng e))) in
  policy_state_wf s' → policy_moves rel_id e (propose_rules rel_id ttl ss ad e).1 s'.
Proof.
  intros Hl s' Hw. unfold propose_rules. unfold mbind at 1, get_db at 1. unfold mbind at 1, lift at 1.
  rewrite Hl. cbn [map_err]. unfold mbind at 1, random_msg_id at 1. subst s'.
  destruct (build_propose s ttl ss ad (rng_id (en_rng e))) as [[next payload]|]; [|by apply same_moves].
  eapply saved_moves; [exact Hl|exact Hw|].
  unfold mbind at 1, put_db at 1. cbn [en_db en_sig en_net en_rng en_presence en_typing].
  unfold mbind, mret. match goal with |- context [send_envelope ?a ?b ?c ?d ?e1] =>
    pose proof (send_policies a b c d e1) as Hs; destruct (send_envelope a b c d e1) as [e2 []] end; exact Hs.
Qed.

Lemma outcome_then_send_policies rel_id o payload e :
  policies (en_db ((events <- apply_outcome rel_id o ;;
    (send_envelope rel_id (PChatPolicy payload) None false ;; mret events)) e).1)
  = policies (en_db e).
Proof. rewrite (bind_send_policies _ rel_id (λ _, PChatPolicy payload)). apply apply_outcome_policies. Qed.

Lemma accept_rules_moves rel_id e s :
  load_policy (en_db e) rel_id = Ok s →
  let s' := from_option (λ x, x.1.1) s (build_accept s (db_now (en_db e))) in
  policy_state_wf s' → policy_moves rel_id e (accept_rules rel_id e).1 s'.
Proof.
  intros Hl s' Hw. unfold accept_rules. unfold mbind at 1, get_db at 1. unfold mbind at 1, lift at 1.
  rewrite Hl. cbn [map_err]. subst s'.
  destruct (build_accept s (db_now (en_db e))) as [[[next payload] o]|]; [|by apply same_moves].
  eapply saved_moves; [exact Hl|exact Hw|].
  unfold mbind at 1, put_db at 1. by rewrite outcome_then_send_policies.
Qed.

Lemma set_capability_moves rel_id cap_id on e s :
  load_policy (en_db e) rel_id = Ok s →
  let s' := from_option (λ x, x.1.1) s (build_cap_set s cap_id on) in
  policy_state_wf s' → policy_moves rel_id e (set_capability rel_id cap_id on e).1 s'.
Proof.
  intros Hl s' Hw. unfold set_capability. unfold mbind at 1, get_db at 1. unfold mbind at 1, lift at 1.
  rewrite Hl. cbn [map_err]. subst s'.
  destruct (build_cap_set s cap_id on) as [[[next payload] o]|]; [|by apply same_moves].
  eapply saved_moves; [exact Hl|exact Hw|].
  unfold mbind at 1, put_db at 1. by rewrite outcome_then_send_policies.
Qed.

Lemma decline_rules_moves rel_id e s :
  load_policy (en_db e) rel_id = Ok s → policy_state_wf (decline_rules s) →
  policy_moves rel_id e (engine_decline_rules rel_id e).1 (decline_rules s).
Proof.
  intros Hl Hw. unfold engine_decline_rules, mbind, get_db, lift. rewrite Hl. cbn [map_err].
  eapply saved_moves; [exact Hl|exact Hw|done].
Qed.

(** The dispatch computes the specified state up to the SYNC reply. *)
Definition sync_reply (r : PolicyState * ApplyOutcome * bool) (t : Z) : PolicyState :=
  let '(next, _, respond) := r in
  if respond && (t >=? wrap64 (ps_last_sync_at next + SYNC_REPLY_MIN_SEC))
  then (build_sync next t).1 else next.

Lemma policy_dispatch_spec s env cp t :
  inbound_spec env cp t s = from_option (λ r, sync_reply r t) s (policy_dispatch s env cp t).
Proof.
  unfold policy_dispatch, inbound_spec.
  repeat (case_decide as E; [apply Z.eqb_eq in E as ->|apply Z.eqb_neq in E as ->]); try done.
  - by destruct (apply_accept s cp t) as [[]|].
  - by destruct (apply_cap_set _ _ _).
  - destruct (apply_sync s cp) as [next o]. cbn. case_decide as E; [apply Z.geb_le in E as ->|]; [done|].
    by destruct (t >=? _) eqn:E2; [apply Z.geb_le in E2|].
Qed.

Lemma policy_dispatch_step s env cp t next o respond :
  call_ok (CallInbound env cp) → policy_dispatch s env cp t = Some (next, o, respond) →
  policy_step s next.
Proof.
  unfold policy_dispatch. intros (Hv & Hp & Hm) H.
  destruct (cp_op cp =? OP_RULE_PROPOSE) eqn:E1.
  { injection H as <- _ _. apply step_propose; try done. lia. }
  destruct (cp_op cp =? OP_RULE_ACCEPT).
  { destruct (apply_accept s cp t) as [[s1 o1]|] eqn:Ea; [|done]. injection H as <- _ _. by eapply step_accept. }
  destruct (cp_op cp =? OP_CAP_SET).
  { pose proof (step_cap_set s (cp_cap_id cp) (cp_cap_on cp)) as Hs.
    destruct (apply_cap_set _ _ _) as [s1 o1]. by injection H as <- _ _. }
  destruct (cp_op cp =? OP_SYNC); [|done].
  pose proof (step_sync s cp) as Hs. destruct (apply_sync s cp) as [s1 o1]. by injection H as <- _ _.
Qed.

Lemma apply_chat_policy_moves rel_id env cp e s :
  call_ok (CallInbound env cp) → load_policy (en_db e) rel_id = Ok s → policy_state_wf s →
  let s' := inbound_spec env cp (db_now (en_db e)) s in
  policy_state_wf s' → policy_moves rel_id e (apply_chat_policy rel_id env cp e).1 s'.
Proof.
  intros Hc Hl Hw s' Hw'. unfold apply_chat_policy. unfold mbind at 1, get_db at 1.
  unfold mbind at 1, lift at 1. rewrite Hl. cbn [map_err]. subst s'. rewrite policy_dispatch_spec in *.
  destruct (policy_dispatch s env cp (db_now (en_db e))) as [[[next o] respond]|] eqn:Ed; [|by apply same_moves].
  apply policy_dispatch_step in Ed as Hstep; [|done]. apply policy_step_wf in Hstep as Hnw; [|done].
  unfold mbind at 1, put_db at 1. set (e1 := mkEngine _ _ _ _ _ _ _ _ _).
  pose proof (apply_outcome_policies rel_id o e1) as Ho. unfold mbind at 1.
  assert (Hnext : policy_moves rel_id e (apply_outcome rel_id o e1).1 next)
    by by eapply saved_moves; [exact Hl|exact Hnw|].
  cbn [from_option sync_reply] in *. clearbody e1.
  destruct (apply_outcome rel_id o e1) as [e2 [events|x]] eqn:Eo; cbn [fst] in *;
    [|by unfold apply_outcome, mbind, get_db, put_db, mret in Eo].
  destruct (respond && _); [|done]. destruct (build_sync next (db_now (en_db e))) as [s2 sync].
  eapply moves_trans; [exact Hnext|]. eapply saved_moves; [apply Hnext|exact Hw'|].
  unfold mbind, get_db, put_db, mret. match goal with |- context [send_envelope ?a ?b ?c ?d ?e3] =>
    pose proof (send_policies a b c d e3) as Hs; destruct (send_envelope a b c d e3) as [e4 []] end; exact Hs.
Qed.

Lemma bind_ret_state {A B} (m : M A) (b : B) e : ((m ;; mret b) e).1 = (m e).1.
Proof. unfold mbind, mret. by destruct (m e) as [e' []]. Qed.

(** ** Retransmission *)

Lemma requeue_all_Ok rel_id rts e e' :
  (∀ r n, length (rng_fill r n) = n) → NoDup (rt_msg_id <$> rts) →
  requeue_all rel_id rts e = (e', Ok tt) →
  (∀ k, k ∉ rt_msg_id <$> rts → db_outbox (en_db e') !! k = db_outbox (en_db e) !! k)
  ∧ Forall (λ rt, ∃ record, parse_record record = Ok (rt_frame rt)
      ∧ db_outbox (en_db e') !! rt_msg_id rt
        = Some (fresh_outbox_row (en_db e) (rt_msg_id rt) rel_id record MESSAGE_TTL_SECS)) rts
  ∧ db_messages (en_db e') = db_messages (en_db e) ∧ db_rels (en_db e') = db_rels (en_db e)
  ∧ db_now (en_db e') = db_now (en_db e).
Proof.
  intros Hfill. revert e. induction rts as [|rt rts IH]; intros e Hnd H; cbn [requeue_all] in H.
  - injection H as <-. split_and!; done || constructor.
  - apply NoDup_cons in Hnd as [Hrt Hnd]. apply mbind_Ok in H as (e1 & record & Hrec & H).
    unfold pad_record in Hrec. injection Hrec as <- Hrec%map_err_Ok. apply parse_build in Hrec; [|apply Hfill].
    apply mbind_Ok in H as (? & db & [= <- <-] & H). cbn [en_db] in H.
    apply mbind_Ok in H as (e2 & ? & [= <- _] & H).
    apply IH in H as (Hk & Hall & Hm & Hr & Hn); [|done]. cbn [en_db requeue db_messages db_rels db_now db_outbox set_outbox] in *.
    split_and!; [|constructor|done..].
    + intros k [Hk1 Hk2]%not_elem_of_cons. rewrite Hk by done. by rewrite lookup_insert_ne.
    + exists record. split; [done|]. rewrite Hk by done. by rewrite lookup_insert_eq.
    + done.
Qed.

Lemma retransmit_ids rel_id req db rows :
  NoDup (mr_msg_id <$> rows) → NoDup (rt_msg_id <$> omap (retransmit_of rel_id req db) rows)
  ∧ ∀ k, k ∈ rt_msg_id <$> omap (retransmit_of rel_id req db) rows → k ∈ mr_msg_id <$> rows.
Proof.
  assert (Hid : ∀ r rt, retransmit_of rel_id req db r = Some rt → rt_msg_id rt = mr_msg_id r).
  { intros r rt. unfold retransmit_of. destruct (covered req r); [done|]. destruct (from_option _ _ _); [done|].
    by intros (f & _ & ->)%fmap_Some. }
  induction rows as [|r rows IH]; intros Hnd; [split; [constructor|by intros k ?%elem_of_nil]|].
  apply NoDup_cons in Hnd as [Hr Hnd]. destruct (IH Hnd) as [IH1 IH2]. cbn [omap list_omap].
  destruct (retransmit_of rel_id req db r) as [rt|] eqn:E; fold (omap (M := list) (retransmit_of rel_id req db) rows).
  - apply Hid in E. split.
    + cbn [fmap list_fmap]. constructor; [|done]. rewrite E. intros Hin%IH2. done.
    + intros k [->|Hk]%elem_of_cons; [rewrite E; by apply elem_of_cons; left|apply elem_of_cons; right; by apply IH2].
  - split; [done|]. intros k Hk. apply elem_of_cons. right. by apply IH2.
Qed.

(** Every frame the resync handler selects is in the outbox afterwards. *)
Lemma resync_requeues rel_id req e e' :
  (∀ r n, length (rng_fill r n) = n) → ledger_wf (en_db e) →
  apply_resync_req rel_id req e = (e', Ok tt) →
  ∃ db1 rts, handle_request (note_peer_caps (en_db e) rel_id (rq_caps req)) rel_id req = Ok (db1, rts)
    ∧ Forall (λ rt, ∃ o, db_outbox (en_db e') !! rt_msg_id rt = Some o
        ∧ ob_rel_id o = rel_id ∧ parse_record (ob_record o) = Ok (rt_frame rt)) rts.
Proof.
  intros Hfill Hw H. unfold apply_resync_req in H. apply mbind_Ok in H as (? & db & [= <- <-] & H).
  apply mbind_Ok in H as (? & ? & [= <- _] & H).
  apply mbind_Ok in H as (? & p & [-> Hh%map_err_Ok]%lift_Ok & H).
  apply mbind_Ok in H as (? & ? & [= <- _] & H).
  apply mbind_Ok in H as (e1 & [] & Hq & H). set (db0 := note_peer_caps (en_db e) rel_id (rq_caps req)) in *.
  exists p.1, p.2. split; [by destruct p|].
  assert (Hb : session_state db0 rel_id ≠ SessBroken).
  { intros Hb. by rewrite (handle_request_broken _ _ req Hb) in Hh. }
  destruct (handle_request_spec db0 rel_id req Hw Hb) as (m & Hh' & Hlk). rewrite Hh' in Hh.
  apply Ok_inj in Hh. subst p. cbn [fst snd] in *.
  set (rows := unacked_outbound db0 rel_id _) in *.
  destruct (unacked_unsettled db0 rel_id (wrap64 (rq_max_contiguous_seq req + BITMAP_BITS)) Hw) as [Hnd Hrows].
  fold rows in Hnd, Hrows. destruct (retransmit_ids rel_id req db0 rows Hnd) as [Hnd' Hsub].
  apply requeue_all_Ok in Hq as (_ & Hall & Hmsg & _); [|done|done]. cbn [en_db db_messages set_messages] in Hmsg.
  apply mbind_Ok in H as (? & db & [= <- <-] & H).
  apply mbind_Ok in H as (? & state & [-> Hst%map_err_Ok]%lift_Ok & H).
  assert (Hkeep : ∀ rt, rt ∈ omap (retransmit_of rel_id req db0) rows →
            db_outbox (en_db e') !! rt_msg_id rt = db_outbox (en_db e1) !! rt_msg_id rt).
  { intros rt Hrt. destruct (_ >=? _); [|by injection H as <-].
    destruct (build_sync state _) as [next sync]. apply mbind_Ok in H as (e2 & ? & [= <- _] & H).
    apply mbind_Ok in H as (e3 & sent & Hs & H). injection H as <-.
    apply send_envelope_Ok in Hs as (row & frame & record & answer & _ & _ & _ & _ & Hfs & _ & _ & _ & Ho & _); [|done].
    cbn [en_db save_policy db_outbox set_rels] in Ho. apply Ho. intros E.
    destruct Hfs as (pl & ex & _ & Hnone & _). cbn [en_db env_msg_id db_messages save_policy set_rels] in Hnone.
    rewrite <- E, Hmsg, Hlk in Hnone.
    assert (Hin : rt_msg_id rt ∈ mr_msg_id <$> rows) by (apply Hsub, list_elem_of_fmap; eauto).
    apply list_elem_of_fmap in Hin as (r & Er & Hr). rewrite Forall_forall in Hrows.
    destruct (Hrows r Hr) as [Hlr _]. rewrite Er, Hlr in Hnone. done. }
  apply Forall_forall. intros rt Hrt. rewrite Hkeep by done. rewrite Forall_forall in Hall.
  destruct (Hall rt Hrt) as (record & Hp & Ho). eexists. split; [exact Ho|]. by split.
Qed.


(** ** The drain *)

Lemma drain_row_aborts rel_id row rest failed sent rel m e net :
  ob_rel_id row = rel_id → db_rels (en_db e) !! rel_id = Some rel → rel_peer_onion rel ∉ failed →
  send_record (en_net e) (rel_peer_onion rel)
    (if rel_intro_pending rel then Some (rel_our_qr_bytes rel) else None) (ob_record row) false
  = (net, Ok tt) →
  db_messages (en_db e) !! ob_msg_id row = Some m → mr_state m = Acknowledged →
  (drain_loop (row :: rest) failed sent e).2 = Err (ESync (BadTransition Acknowledged Transmitted)).
Proof.
  intros Hrel Hr Hnf Hs Hm Hst. cbn [drain_loop]. unfold mbind at 1, get_db at 1. unfold load_relationship.
  rewrite Hrel, Hr, bool_decide_eq_false_2 by done.
  unfold mbind, try_send, put_db, lift. rewrite Hs. cbn [en_db].
  unfold mark_transmitted, transition, message. cbn [fst dequeue db_messages set_outbox].
  rewrite Hm. cbn [ok_or rbind]. rewrite Hst. done.
Qed.

(** ** Main results *)

(** C4: A send is never lost: when the outbound pipeline reports a sent
    message, the gate had passed, the sequence number is the next one, the
    message id was new, the ciphertext is cached under it, and its ledger row
    agrees with what the transport answered when it was handed the record for
    the peer's onion: transmitted with nothing queued if it took it, otherwise
    queued with, in the outbox, that record, which parses to exactly the
    cached ciphertext; no other row moved. *)
Theorem send_never_lost rel_id payload ref_id alert e e' sent :
  (∀ r n, length (rng_fill r n) = n) →
  send_envelope rel_id payload ref_id alert e = (e', Ok sent) →
  ∃ row frame record answer,
    db_rels (en_db e) !! rel_id = Some row
    ∧ gate_outbound (en_db e) rel_id row (payload_type payload) = Ok tt
    ∧ sent_app_seq sent = (next_out_seq (en_db e) rel_id).2
    ∧ send_record (en_net e) (rel_peer_onion row)
        (if rel_intro_pending row then Some (rel_our_qr_bytes row) else None) record alert = (en_net e', answer)
    ∧ first_sent (en_db e) (en_db e') rel_id
        (mkEnvelope (sent_msg_id sent) (sent_app_seq sent) (db_now (en_db e)) ref_id payload) record answer
    ∧ stored_ciphertext (en_db e') rel_id (sent_msg_id sent) = Some frame
    ∧ parse_record record = Ok frame
    ∧ (∀ k, k ≠ sent_msg_id sent → db_messages (en_db e') !! k = db_messages (en_db e) !! k
                                   ∧ db_outbox (en_db e') !! k = db_outbox (en_db e) !! k).
Proof.
  intros Hf (row & frame & record & answer & H1 & H2 & H3 & H0 & H4 & H5 & H6 & H7 & H8 & _)%send_envelope_Ok; [|done].
  exists row, frame, record, answer. split_and!; try done. intros k Hk. by rewrite H7, H8.
Qed.

(** The outbound gate: unless the session is alive, the relationship is
    open for the type (an inviter waits for acceptance, a closing one sends
    only its control frames), the peer advertised the capability and the
    chat rules allow it, a send is refused with the engine exactly as it
    was: no sequence number, no ciphertext, no traffic. *)
Theorem outbound_gate rel_id payload ref_id alert e row :
  db_rels (en_db e) !! rel_id = Some row →
  rel_session row ≠ SessBroken
  ∧ (rel_state row = "active"%string
     ∨ rel_state row = "request"%string ∧ rel_role row ≠ "inviter"%string)
  ∧ (close_state (en_db e) rel_id = None ∨ closing_exempt (payload_type payload) = true)
  ∧ allows (peer_caps (en_db e) rel_id) (payload_type payload) = true
  ∧ (∃ policy, load_policy (en_db e) rel_id = Ok policy ∧ policy_denies policy (payload_type payload) = false)
  ∨ ∃ x, send_envelope rel_id payload ref_id alert e = (e, Err x).
Proof.
  intros Hr. destruct (gate_outbound (en_db e) rel_id row (payload_type payload)) as [[]|x] eqn:Eg.
  - left. by apply gate_outbound_Ok.
  - right. exists x. by eapply send_envelope_refused.
Qed.

(** C14: The engine's policy calls refine the policy machine: proposing,
    accepting, declining, setting a capability and handling any inbound
    CHAT_POLICY, whether the call succeeds or fails on the way, leave in the
    store exactly the state the machine's operation computes from the state
    before, which the machine reaches by its own steps, and leave the policy
    of every other relationship alone. *)
Theorem engine_refines_policy_machine c rel_id e s :
  (∀ r, len (rng_id r) = 16) → call_ok c → is_u64 (db_now (en_db e)) →
  load_policy (en_db e) rel_id = Ok s → policy_state_wf s →
  let s' := call_spec c (rng_id (en_rng e)) (db_now (en_db e)) s in
  rtc policy_step s s' ∧ policy_moves rel_id e (run_call c rel_id e).1 s'.
Proof.
  intros Hid Hc Hn Hl Hw s'. assert (Hs : rtc policy_step s s') by by apply call_spec_steps.
  split; [done|]. apply steps_wf in Hs; [|done]. subst s'.
  destruct c as [ttl ss ad| | |cap_id on|env cp]; cbn [call_spec run_call] in *; rewrite ?bind_ret_state.
  - by apply propose_rules_moves.
  - by apply accept_rules_moves.
  - by apply decline_rules_moves.
  - by apply set_capability_moves.
  - by apply apply_chat_policy_moves.
Qed.

End Engine.

(** ** Fail-fast: a network that logs its connection attempts *)

Section FailFast.
Context {Sig Rng : Type}.
(** Which onions answer. *)
Context (alive : string → bool).

Definition log_send (log : list string) (onion : string) (packed : bytes)
    : list string * result TransportError unit :=
  (log ++ [onion], if alive onion then Ok tt else Err (TrSocks (Lit "connect failed"))).

Definition attempts (o : string) (log : list string) : nat := length (filter (λ x, x = o) log).

Definition logged_drain : list OutboxRow → gset string → Z → M (Sig := Sig) (Rng := Rng) Z :=
  drain_loop (λ _, false) (λ _, true) log_send.

Lemma attempts_snoc o log x : attempts o (log ++ [x]) = (attempts o log + if decide (x = o) then 1 else 0)%nat.
Proof. unfold attempts. rewrite filter_app, length_app. f_equal. rewrite filter_cons. by case_decide. Qed.

(** The engine's drain fails fast per peer: in one pass an onion that
    does not answer is contacted at most once, however many of its records
    are due, and not at all if it already failed in that pass. *)
Theorem drain_fail_fast rows failed n (e : Engine (Sig := Sig) (Rng := Rng)) o :
  alive o = false →
  (attempts o (en_net (logged_drain rows failed n e).1)
   ≤ attempts o (en_net e) + (if decide (o ∈ failed) then 0 else 1))%nat.
Proof.
  intros Ho. revert failed n e. induction rows as [|row rows IH]; intros failed n e; unfold logged_drain in *; cbn [drain_loop].
  { cbn. case_decide; lia. }
  unfold mbind at 1, get_db at 1. destruct (load_relationship _ _) as [rel|].
  2: { unfold mbind, put_db. etransitivity; [apply IH|]. cbn [en_net]. lia. }
  destruct (bool_decide (rel_peer_onion rel ∈ failed)) eqn:Ef.
  { unfold mbind, put_db. etransitivity; [apply IH|]. cbn [en_net]. lia. }
  apply bool_decide_eq_false in Ef. unfold mbind at 1, try_send. unfold send_record.
  destruct (pack _ _ _) as [packed|x].
  - unfold log_send at 1. destruct (alive (rel_peer_onion rel)) eqn:Ea.
    + assert (rel_peer_onion rel ≠ o) as Hne by congruence.
      unfold mbind, put_db, lift. cbn [en_db en_net].
      destruct (mark_transmitted _ _) as [db1|]; cbn [map_err].
      * etransitivity; [apply IH|]. cbn [en_net]. rewrite attempts_snoc, decide_False by done. lia.
      * cbn [fst en_net]. rewrite attempts_snoc, decide_False by done. case_decide; lia.
    + unfold mbind, put_db. etransitivity; [apply IH|]. cbn [en_net]. rewrite attempts_snoc.
      destruct (decide (rel_peer_onion rel = o)) as [<-|Hne].
      * rewrite (decide_True (P := _ ∈ {[_]} ∪ _)) by set_solver. rewrite decide_False by done. lia.
      * repeat case_decide; lia || set_solver.
  - unfold mbind, put_db. etransitivity; [apply IH|]. cbn [en_net]. repeat case_decide; lia || set_solver.
Qed.
End FailFast.

(** ** Witnesses: a toy ratchet, a silent network, a constant generator *)

Definition toy_id (r : Z) : bytes := be_bytes 16 (100 + r).
Definition toy_fill (r : Z) (n : nat) : bytes := replicate n (zb 0).
Definition toy_send (net : unit) (onion : string) (packed : bytes) : unit * result TransportError unit :=
  (net, Ok tt).

Lemma toy_fill_length r n : length (toy_fill r n) = n.
Proof. apply length_replicate. Qed.

Definition demo_engine (db : Db) : Engine (Sig := Z) (Net := unit) (Rng := Z) :=
  mkEngine db 0 tt 0 ∅ typing_new buffers_new ∅ drops_new.

Definition toy_send_envelope := send_envelope (Rng := Z) id toy_encrypt (λ _ : unit, false) (λ _, true)
  toy_send toy_id toy_fill Z.succ.

Definition demo_send := toy_send_envelope "rel" (PMsg (mkMsg [zb 104])) None true (demo_engine demo_db).

Lemma send_never_lost_witness :
  ∃ row frame record answer,
    db_rels demo_db !! "rel"%string = Some row
    ∧ gate_outbound demo_db "rel" row TMsg = Ok tt
    ∧ 1 = (next_out_seq demo_db "rel").2
    ∧ send_record (λ _ : unit, false) (λ _, true) toy_send tt (rel_peer_onion row)
        (if rel_intro_pending row then Some (rel_our_qr_bytes row) else None) record true
      = (en_net demo_send.1, answer)
    ∧ first_sent id demo_db (en_db demo_send.1) "rel"
        (mkEnvelope (toy_id 0) 1 (db_now demo_db) None (PMsg (mkMsg [zb 104]))) record answer
    ∧ stored_ciphertext (en_db demo_send.1) "rel" (toy_id 0) = Some frame
    ∧ parse_record record = Ok frame
    ∧ (∀ k, k ≠ toy_id 0 → db_messages (en_db demo_send.1) !! k = db_messages demo_db !! k
                           ∧ db_outbox (en_db demo_send.1) !! k = db_outbox demo_db !! k).
Proof.
  apply (send_never_lost id toy_encrypt (λ _ : unit, false) (λ _, true) toy_send toy_id toy_fill Z.succ
    "rel" (PMsg (mkMsg [zb 104])) None true (demo_engine demo_db) demo_send.1 (mkSent (toy_id 0) 1)).
  - apply toy_fill_length.
  - by vm_compute.
Defined.

Lemma outbound_gate_witness :
  rel_session demo_rel ≠ SessBroken
  ∧ (rel_state demo_rel = "active"%string
     ∨ rel_state demo_rel = "request"%string ∧ rel_role demo_rel ≠ "inviter"%string)
  ∧ (close_state demo_db "rel" = None ∨ closing_exempt TTyping = true)
  ∧ allows (peer_caps demo_db "rel") TTyping = true
  ∧ (∃ policy, load_policy demo_db "rel" = Ok policy ∧ policy_denies policy TTyping = false)
  ∨ ∃ x, toy_send_envelope "rel" (PTyping (mkTyping true)) None false (demo_engine demo_db)
         = (demo_engine demo_db, Err x).
Proof.
  apply (outbound_gate id toy_encrypt (λ _ : unit, false) (λ _, true) toy_send toy_id toy_fill Z.succ
    "rel" (PTyping (mkTyping true)) None false (demo_engine demo_db) demo_rel). by vm_compute.
Defined.

Definition demo_propose_env : Envelope := mkEnvelope demo_id1 4 1000 None (PChatPolicy demo_proposal.2).

Lemma engine_refines_policy_machine_witness :
  let s' := apply_propose policy_default demo_proposal.2 demo_id1 in
  rtc policy_step policy_default s'
  ∧ policy_moves "rel" (demo_engine demo_db)
      (run_call id toy_encrypt (λ _ : unit, false) (λ _, true) toy_send toy_id toy_fill Z.succ
         (CallInbound demo_propose_env demo_proposal.2) "rel" (demo_engine demo_db)).1 s'.
Proof.
  apply (engine_refines_policy_machine id toy_encrypt (λ _ : unit, false) (λ _, true) toy_send toy_id toy_fill
    Z.succ (CallInbound demo_propose_env demo_proposal.2) "rel" (demo_engine demo_db) policy_default).
  all: (by vm_compute) || done || by split_and!; vm_compute.
Defined.

Definition demo_resync_db : Db := set_rels demo_sender {["rel"%string := demo_rel]}.
Definition demo_want_all : ResyncReq := mkResyncReq 0 [] CAPS_LOCAL (replicate 32 (zb 0)).
Definition demo_resync := apply_resync_req id toy_encrypt (λ _ : unit, false) (λ _, true) toy_send toy_id
  toy_fill Z.succ "rel" demo_want_all (demo_engine demo_resync_db).


Definition only_dead (o : string) : bool := bool_decide (o ≠ "dead"%string).
Definition demo_logged : Engine (Sig := Z) (Net := list string) (Rng := Z) :=
  mkEngine demo_resync_db 0 [] 0 ∅ typing_new buffers_new ∅ drops_new.

Definition none_failed : gset string := ∅.
Definition demo_drained := logged_drain only_dead (due demo_resync_db 10) none_failed 0 demo_logged.

Lemma drain_fail_fast_witness :
  (attempts "dead" (en_net demo_drained.1)
   ≤ attempts "dead" (en_net demo_logged) + (if decide ("dead"%string ∈ none_failed) then 0 else 1))%nat.
Proof. by apply (drain_fail_fast only_dead (due demo_resync_db 10) none_failed 0 demo_logged "dead"). Defined.
