(* ===== verification/StickerEngine.v ===== *)
(** The sticker features of the engine: sending and serving items, packs and
    previews ([stickers/send.rs]) and receiving them ([stickers/inbound.rs]).
    The image crate, Curve25519 keys and XEdDSA are parameters. *)

From S2P Require Import Prelude Bin Limits Media RustStr Hex Payloads WireSticker StickerDocs Envelope Frame RateLimit Ledger Session EngineTypes StickerPending StickerStore Attach Engine.

Section StickerEngine.
Context {Sig Net Rng : Type}.
Context (nfc sha256 : bytes → bytes).
Context (message_encrypt : Sig → string → bytes → Z
                           → Sig * result SignalProtocolError (CiphertextType * bytes)).
Context (kill_switch online : Net → bool).
Context (sender_send : Net → string → bytes → Net * result TransportError unit).
Context (rng_id : Rng → bytes) (rng_fill : Rng → nat → bytes) (rng_next : Rng → Rng).
(** libsignal's keys and signatures, and the image crate. *)
Context (private_ok public_ok : bytes → bool).
Context (verify_signature : bytes → bytes → bytes → bool).
Context (calculate_signature : bytes → bytes → bytes → bytes).
Context {codecs : ImageCodecs}.

Local Abbreviation Engine := (@Engine Sig Net Rng).
Local Abbreviation M := (@M Sig Net Rng).
Local Abbreviation send_envelope :=
  (send_envelope nfc message_encrypt kill_switch online sender_send rng_id rng_fill rng_next).
Local Notation "x <- m ;; k" := (mbind m (λ x, k)) (at level 100, m at next level, right associativity).
Local Notation "m ;; k" := (mbind m (λ _, k)) (at level 100, k at level 200, right associativity).

(** ** Engine state *)

Definition get_pending : M PendingBuffers := λ e, (e, Ok (en_pending e)).
Definition put_pending (b : PendingBuffers) : M unit := λ e,
  (mkEngine (en_db e) (en_sig e) (en_net e) (en_rng e) (en_presence e) (en_typing e)
     b (en_rate e) (en_drops e), Ok tt).

(** [rate_allow]; a surface without a bucket does not reach it. *)
Definition rate_allow (surface : Surface) (rel_id : string) : M bool := λ e,
  match tables_check (en_rate e) (dr_limited (en_drops e)) surface rel_id (db_now (en_db e)) with
  | Some (t, c, pass) =>
      (mkEngine (en_db e) (en_sig e) (en_net e) (en_rng e) (en_presence e) (en_typing e)
         (en_pending e) t (mkDrops c (dr_unknown (en_drops e)) (dr_gated (en_drops e))), Ok pass)
  | None => (e, Ok false)
  end.

(** The random bytes a signature draws. *)
Definition random_bytes (n : nat) : M bytes := λ e,
  (mkEngine (en_db e) (en_sig e) (en_net e) (rng_next (en_rng e)) (en_presence e) (en_typing e)
     (en_pending e) (en_rate e) (en_drops e), Ok (rng_fill (en_rng e) n)).

(** ** [stickers/send.rs] *)

Record ItemWithPack := mkItemWithPack { iwp_item : StickerItemRow; iwp_pack : PackRef }.

(** [hex(sha256) LIKE hex || '%']: the hash starts with the given bytes. *)
Definition find_item (db : Db) (sha : bytes) : option ItemWithPack :=
  let row := if len sha =? 32 then item_by_sha db sha
             else first (λ r, sha `prefix_of` sr_sha256 r) (items db) in
  it ← row;
  info ← pack_info db (sr_pack_id it);
  Some (mkItemWithPack it
    (mkPackRef (sr_pack_id it) (in_pack_pk info) (in_kind info) (in_visibility info) (sr_item_id it)
       (sr_w it) (sr_h it))).

Definition send_sticker (rel_id : string) (pack_id : bytes) (item_id : Z) : M bytes :=
  db <- get_db ;;
  it <- lift (ok_or (repo_item db pack_id item_id) NotFound) ;;
  info <- lift (ok_or (pack_info db pack_id) NotFound) ;;
  let inline := if len (sr_bytes it) <=? INLINE_BYTES_MAX then Some (sr_bytes it) else None in
  sent <- send_envelope rel_id
    (PSticker (mkStickerItem (in_kind info) (in_visibility info) pack_id (in_pack_pk info) item_id
       (sr_w it) (sr_h it) (sr_sha256 it) inline)) None true ;;
  mret (sent_msg_id sent).

(** [(len.div_ceil(max)).max(1) as u16] *)
Definition plan_count (n max : Z) : Z := Z.max (div_ceil n max) 1 mod 2 ^ 16.

(** [for (index, piece) in bytes.chunks(max).enumerate()], each sent as the
    control message [mk index piece]. *)
Fixpoint send_pieces (rel_id : string) (mk : Z → bytes → StickerCtrl) (index : Z) (l : list bytes)
    : M unit :=
  match l with
  | [] => mret tt
  | piece :: l =>
      send_envelope rel_id (PStickerCtrl (mk (index mod 2 ^ 16) piece)) None false ;;
      send_pieces rel_id mk (index + 1) l
  end.

Definition chunked (bs : bytes) (max : Z) : list bytes := pieces (length bs) (Z.to_nat max) bs.

Definition serve_item (rel_id : string) (found : ItemWithPack) : M unit :=
  let bs := sr_bytes (iwp_item found) in
  let chunk_count := plan_count (len bs) ITEM_CHUNK_MAX in
  send_pieces rel_id
    (λ index piece, ItemBody (sr_sha256 (iwp_item found)) index chunk_count piece (Some (iwp_pack found)))
    0 (chunked bs ITEM_CHUNK_MAX).

Fixpoint push_prefixes (rel_id : string) (l : list bytes) : M unit :=
  match l with
  | [] => mret tt
  | prefix :: l =>
      db <- get_db ;;
      match find_item db prefix with
      | Some found => serve_item rel_id found
      | None => mret tt
      end ;;
      push_prefixes rel_id l
  end.

Definition push_inline_emoji (rel_id : string) (body : bytes) : M unit :=
  push_prefixes rel_id (extract body).

Definition answer_want_item (rel_id : string) (sha : bytes) : M unit :=
  pass <- rate_allow StickerServe rel_id ;;
  if negb pass then mret tt
  else
    db <- get_db ;;
    match find_item db sha with
    | Some found => serve_item rel_id found
    | None => mret tt
    end.

Definition refuse_pack (rel_id : string) (pack_id pack_pk : bytes) (reason : Z) : M unit :=
  send_envelope rel_id (PStickerCtrl (PackRefused pack_id pack_pk reason)) None false ;;
  mret tt.

Definition answer_want_pack (rel_id : string) (pack_id pack_pk : bytes) : M unit :=
  db <- get_db ;;
  match pack_info db pack_id with
  | None => refuse_pack rel_id pack_id pack_pk REFUSED_UNKNOWN
  | Some info =>
      if negb (bool_decide (in_pack_pk info = pack_pk))
      then refuse_pack rel_id pack_id pack_pk REFUSED_UNKNOWN
      else if in_visibility info =? VISIBILITY_PRIVATE
      then refuse_pack rel_id pack_id pack_pk REFUSED_PRIVATE
      else
        let '(db, serves) := note_pack_serve db rel_id (db_now db / 86400) in
        put_db db ;;
        if serves >? PACK_SERVES_PER_PEER_PER_DAY
        then refuse_pack rel_id pack_id pack_pk REFUSED_RATE_LIMITED
        else
          random <- random_bytes 64 ;;
          doc <- lift (pack_document private_ok public_ok calculate_signature db random pack_id) ;;
          match doc with
          | None => refuse_pack rel_id pack_id pack_pk REFUSED_UNKNOWN
          | Some blob =>
              let chunk_count := plan_count (len blob) PACK_CHUNK_MAX in
              send_pieces rel_id (λ index piece, PackBody pack_id pack_pk index chunk_count piece)
                0 (chunked blob PACK_CHUNK_MAX)
          end
  end.

Definition thumbs_of (l : list StickerItemRow) : list Thumb :=
  omap (λ r, (λ t, mkThumb (sr_item_id r) t) <$> ok (make_thumbnail (sr_bytes r))) l.

Definition answer_want_thumbs (rel_id : string) (pack_id pack_pk : bytes) : M unit :=
  pass <- rate_allow StickerServe rel_id ;;
  if negb pass then mret tt
  else
    db <- get_db ;;
    match pack_info db pack_id with
    | None => mret tt
    | Some info =>
        if negb (bool_decide (in_pack_pk info = pack_pk)) || (in_visibility info =? VISIBILITY_PRIVATE)
        then mret tt
        else
          match thumbs_of (items_for db pack_id) with
          | [] => mret tt
          | thumbs =>
              blob <- lift (map_err EWire (thumbs_encode
                (mkStickerThumbsDoc (in_title info) (in_kind info) (in_icon_item_id info) thumbs))) ;;
              let chunk_count := plan_count (len blob) PACK_CHUNK_MAX in
              send_pieces rel_id (λ index piece, ThumbsBody pack_id pack_pk index chunk_count piece)
                0 (chunked blob PACK_CHUNK_MAX)
          end
    end.

Definition fetch_pack (rel_id : string) (pack_id pack_pk : bytes) : M unit :=
  send_envelope rel_id (PStickerCtrl (WantPack pack_id pack_pk)) None false ;;
  mret tt.

Definition fetch_thumbs (rel_id : string) (pack_id pack_pk : bytes) : M unit :=
  send_envelope rel_id (PStickerCtrl (WantThumbs pack_id pack_pk)) None false ;;
  mret tt.

(** ** [stickers/inbound.rs] *)

Definition have_item (db : Db) (sha : bytes) : bool :=
  bool_decide (is_Some (item_by_sha db sha)) || bool_decide (is_Some (cache_get db sha)).

Definition have_item_prefix (db : Db) (prefix : bytes) : bool :=
  len (filter (λ r, prefix `prefix_of` sr_sha256 r) (items db))
  + len (filter (λ r, prefix `prefix_of` ci_sha256 r) (cache db)) >? 0.

Definition ack_sticker (rel_id : string) (sha : bytes) : M unit :=
  send_envelope rel_id (PStickerCtrl (Ack sha)) None false ;;
  mret tt.

Definition on_sticker (rel_id : string) (env : Envelope) (it : StickerItem) : M (list EngineEvent) :=
  db <- get_db ;;
  match si_bytes it with
  | Some bs =>
      if negb (bool_decide (sha256 bs = si_content_sha256 it)) then mret []
      else
        (if negb (have_item db (si_content_sha256 it)) then
           put_db (cache_put db (mkNewCachedItem (si_content_sha256 it) bs (si_w it) (si_h it) (si_kind it)
                     (Some (si_pack_id it)) (Some rel_id))) ;;
           ack_sticker rel_id (si_content_sha256 it)
         else mret tt) ;;
        mret [EvSticker rel_id (env_msg_id env) true]
  | None =>
      if have_item db (si_content_sha256 it) then mret [EvSticker rel_id (env_msg_id env) true]
      else
        send_envelope rel_id (PStickerCtrl (WantItem (si_content_sha256 it))) None false ;;
        mret [EvSticker rel_id (env_msg_id env) false]
  end.

(** The ITEM_BODY arm, once the item is reassembled. *)
Definition item_arrived (rel_id : string) (sha blob : bytes) (pack : option PackRef) : M unit :=
  if negb (bool_decide (sha256 blob = sha)) then mret tt
  else
    let '(w, h, kind, pack_id) :=
      match pack with
      | Some p => (pr_w p, pr_h p, pr_kind p, Some (pr_pack_id p))
      | None => (0, 0, KIND_STICKER, None)
      end in
    db <- get_db ;;
    (if negb (have_item db sha) then
       put_db (cache_put db (mkNewCachedItem sha blob w h kind pack_id (Some rel_id))) ;;
       ack_sticker rel_id sha
     else mret tt) ;;
    match pack with
    | Some p =>
        db <- get_db ;;
        if (pr_visibility p =? VISIBILITY_PUBLIC) && negb (bool_decide (is_Some (pack_info db (pr_pack_id p))))
        then fetch_pack rel_id (pr_pack_id p) (pr_pack_pk p)
        else mret tt
    | None => mret tt
    end.

Definition on_sticker_ctrl (rel_id : string) (ctrl : StickerCtrl) : M (list EngineEvent) :=
  t <- now ;;
  b <- get_pending ;;
  match ctrl with
  | Ack _ => mret []
  | WantItem sha => answer_want_item rel_id sha ;; mret []
  | ItemBody sha chunk_index chunk_count data pack =>
      let '(b, done_) := feed_item b (hex_encode sha) chunk_index chunk_count data t in
      put_pending b ;;
      match done_ with
      | None => mret []
      | Some blob => item_arrived rel_id sha blob pack ;; mret []
      end
  | WantPack pack_id pack_pk => answer_want_pack rel_id pack_id pack_pk ;; mret []
  | PackBody pack_id pack_pk chunk_index chunk_count data =>
      let '(b, done_) := feed_pack b (hex_encode pack_id) chunk_index chunk_count data t in
      put_pending b ;;
      match done_ with
      | None => mret []
      | Some blob =>
          db <- get_db ;;
          let '(db, r) := install_pack_blob public_ok verify_signature sha256 db blob pack_pk
                            (Some rel_id) true in
          put_db db ;;
          match r with
          | Ok id => mret [EvStickerPackInstalled id]
          | Err _ => mret []
          end
      end
  | PackRefused pack_id _ reason => mret [EvStickerPackRefused pack_id reason]
  | WantThumbs pack_id pack_pk => answer_want_thumbs rel_id pack_id pack_pk ;; mret []
  | ThumbsBody pack_id _ chunk_index chunk_count data =>
      let '(b, done_) := feed_thumbs b (str_bytes "thumbs:" ++ hex_encode pack_id)
                           chunk_index chunk_count data t in
      put_pending b ;;
      match done_ with
      | None => mret []
      | Some blob =>
          match thumbs_decode blob with
          | Ok doc => mret [EvStickerThumbs pack_id doc]
          | Err _ => mret []
          end
      end
  end.

Fixpoint fetch_prefixes (rel_id : string) (l : list bytes) : M unit :=
  match l with
  | [] => mret tt
  | prefix :: l =>
      db <- get_db ;;
      (if have_item_prefix db prefix then mret tt
       else
         pass <- rate_allow StickerFetch rel_id ;;
         if negb pass then mret tt
         else
           send_envelope rel_id (PStickerCtrl (WantItem prefix)) None false ;;
           mret tt) ;;
      fetch_prefixes rel_id l
  end.

Definition fetch_missing_emoji (rel_id : string) (body : bytes) : M unit :=
  fetch_prefixes rel_id (extract body).
End StickerEngine.
