(* ===== verification/Sends.v ===== *)
(** Sending text and media: [Engine::send_text] ([core/src/engine/send.rs]),
    the media gate [prepare_spec] and [Engine::send_attachment]
    ([core/src/attach/mod.rs]). *)

From S2P Require Import Prelude Bin Limits Media RustStr Payloads WireAttach Envelope Frame Policy Ledger Session EngineTypes Attach Engine StickerEngine.

Record AttachmentSpec := mkAttachmentSpec {
  as_media_class : Z;
  as_mime_hint : bytes;
  as_orig_ext : bytes;
  as_bytes : bytes;
  as_caption : bytes;
  as_view_once : bool;
}.

Definition class_for_mime (mime : bytes) : Z :=
  if bool_decide (str_bytes "video/" `prefix_of` mime) then CLASS_VIDEO else CLASS_IMAGE.

Section Sends.
Context {Sig Net Rng : Type}.
Context (nfc sha256 : bytes → bytes).
Context (message_encrypt : Sig → string → bytes → Z
                           → Sig * result SignalProtocolError (CiphertextType * bytes)).
Context (kill_switch online : Net → bool).
Context (sender_send : Net → string → bytes → Net * result TransportError unit).
Context (rng_id : Rng → bytes) (rng_fill : Rng → nat → bytes) (rng_next : Rng → Rng).
Context {codecs : ImageCodecs}.

Local Abbreviation M := (@M Sig Net Rng).
Local Abbreviation send_envelope :=
  (send_envelope nfc message_encrypt kill_switch online sender_send rng_id rng_fill rng_next).
Local Abbreviation push_inline_emoji :=
  (push_inline_emoji nfc message_encrypt kill_switch online sender_send rng_id rng_fill rng_next).
Local Notation "x <- m ;; k" := (mbind m (λ x, k)) (at level 100, m at next level, right associativity).
Local Notation "m ;; k" := (mbind m (λ _, k)) (at level 100, k at level 200, right associativity).

Definition send_text (rel_id : string) (body : bytes) (reply_to : option bytes) : M bytes :=
  if len body >? MAX_BODY_BYTES then throw (EditDenied "body too large")
  else
    msg <- lift (map_err EWire (msg_new body)) ;;
    sent <- send_envelope rel_id (PMsg msg) reply_to true ;;
    push_inline_emoji rel_id body ;;
    mret (sent_msg_id sent).

(** The ladder always has a result ([reencode_ladder]); the last branch is
    not reached. *)
Definition reencoded (bs : bytes) : result MediaError bytes :=
  match strip_and_reencode_image bs with
  | Some r => r
  | None => Err (EncodeError (Lit "ladder"))
  end.

Definition prepare_spec (spec : AttachmentSpec) : result EngineError AttachmentSpec :=
  let with_name mime ext bs :=
    mkAttachmentSpec (as_media_class spec) mime ext bs (as_caption spec) (as_view_once spec) in
  if as_media_class spec =? CLASS_IMAGE then
    match sniff (as_bytes spec) with
    | Jpeg | Png | Webp =>
        let* bs := map_err EMedia (reencoded (as_bytes spec)) in
        Ok (if bool_decide ([zb 255; zb 216] `prefix_of` bs)
            then with_name (str_bytes "image/jpeg") (str_bytes "jpg") bs
            else with_name (str_bytes "image/png") (str_bytes "png") bs)
    | Gif => Ok (with_name (str_bytes "image/gif") (str_bytes "gif") (as_bytes spec))
    | other => Err (EMedia (Unsupported (kind_as_str other)))
    end
  else if as_media_class spec =? CLASS_VIDEO
  then Ok (with_name (as_mime_hint spec) (str_bytes "mp4") (as_bytes spec))
  else Ok spec.

Fixpoint send_chunks (rel_id : string) (l : list AttachChunk) : M unit :=
  match l with
  | [] => mret tt
  | c :: l => send_envelope rel_id (PAttachChunk c) None false ;; send_chunks rel_id l
  end.

(** The index of a chunk on the wire: [index as u16]. *)
Definition wire_index (c : AttachChunk) : AttachChunk :=
  mkAttachChunk (ac_head_id c) (ac_index c mod 2 ^ 16) (ac_pad c) (ac_data c).

Definition send_attachment (rel_id : string) (spec : AttachmentSpec) : M bytes :=
  spec <- lift (prepare_spec spec) ;;
  plan <- lift (plan_transfer sha256 (as_media_class spec) (as_mime_hint spec) (as_orig_ext spec)
                  (as_bytes spec) (as_caption spec) (as_view_once spec)) ;;
  let inline := if len (as_bytes spec) <=? INLINE_MAX then Some (as_bytes spec) else None in
  sent <- send_envelope rel_id (PAttachHead (mkAttachHeadPayload (plan_head plan) inline)) None true ;;
  let head_id := sent_msg_id sent in
  db <- get_db ;;
  expiry <- lift (map_err EStore (message_expiry db rel_id (db_now db))) ;;
  db <- lift (map_err EStore (insert_head db
    (mkNewAttachment head_id rel_id head_id DirOut (plan_head plan) expiry))) ;;
  put_db db ;;
  (if ah_chunk_count (plan_head plan) =? 0 then
     db <- lift (map_err EStore (put_chunk db head_id 0 (as_bytes spec) rel_id (as_i64 (db_now db)))) ;;
     put_db (update_head db head_id (λ r, with_progress r (ar_chunks r) true (ar_consumed r)))
   else mret tt) ;;
  send_chunks rel_id (wire_index <$> outbound_chunks head_id plan) ;;
  mret head_id.
End Sends.

(** ** The media gate *)

(** No still image leaves as it came: what [prepare_spec] lets through
    in the image class is either a GIF by its magic bytes, passed on
    unchanged, or the output of the re-encoder on the source's pixels, named
    by its own bytes. Anything else claimed to be an image is refused, and the
    client's file extension never survives for an image or a video. *)
Theorem media_gate {codecs : ImageCodecs} spec out :
  prepare_spec spec = Ok out →
  as_media_class out = as_media_class spec ∧ as_caption out = as_caption spec
  ∧ as_view_once out = as_view_once spec
  ∧ (as_media_class spec = CLASS_IMAGE →
      (sniff (as_bytes spec) = Gif ∧ as_bytes out = as_bytes spec ∧ as_orig_ext out = str_bytes "gif")
      ∨ (sniff (as_bytes spec) ∈ [Jpeg; Png; Webp]
         ∧ strip_and_reencode_image (as_bytes spec) = Some (Ok (as_bytes out))
         ∧ as_orig_ext out = if bool_decide ([zb 255; zb 216] `prefix_of` as_bytes out)
                             then str_bytes "jpg" else str_bytes "png"))
  ∧ (as_media_class spec = CLASS_VIDEO → as_bytes out = as_bytes spec ∧ as_orig_ext out = str_bytes "mp4").
Proof.
  unfold prepare_spec. destruct (Z.eqb_spec (as_media_class spec) CLASS_IMAGE) as [Hi|Hi].
  - assert (CLASS_IMAGE ≠ CLASS_VIDEO) as Hne by done.
    assert (Hre : ∀ bs, map_err EMedia (reencoded (as_bytes spec)) = Ok bs →
      strip_and_reencode_image (as_bytes spec) = Some (Ok bs)).
    { intros bs. unfold reencoded. by destruct (strip_and_reencode_image _) as [[]|]; intros; simplify_eq/=. }
    destruct (sniff (as_bytes spec)) eqn:Hs; try done.
    1-3: intros (bs & Hb%Hre & Ho)%rbind_Ok; apply Ok_inj in Ho;
      destruct (bool_decide (_ `prefix_of` bs)) eqn:Hx; subst out; cbn; rewrite Hx, Hi;
      (split; [done|]; split; [done|]; split; [done|]; split; [|done]);
      intros _; right; (split; [set_solver|]; split; [done|done]).
    intros [= <-]. cbn. rewrite Hi. (split; [done|]; split; [done|]; split; [done|]; split; [|done]).
    intros _. by left.
  - destruct (Z.eqb_spec (as_media_class spec) CLASS_VIDEO) as [Hv|Hv]; intros [= <-]; cbn; split_and!; done.
Qed.

Definition demo_spec : AttachmentSpec :=
  mkAttachmentSpec CLASS_IMAGE [] (str_bytes "heic") demo_png [] false.
Definition demo_prepared_spec : AttachmentSpec :=
  mkAttachmentSpec CLASS_IMAGE (str_bytes "image/png") (str_bytes "png")
    (be_bytes 4 600 ++ be_bytes 4 400) [] false.

Lemma media_gate_witness :
  prepare_spec (codecs := toy_codecs) demo_spec = Ok demo_prepared_spec
  ∧ as_caption demo_prepared_spec = as_caption demo_spec.
Proof.
  assert (H : prepare_spec (codecs := toy_codecs) demo_spec = Ok demo_prepared_spec)
    by (vm_compute; reflexivity).
  destruct (media_gate (codecs := toy_codecs) demo_spec demo_prepared_spec H) as (_ & H2 & _).
  split; [exact H|exact H2].
Defined.
