(* ===== verification/Profiles.v ===== *)
(** Profiles and preferences ([core/src/profile/mod.rs],
    [core/src/store/profiles.rs]) and the relationship listing they walk
    ([core/src/pairing/relationship.rs]). *)

From stdpp Require Import sorting.
From S2P Require Import Prelude Bin Limits RustStr Payloads Envelope Frame Policy Ledger Settings Session EngineTypes Engine.

(** ** [ProfilesRepository] *)

Definition put_profile (db : Db) (rel_id : string) (name jpeg : bytes) : Db :=
  set_profiles db (<[rel_id := mkProfileRow name jpeg (db_now db)]> (db_profiles db)).

Definition profile (db : Db) (rel_id : string) : option ProfileRow := db_profiles db !! rel_id.

Definition delete_profile (db : Db) (rel_id : string) : Db * bool :=
  (set_profiles db (delete rel_id (db_profiles db)), bool_decide (is_Some (profile db rel_id))).

(** ** The free functions of [profile/mod.rs] *)

Definition apply_inbound (db : Db) (rel_id : string) (p : Profile) : Db * bool :=
  let changed :=
    match profile db rel_id with
    | Some old => negb (bool_decide (pf_name old = profile_name p))
                  || negb (bool_decide (pf_jpeg old = profile_jpeg p))
    | None => true
    end in
  (if changed then put_profile db rel_id (profile_name p) (profile_jpeg p) else db, changed).

Definition with_prefs (r : RelRow) (prefs : option bytes) : RelRow :=
  mkRelRow (rel_role r) (rel_state r) (rel_peer_onion r) (rel_our_qr_bytes r) (rel_intro_pending r)
    (rel_session r) (rel_created_at r) (rel_peer_caps r) (rel_close_state r) (rel_history_cut r)
    (rel_policy r) prefs (rel_pairing r).

Definition note_peer_prefs (db : Db) (rel_id : string) (p : Pref) : result StoreError Db :=
  let* bs := map_err (λ _, Corrupt (Lit "pref")) (pref_encode p) in
  Ok (set_rels db (alter (λ r, with_prefs r (Some bs)) rel_id (db_rels db))).

Definition peer_prefs (db : Db) (rel_id : string) : result StoreError (option Pref) :=
  match db_rels db !! rel_id ≫= rel_peer_prefs with
  | None => Ok None
  | Some bs =>
      match pref_decode bs with
      | Ok p => Ok (Some p)
      | Err _ => Err (Corrupt (Lit "pref"))
      end
  end.

Definition our_profile (db : Db) : Profile :=
  mkProfile (default [] (setting db PROFILE_NAME ≫= from_utf8)) (default [] (setting db PROFILE_AVATAR)).

(** ** [list_relationships], [ORDER BY created_at ASC] *)

Definition rel_created_le (a b : string * RelRow) : Prop :=
  as_i64 (rel_created_at a.2) ≤ as_i64 (rel_created_at b.2).
#[export] Instance rel_created_le_dec : RelDecision rel_created_le := λ a b, Z_le_dec _ _.
#[export] Instance rel_created_le_total : Total rel_created_le.
Proof. intros a b. unfold rel_created_le. lia. Qed.
#[export] Instance rel_created_le_trans : Transitive rel_created_le.
Proof. intros a b c. unfold rel_created_le. lia. Qed.

Definition list_relationships (db : Db) : list (string * RelRow) :=
  merge_sort rel_created_le (map_to_list (db_rels db)).

Section Profiles.
Context {Sig Net Rng : Type}.
Context (nfc : bytes → bytes).
Context (message_encrypt : Sig → string → bytes → Z
                           → Sig * result SignalProtocolError (CiphertextType * bytes)).
Context (kill_switch online : Net → bool).
Context (sender_send : Net → string → bytes → Net * result TransportError unit).
Context (rng_id : Rng → bytes) (rng_fill : Rng → nat → bytes) (rng_next : Rng → Rng).

Local Abbreviation M := (@M Sig Net Rng).
Local Abbreviation send_envelope :=
  (send_envelope nfc message_encrypt kill_switch online sender_send rng_id rng_fill rng_next).
Local Notation "x <- m ;; k" := (mbind m (λ x, k)) (at level 100, m at next level, right associativity).
Local Notation "m ;; k" := (mbind m (λ _, k)) (at level 100, k at level 200, right associativity).

Definition set_our_profile (db : Db) (name jpeg : bytes) : result EngineError Db :=
  match normalize_name nfc name with
  | None => Err (EditDenied "profile name fails nfc/length/control rules")
  | Some normalized =>
      if len jpeg >? MAX_JPEG then Err (EditDenied "profile jpeg over 24 KiB")
      else Ok (set_setting (set_setting db PROFILE_NAME normalized) PROFILE_AVATAR jpeg)
  end.

Definition send_profile (rel_id : string) : M unit :=
  db <- get_db ;;
  let p := our_profile db in
  if bool_decide (profile_name p = []) then mret tt
  else send_envelope rel_id (PProfile p) None false ;; mret tt.

Definition send_profile_req (rel_id : string) : M unit :=
  send_envelope rel_id (PProfileReq mkProfileReq) None false ;; mret tt.

(** The loop of [broadcast_profile]. *)
Fixpoint broadcast_loop (rels : list (string * RelRow)) (sent : Z) : M Z :=
  match rels with
  | [] => mret sent
  | (rel_id, rel) :: rels =>
      if bool_decide (rel_state rel = "active"%string)
      then send_profile rel_id ;; broadcast_loop rels (sent + 1)
      else broadcast_loop rels sent
  end.

Definition broadcast_profile : M Z :=
  db <- get_db ;; broadcast_loop (list_relationships db) 0.

Definition send_prefs (rel_id : string) (pref : Pref) : M unit :=
  send_envelope rel_id (PPref pref) None false ;; mret tt.
End Profiles.
