(* ===== verification/Pairing.v ===== *)
(** Pairing ([core/src/pairing]): the offer and its single slot, the accept
    path with its cleanup, the routing of inbound frames, the request bucket,
    and the services re-hosted after a restart. The functions take the
    connection and the transport of the engine, so they run over its state;
    their failures are the engine's [Pairing] errors. The transport below
    them is the class [Hosting]. *)

From stdpp Require Import sorting.
From S2P Require Import Prelude Bin RustStr Limits Hex Frame Onion PairingQr Policy RateLimit Ephemeral Ledger Settings Sync Session SignalStores EngineTypes Persona StickerPending Engine Profiles.

Definition ROLE_INVITER : string := "inviter".
Definition ROLE_ACCEPTER : string := "accepter".
Definition STATE_REQUEST : string := "request".
Definition STATE_ACTIVE : string := "active".

(** What pairing asks of the transport's onion services. *)
Class Hosting (Net : Type) := {
  host_service_with_auth : Net → string → list string → Net * result TransportError string;
  remove_service : Net → string → Net * result TransportError unit;
  install_client_auth : Net → string → string → Net * result TransportError unit;
}.

Record Offer := mkOffer {
  of_qr_bytes : bytes; of_code : bytes; of_onion : string; of_expires_at : Z; of_service_id : string;
}.
Record Accepted := mkAccepted {
  ac_rel_id : string; ac_sas : bytes; ac_peer_onion : string; ac_onion : string;
}.
Record RequestInfo := mkRequestInfo {
  ri_rel_id : string; ri_sas : bytes; ri_peer_onion : string; ri_created_at : Z;
}.
Inductive Ingest :=
| RequestReceived (rel_id : string) (sas plaintext : bytes)
| IngMessage (rel_id : string) (plaintext : bytes)
| IngDuplicate
| IngSessionBroken (rel_id : string) (reason : Detail)
| IngDropped.

(** ** The tables *)

(** The columns [insert_relationship] leaves to their defaults. A time goes
    in [as i64] and comes back [as u64], so the rows here hold the [u64]. *)
Definition policy_columns_default : PolicyRow := mkPolicyRow 86400 3 31868 None 0.

Definition insert_relationship (db : Db) (rel_id role state service_id onion peer_onion : string)
    (peer_identity_key : bytes) (peer_client_auth_public our_client_auth_private : string)
    (our_nonce peer_nonce our_qr_bytes : bytes) (intro_pending : bool) (now : Z)
    : result PairingFailure Db :=
  if Z.of_nat (size (db_rels db)) >=? MAX_RELATIONSHIPS
  then Err (CapReached (Fmt "relationships ({})" [MAX_RELATIONSHIPS]))
  else
    match db_rels db !! rel_id with
    | Some _ => Err (PfSqlite (Lit "UNIQUE constraint failed: relationships.rel_id"))
    | None =>
        Ok (set_rels db (<[rel_id := mkRelRow role state peer_onion our_qr_bytes intro_pending SessActive
              now 0 None 0 policy_columns_default None
              (mkPairingCols service_id onion peer_identity_key peer_client_auth_public
                 our_client_auth_private our_nonce peer_nonce)]> (db_rels db)))
    end.

(** [try_into().unwrap_or([0u8; 32])] *)
Definition nonce32 (b : bytes) : bytes := if len b =? 32 then b else replicate 32 (zb 0).

(** The first row in the table's order, which is the order of insertion. *)
Definition load_relationship_by_service (db : Db) (service_id : string) : option (string * RelRow) :=
  head (filter (λ kv : string * RelRow, pc_service_id (rel_pairing kv.2) = service_id) (list_relationships db)).

Definition with_state (r : RelRow) (state : string) : RelRow :=
  mkRelRow (rel_role r) state (rel_peer_onion r) (rel_our_qr_bytes r) (rel_intro_pending r)
    (rel_session r) (rel_created_at r) (rel_peer_caps r) (rel_close_state r) (rel_history_cut r)
    (rel_policy r) (rel_peer_prefs r) (rel_pairing r).

Definition clear_intro_pending (db : Db) (rel_id : string) : Db :=
  set_rels db (alter (λ r, with_intro r false) rel_id (db_rels db)).

Definition in_bucket (kv : string * RelRow) : Prop :=
  rel_state kv.2 = STATE_REQUEST ∧ rel_role kv.2 = ROLE_INVITER.
#[export] Instance in_bucket_dec kv : Decision (in_bucket kv).
Proof. unfold in_bucket. apply _. Defined.

Definition pending_count (db : Db) : Z := Z.of_nat (size (filter in_bucket (db_rels db))).

Definition request_bucket_full (db : Db) (rel_id : string) : bool :=
  (pending_count db >=? MAX_PENDING_REQUESTS) && bool_decide (db_rels db !! rel_id = None).

Definition intro_throttled (db : Db) (service_id : string) (now_s : Z) : Db * bool :=
  let key := intro_at_key service_id in
  let last := default 0 (stamp db key) in
  if sat_sub now_s last <? INTRO_MIN_INTERVAL_SECS then (db, true)
  else (set_setting db key (be_bytes 8 now_s), false).

Section Pairing.
Context {Net Rng : Type} `{crypto : !PairingCrypto Rng} `{hosting : !Hosting Net}.
(** The transport below [send_record]. *)
Context (kill_switch online : Net → bool).
Context (sender_send : Net → string → bytes → Net * result TransportError unit).

Local Abbreviation Engine := (@Engine SignalTables Net Rng).
Local Abbreviation M := (@M SignalTables Net Rng).
Local Notation "x <- m ;; k" := (mbind m (λ x, k)) (at level 100, m at next level, right associativity).
Local Notation "m ;; k" := (mbind m (λ _, k)) (at level 100, k at level 200, right associativity).

(** ** Access to the engine's parts *)

Definition get_sig : M SignalTables := λ e, (e, Ok (en_sig e)).
Definition put_sig (t : SignalTables) : M unit := λ e,
  (mkEngine (en_db e) t (en_net e) (en_rng e) (en_presence e) (en_typing e) (en_pending e) (en_rate e)
     (en_drops e), Ok tt).
(** The generator's state, left [next] of it. *)
Definition draw (next : Rng → Rng) : M Rng := λ e,
  (mkEngine (en_db e) (en_sig e) (en_net e) (next (en_rng e)) (en_presence e) (en_typing e) (en_pending e)
     (en_rate e) (en_drops e), Ok (en_rng e)).
(** A transport call, its result a value. *)
Definition call_net {A} (f : Net → Net * result TransportError A) : M (result TransportError A) := λ e,
  let '(net, r) := f (en_net e) in
  (mkEngine (en_db e) (en_sig e) net (en_rng e) (en_presence e) (en_typing e) (en_pending e) (en_rate e)
     (en_drops e), Ok r).

(** [?] on each error type that converts to [PairingFailure]. *)
Definition pfail {A} (x : PairingFailure) : M A := throw (EPairing x).
Definition plift {A} (r : result PairingFailure A) : M A := lift (map_err EPairing r).
Definition try_net {A} (f : Net → Net * result TransportError A) : M A :=
  r <- call_net f ;; plift (map_err PfTransport r).
Definition try_session {A} (r : result SessionError A) : M A := plift (map_err PfSession r).
Definition try_payload {A} (r : result PairingError A) : M A := plift (map_err PfPayload r).

(** ** [pairing/mod.rs] *)

Definition service_id_for (identity_key : bytes) : string := bytes_str (hex_encode identity_key).
Definition fresh_nonce : M bytes := rng <- draw rng_next ;; mret (fill_bytes rng 32).
Definition b32 (raw : bytes) : string := bytes_str (base32_lower BASE32_NOPAD_encode raw).

Definition our_identity_key (t : SignalTables) (namespace : string) : result PairingFailure bytes :=
  match st_locals t !! (namespace, tt) with
  | None => Err (PfSqlite (Lit "Query returned no rows"))
  | Some (_, blob) =>
      match identity_pair_try_from blob with
      | None => Err (PfStore (Corrupt (Lit "identity keypair: {e}")))
      | Some keypair => Ok (kp_public keypair)
      end
  end.

(** [format!("{}.onion", hostname_from_raw(raw))] *)
Definition onion_of_raw (raw : bytes) : result PairingError string :=
  let* host := map_err (λ _, Invalid (Lit "onion: {e}"))
                 (hostname_from_raw BASE32_NOPAD_encode sha3_256 raw) in
  Ok (bytes_str (host ++ ONION_SUFFIX)).

Definition verify (p : PairingPayload) (now : Z) (enforce_expiry : bool) : result PairingError unit :=
  qr_verify identity_key_try_from verify_signature BASE32_NOPAD_encode sha3_256 p now enforce_expiry.

Definition rel_id_of (our_ik their_ik : bytes) : string :=
  bytes_str (hex_encode (relationship_id sha256 our_ik their_ik)).

(** Our signed payload for a hosted onion. *)
Definition our_payload (persona : Persona) (onion : string) (auth : ClientAuthKeys) (nonce : bytes)
    (expires_at : Z) : M PairingPayload :=
  raw <- plift (map_err PfTransport (raw_from_hostname BASE32_NOPAD_decode sha3_256 (str_bytes onion))) ;;
  auth_public <- plift (map_err PfTransport (public_bytes auth)) ;;
  rng <- draw rng_next ;;
  try_payload (qr_sign (λ body, calculate_signature (kp_private (pe_identity persona)) body rng)
    (from_bundle (persona_bundle persona) raw auth_public nonce expires_at)).

(** ** [pairing/offer.rs] *)

Definition load_pending (db : Db) : option PendingRow := db_pending db.

Definition clear_pending : M unit :=
  db <- get_db ;;
  match load_pending db with
  | None => mret tt
  | Some pending =>
      call_net (λ net, remove_service net (pp_service_id pending)) ;;
      db <- get_db ;;
      put_db (set_pending db None) ;;
      t <- get_sig ;;
      put_sig (delete_namespace t PENDING_NAMESPACE)
  end.

Definition sweep_expired_offer (now : Z) : M unit :=
  db <- get_db ;;
  if from_option (λ p, pp_expires_at p <=? now) false (load_pending db) then clear_pending else mret tt.

Definition abort_offer : M unit := clear_pending.

Definition offer (now : Z) : M Offer :=
  sweep_expired_offer now ;;
  clear_pending ;;
  rng <- draw persona_draws ;;
  persona <- try_session (generate_persona rng) ;;
  rng <- draw rng_next ;;
  let client_auth := client_auth_generate rng in
  nonce <- fresh_nonce ;;
  let service_id := service_id_for (kp_public (pe_identity persona)) in
  onion <- try_net (λ net, host_service_with_auth net service_id []) ;;
  let expires_at := wrap64 (now + OFFER_TTL_SECONDS) in
  payload <- our_payload persona onion client_auth nonce expires_at ;;
  let qr_bytes := qr_encode payload in
  t <- get_sig ;;
  t <- try_session (store_persona t PENDING_NAMESPACE persona) ;;
  put_sig t ;;
  db <- get_db ;;
  match db_pending db with
  | Some _ => pfail (PfSqlite (Lit "UNIQUE constraint failed: pending_pairing.id"))
  | None =>
      put_db (set_pending db (Some (mkPendingRow service_id onion qr_bytes
                (bytes_str (private_b32 client_auth)) expires_at))) ;;
      mret (mkOffer qr_bytes (encode_code bs58_encode qr_bytes) onion expires_at service_id)
  end.

(** ** [pairing/accept.rs] *)

Definition accept_inner (payload : PairingPayload) (persona : Persona) (rel_id service_id peer_onion : string)
    (our_client_auth : ClientAuthKeys) (our_nonce : bytes) (now : Z) : M Accepted :=
  our_onion <- try_net (λ net, host_service_with_auth net service_id [b32 (qp_client_auth_public payload)]) ;;
  try_net (λ net, install_client_auth net peer_onion (bytes_str (private_b32 our_client_auth))) ;;
  t <- get_sig ;;
  t <- try_session (store_persona t rel_id persona) ;;
  put_sig t ;;
  bundle <- try_payload (to_bundle payload) ;;
  rng <- draw rng_next ;;
  t <- get_sig ;;
  let '(t, r) := process_bundle t rel_id bundle now rng in
  put_sig t ;;
  try_session r ;;
  ours <- our_payload persona our_onion our_client_auth our_nonce (wrap64 (now + OFFER_TTL_SECONDS)) ;;
  let our_qr_bytes := qr_encode ours in
  db <- get_db ;;
  db <- plift (insert_relationship db rel_id ROLE_ACCEPTER STATE_ACTIVE service_id our_onion peer_onion
                 (qp_identity_key payload) (b32 (qp_client_auth_public payload))
                 (bytes_str (private_b32 our_client_auth)) our_nonce (qp_nonce payload) our_qr_bytes true now) ;;
  put_db db ;;
  mret (mkAccepted rel_id
          (sas sha256 (kp_public (pe_identity persona)) our_nonce (qp_identity_key payload) (qp_nonce payload))
          peer_onion our_onion).

(** The cleanup of a failed [accept_inner]. *)
Definition accept_cleanup (service_id rel_id : string) : M unit :=
  call_net (λ net, remove_service net service_id) ;;
  t <- get_sig ;;
  put_sig (delete_namespace t rel_id).

Definition or_cleanup {A} (m : M A) (cleanup : M unit) : M A := λ e,
  match m e with
  | (e, Ok a) => (e, Ok a)
  | (e, Err x) => ((cleanup e).1, Err x)
  end.

Definition is_own_offer (db : Db) (payload : PairingPayload) : bool :=
  match load_pending db with
  | None => false
  | Some pending =>
      match qr_decode (pp_qr_bytes pending) with
      | Err _ => false
      | Ok our_offer => bool_decide (qp_identity_key our_offer = qp_identity_key payload)
      end
  end.

Definition accept (qr_bytes : bytes) (now : Z) : M Accepted :=
  payload <- try_payload (qr_decode qr_bytes) ;;
  try_payload (verify payload now true) ;;
  db <- get_db ;;
  if is_own_offer db payload then pfail SelfPairing
  else
    rng <- draw persona_draws ;;
    persona <- try_session (generate_persona rng) ;;
    let our_ik := kp_public (pe_identity persona) in
    let rel_id := rel_id_of our_ik (qp_identity_key payload) in
    match load_relationship db rel_id with
    | Some _ => pfail ContactExists
    | None =>
        rng <- draw rng_next ;;
        let our_client_auth := client_auth_generate rng in
        our_nonce <- fresh_nonce ;;
        let service_id := service_id_for our_ik in
        peer_onion <- try_payload (onion_of_raw (qp_onion payload)) ;;
        or_cleanup (accept_inner payload persona rel_id service_id peer_onion our_client_auth our_nonce now)
          (accept_cleanup service_id rel_id)
    end.

Definition accept_code (code : bytes) (now : Z) : M Accepted :=
  qr_bytes <- try_payload (decode_code bs58_decode code) ;; accept qr_bytes now.

(** ** [pairing/ingest.rs] *)

(** [session::decrypt] with both of libsignal's decryptions. *)
Definition run_decrypt (rel_id : string) (frame : bytes) (now : Z) : M (result SessionError bytes) := λ e,
  let '(db, t, r) := decrypt message_parses message_decrypt sha256 (en_db e) (en_sig e) rel_id frame now in
  (mkEngine db t (en_net e) (en_rng e) (en_presence e) (en_typing e) (en_pending e) (en_rate e)
     (en_drops e), Ok r).

Definition note_intro_limited : M unit := λ e,
  let d := en_drops e in
  (mkEngine (en_db e) (en_sig e) (en_net e) (en_rng e) (en_presence e) (en_typing e) (en_pending e)
     (en_rate e) (mkDrops (note_limited (dr_limited d) Intro) (dr_unknown d) (dr_gated d)), Ok tt).

(** The intro, verified but without its expiry, bound to the pre-key
    message it rides on: the payload, the sender's key and the ciphertext. *)
Definition checked_intro (intro : option bytes) (record : bytes) (now : Z)
    : option (PairingPayload * bytes * bytes) :=
  match intro with
  | None => None
  | Some intro_bytes =>
      match (let* p := qr_decode intro_bytes in let* _ := verify p now false in Ok p) with
      | Err _ => None
      | Ok payload =>
          match parse_record record with
          | Err _ => None
          | Ok frame =>
              match parse_prekey_frame frame with
              | Err _ => None
              | Ok (their_ik, prekey) =>
                  if bool_decide (their_ik = qp_identity_key payload) then Some (payload, their_ik, prekey)
                  else None
              end
          end
      end
  end.

(** From the migrated persona on: the decryption, and either the restored
    offer or the new relationship. *)
Definition open_request (pending : PendingRow) (payload : PairingPayload) (our_ik their_ik prekey : bytes)
    (rel_id : string) (now : Z) : M Ingest :=
  t <- get_sig ;;
  let '(t, r) := message_decrypt_prekey t rel_id prekey in
  put_sig t ;;
  match r with
  | Err _ =>
      t <- get_sig ;;
      put_sig (delete_namespace (migrate_namespace t rel_id PENDING_NAMESPACE).1 rel_id) ;;
      mret IngDropped
  | Ok plaintext =>
      peer_onion <- try_payload (onion_of_raw (qp_onion payload)) ;;
      our_offer <- try_payload (qr_decode (pp_qr_bytes pending)) ;;
      db <- get_db ;;
      db <- plift (insert_relationship db rel_id ROLE_INVITER STATE_REQUEST (pp_service_id pending)
                     (pp_onion pending) peer_onion their_ik (b32 (qp_client_auth_public payload))
                     (pp_client_auth_private pending) (qp_nonce our_offer) (qp_nonce payload)
                     (pp_qr_bytes pending) false now) ;;
      put_db (set_pending db None) ;;
      try_net (λ net, install_client_auth net peer_onion (pp_client_auth_private pending)) ;;
      mret (RequestReceived rel_id (sas sha256 our_ik (qp_nonce our_offer) their_ik (qp_nonce payload)) plaintext)
  end.

Definition ingest_intro (pending : PendingRow) (intro : option bytes) (record : bytes) (now : Z) : M Ingest :=
  match checked_intro intro record now with
  | None => mret IngDropped
  | Some (payload, their_ik, prekey) =>
      t <- get_sig ;;
      our_ik <- plift (our_identity_key t PENDING_NAMESPACE) ;;
      if bool_decide (their_ik = our_ik) then mret IngDropped
      else
        db <- get_db ;;
        let '(db, throttled) := intro_throttled db (pp_service_id pending) now in
        put_db db ;;
        if throttled : bool then note_intro_limited ;; mret IngDropped
        else
          let rel_id := rel_id_of our_ik their_ik in
          db <- get_db ;;
          if request_bucket_full db rel_id then mret IngDropped
          else
            t <- get_sig ;;
            let '(t, moved) := migrate_namespace t PENDING_NAMESPACE rel_id in
            put_sig t ;;
            plift (map_err (λ _, PfStore (Corrupt (Lit "{e}"))) moved) ;;
            open_request pending payload our_ik their_ik prekey rel_id now
  end.

(** A frame of a relationship's own service. *)
Definition ingest_message (service_id : string) (record : bytes) (now : Z) : M Ingest :=
  db <- get_db ;;
  match load_relationship_by_service db service_id with
  | None => mret IngDropped
  | Some (rel_id, _) =>
      match parse_record record with
      | Err _ => mret IngDropped
      | Ok frame =>
          r <- run_decrypt rel_id frame now ;;
          mret match r with
               | Ok plaintext => IngMessage rel_id plaintext
               | Err SeDuplicate => IngDuplicate
               | Err (SeBroken reason) => IngSessionBroken rel_id reason
               | Err _ => IngDropped
               end
      end
  end.

Definition ingest_frame (service_id : string) (intro : option bytes) (record : bytes) (now : Z) : M Ingest :=
  db <- get_db ;;
  match load_pending db with
  | Some pending =>
      if bool_decide (pp_service_id pending = service_id) then ingest_intro pending intro record now
      else ingest_message service_id record now
  | None => ingest_message service_id record now
  end.

Definition run_session_encrypt (rel_id : string) (msg_id plaintext : bytes) (now : Z) : M bytes := λ e,
  let '(db, t, r) := encrypt message_encrypt (en_db e) (en_sig e) rel_id msg_id plaintext now in
  (mkEngine db t (en_net e) (en_rng e) (en_presence e) (en_typing e) (en_pending e) (en_rate e)
     (en_drops e), map_err (λ x, EPairing (PfSession x)) r).

(** ** [pairing/requests.rs] *)

Definition sas_for (db : Db) (t : SignalTables) (rel_id : string) : result PairingFailure bytes :=
  let* row := ok_or (load_relationship db rel_id) PfNotFound in
  let* our_ik := our_identity_key t rel_id in
  let p := rel_pairing row in
  Ok (sas sha256 our_ik (nonce32 (pc_our_nonce p)) (pc_peer_identity_key p) (nonce32 (pc_peer_nonce p))).

Definition accept_request (rel_id : string) : M unit :=
  db <- get_db ;;
  row <- plift (ok_or (load_relationship db rel_id) PfNotFound) ;;
  if negb (bool_decide (rel_state row = STATE_REQUEST)) then pfail NotARequest
  else
    try_net (λ net, host_service_with_auth net (pc_service_id (rel_pairing row))
                      [pc_peer_client_auth_public (rel_pairing row)]) ;;
    db <- get_db ;;
    put_db (set_rels db (alter (λ r, with_state r STATE_ACTIVE) rel_id (db_rels db))).

Fixpoint request_infos (db : Db) (t : SignalTables) (l : list (string * RelRow))
    : result PairingFailure (list RequestInfo) :=
  match l with
  | [] => Ok []
  | (rel_id, row) :: l =>
      let* code := sas_for db t rel_id in
      let* rest := request_infos db t l in
      Ok (mkRequestInfo rel_id code (rel_peer_onion row) (rel_created_at row) :: rest)
  end.

Definition pending_requests (db : Db) (t : SignalTables) : result PairingFailure (list RequestInfo) :=
  request_infos db t (filter (λ kv : string * RelRow, rel_state kv.2 = STATE_REQUEST) (list_relationships db)).

(** ** [pairing/messaging.rs] *)

Definition send_message (rel_id : string) (msg_id plaintext : bytes) (alert : bool) (now : Z) : M unit :=
  db <- get_db ;;
  row <- plift (ok_or (load_relationship db rel_id) PfNotFound) ;;
  if bool_decide (rel_session row = SessBroken)
  then pfail (PfSession (SeBroken (Lit "relationship is broken")))
  else if bool_decide (rel_role row = ROLE_INVITER) && bool_decide (rel_state row = STATE_REQUEST)
  then pfail NotARequest
  else
    frame <- run_session_encrypt rel_id msg_id plaintext now ;;
    rng <- draw rng_next ;;
    record <- plift (map_err PfWire (build_record (fill_bytes rng) frame)) ;;
    try_net (λ net, send_record kill_switch online sender_send net (rel_peer_onion row)
                      (if rel_intro_pending row then Some (rel_our_qr_bytes row) else None) record alert).

(** Which client-auth keys a relationship's service is re-hosted with. *)
Definition restored_auth (row : RelRow) : list string :=
  if bool_decide (rel_state row = STATE_REQUEST) && bool_decide (rel_role row = ROLE_INVITER) then []
  else [pc_peer_client_auth_public (rel_pairing row)].

Fixpoint restore_loop (l : list (string * RelRow)) : M unit :=
  match l with
  | [] => mret tt
  | (_, row) :: l =>
      try_net (λ net, host_service_with_auth net (pc_service_id (rel_pairing row)) (restored_auth row)) ;;
      try_net (λ net, install_client_auth net (rel_peer_onion row)
                        (pc_our_client_auth_private (rel_pairing row))) ;;
      restore_loop l
  end.

Definition restore_services : M unit :=
  db <- get_db ;;
  restore_loop (list_relationships db) ;;
  match load_pending db with
  | None => mret tt
  | Some pending => try_net (λ net, host_service_with_auth net (pp_service_id pending) []) ;; mret tt
  end.
End Pairing.
