(* ===== verification/Burn.v ===== *)
(** Erasing a relationship ([core/src/engine/burn.rs]) and the periodic
    maintenance ([Engine::sweep], [core/src/engine/drain.rs]). The session
    keys are behind the [SignalStore] interface; the transport's service
    removal is a parameter. *)

From S2P Require Import Prelude Bin Limits Payloads Envelope Frame Policy RateLimit Ephemeral Ledger Settings Session SignalStores EngineTypes StickerPending StickerStore Engine Profiles.

(** The statements of [burn_relationship] on the store, in order. *)
Definition burn_chunks (db : Db) (rel_id : string) : Db :=
  set_chunks db (filter (λ kv : bytes * Z * ChunkRow,
    ar_rel_id <$> db_attachments db !! kv.1.1 ≠ Some rel_id) (db_chunks db)).

Definition burn_tables (db : Db) (rel_id : string) : Db :=
  let db := set_messages db (filter (λ kv, mr_rel_id kv.2 ≠ rel_id) (db_messages db)) in
  let db := set_outbox db (filter (λ kv, ob_rel_id kv.2 ≠ rel_id) (db_outbox db)) in
  let db := set_attachments db (filter (λ kv, ar_rel_id kv.2 ≠ rel_id) (db_attachments db)) in
  let db := set_profiles db (delete rel_id (db_profiles db)) in
  let db := set_tombstones db (filter (λ kv, kv.1.1 ≠ rel_id) (db_tombstones db)) in
  let db := set_inbound_seqs db (filter (λ k, k.1 ≠ rel_id) (db_inbound_seqs db)) in
  set_serves db (filter (λ kv, kv.1.1 ≠ rel_id) (sd_serves (db_stickers db))).

Definition burn_rows (db : Db) (rel_id : string) : Db :=
  let db := burn_chunks db rel_id in
  let db := burn_tables db rel_id in
  let db := set_rels db (delete rel_id (db_rels db)) in
  let db := (delete_setting db (close_started_at_key rel_id)).1 in
  (delete_setting db (resync_req_at_key rel_id)).1.

Section Burn.
Context {Sig Net Rng : Type} `{!SignalStore Sig}.
(** [Transport::remove_service] *)
Context (remove_service : Net → string → Net * result TransportError unit).

Local Abbreviation Engine := (@Engine Sig Net Rng).
Local Abbreviation M := (@M Sig Net Rng).
Local Notation "x <- m ;; k" := (mbind m (λ x, k)) (at level 100, m at next level, right associativity).
Local Notation "m ;; k" := (mbind m (λ _, k)) (at level 100, k at level 200, right associativity).

(** A failed removal is logged and the burn goes on. *)
Definition drop_service (service_id : string) : M unit := λ e,
  (mkEngine (en_db e) (en_sig e) (remove_service (en_net e) service_id).1 (en_rng e) (en_presence e)
     (en_typing e) (en_pending e) (en_rate e) (en_drops e), Ok tt).

Definition wipe_session (rel_id : string) : M unit := λ e,
  (mkEngine (en_db e) (wipe_namespace rel_id (en_sig e)) (en_net e) (en_rng e) (en_presence e)
     (en_typing e) (en_pending e) (en_rate e) (en_drops e), Ok tt).

Definition forget_ram (rel_id : string) : M unit := λ e,
  (mkEngine (en_db e) (en_sig e) (en_net e) (en_rng e) (presence_forget (en_presence e) rel_id)
     (typing_forget (en_typing e) rel_id) (buffers_forget (en_pending e) rel_id) (en_rate e)
     (en_drops e), Ok tt).

Definition burn_relationship (rel_id : string) : M unit :=
  db <- get_db ;;
  match load_relationship db rel_id with
  | None => mret tt
  | Some row =>
      drop_service (pc_service_id (rel_pairing row)) ;;
      wipe_session rel_id ;;
      db <- get_db ;;
      put_db (burn_rows db rel_id) ;;
      forget_ram rel_id
  end.

(** ** [Engine::sweep] *)

(** The closing relationships, with their creation time. *)
Definition closing (db : Db) : list (string * Z) :=
  (λ kv : string * RelRow, (kv.1, rel_created_at kv.2))
    <$> filter (λ kv : string * RelRow, is_Some (rel_close_state kv.2)) (map_to_list (db_rels db)).

Definition is_settled (db : Db) (rel_id : string) : bool :=
  Z.of_nat (size (filter (λ kv : bytes * OutboxRow, ob_rel_id kv.2 = rel_id) (db_outbox db))) =? 0.

Definition burn_due (db : Db) (rel_id : string) (created_at : Z) : bool :=
  let started := default created_at (stamp db (close_started_at_key rel_id)) in
  is_settled db rel_id || (db_now db >=? wrap64 (started + CLOSE_SETTLE_SECS)).

Fixpoint burn_closing (l : list (string * Z)) : M (list EngineEvent) :=
  match l with
  | [] => mret []
  | (rel_id, created_at) :: l =>
      db <- get_db ;;
      if burn_due db rel_id created_at then
        burn_relationship rel_id ;;
        evs <- burn_closing l ;;
        mret (EvContactClosed rel_id :: evs)
      else burn_closing l
  end.

(** The RAM indicators that go dark. *)
Definition sweep_indicators : M (list EngineEvent) := λ e,
  let t := db_now (en_db e) in
  let '(pr, gone) := presence_sweep (en_presence e) t in
  let '(ty, dark) := typing_sweep (en_typing e) t in
  (mkEngine (en_db e) (en_sig e) (en_net e) (en_rng e) pr ty (en_pending e) (en_rate e) (en_drops e),
   Ok (((λ r, EvPresence r false false) <$> gone) ++ ((λ r, EvTyping r false) <$> dark))).

Definition sweep_pending : M unit := λ e,
  (mkEngine (en_db e) (en_sig e) (en_net e) (en_rng e) (en_presence e) (en_typing e)
     (buffers_sweep (en_pending e) (db_now (en_db e))) (en_rate e) (en_drops e), Ok tt).

Definition sweep : M (list EngineEvent) :=
  db <- get_db ;;
  put_db (sweep_expired db).1 ;;
  db <- get_db ;;
  closed <- burn_closing (closing db) ;;
  dark <- sweep_indicators ;;
  db <- get_db ;;
  put_db (foldl (λ db kv, (prune_tombstones db kv.1).1) db (list_relationships db)) ;;
  sweep_pending ;;
  db <- get_db ;;
  put_db (sweep_cache db) ;;
  mret (closed ++ dark).

(** [fail_outbound] *)
Definition fail_outbound (rel_id : string) : M Z :=
  db <- get_db ;;
  let '(db, n) := fail_relationship_outbound db rel_id in
  put_db db ;;
  mret n.
End Burn.

(** ** What belongs to a relationship

    The rows a burn is about, gathered per relationship. A chunk row has no
    relationship of its own, only the id of its head: the chunks of a
    relationship are those of the heads it had, so the set of heads is an
    argument of [slice] and is taken before the burn that deletes them. *)

Record RelSlice := mkRelSlice {
  sl_rel : option RelRow;
  sl_messages : gmap bytes MessageRow;
  sl_outbox : gmap bytes OutboxRow;
  sl_attachments : gmap bytes AttachmentRow;
  sl_chunks : gmap (bytes * Z) ChunkRow;
  sl_profile : option ProfileRow;
  sl_tombstones : gmap (string * bytes) Z;
  sl_seqs : gset (string * Z);
  sl_serves : gmap (string * Z) Z;
  sl_close_started : option bytes;
  sl_resync_req : option bytes;
}.

Definition slice_empty : RelSlice := mkRelSlice None ∅ ∅ ∅ ∅ None ∅ ∅ ∅ None None.

Definition heads_of (db : Db) (rel_id : string) : gset bytes :=
  dom (filter (λ kv : bytes * AttachmentRow, ar_rel_id kv.2 = rel_id) (db_attachments db)).

Definition slice (heads : gset bytes) (db : Db) (rel_id : string) : RelSlice :=
  mkRelSlice (db_rels db !! rel_id)
    (filter (λ kv, mr_rel_id kv.2 = rel_id) (db_messages db))
    (filter (λ kv, ob_rel_id kv.2 = rel_id) (db_outbox db))
    (filter (λ kv, ar_rel_id kv.2 = rel_id) (db_attachments db))
    (filter (λ kv : bytes * Z * ChunkRow, kv.1.1 ∈ heads) (db_chunks db))
    (db_profiles db !! rel_id)
    (filter (λ kv, kv.1.1 = rel_id) (db_tombstones db))
    (filter (λ k, k.1 = rel_id) (db_inbound_seqs db))
    (filter (λ kv, kv.1.1 = rel_id) (sd_serves (db_stickers db)))
    (setting db (close_started_at_key rel_id))
    (setting db (resync_req_at_key rel_id)).

Lemma filter_other `{FinMap K T} {A} (P Q : K * A → Prop)
    `{!∀ x, Decision (P x), !∀ x, Decision (Q x)} (m : T A) :
  (∀ i x, P (i, x) → Q (i, x)) → filter P (filter Q m) = filter P m.
Proof.
  intros HPQ. apply map_eq. intros i. apply option_eq. intros x.
  rewrite !map_lookup_filter_Some. naive_solver.
Qed.

Lemma filter_gone `{FinMap K T} {A} (P Q : K * A → Prop)
    `{!∀ x, Decision (P x), !∀ x, Decision (Q x)} (m : T A) :
  (∀ i x, P (i, x) → ¬ Q (i, x)) → filter P (filter Q m) = ∅.
Proof.
  intros HPQ. apply map_eq. intros i. rewrite lookup_empty. apply eq_None_not_Some.
  intros [x Hx]. rewrite !map_lookup_filter_Some in Hx. naive_solver.
Qed.

(** Settings keys of different kinds or relationships are different. *)
Lemma close_key_inj a b : close_started_at_key a = close_started_at_key b → a = b.
Proof. unfold close_started_at_key. apply (inj (String.append _)). Qed.
Lemma resync_key_inj a b : resync_req_at_key a = resync_req_at_key b → a = b.
Proof. unfold resync_req_at_key. apply (inj (String.append _)). Qed.
Lemma close_resync_key a b : close_started_at_key a ≠ resync_req_at_key b.
Proof. discriminate. Qed.

Lemma elem_of_heads_of db rel_id h :
  h ∈ heads_of db rel_id ↔ ar_rel_id <$> db_attachments db !! h = Some rel_id.
Proof.
  unfold heads_of. rewrite elem_of_dom, fmap_Some. unfold is_Some.
  setoid_rewrite map_lookup_filter_Some. cbn. naive_solver.
Qed.

(** The heads are read off the attachment rows of the slice. *)
Lemma slice_heads heads db db' rel_id :
  slice heads db' rel_id = slice heads db rel_id → heads_of db' rel_id = heads_of db rel_id.
Proof. intros H%(f_equal sl_attachments). cbn in H. unfold heads_of. by rewrite H. Qed.

Lemma slice_burned db rel_id : slice (heads_of db rel_id) (burn_rows db rel_id) rel_id = slice_empty.
Proof.
  unfold slice, slice_empty, burn_rows, burn_tables, burn_chunks, setting. cbn -[close_started_at_key resync_req_at_key].
  f_equal.
  - apply lookup_delete_eq.
  - by apply filter_gone; naive_solver.
  - by apply filter_gone; naive_solver.
  - by apply filter_gone; naive_solver.
  - apply filter_gone. cbn. intros [h i] c H%elem_of_heads_of Hne. by apply Hne.
  - apply lookup_delete_eq.
  - by apply filter_gone; naive_solver.
  - apply set_eq. intros [r s]. rewrite !elem_of_filter. set_solver.
  - by apply filter_gone; naive_solver.
  - rewrite lookup_delete_ne by (symmetry; apply close_resync_key). apply lookup_delete_eq.
  - apply lookup_delete_eq.
Qed.

Lemma slice_other db rel_id other : 
  other ≠ rel_id → slice (heads_of db other) (burn_rows db rel_id) other = slice (heads_of db other) db other.
Proof.
  intros Hne. unfold slice, burn_rows, burn_tables, burn_chunks, setting.
  cbn -[close_started_at_key resync_req_at_key]. f_equal.
  - by apply lookup_delete_ne.
  - apply filter_other. naive_solver.
  - apply filter_other. naive_solver.
  - apply filter_other. naive_solver.
  - apply filter_other. cbn. intros [h i] c H%elem_of_heads_of. cbn in *. rewrite H. congruence.
  - by apply lookup_delete_ne.
  - apply filter_other. naive_solver.
  - apply set_eq. intros [r s]. rewrite !elem_of_filter. cbn. naive_solver.
  - apply filter_other. naive_solver.
  - rewrite !lookup_delete_ne; [done| |by apply not_eq_sym, close_resync_key].
    by intros ->%close_key_inj.
  - rewrite !lookup_delete_ne; [done|apply close_resync_key|]. by intros ->%resync_key_inj.
Qed.

(** ** Reclaiming: what the periodic sweeps may do to the store *)

Record reclaims (db db' : Db) : Prop := {
  rc_rels : db_rels db' = db_rels db;
  rc_outbox : db_outbox db' = db_outbox db;
  rc_attachments : db_attachments db' = db_attachments db;
  rc_chunks : db_chunks db' = db_chunks db;
  rc_profiles : db_profiles db' = db_profiles db;
  rc_seqs : db_inbound_seqs db' = db_inbound_seqs db;
  rc_serves : sd_serves (db_stickers db') = sd_serves (db_stickers db);
  rc_settings : db_settings db' = db_settings db;
  rc_now : db_now db' = db_now db;
  rc_messages : db_messages db' ⊆ db_messages db;
  rc_tombstones : db_tombstones db' ⊆ db_tombstones db;
}.

#[export] Instance reclaims_preorder : PreOrder reclaims.
Proof.
  split.
  - intros db. by split.
  - intros a b c [] []. split; try congruence; by etrans.
Qed.

Lemma reclaims_sweep_expired db : reclaims db (sweep_expired db).1.
Proof. split; cbn; try done. apply map_filter_subseteq. Qed.

Lemma reclaims_prune db rel_id : reclaims db (prune_tombstones db rel_id).1.
Proof.
  split; cbn; try done. match goal with |- foldr _ _ ?l ⊆ _ => generalize l end.
  intros over. induction over as [|kv over IH]; cbn; [apply map_filter_subseteq|].
  etrans; [apply delete_subseteq|done].
Qed.

Lemma reclaims_prune_all (l : list (string * RelRow)) db :
  reclaims db (foldl (λ db kv, (prune_tombstones db kv.1).1) db l).
Proof.
  revert db. induction l as [|kv l IH]; intros db; cbn; [reflexivity|].
  etrans; [apply reclaims_prune|apply IH].
Qed.

Lemma reclaims_sweep_cache db : reclaims db (sweep_cache db).
Proof. by split. Qed.

Lemma filter_empty_sub `{FinMap K T} {A} (P : K * A → Prop) `{!∀ x, Decision (P x)} (m m' : T A) :
  m' ⊆ m → filter P m = ∅ → filter P m' = ∅.
Proof.
  intros Hs He. apply map_empty. intros i. apply eq_None_not_Some. intros [x Hx].
  apply map_lookup_filter_Some in Hx as [Hx HP].
  assert (filter P m !! i = Some x) as Hf.
  { apply map_lookup_filter_Some. split; [|done]. by eapply lookup_weaken. }
  by rewrite He, lookup_empty in Hf.
Qed.

Lemma reclaims_empty heads db db' rel_id :
  reclaims db db' → slice heads db rel_id = slice_empty → slice heads db' rel_id = slice_empty.
Proof.
  intros [R1 R2 R3 R4 R5 R6 R7 R8 R9 R10 R11]. unfold slice, slice_empty, setting.
  rewrite R1, R2, R3, R4, R5, R6, R7, R8. intros [=]. f_equal; try done; by eapply filter_empty_sub.
Qed.

(** What is empty stays empty when only chunks are deleted elsewhere. *)
Lemma slice_stays_empty heads heads' db db' rel_id :
  slice heads' db' rel_id = slice heads' db rel_id → db_chunks db' ⊆ db_chunks db →
  slice heads db rel_id = slice_empty → slice heads db' rel_id = slice_empty.
Proof.
  intros [= H1 H2 H3 H4 _ H5 H6 H7 H8 H9 H10] Hc [= E1 E2 E3 E4 E5 E6 E7 E8 E9 E10 E11].
  unfold slice, slice_empty. rewrite H1, H2, H3, H4, H5, H6, H7, H8, H9, H10.
  f_equal; try done. by eapply filter_empty_sub.
Qed.

(** Whether a relationship is due is read off its slice and the clock. *)
Lemma burn_due_slice heads db db' rel_id created :
  slice heads db rel_id = slice heads db' rel_id → db_now db = db_now db' →
  burn_due db rel_id created = burn_due db' rel_id created.
Proof.
  unfold slice, burn_due, is_settled, stamp. intros [=] Hn.
  unfold setting in *. congruence.
Qed.

Lemma burn_due_reclaims db db' rel_id created :
  reclaims db db' → burn_due db' rel_id created = burn_due db rel_id created.
Proof. intros []. unfold burn_due, is_settled, stamp, setting. congruence. Qed.

Section BurnFacts.
Context {Sig Net Rng : Type} `{!SignalStore Sig}.
Context (remove_service : Net → string → Net * result TransportError unit).
Local Abbreviation Engine := (@Engine Sig Net Rng).
Local Abbreviation burn := (burn_relationship (Rng := Rng) remove_service).

(** Everything the relationship has in [e] is gone in [e']: its rows, the
    chunks of its attachments, its session keys and its RAM indicators. *)
Definition erased (rel_id : string) (e e' : Engine) : Prop :=
  slice (heads_of (en_db e) rel_id) (en_db e') rel_id = slice_empty
  ∧ ¬ holds_namespace rel_id (en_sig e')
  ∧ en_presence e' !! rel_id = None
  ∧ tt_inbound (en_typing e') !! rel_id = None ∧ tt_last_sent (en_typing e') !! rel_id = None.

(** The relationship's rows and keys are the same in both states. *)
Definition untouched (rel_id : string) (e e' : Engine) : Prop :=
  slice (heads_of (en_db e) rel_id) (en_db e') rel_id = slice (heads_of (en_db e) rel_id) (en_db e) rel_id
  ∧ (holds_namespace rel_id (en_sig e') ↔ holds_namespace rel_id (en_sig e)).

Lemma burn_present rel_id e row :
  db_rels (en_db e) !! rel_id = Some row →
  ∃ e', burn rel_id e = (e', Ok tt) ∧ en_db e' = burn_rows (en_db e) rel_id ∧ erased rel_id e e'
    ∧ ∀ other, other ≠ rel_id → untouched other e e'.
Proof.
  intros Hr. eexists. split.
  { unfold burn_relationship, mbind at 1, get_db, load_relationship. rewrite Hr. reflexivity. }
  split; [done|]. split.
  - split; [exact (slice_burned (en_db e) rel_id)|]. split; [exact (wipe_namespace_gone rel_id (en_sig e))|].
    split_and!; exact (lookup_delete_eq _ _).
  - intros other Hne. split; [exact (slice_other (en_db e) rel_id other Hne)|].
    exact (wipe_namespace_other rel_id other (en_sig e) Hne).
Qed.

Lemma burn_absent rel_id e : db_rels (en_db e) !! rel_id = None → burn rel_id e = (e, Ok tt).
Proof. intros Hr. unfold burn_relationship, mbind, get_db, load_relationship. by rewrite Hr. Qed.

(** C18: Burning a known relationship always succeeds and leaves nothing of
    it: no row in the ledger, the outbox and the attachments, no chunk of any
    attachment it had before, no row in the profile, tombstone, sequence,
    serve counter and relationship tables or of its two settings, no session
    keys, no RAM indicator, whatever the transport answers. Every other
    relationship keeps its rows, the chunks of its attachments and its keys.
    Burning again changes nothing. *)
Theorem burn_erases rel_id e :
  is_Some (db_rels (en_db e) !! rel_id) →
  ∃ e', burn rel_id e = (e', Ok tt) ∧ erased rel_id e e'
    ∧ (∀ other, other ≠ rel_id → untouched other e e')
    ∧ burn rel_id e' = (e', Ok tt).
Proof.
  intros [row Hr]. destruct (burn_present rel_id e row Hr) as (e' & He & Hdb & Hg & Ho).
  exists e'. split_and!; [done|done|done|]. apply burn_absent.
  destruct Hg as [Hs _]. by injection Hs.
Qed.

(** ** The closing loop *)

Lemma burn_closing_spec l e :
  NoDup l.*1 → (∀ rel_id c, (rel_id, c) ∈ l → is_Some (db_rels (en_db e) !! rel_id)) →
  ∃ e' evs, burn_closing remove_service l e = (e', Ok evs) ∧ db_now (en_db e') = db_now (en_db e)
    ∧ db_chunks (en_db e') ⊆ db_chunks (en_db e)
    ∧ ∀ rel_id,
        (∀ c, (rel_id, c) ∈ l → burn_due (en_db e) rel_id c = true →
           slice (heads_of (en_db e) rel_id) (en_db e') rel_id = slice_empty
           ∧ ¬ holds_namespace rel_id (en_sig e') ∧ EvContactClosed rel_id ∈ evs)
        ∧ ((∀ c, (rel_id, c) ∈ l → burn_due (en_db e) rel_id c = false) → untouched rel_id e e').
Proof.
  revert e. induction l as [|[r c] l IH]; intros e Hnd Hin.
  { exists e, []. split_and!; [done|done|done|]. intros rel_id. split; [by intros ? ?%elem_of_nil|]. by split. }
  rewrite fmap_cons in Hnd. cbn in Hnd. apply NoDup_cons in Hnd as [Hr Hnd].
  assert (Hother : ∀ rel_id c', (rel_id, c') ∈ l → rel_id ≠ r).
  { intros rel_id c' Hl ->. apply Hr. apply list_elem_of_fmap. by exists (r, c'). }
  cbn [burn_closing]. unfold mbind at 1, get_db.
  destruct (burn_due (en_db e) r c) eqn:Hdue.
  - destruct (Hin r c ltac:(left)) as [row Hrow].
    destruct (burn_present r e row Hrow) as (e1 & He1 & Hdb1 & Hg1 & Ho1).
    destruct (IH e1 Hnd) as (e' & evs & He' & Hn & Hch & HIH).
    { intros rel_id c' Hl. rewrite Hdb1. unfold burn_rows. cbn.
      rewrite lookup_delete_ne by (symmetry; by eapply Hother). eapply Hin. by right. }
    exists e', (EvContactClosed r :: evs). unfold mbind. rewrite He1, He'.
    split_and!; [done|by rewrite Hn, Hdb1|etrans; [exact Hch|rewrite Hdb1; apply map_filter_subseteq]|].
    assert (Hkeep : ∀ rel_id, rel_id ≠ r → ∀ c', burn_due (en_db e1) rel_id c' = burn_due (en_db e) rel_id c').
    { intros rel_id Hne c'. eapply burn_due_slice; [apply (Ho1 rel_id Hne)|by rewrite Hdb1]. }
    intros rel_id. split.
    + intros c' [[= -> ->]|Hl]%elem_of_cons Hd.
      * destruct (HIH r) as [_ HIH2]. destruct HIH2 as [Hs Hk].
        { intros c' Hl. by destruct (Hother r c' Hl). }
        rewrite Hk. destruct Hg1 as (? & ? & _).
        split_and!; [by eapply slice_stays_empty|done|by left].
      * pose proof (Hother _ _ Hl) as Hne. destruct (HIH rel_id) as [HIH1 _].
        destruct (HIH1 c' Hl) as (? & ? & ?); [by rewrite Hkeep|].
        destruct (Ho1 rel_id Hne) as [Hs1 _]. rewrite <- (slice_heads _ _ _ _ Hs1).
        split_and!; [done|done|by right].
    + intros Hnone. assert (rel_id ≠ r) as Hne.
      { intros ->. rewrite (Hnone c ltac:(left)) in Hdue. done. }
      destruct (HIH rel_id) as [_ HIH2]. destruct HIH2 as [Hs Hk].
      { intros c' Hl. rewrite Hkeep by done. apply Hnone. by right. }
      destruct (Ho1 rel_id Hne) as [Hs1 Hk1]. rewrite (slice_heads _ _ _ _ Hs1) in Hs.
      split; [by rewrite Hs|by rewrite Hk].
  - destruct (IH e Hnd) as (e' & evs & He' & Hn & Hch & HIH).
    { intros rel_id c' Hl. eapply Hin. by right. }
    exists e', evs. split_and!; [done|done|done|]. intros rel_id. destruct (HIH rel_id) as [H1 H2]. split.
    + intros c' [[= -> ->]|Hl]%elem_of_cons Hd; [congruence|eauto].
    + intros Hnone. apply H2. intros c' Hl. apply Hnone. by right.
Qed.

Lemma elem_of_closing db rel_id c :
  (rel_id, c) ∈ closing db
  ↔ ∃ row, db_rels db !! rel_id = Some row ∧ is_Some (rel_close_state row) ∧ c = rel_created_at row.
Proof.
  unfold closing. rewrite list_elem_of_fmap. split.
  - intros ([k row] & [= -> ->] & [H1 H2]%list_elem_of_filter). apply elem_of_map_to_list in H2. eauto.
  - intros (row & Hr & Hc & ->). exists (rel_id, row). split; [done|].
    apply list_elem_of_filter. split; [done|]. by apply elem_of_map_to_list.
Qed.

Lemma closing_NoDup db : NoDup (closing db).*1.
Proof.
  unfold closing. rewrite <- list_fmap_compose.
  apply (sublist_NoDup _ (map_to_list (db_rels db)).*1); [apply NoDup_fst_map_to_list|].
  apply (fmap_sublist fst), sublist_filter.
Qed.

(** What a sweep did: the closing relationships that are due are gone and
    reported, the others keep their row. *)
Definition swept (e e' : Engine) (evs : list EngineEvent) : Prop :=
  ∀ rel_id row, db_rels (en_db e) !! rel_id = Some row →
    if bool_decide (is_Some (rel_close_state row)) && burn_due (en_db e) rel_id (rel_created_at row)
    then slice (heads_of (en_db e) rel_id) (en_db e') rel_id = slice_empty ∧ ¬ holds_namespace rel_id (en_sig e')
         ∧ EvContactClosed rel_id ∈ evs
    else db_rels (en_db e') !! rel_id = Some row
         ∧ (holds_namespace rel_id (en_sig e') ↔ holds_namespace rel_id (en_sig e)).

Lemma sweep_stages e :
  ∃ e1 closed dark e', sweep remove_service e = (e', Ok (closed ++ dark))
    ∧ burn_closing remove_service (closing (sweep_expired (en_db e)).1)
        (put_db (Sig := Sig) (Net := Net) (Rng := Rng) (sweep_expired (en_db e)).1 e).1 = (e1, Ok closed)
    ∧ en_sig e' = en_sig e1 ∧ reclaims (en_db e1) (en_db e').
Proof.
  set (e0 := (put_db (Sig := Sig) (Net := Net) (Rng := Rng) (sweep_expired (en_db e)).1 e).1).
  destruct (burn_closing_spec (closing (sweep_expired (en_db e)).1) e0) as (e1 & closed & H1 & _).
  { apply closing_NoDup. }
  { intros rel_id c (row & Hr & _)%elem_of_closing. by exists row. }
  unfold sweep, mbind at 1, get_db at 1. cbn beta iota.
  unfold mbind at 1. change (put_db (sweep_expired (en_db e)).1 e) with (e0, @Ok EngineError unit tt). cbn iota.
  unfold mbind at 1, get_db at 1. change (en_db e0) with (sweep_expired (en_db e)).1. cbn beta iota.
  unfold mbind at 1. rewrite H1. cbn iota.
  unfold mbind at 1, sweep_indicators.
  destruct (presence_sweep (en_presence e1) _) as [pr gone].
  destruct (typing_sweep (en_typing e1) _) as [ty dark]. cbn iota.
  eexists e1, closed, _, _. split; [reflexivity|]. split; [done|]. split; [done|].
  cbn [en_db fst mbind put_db get_db]. etrans; [apply reclaims_prune_all|apply reclaims_sweep_cache].
Qed.

Lemma sweep_swept e : ∃ e' evs, sweep remove_service e = (e', Ok evs) ∧ swept e e' evs.
Proof.
  destruct (sweep_stages e) as (e1 & closed & dark & e' & He & Hb & Hsig & Hrec).
  exists e', (closed ++ dark). split; [done|].
  set (db0 := (sweep_expired (en_db e)).1) in *.
  pose proof (reclaims_sweep_expired (en_db e)) as Hrec0. fold db0 in Hrec0.
  destruct (burn_closing_spec (closing db0) (put_db (Sig := Sig) (Net := Net) (Rng := Rng) db0 e).1)
    as (e1' & closed' & Hb' & _ & _ & Hspec).
  { apply closing_NoDup. }
  { intros rel_id c (row & Hr & _)%elem_of_closing. by exists row. }
  rewrite Hb in Hb'. injection Hb' as <- <-.
  intros rel_id row Hrow. destruct (Hspec rel_id) as [Hdue Hkeep].
  assert (Hin : ∀ c, (rel_id, c) ∈ closing db0 ↔ is_Some (rel_close_state row) ∧ c = rel_created_at row).
  { intros c. rewrite elem_of_closing, (rc_rels _ _ Hrec0), Hrow. naive_solver. }
  assert (Hd : ∀ c, burn_due db0 rel_id c = burn_due (en_db e) rel_id c)
    by (intros; by apply burn_due_reclaims).
  destruct (_ && _) eqn:Hcase.
  - apply andb_true_iff in Hcase as [Hc%bool_decide_eq_true Hb1].
    destruct (Hdue (rel_created_at row)) as (H1 & H2 & H3); [by apply Hin|by rewrite <- Hb1; apply Hd|].
    replace (heads_of (en_db e) rel_id) with (heads_of db0 rel_id)
      by (unfold heads_of; by rewrite (rc_attachments _ _ Hrec0)).
    rewrite Hsig. split_and!; [by eapply reclaims_empty|done|]. apply elem_of_app. by left.
  - destruct Hkeep as [Hs Hk].
    { intros c [Hc ->]%Hin. rewrite (bool_decide_true _ Hc) in Hcase. cbn in Hcase. rewrite <- Hcase. apply Hd. }
    rewrite Hsig. split; [|exact Hk]. rewrite (rc_rels _ _ Hrec).
    apply (f_equal sl_rel) in Hs. cbn [slice sl_rel en_db put_db fst] in Hs.
    rewrite Hs. by rewrite (rc_rels _ _ Hrec0).
Qed.

(** C19: Closing a contact ends: once [enter_closing] has marked an open
    relationship, the first sweep that sees its outbox empty or that runs
    [CLOSE_SETTLE_SECS] later, whatever happened in between to its queue,
    erases it and reports the close, as long as the clock stays below 2^64. *)
Theorem close_settles rel_id (e e1 : Engine) row0 (e2 : Engine) row :
  db_rels (en_db e) !! rel_id = Some row0 → rel_close_state row0 = None →
  is_u64 (db_now (en_db e)) → db_now (en_db e) + CLOSE_SETTLE_SECS ≤ u64_max →
  enter_closing rel_id e = (e1, Ok tt) →
  db_rels (en_db e2) !! rel_id = Some row → is_Some (rel_close_state row) →
  setting (en_db e2) (close_started_at_key rel_id) = setting (en_db e1) (close_started_at_key rel_id) →
  is_settled (en_db e2) rel_id = true ∨ db_now (en_db e) + CLOSE_SETTLE_SECS ≤ db_now (en_db e2) →
  (is_Some (close_state (en_db e1) rel_id))
  ∧ ∃ e3 evs, sweep remove_service e2 = (e3, Ok evs) ∧ EvContactClosed rel_id ∈ evs
    ∧ slice (heads_of (en_db e2) rel_id) (en_db e3) rel_id = slice_empty ∧ ¬ holds_namespace rel_id (en_sig e3).
Proof.
  intros Hr0 Hopen Hnow Hmax He1 Hr Hclosing Hstamp Hwhen.
  assert (Hcs : close_state (en_db e) rel_id = None) by (unfold close_state; by rewrite Hr0).
  unfold enter_closing, mbind, get_db in He1. rewrite Hcs in He1. cbn in He1.
  injection He1 as <-. split.
  { unfold close_state. cbn. rewrite lookup_alter_eq, Hr0. by eexists. }
  destruct (sweep_swept e2) as (e3 & evs & Hsw & Hspec). exists e3, evs. split; [done|].
  specialize (Hspec rel_id row Hr). rewrite bool_decide_true in Hspec by done.
  assert (burn_due (en_db e2) rel_id (rel_created_at row) = true) as Hdue.
  { unfold burn_due. destruct Hwhen as [->|Hlate]; [done|]. apply orb_true_iff. right.
    unfold stamp. rewrite Hstamp. cbn [en_db]. rewrite setting_set, decide_True by done.
    unfold base.mbind, option_bind.
    rewrite bool_decide_true by apply length_be_bytes. rewrite be_val_u64 by done.
    change (default _ (Some _)) with (db_now (en_db e)). unfold wrap64, CLOSE_SETTLE_SECS in *.
    rewrite Z.mod_small by (unfold is_u64, u64_max in *; lia). lia. }
  rewrite Hdue in Hspec. cbn in Hspec. destruct Hspec as (H1 & H2 & H3). split_and!; done.
Qed.
End BurnFacts.

(** ** Witnesses *)

Definition demo_burn_engine (db : Db) : Engine (Sig := SignalTables) (Net := unit) (Rng := Z) :=
  mkEngine db demo_persona tt 0 ∅ typing_new buffers_new ∅ drops_new.
Definition toy_remove (net : unit) (service_id : string) : unit * result TransportError unit :=
  (net, Err Offline).

Lemma demo_rel_row : db_rels (en_db (demo_burn_engine demo_db)) !! "rel"%string = Some demo_rel.
Proof. reflexivity. Defined.

(** The relationship holds one attachment of one chunk. *)
Definition demo_head_row : AttachmentRow :=
  mkAttachmentRow [zb 7] "rel" [zb 8] DirIn 0 [] 1 1 0 [] [] 0 [] [zb 1] true false None 1000.
Definition demo_attach_engine : Engine (Sig := SignalTables) (Net := unit) (Rng := Z) :=
  demo_burn_engine (set_chunks (set_attachments demo_db {[ [zb 7] := demo_head_row ]})
    {[ ([zb 7], 0) := mkChunkRow [zb 1] "rel" 1000 ]}).

Lemma burn_erases_witness :
  is_Some (db_chunks (en_db demo_attach_engine) !! ([zb 7], 0))
  ∧ ∃ e', burn_relationship toy_remove "rel" demo_attach_engine = (e', Ok tt)
    ∧ erased "rel" demo_attach_engine e'
    ∧ (∀ other, other ≠ "rel"%string → untouched other demo_attach_engine e')
    ∧ burn_relationship toy_remove "rel" e' = (e', Ok tt).
Proof.
  split; [eexists; vm_compute; reflexivity|].
  apply (burn_erases toy_remove "rel" demo_attach_engine). exists demo_rel. exact demo_rel_row.
Defined.

(** The contact is closed at 1000 and swept a minute later. *)
Definition demo_closing : Engine (Sig := SignalTables) (Net := unit) (Rng := Z) :=
  (enter_closing "rel" (demo_burn_engine demo_db)).1.
Definition demo_minute_later : Engine (Sig := SignalTables) (Net := unit) (Rng := Z) :=
  let db := en_db demo_closing in
  demo_burn_engine (mkDb 1060 (db_messages db) (db_outbox db) (db_inbound_seqs db) (db_tombstones db)
    (db_settings db) (db_ciphertexts db) (db_inbound_frames db) (db_attachments db) (db_chunks db)
    (db_rels db) (db_profiles db) (db_stickers db) (db_pending db)).

Lemma close_settles_witness :
  ∃ e3 evs, sweep toy_remove demo_minute_later = (e3, Ok evs) ∧ EvContactClosed "rel" ∈ evs
    ∧ slice (heads_of (en_db demo_minute_later) "rel") (en_db e3) "rel" = slice_empty.
Proof.
  destruct (close_settles toy_remove "rel" (demo_burn_engine demo_db) demo_closing demo_rel
    demo_minute_later (with_close demo_rel (Some "closing"%string)))
    as (_ & e3 & evs & H1 & H2 & H3 & _).
  - exact demo_rel_row.
  - reflexivity.
  - vm_compute. split; discriminate.
  - vm_compute. discriminate.
  - reflexivity.
  - reflexivity.
  - eexists. reflexivity.
  - reflexivity.
  - right. vm_compute. discriminate.
  - exists e3, evs. split; [exact H1|]. split; [exact H2|exact H3].
Defined.
