(* ===== verification/Writes.v ===== *)
(** The writes of the engine: every method changes the store only through
    the repository statements below. The relation [write] lists them, a
    method's effect is a sequence of them, and an invariant of the store is
    proved once, statement by statement. *)

From stdpp Require Import fin_map_dom.
From S2P Require Import Prelude Bin Limits Payloads WireResync WireAttach StickerDocs Envelope Frame Policy RateLimit Ephemeral View Ledger Settings Sync Session SignalStores EngineTypes StickerPending StickerStore Attach Messages Caps Engine StickerEngine Profiles Pairing Burn.

(** ** One statement *)

(** An update that leaves the columns of the request bucket alone. *)
Definition keeps_bucket (f : RelRow → RelRow) : Prop :=
  ∀ r, rel_state (f r) = rel_state r ∧ rel_role (f r) = rel_role r.

Inductive write : Db → Db → Prop :=
| w_seq db rel_id : write db (next_out_seq db rel_id).1
| w_broken db rel_id : write db (mark_broken db rel_id)
| w_cipher db msg_id rel_id frame :
    write db (set_caches db (<[msg_id := (rel_id, frame)]> (db_ciphertexts db)) (db_inbound_frames db))
| w_insert db m db' : insert_message db m = Ok db' → write db db'
| w_enqueue db i r b t db' : enqueue db i r b t = Ok db' → write db db'
| w_requeue db i r b t : write db (requeue db i r b t)
| w_dequeue db i : write db (dequeue db i).1
| w_attempt db i s : write db (note_attempt db i s)
| w_fail_expired db : write db (fail_expired db).1
| w_delivery db i s : write db (set_delivery db i s).1
| w_fail_outbound db rel_id : write db (fail_relationship_outbound db rel_id).1
| w_frame db rel_id hash t :
    write db (set_caches db (db_ciphertexts db) (<[(rel_id, hash) := t]> (db_inbound_frames db)))
| w_rel db rel_id (f : RelRow → RelRow) :
    keeps_bucket f → write db (set_rels db (alter f rel_id (db_rels db)))
| w_activate db rel_id : write db (set_rels db (alter (λ r, with_state r STATE_ACTIVE) rel_id (db_rels db)))
| w_new_rel db rel_id role state service onion peer ik pub priv nonce peer_nonce qr intro t db' :
    insert_relationship db rel_id role state service onion peer ik pub priv nonce peer_nonce qr intro t = Ok db' →
    (state = STATE_REQUEST → request_bucket_full db rel_id = false) → write db db'
| w_pending db p : write db (set_pending db p)
| w_setting db key v : write db (set_setting db key v)
| w_seen db rel_id s : write db (note_inbound_seq db rel_id s).1
| w_edited db i b s : write db (mark_edited db i b s).1
| w_tombstoned db i : write db (mark_tombstoned db i).1
| w_tombstone db rel_id i : write db (add_tombstone db rel_id i)
| w_erase db rel_id keep : write db (erase_history db rel_id keep).1
| w_read db i t : write db (mark_read db i t).1
| w_clamp db rel_id b : write db (clamp_message_expiry db rel_id b).1
| w_head db h db' : insert_head db h = Ok db' → write db db'
| w_chunk db h i d rel_id t db' : put_chunk db h i d rel_id t = Ok db' → write db db'
| w_progress db h chunks complete consumed :
    write db (update_head db h (λ r, with_progress r (chunks r) (complete r) (consumed r)))
| w_del_head db h : write db (delete_attachment db h)
| w_del_chunks db h : write db (delete_chunks db h)
| w_profile db rel_id name jpeg : write db (put_profile db rel_id name jpeg)
| w_cache db it : write db (cache_put db it)
| w_install db doc pk from_rel cached : write db (install_doc db doc pk from_rel cached).1
| w_serve db rel_id day : write db (note_pack_serve db rel_id day).1
| w_sweep_expired db : write db (sweep_expired db).1
| w_prune db rel_id : write db (prune_tombstones db rel_id).1
| w_sweep_cache db : write db (sweep_cache db).

Abbreviation writes := (rtc write).

(** ** The store's invariant *)

Record store_wf (db : Db) : Prop := {
  sw_ledger : ledger_wf db;
  sw_outbox : outbox_wf db;
  sw_heads : ∀ h r, db_attachments db !! h = Some r → ar_head_id r = h;
  sw_stickers : stickers_wf db;
  sw_rels : Z.of_nat (size (db_rels db)) ≤ MAX_RELATIONSHIPS;
  sw_requests : pending_count db ≤ MAX_PENDING_REQUESTS;
}.

Lemma size_alter {A} (f : A → A) (k : string) (m : gmap string A) : size (alter f k m) = size m.
Proof.
  rewrite <- !size_dom. f_equal. apply dom_alter_L.
Qed.

Lemma pending_alter db rel_id f : keeps_bucket f → pending_count (set_rels db (alter f rel_id (db_rels db))) = pending_count db.
Proof.
  intros Hf. unfold pending_count. cbn. rewrite <- !size_dom. do 2 f_equal. apply set_eq. intros k.
  rewrite !elem_of_dom. unfold is_Some. setoid_rewrite map_lookup_filter_Some.
  destruct (decide (k = rel_id)) as [->|Hk]; [rewrite lookup_alter_eq|by rewrite lookup_alter_ne].
  destruct (db_rels db !! rel_id) as [r|]; cbn; [|naive_solver]. destruct (Hf r) as [H1 H2].
  split; intros (r' & [= <-] & Hb); eexists; (split; [done|]); unfold in_bucket in *; cbn in *; congruence.
Qed.

Lemma pending_activate db rel_id :
  pending_count (set_rels db (alter (λ r, with_state r STATE_ACTIVE) rel_id (db_rels db))) ≤ pending_count db.
Proof.
  unfold pending_count. cbn. apply inj_le. rewrite <- !size_dom. apply subseteq_size. intros k.
  rewrite !elem_of_dom. unfold is_Some. setoid_rewrite map_lookup_filter_Some.
  destruct (decide (k = rel_id)) as [->|Hk]; [rewrite lookup_alter_eq|by rewrite lookup_alter_ne].
  destruct (db_rels db !! rel_id) as [r|]; cbn; [|naive_solver]. by intros (r' & [= <-] & [Hb _]).
Qed.

(** The bucket grows by one at most, and only below its cap. *)
Lemma pending_insert db rel_id r :
  db_rels db !! rel_id = None → (rel_state r = STATE_REQUEST → request_bucket_full db rel_id = false) →
  pending_count db ≤ MAX_PENDING_REQUESTS →
  pending_count (set_rels db (<[rel_id := r]> (db_rels db))) ≤ MAX_PENDING_REQUESTS.
Proof.
  intros Hn Hb Hc. unfold pending_count in *. cbn. destruct (decide (in_bucket (rel_id, r))) as [Hi|Hi].
  - rewrite map_filter_insert_True by done. rewrite map_size_insert_None.
    2:{ rewrite map_lookup_filter_None. by left. }
    assert (request_bucket_full db rel_id = false) as Hf by (apply Hb, Hi).
    unfold request_bucket_full, pending_count in Hf. rewrite bool_decide_true, andb_true_r in Hf by done. lia.
  - rewrite map_filter_insert_not' by naive_solver. done.
Qed.

(** The shapes a table update takes. *)
Section Keyed.
Context {A : Type} (key : A → bytes).
Definition keyed (m : gmap bytes A) : Prop := ∀ k r, m !! k = Some r → key r = k.

Lemma keyed_insert m k r : keyed m → key r = k → keyed (<[k := r]> m).
Proof. intros H Hk i x. rewrite lookup_insert_Some. intros [[<- <-]|[_ ?]]; auto. Qed.
Lemma keyed_alter m k f : keyed m → (∀ r, key (f r) = key r) → keyed (alter f k m).
Proof.
  intros H Hf i x. rewrite lookup_alter_Some. intros [(-> & y & Hy & ->)|[_ ?]]; [rewrite Hf|]; auto.
Qed.
Lemma keyed_fmap m f : keyed m → (∀ r, key (f r) = key r) → keyed (f <$> m).
Proof. intros H Hf i x. rewrite lookup_fmap_Some. intros (y & <- & Hy). rewrite Hf. auto. Qed.
Lemma keyed_filter m (P : bytes * A → Prop) `{!∀ x, Decision (P x)} : keyed m → keyed (filter P m).
Proof. intros Hm i x. rewrite map_lookup_filter_Some. intros [? _]. auto. Qed.
Lemma keyed_delete m k : keyed m → keyed (delete k m).
Proof. intros H i x. rewrite lookup_delete_Some. intros [_ ?]. auto. Qed.
End Keyed.

Create HintDb keyed.
#[export] Hint Resolve keyed_insert keyed_alter keyed_fmap keyed_filter keyed_delete : keyed.

Lemma put_item_frame db r db' : put_item db r = Ok db' → ∃ s, db' = set_stickers db s.
Proof.
  unfold put_item. repeat case_match; intros; simplify_eq; [|by eexists].
  exists (db_stickers db'). by destruct db'.
Qed.

Lemma put_items_frame rows db : ∃ s, (put_items db rows).1 = set_stickers db s.
Proof.
  revert db. induction rows as [|r rows IH]; intros db; cbn; [by exists (db_stickers db); destruct db|].
  destruct (put_item db r) as [db1|e] eqn:E; cbn; [|by exists (db_stickers db); destruct db].
  apply put_item_frame in E as [s ->]. destruct (IH (set_stickers db s)) as [s' ->]. by exists s'.
Qed.

(** Installing a pack writes the sticker tables only. *)
Lemma install_doc_frame db doc pk from_rel cached :
  ∃ s, (install_doc db doc pk from_rel cached).1 = set_stickers db s.
Proof.
  unfold install_doc. destruct (admit_pack _ _ _); cbn [fst]; [|by exists (db_stickers db); destruct db].
  edestruct put_items_frame as [s Hs]. rewrite Hs. by exists s.
Qed.

(** The obligations of a statement: the tables it leaves alone, and the one
    it updates by a shape that keeps the keys. *)
Lemma store_wf_iff db :
  store_wf db ↔ keyed mr_msg_id (db_messages db) ∧ keyed ob_msg_id (db_outbox db)
    ∧ keyed ar_head_id (db_attachments db) ∧ sticker_tables_wf (db_stickers db)
    ∧ Z.of_nat (size (db_rels db)) ≤ MAX_RELATIONSHIPS ∧ pending_count db ≤ MAX_PENDING_REQUESTS.
Proof. split; [by intros []|]. intros (? & ? & ? & ? & ? & ?). by split. Qed.

Ltac keyed_shape :=
  first [apply keyed_insert|apply keyed_alter|apply keyed_fmap|apply keyed_filter|apply keyed_delete];
  [assumption|..]; try (intros; repeat case_match; done).

(** The two caps on relationships. *)
Definition rels_wf (db : Db) : Prop :=
  Z.of_nat (size (db_rels db)) ≤ MAX_RELATIONSHIPS ∧ pending_count db ≤ MAX_PENDING_REQUESTS.

Lemma rels_wf_same db db' : db_rels db' = db_rels db → rels_wf db → rels_wf db'.
Proof. unfold rels_wf, pending_count. by intros ->. Qed.

Lemma rels_wf_alter db rel_id f :
  keeps_bucket f → rels_wf db → rels_wf (set_rels db (alter f rel_id (db_rels db))).
Proof. intros Hf [H1 H2]. split; [by cbn; rewrite size_alter|by rewrite pending_alter]. Qed.

Lemma rels_wf_insert db rel_id role state service onion peer ik pub priv nonce peer_nonce qr intro t db' :
  insert_relationship db rel_id role state service onion peer ik pub priv nonce peer_nonce qr intro t = Ok db' →
  (state = STATE_REQUEST → request_bucket_full db rel_id = false) → rels_wf db → rels_wf db'.
Proof.
  unfold insert_relationship. destruct (Z.geb_spec (Z.of_nat (size (db_rels db))) MAX_RELATIONSHIPS); [done|].
  destruct (db_rels db !! rel_id) eqn:Hn; [done|]. intros [= <-] Hb [H1 H2]. split.
  - cbn. rewrite map_size_insert_None by done. lia.
  - by apply pending_insert.
Qed.

Lemma write_rels_wf db db' : write db db' → rels_wf db → rels_wf db'.
Proof.
  intros Hw. destruct Hw; unfold insert_message, enqueue, insert_head, put_chunk in *;
    repeat (case_match; try discriminate); simplify_eq; try done; try by apply rels_wf_same.
  - by apply (rels_wf_alter db rel_id).
  - by apply rels_wf_alter.
  - intros [H1 H2]. split; [by cbn; rewrite size_alter|]. etrans; [apply pending_activate|done].
  - by eapply rels_wf_insert.
  - apply rels_wf_same. unfold mark_edited. by repeat case_match.
  - apply rels_wf_same. unfold mark_read. by repeat case_match.
  - apply rels_wf_same. unfold cache_put. by repeat case_match.
  - apply rels_wf_same. by destruct (install_doc_frame db doc pk from_rel cached) as [s ->].
Qed.

(** A write keeps the invariant. *)
Lemma write_wf db db' : write db db' → store_wf db → store_wf db'.
Proof.
  intros Hw Hwf. pose proof Hwf as Hwf0. revert Hwf. rewrite !store_wf_iff.
  intros (H1 & H2 & H3 & H4 & Hr). pose proof (write_rels_wf _ _ Hw Hr) as Hr'. unfold rels_wf in Hr'.
  cut (keyed mr_msg_id (db_messages db') ∧ keyed ob_msg_id (db_outbox db')
    ∧ keyed ar_head_id (db_attachments db') ∧ sticker_tables_wf (db_stickers db')); [tauto|]. clear Hr Hr'.
  destruct Hw; unfold insert_message, enqueue, insert_head, put_chunk, insert_relationship in *;
    repeat (case_match; try discriminate); simplify_eq; try (split_and!; assumption);
    try (split_and!; cbn; first [assumption|keyed_shape]).
  - unfold mark_edited. repeat case_match; cbn; split_and!; try assumption. apply keyed_insert; [done|].
    cbn. by apply H1.
  - unfold mark_read. repeat case_match; cbn; split_and!; try assumption. apply keyed_insert; [done|].
    cbn. by apply H1.
  - pose proof (cache_put_wf db it (sw_stickers _ Hwf0)) as Hs. unfold stickers_wf in Hs.
    split_and!; [..|exact Hs]; unfold cache_put; case_match; assumption.
  - destruct (install_doc db doc pk from_rel cached) as [db' r] eqn:E.
    pose proof (install_doc_wf _ _ _ _ _ _ _ E (sw_stickers _ Hwf0)) as Hs.
    destruct (install_doc_frame db doc pk from_rel cached) as [s Hf]. rewrite E in Hf. cbn [fst] in *. subst db'.
    split_and!; try assumption.
  - by destruct H4; split_and!; cbn; try assumption; split.
  - split_and!; try assumption. exact (sweep_cache_wf db (sw_stickers _ Hwf0)).
Qed.

Lemma writes_wf db db' : writes db db' → store_wf db → store_wf db'.
Proof. induction 1; eauto using write_wf. Qed.

(** A write only adds to the sequence table, and leaves the clock. *)
Lemma write_seqs db db' : write db db' → db_inbound_seqs db ⊆ db_inbound_seqs db' ∧ db_now db' = db_now db.
Proof.
  intros []; unfold insert_message, enqueue, insert_head, put_chunk, insert_relationship in *;
    repeat (case_match; try discriminate); simplify_eq; try by (split; [done|]).
  - cbn. split; [set_solver|done].
  - unfold mark_edited. by repeat case_match.
  - unfold mark_read. by repeat case_match.
  - unfold cache_put. by repeat case_match.
  - by destruct (install_doc_frame db0 doc pk from_rel cached) as [s ->].
Qed.

Lemma writes_seqs db db' : writes db db' → db_inbound_seqs db ⊆ db_inbound_seqs db' ∧ db_now db' = db_now db.
Proof.
  induction 1 as [|a b c Hw _ [IH1 IH2]]; [done|]. apply write_seqs in Hw as [H1 H2].
  split; [set_solver|congruence].
Qed.

(** A write adds and removes no relationship. *)
(** A write never removes a relationship. *)
Lemma write_rels db db' rel_id : write db db' → is_Some (db_rels db !! rel_id) → is_Some (db_rels db' !! rel_id).
Proof.
  intros []; unfold insert_message, enqueue, insert_head, put_chunk, insert_relationship in *;
    repeat (case_match; try discriminate); simplify_eq; try done; try by apply lookup_alter_is_Some.
  - cbn. rewrite lookup_insert_is_Some. destruct (decide (rel_id0 = rel_id)); [by left|by right].
  - unfold mark_edited. by repeat case_match.
  - unfold mark_read. by repeat case_match.
  - unfold cache_put. by repeat case_match.
  - by destruct (install_doc_frame db0 doc pk from_rel cached) as [s ->].
Qed.

Lemma writes_rels db db' rel_id : writes db db' → is_Some (db_rels db !! rel_id) → is_Some (db_rels db' !! rel_id).
Proof. induction 1; eauto using write_rels. Qed.

Lemma writes_one db db' : write db db' → writes db db'.
Proof. apply rtc_once. Qed.

(** One statement first, the rest after it. *)
Ltac stmt c := etrans; [apply writes_one, c|].

Lemma writes_snoc db1 db2 db3 : write db2 db3 → writes db1 db2 → writes db1 db3.
Proof. intros. by eapply rtc_r. Qed.

Create HintDb writes.
#[export] Hint Extern 0 (keeps_bucket _) => (intros ?; split; reflexivity) : writes.
#[export] Hint Constructors write : writes.
#[export] Hint Resolve rtc_refl writes_one writes_snoc : writes.

(** Repository calls that are several statements. *)
Lemma writes_transition db i s db' : transition db i s = Ok db' → writes db db'.
Proof.
  unfold transition. intros (row & _ & H)%rbind_Ok. destruct (negb (legal _ _)); simplify_eq.
  apply writes_one, w_delivery.
Qed.

Lemma writes_encrypt {Sig} message_encrypt db (sg : Sig) rel_id msg_id plaintext at_ :
  writes db (encrypt message_encrypt db sg rel_id msg_id plaintext at_).1.1.
Proof. unfold encrypt. repeat case_match; cbn [fst]; eauto with writes. Qed.

Lemma writes_settle rel_id req t rows db db' rts :
  settle rel_id req t rows db = Ok (db', rts) → writes db db'.
Proof.
  revert db db' rts. induction rows as [|row rows IH]; intros db db' rts; cbn [settle].
  { intros [= <- <-]. reflexivity. }
  destruct (negb _).
  - intros (db1 & H1 & H2)%rbind_Ok. etrans; [|by eapply IH].
    destruct (is_unsettled _); [by eapply writes_transition|by simplify_eq].
  - destruct (from_option _ _ _); [apply IH|]. intros ([db1 rts1] & H1 & H2)%rbind_Ok. cbn in H2.
    destruct (stored_ciphertext _ _ _); simplify_eq; by eapply IH.
Qed.

Lemma writes_handle_request db rel_id req db' rts :
  handle_request db rel_id req = Ok (db', rts) → writes db db'.
Proof. unfold handle_request. intros (u & _ & H)%rbind_Ok. by eapply writes_settle. Qed.

Lemma writes_foldl {A} (f : Db → A → Db) l db : (∀ db a, writes db (f db a)) → writes db (foldl f db l).
Proof.
  intros Hf. revert db. induction l as [|a l IH]; intros db; cbn; [reflexivity|]. etrans; [apply Hf|apply IH].
Qed.

Lemma writes_erase_attach db rel_id : writes db (erase_attach_messages db rel_id).1.
Proof.
  unfold erase_attach_messages. cbn [fst]. apply writes_foldl. intros db1 h.
  stmt w_del_chunks. stmt w_del_head. apply writes_one, w_tombstoned.
Qed.

Lemma writes_delete_target db target : writes db (on_delete_target db target).
Proof. unfold on_delete_target. apply writes_foldl. intros db1 h. stmt w_del_chunks. apply writes_one, w_del_head. Qed.

Lemma writes_edit db rel_id env body : writes db (apply_edit db rel_id env body).1.
Proof. unfold apply_edit. repeat case_match; cbn [fst]; eauto with writes. Qed.

Lemma writes_delete db rel_id env : writes db (apply_delete db rel_id env).1.
Proof.
  unfold apply_delete. case_match; cbn [fst]; [|reflexivity].
  etrans; [apply writes_delete_target|]. stmt w_tombstone. destruct (mark_tombstoned _ _) as [db' hit] eqn:E.
  cbn [fst]. change db' with (db', hit).1. rewrite <- E. apply writes_one, w_tombstoned.
Qed.

Lemma write_cut db rel_id s : write db (raise_history_cut db rel_id s).
Proof. by apply w_rel. Qed.
Lemma write_caps db rel_id caps : write db (note_peer_caps db rel_id caps).
Proof. by apply w_rel. Qed.
Lemma write_policy db rel_id s : write db (save_policy db rel_id s).
Proof. by apply w_rel. Qed.
Lemma writes_prefs db rel_id p db' : note_peer_prefs db rel_id p = Ok db' → writes db db'.
Proof. unfold note_peer_prefs. intros (bs & _ & [= <-])%rbind_Ok. by apply writes_one, w_rel. Qed.

Lemma writes_delete_all db rel_id env : writes db (apply_delete_all db rel_id env).1.
Proof. unfold apply_delete_all. cbn [fst]. stmt write_cut. apply writes_one, w_erase. Qed.

Lemma writes_try_complete sha256 db rel_id h : writes db (try_complete sha256 db rel_id h).1.
Proof.
  unfold try_complete. repeat case_match; cbn [fst]; try reflexivity.
  - stmt w_del_chunks. apply writes_one, w_del_head.
  - apply writes_one. apply (w_progress _ _ (λ _, full_bitmap _) (λ _, true) ar_consumed).
Qed.

Lemma writes_note_chunk db h i : writes db (note_chunk db h i).1.
Proof.
  unfold note_chunk. repeat case_match; cbn [fst]; try reflexivity.
  apply writes_one. apply (w_progress _ _ (λ _, set_bit _ _) ar_complete ar_consumed).
Qed.

Lemma writes_attach_head sha256 db rel_id env payload db' evs :
  on_attach_head sha256 db rel_id env payload = Ok (db', evs) → writes db db'.
Proof.
  unfold on_attach_head. intros (allowed & _ & H)%rbind_Ok. destruct allowed; cbn [negb] in H; [|by simplify_eq].
  destruct (attachment _ _); [by simplify_eq|]. apply rbind_Ok in H as (expiry & _ & H).
  apply rbind_Ok in H as (db1 & H1%map_err_Ok & H). etrans; [by eapply writes_one, w_head|].
  destruct (ahp_inline payload) as [bs|].
  - destruct (negb _); [simplify_eq; apply writes_one, w_del_head|].
    apply rbind_Ok in H as (db2 & H2%map_err_Ok & H). simplify_eq.
    etrans; [by eapply writes_one, w_chunk|].
    apply writes_one, (w_progress _ _ ar_chunks (λ _, true) ar_consumed).
  - pose proof (writes_try_complete sha256 db1 rel_id (env_msg_id env)) as Ht. simplify_eq. by rewrite H in Ht.
Qed.

Lemma writes_attach_chunk sha256 db rel_id c db' evs :
  on_attach_chunk sha256 db rel_id c = Ok (db', evs) → writes db db'.
Proof.
  unfold on_attach_chunk. destruct (ac_pad c); [by intros; simplify_eq|].
  destruct (chunk_refused _ _ _); [by intros; simplify_eq|]. intros (db1 & H1%map_err_Ok & H)%rbind_Ok.
  etrans; [by eapply writes_one, w_chunk|].
  pose proof (writes_note_chunk db1 (ac_head_id c) (ac_index c)) as Hn.
  destruct (note_chunk _ _ _) as [db2 [[]|]]; cbn [fst] in Hn; simplify_eq; try done.
  etrans; [exact Hn|]. pose proof (writes_try_complete sha256 db2 rel_id (ac_head_id c)) as Ht. by rewrite H in Ht.
Qed.

Lemma writes_read db rel_id env db' evs : apply_read db rel_id env = Ok (db', evs) → writes db db'.
Proof.
  unfold apply_read. intros (policy & _ & H)%rbind_Ok. destruct (receipts policy); [|by simplify_eq].
  destruct (env_ref_id env) as [target|]; [|by simplify_eq].
  pose proof (w_read db target (db_now db)) as Hw. destruct (mark_read _ _ _) as [db1 hit]. simplify_eq.
  by apply writes_one.
Qed.

#[export] Hint Resolve writes_transition writes_handle_request writes_erase_attach writes_edit
  writes_delete writes_delete_all write_cut write_caps write_policy writes_prefs writes_attach_head
  writes_attach_chunk writes_read : writes.

(** The same for a result taken apart by its projections. *)
Lemma writes_handle_request_pair db rel_id req p : handle_request db rel_id req = Ok p → writes db p.1.
Proof. destruct p. apply writes_handle_request. Qed.
Lemma writes_attach_chunk_pair sha256 db rel_id c p :
  on_attach_chunk sha256 db rel_id c = Ok p → writes db p.1.
Proof. destruct p. apply writes_attach_chunk. Qed.
Lemma writes_read_pair db rel_id env p : apply_read db rel_id env = Ok p → writes db p.1.
Proof. destruct p. apply writes_read. Qed.
#[export] Hint Resolve writes_handle_request_pair writes_attach_chunk_pair writes_read_pair : writes.

Lemma writes_transmitted db i db' : mark_transmitted db i = Ok db' → writes db db'.
Proof. apply writes_transition. Qed.
#[export] Hint Resolve writes_transmitted : writes.

(** ** Running a method

    [evolves e e']: the store went from [e] to [e'] by writes, and the sticker
    buffers stayed within their caps. *)

Section Evolves.
Context {Sig Net Rng : Type}.
Local Abbreviation Engine := (@Engine Sig Net Rng).
Local Abbreviation M := (@M Sig Net Rng).

Definition evolves (e e' : Engine) : Prop :=
  writes (en_db e) (en_db e') ∧ (buffers_wf (en_pending e) → buffers_wf (en_pending e')).

#[export] Instance evolves_preorder : PreOrder evolves.
Proof. split; [by split; [reflexivity|]|]. intros a b c [] []. split; [by etrans|auto]. Qed.

(** A computation that touches neither the store nor the buffers. *)
Definition frames {A} (m : M A) : Prop :=
  ∀ e, en_db (m e).1 = en_db e ∧ en_pending (m e).1 = en_pending e.

Lemma evolves_ret {A} e0 (a : A) e : evolves e0 e → evolves e0 (mret a e).1.
Proof. done. Qed.
Lemma evolves_throw {A} e0 x e : evolves e0 e → evolves e0 (throw (A := A) x e).1.
Proof. done. Qed.

Lemma evolves_get {B} e0 (k : Db → M B) e : evolves e0 (k (en_db e) e).1 → evolves e0 (mbind get_db k e).1.
Proof. done. Qed.

Lemma evolves_now {B} e0 (k : Z → M B) e : evolves e0 (k (db_now (en_db e)) e).1 → evolves e0 (mbind now k e).1.
Proof. done. Qed.

Lemma evolves_put_end e0 db e : evolves e0 e → writes (en_db e) db → evolves e0 (put_db db e).1.
Proof. intros [H1 H2] Hw. split; [by etrans|done]. Qed.

Lemma evolves_put {B} e0 db (k : unit → M B) e :
  evolves e0 e → writes (en_db e) db →
  (∀ e1, en_db e1 = db → evolves e0 e1 → evolves e0 (k tt e1).1) →
  evolves e0 (mbind (put_db db) k e).1.
Proof. intros [H1 H2] Hw Hk. apply Hk; [done|]. split; [by etrans|done]. Qed.

Lemma evolves_lift {A B} e0 (r : result EngineError A) (k : A → M B) e :
  evolves e0 e → (∀ a, r = Ok a → evolves e0 (k a e).1) → evolves e0 (mbind (lift r) k e).1.
Proof. intros He Hk. unfold mbind, lift. destruct r; auto. Qed.

Lemma evolves_bind {A B} e0 (m : M A) (k : A → M B) e :
  evolves e0 (m e).1 → (∀ a e1, m e = (e1, Ok a) → evolves e0 e1 → evolves e0 (k a e1).1) →
  evolves e0 (mbind m k e).1.
Proof. intros Hm Hk. unfold mbind. destruct (m e) as [e1 [a|x]] eqn:E; cbn [fst] in *; eauto. Qed.

Lemma evolves_frame_end {A} e0 (m : M A) e : frames m → evolves e0 e → evolves e0 (m e).1.
Proof. intros Hf He. destruct (Hf e) as [H1 H2]. unfold evolves. by rewrite H1, H2. Qed.

Lemma evolves_frame {A B} e0 (m : M A) (k : A → M B) e :
  frames m → evolves e0 e →
  (∀ a e1, en_db e1 = en_db e → evolves e0 e1 → evolves e0 (k a e1).1) → evolves e0 (mbind m k e).1.
Proof.
  intros Hf He Hk. apply evolves_bind; [by apply evolves_frame_end|]. intros a e1 Hm He1.
  apply Hk; [|done]. destruct (Hf e) as [H _]. by rewrite Hm in H.
Qed.

(** A method whose whole effect is writes. *)
Lemma evolves_call {A} e0 (m : M A) e : keeps evolves m → evolves e0 e → evolves e0 (m e).1.
Proof. intros Hm He. etrans; [exact He|apply Hm]. Qed.

Lemma keeps_start {A} (m : M A) : (∀ e, evolves e e → evolves e (m e).1) → keeps evolves m.
Proof. intros Hm e. apply Hm. reflexivity. Qed.
End Evolves.

Arguments evolves : simpl never.

Create HintDb frames.
Create HintDb calls.

(** Symbolic execution of a goal [evolves e0 (m e).1]. *)
Ltac solve_writes :=
  first [ solve [cbn [fst]; eauto with writes]
        | match goal with H : ?t = (?d, _) |- writes _ ?d =>
            let X := fresh in assert (t.1 = d) as X by (rewrite H; reflexivity); rewrite <- X; clear X;
            solve [eauto with writes] end
        | match goal with H : en_db ?e = _ |- writes (en_db ?e) _ => rewrite H; solve_writes end
        | idtac ].
Ltac step1 :=
  match goal with
  | |- evolves _ (mret _ _).1 => apply evolves_ret; assumption
  | |- evolves _ (throw _ _).1 => apply evolves_throw; assumption
  | |- evolves _ (lift _ _).1 => assumption
  | |- evolves _ (get_db _).1 => assumption
  | |- evolves _ (put_db _ _).1 => apply evolves_put_end; [assumption|solve_writes]
  | |- evolves _ (mbind get_db _ _).1 => apply evolves_get
  | |- evolves _ (mbind now _ _).1 => apply evolves_now
  | |- evolves _ (mbind (put_db _) _ _).1 => apply evolves_put; [assumption|solve_writes|intros]
  | |- evolves _ (mbind (lift _) _ _).1 => apply evolves_lift; [assumption|let H := fresh "Hr" in intros ? H; try apply map_err_Ok in H]
  | |- evolves _ (mbind (mret _) _ _).1 => apply evolves_bind; [assumption|intros ? ? [= <- <-] _]
  | |- evolves _ (mbind (mbind _ _) _ _).1 => apply evolves_bind; [|intros]
  | |- evolves _ (mbind ?m _ _).1 => apply evolves_frame; [solve [auto with frames]|assumption|intros]
  | |- evolves _ (mbind ?m _ _).1 =>
      apply evolves_bind; [apply evolves_call; [solve [auto with calls]|assumption]|intros]
  | |- evolves _ (mbind (if ?b then _ else _) _ _).1 => apply evolves_bind; [|intros]
  | |- evolves _ (mbind (match ?x with _ => _ end) _ _).1 => apply evolves_bind; [|intros]
  | |- evolves _ ((if ?b then _ else _) _).1 => destruct b eqn:?
  | |- evolves _ ((match ?x with _ => _ end) _).1 => destruct x eqn:?
  | |- evolves _ (?m _).1 => apply evolves_frame_end; [solve [auto with frames]|assumption]
  | |- evolves _ (?m _).1 => apply evolves_call; [solve [auto with calls]|assumption]
  end.
Ltac run := repeat step1.
Ltac run_method f := apply keeps_start; intros ? ?; unfold f; run.
