(* ===== verification/Sweep.v ===== *)
(** The TTL sweep: sync/mod.rs [Sync::sweep_expired] over the repositories,
    with store/clock.rs and the queue length of store/outbox.rs. The
    theorems say what a pass leaves in every table, that its report counts
    the rows it took, and that a second pass at the same time finds nothing. *)

From stdpp Require Import fin_maps.
From S2P Require Import Prelude Limits Policy View Settings Sync EngineTypes StickerStore Attach Pairing Burn Writes Ledger.

(** ** The clock *)

(** [FakeClock]: one counter shared by every clone, so the clones are one
    value here. *)
Record FakeClock := mkFakeClock { fc_secs : Z }.

Definition fake_new (start_secs : Z) : FakeClock := mkFakeClock start_secs.
Definition fake_advance (c : FakeClock) (secs : Z) : FakeClock := mkFakeClock (wrap64 (fc_secs c + secs)).
Definition fake_set (c : FakeClock) (secs : Z) : FakeClock := mkFakeClock secs.
Definition fake_now_secs (c : FakeClock) : Z := fc_secs c.

(** ** The pass *)

Definition queued_len (db : Db) : Z := Z.of_nat (size (db_outbox db)).

Record SweepReport := mkSweepReport {
  sr_messages_erased : Z;
  sr_attachments_erased : Z;
  sr_outbox_failed : Z;
  sr_orphan_chunks_erased : Z;
}.

(** [for row in self.db.fail_expired()? { set_delivery(Failed); += 1 }] *)
Definition fail_rows (db : Db) (rows : list OutboxRow) : Db * Z :=
  foldl (λ '(db, n) row, ((set_delivery db (ob_msg_id row) Failed).1, n + 1)) (db, 0) rows.

Definition orphan_cutoff (db : Db) : Z := as_i64 (wrap64 (as_i64 (db_now db) - ORPHAN_TTL_SECS)).

Definition sweep_pass (db : Db) : Db * SweepReport :=
  let '(db, rows) := fail_expired db in
  let '(db, outbox_failed) := fail_rows db rows in
  let '(db, messages_erased) := sweep_expired db in
  let '(db, attachments_erased) := attachments_sweep_expired db in
  let '(db, orphans) := sweep_orphans db (orphan_cutoff db) in
  (db, mkSweepReport messages_erased attachments_erased outbox_failed orphans).

(** ** What the failing loop does *)

Lemma fail_rows_spec rows db :
  fail_rows db rows =
    (set_messages db (map_imap (λ k r, Some (if decide (k ∈ ob_msg_id <$> rows) then with_state r Failed else r))
                        (db_messages db)), len rows).
Proof.
  unfold fail_rows.
  assert (H : ∀ n, foldl (λ '(db, n) row, ((set_delivery db (ob_msg_id row) Failed).1, n + 1)) (db, n) rows
    = (set_messages db (map_imap (λ k r, Some (if decide (k ∈ ob_msg_id <$> rows) then with_state r Failed else r))
         (db_messages db)), n + len rows)); [|by rewrite H].
  revert db. induction rows as [|row rows IH]; intros db n; cbn [foldl].
  - f_equal; [|unfold len; cbn; lia]. destruct db; unfold set_messages; cbn. f_equal. apply map_eq. intros k.
    rewrite map_lookup_imap. by destruct (_ !! k).
  - rewrite IH. f_equal; [|unfold len; cbn [length]; lia]. unfold set_delivery; cbn [fst].
    destruct db; unfold set_messages; cbn. f_equal. apply map_eq. intros k. rewrite !map_lookup_imap.
    destruct (decide (k = ob_msg_id row)) as [->|Hk].
    + rewrite lookup_alter_eq. destruct (_ !! _) as [r|]; [|done]. cbn.
      rewrite (decide_True (P := ob_msg_id row ∈ ob_msg_id row :: _)) by set_solver. by case_decide.
    + rewrite lookup_alter_ne by done. destruct (_ !! k) as [r|]; [|done]. cbn.
      by repeat case_decide; set_solver.
Qed.

(** The message ids the queue has given up on. *)
Definition given_up (db : Db) (id : bytes) : Prop :=
  ∃ o, db_outbox db !! id = Some o ∧ outbox_expired db o = true.

#[export] Instance given_up_dec db id : Decision (given_up db id).
Proof.
  destruct (db_outbox db !! id) as [o|] eqn:E; [|right; intros (o & Ho & _); congruence].
  destruct (outbox_expired db o) eqn:Eo; [by left; exists o|right; intros (o' & Ho & ?); congruence].
Defined.

Lemma fail_expired_ids db id :
  keyed ob_msg_id (db_outbox db) → id ∈ ob_msg_id <$> (fail_expired db).2 ↔ given_up db id.
Proof.
  intros Hk. unfold fail_expired, given_up; cbn [snd]. rewrite <-list_fmap_compose, list_elem_of_fmap. split.
  - intros ([k o] & -> & Hin). apply elem_of_map_to_list, map_lookup_filter_Some in Hin as [Ho He].
    exists o. cbn in *. by rewrite (Hk _ _ Ho).
  - intros (o & Ho & He). exists (id, o). cbn. split; [by rewrite (Hk _ _ Ho)|].
    by apply elem_of_map_to_list, map_lookup_filter_Some.
Qed.

(** ** Splitting a table by a test *)

Section Split.
Context {K A : Type} `{Countable K} (f : K * A → bool).

Lemma filter_none (m : gmap K A) :
  (∀ k x, m !! k = Some x → f (k, x) = false) →
  filter (λ kv, f kv = false) m = m ∧ filter (λ kv, f kv = true) m = ∅.
Proof.
  intros Hm. split; [by apply map_filter_id|]. apply map_empty_filter_2. intros k x Hx. by rewrite (Hm k x Hx).
Qed.

Lemma size_split (m : gmap K A) :
  Z.of_nat (size (filter (λ kv, f kv = true) m)) + Z.of_nat (size (filter (λ kv, f kv = false) m))
  = Z.of_nat (size m).
Proof.
  rewrite <-Nat2Z.inj_add. f_equal.
  assert (filter (λ kv, f kv = false) m = filter (λ kv, ¬ f kv = true) m) as ->.
  { apply map_filter_ext. intros k x _. destruct (f (k, x)); cbn; naive_solver. }
  rewrite <-map_size_disj_union by apply map_disjoint_filter_complement.
  by rewrite map_filter_union_complement.
Qed.

Lemma filter_false_Some (m : gmap K A) k x :
  filter (λ kv, f kv = false) m !! k = Some x ↔ m !! k = Some x ∧ f (k, x) = false.
Proof. by rewrite map_lookup_filter_Some. Qed.
End Split.

Lemma size_imap_total {K A} `{Countable K} (g : K → A → A) (m : gmap K A) :
  size (map_imap (λ k x, Some (g k x)) m) = size m.
Proof.
  rewrite <-!size_dom. f_equal. apply set_eq. intros k. rewrite !elem_of_dom, map_lookup_imap.
  by destruct (m !! k).
Qed.

(** ** A pass, table by table *)

(** The row a live message keeps: failed when the queue gave up on it. *)
Definition settled (db : Db) (id : bytes) (r : MessageRow) : MessageRow :=
  if decide (given_up db id) then with_state r Failed else r.

Definition msg_expired (db : Db) (kv : bytes * MessageRow) : bool := expired_at (db_now db) (mr_expires_at kv.2).
Definition head_expired (db : Db) (kv : bytes * AttachmentRow) : bool := expired_at (db_now db) (ar_expires_at kv.2).

(** The tables a pass leaves, as closed expressions over the tables before. *)
Definition swept_messages (db : Db) : gmap bytes MessageRow :=
  filter (λ kv, msg_expired db kv = false) (map_imap (λ k r, Some (settled db k r)) (db_messages db)).
Definition swept_outbox (db : Db) : gmap bytes OutboxRow :=
  filter (λ kv : bytes * OutboxRow, outbox_expired db kv.2 = false) (db_outbox db).
Definition swept_heads (db : Db) : gmap bytes AttachmentRow :=
  filter (λ kv, head_expired db kv = false) (db_attachments db).
Definition stale_chunk (db : Db) (heads : gmap bytes AttachmentRow) (kv : bytes * Z * ChunkRow) : bool :=
  (ck_created_at kv.2 <? orphan_cutoff db) && bool_decide (heads !! kv.1.1 = None).
Definition swept_chunks (db : Db) : gmap (bytes * Z) ChunkRow :=
  filter (λ kv, stale_chunk db (swept_heads db) kv = false) (db_chunks db).
Definition swept_frames (db : Db) : gmap (string * bytes) Z :=
  filter (λ kv : string * bytes * Z, expired_at (db_now db) (Some kv.2) = false) (db_inbound_frames db).

Definition swept (db : Db) : Db :=
  let db1 := set_messages (set_outbox db (swept_outbox db)) (swept_messages db) in
  set_chunks (set_attachments (set_caches db1 (orphan_ciphertexts db1 None) (swept_frames db)) (swept_heads db))
    (swept_chunks db).

Definition swept_report (db : Db) : SweepReport :=
  mkSweepReport (Z.of_nat (size (db_messages db)) - Z.of_nat (size (swept_messages db)))
    (Z.of_nat (size (db_attachments db)) - Z.of_nat (size (swept_heads db)))
    (queued_len db - Z.of_nat (size (swept_outbox db)))
    (Z.of_nat (size (db_chunks db)) - Z.of_nat (size (swept_chunks db))).

Lemma len_fail_expired db : len (fail_expired db).2 = queued_len db - Z.of_nat (size (swept_outbox db)).
Proof.
  unfold queued_len, swept_outbox, fail_expired; cbn [snd].
  rewrite <-(size_split (λ kv : bytes * OutboxRow, outbox_expired db kv.2) (db_outbox db)).
  unfold len. rewrite length_fmap, length_map_to_list. lia.
Qed.

Lemma fail_rows_settled db :
  keyed ob_msg_id (db_outbox db) →
  fail_rows (fail_expired db).1 (fail_expired db).2 =
    (set_messages (set_outbox db (swept_outbox db)) (map_imap (λ k r, Some (settled db k r)) (db_messages db)),
     queued_len db - Z.of_nat (size (swept_outbox db))).
Proof.
  intros Hk. rewrite fail_rows_spec, len_fail_expired. f_equal. unfold set_messages. f_equal.
  apply map_imap_ext. intros k. cbn [db_messages fail_expired set_outbox fst].
  destruct (db_messages db !! k) as [r|]; [|done]. cbn. do 2 f_equal. unfold settled.
  apply decide_ext. by apply fail_expired_ids.
Qed.

(** ** The pass is the closed form *)

Lemma sweep_pass_swept db : keyed ob_msg_id (db_outbox db) → sweep_pass db = (swept db, swept_report db).
Proof.
  intros Hk. unfold sweep_pass. pose proof (fail_rows_settled db Hk) as Hf.
  destruct (fail_expired db) as [db1 rows]. cbn [fst snd] in Hf. rewrite Hf.
  unfold sweep_expired, attachments_sweep_expired, sweep_orphans, swept, swept_report. cbn -[size].
  f_equal. f_equal.
  - unfold swept_messages. rewrite <-(size_imap_total (settled db) (db_messages db)).
    rewrite <-(size_split (msg_expired db) (map_imap _ _)). unfold msg_expired. lia.
  - unfold swept_heads. rewrite <-(size_split (head_expired db) (db_attachments db)). unfold head_expired. lia.
  - unfold swept_chunks. rewrite <-(size_split (stale_chunk db (swept_heads db)) (db_chunks db)).
    unfold stale_chunk, is_orphan, swept_heads, head_expired, orphan_cutoff. cbn. lia.
Qed.

Lemma settled_expiry db id r : mr_expires_at (settled db id r) = mr_expires_at r.
Proof. unfold settled. by case_decide. Qed.

Lemma swept_message_Some db id r' :
  swept_messages db !! id = Some r' ↔
    ∃ r, db_messages db !! id = Some r ∧ expired_at (db_now db) (mr_expires_at r) = false ∧ r' = settled db id r.
Proof.
  unfold swept_messages. rewrite filter_false_Some, map_lookup_imap, bind_Some. unfold msg_expired; cbn. split.
  - intros [(r & Hr & [= <-]) He]. rewrite settled_expiry in He. by eexists.
  - intros (r & Hr & He & ->). rewrite settled_expiry. split; [by eexists|done].
Qed.

Lemma swept_outbox_Some db id o :
  swept_outbox db !! id = Some o ↔ db_outbox db !! id = Some o ∧ outbox_expired db o = false.
Proof. unfold swept_outbox. by rewrite map_lookup_filter_Some. Qed.

Lemma swept_not_given_up db id : ¬ given_up (swept db) id.
Proof.
  intros (o & Ho & He). change (swept_outbox db !! id = Some o) in Ho.
  apply swept_outbox_Some in Ho as [_ Ho]. unfold outbox_expired in *. cbn in He. congruence.
Qed.

(** ** A second pass *)

Lemma settled_swept db id r : settled (swept db) id r = r.
Proof. unfold settled. by rewrite decide_False by apply swept_not_given_up. Qed.

Lemma swept_messages_twice db : swept_messages (swept db) = swept_messages db.
Proof.
  apply map_eq. intros id. apply option_eq. intros r. rewrite (swept_message_Some (swept db)).
  change (db_messages (swept db)) with (swept_messages db). change (db_now (swept db)) with (db_now db). split.
  - intros (r' & Hr & _ & ->). by rewrite settled_swept.
  - intros Hr. exists r. rewrite settled_swept. split_and!; [done| |done].
    apply swept_message_Some in Hr as (r0 & _ & He & ->). by rewrite settled_expiry.
Qed.

Lemma filter_twice {K A} `{Countable K} (f : K * A → bool) (m : gmap K A) :
  filter (λ kv, f kv = false) (filter (λ kv, f kv = false) m) = filter (λ kv, f kv = false) m.
Proof. apply map_filter_id. intros k x. by rewrite filter_false_Some; intros []. Qed.

Lemma swept_heads_twice db : swept_heads (swept db) = swept_heads db.
Proof. apply (filter_twice (head_expired db)). Qed.

Lemma swept_outbox_twice db : swept_outbox (swept db) = swept_outbox db.
Proof. apply (filter_twice (λ kv : bytes * OutboxRow, outbox_expired db kv.2)). Qed.

Lemma swept_frames_twice db : swept_frames (swept db) = swept_frames db.
Proof. apply (filter_twice (λ kv : string * bytes * Z, expired_at (db_now db) (Some kv.2))). Qed.

Lemma swept_chunks_twice db : swept_chunks (swept db) = swept_chunks db.
Proof.
  unfold swept_chunks at 1. rewrite swept_heads_twice. apply (filter_twice (stale_chunk db (swept_heads db))).
Qed.

Lemma swept_ciphertexts_twice db : orphan_ciphertexts (swept db) None = db_ciphertexts (swept db).
Proof.
  apply map_filter_id. intros k x. cbn [db_ciphertexts swept set_chunks set_attachments set_caches].
  unfold orphan_ciphertexts at 1. by rewrite map_lookup_filter_Some; intros [].
Qed.

Lemma swept_twice db : swept (swept db) = swept db.
Proof.
  unfold swept at 1. cbv zeta.
  rewrite swept_outbox_twice, swept_frames_twice, swept_chunks_twice, swept_heads_twice, swept_messages_twice.
  pose proof (swept_ciphertexts_twice db) as Hc. unfold orphan_ciphertexts in *. cbn in *. by rewrite Hc.
Qed.

Lemma swept_report_twice db : swept_report (swept db) = mkSweepReport 0 0 0 0.
Proof.
  unfold swept_report, queued_len.
  rewrite swept_outbox_twice, swept_chunks_twice, swept_heads_twice, swept_messages_twice.
  f_equal; cbn; lia.
Qed.

Lemma swept_wf db : store_wf db → store_wf (swept db).
Proof.
  rewrite !store_wf_iff. intros (H1 & H2 & H3 & H4 & H5). split_and!; try apply H5; [| | |done].
  - intros k r' Hr. apply swept_message_Some in Hr as (r & Hr & _ & ->). unfold settled.
    case_decide; apply (H1 k r Hr).
  - by apply keyed_filter.
  - by apply keyed_filter.
Qed.

(** C37: One pass of the sweep, on any well-formed store: a message is erased
    exactly when its expiry has come, and a survivor the queue gave up on is
    left failed and is otherwise as it was; the queue and the attachments keep
    exactly the rows still in time; a chunk goes exactly when it is older than
    the orphan horizon and no attachment head is left for it, a head this very
    pass removed included; the report counts the rows that went, table by
    table. The store stays well formed, and a second pass at the same time
    changes nothing and reports zeros. *)
Theorem sweep_pass_exact db db' rep :
  store_wf db → sweep_pass db = (db', rep) →
  (∀ id r', db_messages db' !! id = Some r' ↔
     ∃ r, db_messages db !! id = Some r ∧ expired_at (db_now db) (mr_expires_at r) = false
       ∧ r' = if decide (given_up db id) then with_state r Failed else r)
  ∧ (∀ id o, db_outbox db' !! id = Some o ↔ db_outbox db !! id = Some o ∧ outbox_expired db o = false)
  ∧ (∀ h a, db_attachments db' !! h = Some a ↔
       db_attachments db !! h = Some a ∧ expired_at (db_now db) (ar_expires_at a) = false)
  ∧ (∀ h i c, db_chunks db' !! (h, i) = Some c ↔
       db_chunks db !! (h, i) = Some c
       ∧ (orphan_cutoff db ≤ ck_created_at c ∨ is_Some (db_attachments db' !! h)))
  ∧ Z.of_nat (size (db_messages db)) = Z.of_nat (size (db_messages db')) + sr_messages_erased rep
  ∧ Z.of_nat (size (db_attachments db)) = Z.of_nat (size (db_attachments db')) + sr_attachments_erased rep
  ∧ queued_len db = queued_len db' + sr_outbox_failed rep
  ∧ Z.of_nat (size (db_chunks db)) = Z.of_nat (size (db_chunks db')) + sr_orphan_chunks_erased rep
  ∧ store_wf db' ∧ sweep_pass db' = (db', mkSweepReport 0 0 0 0).
Proof.
  intros Hwf. rewrite sweep_pass_swept by apply Hwf. intros [= <- <-]. pose proof (swept_wf db Hwf) as Hwf'.
  split; [apply swept_message_Some|]. split; [apply swept_outbox_Some|].
  split; [intros h a; apply (filter_false_Some (head_expired db))|].
  split; [|split_and!; [exact (eq_sym (Zplus_minus _ _))..|done|]].
  - intros h i c. change (db_chunks (swept db)) with (swept_chunks db).
    change (db_attachments (swept db)) with (swept_heads db). unfold swept_chunks. rewrite filter_false_Some.
    unfold stale_chunk; cbn [fst snd]. rewrite andb_false_iff, Z.ltb_ge, bool_decide_eq_false.
    by rewrite <-not_eq_None_Some.
  - by rewrite sweep_pass_swept, swept_twice, swept_report_twice by apply Hwf'.
Qed.

(** A store with one row of every fate: at 100000 the message [1] has expired,
    the queue gives up on [2] and keeps [3], the head [7] goes and takes its
    old chunk with it, and the fresh orphan of [8] stays. *)
Definition demo_stale : Db :=
  let msg i e := mkMessageRow [zb i] "rel" DirOut i 5 None 1 None [] Queued e 5 false false None 0 0 in
  let out i e := mkOutboxRow [zb i] "rel" [] 0 5 e 5 in
  let db := mkDb 100000 {[[zb 1] := msg 1 (Some 100000); [zb 2] := msg 2 None; [zb 3] := msg 3 (Some 100001)]}
    {[[zb 2] := out 2 100000; [zb 3] := out 3 100001]} ∅ ∅ ∅ ∅ ∅ ∅ ∅ ∅ ∅ sticker_db_empty None in
  let db := set_attachments db {[[zb 7] :=
    mkAttachmentRow [zb 7] "rel" [zb 1] DirIn 1 [] 1 1 1 [] [] 0 [] [] true false (Some 99999) 5]} in
  set_chunks db {[([zb 7], 0) := mkChunkRow [zb 9] "rel" 5; ([zb 8], 0) := mkChunkRow [zb 9] "rel" 99999]}.

Lemma demo_stale_wf : store_wf demo_stale.
Proof.
  apply store_wf_iff. split_and!; [..|by split; try constructor|by vm_compute|by vm_compute].
  all: intros k r; cbn; rewrite ?lookup_insert_Some, ?lookup_singleton_Some; naive_solver.
Qed.

Lemma sweep_pass_exact_witness :
  sweep_pass demo_stale = ((sweep_pass demo_stale).1, mkSweepReport 1 1 1 1)
  ∧ mr_state <$> db_messages (sweep_pass demo_stale).1 !! [zb 2] = Some Failed
  ∧ sweep_pass (sweep_pass demo_stale).1 = ((sweep_pass demo_stale).1, mkSweepReport 0 0 0 0).
Proof.
  split; [by vm_compute|]. split; [by vm_compute|].
  eapply (sweep_pass_exact demo_stale); [apply demo_stale_wf|by vm_compute].
Defined.
