(* ===== verification/Inbound.v ===== *)
(** The inbound pipeline ([Engine::handle_plaintext], [core/src/engine/inbound.rs])
    and the activation burst ([core/src/engine/lifecycle.rs]): one decrypted
    envelope through the gates, the ledger and the feature handlers. *)

From S2P Require Import Prelude Bin Limits Media RustStr Hex Payloads WirePolicy WireResync WireAttach WireSticker StickerDocs Envelope Frame Policy RateLimit Ephemeral Ledger Settings Sync Session SignalStores EngineTypes StickerPending StickerStore Attach Messages Caps Engine StickerEngine Profiles Burn.

Section Inbound.
Context {Sig Net Rng : Type} `{!SignalStore Sig}.
Context (nfc sha256 : bytes → bytes).
Context (message_encrypt : Sig → string → bytes → Z
                           → Sig * result SignalProtocolError (CiphertextType * bytes)).
Context (kill_switch online : Net → bool).
Context (sender_send : Net → string → bytes → Net * result TransportError unit).
Context (remove_service : Net → string → Net * result TransportError unit).
Context (rng_id : Rng → bytes) (rng_fill : Rng → nat → bytes) (rng_next : Rng → Rng).
Context (private_ok public_ok : bytes → bool).
Context (verify_signature : bytes → bytes → bytes → bool).
Context (calculate_signature : bytes → bytes → bytes → bytes).
Context {codecs : ImageCodecs}.

Local Abbreviation Engine := (@Engine Sig Net Rng).
Local Abbreviation M := (@M Sig Net Rng).
Local Abbreviation send_envelope :=
  (send_envelope nfc message_encrypt kill_switch online sender_send rng_id rng_fill rng_next).
Local Abbreviation send_profile :=
  (send_profile nfc message_encrypt kill_switch online sender_send rng_id rng_fill rng_next).
Local Abbreviation fetch_missing_emoji :=
  (fetch_missing_emoji nfc message_encrypt kill_switch online sender_send rng_id rng_fill rng_next).
Local Abbreviation apply_resync_req :=
  (apply_resync_req nfc message_encrypt kill_switch online sender_send rng_id rng_fill rng_next).
Local Abbreviation apply_chat_policy :=
  (apply_chat_policy nfc message_encrypt kill_switch online sender_send rng_id rng_fill rng_next).
Local Abbreviation maybe_request_resync :=
  (maybe_request_resync nfc sha256 message_encrypt kill_switch online sender_send rng_id rng_fill rng_next).
Local Abbreviation on_sticker :=
  (on_sticker nfc sha256 message_encrypt kill_switch online sender_send rng_id rng_fill rng_next).
Local Abbreviation on_sticker_ctrl :=
  (on_sticker_ctrl nfc sha256 message_encrypt kill_switch online sender_send rng_id rng_fill rng_next
     private_ok public_ok verify_signature calculate_signature).
Local Notation "x <- m ;; k" := (mbind m (λ x, k)) (at level 100, m at next level, right associativity).
Local Notation "m ;; k" := (mbind m (λ _, k)) (at level 100, k at level 200, right associativity).

Definition put_presence (t : PresenceTable) : M unit := λ e,
  (mkEngine (en_db e) (en_sig e) (en_net e) (en_rng e) t (en_typing e) (en_pending e) (en_rate e)
     (en_drops e), Ok tt).
Definition get_presence : M PresenceTable := λ e, (e, Ok (en_presence e)).
Definition put_drops (d : Drops) : M unit := λ e,
  (mkEngine (en_db e) (en_sig e) (en_net e) (en_rng e) (en_presence e) (en_typing e) (en_pending e)
     (en_rate e) d, Ok tt).
Definition get_drops : M Drops := λ e, (e, Ok (en_drops e)).

(** ** [engine/lifecycle.rs] *)

(** [match m.await]: the caller sees the error as a value. *)
Definition catch {A} (m : M A) : M (result EngineError A) := λ e, let '(e, r) := m e in (e, Ok r).

Definition on_relationship_active (rel_id : string) : M unit :=
  db <- get_db ;;
  req <- lift (map_err ESync (build_request sha256 db rel_id)) ;;
  send_envelope rel_id (PResyncReq req) None false ;;
  send_profile rel_id ;;
  db <- get_db ;;
  state <- lift (map_err EStore (load_policy db rel_id)) ;;
  let '(next, sync) := build_sync state (db_now db) in
  r <- catch (send_envelope rel_id (PChatPolicy sync) None false) ;;
  match r with
  | Ok _ => db <- get_db ;; put_db (save_policy db rel_id next)
  | Err (CapGated _) => mret tt
  | Err x => throw x
  end.

(** ** [wire/envelope.rs]: the counting decoder *)

Definition decode_envelope (plaintext : bytes) : M Envelope :=
  match envelope_decode nfc plaintext with
  | Err (UnknownType code msg_id app_seq) =>
      d <- get_drops ;;
      put_drops (mkDrops (dr_limited d) (wrap64 (dr_unknown d + 1)) (dr_gated d)) ;;
      throw (EWire (UnknownType code msg_id app_seq))
  | r => lift (map_err EWire r)
  end.

(** ** The stages of [handle_plaintext] *)

(** Gate 2, its drop counter included. *)
Definition caps_gate (rel_id : string) (t : EnvelopeType) : M bool :=
  db <- get_db ;;
  d <- get_drops ;;
  let '(pass, gated) := check_inbound db rel_id t (dr_gated d) in
  put_drops (mkDrops (dr_limited d) (dr_unknown d) gated) ;;
  mret pass.

Definition imply_caps (rel_id : string) (t : EnvelopeType) : M unit :=
  match required_cap t with
  | Some bit =>
      db <- get_db ;;
      let known := peer_caps db rel_id in
      if Z.land known bit =? 0 then put_db (note_peer_caps db rel_id (Z.lor known bit)) else mret tt
  | None => mret tt
  end.

(** The accepter's activation burst, fired by the first inbound frame. *)
Definition activate (rel_id : string) (row : RelRow) : M unit :=
  if bool_decide (rel_role row = "accepter"%string) then
    db <- get_db ;;
    match setting db (activation_sent_key rel_id) with
    | Some _ => mret tt
    | None =>
        put_db (set_setting db (activation_sent_key rel_id) [zb 1]) ;;
        on_relationship_active rel_id
    end
  else mret tt.

Definition is_ephemeral (t : EnvelopeType) : bool :=
  match t with TTyping | TPresence => true | _ => false end.

(** Gate 8. *)
Definition store_inbound (rel_id : string) (env : Envelope) (sent_at : Z) : M unit :=
  if is_ephemeral (envelope_type env) then mret tt
  else
    db <- get_db ;;
    expiry <- lift (map_err EStore (message_expiry db rel_id (db_now db))) ;;
    payload <- lift (map_err EWire (payload_encode nfc (env_payload env))) ;;
    db <- lift (map_err EStore (insert_message db
      (mkNewMessage (env_msg_id env) rel_id DirIn (env_app_seq env) sent_at (Some (db_now db))
         (code (envelope_type env)) (env_ref_id env) payload Received expiry))) ;;
    put_db db.

(** A handler on the store alone. *)
Definition on_db (f : Db → Db * list EngineEvent) : M (list EngineEvent) :=
  db <- get_db ;;
  let '(db, evs) := f db in
  put_db db ;;
  mret evs.

Definition on_db_res (f : Db → result EngineError (Db * list EngineEvent)) : M (list EngineEvent) :=
  db <- get_db ;;
  p <- lift (f db) ;;
  put_db p.1 ;;
  mret p.2.

(** [on_attach_head] writes the head row before it stores an inline body, and
    the row stays when the body is refused. *)
Definition attach_head_left (db : Db) (rel_id : string) (env : Envelope) (payload : AttachHeadPayload) : Db :=
  match attachments_allowed db rel_id, attachment db (env_msg_id env), message_expiry db rel_id (db_now db) with
  | Ok true, None, Ok expiry =>
      match insert_head db (mkNewAttachment (env_msg_id env) rel_id (env_msg_id env) DirIn
                              (ahp_head payload) expiry) with
      | Ok db => db
      | Err _ => db
      end
  | _, _, _ => db
  end.

Definition run_attach_head (rel_id : string) (env : Envelope) (payload : AttachHeadPayload)
    : M (list EngineEvent) :=
  db <- get_db ;;
  match on_attach_head sha256 db rel_id env payload with
  | Ok (db, evs) => put_db db ;; mret evs
  | Err x => put_db (attach_head_left db rel_id env payload) ;; throw x
  end.

Definition on_presence (rel_id : string) (p : Presence) : M (list EngineEvent) :=
  db <- get_db ;;
  policy <- lift (map_err EStore (load_policy db rel_id)) ;;
  if presence policy then
    pass <- rate_allow Ephemeral rel_id ;;
    if pass then
      t <- get_presence ;;
      let '(t, state) := presence_note t rel_id p (db_now db) in
      put_presence t ;;
      mret (from_option (λ s, [EvPresence rel_id (pp_in_app s) (pp_do_not_disturb s)]) [] state)
    else mret []
  else mret [].

Definition on_typing (rel_id : string) (tp : Typing) : M (list EngineEvent) :=
  db <- get_db ;;
  policy <- lift (map_err EStore (load_policy db rel_id)) ;;
  if typing_enforced policy then
    pass <- rate_allow Ephemeral rel_id ;;
    if pass then
      t <- get_typing ;;
      let '(t, lit) := typing_note t rel_id (typing tp) (db_now db) in
      put_typing t ;;
      mret (from_option (λ l, [EvTyping rel_id l]) [] lit)
    else mret []
  else mret [].

(** Gate 9: the events, and whether the relationship is gone. *)
Definition dispatch (rel_id : string) (env : Envelope) : M (list EngineEvent * bool) :=
  let live (m : M (list EngineEvent)) : M (list EngineEvent * bool) :=
    evs <- m ;; mret (evs, false) in
  match env_payload env with
  | PMsg m => live (fetch_missing_emoji rel_id (msg_body m) ;; mret [EvMessage rel_id (env_msg_id env)])
  | PEdit e => live (on_db (λ db, apply_edit db rel_id env (edit_body e)))
  | PDelete _ => live (on_db (λ db, apply_delete db rel_id env))
  | PDeleteAll _ => live (on_db (λ db, apply_delete_all db rel_id env))
  | PContactClose _ =>
      burn_relationship remove_service rel_id ;;
      mret ([EvContactClosed rel_id], true)
  | PResyncReq req =>
      live (pass <- rate_allow SurfResyncReq rel_id ;;
            if pass then apply_resync_req rel_id req ;; mret [] else mret [])
  | PAttachHead p => live (run_attach_head rel_id env p)
  | PAttachChunk c => live (on_db_res (λ db, on_attach_chunk sha256 db rel_id c))
  | PProfile p =>
      live (on_db (λ db, let '(db, changed) := apply_inbound db rel_id p in
                         (db, if changed then [EvProfileUpdated rel_id] else [])))
  | PProfileReq _ => live (mret [EvProfileRequested rel_id])
  | PPref p =>
      live (db <- get_db ;;
            db <- lift (map_err EStore (note_peer_prefs db rel_id p)) ;;
            put_db db ;;
            mret [EvPeerPrefs rel_id])
  | PSticker it => live (on_sticker rel_id env it)
  | PStickerCtrl ctrl => live (on_sticker_ctrl rel_id ctrl)
  | PPresence p => live (on_presence rel_id p)
  | PTyping tp => live (on_typing rel_id tp)
  | PRead _ => live (on_db_res (λ db, apply_read db rel_id env))
  | PChatPolicy cp => live (apply_chat_policy rel_id env cp)
  end.

Definition gap_request (opens : bool) (rel_id : string) : M (list EngineEvent) :=
  if opens then maybe_request_resync rel_id else mret [].

(** Gates 6 to 9: a frame that is new. *)
Definition take_frame (rel_id : string) (row : RelRow) (env : Envelope) (sent_at : Z) : M (list EngineEvent) :=
  db <- get_db ;;
  let opens := opens_gap db rel_id (env_app_seq env) in
  put_db (note_inbound_seq db rel_id (env_app_seq env)).1 ;;
  activate rel_id row ;;
  db <- get_db ;;
  if should_drop_inbound (envelope_type env) (env_app_seq env) (history_cut db rel_id)
       (is_tombstoned db rel_id (env_msg_id env))
  then gap_request opens rel_id
  else
    store_inbound rel_id env sent_at ;;
    p <- dispatch rel_id env ;;
    if p.2 : bool then mret p.1
    else
      more <- gap_request opens rel_id ;;
      mret (p.1 ++ more).

Definition already_seen (db : Db) (rel_id : string) (env : Envelope) : bool :=
  bool_decide (is_Some (message db (env_msg_id env))) || has_inbound_seq db rel_id (env_app_seq env).

Definition handle_plaintext (rel_id : string) (plaintext : bytes) : M (list EngineEvent) :=
  env <- decode_envelope plaintext ;;
  let t := envelope_type env in
  db <- get_db ;;
  row <- lift (ok_or (load_relationship db rel_id) UnknownRelationship) ;;
  pass <- caps_gate rel_id t ;;
  if negb pass then mret []
  else
    imply_caps rel_id t ;;
    db <- get_db ;;
    if bool_decide (is_Some (close_state db rel_id)) && negb (bool_decide (t = TResyncReq)) then mret []
    else
      sent_at <- lift (map_err ESync (clamp_sent_at (env_sent_at env) (db_now db))) ;;
      if already_seen db rel_id env then mret []
      else take_frame rel_id row env sent_at.
End Inbound.
