(* ===== verification/Runs.v ===== *)
(** Every engine method evolves the store by the statements of [Writes]: one
    lemma per method, proved by running it. *)

From S2P Require Import Prelude Bin Limits Media RustStr Hex Payloads WirePolicy WireResync WireAttach WireSticker StickerDocs Envelope Frame Policy RateLimit Ephemeral Ledger Settings Sync Session SignalStores EngineTypes StickerPending StickerStore Attach Messages Caps Engine StickerEngine Sends Profiles Burn Writes Inbound.

Section Runs.
Context {Sig Net Rng : Type} `{!SignalStore Sig}.
Context (nfc sha256 : bytes → bytes).
Context (message_encrypt : Sig → string → bytes → Z
                           → Sig * result SignalProtocolError (CiphertextType * bytes)).
Context (kill_switch online : Net → bool).
Context (sender_send : Net → string → bytes → Net * result TransportError unit).
Context (remove_service : Net → string → Net * result TransportError unit).
Context (rng_id : Rng → bytes) (rng_fill : Rng → nat → bytes) (rng_next : Rng → Rng).
Context (private_ok public_ok : bytes → bool).
Context (verify_signature : bytes → bytes → bytes → bool).
Context (calculate_signature : bytes → bytes → bytes → bytes).
Context {codecs : ImageCodecs}.

Local Abbreviation Engine := (@Engine Sig Net Rng).
Local Abbreviation M := (@M Sig Net Rng).
Local Notation "'via' f" := (f nfc message_encrypt kill_switch online sender_send rng_id rng_fill rng_next)
  (at level 10, only parsing).

(** ** Steps beside the store *)

Lemma frames_random_msg_id : frames (Sig := Sig) (Net := Net) (random_msg_id rng_id rng_next).
Proof. done. Qed.
Lemma frames_pad_record bs : frames (Sig := Sig) (Net := Net) (pad_record rng_fill rng_next bs).
Proof. done. Qed.
Lemma frames_random_bytes n : frames (Sig := Sig) (Net := Net) (random_bytes rng_fill rng_next n).
Proof. done. Qed.
Lemma frames_try_send onion intro record alert :
  frames (Sig := Sig) (Rng := Rng) (try_send kill_switch online sender_send onion intro record alert).
Proof. intros e. unfold try_send. by destruct (send_record _ _ _ _ _ _ _ _). Qed.
Lemma frames_get_typing : frames (Sig := Sig) (Net := Net) (Rng := Rng) get_typing.
Proof. done. Qed.
Lemma frames_put_typing t : frames (Sig := Sig) (Net := Net) (Rng := Rng) (put_typing t).
Proof. done. Qed.
Lemma frames_get_presence : frames (Sig := Sig) (Net := Net) (Rng := Rng) get_presence.
Proof. done. Qed.
Lemma frames_put_presence t : frames (Sig := Sig) (Net := Net) (Rng := Rng) (put_presence t).
Proof. done. Qed.
Lemma frames_get_drops : frames (Sig := Sig) (Net := Net) (Rng := Rng) get_drops.
Proof. done. Qed.
Lemma frames_put_drops d : frames (Sig := Sig) (Net := Net) (Rng := Rng) (put_drops d).
Proof. done. Qed.
Lemma frames_rate_allow s rel_id : frames (Sig := Sig) (Net := Net) (Rng := Rng) (rate_allow s rel_id).
Proof. intros e. unfold rate_allow. by destruct (tables_check _ _ _ _ _) as [[[t c] p]|]. Qed.
#[local] Hint Resolve frames_random_msg_id frames_pad_record frames_random_bytes frames_try_send
  frames_get_typing frames_put_typing frames_get_presence frames_put_presence frames_get_drops
  frames_put_drops frames_rate_allow : frames.

(** ** [engine/send.rs] *)

Lemma keeps_run_encrypt rel_id i p t :
  keeps (evolves (Net := Net) (Rng := Rng)) (run_encrypt message_encrypt rel_id i p t).
Proof.
  intros e. unfold run_encrypt. pose proof (writes_encrypt message_encrypt (en_db e) (en_sig e) rel_id i p t) as H.
  destruct (encrypt _ _ _ _ _ _ _) as [[db sg] r]. split; [exact H|done].
Qed.
#[local] Hint Resolve keeps_run_encrypt : calls.

Lemma runs_queue_first_send rel_id row env record alert :
  keeps evolves (queue_first_send (Sig := Sig) (Rng := Rng) nfc kill_switch online sender_send
                   rel_id row env record alert).
Proof. run_method @queue_first_send. Qed.
#[local] Hint Resolve runs_queue_first_send : calls.

Lemma runs_send_envelope rel_id payload ref_id alert :
  keeps evolves (via send_envelope rel_id payload ref_id alert).
Proof. run_method @send_envelope. Qed.
#[local] Hint Resolve runs_send_envelope : calls.

Lemma runs_send_edit rel_id target body : keeps evolves (via send_edit rel_id target body).
Proof. run_method @send_edit. Qed.
Lemma runs_send_delete rel_id target : keeps evolves (via send_delete rel_id target).
Proof. run_method @send_delete. Qed.
Lemma runs_send_delete_all rel_id : keeps evolves (via send_delete_all rel_id).
Proof. run_method @send_delete_all. Qed.
Lemma runs_send_typing rel_id t : keeps evolves (via send_typing rel_id t).
Proof. run_method @send_typing. Qed.
Lemma runs_send_presence rel_id a b : keeps evolves (via send_presence rel_id a b).
Proof. run_method @send_presence. Qed.
Lemma runs_send_read rel_id target : keeps evolves (via send_read rel_id target).
Proof. run_method @send_read. Qed.

(** ** [engine/drain.rs], [close/mod.rs] *)

Lemma runs_drain_loop rows failed sent :
  keeps evolves (drain_loop (Sig := Sig) (Rng := Rng) kill_switch online sender_send rows failed sent).
Proof.
  revert failed sent. induction rows as [|row rows IH]; intros failed sent; run_method @drain_loop.
Qed.
#[local] Hint Resolve runs_drain_loop : calls.

Lemma runs_drain_outbox :
  keeps evolves (drain_outbox (Sig := Sig) (Rng := Rng) kill_switch online sender_send).
Proof.
  run_method @drain_outbox. etrans; [|apply writes_foldl; eauto with writes]. solve_writes.
Qed.

Lemma runs_enter_closing rel_id :
  keeps evolves (enter_closing (Sig := Sig) (Net := Net) (Rng := Rng) rel_id).
Proof. run_method @enter_closing. Qed.
#[local] Hint Resolve runs_enter_closing : calls.

Lemma runs_close_contact rel_id : keeps evolves (via close_contact rel_id).
Proof. run_method @close_contact. Qed.

(** ** [policy/engine.rs] and the resync and policy handlers *)

Lemma runs_apply_outcome rel_id o :
  keeps evolves (apply_outcome (Sig := Sig) (Net := Net) (Rng := Rng) rel_id o).
Proof.
  run_method @apply_outcome. destruct (clamp_expiry_to o), (erase_attachments o); solve_writes.
  etrans; [apply writes_one, w_clamp|apply writes_erase_attach].
Qed.
#[local] Hint Resolve runs_apply_outcome : calls.

Lemma runs_propose_rules rel_id ttl a b : keeps evolves (via propose_rules rel_id ttl a b).
Proof. run_method @propose_rules. Qed.
Lemma runs_accept_rules rel_id : keeps evolves (via accept_rules rel_id).
Proof. run_method @accept_rules. Qed.
Lemma runs_decline_rules rel_id :
  keeps evolves (engine_decline_rules (Sig := Sig) (Net := Net) (Rng := Rng) rel_id).
Proof. run_method @engine_decline_rules. Qed.
Lemma runs_set_capability rel_id cap on : keeps evolves (via set_capability rel_id cap on).
Proof. run_method @set_capability. Qed.

Lemma runs_requeue_all rel_id rts :
  keeps evolves (requeue_all (Sig := Sig) (Net := Net) rng_fill rng_next rel_id rts).
Proof. induction rts as [|rt rts IH]; run_method @requeue_all. Qed.
#[local] Hint Resolve runs_requeue_all : calls.

Lemma runs_apply_resync_req rel_id req : keeps evolves (via apply_resync_req rel_id req).
Proof. run_method @apply_resync_req. Qed.
Lemma runs_apply_chat_policy rel_id env cp : keeps evolves (via apply_chat_policy rel_id env cp).
Proof. run_method @apply_chat_policy. Qed.
Lemma runs_maybe_request_resync rel_id :
  keeps evolves (maybe_request_resync nfc sha256 message_encrypt kill_switch online sender_send rng_id
                   rng_fill rng_next rel_id).
Proof. run_method @maybe_request_resync. Qed.
#[local] Hint Resolve runs_apply_resync_req runs_apply_chat_policy runs_maybe_request_resync : calls.

(** ** [profile/mod.rs] *)

Lemma runs_send_profile rel_id : keeps evolves (via send_profile rel_id).
Proof. run_method @send_profile. Qed.
#[local] Hint Resolve runs_send_profile : calls.
Lemma runs_send_profile_req rel_id : keeps evolves (via send_profile_req rel_id).
Proof. run_method @send_profile_req. Qed.
Lemma runs_send_prefs rel_id p : keeps evolves (via send_prefs rel_id p).
Proof. run_method @send_prefs. Qed.

Lemma runs_broadcast_loop rels sent : keeps evolves (via broadcast_loop rels sent).
Proof. revert sent. induction rels as [|[r row] rels IH]; intros sent; run_method @broadcast_loop. Qed.
#[local] Hint Resolve runs_broadcast_loop : calls.
Lemma runs_broadcast_profile : keeps evolves (via broadcast_profile).
Proof. run_method @broadcast_profile. Qed.

(** ** [stickers/send.rs] and [stickers/inbound.rs] *)

Lemma runs_send_sticker rel_id pack item : keeps evolves (via send_sticker rel_id pack item).
Proof. run_method @send_sticker. Qed.
Lemma runs_send_pieces rel_id mk i l : keeps evolves (via send_pieces rel_id mk i l).
Proof. revert i. induction l as [|p l IH]; intros i; run_method @send_pieces. Qed.
#[local] Hint Resolve runs_send_pieces : calls.
Lemma runs_serve_item rel_id found : keeps evolves (via serve_item rel_id found).
Proof. run_method @serve_item. Qed.
#[local] Hint Resolve runs_serve_item : calls.
Lemma runs_push_prefixes rel_id l : keeps evolves (via push_prefixes rel_id l).
Proof. induction l as [|p l IH]; run_method @push_prefixes. Qed.
#[local] Hint Resolve runs_push_prefixes : calls.
Lemma runs_push_inline_emoji rel_id body : keeps evolves (via push_inline_emoji rel_id body).
Proof. run_method @push_inline_emoji. Qed.
Lemma runs_answer_want_item rel_id sha : keeps evolves (via answer_want_item rel_id sha).
Proof. run_method @answer_want_item. Qed.
Lemma runs_refuse_pack rel_id a b r : keeps evolves (via refuse_pack rel_id a b r).
Proof. run_method @refuse_pack. Qed.
#[local] Hint Resolve runs_push_inline_emoji runs_answer_want_item runs_refuse_pack : calls.
Lemma runs_answer_want_pack rel_id a b :
  keeps evolves (via answer_want_pack private_ok public_ok calculate_signature rel_id a b).
Proof. run_method @answer_want_pack. Qed.
Lemma runs_answer_want_thumbs rel_id a b : keeps evolves (via answer_want_thumbs rel_id a b).
Proof. run_method @answer_want_thumbs. Qed.
Lemma runs_fetch_pack rel_id a b : keeps evolves (via fetch_pack rel_id a b).
Proof. run_method @fetch_pack. Qed.
Lemma runs_fetch_thumbs rel_id a b : keeps evolves (via fetch_thumbs rel_id a b).
Proof. run_method @fetch_thumbs. Qed.
Lemma runs_ack_sticker rel_id sha : keeps evolves (via ack_sticker rel_id sha).
Proof. run_method @ack_sticker. Qed.
#[local] Hint Resolve runs_answer_want_pack runs_answer_want_thumbs runs_fetch_pack runs_ack_sticker : calls.
Lemma runs_on_sticker rel_id env it :
  keeps evolves (on_sticker nfc sha256 message_encrypt kill_switch online sender_send rng_id rng_fill
                   rng_next rel_id env it).
Proof. run_method @on_sticker. Qed.
Lemma runs_item_arrived rel_id sha blob pack :
  keeps evolves (item_arrived nfc sha256 message_encrypt kill_switch online sender_send rng_id rng_fill
                   rng_next rel_id sha blob pack).
Proof. run_method @item_arrived. Qed.
#[local] Hint Resolve runs_on_sticker runs_item_arrived : calls.

(** ** The buffers *)

Lemma evolves_feed {B} e0 b (k : unit → M B) e :
  evolves e0 e → (buffers_wf (en_pending e) → buffers_wf b) →
  (∀ e1, en_db e1 = en_db e → evolves e0 e1 → evolves e0 (k tt e1).1) →
  evolves e0 (mbind (put_pending b) k e).1.
Proof. intros [H1 H2] Hb Hk. apply Hk; [done|]. split; [done|]. cbn. auto. Qed.

Lemma feed_item_wf b key i n data t b' r :
  feed_item b key i n data t = (b', r) → is_u16 i → is_u16 n → buffers_wf b → buffers_wf b'.
Proof.
  intros E Hi Hn Hb. pose proof (pending_step_wf b (OpItem key i n data t) (conj Hi Hn) Hb) as H.
  cbn [pending_step] in H. by rewrite E in H.
Qed.
Lemma feed_pack_wf b key i n data t b' r :
  feed_pack b key i n data t = (b', r) → is_u16 i → is_u16 n → buffers_wf b → buffers_wf b'.
Proof.
  intros E Hi Hn Hb. pose proof (pending_step_wf b (OpPack key i n data t) (conj Hi Hn) Hb) as H.
  cbn [pending_step] in H. by rewrite E in H.
Qed.
Lemma feed_thumbs_wf b key i n data t b' r :
  feed_thumbs b key i n data t = (b', r) → is_u16 i → is_u16 n → buffers_wf b → buffers_wf b'.
Proof.
  intros E Hi Hn Hb. pose proof (pending_step_wf b (OpThumbs key i n data t) (conj Hi Hn) Hb) as H.
  cbn [pending_step] in H. by rewrite E in H.
Qed.

Lemma evolves_get_pending {B} e0 (k : PendingBuffers → M B) e :
  evolves e0 (k (en_pending e) e).1 → evolves e0 (mbind get_pending k e).1.
Proof. done. Qed.

Lemma writes_install_blob db blob pk from_rel cached :
  writes db (install_pack_blob public_ok verify_signature sha256 db blob pk from_rel cached).1.
Proof.
  unfold install_pack_blob. destruct (decode_signed _ _ _ _) as [doc|]; [|reflexivity].
  pose proof (w_install db doc pk from_rel cached) as Hw.
  destruct (install_doc db doc pk from_rel cached) as [db' []]; by apply writes_one.
Qed.
#[local] Hint Resolve writes_install_blob : writes.

Lemma runs_on_sticker_ctrl rel_id ctrl :
  sticker_ctrl_wf ctrl →
  keeps evolves (on_sticker_ctrl nfc sha256 message_encrypt kill_switch online sender_send rng_id rng_fill
    rng_next private_ok public_ok verify_signature calculate_signature rel_id ctrl).
Proof.
  intros Hw. apply keeps_start. intros e He. unfold on_sticker_ctrl. apply evolves_now, evolves_get_pending.
  destruct ctrl; cbn [sticker_ctrl_wf] in Hw; destruct_and?; try solve [run].
  - destruct (feed_item _ _ _ _ _ _) as [b r] eqn:E.
    apply evolves_feed; [assumption|by eapply feed_item_wf|intros; run].
  - destruct (feed_pack _ _ _ _ _ _) as [b r] eqn:E.
    apply evolves_feed; [assumption|by eapply feed_pack_wf|intros; run].
  - destruct (feed_thumbs _ _ _ _ _ _) as [b r] eqn:E.
    apply evolves_feed; [assumption|by eapply feed_thumbs_wf|intros; run].
Qed.

(** ** [engine/lifecycle.rs], [engine/inbound.rs] *)

Lemma keeps_catch {A} (m : M A) : keeps evolves m → keeps evolves (catch m).
Proof. intros Hm e. unfold catch. specialize (Hm e). by destruct (m e) as [e1 r]. Qed.
#[local] Hint Resolve keeps_catch : calls.

Lemma runs_on_relationship_active rel_id :
  keeps evolves (on_relationship_active nfc sha256 message_encrypt kill_switch online sender_send rng_id
                   rng_fill rng_next rel_id).
Proof. run_method @on_relationship_active. Qed.
#[local] Hint Resolve runs_on_relationship_active : calls.

Lemma runs_decode_envelope pt :
  keeps evolves (decode_envelope (Sig := Sig) (Net := Net) (Rng := Rng) nfc pt).
Proof. run_method @decode_envelope. Qed.

Lemma runs_caps_gate rel_id t : keeps evolves (caps_gate (Sig := Sig) (Net := Net) (Rng := Rng) rel_id t).
Proof. run_method @caps_gate. Qed.
Lemma runs_imply_caps rel_id t : keeps evolves (imply_caps (Sig := Sig) (Net := Net) (Rng := Rng) rel_id t).
Proof. run_method @imply_caps. Qed.
Lemma runs_activate rel_id row :
  keeps evolves (activate nfc sha256 message_encrypt kill_switch online sender_send rng_id rng_fill rng_next
                   rel_id row).
Proof. run_method @activate. Qed.
Lemma runs_store_inbound rel_id env t :
  keeps evolves (store_inbound (Sig := Sig) (Net := Net) (Rng := Rng) nfc rel_id env t).
Proof. run_method @store_inbound. Qed.
Lemma runs_gap_request opens rel_id :
  keeps evolves (gap_request nfc sha256 message_encrypt kill_switch online sender_send rng_id rng_fill
                   rng_next opens rel_id).
Proof. run_method @gap_request. Qed.
#[local] Hint Resolve runs_decode_envelope runs_caps_gate runs_imply_caps runs_activate
  runs_store_inbound runs_gap_request : calls.

Lemma runs_on_db f :
  (∀ db, writes db (f db).1) → keeps evolves (on_db (Sig := Sig) (Net := Net) (Rng := Rng) f).
Proof.
  intros Hf. apply keeps_start. intros e He. unfold on_db. apply evolves_get. specialize (Hf (en_db e)).
  destruct (f (en_db e)) as [db evs]. run.
Qed.

Lemma runs_on_db_res f :
  (∀ db p, f db = Ok p → writes db p.1) → keeps evolves (on_db_res (Sig := Sig) (Net := Net) (Rng := Rng) f).
Proof. intros Hf. run_method @on_db_res. Qed.

Lemma writes_attach_head_left db rel_id env payload : writes db (attach_head_left db rel_id env payload).
Proof. unfold attach_head_left. repeat case_match; eauto with writes. Qed.

Lemma runs_attach_head rel_id env payload :
  keeps evolves (run_attach_head (Sig := Sig) (Net := Net) (Rng := Rng) sha256 rel_id env payload).
Proof. run_method @run_attach_head. all: eauto using writes_attach_head_left with writes. Qed.

Lemma writes_apply_inbound db rel_id p :
  writes db (let '(db', changed) := apply_inbound db rel_id p in
             (db', if changed : bool then [EvProfileUpdated rel_id] else [])).1.
Proof. unfold apply_inbound. cbn [fst]. repeat case_match; eauto with writes. Qed.

Lemma runs_on_presence rel_id p : keeps evolves (on_presence (Sig := Sig) (Net := Net) (Rng := Rng) rel_id p).
Proof. run_method @on_presence. Qed.
Lemma runs_on_typing rel_id tp : keeps evolves (on_typing (Sig := Sig) (Net := Net) (Rng := Rng) rel_id tp).
Proof. run_method @on_typing. Qed.
#[local] Hint Resolve runs_attach_head runs_on_presence runs_on_typing : calls.

Lemma runs_fetch_prefixes rel_id l : keeps evolves (via fetch_prefixes rel_id l).
Proof. induction l as [|p l IH]; run_method @fetch_prefixes. Qed.
Lemma runs_fetch_missing_emoji rel_id body : keeps evolves (via fetch_missing_emoji rel_id body).
Proof. apply runs_fetch_prefixes. Qed.
#[local] Hint Resolve runs_fetch_missing_emoji : calls.

(** ** [engine/send.rs]: text; [attach/mod.rs]: media *)

Lemma runs_send_text rel_id body reply_to : keeps evolves (via send_text rel_id body reply_to).
Proof. run_method @send_text. Qed.
Lemma runs_send_chunks rel_id l : keeps evolves (via send_chunks rel_id l).
Proof. induction l as [|c l IH]; run_method @send_chunks. Qed.
#[local] Hint Resolve runs_send_chunks : calls.

Lemma write_complete db h :
  write db (update_head db h (λ r, with_progress r (ar_chunks r) true (ar_consumed r))).
Proof. apply (w_progress _ _ ar_chunks (λ _, true) ar_consumed). Qed.
#[local] Hint Resolve write_complete : writes.

Lemma runs_send_attachment rel_id spec :
  keeps evolves (send_attachment nfc sha256 message_encrypt kill_switch online sender_send rng_id rng_fill
                   rng_next rel_id spec).
Proof. run_method @send_attachment. Qed.

Definition closes (env : Envelope) : bool :=
  match env_payload env with PContactClose _ => true | _ => false end.

Local Abbreviation dispatch :=
  (dispatch nfc sha256 message_encrypt kill_switch online sender_send remove_service rng_id rng_fill rng_next
     private_ok public_ok verify_signature calculate_signature).
Local Abbreviation take_frame :=
  (take_frame nfc sha256 message_encrypt kill_switch online sender_send remove_service rng_id rng_fill rng_next
     private_ok public_ok verify_signature calculate_signature).
Local Abbreviation handle_plaintext :=
  (handle_plaintext nfc sha256 message_encrypt kill_switch online sender_send remove_service rng_id rng_fill
     rng_next private_ok public_ok verify_signature calculate_signature).

Lemma runs_dispatch rel_id env :
  payload_wf nfc (env_payload env) → closes env = false → keeps evolves (dispatch rel_id env).
Proof.
  unfold closes. intros Hw Hc. apply keeps_start. intros e He. unfold Inbound.dispatch.
  destruct (env_payload env) eqn:Hp; cbn [payload_wf] in Hw; try done;
    (apply evolves_bind; [|intros; run]); try solve [run];
    apply evolves_call; auto with calls.
  all: try (apply runs_on_db; intros db; auto with writes).
  all: try (apply runs_on_db_res; intros db p1 Hp1; eauto with writes).
  - apply writes_apply_inbound.
  - by apply runs_on_sticker_ctrl.
Qed.

Lemma dispatch_live rel_id env e e' p :
  closes env = false → dispatch rel_id env e = (e', Ok p) → p.2 = false.
Proof.
  unfold closes, Inbound.dispatch. destruct (env_payload env); try done; intros _ H;
    apply mbind_Ok in H as (e1 & evs & _ & [= _ <-]); done.
Qed.

(** The outcome of a frame: writes, and for a CONTACT_CLOSE the burn. *)
Definition handled (rel_id : string) (e e' : Engine) : Prop :=
  evolves e e' ∨ ∃ e1, evolves e e1 ∧ e' = (burn_relationship remove_service rel_id e1).1.

Lemma handled_bind {A B} rel_id e0 (m : M A) (k : A → M B) e :
  evolves e0 (m e).1 →
  (∀ a e1, m e = (e1, Ok a) → evolves e0 e1 → handled rel_id e0 (k a e1).1) →
  handled rel_id e0 (mbind m k e).1.
Proof. intros Hm Hk. unfold mbind. destruct (m e) as [e1 [a|x]] eqn:E; cbn [fst] in *; [eauto|by left]. Qed.

Lemma runs_take_frame rel_id row env sent_at :
  payload_wf nfc (env_payload env) → closes env = false → keeps evolves (take_frame rel_id row env sent_at).
Proof.
  intros Hw Hc. pose proof (runs_dispatch rel_id env Hw Hc) as Hd. run_method @Inbound.take_frame.
Qed.

(** The sequence number is recorded first, and whatever follows keeps it. *)
Lemma take_frame_noted rel_id row env sent_at e :
  payload_wf nfc (env_payload env) → closes env = false →
  has_inbound_seq (en_db (take_frame rel_id row env sent_at e).1) rel_id (env_app_seq env) = true.
Proof.
  intros Hw Hc. pose proof (runs_dispatch rel_id env Hw Hc) as Hd.
  set (db1 := (note_inbound_seq (en_db e) rel_id (env_app_seq env)).1).
  set (e1 := (put_db (Sig := Sig) (Net := Net) (Rng := Rng) db1 e).1).
  assert (He : evolves e1 (take_frame rel_id row env sent_at e).1).
  { assert (He1 : evolves e1 e1) by reflexivity. unfold Inbound.take_frame, mbind at 1, get_db at 1.
    unfold mbind at 1. fold db1. change (put_db db1 e) with (e1, @Ok EngineError unit tt). cbn iota. clearbody e1. run. }
  destruct He as [[Hs _]%writes_seqs _]. unfold has_inbound_seq. apply bool_decide_true, Hs.
  change (en_db e1) with db1. cbn. set_solver.
Qed.

Lemma take_frame_handled rel_id row env sent_at e0 e :
  payload_wf nfc (env_payload env) → evolves e0 e →
  handled rel_id e0 (take_frame rel_id row env sent_at e).1.
Proof.
  intros Hw He. destruct (closes env) eqn:Hc.
  2:{ left. by apply evolves_call; [apply runs_take_frame|]. }
  unfold Inbound.take_frame. apply handled_bind; [done|]. intros db ? [= <- <-] _.
  apply handled_bind; [run|]. intros u e1 _ He1.
  apply handled_bind; [run|]. intros u1 e2 _ He2.
  apply handled_bind; [done|]. intros db ? [= <- <-] _.
  destruct (should_drop_inbound _ _ _ _); [left; run|].
  apply handled_bind; [run|]. intros u3 e3 _ He3.
  unfold closes in Hc. unfold Inbound.dispatch. destruct (env_payload env); try done.
  right. exists e3. split; [done|]. unfold mbind at 1 2.
  destruct (burn_relationship remove_service rel_id e3) as [e4 [[]|x]]; done.
Qed.

Lemma decode_envelope_Ok pt e e' env :
  decode_envelope (Sig := Sig) (Net := Net) (Rng := Rng) nfc pt e = (e', Ok env) →
  e' = e ∧ envelope_decode nfc pt = Ok env.
Proof.
  unfold decode_envelope. intros H.
  destruct (envelope_decode nfc pt) as [env'|[]]; cbv [mbind get_drops put_drops throw lift map_err] in H;
    by simplify_eq.
Qed.

(** Every frame, whatever it carries, is handled. *)
Lemma handle_plaintext_handled rel_id pt e : handled rel_id e (handle_plaintext rel_id pt e).1.
Proof.
  unfold Inbound.handle_plaintext. assert (He : evolves e e) by reflexivity.
  apply handled_bind; [run|]. intros env e1 [-> Hd]%decode_envelope_Ok _.
  apply envelope_decoded in Hd as (Hw & _ & _).
  apply handled_bind; [done|]. intros db ? [= <- <-] _.
  apply handled_bind; [run|]. intros row ? [-> Hrow]%lift_Ok _.
  apply handled_bind; [run|]. intros pass e2 _ He2.
  destruct pass; cbn [negb]; [|left; run].
  apply handled_bind; [run|]. intros u e3 _ He3.
  apply handled_bind; [done|]. intros db ? [= <- <-] _.
  destruct (_ && _); [left; run|].
  apply handled_bind; [run|]. intros sent_at ? [-> _]%lift_Ok _.
  destruct (already_seen _ _ _); [left; run|].
  apply take_frame_handled; [|done]. apply Hw.
Qed.
End Runs.
