(* ===== verification/PairingFacts.v ===== *)
(** What pairing guarantees: its calls write only through the statements of
    [Writes], a refused offer leaves nothing behind, a crafted intro cannot
    spend the open offer, and the two sides of a ceremony agree. *)

From S2P Require Import Prelude Bin RustStr Limits Hex Frame Onion PairingQr Policy RateLimit Ephemeral Ledger Settings Sync Session SignalStores EngineTypes Persona StickerPending Engine Profiles Pairing Burn Writes Runs.

Section PairingRuns.
Context {Net Rng : Type} `{crypto : !PairingCrypto Rng} `{hosting : !Hosting Net}.
Context (kill_switch online : Net → bool).
Context (sender_send : Net → string → bytes → Net * result TransportError unit).

Local Abbreviation Engine := (@Engine SignalTables Net Rng).
Local Abbreviation M := (@M SignalTables Net Rng).

(** ** The calls only write statements *)

Lemma frames_get_sig : frames (get_sig (Net := Net) (Rng := Rng)).
Proof. done. Qed.
Lemma frames_put_sig t : frames (put_sig (Net := Net) (Rng := Rng) t).
Proof. done. Qed.
Lemma frames_draw next : frames (draw (Net := Net) (Rng := Rng) next).
Proof. done. Qed.
Lemma frames_call_net {A} (f : Net → Net * result TransportError A) : frames (call_net (Rng := Rng) f).
Proof. intros e. unfold call_net. by destruct (f (en_net e)). Qed.
Lemma frames_try_net {A} (f : Net → Net * result TransportError A) : frames (try_net (Rng := Rng) f).
Proof. intros e. unfold try_net, mbind, call_net. by destruct (f (en_net e)) as [net [a|x]]. Qed.
Lemma frames_try_session {A} (r : result SessionError A) : frames (try_session (Net := Net) (Rng := Rng) r).
Proof. done. Qed.
Lemma frames_try_payload {A} (r : result PairingError A) : frames (try_payload (Net := Net) (Rng := Rng) r).
Proof. done. Qed.
Lemma frames_pfail {A} x : frames (pfail (Net := Net) (Rng := Rng) (A := A) x).
Proof. done. Qed.
Lemma frames_fresh_nonce : frames (fresh_nonce (Net := Net) (Rng := Rng)).
Proof. done. Qed.
Lemma frames_note_intro : frames (note_intro_limited (Net := Net) (Rng := Rng)).
Proof. done. Qed.
Lemma frames_our_payload persona onion auth nonce t :
  frames (our_payload (Net := Net) (Rng := Rng) persona onion auth nonce t).
Proof.
  intros e. unfold our_payload, plift, mbind, lift. destruct (raw_from_hostname _ _ _); [|done].
  cbn [map_err]. destruct (public_bytes auth); [|done]. done.
Qed.
#[local] Hint Resolve frames_get_sig frames_put_sig frames_draw frames_call_net frames_try_net frames_try_session
  frames_try_payload frames_pfail frames_fresh_nonce frames_note_intro frames_our_payload : frames.

Lemma runs_clear_pending : keeps evolves (clear_pending (Net := Net) (Rng := Rng)).
Proof. run_method @clear_pending. Qed.
#[local] Hint Resolve runs_clear_pending : calls.

Lemma runs_sweep_offer now : keeps evolves (sweep_expired_offer (Net := Net) (Rng := Rng) now).
Proof. run_method @sweep_expired_offer. Qed.
#[local] Hint Resolve runs_sweep_offer : calls.

Lemma runs_offer now : keeps evolves (offer (Net := Net) (Rng := Rng) now).
Proof. run_method @offer. Qed.

Lemma runs_accept_request rel_id : keeps evolves (accept_request (Net := Net) (Rng := Rng) rel_id).
Proof. run_method @accept_request. all: unfold plift; run. Qed.

Lemma write_insert_rel db rel_id role state service onion peer ik pub priv nonce peer_nonce qr intro t db' :
  insert_relationship db rel_id role state service onion peer ik pub priv nonce peer_nonce qr intro t = Ok db' →
  state ≠ STATE_REQUEST ∨ request_bucket_full db rel_id = false → writes db db'.
Proof. intros Hi Hb. eapply writes_one, w_new_rel; [exact Hi|]. intros ->. by destruct Hb. Qed.

Local Ltac run_pairing f := apply keeps_start; intros ? ?; unfold f, plift; run.

(** The row's insertion, found again after the run. *)
Local Ltac inserted :=
  match goal with
  | H : insert_relationship ?d _ _ _ _ _ _ _ _ _ _ _ _ _ _ = Ok ?d1 |- writes ?d0 ?d1 =>
      replace d0 with d by congruence; eapply write_insert_rel; [exact H|]
  end.

Lemma runs_accept_inner payload persona rel_id service_id peer_onion auth nonce now :
  keeps evolves (accept_inner (Net := Net) (Rng := Rng) payload persona rel_id service_id peer_onion auth nonce now).
Proof.
  run_pairing @accept_inner.
  inserted. by left.
Qed.

Lemma frames_accept_cleanup service_id rel_id : frames (accept_cleanup (Net := Net) (Rng := Rng) service_id rel_id).
Proof. intros e. unfold accept_cleanup, mbind, call_net. by destruct (remove_service _ _). Qed.

Lemma runs_accept qr_bytes now : keeps evolves (accept (Net := Net) (Rng := Rng) qr_bytes now).
Proof.
  run_method @accept. unfold or_cleanup.
  match goal with |- evolves ?e0 (match ?m ?e with _ => _ end).1 =>
    assert (evolves e0 (m e).1) as Hm by (apply evolves_call; [apply runs_accept_inner|assumption]);
    destruct (m e) as [e9 [r|x]]; [exact Hm|] end.
  cbn [fst]. by apply evolves_frame_end; [apply frames_accept_cleanup|].
Qed.

Lemma writes_decrypt {Sig} parses (dec : Sig → string → Z → bytes → Sig * result SignalProtocolError bytes)
    (h : bytes → bytes) db sg rel_id frame now :
  writes db (decrypt parses dec h db sg rel_id frame now).1.1.
Proof.
  unfold decrypt. destruct (bool_decide _); [done|]. destruct (is_known_inbound_frame _ _ _ _); [done|].
  destruct (parse_frame frame) as [[tag rest]|]; [|done]. destruct (negb _); [done|].
  destruct (dec sg rel_id tag rest) as [sg1 r]. unfold finish_decrypt, note_inbound_frame.
  destruct r as [pt|x].
  - set (db1 := set_rels _ _). assert (writes db db1) as H1 by (apply writes_one; unfold db1; auto with writes).
    destruct (db_inbound_frames db1 !! _); [done|].
    exact (writes_snoc _ _ _ (w_frame db1 rel_id (h frame) _) H1).
  - destruct (classify_signal_error x); cbn [fst]; try reflexivity. apply writes_one, w_broken.
Qed.

Lemma runs_decrypt rel_id frame now : keeps evolves (run_decrypt (Net := Net) (Rng := Rng) rel_id frame now).
Proof.
  intros e. unfold run_decrypt. pose proof (writes_decrypt message_parses message_decrypt sha256 (en_db e)
    (en_sig e) rel_id frame now) as Hw. destruct (decrypt _ _ _ _ _ _ _ _) as [[db t] r]. by split.
Qed.
#[local] Hint Resolve runs_decrypt : calls.

Lemma runs_ingest_message service_id record now :
  keeps evolves (ingest_message (Net := Net) (Rng := Rng) service_id record now).
Proof. run_method @ingest_message. Qed.
#[local] Hint Resolve runs_ingest_message : calls.

Lemma runs_open_request pending payload our_ik their_ik prekey rel_id now e0 e :
  request_bucket_full (en_db e) rel_id = false → evolves e0 e →
  evolves e0 (open_request (Net := Net) (Rng := Rng) pending payload our_ik their_ik prekey rel_id now e).1.
Proof.
  intros Hb He. unfold open_request, plift. run.
  eapply writes_snoc; [apply w_pending|]. inserted. right. congruence.
Qed.

Lemma writes_throttled db service_id now d b : intro_throttled db service_id now = (d, b) → writes db d.
Proof. unfold intro_throttled. destruct (_ <? _); intros [= <- _]; eauto with writes. Qed.
#[local] Hint Resolve writes_throttled : writes.

Lemma runs_ingest_intro pending intro record now :
  keeps evolves (ingest_intro (Net := Net) (Rng := Rng) pending intro record now).
Proof.
  run_pairing @ingest_intro.
  apply runs_open_request; [congruence|done].
Qed.
#[local] Hint Resolve runs_ingest_intro : calls.

Lemma runs_ingest_frame service_id intro record now :
  keeps evolves (ingest_frame (Net := Net) (Rng := Rng) service_id intro record now).
Proof. run_method @ingest_frame. Qed.

Lemma runs_session_encrypt rel_id msg_id pt now :
  keeps evolves (run_session_encrypt (Net := Net) (Rng := Rng) rel_id msg_id pt now).
Proof.
  intros e. unfold run_session_encrypt.
  pose proof (writes_encrypt message_encrypt (en_db e) (en_sig e) rel_id msg_id pt now) as Hw.
  destruct (encrypt _ _ _ _ _ _ _) as [[db t] r]. by split.
Qed.
#[local] Hint Resolve runs_session_encrypt : calls.

Lemma runs_send_message rel_id msg_id pt alert now :
  keeps evolves (send_message (Rng := Rng) kill_switch online sender_send rel_id msg_id pt alert now).
Proof.
  run_pairing @send_message.
Qed.

Lemma frames_restore_loop l : frames (restore_loop (Net := Net) (Rng := Rng) l).
Proof.
  induction l as [|[k row] l IH]; [done|]. intros e. cbn [restore_loop]. unfold mbind.
  pose proof (frames_try_net (λ net, host_service_with_auth net (pc_service_id (rel_pairing row)) (restored_auth row)) e) as H1.
  destruct (try_net _ e) as [e1 [a|x]]; [|done].
  pose proof (frames_try_net (λ net, install_client_auth net (rel_peer_onion row)
    (pc_our_client_auth_private (rel_pairing row))) e1) as H2.
  destruct (try_net _ e1) as [e2 [b|x]]; cbn [fst] in *; [|naive_solver congruence].
  destruct (IH e2) as [H3 H4]. naive_solver congruence.
Qed.
#[local] Hint Resolve frames_restore_loop : frames.

Lemma runs_restore_services : keeps evolves (restore_services (Net := Net) (Rng := Rng)).
Proof. run_method @restore_services. Qed.
End PairingRuns.

(** ** A refused offer leaves nothing behind *)

#[export] Instance same_ns_refl ns : Reflexive (same_ns ns ns).
Proof. by intros t. Qed.
#[export] Instance same_ns_trans ns : Transitive (same_ns ns ns).
Proof.
  intros a b c (A1 & A2 & A3 & A4 & A5 & A6) (B1 & B2 & B3 & B4 & B5 & B6).
  split_and!; [congruence|intros x; etrans; eauto..].
Qed.

Lemma hex_char_hex d : 0 ≤ d < 16 → bz (hex_char d) ≠ 112.
Proof. intros Hd. unfold hex_char. case_match; rewrite bz_zb_small; unfold is_u8, u8_max; lia. Qed.

(** A relationship id is hexadecimal, so it is never the invitation's
    namespace. *)
Lemma rel_id_not_pending `{PairingCrypto Rng} a b : rel_id_of a b ≠ PENDING_NAMESPACE.
Proof.
  unfold rel_id_of, PENDING_NAMESPACE. intros He%(f_equal str_bytes). rewrite str_bytes_str in He.
  destruct (relationship_id sha256 a b) as [|x l]; [done|]. unfold hex_encode in He. cbn in He.
  injection He as He _. apply (f_equal bz) in He. revert He.
  apply hex_char_hex. rewrite Z.shiftr_div_pow2 by lia. pose proof (bz_range x).
  split; [apply Z.div_pos; lia|apply Z.div_lt_upper_bound; lia].
Qed.

Section Accept.
Context {Net Rng : Type} `{crypto : !PairingCrypto Rng} `{hosting : !Hosting Net}.

Local Abbreviation Engine := (@Engine SignalTables Net Rng).
Local Abbreviation M := (@M SignalTables Net Rng).

(** [process_prekey_bundle] works on the stores of one namespace. *)
Definition bundle_local : Prop :=
  ∀ t ns b now rng other, other ≠ ns → same_ns other other (process_prekey_bundle t ns b now rng).1 t.

(** The store is as before, and so is every namespace but one. *)
Definition near (ns : string) (e e' : Engine) : Prop :=
  en_db e' = en_db e ∧ ∀ other, other ≠ ns → same_ns other other (en_sig e') (en_sig e).

Lemma near_refl ns e : near ns e e.
Proof. by split. Qed.
Lemma near_trans ns a b c : near ns a b → near ns b c → near ns a c.
Proof. intros [H1 H2] [H3 H4]. split; [congruence|]. intros o Ho. etrans; [by apply H4|by apply H2]. Qed.

(** Both the tables and the store are as before. *)
Definition quiet {A} (m : M A) : Prop := ∀ e, en_db (m e).1 = en_db e ∧ en_sig (m e).1 = en_sig e.

Lemma quiet_near {A} ns (m : M A) e : quiet m → near ns e (m e).1.
Proof. intros Hq. destruct (Hq e) as [H1 H2]. split; [done|]. intros o _. by rewrite H2. Qed.

Lemma quiet_call_net {A} (f : Net → Net * result TransportError A) : quiet (call_net (Rng := Rng) f).
Proof. intros e. unfold call_net. by destruct (f (en_net e)). Qed.
Lemma quiet_try_net {A} (f : Net → Net * result TransportError A) : quiet (try_net (Rng := Rng) f).
Proof. intros e. unfold try_net, mbind, call_net. by destruct (f (en_net e)) as [net [a|x]]. Qed.
Lemma quiet_lift {A} (r : result EngineError A) : quiet (lift r).
Proof. done. Qed.
Lemma quiet_draw next : quiet (draw (Net := Net) (Rng := Rng) next).
Proof. done. Qed.
Lemma quiet_our_payload persona onion auth nonce t :
  quiet (our_payload (Net := Net) (Rng := Rng) persona onion auth nonce t).
Proof.
  intros e. unfold our_payload, plift, mbind, lift. destruct (raw_from_hostname _ _ _); [|done].
  cbn [map_err]. destruct (public_bytes auth); done.
Qed.

(** [m] fails, if it does, near where it started. *)
Definition fails_near {A} (ns : string) (m : M A) : Prop := ∀ e e' x, m e = (e', Err x) → near ns e e'.

Lemma fails_bind {A B} ns (m : M A) (k : A → M B) :
  (∀ e, near ns e (m e).1) → (∀ a, fails_near ns (k a)) → fails_near ns (mbind m k).
Proof.
  intros Hm Hk e e' x. unfold mbind. pose proof (Hm e) as Hn. destruct (m e) as [e1 [a|y]]; cbn [fst] in Hn.
  - intros H. eapply near_trans; [exact Hn|by eapply Hk].
  - by intros [= <- _].
Qed.
Lemma fails_quiet {A B} ns (m : M A) (k : A → M B) :
  quiet m → (∀ a, fails_near ns (k a)) → fails_near ns (mbind m k).
Proof. intros Hm. apply fails_bind. intros e. by apply quiet_near. Qed.
Lemma fails_last {A} ns (m : M A) : quiet m → fails_near ns m.
Proof. intros Hq e e' x H. pose proof (quiet_near ns m e Hq) as Hn. by rewrite H in Hn. Qed.

(** Rewriting the namespace, from the tables just read. *)
Lemma fails_put_sig {A} ns (g : SignalTables → result EngineError SignalTables) (k : SignalTables → M A) :
  (∀ t t', g t = Ok t' → ∀ other, other ≠ ns → same_ns other other t' t) →
  (∀ t, fails_near ns (k t)) →
  fails_near ns (mbind get_sig (λ t, mbind (lift (g t)) (λ t', mbind (put_sig t') (λ _, k t')))).
Proof.
  intros Hg Hk e e' x. unfold mbind, get_sig, lift, put_sig. destruct (g (en_sig e)) as [t'|y] eqn:Eg.
  - intros H. eapply near_trans; [|by eapply Hk]. split; [done|]. by apply Hg.
  - intros [= <- _]. apply near_refl.
Qed.

Lemma store_persona_local t ns p t' other :
  store_persona t ns p = Ok t' → other ≠ ns → same_ns other other t' t.
Proof.
  unfold store_persona, create_local. destruct (st_locals t !! (ns, tt)); [done|]. intros [= <-] Hne.
  split_and!; cbn; intros; try done; by rewrite lookup_insert_ne by congruence.
Qed.

Lemma accept_inner_fails payload persona rel_id service_id peer_onion auth nonce now :
  bundle_local →
  fails_near rel_id (accept_inner (Net := Net) (Rng := Rng) payload persona rel_id service_id peer_onion auth nonce now).
Proof.
  intros Hloc. unfold accept_inner, try_session, try_payload, plift.
  apply fails_quiet; [apply quiet_try_net|intros our_onion].
  apply fails_quiet; [apply quiet_try_net|intros []].
  apply (fails_put_sig rel_id
    (λ t, map_err EPairing (map_err PfSession (store_persona t rel_id persona)))).
  { intros t t' Hs%map_err_Ok%map_err_Ok other Ho. by eapply store_persona_local. }
  intros _. apply fails_quiet; [apply quiet_lift|intros bundle].
  apply fails_quiet; [apply quiet_draw|intros rng].
  intros e e' x. unfold mbind at 1, get_sig.
  pose proof (Hloc (en_sig e) rel_id bundle now rng) as Hb. unfold process_bundle.
  destruct (process_prekey_bundle _ _ _ _ _) as [t r]. cbn [fst] in Hb. unfold mbind at 1, put_sig.
  set (e1 := mkEngine _ _ _ _ _ _ _ _ _). intros H.
  apply (near_trans _ _ e1); [by split|]. revert H.
  match goal with |- ?m e1 = _ → _ => cut (fails_near rel_id m); [by intros Hm; apply Hm|] end.
  apply fails_quiet; [apply quiet_lift|intros []].
  apply fails_quiet; [apply quiet_our_payload|intros ours].
  intros e2 e3 y. unfold mbind, get_db, lift, put_db, mret.
  destruct (insert_relationship _ _ _ _ _ _ _ _ _ _ _ _ _ _ _); [done|]. intros [= <- _]. apply near_refl.
Qed.

Lemma near_cleanup service_id rel_id e e' :
  near rel_id e e' →
  let e'' := (accept_cleanup (Net := Net) (Rng := Rng) service_id rel_id e').1 in
  near rel_id e e'' ∧ ns_empty rel_id (en_sig e'').
Proof.
  intros Hn. unfold accept_cleanup, mbind, call_net. destruct (remove_service _ _) as [net r]. cbn.
  destruct (delete_namespace_spec (en_sig e') rel_id rel_id) as [Hd _]. split; [|exact Hd].
  apply (near_trans _ _ e'); [done|]. split; [done|]. intros o Ho. by apply delete_namespace_spec.
Qed.

(** The QR passes every check made before anything is written. *)
Definition qr_good (qr_bytes : bytes) (now : Z) : bool :=
  match qr_decode qr_bytes with
  | Ok p => is_ok (verify p now true)
  | Err _ => false
  end.

(** The call [E] stopped before the inner accept. *)
Local Ltac stop E := left; injection E as <- <-; eexists _, _; split_and!; reflexivity || done.

(** Where [accept] hands over to [accept_inner], or stops before it with the
    store and the sessions as they were. *)
Lemma accept_stages qr_bytes now e :
  (∃ x e1, accept qr_bytes now e = (e1, Err x) ∧ en_db e1 = en_db e ∧ en_sig e1 = en_sig e
           ∧ (qr_good qr_bytes now = false → e1 = e))
  ∨ ∃ payload persona auth nonce peer_onion e1,
      let our_ik := kp_public (pe_identity persona) in
      let rel_id := rel_id_of our_ik (qp_identity_key payload) in
      qr_decode qr_bytes = Ok payload ∧ verify payload now true = Ok tt
      ∧ is_own_offer (en_db e) payload = false
      ∧ (∃ rng, generate_persona rng = Ok persona) ∧ (∃ rng, nonce = fill_bytes rng 32)
      ∧ db_rels (en_db e) !! rel_id = None ∧ en_db e1 = en_db e ∧ en_sig e1 = en_sig e
      ∧ accept qr_bytes now e
        = or_cleanup (accept_inner payload persona rel_id (service_id_for our_ik) peer_onion auth nonce now)
            (accept_cleanup (service_id_for our_ik) rel_id) e1.
Proof.
  destruct (accept qr_bytes now e) as [e9 r9] eqn:E. unfold qr_good.
  unfold accept, try_payload, try_session, plift, lift, mbind at 1 in E.
  destruct (qr_decode qr_bytes) as [payload|x]; [|stop E].
  cbn [map_err] in E. unfold mbind at 1 in E.
  destruct (verify payload now true) as [[]|x] eqn:Hv; [|stop E].
  cbn [map_err] in E. unfold mbind at 1, get_db in E.
  destruct (is_own_offer (en_db e) payload) eqn:Ho; [stop E|].
  unfold mbind at 1, draw at 1 in E. unfold mbind at 1 in E.
  destruct (generate_persona (en_rng e)) as [persona|x] eqn:Hg; [|stop E].
  cbn [map_err] in E. unfold load_relationship in E.
  destruct (db_rels (en_db e) !! rel_id_of _ _) eqn:Hr; [stop E|].
  unfold mbind at 1, draw at 1 in E. unfold mbind at 1, fresh_nonce, mbind at 1, draw at 1, mret at 1 in E.
  unfold mbind at 1 in E. destruct (onion_of_raw (qp_onion payload)) as [peer|x] eqn:Hp; [|stop E].
  cbn [map_err en_rng] in E. right.
  match type of E with or_cleanup (accept_inner _ _ _ _ _ ?auth ?nonce _) _ ?e1 = _ =>
    exists payload, persona, auth, nonce, peer, e1 end.
  split_and!; try done; [by eexists|by eexists].
Qed.

(** C9: Accepting an offer fails closed. Whatever stops it (a bad or
    expired code, our own offer, a known contact, the transport, libsignal,
    the relationship cap), the store is untouched, and no persona is left: a
    session namespace is either as it was or empty, and the one emptied
    belongs to no relationship and is not the outstanding invitation's. A
    code that does not decode or verify does not even cost a key
    generation. *)
Theorem accept_fails_closed qr_bytes now (e e' : Engine) x :
  bundle_local → accept qr_bytes now e = (e', Err x) →
  en_db e' = en_db e
  ∧ (qr_good qr_bytes now = false → e' = e)
  ∧ ∀ ns, same_ns ns ns (en_sig e') (en_sig e)
          ∨ (ns_empty ns (en_sig e') ∧ db_rels (en_db e) !! ns = None ∧ ns ≠ PENDING_NAMESPACE).
Proof.
  intros Hloc Ha. destruct (accept_stages qr_bytes now e) as
    [(y & e1 & He & Hdb & Hsig & Hgood)|(payload & persona & auth & nonce & peer & e1 & Hd & Hv & Ho & _ & _ & Hr & Hdb & Hsig & He)].
  { rewrite He in Ha. injection Ha as -> ->. split_and!; [done|done|]. intros ns. left. by rewrite Hsig. }
  cbv zeta in *. set (rel_id := rel_id_of _ _) in *. rewrite He in Ha. unfold or_cleanup in Ha.
  pose proof (accept_inner_fails payload persona rel_id (service_id_for (kp_public (pe_identity persona))) peer auth
    nonce now Hloc e1) as Hf.
  destruct (accept_inner _ _ _ _ _ _ _ _ e1) as [e2 [a|y]]; [done|]. injection Ha as <- ->.
  destruct (near_cleanup (service_id_for (kp_public (pe_identity persona))) rel_id e1 e2 (Hf _ _ eq_refl)) as [[H1 H2] H3].
  split_and!; [by rewrite H1|unfold qr_good; rewrite Hd, Hv; done|].
  intros ns. destruct (decide (ns = rel_id)) as [->|Hne].
  - right. split_and!; [done|done|apply rel_id_not_pending].
  - left. rewrite <- Hsig. by apply H2.
Qed.
End Accept.

(** ** An intro that does not decrypt cannot spend the offer *)

Section Intro.
Context {Net Rng : Type} `{crypto : !PairingCrypto Rng} `{hosting : !Hosting Net}.
Local Abbreviation Engine := (@Engine SignalTables Net Rng).

(** The rows of a namespace a session is opened with. *)
Definition same_keys (ns ns' : string) (t t' : SignalTables) : Prop :=
  st_locals t !! (ns, tt) = st_locals t' !! (ns', tt)
  ∧ (∀ i, st_prekeys t !! (ns, i) = st_prekeys t' !! (ns', i))
  ∧ (∀ i, st_signed_prekeys t !! (ns, i) = st_signed_prekeys t' !! (ns', i))
  ∧ (∀ i, st_kyber_prekeys t !! (ns, i) = st_kyber_prekeys t' !! (ns', i)).

Lemma same_ns_keys ns ns' t t' : same_ns ns ns' t t' → same_keys ns ns' t t'.
Proof. intros (H1 & _ & _ & H4 & H5 & H6). by split_and!. Qed.
Lemma same_keys_trans a b c t1 t2 t3 : same_keys a b t1 t2 → same_keys b c t2 t3 → same_keys a c t1 t3.
Proof.
  intros (A1 & A2 & A3 & A4) (B1 & B2 & B3 & B4). split_and!; [congruence|intros i; etrans; eauto..].
Qed.

(** What libsignal's decryption is given, and what it spends: the stores of
    one namespace, and no pre-key unless it succeeds. *)
Definition prekey_local : Prop :=
  ∀ t ns c other, other ≠ ns → same_ns other other (message_decrypt_prekey t ns c).1 t.
Definition failed_keeps_keys : Prop :=
  ∀ t ns c t' x, message_decrypt_prekey t ns c = (t', Err x) → same_keys ns ns t' t.

Lemma same_ns_swap a b t t' : same_ns a b t t' → same_ns b a t' t.
Proof. intros (H1 & H2 & H3 & H4 & H5 & H6). by split_and!. Qed.

(** There and back: the namespace a failed decryption worked in becomes the
    invitation's again. *)
Lemma restored_persona t t1 t2 rel_id c x :
  prekey_local → failed_keeps_keys → rel_id ≠ PENDING_NAMESPACE → ns_empty rel_id t →
  migrate_namespace t PENDING_NAMESPACE rel_id = (t1, Ok tt) → message_decrypt_prekey t1 rel_id c = (t2, Err x) →
  let t3 := delete_namespace (migrate_namespace t2 rel_id PENDING_NAMESPACE).1 rel_id in
  same_keys PENDING_NAMESPACE PENDING_NAMESPACE t3 t
  ∧ ∀ ns, ns ≠ PENDING_NAMESPACE → same_ns ns ns t3 t.
Proof.
  intros Hloc Hkeys Hne Hemp Hm Hd t3.
  destruct (migrate_into_empty t PENDING_NAMESPACE rel_id) as (t1' & Hm' & Hto & Hfrom & Hoth); [done|done|].
  rewrite Hm in Hm'. injection Hm' as <-.
  pose proof (λ other, Hloc t1 rel_id c other) as Hl. rewrite Hd in Hl. cbn [fst] in Hl.
  destruct (migrate_into_empty t2 rel_id PENDING_NAMESPACE) as (t4 & Hm4 & Hto4 & Hfrom4 & Hoth4); [done| |].
  { unfold ns_empty in *. destruct (Hl PENDING_NAMESPACE) as (H1 & H2 & H3 & H4 & H5 & H6); [done|].
    destruct Hfrom as (F1 & F2 & F3 & F4 & F5 & F6). split_and!; [congruence|intros; etrans; eauto..]. }
  assert (t3 = delete_namespace t4 rel_id) as Ht3 by (unfold t3; by rewrite Hm4).
  rewrite Ht3. clear Ht3 t3. split.
  - eapply (same_keys_trans _ PENDING_NAMESPACE _ _ t4); [by apply same_ns_keys, delete_namespace_spec|].
    eapply (same_keys_trans _ rel_id _ _ t2); [by apply same_ns_keys|].
    eapply (same_keys_trans _ rel_id _ _ t1); [by eapply Hkeys|]. by apply same_ns_keys.
  - intros ns Hns. destruct (decide (ns = rel_id)) as [->|Hr].
    + destruct (delete_namespace_spec t4 rel_id rel_id) as [(H1 & H2 & H3 & H4 & H5 & H6) _].
      destruct Hemp as (E1 & E2 & E3 & E4 & E5 & E6). split_and!; [congruence|intros; etrans; eauto..].
    + etrans; [by apply delete_namespace_spec|]. etrans; [by apply Hoth4|]. etrans; [by apply Hl|]. by apply Hoth.
Qed.

Lemma throttled_frame db service_id now d b :
  intro_throttled db service_id now = (d, b) → db_pending d = db_pending db ∧ db_rels d = db_rels db.
Proof. unfold intro_throttled. destruct (_ <? _); by intros [= <- _]. Qed.

(** The pending persona has no relationship yet. *)
Definition fresh_offer (t : SignalTables) : Prop :=
  ∀ our_ik their_ik, our_identity_key t PENDING_NAMESPACE = Ok our_ik → ns_empty (rel_id_of our_ik their_ik) t.

Lemma open_request_dropped pending payload our_ik their_ik prekey rel_id now (e e' : Engine) :
  open_request pending payload our_ik their_ik prekey rel_id now e = (e', Ok IngDropped) →
  en_db e' = en_db e ∧ ∃ t x, message_decrypt_prekey (en_sig e) rel_id prekey = (t, Err x)
    ∧ en_sig e' = delete_namespace (migrate_namespace t rel_id PENDING_NAMESPACE).1 rel_id.
Proof.
  unfold open_request, mbind at 1, get_sig at 1. destruct (message_decrypt_prekey _ _ _) as [t [pt|x]].
  - unfold mbind at 1, put_sig at 1, try_payload, plift, lift. unfold mbind at 1.
    destruct (onion_of_raw (qp_onion payload)); [|done]. cbn [map_err]. unfold mbind at 1.
    destruct (qr_decode (pp_qr_bytes pending)); [|done]. cbn [map_err]. unfold mbind at 1, get_db, mbind at 1.
    destruct (insert_relationship _ _ _ _ _ _ _ _ _ _ _ _ _ _ _); [|done]. cbn [map_err].
    unfold mbind at 1, put_db, mbind at 1. by destruct (try_net _ _) as [e1 [[]|y]].
  - intros [= <-]. split; [done|]. by eexists _, _.
Qed.

(** C10: An intro that is dropped leaves the offer usable. Whatever arrives
    at the invitation's service (nothing, garbage, a payload by another key,
    a correctly signed intro over a ciphertext that does not decrypt), when
    the answer is a drop the pending row and the relationships are as
    before, the invitation's identity and its three pre-keys are all still
    there, and no other session changed. *)
Theorem dropped_intro_keeps_offer intro record now (e e' : Engine) p :
  prekey_local → failed_keeps_keys → fresh_offer (en_sig e) → db_pending (en_db e) = Some p →
  ingest_frame (pp_service_id p) intro record now e = (e', Ok IngDropped) →
  db_pending (en_db e') = Some p ∧ db_rels (en_db e') = db_rels (en_db e)
  ∧ same_keys PENDING_NAMESPACE PENDING_NAMESPACE (en_sig e') (en_sig e)
  ∧ ∀ ns, ns ≠ PENDING_NAMESPACE → same_ns ns ns (en_sig e') (en_sig e).
Proof.
  intros Hloc Hkeys Hfresh Hp. unfold ingest_frame, mbind at 1, get_db, load_pending.
  rewrite Hp, bool_decide_true by done. unfold ingest_intro.
  destruct (checked_intro intro record now) as [[[payload their_ik] prekey]|]; [|by intros [= <-]].
  unfold mbind at 1, get_sig at 1, mbind at 1, plift at 1, lift.
  destruct (our_identity_key (en_sig e) PENDING_NAMESPACE) as [our_ik|] eqn:Hik; [|done]. cbn [map_err].
  destruct (bool_decide _); [by intros [= <-]|]. unfold mbind at 1, get_db.
  destruct (intro_throttled _ _ _) as [db th] eqn:Hth. apply throttled_frame in Hth as [Ht1 Ht2].
  unfold mbind at 1, put_db. destruct th.
  { intros [= <-]. cbn. rewrite Ht1, Ht2. by split_and!. }
  unfold mbind at 1, get_db. cbn [en_db]. destruct (request_bucket_full _ _).
  { intros [= <-]. cbn. rewrite Ht1, Ht2. by split_and!. }
  unfold mbind at 1, get_sig. cbn [en_sig].
  pose proof (rel_id_not_pending our_ik their_ik) as Hne. set (rel_id := rel_id_of our_ik their_ik) in *.
  destruct (migrate_namespace _ _ _) as [t1 moved] eqn:Hm. unfold mbind at 1, put_sig, mbind at 1, plift, lift.
  destruct moved as [[]|x]; [|done]. cbn [map_err].
  intros [Hdb (t2 & x & Hd & Hsig)]%open_request_dropped. cbn [en_db en_sig] in *. rewrite Hdb, Ht1, Ht2, Hsig.
  split; [done|]. split; [done|]. by eapply restored_persona; [..|apply Hfresh| |]; eauto.
Qed.
End Intro.

(** ** The ceremony *)

Section Ceremony.
Context {Net Rng : Type} `{crypto : !PairingCrypto Rng} `{hosting : !Hosting Net}.
Local Abbreviation Engine := (@Engine SignalTables Net Rng).
Local Abbreviation M := (@M SignalTables Net Rng).

(** What the crates document: the sizes of keys and signatures, that a
    generator fills what it is asked to, and that an identity key pair
    survives serialization. *)
Record crypto_sizes : Prop := {
  cs_public : ∀ rng, field_ok 64 (kp_public (keypair_generate rng));
  cs_range : ∀ rng, 1 ≤ random_range rng 1 16383 ≤ 16383;
  cs_signature : ∀ k m rng s, calculate_signature k m rng = Some s → field_ok 64 s;
  cs_kyber : ∀ rng id k r, kyber_generate rng id k = Some r →
    field_ok MAX_FIELD (kpk_public r) ∧ field_ok 64 (kpk_signature r);
  cs_fill : ∀ rng n, len (fill_bytes rng n) = Z.of_nat n;
  cs_sha3 : ∀ bs, len (sha3_256 bs) = 32;
  cs_identity : ∀ k, identity_pair_try_from (identity_pair_serialize k) = Some k;
}.

Lemma quiet_Ok {A} (m : M A) e e' a : quiet m → m e = (e', Ok a) → en_db e' = en_db e ∧ en_sig e' = en_sig e.
Proof. intros Hq H. pose proof (Hq e) as Hn. by rewrite H in Hn. Qed.

(** The persona a payload was built from. *)
Definition payload_of (persona : Persona) (nonce : bytes) (p : PairingPayload) : Prop :=
  ∃ raw pub t sig, p = with_signature (from_bundle (persona_bundle persona) raw pub nonce (wrap64 t)) sig
    ∧ len raw = ONION_RAW_BYTES ∧ len pub = 32 ∧ field_ok 64 sig.

Lemma raw_from_hostname_len h raw : crypto_sizes →
  raw_from_hostname BASE32_NOPAD_decode sha3_256 h = Ok raw → len raw = ONION_RAW_BYTES.
Proof.
  intros Hc. unfold raw_from_hostname, pubkey_from_hostname. intros (k & Hk & [= <-])%rbind_Ok.
  destruct (negb _); [done|]. apply rbind_Ok in Hk as (r & _ & Hk). destruct (Z.eqb_spec (len r) ONION_RAW_BYTES); [|done].
  cbn [negb] in Hk. unfold checked_pubkey in Hk. destruct (negb _); [done|]. destruct (negb _); [done|].
  injection Hk as <-. apply (len_raw_of_pubkey sha3_256 (cs_sha3 Hc)).
  unfold ONION_RAW_BYTES, len in *. rewrite length_take. lia.
Qed.

Lemma our_payload_Ok persona onion auth nonce t (e e' : Engine) p :
  crypto_sizes → our_payload persona onion auth nonce (wrap64 t) e = (e', Ok p) →
  payload_of persona nonce p ∧ en_db e' = en_db e ∧ en_sig e' = en_sig e.
Proof.
  intros Hc H. split; [|eapply quiet_Ok; [apply quiet_our_payload|exact H]].
  unfold our_payload, try_payload, plift in H.
  apply mbind_Ok in H as (e1 & raw & [-> Hr%map_err_Ok%map_err_Ok]%lift_Ok & H).
  apply mbind_Ok in H as (e2 & pub & [-> Hp%map_err_Ok%map_err_Ok]%lift_Ok & H).
  apply mbind_Ok in H as (e3 & rng & _ & [-> Hs%map_err_Ok%map_err_Ok]%lift_Ok).
  unfold qr_sign in Hs. destruct (calculate_signature _ _ _) as [sig|] eqn:Hsig; [|done]. injection Hs as <-.
  exists raw, pub, t, sig. split_and!; [done|by eapply raw_from_hostname_len| |by eapply cs_signature].
  unfold public_bytes, decode_client_auth_key in Hp. apply rbind_Ok in Hp as (k & _ & Hp).
  destruct (Z.eqb_spec (len k) 32); [|done]. by injection Hp as <-.
Qed.

Lemma payload_of_wf rng persona nonce p :
  crypto_sizes → generate_persona rng = Ok persona → len nonce = 32 → payload_of persona nonce p → payload_wf p.
Proof.
  intros Hc Hg Hn (raw & pub & t & sig & -> & Hr & Hp & Hs). unfold generate_persona in Hg.
  apply rbind_Ok in Hg as (ss & Hss & Hg). apply rbind_Ok in Hg as (ky & Hky & Hg). injection Hg as <-.
  destruct (calculate_signature _ _ _) as [s1|] eqn:E1; [|done]. injection Hss as ->.
  destruct (kyber_generate _ _ _) as [k1|] eqn:E2; [|done]. injection Hky as ->.
  apply (cs_signature Hc) in E1. apply (cs_kyber Hc) in E2 as [E2 E3].
  unfold payload_wf. cbn -[field_ok MAX_FIELD wrap64 u32_max u64_max].
  pose proof (cs_range Hc (rng_next rng)).
  split_and!; try done; try apply (cs_public Hc); try (unfold is_u32, u32_max; lia).
  unfold is_u64, u64_max, wrap64. pose proof (Z.mod_pos_bound t (2 ^ 64)). lia.
Qed.

(** What a completed [insert_relationship] wrote. *)
Lemma insert_Ok db rel_id role state service onion peer ik pub priv nonce peer_nonce qr intro t db' :
  insert_relationship db rel_id role state service onion peer ik pub priv nonce peer_nonce qr intro t = Ok db' →
  db_rels db' !! rel_id = Some (mkRelRow role state peer qr intro SessActive t 0 None 0 policy_columns_default None
    (mkPairingCols service onion ik pub priv nonce peer_nonce)).
Proof.
  unfold insert_relationship. destruct (_ >=? _); [done|]. destruct (db_rels db !! rel_id); [done|].
  intros [= <-]. apply lookup_insert_eq.
Qed.

Lemma accept_inner_Ok payload persona rel_id service_id peer_onion auth nonce now (e e' : Engine) a :
  crypto_sizes → accept_inner payload persona rel_id service_id peer_onion auth nonce now e = (e', Ok a) →
  ac_rel_id a = rel_id
  ∧ ac_sas a = sas sha256 (kp_public (pe_identity persona)) nonce (qp_identity_key payload) (qp_nonce payload)
  ∧ ∃ row ours, db_rels (en_db e') !! rel_id = Some row ∧ payload_of persona nonce ours
    ∧ rel_our_qr_bytes row = qr_encode ours ∧ rel_role row = ROLE_ACCEPTER ∧ rel_state row = STATE_ACTIVE
    ∧ rel_intro_pending row = true
    ∧ pc_our_nonce (rel_pairing row) = nonce ∧ pc_peer_nonce (rel_pairing row) = qp_nonce payload
    ∧ pc_peer_identity_key (rel_pairing row) = qp_identity_key payload.
Proof.
  intros Hc H. unfold accept_inner, try_session, try_payload, plift in H.
  apply mbind_Ok in H as (e1 & our_onion & _ & H). apply mbind_Ok in H as (e2 & _ & _ & H).
  apply mbind_Ok in H as (e3 & t & _ & H). apply mbind_Ok in H as (e4 & t1 & _ & H).
  apply mbind_Ok in H as (e5 & _ & _ & H). apply mbind_Ok in H as (e6 & bundle & _ & H).
  apply mbind_Ok in H as (e7 & rng & _ & H). apply mbind_Ok in H as (e8 & t2 & _ & H).
  destruct (process_bundle _ _ _ _ _) as [t3 r]. apply mbind_Ok in H as (e9 & _ & _ & H).
  apply mbind_Ok in H as (e10 & _ & _ & H). apply mbind_Ok in H as (e11 & ours & Ho & H).
  apply our_payload_Ok in Ho as (Ho & _ & _); [|done].
  apply mbind_Ok in H as (? & db & [= <- <-] & H).
  apply mbind_Ok in H as (e13 & db1 & [-> Hi%map_err_Ok%insert_Ok]%lift_Ok & H).
  apply mbind_Ok in H as (? & [] & [= <-] & [= <- <-]).
  split; [done|]. split; [done|]. eexists _, ours. split; [exact Hi|]. by split_and!.
Qed.

Lemma offer_Ok now (e e' : Engine) o :
  crypto_sizes → offer now e = (e', Ok o) →
  ∃ persona nonce p pending, (∃ rng, generate_persona rng = Ok persona) ∧ len nonce = 32
    ∧ payload_of persona nonce p ∧ of_qr_bytes o = qr_encode p
    ∧ db_pending (en_db e') = Some pending ∧ pp_qr_bytes pending = of_qr_bytes o
    ∧ pp_service_id pending = of_service_id o
    ∧ our_identity_key (en_sig e') PENDING_NAMESPACE = Ok (kp_public (pe_identity persona)).
Proof.
  intros Hc H. unfold offer, try_session, plift in H.
  apply mbind_Ok in H as (e1 & _ & _ & H). apply mbind_Ok in H as (e2 & _ & _ & H).
  apply mbind_Ok in H as (e3 & rng & _ & H).
  apply mbind_Ok in H as (e4 & persona & [-> Hg%map_err_Ok%map_err_Ok]%lift_Ok & H).
  apply mbind_Ok in H as (e5 & rng1 & _ & H).
  apply mbind_Ok in H as (e6 & nonce & Hn & H).
  apply mbind_Ok in H as (e7 & onion & _ & H). cbv zeta in H.
  apply mbind_Ok in H as (e8 & p & Hp & H). apply our_payload_Ok in Hp as (Hp & _ & _); [|done].
  apply mbind_Ok in H as (? & t & [= <- <-] & H).
  apply mbind_Ok in H as (e10 & t1 & [-> Hs%map_err_Ok%map_err_Ok]%lift_Ok & H).
  apply mbind_Ok in H as (? & [] & [= <-] & H). apply mbind_Ok in H as (? & db & [= <- <-] & H). cbn [en_db] in H.
  destruct (db_pending (en_db e8)); [done|]. apply mbind_Ok in H as (? & [] & [= <-] & [= <- <-]).
  exists persona, nonce, p. eexists. split_and!; [by eexists| |done|done|done|done|done|].
  - unfold fresh_nonce in Hn. apply mbind_Ok in Hn as (? & r & _ & [= _ <-]). apply (cs_fill Hc).
  - cbn [en_sig]. unfold store_persona, create_local in Hs. destruct (st_locals (en_sig e8) !! _); [done|].
    injection Hs as <-. unfold our_identity_key. cbn. rewrite lookup_insert_eq. by rewrite (cs_identity Hc).
Qed.

Lemma open_request_Ok pending payload our_ik their_ik prekey rel_id now (e e' : Engine) rel_id' code pt :
  open_request pending payload our_ik their_ik prekey rel_id now e = (e', Ok (RequestReceived rel_id' code pt)) →
  rel_id' = rel_id ∧ ∃ our_offer row, qr_decode (pp_qr_bytes pending) = Ok our_offer
    ∧ code = sas sha256 our_ik (qp_nonce our_offer) their_ik (qp_nonce payload)
    ∧ db_rels (en_db e') !! rel_id = Some row ∧ db_pending (en_db e') = None
    ∧ rel_role row = ROLE_INVITER ∧ rel_state row = STATE_REQUEST ∧ rel_our_qr_bytes row = pp_qr_bytes pending
    ∧ pc_our_nonce (rel_pairing row) = qp_nonce our_offer ∧ pc_peer_nonce (rel_pairing row) = qp_nonce payload
    ∧ pc_peer_identity_key (rel_pairing row) = their_ik.
Proof.
  intros H. unfold open_request, try_payload, plift in H. apply mbind_Ok in H as (? & t & [= <- <-] & H).
  destruct (message_decrypt_prekey _ _ _) as [t1 [plain|x]]; apply mbind_Ok in H as (? & [] & [= <-] & H).
  2:{ apply mbind_Ok in H as (? & t2 & _ & H). by apply mbind_Ok in H as (? & [] & _ & [=]). }
  apply mbind_Ok in H as (e2 & peer & [-> _]%lift_Ok & H).
  apply mbind_Ok in H as (e3 & ours & [-> Ho%map_err_Ok%map_err_Ok]%lift_Ok & H).
  apply mbind_Ok in H as (? & db & [= <- <-] & H).
  apply mbind_Ok in H as (e5 & db1 & [-> Hi%map_err_Ok%insert_Ok]%lift_Ok & H).
  apply mbind_Ok in H as (? & [] & [= <-] & H). apply mbind_Ok in H as (e7 & [] & Hn & [= <- <- <- <-]).
  apply quiet_Ok in Hn as [Hn _]; [|apply quiet_try_net]. rewrite Hn. split; [done|].
  eexists ours, _. split; [done|]. split; [done|]. split; [exact Hi|]. by split_and!.
Qed.

Lemma checked_intro_Ok intro record now payload their_ik prekey :
  checked_intro (Some intro) record now = Some (payload, their_ik, prekey) →
  qr_decode intro = Ok payload ∧ their_ik = qp_identity_key payload.
Proof.
  unfold checked_intro. destruct (qr_decode intro) as [p|]; [|done]. cbn [rbind].
  destruct (verify p now false); [|done]. cbn [rbind]. destruct (parse_record record); [|done].
  destruct (parse_prekey_frame _) as [[ik m]|]; [|done]. case_bool_decide; [|done]. by intros [= <- <- <-].
Qed.

Lemma ingest_Ok pending service_id intro record now (e e' : Engine) rel_id code pt our_ik :
  db_pending (en_db e) = Some pending → pp_service_id pending = service_id →
  our_identity_key (en_sig e) PENDING_NAMESPACE = Ok our_ik →
  ingest_frame service_id (Some intro) record now e = (e', Ok (RequestReceived rel_id code pt)) →
  ∃ payload prekey e1, qr_decode intro = Ok payload ∧ our_ik ≠ qp_identity_key payload
    ∧ open_request pending payload our_ik (qp_identity_key payload) prekey
        (rel_id_of our_ik (qp_identity_key payload)) now e1 = (e', Ok (RequestReceived rel_id code pt)).
Proof.
  intros Hp Hs Hik. unfold ingest_frame, mbind at 1, get_db, load_pending. rewrite Hp, bool_decide_true by done.
  unfold ingest_intro. destruct (checked_intro _ _ _) as [[[payload ik] prekey]|] eqn:Hc; [|done].
  apply checked_intro_Ok in Hc as [Hd ->]. unfold mbind at 1, get_sig at 1, mbind at 1, plift at 1, lift.
  rewrite Hik. cbn [map_err]. case_bool_decide as Hne; [done|]. unfold mbind at 1, get_db.
  destruct (intro_throttled _ _ _) as [db [|]]; unfold mbind at 1, put_db; [done|].
  unfold mbind at 1, get_db. destruct (request_bucket_full _ _); [done|]. unfold mbind at 1, get_sig.
  destruct (migrate_namespace _ _ _) as [t1 [[]|x]]; unfold mbind at 1, put_sig, mbind at 1, plift, lift; [|done].
  cbn [map_err]. intros H. eexists payload, prekey, _. split; [done|]. split; [congruence|exact H].
Qed.

(** C8: The ceremony agrees. When the inviter's offer was accepted, and the
    accepter's first frame, carrying its signed payload as the intro, came in
    at the invitation's service, both sides hold the relationship under the
    same id, show the same safety code, and store mirror images of the keys
    and nonces: the inviter as a request, the accepter as active, with the
    invitation's slot free again. *)
Theorem ceremony_agrees now0 (a0 a1 : Engine) o now1 (b0 b1 : Engine) acc rowB record now2 (a2 : Engine) rel_id code pt :
  crypto_sizes →
  offer now0 a0 = (a1, Ok o) →
  accept (of_qr_bytes o) now1 b0 = (b1, Ok acc) →
  db_rels (en_db b1) !! ac_rel_id acc = Some rowB →
  ingest_frame (of_service_id o) (Some (rel_our_qr_bytes rowB)) record now2 a1
    = (a2, Ok (RequestReceived rel_id code pt)) →
  rel_id = ac_rel_id acc ∧ code = ac_sas acc ∧ db_pending (en_db a2) = None
  ∧ ∃ rowA, db_rels (en_db a2) !! rel_id = Some rowA
    ∧ rel_role rowA = ROLE_INVITER ∧ rel_state rowA = STATE_REQUEST
    ∧ rel_role rowB = ROLE_ACCEPTER ∧ rel_state rowB = STATE_ACTIVE
    ∧ rel_our_qr_bytes rowA = of_qr_bytes o
    ∧ pc_our_nonce (rel_pairing rowA) = pc_peer_nonce (rel_pairing rowB)
    ∧ pc_peer_nonce (rel_pairing rowA) = pc_our_nonce (rel_pairing rowB)
    ∧ pc_peer_identity_key (rel_pairing rowA) ≠ pc_peer_identity_key (rel_pairing rowB).
Proof.
  intros Hc Hoffer Haccept HrowB Hingest.
  destruct (offer_Ok _ _ _ _ Hc Hoffer) as (pA & nA & qA & pend & [rA HgA] & HlA & HqA & Hqr & Hpend & Hpqr & Hps & HikA).
  pose proof (payload_of_wf _ _ _ _ Hc HgA HlA HqA) as HwA.
  destruct (accept_stages (of_qr_bytes o) now1 b0) as
    [(x & e1 & He & _)|(qA' & pB & auth & nB & peer & e1 & Hd & _ & _ & [rB HgB] & [rn ->] & _ & _ & _ & He)];
    [congruence|].
  rewrite Hqr in Hd. apply qr_decode_encode in Hd as ->; [|done].
  cbv zeta in He. rewrite He in Haccept. unfold or_cleanup in Haccept.
  destruct (accept_inner _ _ _ _ _ _ _ _ e1) as [e2 [acc'|y]] eqn:Hin; [|done]. injection Haccept as -> ->.
  apply accept_inner_Ok in Hin as (Hrel & Hsas & row & ours & Hrow & Hours & Hq & Hrole & Hst & _ & Hn1 & Hn2 & Hn3); [|done].
  rewrite Hrel, Hrow in HrowB. injection HrowB as ->.
  pose proof (payload_of_wf _ _ _ _ Hc HgB (cs_fill Hc rn 32) Hours) as HwB.
  rewrite Hq in Hingest. eapply ingest_Ok in Hingest as (qB & prekey & a3 & HdB & Hne & Hopen); [|done|done|done].
  apply qr_decode_encode in HdB as ->; [|done].
  apply open_request_Ok in Hopen as (-> & qA2 & rowA & HdA & -> & HrowA & Hnone & Hr1 & Hr2 & Hr3 & Hm1 & Hm2 & Hm3).
  rewrite Hpqr, Hqr in HdA. apply qr_decode_encode in HdA as ->; [|done].
  assert (HA : qp_identity_key qA = kp_public (pe_identity pA) ∧ qp_nonce qA = nA)
    by (by destruct HqA as (? & ? & ? & ? & -> & _)).
  assert (HB : qp_identity_key ours = kp_public (pe_identity pB) ∧ qp_nonce ours = fill_bytes rn 32)
    by (by destruct Hours as (? & ? & ? & ? & -> & _)).
  destruct HA as [HA1 HA2], HB as [HB1 HB2].
  destruct (pairing_values_agree sha256 (kp_public (pe_identity pA)) nA (kp_public (pe_identity pB)) (fill_bytes rn 32))
    as (Hid & Hcode & _).
  assert (Hids : rel_id_of (kp_public (pe_identity pA)) (qp_identity_key ours) = ac_rel_id acc)
    by (rewrite Hrel; unfold rel_id_of; rewrite HA1, HB1, Hid; done).
  split_and!; [done| |done|].
  - rewrite Hsas, HA1, HA2, HB1, HB2. apply Hcode. congruence.
  - exists rowA. split_and!; congruence.
Qed.
End Ceremony.

(** ** Witnesses: toy cryptography and a transport that hosts everything *)

Definition toy_signature : bytes := replicate 64 (zb 0).
Definition toy_keys (r : Z) : KeyPair := mkKeyPair (replicate 33 (zb (1 + r))) (replicate 32 (zb (100 + r))).

(** A key pair serialized with its public half escaped. *)
Definition toy_pair_serialize (k : KeyPair) : bytes :=
  concat ((λ b, [zb 0; b]) <$> kp_public k) ++ [zb 1] ++ kp_private k.
Fixpoint toy_pair_parse (n : nat) (bs acc : bytes) : option KeyPair :=
  match n, bs with
  | S n, t :: bs =>
      if bool_decide (t = zb 1) then Some (mkKeyPair acc bs)
      else match bs with
           | b :: bs => toy_pair_parse n bs (acc ++ [b])
           | [] => None
           end
  | _, _ => None
  end.

Lemma toy_pair_roundtrip k : toy_pair_parse (S (length (toy_pair_serialize k))) (toy_pair_serialize k) [] = Some k.
Proof.
  destruct k as [pub priv]. unfold toy_pair_serialize. cbn [kp_public kp_private].
  cut (∀ n acc, (length pub < n)%nat →
    toy_pair_parse n (concat ((λ b, [zb 0; b]) <$> pub) ++ [zb 1] ++ priv) acc = Some (mkKeyPair (acc ++ pub) priv)).
  { intros H. apply H. rewrite length_app. cut (length pub ≤ length (concat ((λ b, [zb 0; b]) <$> pub)))%nat; [cbn; lia|].
    clear. induction pub; cbn in *; lia. }
  induction pub as [|b pub IH]; intros [|n] acc Hn; cbn in Hn; try lia.
  - cbn. by rewrite app_nil_r.
  - cbn. rewrite IH by lia. by rewrite <- app_assoc.
Qed.

Definition toy_base32_encode (bs : bytes) : bytes := if len bs =? 35 then b32_encode35 bs else hex_encode bs.
Definition toy_base32_decode (s : bytes) : option bytes :=
  if len s =? 56 then b32_decode35 s else toy_bs58_decode s.

(** The ciphertext is the sender's identity, a mark (zero does not decrypt),
    and the plaintext. *)
Definition toy_decrypt_prekey (t : SignalTables) (ns : string) (c : bytes)
    : SignalTables * result SignalProtocolError bytes :=
  if bool_decide (take 1 (drop 33 c) = [zb 1]) then (store_session t ns ns [zb 1], Ok (drop 34 c))
  else (t, Err InvalidMessage).
Definition toy_encrypt_prekey (t : SignalTables) (ns : string) (p : bytes) (now : Z)
    : SignalTables * result SignalProtocolError (CiphertextType * bytes) :=
  match st_locals t !! (ns, tt) with
  | Some (_, blob) =>
      match toy_pair_parse (S (length blob)) blob [] with
      | Some k => (t, Ok (CtPreKey, kp_public k ++ [zb 1] ++ p))
      | None => (t, Err SigOther)
      end
  | None => (t, Ok (CtSignal, p))
  end.

#[local] Instance toy_pairing : PairingCrypto Z := {|
  rng_next := Z.succ;
  fill_bytes := λ r n, replicate n (zb r);
  random_range := λ _ lo _, lo;
  keypair_generate := toy_keys;
  kyber_generate := λ r id _, Some (mkKyberPreKeyRecord id (replicate 40 (zb r)) [] toy_signature);
  calculate_signature := λ _ _ _, Some toy_signature;
  verify_signature := λ _ _ s, bool_decide (s = toy_signature);
  identity_key_try_from := Some;
  identity_pair_serialize := toy_pair_serialize;
  identity_pair_try_from := λ b, toy_pair_parse (S (length b)) b [];
  public_key_deserialize := Some;
  kem_key_deserialize := Some;
  pre_key_serialize := λ r, kp_private (opk_pair r);
  signed_pre_key_serialize := λ r, kp_private (spk_pair r);
  kyber_pre_key_serialize := kpk_public;
  x25519_public := id;
  prekey_message_identity := λ c, if len c >=? 34 then Some (take 33 c) else None;
  signal_message_parses := λ _, true;
  process_prekey_bundle := λ t ns _ _ _, (store_session t ns ns [zb 1], Ok tt);
  message_decrypt_prekey := toy_decrypt_prekey;
  message_decrypt_signal := λ t _ c, (t, Ok c);
  message_encrypt := toy_encrypt_prekey;
  BASE32_NOPAD_encode := toy_base32_encode;
  BASE32_NOPAD_decode := toy_base32_decode;
  bs58_encode := hex_encode;
  bs58_decode := toy_bs58_decode;
  sha256 := λ bs, be_bytes 32 (be_val bs);
  sha3_256 := λ _, replicate 32 (zb 3);
|}.

Definition toy_onion : string :=
  bytes_str (hostname_from_pubkey toy_base32_encode sha3_256 (replicate 32 (zb 2)) ++ ONION_SUFFIX).
#[local] Instance toy_hosting : Hosting unit := {|
  host_service_with_auth := λ net _ _, (net, Ok toy_onion);
  remove_service := λ net _, (net, Ok tt);
  install_client_auth := λ net _ _, (net, Ok tt);
|}.

Lemma toy_sizes : crypto_sizes.
Proof.
  split; cbn.
  - intros r. by vm_compute.
  - lia.
  - intros k m r s [= <-]. by vm_compute.
  - intros r id k x [= <-]. by vm_compute.
  - intros r n. unfold len. by rewrite length_replicate.
  - intros _. by vm_compute.
  - apply toy_pair_roundtrip.
Qed.

(** An engine without relationships. *)
Definition pair_engine (rng : Z) : Engine (Sig := SignalTables) (Net := unit) (Rng := Z) :=
  mkEngine (set_rels demo_db ∅) signal_empty tt rng ∅ typing_new buffers_new ∅ drops_new.

Definition ask {A} (d : A) (p : Engine (Sig := SignalTables) (Net := unit) (Rng := Z) * result EngineError A) : A :=
  match p.2 with Ok a => a | Err _ => d end.

Definition demo_offering := offer 1000 (pair_engine 0).
Definition demo_offer : Offer := ask (mkOffer [] [] "" 0 "") demo_offering.
Definition demo_accepting := accept (of_qr_bytes demo_offer) 1001 (pair_engine 50).
Definition demo_accepted : Accepted := ask (mkAccepted "" [] "" "") demo_accepting.
Definition demo_first_frame : bytes :=
  match (encrypt (message_encrypt (PairingCrypto := toy_pairing)) (en_db demo_accepting.1) (en_sig demo_accepting.1) (ac_rel_id demo_accepted)
           demo_id1 [zb 104; zb 105] 1001).2 with
  | Ok frame => match build_record (λ n, replicate n (zb 0)) frame with Ok r => r | Err _ => [] end
  | Err _ => []
  end.
Definition demo_intro : bytes :=
  from_option rel_our_qr_bytes [] (db_rels (en_db demo_accepting.1) !! ac_rel_id demo_accepted).
Definition demo_ingest :=
  ingest_frame (of_service_id demo_offer) (Some demo_intro) demo_first_frame 1002 demo_offering.1.

(** A computation by its state and its answer. *)
Lemma answers {A} (m : Engine (Sig := SignalTables) (Net := unit) (Rng := Z) * result EngineError A) r :
  m.2 = r → m = (m.1, r).
Proof. destruct m. cbn. by intros ->. Qed.

Lemma demo_offering_ok : demo_offering.2 = Ok demo_offer.
Proof. vm_compute. reflexivity. Qed.
Lemma demo_accepting_ok : demo_accepting.2 = Ok demo_accepted.
Proof. vm_compute. reflexivity. Qed.
Lemma demo_ingest_ok :
  demo_ingest.2 = Ok (RequestReceived (ac_rel_id demo_accepted) (ac_sas demo_accepted) [zb 104; zb 105]).
Proof. vm_compute. reflexivity. Qed.

Definition demo_row : RelRow :=
  default demo_rel (db_rels (en_db demo_accepting.1) !! ac_rel_id demo_accepted).
Lemma demo_row_ok : db_rels (en_db demo_accepting.1) !! ac_rel_id demo_accepted = Some demo_row.
Proof. unfold demo_row. destruct (_ !! _) eqn:E; [done|]. exfalso. vm_compute in E. discriminate E. Qed.
Lemma demo_intro_ok : demo_intro = rel_our_qr_bytes demo_row.
Proof. unfold demo_intro. by rewrite demo_row_ok. Qed.
Lemma demo_ingest_row :
  ingest_frame (of_service_id demo_offer) (Some (rel_our_qr_bytes demo_row)) demo_first_frame 1002 demo_offering.1
  = (demo_ingest.1, Ok (RequestReceived (ac_rel_id demo_accepted) (ac_sas demo_accepted) [zb 104; zb 105])).
Proof. rewrite <- demo_intro_ok. apply (answers demo_ingest), demo_ingest_ok. Qed.

Lemma ceremony_agrees_witness :
  ac_rel_id demo_accepted ≠ "" ∧ db_pending (en_db demo_ingest.1) = None.
Proof.
  destruct (ceremony_agrees 1000 (pair_engine 0) demo_offering.1 demo_offer 1001 (pair_engine 50) demo_accepting.1
    demo_accepted demo_row demo_first_frame 1002 demo_ingest.1 (ac_rel_id demo_accepted) (ac_sas demo_accepted)
    [zb 104; zb 105] toy_sizes (answers demo_offering _ demo_offering_ok)
    (answers demo_accepting _ demo_accepting_ok) demo_row_ok demo_ingest_row) as (_ & _ & H & _).
  split; [vm_compute; discriminate|exact H].
Defined.

Lemma toy_bundle_local : bundle_local.
Proof.
  intros t ns b now rng other Hne. cbn. split_and!; cbn; intros; try done. by rewrite lookup_insert_ne by congruence.
Qed.

(** A transport that refuses to host. *)
Definition no_hosting : Hosting unit := {|
  host_service_with_auth := λ net _ _, (net, Err Offline);
  remove_service := λ net _, (net, Err Offline);
  install_client_auth := λ net _ _, (net, Err Offline);
|}.

Definition demo_refused := accept (hosting := no_hosting) (of_qr_bytes demo_offer) 1001 (pair_engine 50).

Lemma demo_refused_ok : demo_refused.2 = Err (EPairing (PfTransport Offline)).
Proof. vm_compute. reflexivity. Qed.

Lemma accept_fails_closed_witness : en_db demo_refused.1 = en_db (pair_engine 50).
Proof.
  destruct (accept_fails_closed (hosting := no_hosting) (of_qr_bytes demo_offer) 1001 (pair_engine 50)
    demo_refused.1 (EPairing (PfTransport Offline)) toy_bundle_local (answers demo_refused _ demo_refused_ok))
    as (H & _).
  exact H.
Defined.

Lemma toy_prekey_local : prekey_local.
Proof.
  intros t ns c other Hne. unfold message_decrypt_prekey. cbn. unfold toy_decrypt_prekey.
  case_bool_decide; [|done]. split_and!; cbn; intros; try done. by rewrite lookup_insert_ne by congruence.
Qed.
Lemma toy_failed_keeps : failed_keeps_keys.
Proof.
  intros t ns c t' x. unfold message_decrypt_prekey. cbn. unfold toy_decrypt_prekey.
  case_bool_decide; [done|]. by intros [= <- _].
Qed.

Definition demo_persona_generated : result SessionError Persona := generate_persona 0.

Lemma demo_offer_fresh : fresh_offer (en_sig demo_offering.1).
Proof.
  intros our_ik their_ik _.
  destruct demo_persona_generated as [p|x] eqn:Hp; [|exfalso; vm_compute in Hp; discriminate Hp].
  apply (store_persona_local signal_empty PENDING_NAMESPACE p); [|apply rel_id_not_pending].
  vm_compute in Hp. injection Hp as <-. vm_compute. reflexivity.
Qed.

(** A correctly signed intro over a ciphertext that does not decrypt. *)
Definition demo_crafted : bytes :=
  match build_record (λ n, replicate n (zb 0)) ([zb TAG_PREKEY] ++ kp_public (toy_keys 50) ++ [zb 0; zb 104]) with
  | Ok r => r
  | Err _ => []
  end.
Definition demo_dropped :=
  ingest_frame (of_service_id demo_offer) (Some demo_intro) demo_crafted 1002 demo_offering.1.
Definition demo_pending : PendingRow :=
  default (mkPendingRow "" "" [] "" 0) (db_pending (en_db demo_offering.1)).

Lemma demo_pending_ok : db_pending (en_db demo_offering.1) = Some demo_pending.
Proof. vm_compute. reflexivity. Qed.
Lemma demo_service_ok : of_service_id demo_offer = pp_service_id demo_pending.
Proof. vm_compute. reflexivity. Qed.
Lemma demo_dropped_ok :
  ingest_frame (pp_service_id demo_pending) (Some demo_intro) demo_crafted 1002 demo_offering.1
  = (demo_dropped.1, Ok IngDropped).
Proof. rewrite <- demo_service_ok. apply (answers demo_dropped). vm_compute. reflexivity. Qed.

Lemma dropped_intro_keeps_offer_witness :
  same_keys PENDING_NAMESPACE PENDING_NAMESPACE (en_sig demo_dropped.1) (en_sig demo_offering.1).
Proof.
  destruct (dropped_intro_keeps_offer (Some demo_intro) demo_crafted 1002 demo_offering.1 demo_dropped.1 demo_pending
    toy_prekey_local toy_failed_keeps demo_offer_fresh demo_pending_ok demo_dropped_ok) as (_ & _ & H & _).
  exact H.
Defined.
