(* ===== verification/EngineWf.v ===== *)
(** The engine as a state machine: its calls as steps, the invariant every
    reachable state has, and what a frame delivered twice does. *)

From S2P Require Import Prelude Bin Limits Media RustStr Hex Payloads WirePolicy WireResync WireAttach WireSticker StickerDocs Envelope Frame Policy RateLimit Ephemeral Ledger Settings Sync Session SignalStores EngineTypes StickerPending StickerStore Attach Messages Caps Engine StickerEngine Sends Profiles Persona Pairing Burn Writes Inbound Runs PairingFacts.

(** ** Erasing keeps the store well formed *)

Lemma burn_rows_rels db rel_id : db_rels (burn_rows db rel_id) = delete rel_id (db_rels db).
Proof. reflexivity. Qed.

Lemma rels_wf_delete db db' rel_id : db_rels db' = delete rel_id (db_rels db) → rels_wf db → rels_wf db'.
Proof.
  unfold rels_wf, pending_count. intros -> [H1 H2]. rewrite map_filter_delete, !map_size_delete.
  split; (etrans; [|eassumption]); destruct (_ !! _); unfold id; lia.
Qed.

Lemma burn_rows_wf db rel_id : store_wf db → store_wf (burn_rows db rel_id).
Proof.
  rewrite !store_wf_iff. intros (H1 & H2 & H3 & H4 & Hr).
  pose proof (rels_wf_delete db (burn_rows db rel_id) rel_id (burn_rows_rels db rel_id) Hr) as Hr'.
  split; [|split; [|split; [|split; [|exact Hr']]]]; cbn; [by apply keyed_filter..|by destruct H4; split].
Qed.

Section Machine.
Context {Net Rng : Type} `{crypto : !PairingCrypto Rng} `{hosting : !Hosting Net} {codecs : ImageCodecs}.
Context (nfc : bytes → bytes).
Context (kill_switch online : Net → bool).
Context (sender_send : Net → string → bytes → Net * result TransportError unit).
(** The pack-signing half of libsignal. *)
Context (private_ok public_ok : bytes → bool).
Context (verify_pack : bytes → bytes → bytes → bool).
Context (sign_pack : bytes → bytes → bytes → bytes).

(** A message id is sixteen bytes of the generator. *)
Local Abbreviation rng_id := (λ r : Rng, fill_bytes r 16).
Local Abbreviation Engine := (@Engine SignalTables Net Rng).
Local Abbreviation M := (@M SignalTables Net Rng).
Local Notation "'via' f" := (f nfc message_encrypt kill_switch online sender_send rng_id fill_bytes rng_next)
  (at level 10, only parsing).
Local Abbreviation handle_plaintext :=
  (handle_plaintext nfc sha256 message_encrypt kill_switch online sender_send remove_service rng_id fill_bytes
     rng_next private_ok public_ok verify_pack sign_pack).
Local Abbreviation burn_relationship := (burn_relationship (Rng := Rng) remove_service).

(** ** The calls *)

Inductive EngineOp :=
| OpFrame (rel_id : string) (plaintext : bytes)
| OpText (rel_id : string) (body : bytes) (reply_to : option bytes)
| OpAttachment (rel_id : string) (spec : AttachmentSpec)
| OpEdit (rel_id : string) (target body : bytes)
| OpDelete (rel_id : string) (target : bytes)
| OpDeleteAll (rel_id : string)
| OpTyping (rel_id : string) (typing : bool)
| OpPresence (rel_id : string) (in_app do_not_disturb : bool)
| OpRead (rel_id : string) (target : bytes)
| OpSticker (rel_id : string) (pack_id : bytes) (item_id : Z)
| OpFetchPack (rel_id : string) (pack_id pack_pk : bytes)
| OpFetchThumbs (rel_id : string) (pack_id pack_pk : bytes)
| OpProfile (rel_id : string)
| OpProfileReq (rel_id : string)
| OpBroadcast
| OpPrefs (rel_id : string) (pref : Pref)
| OpPropose (rel_id : string) (ttl_sec : Z) (screenshot attach_download : bool)
| OpAcceptRules (rel_id : string)
| OpDeclineRules (rel_id : string)
| OpCapability (rel_id : string) (cap_id : Z) (on : bool)
| OpActive (rel_id : string)
| OpClose (rel_id : string)
| OpBurn (rel_id : string)
| OpDrain
| OpSweep
| OpOffer (now : Z)
| OpAbortOffer
| OpSweepOffer (now : Z)
| OpAccept (qr_bytes : bytes) (now : Z)
| OpAcceptCode (code : bytes) (now : Z)
| OpIngest (service_id : string) (intro : option bytes) (record : bytes) (now : Z)
| OpAcceptRequest (rel_id : string)
| OpSendMessage (rel_id : string) (msg_id plaintext : bytes) (alert : bool) (now : Z)
| OpRestore
| OpEnvelope (rel_id : string) (payload : Payload) (ref_id : option bytes) (alert : bool)
| OpEnterClosing (rel_id : string)
| OpFailOutbound (rel_id : string)
| OpViewed (head_id : bytes)
| OpSetProfile (name jpeg : bytes)
| OpCreatePack (title : bytes) (kind visibility icon_item_id : Z) (its : list PackDocItem)
| OpInstallPack (blob pack_pk : bytes) (from_rel : option string) (cached : bool)
| OpRemovePack (pack_id : bytes).

(** [engine/lifecycle.rs]: accept a request, then the activation burst. *)
Definition engine_accept_request (rel_id : string) : M unit :=
  mbind (accept_request rel_id)
    (λ _, on_relationship_active nfc sha256 message_encrypt kill_switch online sender_send rng_id fill_bytes
            rng_next rel_id).

(** [Engine::create_pack]: the id, the key pair and the unused signature of
    the body each draw from the generator. The raw public key is the
    serialized one without its type byte. *)
Definition pack_key_generate (rng : Rng) : PackKey :=
  let pair := keypair_generate rng in mkPackKey (drop 1 (kp_public pair)) (kp_private pair).
Definition engine_create_pack (title : bytes) (kind visibility icon_item_id : Z) (its : list PackDocItem)
    : M (bytes * bytes) := λ e,
  let pack_id := fill_bytes (en_rng e) 16 in
  let rng1 := rng_next (en_rng e) in
  let rng2 := rng_next rng1 in
  let '(db, r) := create_pack (en_db e) pack_id (pack_key_generate rng1) title kind visibility icon_item_id its in
  let rng := match body_bytes (mkStickerPackDoc pack_id kind visibility title icon_item_id its) with
             | Ok _ => rng_next rng2
             | Err _ => rng2
             end in
  (mkEngine db (en_sig e) (en_net e) rng (en_presence e) (en_typing e) (en_pending e) (en_rate e) (en_drops e), r).

(** A call that works on the store alone. *)
Definition on_store {A} (f : Db → Db * result EngineError A) : M A := λ e,
  let '(db, r) := f (en_db e) in
  (mkEngine db (en_sig e) (en_net e) (en_rng e) (en_presence e) (en_typing e) (en_pending e) (en_rate e)
     (en_drops e), r).

(** A call, its value forgotten. *)
Definition discard {A} (m : M A) : M unit := λ e, let '(e, r) := m e in
  (e, match r with Ok _ => Ok tt | Err x => Err x end).

Definition run_op (op : EngineOp) : M unit :=
  match op with
  | OpFrame rel_id pt => discard (handle_plaintext rel_id pt)
  | OpText rel_id body reply_to => discard (via send_text rel_id body reply_to)
  | OpAttachment rel_id spec =>
      discard (send_attachment nfc sha256 message_encrypt kill_switch online sender_send rng_id fill_bytes
                 rng_next rel_id spec)
  | OpEdit rel_id target body => discard (via send_edit rel_id target body)
  | OpDelete rel_id target => discard (via send_delete rel_id target)
  | OpDeleteAll rel_id => discard (via send_delete_all rel_id)
  | OpTyping rel_id t => via send_typing rel_id t
  | OpPresence rel_id a b => via send_presence rel_id a b
  | OpRead rel_id target => via send_read rel_id target
  | OpSticker rel_id p i => discard (via send_sticker rel_id p i)
  | OpFetchPack rel_id a b => via fetch_pack rel_id a b
  | OpFetchThumbs rel_id a b => via fetch_thumbs rel_id a b
  | OpProfile rel_id => via send_profile rel_id
  | OpProfileReq rel_id => via send_profile_req rel_id
  | OpBroadcast => discard (via broadcast_profile)
  | OpPrefs rel_id p => via send_prefs rel_id p
  | OpPropose rel_id t a b => via propose_rules rel_id t a b
  | OpAcceptRules rel_id => discard (via accept_rules rel_id)
  | OpDeclineRules rel_id => engine_decline_rules rel_id
  | OpCapability rel_id c b => discard (via set_capability rel_id c b)
  | OpActive rel_id =>
      on_relationship_active nfc sha256 message_encrypt kill_switch online sender_send rng_id fill_bytes
        rng_next rel_id
  | OpClose rel_id => via close_contact rel_id
  | OpBurn rel_id => burn_relationship rel_id
  | OpDrain => discard (drain_outbox kill_switch online sender_send)
  | OpSweep => discard (sweep remove_service)
  | OpOffer now => discard (offer now)
  | OpAbortOffer => abort_offer
  | OpSweepOffer now => sweep_expired_offer now
  | OpAccept qr_bytes now => discard (accept qr_bytes now)
  | OpAcceptCode code now => discard (accept_code code now)
  | OpIngest service_id intro record now => discard (ingest_frame service_id intro record now)
  | OpAcceptRequest rel_id => engine_accept_request rel_id
  | OpSendMessage rel_id msg_id pt alert now => send_message kill_switch online sender_send rel_id msg_id pt alert now
  | OpRestore => restore_services
  | OpEnvelope rel_id payload ref_id alert =>
      discard (via send_envelope rel_id payload ref_id alert)
  | OpEnterClosing rel_id => enter_closing rel_id
  | OpFailOutbound rel_id => discard (fail_outbound rel_id)
  | OpViewed head_id => on_store (λ db, (attachment_viewed db head_id, Ok tt))
  | OpSetProfile name jpeg => on_store (λ db,
      match set_our_profile nfc db name jpeg with Ok db => (db, Ok tt) | Err x => (db, Err x) end)
  | OpCreatePack title kind visibility icon its => discard (engine_create_pack title kind visibility icon its)
  | OpInstallPack blob pk from_rel cached =>
      discard (on_store (λ db, install_pack_blob public_ok verify_pack sha256 db blob pk from_rel cached))
  | OpRemovePack pack_id => discard (on_store (λ db, ((remove_pack db pack_id).1, Ok (remove_pack db pack_id).2)))
  end.

(** A step is a call, whatever it returns, or the clock moving. *)
Inductive engine_step : Engine → Engine → Prop :=
| step_call op e : engine_step e (run_op op e).1
| step_clock e t : engine_step e (mkEngine
    (mkDb t (db_messages (en_db e)) (db_outbox (en_db e)) (db_inbound_seqs (en_db e))
       (db_tombstones (en_db e)) (db_settings (en_db e)) (db_ciphertexts (en_db e))
       (db_inbound_frames (en_db e)) (db_attachments (en_db e)) (db_chunks (en_db e)) (db_rels (en_db e))
       (db_profiles (en_db e)) (db_stickers (en_db e)) (db_pending (en_db e)))
    (en_sig e) (en_net e) (en_rng e) (en_presence e) (en_typing e) (en_pending e) (en_rate e) (en_drops e)).

(** ** The invariant *)

Definition engine_wf (e : Engine) : Prop := store_wf (en_db e) ∧ buffers_wf (en_pending e).

Lemma evolves_wf e e' : evolves e e' → engine_wf e → engine_wf e'.
Proof. intros [Hw Hb] [H1 H2]. split; [by eapply writes_wf|auto]. Qed.

Lemma burn_wf rel_id e : engine_wf e → engine_wf (burn_relationship rel_id e).1.
Proof.
  intros [H1 H2]. destruct (db_rels (en_db e) !! rel_id) as [row|] eqn:Hr.
  - unfold Burn.burn_relationship, mbind at 1, get_db, load_relationship. rewrite Hr.
    split; [exact (burn_rows_wf (en_db e) rel_id H1)|exact buffers_wf_new].
  - by rewrite burn_absent.
Qed.

Lemma burn_closing_wf l e : engine_wf e → engine_wf (burn_closing remove_service l e).1.
Proof.
  revert e. induction l as [|[r c] l IH]; intros e He; [done|]. cbn [burn_closing]. unfold mbind at 1, get_db.
  destruct (burn_due _ _ _); [|by apply IH].
  pose proof (burn_wf r e He) as Hb. unfold mbind. destruct (burn_relationship r e) as [e1 [[]|x]]; [|done].
  cbn [fst] in Hb. pose proof (IH e1 Hb) as Hl. by destruct (burn_closing remove_service l e1) as [e2 [evs|x]].
Qed.

Lemma keeps_discard {A} (m : M A) e : (discard m e).1 = (m e).1.
Proof. unfold discard. by destruct (m e). Qed.

Lemma wf_bind {A B} (m : M A) (k : A → M B) e :
  engine_wf (m e).1 → (∀ a e1, m e = (e1, Ok a) → engine_wf e1 → engine_wf (k a e1).1) →
  engine_wf (mbind m k e).1.
Proof. intros Hm Hk. unfold mbind. destruct (m e) as [e1 [a|x]]; cbn [fst] in *; eauto. Qed.

Lemma wf_put db e : writes (en_db e) db → engine_wf e → engine_wf (put_db (Sig := SignalTables) (Net := Net) (Rng := Rng) db e).1.
Proof. intros Hw [H1 H2]. split; [by eapply writes_wf|done]. Qed.

Lemma sweep_indicators_wf e : engine_wf e → engine_wf (sweep_indicators (Sig := SignalTables) (Net := Net) (Rng := Rng) e).1.
Proof.
  unfold sweep_indicators. destruct (presence_sweep _ _), (typing_sweep _ _). done.
Qed.

Lemma sweep_pending_wf e : engine_wf e → engine_wf (sweep_pending (Sig := SignalTables) (Net := Net) (Rng := Rng) e).1.
Proof.
  intros [H1 H2]. split; [done|]. exact (pending_step_wf (en_pending e) (StickerPending.OpSweep (db_now (en_db e))) I H2).
Qed.

Lemma sweep_wf e : engine_wf e → engine_wf (sweep remove_service e).1.
Proof.
  intros He. unfold sweep. apply wf_bind; [done|]. intros db ? [= <- <-] _.
  apply wf_bind; [apply wf_put; eauto with writes|]. intros u e1 _ He1.
  apply wf_bind; [done|]. intros db ? [= <- <-] _.
  apply wf_bind; [by apply burn_closing_wf|]. intros closed e2 _ He2.
  apply wf_bind; [by apply sweep_indicators_wf|]. intros dark e3 _ He3.
  apply wf_bind; [done|]. intros db ? [= <- <-] _.
  apply wf_bind; [apply wf_put; [apply writes_foldl; eauto with writes|done]|]. intros u1 e4 _ He4.
  apply wf_bind; [by apply sweep_pending_wf|]. intros u2 e5 _ He5.
  apply wf_bind; [done|]. intros db ? [= <- <-] _.
  apply wf_bind; [apply wf_put; eauto with writes|]. intros u3 e6 _ He6. done.
Qed.

Lemma handled_wf rel_id e e' : handled remove_service rel_id e e' → engine_wf e → engine_wf e'.
Proof.
  intros [H|(e1 & H & ->)] He; [by eapply evolves_wf|]. apply burn_wf. by eapply evolves_wf.
Qed.

Lemma runs_accept_code code now : keeps evolves (accept_code (Net := Net) (Rng := Rng) code now).
Proof.
  intros e. unfold accept_code. apply evolves_bind; [done|]. intros qr e1 [-> _]%lift_Ok _. apply runs_accept.
Qed.

Lemma runs_engine_accept rel_id : keeps evolves (engine_accept_request rel_id).
Proof.
  intros e. unfold engine_accept_request. apply evolves_bind; [apply runs_accept_request|]. intros [] e1 _ He1.
  etrans; [exact He1|]. apply runs_on_relationship_active.
Qed.

Lemma viewed_wf db h : store_wf db → store_wf (attachment_viewed db h).
Proof.
  apply writes_wf. unfold attachment_viewed, mark_consumed. repeat case_match; cbn [fst]; eauto with writes.
Qed.

Lemma sticker_change_wf db db' :
  db_messages db' = db_messages db → db_outbox db' = db_outbox db → db_attachments db' = db_attachments db →
  db_rels db' = db_rels db → stickers_wf db' → store_wf db → store_wf db'.
Proof.
  rewrite !store_wf_iff. unfold pending_count. intros -> -> -> -> Hs (? & ? & ? & _ & ? & ?). done.
Qed.

Lemma create_pack_wf db pack_id key title kind visibility icon its :
  store_wf db → store_wf (create_pack db pack_id key title kind visibility icon its).1.
Proof.
  intros Hw. unfold create_pack. destruct (body_bytes _) as [body|x]; [|done].
  pose proof (w_install db (mkStickerPackDoc pack_id kind visibility title icon its) (pkey_public key) None false) as Hi.
  destruct (install_doc _ _ _ _ _) as [db1 r]. apply write_wf in Hi; [|done]. cbn [fst] in Hi.
  destruct r as [u|x]; [|done]. apply (sticker_change_wf db1); try done.
  destruct Hi as [_ _ _ [] _ _]. by split.
Qed.

Lemma remove_pack_store_wf db pack_id : store_wf db → store_wf (remove_pack db pack_id).1.
Proof.
  intros Hw. apply (sticker_change_wf db); try done. apply remove_pack_wf, Hw.
Qed.

Lemma profile_set_wf db name jpeg db' : set_our_profile nfc db name jpeg = Ok db' → store_wf db → store_wf db'.
Proof.
  unfold set_our_profile. repeat case_match; try done. intros [= <-]. apply writes_wf. eauto with writes.
Qed.

Lemma engine_create_wf title kind visibility icon its (e : Engine) :
  engine_wf e → engine_wf (engine_create_pack title kind visibility icon its e).1.
Proof.
  intros [H1 H2]. unfold engine_create_pack.
  pose proof (create_pack_wf (en_db e) (fill_bytes (en_rng e) 16) (pack_key_generate (rng_next (en_rng e))) title kind
    visibility icon its H1) as Hw.
  destruct (create_pack _ _ _ _ _ _ _ _) as [db r]. by split.
Qed.
Lemma engine_create_pack_frame title kind visibility icon its (e : Engine) :
  let e' := (engine_create_pack title kind visibility icon its e).1 in
  db_rels (en_db e') = db_rels (en_db e) ∧ db_inbound_seqs (en_db e') = db_inbound_seqs (en_db e).
Proof.
  unfold engine_create_pack. set (key := pack_key_generate _). generalize (fill_bytes (en_rng e) 16). intros pid.
  destruct (create_pack _ _ _ _ _ _ _ _) as [db r] eqn:E. cbn [fst en_db].
  unfold create_pack in E. destruct (body_bytes _) as [body|x]; [|by injection E as <- _].
  destruct (install_doc_frame (en_db e) (mkStickerPackDoc pid kind visibility title icon its) (pkey_public key) None false)
    as [s Hs].
  destruct (install_doc _ _ _ _ _) as [db1 [u|x]]; cbn [fst] in Hs; subst db1; by injection E as <- _.
Qed.

(** What a call can do to the engine: evolve it, handle a frame (which for a
    CONTACT_CLOSE ends in the burn), sweep it, or change the packs alone. *)
Inductive op_effect (e : Engine) : Engine → Prop :=
| eff_evolves e' : evolves e e' → op_effect e e'
| eff_handled rel_id e' : handled remove_service rel_id e e' → op_effect e e'
| eff_sweep : op_effect e (sweep remove_service e).1
| eff_packs e' : (engine_wf e → engine_wf e') → db_rels (en_db e') = db_rels (en_db e) →
    db_inbound_seqs (en_db e') = db_inbound_seqs (en_db e) → op_effect e e'.

Lemma evolves_on_store {A} (f : Db → Db * result EngineError A) :
  (∀ db, writes db (f db).1) → keeps evolves (on_store f).
Proof. intros Hf e. unfold on_store. specialize (Hf (en_db e)). destruct (f (en_db e)) as [db r]. by split. Qed.

Lemma run_op_effect op e : op_effect e (run_op op e).1.
Proof.
  destruct op; cbn [run_op]; rewrite ?keeps_discard;
    lazymatch goal with
    | |- op_effect _ (Inbound.handle_plaintext _ _ _ _ _ _ _ _ _ _ _ _ _ _ _ _ _).1 => idtac
    | |- op_effect _ (Burn.burn_relationship _ _ _).1 => idtac
    | |- op_effect _ (sweep _ _).1 => idtac
    | |- op_effect _ (engine_create_pack _ _ _ _ _ _).1 => idtac
    | |- op_effect _ (on_store (λ db, ((remove_pack db _).1, _)) _).1 => idtac
    | _ => apply eff_evolves
    end.
  - eapply eff_handled, handle_plaintext_handled.
  - apply runs_send_text.
  - apply runs_send_attachment.
  - apply runs_send_edit.
  - apply runs_send_delete.
  - apply runs_send_delete_all.
  - apply runs_send_typing.
  - apply runs_send_presence.
  - apply runs_send_read.
  - apply runs_send_sticker.
  - apply runs_fetch_pack.
  - apply runs_fetch_thumbs.
  - apply runs_send_profile.
  - apply runs_send_profile_req.
  - apply runs_broadcast_profile.
  - apply runs_send_prefs.
  - apply runs_propose_rules.
  - apply runs_accept_rules.
  - apply runs_decline_rules.
  - apply runs_set_capability.
  - apply runs_on_relationship_active.
  - apply runs_close_contact.
  - eapply eff_handled. right. exists e. by split.
  - apply runs_drain_outbox.
  - apply eff_sweep.
  - apply runs_offer.
  - apply runs_clear_pending.
  - apply runs_sweep_offer.
  - apply runs_accept.
  - apply runs_accept_code.
  - apply runs_ingest_frame.
  - apply runs_engine_accept.
  - apply runs_send_message.
  - apply runs_restore_services.
  - apply runs_send_envelope.
  - apply runs_enter_closing.
  - run_method @fail_outbound.
  - apply evolves_on_store. intros db. unfold attachment_viewed, mark_consumed.
    repeat case_match; cbn [fst]; eauto with writes.
  - apply evolves_on_store. intros db. unfold set_our_profile. repeat case_match; simplify_eq; cbn [fst]; eauto with writes.
  - apply eff_packs; [apply engine_create_wf|apply engine_create_pack_frame..].
  - apply evolves_on_store. intros db. apply writes_install_blob.
  - apply eff_packs; [|done..]. intros [H1 H2]. split; [by apply remove_pack_store_wf|done].
Qed.

Lemma run_op_wf op e : engine_wf e → engine_wf (run_op op e).1.
Proof.
  intros He. destruct (run_op_effect op e); [by eapply evolves_wf|by eapply handled_wf|by apply sweep_wf|auto].
Qed.

(** ** What a relationship that stays keeps *)

(** The relationship was there and its recorded sequence numbers are kept. *)
Definition kept (rel_id : string) (db db' : Db) : Prop :=
  is_Some (db_rels db !! rel_id) ∧ ∀ s, (rel_id, s) ∈ db_inbound_seqs db → (rel_id, s) ∈ db_inbound_seqs db'.

Lemma burn_kept r rel_id e :
  is_Some (db_rels (en_db (burn_relationship r e).1) !! rel_id) →
  kept rel_id (en_db e) (en_db (burn_relationship r e).1).
Proof.
  intros Hp. destruct (db_rels (en_db e) !! r) as [row|] eqn:Hr.
  2:{ rewrite burn_absent in * by done. by split. }
  destruct (burn_present remove_service r e row Hr) as (e' & He & Hdb & _ & _).
  rewrite He in *. cbn [fst] in *. rewrite Hdb in *. rewrite burn_rows_rels in Hp.
  destruct (decide (rel_id = r)) as [->|Hne]; [rewrite lookup_delete_eq in Hp; by destruct Hp|].
  rewrite lookup_delete_ne in Hp by done. split; [done|]. intros s Hs.
  change (db_inbound_seqs (burn_rows (en_db e) r)) with (filter (λ k : string * Z, k.1 ≠ r) (db_inbound_seqs (en_db e))).
  by apply elem_of_filter.
Qed.

Lemma burn_closing_kept l rel_id (e e' : Engine) res :
  burn_closing remove_service l e = (e', res) → is_Some (db_rels (en_db e') !! rel_id) →
  kept rel_id (en_db e) (en_db e').
Proof.
  revert e res. induction l as [|[r c] l IH]; intros e res; [intros [= <- <-]; by split|].
  cbn [burn_closing]. unfold mbind at 1, get_db. destruct (burn_due _ _ _); [|apply IH].
  pose proof (burn_kept r rel_id e) as Hb. unfold mbind.
  destruct (burn_relationship r e) as [e1 [[]|x]]; cbn [fst] in Hb; [|by intros [= <- <-]].
  destruct (burn_closing remove_service l e1) as [e2 [evs|x]] eqn:E; intros [= <- <-] Hp;
    destruct (IH _ _ E Hp) as [Hp1 Hs1]; destruct (Hb Hp1) as [Hp0 Hs0]; split; eauto.
Qed.

Lemma sweep_kept rel_id e :
  is_Some (db_rels (en_db (sweep remove_service e).1) !! rel_id) →
  kept rel_id (en_db e) (en_db (sweep (Rng := Rng) remove_service e).1).
Proof.
  destruct (sweep_stages remove_service e) as (e1 & closed & dark & e' & -> & Hb & _ & [Hr _ _ _ _ Hs _ _ _ _ _]).
  cbn [fst]. unfold kept. rewrite Hr, Hs. intros Hp.
  exact (burn_closing_kept _ rel_id _ _ _ Hb Hp).
Qed.

(** A step after which the relationship is still there. *)
Definition live_step (rel_id : string) (e e' : Engine) : Prop :=
  engine_step e e' ∧ is_Some (db_rels (en_db e') !! rel_id).

Lemma evolves_seqs (e e' : Engine) : evolves e e' → db_inbound_seqs (en_db e) ⊆ db_inbound_seqs (en_db e').
Proof. intros [[Hs _]%writes_seqs _]. done. Qed.

Lemma live_step_seqs rel_id s e e' :
  live_step rel_id e e' → (rel_id, s) ∈ db_inbound_seqs (en_db e) → (rel_id, s) ∈ db_inbound_seqs (en_db e').
Proof.
  intros [[op e0|e0 t] Hp] Hs; [|done].
  destruct (run_op_effect op e0) as [e2 Hev|r e2 Hh| |e2 _ _ Hq].
  - by apply (evolves_seqs _ _ Hev).
  - destruct Hh as [Hev|(e1 & Hev & ->)]; [by apply (evolves_seqs _ _ Hev)|].
    apply (burn_kept r rel_id e1 Hp). by apply (evolves_seqs _ _ Hev).
  - by apply (sweep_kept rel_id e0 Hp).
  - by rewrite Hq.
Qed.

Lemma live_steps_seqs rel_id s e e' :
  rtc (live_step rel_id) e e' → is_Some (db_rels (en_db e) !! rel_id) → (rel_id, s) ∈ db_inbound_seqs (en_db e) →
  is_Some (db_rels (en_db e') !! rel_id) ∧ (rel_id, s) ∈ db_inbound_seqs (en_db e').
Proof.
  induction 1 as [e|e e1 e' Hstep _ IH]; [by split|]. intros _ Hs.
  apply IH; [apply Hstep|by eapply live_step_seqs].
Qed.

(** ** Delivering a frame twice *)

(** Gates 2 to 4 let the envelope through. *)
Definition passes (db : Db) (rel_id : string) (env : Envelope) : bool :=
  allows (peer_caps db rel_id) (envelope_type env)
  && (bool_decide (close_state db rel_id = None) || bool_decide (envelope_type env = TResyncReq))
  && is_ok (clamp_sent_at (env_sent_at env) (db_now db)).

(** The capability gate and the implied capability leave the engine as it
    is when the gate passes. *)
Lemma caps_pass rel_id t (e : Engine) :
  allows (peer_caps (en_db e) rel_id) t = true →
  caps_gate rel_id t e = (e, Ok true) ∧ imply_caps rel_id t e = (e, Ok tt).
Proof.
  intros Ha. split.
  - unfold caps_gate, mbind, get_db, get_drops, check_inbound. rewrite Ha. cbn. by destruct e as [? ? ? ? ? ? ? ? []].
  - unfold imply_caps. unfold allows, caps_has in Ha. destruct (required_cap t) as [bit|]; [|done].
    unfold mbind, get_db. apply negb_true_iff in Ha. by rewrite Ha.
Qed.

Lemma handle_passed rel_id pt env row e :
  envelope_decode nfc pt = Ok env → db_rels (en_db e) !! rel_id = Some row →
  passes (en_db e) rel_id env = true →
  handle_plaintext rel_id pt e
  = if already_seen (en_db e) rel_id env then (e, Ok [])
    else match clamp_sent_at (env_sent_at env) (db_now (en_db e)) with
         | Ok sent_at =>
             take_frame nfc sha256 message_encrypt kill_switch online sender_send remove_service rng_id fill_bytes
               rng_next private_ok public_ok verify_pack sign_pack rel_id row env sent_at e
         | Err x => (e, Err (ESync x))
         end.
Proof.
  intros Hd Hr [[Ha Hc]%andb_true_iff Hk]%andb_true_iff. destruct (caps_pass rel_id _ e Ha) as [Hg Hi].
  unfold Inbound.handle_plaintext, mbind at 1, decode_envelope. rewrite Hd. cbn [map_err lift].
  unfold mbind at 1, get_db at 1, mbind at 1, load_relationship, lift at 1. rewrite Hr. cbn [ok_or].
  unfold mbind at 1. rewrite Hg. cbn [negb]. unfold mbind at 1. rewrite Hi. unfold mbind at 1, get_db at 1.
  replace (bool_decide (is_Some (close_state (en_db e) rel_id)) && _) with false.
  2:{ symmetry. apply orb_true_iff in Hc as [Hc%bool_decide_eq_true|Hc].
      - rewrite Hc. by rewrite bool_decide_false by (intros [? ?]; done).
      - rewrite Hc. apply andb_false_r. }
  unfold mbind at 1, lift at 1. destruct (clamp_sent_at _ _); [|done]. by destruct (already_seen _ _ _).
Qed.

(** Whatever the other gates answer, a frame already seen changes neither
    the store, nor the session, nor the network. *)
Lemma handle_seen rel_id pt env e :
  envelope_decode nfc pt = Ok env → is_Some (db_rels (en_db e) !! rel_id) →
  already_seen (en_db e) rel_id env = true →
  ∃ e' r, handle_plaintext rel_id pt e = (e', r) ∧ en_db e' = en_db e ∧ en_sig e' = en_sig e
    ∧ en_net e' = en_net e
    ∧ (r = Ok [] ∨ ∃ x, clamp_sent_at (env_sent_at env) (db_now (en_db e)) = Err x ∧ r = Err (ESync x)).
Proof.
  intros Hd [row Hr] Hs.
  unfold Inbound.handle_plaintext, mbind at 1, decode_envelope. rewrite Hd. cbn [map_err lift].
  unfold mbind at 1, get_db at 1, mbind at 1, load_relationship, lift at 1. rewrite Hr. cbn [ok_or].
  destruct (allows (peer_caps (en_db e) rel_id) (envelope_type env)) eqn:Ha.
  - destruct (caps_pass rel_id _ e Ha) as [Hg Hi]. unfold mbind at 1. rewrite Hg. cbn [negb].
    unfold mbind at 1. rewrite Hi. unfold mbind at 1, get_db at 1.
    destruct (_ && _); [eexists e, _; split_and!; try reflexivity; by left|].
    unfold mbind at 1, lift at 1.
    destruct (clamp_sent_at _ _) as [t|x]; [rewrite Hs|]; eexists e, _; split_and!; try reflexivity; eauto.
  - unfold mbind at 1, caps_gate, mbind at 1, get_db, mbind at 1, get_drops, check_inbound. rewrite Ha.
    eexists _, _. split_and!; try reflexivity. by left.
Qed.

(** C5: A frame counts once. Once an envelope other than a CONTACT_CLOSE has
    passed the gates its sequence number is recorded, even when the handling
    then fails. From then on, after any sequence of engine and pairing calls
    and clock moves in which the relationship is not erased, the same frame
    changes neither the store, nor the session, nor the network, and is
    answered with no event, or with the skew error when the moved clock
    refuses its timestamp. (A CONTACT_CLOSE, like a burn, erases the
    relationship and with it these records.) *)
Theorem frame_counts_once rel_id pt env e :
  envelope_decode nfc pt = Ok env → closes env = false →
  is_Some (db_rels (en_db e) !! rel_id) → passes (en_db e) rel_id env = true →
  already_seen (en_db e) rel_id env = false →
  let e1 := (handle_plaintext rel_id pt e).1 in
  has_inbound_seq (en_db e1) rel_id (env_app_seq env) = true
  ∧ ∀ e2, rtc (live_step rel_id) e1 e2 →
      ∃ e3 r, handle_plaintext rel_id pt e2 = (e3, r) ∧ en_db e3 = en_db e2 ∧ en_sig e3 = en_sig e2
        ∧ en_net e3 = en_net e2
        ∧ (r = Ok [] ∨ ∃ x, clamp_sent_at (env_sent_at env) (db_now (en_db e2)) = Err x ∧ r = Err (ESync x)).
Proof.
  intros Hd Hc [row Hr] Hp Hs e1. pose proof (envelope_decoded _ _ _ Hd) as (Hw & _ & _).
  pose proof Hp as [_ Hk]%andb_true_iff.
  assert (Hclamp : ∃ t, clamp_sent_at (env_sent_at env) (db_now (en_db e)) = Ok t)
    by (destruct (clamp_sent_at _ _); [eauto|done]).
  destruct Hclamp as [t Ht].
  assert (He1 : e1 = (take_frame nfc sha256 message_encrypt kill_switch online sender_send remove_service rng_id
    fill_bytes rng_next private_ok public_ok verify_pack sign_pack rel_id row env t e).1).
  { unfold e1. rewrite (handle_passed _ _ _ row) by done. by rewrite Hs, Ht. }
  assert (Hseq : has_inbound_seq (en_db e1) rel_id (env_app_seq env) = true).
  { rewrite He1. apply take_frame_noted; [apply Hw|done]. }
  assert (Hlive : is_Some (db_rels (en_db e1) !! rel_id)).
  { rewrite He1. destruct (runs_take_frame nfc sha256 message_encrypt kill_switch online sender_send remove_service
      rng_id fill_bytes rng_next private_ok public_ok verify_pack sign_pack rel_id row env t ltac:(apply Hw) Hc e) as [Hev _].
    eapply writes_rels; [exact Hev|by exists row]. }
  clearbody e1. split; [done|]. intros e2 H12. unfold has_inbound_seq in Hseq.
  apply bool_decide_eq_true in Hseq.
  assert (is_Some (db_rels (en_db e2) !! rel_id) ∧ (rel_id, as_i64 (env_app_seq env)) ∈ db_inbound_seqs (en_db e2))
    as [Hl2 Hs2].
  { eapply live_steps_seqs; [exact H12|exact Hlive|exact Hseq]. }
  apply (handle_seen rel_id pt env e2); [done..|]. unfold already_seen. apply orb_true_iff. right.
  by apply bool_decide_true.
Qed.

(** C6: In whatever order the engine's calls are made and however each ends,
    its tables stay well typed: every message, outbox and attachment row sits
    under its own key, the sticker tables keep their keys unique and their
    items owned, there are at most [MAX_RELATIONSHIPS] relationships and
    [MAX_PENDING_REQUESTS] requests waiting, and the sticker buffers stay
    within their caps. A step is one of the forty-two calls of [EngineOp] (the
    methods of [Engine] that change state, the calls of the pairing module,
    [send_envelope], [enter_closing] and [set_our_profile]), or the clock
    moving to any time. *)
Theorem reachable_engine_wf (e e' : Engine) : engine_wf e → rtc engine_step e e' → engine_wf e'.
Proof.
  intros He Hr. induction Hr as [e|e e1 e' Hs _ IH]; [done|]. apply IH. clear IH.
  destruct Hs as [op e|e t]; [by apply run_op_wf|].
  destruct He as [[] Hb]. split; [by split|done].
Qed.
End Machine.

(** ** Witnesses *)

Definition demo_msg : Envelope := mkEnvelope demo_id1 1 1000 None (PMsg (mkMsg [zb 104])).
Definition demo_frame : bytes := match envelope_encode id demo_msg with Ok bs => bs | Err _ => [] end.
Definition toy_handle_on :=
  handle_plaintext (codecs := toy_codecs) (Rng := Z) id (sha256 (PairingCrypto := toy_pairing))
    (message_encrypt (PairingCrypto := toy_pairing)) (λ _ : unit, false) (λ _, true) toy_send
    (remove_service (Hosting := toy_hosting)) (λ r, fill_bytes (PairingCrypto := toy_pairing) r 16)
    (fill_bytes (PairingCrypto := toy_pairing)) (rng_next (PairingCrypto := toy_pairing)) (λ _, true) (λ _, true)
    toy_verify toy_sign "rel" demo_frame.
Definition toy_handle (db : Db) := toy_handle_on (demo_burn_engine db).

(** A minute after the frame was handled, it comes again. *)
Definition demo_later (e : Engine (Sig := SignalTables) (Net := unit) (Rng := Z)) :=
  mkEngine (mkDb 1060 (db_messages (en_db e)) (db_outbox (en_db e)) (db_inbound_seqs (en_db e))
    (db_tombstones (en_db e)) (db_settings (en_db e)) (db_ciphertexts (en_db e)) (db_inbound_frames (en_db e))
    (db_attachments (en_db e)) (db_chunks (en_db e)) (db_rels (en_db e)) (db_profiles (en_db e))
    (db_stickers (en_db e)) (db_pending (en_db e)))
    (en_sig e) (en_net e) (en_rng e) (en_presence e) (en_typing e) (en_pending e) (en_rate e) (en_drops e).

Lemma frame_counts_once_witness :
  has_inbound_seq (en_db (toy_handle demo_db).1) "rel" 1 = true
  ∧ ∃ e3 r, toy_handle_on (demo_later (toy_handle demo_db).1) = (e3, r)
    ∧ en_db e3 = en_db (demo_later (toy_handle demo_db).1)
    ∧ (r = Ok [] ∨ ∃ x, clamp_sent_at 1000 1060 = Err x ∧ r = Err (ESync x)).
Proof.
  destruct (frame_counts_once (crypto := toy_pairing) (hosting := toy_hosting) (codecs := toy_codecs) id
    (λ _ : unit, false) (λ _, true) toy_send (λ _, true) (λ _, true) toy_verify toy_sign "rel" demo_frame
    demo_msg (demo_burn_engine demo_db)) as [H H2].
  - vm_compute. reflexivity.
  - reflexivity.
  - exists demo_rel. exact demo_rel_row.
  - vm_compute. reflexivity.
  - vm_compute. reflexivity.
  - split; [exact H|].
    destruct (H2 (demo_later (toy_handle demo_db).1)) as (e3 & r & H3 & H4 & _ & _ & H5).
    + apply rtc_once. split; [apply step_clock|]. eexists. vm_compute. reflexivity.
    + exists e3, r. split; [exact H3|]. split; [exact H4|exact H5].
Defined.

Lemma pair_db_wf : store_wf (set_rels demo_db ∅).
Proof.
  split.
  - intros k r H. discriminate H.
  - intros k r H. discriminate H.
  - intros k r H. discriminate H.
  - split; vm_compute; repeat (constructor || set_solver).
  - vm_compute. discriminate.
  - vm_compute. discriminate.
Qed.

(** A contact is accepted. *)
Lemma reachable_engine_wf_witness : engine_wf demo_accepting.1.
Proof.
  eapply (reachable_engine_wf (crypto := toy_pairing) (hosting := toy_hosting) (codecs := toy_codecs) id
    (λ _ : unit, false) (λ _, true) toy_send (λ _, true) (λ _, true) toy_verify toy_sign (pair_engine 50)).
  - split; [exact pair_db_wf|exact buffers_wf_new].
  - apply rtc_once. unfold demo_accepting. rewrite <- keeps_discard.
    exact (step_call _ _ _ _ _ _ _ _ (OpAccept (of_qr_bytes demo_offer) 1001) _).
Defined.

(** The accepter has chosen an avatar that is not a JPEG, which
    [set_our_profile] accepts. *)
Definition demo_bad_avatar : Db :=
  match set_our_profile id demo_db (str_bytes "Ann") [zb 0] with Ok db => db | Err _ => demo_db end.

(** The first frame of an accepter whose own avatar is not a JPEG is lost:
    the activation burst fails, [handle_plaintext] errs without storing the
    message, and the peer's repeat of the frame is dropped as seen. *)
Example activation_failure_loses_frame :
  let '(e, r) := toy_handle demo_bad_avatar in
  (is_ok r, bool_decide (is_Some (message (en_db e) demo_id1)), (toy_handle (en_db e)).2,
   bool_decide (is_Some (message (en_db (toy_handle (en_db e)).1) demo_id1)))
  = (false, false, Ok [], false).
Proof. vm_compute. reflexivity. Qed.
