(* ===== verification/Vault.v ===== *)
(** The lock boundary ([core/src/vault/mod.rs]): the vault that holds the
    Tier-A queue across lock transitions and the engine only while unlocked.
    The database file and SQLCipher below it are the class [SqlCipher]; the
    network, the CSPRNG and the process-wide drop counters outlive the
    engine, so a locked vault keeps them. *)

From stdpp Require Import sorting.
From S2P Require Import Prelude Bin Limits Media RustStr Hex Payloads StickerDocs Envelope Frame PairingQr Policy RateLimit Ephemeral Ledger Settings Sync Session SignalStores EngineTypes Queue StickerPending StickerStore Attach Messages Caps Engine Sends Profiles Persona Pairing Burn Writes Inbound Runs PairingFacts EngineWf.

Inductive DropOutcome :=
| DoQueued
| DoRequest (rel_id : string) (sas : bytes) (events : list EngineEvent)
| DoMessage (rel_id : string) (events : list EngineEvent)
| DoDuplicate
| DoSessionBroken (rel_id : string) (reason : Detail)
| DoDropped.

Record UnlockReport := mkReport { ur_drained : Z; ur_events : list EngineEvent; ur_errors : Z }.
Definition report_default : UnlockReport := mkReport 0 [] 0.

(** ** The store file *)

(** What a database file holds: the tables, the libsignal ones included. *)
Abbreviation Tables := (Db * SignalTables)%type.

Class SqlCipher := {
  DbFile : Type;
  (** The file starts with [SQLite format 3\0]. *)
  plaintext_file : DbFile → bool;
  (** [sqlcipher_export] of a plaintext file under a key. *)
  export_file : DbFile → bytes → result Detail DbFile;
  (** Opening (or creating) the file under a raw key, up to the first read:
      its [user_version] and its tables. *)
  keyed_open : option DbFile → bytes → result Detail (Z * Tables);
  (** The file a keyed connection leaves. *)
  keyed_file : bytes → Z → Tables → DbFile;
  (** [execute_batch(MIGRATIONS[i])] *)
  run_migration : Z → Tables → result Detail Tables;
}.

Definition DB_FILE : bytes := str_bytes "schat.db".
Definition MIGRATE_FILE : bytes := str_bytes "schat.sqlcipher-migrate".
Definition SCHEMA_VERSION : Z := 6.

Section Store.
Context `{cipher : !SqlCipher}.

(** The migrations from [version] on, each in its transaction: where the
    ladder stands, and what stopped it. *)
Fixpoint migrate_loop (n : nat) (version : Z) (t : Tables) : Z * Tables * result StoreError unit :=
  match n with
  | O => (version, t, Ok tt)
  | S n =>
      match run_migration version t with
      | Err e => (version, t, Err (SqliteError e))
      | Ok t => migrate_loop n (version + 1) t
      end
  end.

Definition migrate (version : Z) (t : Tables) : Z * Tables * result StoreError unit :=
  if version >? SCHEMA_VERSION then (version, t, Err (TooNew version))
  else migrate_loop (Z.to_nat (SCHEMA_VERSION - version)) version t.

(** [Db::open] with a key: the file it leaves and the open store. *)
Definition db_open (file : option DbFile) (key : bytes) : option DbFile * result StoreError Tables :=
  match keyed_open file key with
  | Err e => (file, Err (SqliteError e))
  | Ok (version, t) =>
      let '(version, t, r) := migrate version t in
      (Some (keyed_file key version t), let* _ := r in Ok t)
  end.

(** The magic is read from the file; a failed read of it is not an error. *)
Definition migrate_plaintext_if_needed (faults : Faults) (file : option DbFile) (dek : bytes)
    : option DbFile * result VaultError unit :=
  match file with
  | None => (None, Ok tt)
  | Some f =>
      match try_fs faults (FsRead DB_FILE) with
      | Err e => (file, Err e)
      | Ok _ =>
          if negb (plaintext_file f) then (file, Ok tt)
          else
            match export_file f dek with
            | Err e => (file, Err (VSqlite e))
            | Ok sealed =>
                match try_fs faults (FsRename MIGRATE_FILE) with
                | Err e => (file, Err e)
                | Ok _ => (Some sealed, Ok tt)
                end
            end
      end
  end.

Definition open_store_with_dek (faults : Faults) (file : option DbFile) (dek : bytes)
    : option DbFile * result VaultError Tables :=
  match migrate_plaintext_if_needed faults file dek with
  | (file, Err e) => (file, Err e)
  | (file, Ok _) =>
      match db_open file dek with
      | (file, Ok t) => (file, Ok t)
      | (file, Err (TooNew found)) => (file, Err (VStore (TooNew found)))
      | (file, Err _) => (file, Err VBadDek)
      end
  end.
End Store.

(** ** The Tier-A key *)

Definition TIER_A_FILE : bytes := str_bytes "tier_a.key".

(** The key file as it is left, and the key; [fresh] is the generator's. *)
Definition load_or_generate_tier_a (faults : Faults) (key_file : option bytes) (fresh : bytes)
    : option bytes * result VaultError bytes :=
  match try_fs faults (FsRead TIER_A_FILE), key_file with
  | Err e, _ => (key_file, Err e)
  | Ok _, Some b => (key_file, if len b =? 32 then Ok b else Err (VQueue (Lit "{}: not 32 bytes")))
  | Ok _, None =>
      let '(kept, r) := fs_put faults TIER_A_FILE fresh in
      (kept, let* _ := r in let* _ := try_fs faults (FsMetadata TIER_A_FILE) in Ok fresh)
  end.

(** ** The vault *)

Section Vault.
Context {Net Rng : Type} `{crypto : !PairingCrypto Rng} `{hosting : !Hosting Net} {codecs : ImageCodecs}.
Context `{aead : !Aead} `{cipher : !SqlCipher}.
Context (nfc : bytes → bytes).
Context (kill_switch online : Net → bool).
Context (sender_send : Net → string → bytes → Net * result TransportError unit).
Context (private_ok public_ok : bytes → bool).
Context (verify_pack : bytes → bytes → bytes → bool).
Context (sign_pack : bytes → bytes → bytes → bytes).

Local Abbreviation Engine := (@Engine SignalTables Net Rng).
Local Abbreviation handle_plaintext :=
  (handle_plaintext nfc sha256 message_encrypt kill_switch online sender_send remove_service
     (λ r : Rng, fill_bytes r 16) fill_bytes rng_next private_ok public_ok verify_pack sign_pack).

(** What lives as long as the process. *)
Record Host := mkHost { h_net : Net; h_rng : Rng; h_drops : Drops }.

(** [VaultedEngine]: [ve_dir] is the queue's directory and [ve_file] the
    database file while no engine has it open; an engine comes with the key
    of its connection. *)
Record VaultedEngine := mkVault {
  ve_tier_b : option bytes;
  ve_queue : DropQueue;
  ve_dir : QDir;
  ve_file : option DbFile;
  ve_host : Host;
  ve_engine : option (bytes * Engine);
}.

(** [VaultedEngine::new]: starts locked. The database file is as found. *)
Definition vault_new (key : bytes) (dir : QDir) (file : option DbFile) (host : Host) : VaultedEngine :=
  mkVault None (queue_new key) dir file host None.

Definition is_locked (v : VaultedEngine) : bool := bool_decide (ve_engine v = None).
Definition queued_drops (v : VaultedEngine) : Z := wrap32 (queue_len no_faults (ve_dir v)).

(** The clock the store reads. *)
Definition clock_at (now : Z) (db : Db) : Db :=
  mkDb now (db_messages db) (db_outbox db) (db_inbound_seqs db) (db_tombstones db) (db_settings db)
    (db_ciphertexts db) (db_inbound_frames db) (db_attachments db) (db_chunks db) (db_rels db)
    (db_profiles db) (db_stickers db) (db_pending db).
Definition at_time (now : Z) (e : Engine) : Engine :=
  mkEngine (clock_at now (en_db e)) (en_sig e) (en_net e) (en_rng e) (en_presence e) (en_typing e)
    (en_pending e) (en_rate e) (en_drops e).

Definition engine_new (t : Tables) (h : Host) : Engine :=
  mkEngine t.1 t.2 (h_net h) (h_rng h) ∅ typing_new buffers_new ∅ (h_drops h).
Definition engine_host (e : Engine) : Host := mkHost (en_net e) (en_rng e) (en_drops e).

(** A pairing call's error, and one of the engine's. *)
Definition pairing_error (x : EngineError) : VaultError :=
  match x with EPairing p => VPairing p | x => VEngine x end.

Definition dispatch (rel_id : string) (plaintext : bytes) (e : Engine)
    : Engine * result VaultError (list EngineEvent) :=
  let '(e, r) := handle_plaintext rel_id plaintext e in (e, map_err VEngine r).

Definition route (service_id : string) (intro : option bytes) (frame : bytes) (now : Z) (e : Engine)
    : Engine * result VaultError Ingest :=
  let '(e, r) := ingest_frame service_id intro frame now (at_time now e) in (e, map_err pairing_error r).

Definition ingest_and_dispatch (now : Z) (d : QueuedDrop) (e : Engine)
    : Engine * result VaultError (list EngineEvent) :=
  match route (bytes_str (qd_service_id d)) (qd_intro d) (qd_frame d) now e with
  | (e, Err x) => (e, Err x)
  | (e, Ok (RequestReceived rel_id _ plaintext)) | (e, Ok (IngMessage rel_id plaintext)) => dispatch rel_id plaintext e
  | (e, Ok _) => (e, Ok [])
  end.

Fixpoint unlock_drain (now : Z) (drops : list QueuedDrop) (report : UnlockReport) (e : Engine)
    : Engine * UnlockReport :=
  match drops with
  | [] => (e, report)
  | d :: drops =>
      match ingest_and_dispatch now d e with
      | (e, Ok events) =>
          unlock_drain now drops
            (mkReport (ur_drained report + 1) (ur_events report ++ events) (ur_errors report)) e
      | (e, Err _) =>
          unlock_drain now drops (mkReport (ur_drained report) (ur_events report) (ur_errors report + 1)) e
      end
  end.

(** The engine dropped: its connection closes, the rest of it is gone. *)
Definition close_engine (v : VaultedEngine) (key : bytes) (e : Engine) : VaultedEngine :=
  mkVault (ve_tier_b v) (ve_queue v) (ve_dir v)
    (Some (keyed_file key SCHEMA_VERSION (en_db e, en_sig e))) (engine_host e) None.

Definition with_file (v : VaultedEngine) (file : option DbFile) : VaultedEngine :=
  mkVault (ve_tier_b v) (ve_queue v) (ve_dir v) file (ve_host v) (ve_engine v).
Definition with_dir (v : VaultedEngine) (dir : QDir) : VaultedEngine :=
  mkVault (ve_tier_b v) (ve_queue v) dir (ve_file v) (ve_host v) (ve_engine v).

Definition unlock (faults : Faults) (v : VaultedEngine) (dek : bytes) (now : Z)
    : VaultedEngine * result VaultError UnlockReport :=
  match ve_engine v with
  | Some _ => (v, Ok report_default)
  | None =>
      match open_store_with_dek faults (ve_file v) dek with
      | (file, Err x) => (with_file v file, Err x)
      | (file, Ok t) =>
          let v := with_file v file in
          match restore_services (at_time now (engine_new t (ve_host v))) with
          | (e, Err x) => (close_engine v dek e, Err (pairing_error x))
          | (e, Ok _) =>
              match drain faults (ve_queue v) (ve_dir v) with
              | (dir, Err x) => (close_engine (with_dir v dir) dek e, Err x)
              | (dir, Ok drops) =>
                  let '(e, report) := unlock_drain now drops report_default e in
                  (mkVault (Some dek) (ve_queue v) dir (ve_file v) (engine_host e) (Some (dek, e)), Ok report)
              end
          end
      end
  end.

Definition lock (v : VaultedEngine) : VaultedEngine :=
  match ve_engine v with
  | Some (key, e) =>
      let v := close_engine v key e in
      mkVault None (ve_queue v) (ve_dir v) (ve_file v) (ve_host v) (ve_engine v)
  | None => mkVault None (ve_queue v) (ve_dir v) (ve_file v) (ve_host v) None
  end.

(** [nonce] is what the generator fills the wrap's nonce with. *)
Definition ingest_drop (faults : Faults) (nonce : bytes) (now : Z) (v : VaultedEngine) (service_id : string)
    (intro : option bytes) (frame : bytes) : VaultedEngine * result VaultError DropOutcome :=
  match ve_engine v with
  | None =>
      let '(dir, r) := enqueue sha256 faults (ve_queue v) nonce now (ve_dir v) (str_bytes service_id) intro frame in
      (with_dir v dir, let* _ := r in Ok DoQueued)
  | Some (key, e) =>
      let put e := mkVault (ve_tier_b v) (ve_queue v) (ve_dir v) (ve_file v) (engine_host e) (Some (key, e)) in
      match route service_id intro frame now e with
      | (e, Err x) => (put e, Err x)
      | (e, Ok (RequestReceived rel_id sas plaintext)) =>
          let '(e, r) := dispatch rel_id plaintext e in
          (put e, let* events := r in Ok (DoRequest rel_id sas events))
      | (e, Ok (IngMessage rel_id plaintext)) =>
          let '(e, r) := dispatch rel_id plaintext e in
          (put e, let* events := r in Ok (DoMessage rel_id events))
      | (e, Ok IngDuplicate) => (put e, Ok DoDuplicate)
      | (e, Ok (IngSessionBroken rel_id reason)) => (put e, Ok (DoSessionBroken rel_id reason))
      | (e, Ok IngDropped) => (put e, Ok DoDropped)
      end
  end.

(** ** What the vault relies on of SQLCipher *)

(** A file sealed under a key opens under it with what was sealed, does not
    open under another key, and does not look like a plaintext database. *)
Class SqlCipherLaws := {
  cipher_opens key version t : keyed_open (Some (keyed_file key version t)) key = Ok (version, t);
  cipher_refuses key key' version t :
    key' ≠ key → is_ok (keyed_open (Some (keyed_file key version t)) key') = false;
  cipher_hides key version t : plaintext_file (keyed_file key version t) = false;
}.
Context {cipher_laws : SqlCipherLaws} {aead_laws : AeadLaws}.

Lemma open_sealed key t :
  open_store_with_dek no_faults (Some (keyed_file key SCHEMA_VERSION t)) key
  = (Some (keyed_file key SCHEMA_VERSION t), Ok t).
Proof.
  unfold open_store_with_dek, migrate_plaintext_if_needed, db_open. cbn [try_fs no_faults].
  rewrite cipher_hides. cbn [negb]. by rewrite cipher_opens.
Qed.
Lemma open_refused key key' version t :
  key' ≠ key →
  open_store_with_dek no_faults (Some (keyed_file key version t)) key'
  = (Some (keyed_file key version t), Err VBadDek).
Proof.
  intros H. unfold open_store_with_dek, migrate_plaintext_if_needed, db_open. cbn [try_fs no_faults].
  rewrite cipher_hides. cbn [negb]. pose proof (cipher_refuses key key' version t H) as Hr.
  by destruct (keyed_open _ _).
Qed.

(** ** Restoring the services moves only the network *)

Definition net_only {A} (m : Engine → Engine * result EngineError A) : Prop :=
  ∀ e, ∃ net, (m e).1 = mkEngine (en_db e) (en_sig e) net (en_rng e) (en_presence e) (en_typing e)
                          (en_pending e) (en_rate e) (en_drops e).

Lemma net_only_ret {A} (a : A) : net_only (mret a).
Proof. intros e. exists (en_net e). by destruct e. Qed.
Lemma net_only_bind {A B} (m : M A) (k : A → M B) :
  net_only m → (∀ a, net_only (k a)) → net_only (mbind m k).
Proof.
  intros Hm Hk e. unfold mbind. destruct (Hm e) as [net H]. destruct (m e) as [e1 [a|x]]; cbn [fst] in H; subst e1.
  - destruct (Hk a (mkEngine (en_db e) (en_sig e) net (en_rng e) (en_presence e) (en_typing e) (en_pending e)
      (en_rate e) (en_drops e))) as [net' ->]. by exists net'.
  - by exists net.
Qed.
Lemma net_only_try {A} (f : Net → Net * result TransportError A) : net_only (try_net (Rng := Rng) f).
Proof.
  apply net_only_bind.
  - intros e. unfold call_net. destruct (f (en_net e)) as [net r]. by exists net.
  - intros r e. exists (en_net e). by destruct e.
Qed.
Lemma net_only_restore : net_only (restore_services (Net := Net) (Rng := Rng)).
Proof.
  apply net_only_bind; [intros e; exists (en_net e); by destruct e|]. intros db.
  apply net_only_bind.
  - induction (list_relationships db) as [|[k row] l IH]; [apply net_only_ret|]. cbn [restore_loop].
    apply net_only_bind; [apply net_only_try|intros _]. apply net_only_bind; [apply net_only_try|intros _]. exact IH.
  - intros _. destruct (load_pending db); [|apply net_only_ret].
    apply net_only_bind; [apply net_only_try|intros _; apply net_only_ret].
Qed.

(** The lock boundary. Locking drops the engine and the DEK; from then
    on a key other than the one the store was sealed with is refused with
    [BadDek] and leaves the vault exactly as it was, and, when nothing was
    queued and the services can be hosted again, the right key brings back
    an engine with the same store, the same session state, and fresh
    in-memory tables. *)
Theorem lock_boundary v key e now :
  ve_engine v = Some (key, e) → visible (ve_dir v) = [] →
  is_locked (lock v) = true ∧ ve_tier_b (lock v) = None
  ∧ (∀ key', key' ≠ key → unlock no_faults (lock v) key' now = (lock v, Err VBadDek))
  ∧ (is_ok (restore_services (at_time now (engine_new (en_db e, en_sig e) (engine_host e)))).2 = true →
     ∃ v' net, unlock no_faults (lock v) key now = (v', Ok report_default)
       ∧ ve_tier_b v' = Some key
       ∧ ve_engine v' = Some (key, mkEngine (clock_at now (en_db e)) (en_sig e) net (en_rng e)
                                     ∅ typing_new buffers_new ∅ (en_drops e))).
Proof.
  intros He Hq. unfold lock. rewrite He. cbn [ve_tier_b]. split; [done|]. split; [done|]. split.
  - intros key' Hk. unfold unlock. cbn [ve_engine ve_file close_engine]. by rewrite open_refused.
  - intros Hr. unfold unlock. cbn [ve_engine ve_file close_engine]. rewrite open_sealed.
    cbn [with_file ve_host ve_queue ve_dir ve_file close_engine].
    destruct (net_only_restore (at_time now (engine_new (en_db e, en_sig e) (engine_host e)))) as [net Hn].
    destruct (restore_services _) as [e1 [[]|x]]; [|done]. cbn [fst] in Hn. subst e1.
    destruct (drain_fifo (ve_queue v) (ve_dir v)) as (dir' & -> & _). unfold contents. rewrite Hq. cbn [omap list_omap].
    eexists _, net. split; [reflexivity|]. split; reflexivity.
Qed.

(** ** Frames that arrive while the vault is locked *)

Record Arrival := mkArrival { ar_time : Z; ar_nonce : bytes; ar_drop : QueuedDrop }.

Fixpoint deliver (l : list Arrival) (v : VaultedEngine) : VaultedEngine * list (result VaultError DropOutcome) :=
  match l with
  | [] => (v, [])
  | a :: l =>
      let d := ar_drop a in
      let '(v, r) := ingest_drop no_faults (ar_nonce a) (ar_time a) v (bytes_str (qd_service_id d)) (qd_intro d)
                       (qd_frame d) in
      let '(v, rs) := deliver l v in (v, r :: rs)
  end.

Definition blob_of (d : QueuedDrop) : bytes := encode_blob (qd_service_id d) (qd_intro d) (qd_frame d).
Definition name_of (d : QueuedDrop) : bytes := queue_name sha256 (qd_service_id d) (blob_of d).
(** What an accepted drop is charged. *)
Definition blob_room (l : list Arrival) : Z := foldr (λ a acc, len (blob_of (ar_drop a)) + 40 + acc) 0 l.

(** The drops [l] arrive at a queue over the directory [dir]: each is
    well-formed and names its service, their times increase strictly and are
    later than every file's there, no two have one file name and none has
    that of a file there, and together they fit under both caps. *)
Record arrivals_ok (q : DropQueue) (dir : QDir) (l : list Arrival) : Prop := {
  ao_each : Forall (λ a, len (ar_nonce a) = NONCE_LEN ∧ drop_wf (ar_drop a) ∧ qd_service_id (ar_drop a) ≠ []) l;
  ao_times : StronglySorted (λ a b, ar_time a < ar_time b) l;
  ao_names : NoDup ((λ a, name_of (ar_drop a)) <$> l);
  ao_fresh : ∀ a, a ∈ l → newest dir (ar_time a) ∧ shown dir !! name_of (ar_drop a) = None;
  ao_files : len (visible dir) + len l ≤ dq_max_files q;
  ao_bytes : disk_bytes dir + blob_room l ≤ dq_max_bytes q;
}.

Lemma queued_all v l :
  ve_engine v = None → len (dq_key (ve_queue v)) = 32 →
  Forall (λ a, len (ar_nonce a) = NONCE_LEN ∧ drop_wf (ar_drop a) ∧ qd_service_id (ar_drop a) ≠ []) l →
  StronglySorted (λ a b, ar_time a < ar_time b) l → NoDup ((λ a, name_of (ar_drop a)) <$> l) →
  (∀ a, a ∈ l → newest (ve_dir v) (ar_time a) ∧ shown (ve_dir v) !! name_of (ar_drop a) = None) →
  len (visible (ve_dir v)) + len l ≤ dq_max_files (ve_queue v) →
  disk_bytes (ve_dir v) + blob_room l ≤ dq_max_bytes (ve_queue v) →
  ∃ dir, deliver l v = (with_dir v dir, (λ _, Ok DoQueued) <$> l)
    ∧ contents (ve_queue v) dir = contents (ve_queue v) (ve_dir v) ++ (ar_drop <$> l).
Proof.
  revert v. induction l as [|a l IH]; intros v He Hk Hall Hs Hnd Hold Hf Hb.
  { exists (ve_dir v). cbn. rewrite app_nil_r. split; [by destruct v|done]. }
  apply Forall_cons in Hall as [(Hn & Hd & Hne) Hall]. apply StronglySorted_inv in Hs as [Hs Hlt].
  cbn in Hnd. apply NoDup_cons in Hnd as [Hni Hnd].
  destruct (Hold a) as [Hnew Hfresh]; [by left|]. rewrite len_cons in Hf. cbn [blob_room foldr] in Hb.
  fold (blob_room l) in Hb. pose proof (len_nonneg l).
  assert (Hbr : 0 ≤ blob_room l).
  { clear. unfold blob_room. induction l as [|b l IH]; cbn [foldr]; [lia|].
    pose proof (len_nonneg (blob_of (ar_drop b))). lia. }
  assert (Hroom : has_room (ve_queue v) (ve_dir v) (blob_of (ar_drop a)) = true).
  { unfold has_room. apply negb_true_iff, orb_false_iff. split.
    - destruct (Z.geb_spec (len (visible (ve_dir v))) (dq_max_files (ve_queue v))); [lia|done].
    - destruct (Z.gtb_spec (disk_bytes (ve_dir v) + len (blob_of (ar_drop a)) + 40) (dq_max_bytes (ve_queue v))); [lia|done]. }
  assert (Hl : listed (name_of (ar_drop a)) = true) by (destruct Hd as (_ & Hu & _); by apply queue_name_listed).
  destruct (enqueue_fifo sha256 (ve_queue v) (ar_nonce a) (ar_time a) (ve_dir v) (ar_drop a))
    as (dir1 & Hq & Hc & Hsh); try done.
  { destruct (ve_dir v !! name_of (ar_drop a)) as [f|] eqn:E; [|exact E].
    exfalso. assert (shown (ve_dir v) !! name_of (ar_drop a) = Some f) by (by apply map_lookup_filter_Some). congruence. }
  cbn [deliver]. unfold ingest_drop. rewrite He, str_bytes_str, Hq. cbn [rbind].
  destruct (IH (with_dir v dir1)) as (dir & Hdl & Hcs); try done.
  - intros b Hin. cbn [ve_dir with_dir]. split.
    + intros p f. rewrite Hsh. destruct (decide (p = name_of (ar_drop a))) as [->|Hp].
      * rewrite lookup_insert_eq. intros [= <-]. rewrite Forall_forall in Hlt. by apply Hlt.
      * rewrite lookup_insert_ne by done. destruct (Hold b) as [Hb' _]; [by right|]. apply Hb'.
    + rewrite Hsh, lookup_insert_ne; [apply Hold; by right|]. intros Heq. apply Hni, list_elem_of_fmap. eauto.
  - cbn [ve_dir with_dir ve_queue]. rewrite visible_count, Hsh, map_size_insert_None by exact Hfresh.
    rewrite visible_count in Hf. lia.
  - cbn [ve_dir with_dir ve_queue]. unfold disk_bytes in *. rewrite Hsh, disk_bytes_insert by exact Hfresh. cbn [qf_data].
    pose proof (wrap_Ok (ve_queue v) (ar_nonce a) (ar_drop a) Hk Hd) as Hw. cbn zeta in Hw.
    apply wrap_len in Hw; [|done]. rewrite Hw. unfold blob_of in *. lia.
  - exists dir. rewrite Hdl. cbn [ve_queue with_dir ve_dir] in Hcs. rewrite Hcs, Hc. cbn.
    rewrite <- app_assoc. split; reflexivity.
Qed.

(** The events of an outcome, and a report over a list of outcomes. *)
Definition outcome_events (o : DropOutcome) : list EngineEvent :=
  match o with DoRequest _ _ evs | DoMessage _ evs => evs | _ => [] end.
Definition tally (report : UnlockReport) (r : result VaultError DropOutcome) : UnlockReport :=
  match r with
  | Ok o => mkReport (ur_drained report + 1) (ur_events report ++ outcome_events o) (ur_errors report)
  | Err _ => mkReport (ur_drained report) (ur_events report) (ur_errors report + 1)
  end.

(** The two ingest paths agree. *)
Lemma ingest_drop_unlocked nonce now d v key e :
  ve_engine v = Some (key, e) →
  let '(e', r) := ingest_and_dispatch now d e in
  ∃ r', ingest_drop no_faults nonce now v (bytes_str (qd_service_id d)) (qd_intro d) (qd_frame d)
        = (mkVault (ve_tier_b v) (ve_queue v) (ve_dir v) (ve_file v) (engine_host e') (Some (key, e')), r')
    ∧ (let* o := r' in Ok (outcome_events o)) = r.
Proof.
  intros He. unfold ingest_and_dispatch, ingest_drop. rewrite He.
  destruct (route _ _ _ now e) as [e1 [[rel sas pt|rel pt| |rel reason|]|x]]; try by eexists.
  - destruct (dispatch rel pt e1) as [e2 [evs|x]]; by eexists.
  - destruct (dispatch rel pt e1) as [e2 [evs|x]]; by eexists.
Qed.

Lemma unlock_drain_delivers now key ds report v e :
  ve_engine v = Some (key, e) →
  let '(e', report') := unlock_drain now ds report e in
  let '(v', outcomes) := deliver ((λ d, mkArrival now [] d) <$> ds) v in
  ve_engine v' = Some (key, e') ∧ report' = foldl tally report outcomes.
Proof.
  revert report v e. induction ds as [|d ds IH]; intros report v e He; [done|].
  cbn [unlock_drain fmap list_fmap deliver ar_drop ar_nonce ar_time].
  pose proof (ingest_drop_unlocked [] now d v key e He) as H.
  destruct (ingest_and_dispatch now d e) as [e1 r]. destruct H as (r' & -> & Hr).
  set (v1 := mkVault _ _ _ _ _ _). specialize (IH (tally report r') v1 e1 eq_refl).
  assert (Hgo : (match r with
                  | Ok events => unlock_drain now ds (mkReport (ur_drained report + 1) (ur_events report ++ events) (ur_errors report)) e1
                  | Err _ => unlock_drain now ds (mkReport (ur_drained report) (ur_events report) (ur_errors report + 1)) e1
                  end) = unlock_drain now ds (tally report r') e1) by (subst r; by destruct r').
  destruct r as [events|x]; rewrite Hgo; destruct (unlock_drain now ds (tally report r') e1) as [e2 report2];
    destruct (deliver _ v1) as [v2 outs]; exact IH.
Qed.

Lemma unlock_drain_app now ds ds' report e :
  unlock_drain now (ds ++ ds') report e
  = let '(e1, report1) := unlock_drain now ds report e in unlock_drain now ds' report1 e1.
Proof.
  revert report e. induction ds as [|d ds IH]; intros report e; [done|]. cbn [app unlock_drain].
  by destruct (ingest_and_dispatch now d e) as [e1 [evs|x]].
Qed.

(** C7: Being locked loses nothing and changes nothing, when the file system
    does not fail and the frames fit: frames that arrive at a locked vault,
    after whatever its queue already holds, at strictly increasing times,
    for named services, under file names that are new (a frame identical to
    a queued one would overwrite it) and within the queue's caps, are all
    queued. The unlock that follows leaves the engine in the state it would
    have had if the vault had been unlocked first and handed the same frames
    in the same order, and its report adds their events and failures to
    those of the drops queued before. *)
Theorem locked_frames_deferred v l dek now v1 report1 :
  ve_engine v = None → len (dq_key (ve_queue v)) = 32 → arrivals_ok (ve_queue v) (ve_dir v) l →
  unlock no_faults v dek now = (v1, Ok report1) →
  let '(queued, outcomes) := deliver l v in
  outcomes = ((λ _, Ok DoQueued) <$> l)
  ∧ let '(v2, rest) := deliver ((λ a, mkArrival now [] (ar_drop a)) <$> l) v1 in
    ∃ v3, unlock no_faults queued dek now = (v3, Ok (foldl tally report1 rest))
      ∧ ve_engine v3 = ve_engine v2 ∧ ve_tier_b v3 = Some dek.
Proof.
  intros He Hk [Hall Hs Hnd Hfr Hf Hb] Hu.
  destruct (queued_all v l) as (dir & -> & Hc); [done..|]. split; [done|].
  revert Hu. unfold unlock. cbn [with_dir ve_engine ve_file]. rewrite He.
  destruct (open_store_with_dek no_faults (ve_file v) dek) as [file [t|x]]; [|done].
  cbn [with_file with_dir ve_host ve_queue ve_dir ve_file].
  destruct (restore_services _) as [e [[]|x]]; [|done].
  destruct (drain_fifo (ve_queue v) (ve_dir v)) as (dir1 & -> & _).
  destruct (drain_fifo (ve_queue v) dir) as (dir2 & -> & _).
  rewrite Hc, unlock_drain_app. destruct (unlock_drain now _ report_default e) as [e1 rep1]. intros [= <- <-].
  pose proof (unlock_drain_delivers now dek (ar_drop <$> l) rep1
    (mkVault (Some dek) (ve_queue v) dir1 file (engine_host e1) (Some (dek, e1))) e1 eq_refl) as H.
  rewrite <- list_fmap_compose in H. unfold compose in H.
  destruct (unlock_drain now (ar_drop <$> l) rep1 e1) as [e2 rep].
  destruct (deliver _ _) as [v2 rest]. destruct H as [H1 ->]. eexists. split; [reflexivity|]. split; [by rewrite H1|done].
Qed.
End Vault.

(** ** Witnesses *)

#[local] Instance toy_cipher : SqlCipher := {|
  DbFile := bytes * Z * Tables;
  plaintext_file _ := false;
  export_file f key := Ok (key, f.1.2, f.2);
  keyed_open f key :=
    match f with
    | None => Ok (0, (set_rels demo_db ∅, signal_empty))
    | Some (key', version, t) =>
        if decide (key = key') then Ok (version, t) else Err (Lit "file is not a database")
    end;
  keyed_file key version t := (key, version, t);
  run_migration _ t := Ok t;
|}.
#[local] Instance toy_cipher_laws : SqlCipherLaws.
Proof.
  split; cbn.
  - intros. by rewrite decide_True.
  - intros. by rewrite decide_False.
  - done.
Qed.

Definition demo_dek : bytes := replicate 32 (zb 5).
Definition demo_host : Host (Net := unit) (Rng := Z) := mkHost tt 0 drops_new.
Definition demo_open : VaultedEngine :=
  mkVault (Some demo_dek) (queue_new toy_key) ∅ None demo_host (Some (demo_dek, pair_engine 0)).
Definition toy_unlock (v : VaultedEngine) (dek : bytes) :=
  unlock (crypto := toy_pairing) (hosting := toy_hosting) (codecs := toy_codecs) id (λ _ : unit, false) (λ _, true)
    toy_send (λ _, true) (λ _, true) toy_verify toy_sign no_faults v dek 1003.

Lemma lock_boundary_witness :
  toy_unlock (lock demo_open) [] = (lock demo_open, Err VBadDek)
  ∧ ∃ v', toy_unlock (lock demo_open) demo_dek = (v', Ok report_default) ∧ ve_tier_b v' = Some demo_dek.
Proof.
  destruct (lock_boundary (crypto := toy_pairing) (hosting := toy_hosting) (codecs := toy_codecs) id
    (λ _ : unit, false) (λ _, true) toy_send (λ _, true) (λ _, true) toy_verify toy_sign
    demo_open demo_dek (pair_engine 0) 1003) as (_ & _ & H1 & H2).
  - reflexivity.
  - reflexivity.
  - split; [by apply H1|]. destruct H2 as (v' & net & H & Ht & _); [by vm_compute|]. by exists v'.
Defined.

(** The inviter is locked when the first frame of the ceremony arrives. *)
Definition demo_locked : VaultedEngine :=
  mkVault None (queue_new toy_key) ∅
    (Some (keyed_file demo_dek SCHEMA_VERSION (en_db demo_offering.1, en_sig demo_offering.1))) demo_host None.
(** The first frame carries a message. *)
Definition demo_sealed_msg : bytes :=
  match (encrypt (message_encrypt (PairingCrypto := toy_pairing)) (en_db demo_accepting.1) (en_sig demo_accepting.1)
           (ac_rel_id demo_accepted) demo_id1 EngineWf.demo_frame 1001).2 with
  | Ok frame => match build_record (λ n, replicate n (zb 0)) frame with Ok r => r | Err _ => [] end
  | Err _ => []
  end.
Definition demo_drop : QueuedDrop :=
  mkQueuedDrop (str_bytes (of_service_id demo_offer)) (Some demo_intro) demo_sealed_msg.
Definition toy_deliver (v : VaultedEngine) :=
  deliver (crypto := toy_pairing) (hosting := toy_hosting) (codecs := toy_codecs) id (λ _ : unit, false)
    (λ _, true) toy_send (λ _, true) (λ _, true) toy_verify toy_sign [mkArrival 900 toy_nonce demo_drop] v.

Lemma demo_unlock_ok : is_ok (toy_unlock demo_locked demo_dek).2 = true.
Proof. by vm_compute. Qed.
Lemma demo_arrivals_ok :
  arrivals_ok (crypto := toy_pairing) (queue_new toy_key) ∅ [mkArrival 900 toy_nonce demo_drop].
Proof.
  split.
  - apply Forall_singleton. split; [done|]. split; [by vm_compute|]. by vm_compute.
  - repeat constructor.
  - apply NoDup_singleton.
  - intros a _. split; [|reflexivity]. intros p f Hf. exfalso. revert Hf. vm_compute. by destruct p.
  - by vm_compute.
  - by vm_compute.
Qed.

Lemma locked_frames_deferred_witness :
  (toy_deliver demo_locked).2 = [Ok DoQueued]
  ∧ is_ok (toy_unlock (toy_deliver demo_locked).1 demo_dek).2 = true.
Proof.
  pose proof (locked_frames_deferred (crypto := toy_pairing) (hosting := toy_hosting) (codecs := toy_codecs) id
    (λ _ : unit, false) (λ _, true) toy_send (λ _, true) (λ _, true) toy_verify toy_sign
    demo_locked [mkArrival 900 toy_nonce demo_drop] demo_dek 1003 (toy_unlock demo_locked demo_dek).1
    (default report_default (ok (toy_unlock demo_locked demo_dek).2))) as H.
  change (deliver _ _ _ _ _ _ _ _ _ demo_locked) with (toy_deliver demo_locked) in H.
  destruct (toy_deliver demo_locked) as [queued outcomes]. destruct H as [H H2].
  - reflexivity.
  - reflexivity.
  - exact demo_arrivals_ok.
  - pose proof demo_unlock_ok as Ho. apply (ok_default report_default) in Ho.
    rewrite <- Ho. apply surjective_pairing.
  - split; [exact H|]. destruct (deliver _ _ _ _ _ _ _ _ _ _) as [v2 rest] in H2.
    destruct H2 as (v3 & H3 & _). cbn [fst].
    exact (f_equal (λ p, is_ok p.2) H3).
Defined.

(** The unlock then drains that frame without an error. *)
Example demo_deferred_drained :
  match (toy_unlock (toy_deliver demo_locked).1 demo_dek).2 with
  | Ok report => (ur_drained report, ur_errors report)
  | Err _ => (-1, -1)
  end = (1, 0).
Proof. vm_compute. reflexivity. Qed.
