(* ===== verification/MemAudit.v ===== *)
(** The memory audit of a locked process: vault/audit.rs on Linux. The
    kernel's two files are parameters: [/proc/self/maps] is a text, a read of
    [/proc/self/mem] is a function of the address and the buffer's length, and
    the allocator's choice of a buffer is a function of the region scanned.
    The theorem counts the copies of the canary the scan reports. *)

From S2P Require Import Prelude RustStr Hex.

(** A [Range<usize>]. *)
Definition Range : Type := Z * Z.
Definition range_len (r : Range) : Z := Z.max 0 (r.2 - r.1).
Definition range_contains (a : Z) (r : Range) : bool := (r.1 <=? a) && (a <? r.2).

(** ** [/proc/self/maps] *)

(** [usize::from_str_radix(s, 16)] *)
Fixpoint hex_val (acc : Z) (l : bytes) : option Z :=
  match l with
  | [] => Some acc
  | b :: l =>
      match hex_digit b with
      | Some d => let v := acc * 16 + d in if v <? 2 ^ 64 then hex_val v l else None
      | None => None
      end
  end.
Definition usize_from_hex (l : bytes) : option Z :=
  match l with
  | [] => None
  | b :: l' => if bz b =? 43 then if bool_decide (l' = []) then None else hex_val 0 l' else hex_val 0 l
  end.

Definition HEAP : bytes := str_bytes "[heap]".
Definition STACK : bytes := str_bytes "[stack]".
Definition DASH : byte := zb 45.

Definition region_of_parts (parts : list bytes) : option Range :=
  match parts with
  | range :: perms :: parts =>
      if negb (starts_with perms [zb 114]) || bool_decide (zb 115 ∈ perms) then None
      else
        let pathname := default [] (parts !! 4%nat) in
        if bool_decide (pathname ≠ []) && bool_decide (pathname ≠ HEAP) && bool_decide (pathname ≠ STACK)
        then None
        else
          '(start, stop) ← split_once DASH range;
          a ← usize_from_hex start; b ← usize_from_hex stop; Some (a, b)
  | _ => None
  end.

Definition readable_regions (maps : bytes) : list Range :=
  omap (λ line, region_of_parts (split_whitespace line)) (str_lines maps).

(** ** The scan *)

Definition windows (k : nat) (l : bytes) : list bytes :=
  (λ i, take k (drop i l)) <$> seq 0 (S (length l) - k).

Definition find (haystack needle : bytes) : option nat :=
  fst <$> list_find (λ w, w = needle) (windows (length needle) haystack).

Section Scan.
Context (read_at : Z → nat → bytes) (buf_ptr : Range → Z) (canary_ptr needle_ptr : Z).
Context (canary : bytes).

Definition needle : bytes := take 16 canary.

(** The [while let] over one region's buffer. *)
Fixpoint scan_buffer (fuel : nat) (start : Z) (owned : list Range) (buf : bytes) (off : nat) (hits : Z)
    : option Z :=
  match find (drop off buf) needle with
  | None => Some hits
  | Some pos =>
      match fuel with
      | O => None
      | S fuel =>
          let addr := start + Z.of_nat (off + pos) in
          let off := (off + (pos + 1))%nat in
          if existsb (range_contains addr) owned then scan_buffer fuel start owned buf off hits
          else
            let verify := read_at addr (length canary) in
            scan_buffer fuel start owned buf off (if decide (verify = canary) then hits + 1 else hits)
      end
  end.

Fixpoint scan_regions (regions : list Range) (owned : list Range) (hits : Z) : option Z :=
  match regions with
  | [] => Some hits
  | region :: regions =>
      if (range_len region >? 2 ^ 30) || (range_len region =? 0) then scan_regions regions owned hits
      else
        let p := buf_ptr region in
        let owned := owned ++ [(p, p + range_len region)] in
        let buf := read_at region.1 (Z.to_nat (range_len region)) in
        hits ← scan_buffer (length buf) region.1 owned buf 0 hits;
        scan_regions regions owned hits
  end.

(** [None] is the failed assertion on a canary under sixteen bytes. *)
Definition live_canary_hits (maps : bytes) : option Z :=
  if decide (length canary < 16)%nat then None
  else
    let owned := [(canary_ptr, canary_ptr + len canary); (needle_ptr, needle_ptr + len needle)] in
    scan_regions (readable_regions maps) owned 0.

(** ** What one buffer contributes *)

Definition unowned (owned : list Range) (a : Z) : bool := negb (existsb (range_contains a) owned).

(** A candidate the loop counts: the needle at offset [i] of the buffer, at an
    address of no tracked buffer, and the whole canary there on a second look. *)
Definition counted (start : Z) (owned : list Range) (buf : bytes) (i : nat) : bool :=
  bool_decide (take 16 (drop i buf) = needle) && unowned owned (start + Z.of_nat i)
  && bool_decide (read_at (start + Z.of_nat i) (length canary) = canary).

Definition count_from (start : Z) (owned : list Range) (buf : bytes) (off : nat) : Z :=
  len (filter (λ i, counted start owned buf i = true) (seq off (S (length buf) - 16 - off))).

Hypothesis canary_long : (16 ≤ length canary)%nat.

Lemma length_needle : length needle = 16%nat.
Proof. unfold needle. rewrite length_take. lia. Qed.

Lemma find_None_drop buf off :
  find (drop off buf) needle = None →
  ∀ i, (off ≤ i < S (length buf) - 16)%nat → take 16 (drop i buf) ≠ needle.
Proof.
  unfold find, windows. rewrite length_needle, length_drop, fmap_None, list_find_None, Forall_fmap, Forall_forall.
  intros H i Hi. specialize (H (i - off)%nat). rewrite elem_of_seq in H. cbn in H.
  rewrite drop_drop in H. replace (off + (i - off))%nat with i in H by lia. apply H. lia.
Qed.

Lemma find_Some_drop buf off pos :
  find (drop off buf) needle = Some pos →
  (off + pos < S (length buf) - 16)%nat ∧ take 16 (drop (off + pos) buf) = needle
  ∧ ∀ i, (off ≤ i < off + pos)%nat → take 16 (drop i buf) ≠ needle.
Proof.
  unfold find, windows. rewrite length_needle, length_drop. intros ([i w] & H & ->)%fmap_Some. cbn.
  apply list_find_Some in H as (Hl & Hw & Hbefore).
  apply list_lookup_fmap_Some in Hl as (j & -> & Hj). apply lookup_seq in Hj as [-> Hj]. cbn in *.
  rewrite drop_drop in Hw. split_and!; [lia|done|]. intros k Hk Heq.
  apply (Hbefore (k - off)%nat (take 16 (drop k buf))); [|lia|done].
  rewrite list_lookup_fmap, lookup_seq_lt by lia. cbn. rewrite drop_drop. do 3 f_equal. lia.
Qed.

Lemma filter_false_nil {A} (f : A → bool) (l : list A) :
  Forall (λ x, f x = false) l → filter (λ x, f x = true) l = [].
Proof. induction 1 as [|x l Hx _ IH]; [done|]. rewrite filter_cons, decide_False by congruence. done. Qed.

Lemma count_from_none start owned buf off :
  (∀ i, (off ≤ i < S (length buf) - 16)%nat → take 16 (drop i buf) ≠ needle) → count_from start owned buf off = 0.
Proof.
  intros H. unfold count_from. rewrite filter_false_nil; [done|]. apply Forall_forall. intros i Hi.
  apply elem_of_seq in Hi. unfold counted. rewrite bool_decide_false by (apply H; lia). done.
Qed.

Lemma count_from_next start owned buf off pos :
  find (drop off buf) needle = Some pos →
  count_from start owned buf off
  = (if counted start owned buf (off + pos) then 1 else 0) + count_from start owned buf (off + (pos + 1)).
Proof.
  intros (Hlt & Hhit & Hbefore)%find_Some_drop. unfold count_from.
  replace (S (length buf) - 16 - off)%nat with (pos + S (S (length buf) - 16 - (off + (pos + 1))))%nat by lia.
  rewrite seq_app, filter_app, filter_false_nil, app_nil_l.
  - replace (off + (pos + 1))%nat with (S (off + pos)) by lia. cbn [seq]. rewrite filter_cons.
    unfold len. destruct (counted start owned buf (off + pos)); cbn [decide]; case_decide; try done; cbn [length]; lia.
  - apply Forall_forall. intros i Hi. apply elem_of_seq in Hi. unfold counted.
    rewrite bool_decide_false by (apply Hbefore; lia). done.
Qed.

(** The loop ends within its fuel and adds the buffer's count. *)
Lemma scan_buffer_spec fuel start owned buf off hits :
  (length buf ≤ fuel + off)%nat →
  scan_buffer fuel start owned buf off hits = Some (hits + count_from start owned buf off).
Proof.
  revert off hits. induction fuel as [|fuel IH]; intros off hits Hf; cbn [scan_buffer];
    destruct (find (drop off buf) needle) as [pos|] eqn:E.
  - apply find_Some_drop in E. lia.
  - rewrite count_from_none by by apply find_None_drop. f_equal. lia.
  - pose proof E as Hd%find_Some_drop. rewrite (count_from_next _ _ _ _ _ E).
    unfold counted, unowned. rewrite (bool_decide_true (_ = needle)) by apply Hd.
    destruct (existsb _ owned); cbn [negb andb]; rewrite IH by lia; [done|]. f_equal.
    case_decide; [rewrite bool_decide_true by done|rewrite bool_decide_false by done]; lia.
  - rewrite count_from_none by by apply find_None_drop. f_equal. lia.
Qed.

(** ** Against the memory *)

(** A [pread] of [/proc/self/mem]: the bytes up to the first unreadable one. *)
Context (mem : Z → option byte).

Fixpoint peek (a : Z) (n : nat) : bytes :=
  match n with
  | O => []
  | S n => match mem a with Some b => b :: peek (a + 1) n | None => [] end
  end.

Hypothesis reads_memory : ∀ a n, read_at a n = peek a n.

(** The whole canary lies at [a]. *)
Definition canary_at (a : Z) : Prop := peek a (length canary) = canary.

Lemma peek_drop i a n : (i ≤ length (peek a n))%nat → drop i (peek a n) = peek (a + Z.of_nat i) (n - i).
Proof.
  revert a n. induction i as [|i IH]; intros a n Hi; [rewrite drop_0; f_equal; lia|].
  destruct n as [|n]; cbn in *; [lia|]. destruct (mem a); cbn in *; [|lia].
  rewrite IH by lia. f_equal; lia.
Qed.

Lemma peek_take k a n : (k ≤ n)%nat → take k (peek a n) = peek a k.
Proof.
  revert a n. induction k as [|k IH]; intros a n Hk; [done|]. destruct n as [|n]; [lia|]. cbn.
  destruct (mem a); [|done]. cbn. by rewrite IH by lia.
Qed.

Lemma length_peek a n : (length (peek a n) ≤ n)%nat.
Proof. revert a. induction n as [|n IH]; intros a; cbn; [lia|]. destruct (mem a); cbn; [specialize (IH (a + 1))|]; lia. Qed.

Lemma counted_memory start owned n i :
  (i + 16 ≤ length (peek start n))%nat →
  counted start owned (peek start n) i = true ↔
    unowned owned (start + Z.of_nat i) = true ∧ canary_at (start + Z.of_nat i).
Proof.
  intros Hi. pose proof (length_peek start n). unfold counted, canary_at.
  rewrite peek_drop, peek_take, reads_memory, !andb_true_iff, !bool_decide_eq_true by lia.
  split; [tauto|]. intros [Hu Hc]. split_and!; [|done..]. unfold needle. rewrite <-Hc at 1.
  by rewrite peek_take by lia.
Qed.

Definition skipped (region : Range) : bool := (range_len region >? 2 ^ 30) || (range_len region =? 0).
Definition buffer_of (region : Range) : Range := (buf_ptr region, buf_ptr region + range_len region).

(** The buffers the scanner owns once these regions are behind it. *)
Definition buffers (regions : list Range) : list Range :=
  buffer_of <$> filter (λ r, skipped r = false) regions.

(** How far into a region the reads go. *)
Definition readable (region : Range) : Z := len (peek region.1 (Z.to_nat (range_len region))).

(** A live copy the scan of [region] meets. *)
Definition live_copy (owned : list Range) (region : Range) (a : Z) : Prop :=
  region.1 ≤ a ∧ a + 16 ≤ region.1 + readable region
  ∧ unowned (owned ++ [buffer_of region]) a = true ∧ canary_at a.

Definition region_count (owned : list Range) (region : Range) : Z :=
  count_from region.1 (owned ++ [buffer_of region]) (peek region.1 (Z.to_nat (range_len region))) 0.

Lemma region_count_zero owned region : region_count owned region = 0 ↔ ∀ a, ¬ live_copy owned region a.
Proof.
  unfold region_count, count_from, live_copy, readable. set (buf := peek region.1 _). split.
  - intros H0 a (Hlo & Hhi & Hu & Hc). unfold len in *. apply (Z2Nat.inj_iff _ 0) in H0; [|lia..].
    rewrite Nat2Z.id in H0. apply nil_length_inv in H0.
    apply (filter_nil_not_elem_of _ _ (Z.to_nat (a - region.1))) in H0; [apply H0, elem_of_seq; lia|].
    apply counted_memory; [fold buf; lia|]. by replace (region.1 + Z.of_nat (Z.to_nat (a - region.1))) with a by lia.
  - intros H. rewrite filter_false_nil; [done|]. apply Forall_forall. intros i Hi. apply elem_of_seq in Hi.
    apply not_true_is_false. intros Hc. apply counted_memory in Hc as [Hu Hc]; [|fold buf; lia].
    apply (H (region.1 + Z.of_nat i)). unfold len. split_and!; [lia..|done|done].
Qed.

Lemma scan_regions_zero regions owned hits :
  0 ≤ hits → ∃ n, scan_regions regions owned hits = Some (hits + n) ∧ 0 ≤ n
    ∧ (n = 0 ↔ ∀ pre region post, regions = pre ++ region :: post → skipped region = false →
         ∀ a, ¬ live_copy (owned ++ buffers pre) region a).
Proof.
  revert owned hits. induction regions as [|r regions IH]; intros owned hits Hh; cbn [scan_regions].
  { exists 0. split_and!; [f_equal; lia|done|]. split; [|done]. intros _ pre region post H. by destruct pre. }
  fold (skipped r). destruct (skipped r) eqn:Es.
  - destruct (IH owned hits Hh) as (n & -> & Hn & Hz). exists n. split_and!; [done..|]. rewrite Hz. split.
    + intros H [|r0 pre] region post [= -> Hr] Hs; [congruence|]. subst regions.
      unfold buffers. rewrite filter_cons, decide_False by congruence. by apply (H pre region post).
    + intros H pre region post -> Hs. specialize (H (r :: pre) region post eq_refl Hs).
      unfold buffers in H. by rewrite filter_cons, decide_False in H by congruence.
  - rewrite reads_memory, scan_buffer_spec by lia. cbn [mbind option_bind].
    fold (buffer_of r). change (count_from _ _ _ 0) with (region_count owned r).
    destruct (IH (owned ++ [buffer_of r]) (hits + region_count owned r)) as (n & He & Hn & Hz);
      [unfold region_count, count_from, len; lia|].
    assert (0 ≤ region_count owned r) by (unfold region_count, count_from, len; lia).
    exists (region_count owned r + n). split_and!; [etrans; [exact He|f_equal; lia]|lia|].
    transitivity (region_count owned r = 0 ∧ n = 0); [lia|]. rewrite Hz, region_count_zero.
    assert (Hb : ∀ pre, owned ++ buffers (r :: pre) = (owned ++ [buffer_of r]) ++ buffers pre).
    { intros pre. unfold buffers. rewrite filter_cons, decide_True by done. cbn. by rewrite <-app_assoc. }
    split.
    + intros [H1 H2] [|r0 pre] region post [= -> Hr] Hs a; [unfold buffers; cbn; rewrite app_nil_r; apply H1|].
      subst regions. rewrite Hb. by apply (H2 pre region post).
    + intros HA. split; [|intros pre region post -> Hs a; rewrite <-Hb; by apply (HA (r :: pre) region post)].
      intros a. specialize (HA [] r regions eq_refl Es a). unfold buffers in HA. cbn in HA. by rewrite app_nil_r in HA.
Qed.
End Scan.

(** The verdict of the audit. The scan always returns a count, and the count is
    zero exactly when no region it visits (a readable private mapping, neither
    empty nor over one gibibyte) holds a full copy of the canary whose first
    sixteen bytes are inside the readable part of the region, at an address
    outside the canary itself, the needle and the buffers allocated up to and
    including that region's. *)
Theorem audit_verdict read_at buf_ptr canary_ptr needle_ptr canary mem maps :
  (16 ≤ length canary)%nat → (∀ a n, read_at a n = peek mem a n) →
  ∃ n, live_canary_hits read_at buf_ptr canary_ptr needle_ptr canary maps = Some n ∧ 0 ≤ n
    ∧ (n = 0 ↔ ∀ pre region post, readable_regions maps = pre ++ region :: post → skipped region = false →
         ∀ a, ¬ live_copy buf_ptr canary mem
           ([(canary_ptr, canary_ptr + len canary); (needle_ptr, needle_ptr + len (needle canary))]
            ++ buffers buf_ptr pre) region a).
Proof.
  intros Hlen Hread. unfold live_canary_hits. rewrite decide_False by lia.
  by apply (scan_regions_zero read_at buf_ptr canary Hlen mem Hread).
Qed.

(** ** A process with one leak *)

Definition demo_canary : bytes := zb <$> seqZ 65 20.
(** Sixty-four readable bytes at [0x1000], the canary's copy in the middle. *)
Definition demo_memory (leak : bool) (a : Z) : option byte :=
  if range_contains a (4096, 4160) then
    Some (if leak && range_contains a (4106, 4126) then zb (65 + (a - 4106)) else zb 0)
  else None.
Definition demo_maps : bytes := str_bytes "1000-1040 rw-p 00000000 00:00 0
2000-2000 rw-p 00000000 00:00 0
3000-3040 ---p 00000000 00:00 0".
Definition demo_hits (leak : bool) : option Z :=
  live_canary_hits (peek (demo_memory leak)) (λ _, 8192) 9000 9100 demo_canary demo_maps.

Lemma audit_verdict_witness :
  demo_hits false = Some 0 ∧ demo_hits true = Some 1
  ∧ ∃ n, demo_hits true = Some n ∧ 0 ≤ n.
Proof.
  split; [by vm_compute|]. split; [by vm_compute|].
  destruct (audit_verdict (peek (demo_memory true)) (λ _, 8192) 9000 9100 demo_canary (demo_memory true) demo_maps)
    as (n & Hn & H0 & _); [vm_compute; lia|done|]. by exists n.
Defined.

(** The filter on path names looks one field too far: with the six fields of a
    line of [/proc/self/maps] the path is the sixth, and the code reads the
    seventh, so a file-backed mapping is scanned like an anonymous one. *)
Lemma pathname_ignored range perms offset dev inode path :
  region_of_parts [range; perms; offset; dev; inode; path] = region_of_parts [range; perms; offset; dev; inode].
Proof. done. Qed.

Example demo_file_backed :
  readable_regions (str_bytes "7f0000-7f1000 r--p 00000000 08:01 1234  /usr/lib/libc.so.6")
  = [(8323072, 8327168)].
Proof. by vm_compute. Qed.
