(* ===== verification/FfiTypes.v ===== *)
(** The client boundary's data ([core/src/ffi/]): the flat errors, the
    records and events handed to the client with their conversions, and the
    hexadecimal identifiers it hands back. An error's message is named by the
    error it renders. *)

From S2P Require Import Prelude Bin RustStr Limits Media Hex Payloads StickerDocs Frame Policy Ephemeral PairingQr Ledger Session EngineTypes Queue StickerStore Attach Messages Sends Profiles Pairing.

(** ** Errors ([ffi/mod.rs]) *)

Inductive Message :=
| MsgLit (s : string)
| MsgStore (e : StoreError)
| MsgPairing (e : PairingFailure)
| MsgPayload (e : PairingError)
| MsgSession (e : SessionError)
| MsgEngine (e : EngineError)
| MsgVault (e : VaultError)
| MsgMedia (e : MediaError)
| MsgWipe (errors : Z).

Inductive CoreError :=
| CoreTransport (e : TransportError)
| CoreOther (m : Message).

Definition from_transport (e : TransportError) : CoreError := CoreTransport e.
Definition from_store (e : StoreError) : CoreError := CoreOther (MsgStore e).
Definition from_session (e : SessionError) : CoreError := CoreOther (MsgSession e).
Definition from_vault (e : VaultError) : CoreError := CoreOther (MsgVault e).
Definition from_engine (e : EngineError) : CoreError := CoreOther (MsgEngine e).
Definition from_failure (e : PairingFailure) : CoreError := CoreOther (MsgPairing e).
(** A pairing call of the engine monad fails with a [PairingFailure]. *)
Definition from_pairing (e : EngineError) : CoreError :=
  match e with EPairing p => from_failure p | e => from_engine e end.

Definition core_poisoned : CoreError := CoreOther (MsgLit "vault mutex poisoned").
Definition core_locked : CoreError := CoreOther (MsgLit "vault is locked").

(** ** Identifiers ([ffi/mod.rs])

    The outer [option] is the panic of a slice inside a character. *)

Definition hex_id (n : Z) (why : string) (s : bytes) : option (result CoreError bytes) :=
  r ← hex_decode s;
  Some (let* v := map_err from_store r in
        if len v =? n then Ok v else Err (CoreOther (MsgLit why))).
Definition hex_id16 : bytes → option (result CoreError bytes) := hex_id 16 "expected a 16-byte hex id".
Definition hex_id32 : bytes → option (result CoreError bytes) := hex_id 32 "expected a 32-byte hex id".

(** ** Events ([ffi/messaging.rs]) *)

Inductive EngineEventFfi :=
| FMessage (rel_id : string) (msg_id : bytes)
| FEdited (rel_id : string) (msg_id : bytes)
| FDeleted (rel_id : string) (msg_id : bytes)
| FHistoryCleared (rel_id : string)
| FRead (rel_id : string) (msg_id : bytes)
| FTyping (rel_id : string) (typing : bool)
| FPresence (rel_id : string) (in_app do_not_disturb : bool)
| FProfileUpdated (rel_id : string)
| FProfileRequested (rel_id : string)
| FPeerPrefs (rel_id : string)
| FSticker (rel_id : string) (msg_id : bytes) (ready : bool)
| FStickerPackInstalled (pack_id : bytes)
| FStickerPackRefused (pack_id : bytes) (reason : Z)
| FStickerThumbs (pack_id doc_bytes : bytes)
| FAttachmentProgress (rel_id : string) (head_id : bytes) (received total : Z)
| FAttachmentComplete (rel_id : string) (head_id msg_id : bytes)
| FAttachmentFailed (rel_id : string) (head_id : bytes)
| FAttachmentChunkDropped (rel_id : string) (head_id : bytes)
| FPolicyChanged (rel_id : string)
| FContactClosed (rel_id : string)
| FGapDetected (rel_id : string).

Definition engine_event_ffi (e : EngineEvent) : EngineEventFfi :=
  let hex := hex_encode in
  match e with
  | EvMessage rel_id msg_id => FMessage rel_id (hex msg_id)
  | EvEdited rel_id msg_id => FEdited rel_id (hex msg_id)
  | EvDeleted rel_id msg_id => FDeleted rel_id (hex msg_id)
  | EvHistoryCleared rel_id => FHistoryCleared rel_id
  | EvRead rel_id msg_id => FRead rel_id (hex msg_id)
  | EvTyping rel_id typing => FTyping rel_id typing
  | EvPresence rel_id in_app do_not_disturb => FPresence rel_id in_app do_not_disturb
  | EvProfileUpdated rel_id => FProfileUpdated rel_id
  | EvProfileRequested rel_id => FProfileRequested rel_id
  | EvPeerPrefs rel_id => FPeerPrefs rel_id
  | EvSticker rel_id msg_id ready => FSticker rel_id (hex msg_id) ready
  | EvStickerPackInstalled pack_id => FStickerPackInstalled (hex pack_id)
  | EvStickerPackRefused pack_id reason => FStickerPackRefused (hex pack_id) reason
  | EvStickerThumbs pack_id doc =>
      FStickerThumbs (hex pack_id) (match thumbs_encode doc with Ok bs => bs | Err _ => [] end)
  | EvAttachmentProgress rel_id head_id received total => FAttachmentProgress rel_id (hex head_id) received total
  | EvAttachmentComplete rel_id head_id msg_id => FAttachmentComplete rel_id (hex head_id) (hex msg_id)
  | EvAttachmentFailed rel_id head_id => FAttachmentFailed rel_id (hex head_id)
  | EvAttachmentChunkDropped rel_id head_id => FAttachmentChunkDropped rel_id (hex head_id)
  | EvPolicyChanged rel_id => FPolicyChanged rel_id
  | EvContactClosed rel_id => FContactClosed rel_id
  | EvGapDetected rel_id => FGapDetected rel_id
  end.

(** ** Records *)

Record MessageRowFfi := mkMessageRowFfi {
  mf_msg_id : bytes;
  mf_rel_id : string;
  mf_outgoing : bool;
  mf_app_seq : Z;
  mf_sent_at : Z;
  mf_env_type : Z;
  mf_payload : bytes;
  mf_delivery : string;
  mf_edited : bool;
  mf_read_at : option Z;
  mf_expires_at : option Z;
}.
Definition message_row_ffi (r : MessageRow) : MessageRowFfi :=
  mkMessageRowFfi (hex_encode (mr_msg_id r)) (mr_rel_id r) (bool_decide (mr_direction r = DirOut)) (mr_app_seq r)
    (mr_sent_at r) (mr_env_type r) (mr_payload r) (delivery_as_str (mr_state r)) (mr_edited r) (mr_read_at r)
    (mr_expires_at r).

Record PresenceFfi := mkPresenceFfi { prf_in_app : bool; prf_do_not_disturb : bool }.

Record AttachmentSpecFfi := mkAttachmentSpecFfi {
  af_media_class : Z;
  af_mime_hint : bytes;
  af_orig_ext : bytes;
  af_bytes : bytes;
  af_caption : bytes;
  af_view_once : bool;
}.
Definition attachment_spec (s : AttachmentSpecFfi) : AttachmentSpec :=
  mkAttachmentSpec (af_media_class s) (af_mime_hint s) (af_orig_ext s) (af_bytes s) (af_caption s) (af_view_once s).

Record ProfilePairFfi := mkProfilePairFfi {
  pp_local_name : bytes;
  pp_local_jpeg : bytes;
  pp_peer_name : option bytes;
  pp_peer_jpeg : option bytes;
}.

Record PolicyFfi := mkPolicyFfi {
  plf_ttl_sec : Z;
  plf_screenshot : bool;
  plf_attach_download : bool;
  plf_local_want : Z;
  plf_peer_want : Z;
  plf_pending : bool;
  plf_pending_inbound : bool;
}.
Definition policy_ffi (s : PolicyState) : PolicyFfi :=
  mkPolicyFfi (ps_ttl_sec s) (ps_screenshot s) (ps_attach_download s) (ps_local_want s) (ps_peer_want s)
    (bool_decide (is_Some (ps_pending s))) (from_option pp_inbound false (ps_pending s)).

Record PackInfoFfi := mkPackInfoFfi {
  pif_pack_id : bytes;
  pif_pack_pk : bytes;
  pif_title : bytes;
  pif_kind : Z;
  pif_visibility : Z;
  pif_item_count : Z;
  pif_icon_item_id : Z;
  pif_ours : bool;
  pif_cached : bool;
}.
Definition pack_info_ffi (p : PackInfo) : PackInfoFfi :=
  mkPackInfoFfi (hex_encode (in_pack_id p)) (hex_encode (in_pack_pk p)) (in_title p) (in_kind p) (in_visibility p)
    (in_item_count p) (in_icon_item_id p) (in_ours p) (in_cached p).

Record PackCreatedFfi := mkPackCreatedFfi { pcf_pack_id : bytes; pcf_pack_pk : bytes }.

(** ** [ffi/pairing.rs] *)

Record PairingOfferFfi := mkPairingOfferFfi {
  off_qr_bytes : bytes; off_code : bytes; off_onion : string; off_expires_at : Z;
}.
Definition offer_ffi (o : Offer) : PairingOfferFfi :=
  mkPairingOfferFfi (of_qr_bytes o) (of_code o) (of_onion o) (of_expires_at o).

Record AcceptedFfi := mkAcceptedFfi {
  acf_rel_id : string; acf_sas : bytes; acf_peer_onion : string; acf_onion : string;
}.
Definition accepted_ffi (a : Accepted) : AcceptedFfi :=
  mkAcceptedFfi (ac_rel_id a) (ac_sas a) (ac_peer_onion a) (ac_onion a).

Record RequestInfoFfi := mkRequestInfoFfi {
  rif_rel_id : string; rif_sas : bytes; rif_peer_onion : string; rif_created_at : Z;
}.
Definition request_info_ffi (r : RequestInfo) : RequestInfoFfi :=
  mkRequestInfoFfi (ri_rel_id r) (ri_sas r) (ri_peer_onion r) (ri_created_at r).

Inductive SessionStateFfi := SfMissing | SfActive | SfBroken.
Definition session_state_ffi (s : SessionState) : SessionStateFfi :=
  match s with SessNone => SfMissing | SessActive => SfActive | SessBroken => SfBroken end.

Inductive IngestFfi :=
| IfRequestReceived (rel_id : string) (sas plaintext : bytes)
| IfMessage (rel_id : string) (plaintext : bytes)
| IfDuplicate
| IfSessionBroken (rel_id : string) (reason : Detail)
| IfDropped
| IfQueued.
Definition ingest_ffi (i : Ingest) : IngestFfi :=
  match i with
  | RequestReceived rel_id sas plaintext => IfRequestReceived rel_id sas plaintext
  | IngMessage rel_id plaintext => IfMessage rel_id plaintext
  | IngDuplicate => IfDuplicate
  | IngSessionBroken rel_id reason => IfSessionBroken rel_id reason
  | IngDropped => IfDropped
  end.

(** The QR matrix of [pairing/qr.rs]; [qrcode] is the crate's encoder: the
    width and the dark modules, row by row. *)
Record QrMatrixFfi := mkQrMatrixFfi { qm_size : Z; qm_modules : list Z }.
Definition qr_render_matrix (qrcode : bytes → result Detail (Z * list bool)) (payload : bytes)
    : result PairingError QrMatrixFfi :=
  let* code := map_err (λ _, Invalid (Lit "qr encode: {e}")) (qrcode payload) in
  Ok (mkQrMatrixFfi (wrap32 code.1) ((λ c : bool, if c then 1 else 0) <$> code.2)).
Definition render_qr_matrix (qrcode : bytes → result Detail (Z * list bool)) (payload : bytes)
    : result CoreError QrMatrixFfi :=
  let* matrix := map_err (λ e, CoreOther (MsgPayload e)) (qr_render_matrix qrcode payload) in
  Ok (mkQrMatrixFfi (qm_size matrix) (qm_modules matrix)).

(** ** What the client is handed names what the core means *)

Lemma hex_id_encode n why id : len id = n → hex_id n why (hex_encode id) = Some (Ok id).
Proof.
  intros Hn. unfold hex_id. rewrite hex_decode_encode. cbn. by rewrite Hn, Z.eqb_refl.
Qed.

(** An identifier that is accepted is spelled out and has its length. *)
Lemma hex_id_Ok n why s id : hex_id n why s = Some (Ok id) → hex_decode s = Some (Ok id) ∧ len id = n.
Proof.
  unfold hex_id. destruct (hex_decode s) as [[v|x]|]; cbn; [|done..].
  destruct (Z.eqb_spec (len v) n); [|done]. by intros [= <-].
Qed.

(** Events that carry a document that cannot be encoded are the only ones
    two of which the client cannot tell apart. *)
Definition carries_doc (e : EngineEvent) : bool := match e with EvStickerThumbs _ _ => true | _ => false end.

Lemma engine_event_ffi_inj e e' :
  carries_doc e = false → engine_event_ffi e = engine_event_ffi e' → e = e'.
Proof.
  intros Hd. destruct e; try done; destruct e'; intros [=]; f_equal; auto using hex_encode_inj.
Qed.
