(* ===== verification/Ffi.v ===== *)
(** The client boundary ([core/src/ffi/]): every exported method of
    [SchatCore] over the vault. The object is the vault behind its mutex; a
    call that panics while it holds the guard poisons the mutex. A call
    returns a value, an error, or unwinds with a panic ([None]). Text the
    client hands over is the list of its UTF-8 bytes, relationship ids are
    strings; [now] is the clock at the call. *)

From S2P Require Import Prelude Bin RustStr Limits Media Hex Payloads StickerDocs Envelope Frame PairingQr Policy RateLimit Ephemeral Ledger Settings Sync Session SignalStores EngineTypes Queue Wipe StickerPending StickerStore Attach Messages Caps Engine StickerEngine Sends Profiles Persona Pairing Burn Writes Inbound Runs PairingFacts EngineWf Vault FfiTypes.

Section Ffi.
Context {Net Rng : Type} `{crypto : !PairingCrypto Rng} `{hosting : !Hosting Net} {codecs : ImageCodecs}.
Context `{aead : !Aead} `{cipher : !SqlCipher}.
Context (nfc : bytes → bytes).
Context (kill_switch online : Net → bool).
Context (sender_send : Net → string → bytes → Net * result TransportError unit).
Context (private_ok public_ok : bytes → bool).
Context (verify_pack : bytes → bytes → bytes → bool).
Context (sign_pack : bytes → bytes → bytes → bytes).
(** [Transport::stop]. *)
Context (transport_stop : Net → Net).

Local Abbreviation rng_id := (λ r : Rng, fill_bytes r 16).
Local Abbreviation Engine := (@Engine SignalTables Net Rng).
Local Abbreviation M := (@M SignalTables Net Rng).
Local Abbreviation VaultedEngine := (@VaultedEngine Net Rng cipher).
Local Notation "'via' f" := (f nfc message_encrypt kill_switch online sender_send rng_id fill_bytes rng_next)
  (at level 10, only parsing).
Local Abbreviation handle_plaintext :=
  (handle_plaintext nfc sha256 message_encrypt kill_switch online sender_send remove_service rng_id fill_bytes
     rng_next private_ok public_ok verify_pack sign_pack).

(** ** The object ([ffi/mod.rs]) *)

Record SchatCore := mkCore { sc_vaulted : VaultedEngine; sc_poisoned : bool }.
Definition core_new (v : VaultedEngine) : SchatCore := mkCore v false.

(** The constructor: the Tier-A key is read or drawn, the queue's directory
    created, and the vault starts locked. *)
Definition ffi_new (faults : Faults) (key_file : option bytes) (fresh : bytes) (dir : QDir) (file : option DbFile)
    (host : Host) : option bytes * result CoreError SchatCore :=
  let '(key_file, r) := load_or_generate_tier_a faults key_file fresh in
  (key_file,
   map_err from_vault (let* key := r in
                       let* _ := try_fs faults (FsWrite (str_bytes "queue")) in
                       Ok (core_new (vault_new key dir file host)))).

Definition Call (A : Type) : Type := SchatCore → SchatCore * option (result CoreError A).

(** The guard, and the guard with an engine behind it. *)
Definition vaulted (c : SchatCore) : result CoreError VaultedEngine :=
  if sc_poisoned c then Err core_poisoned else Ok (sc_vaulted c).
Definition unlocked (c : SchatCore) : result CoreError VaultedEngine :=
  let* g := vaulted c in
  if is_locked g then Err core_locked else Ok g.
(** [VaultedEngine::engine] and [engine_mut]. *)
Definition engine_mut (v : VaultedEngine) : result VaultError (bytes * Engine) := ok_or (ve_engine v) VLocked.

(** The vault with its engine updated in place. *)
Definition put_engine (v : VaultedEngine) (key : bytes) (e : Engine) : VaultedEngine :=
  mkVault (ve_tier_b v) (ve_queue v) (ve_dir v) (ve_file v) (engine_host e) (Some (key, e)).

(** What runs under the guard. *)
Definition Op (A : Type) : Type := Engine → Engine * option (result CoreError A).
Definition op_ret {A} (a : A) : Op A := λ e, (e, Some (Ok a)).
Definition op_bind {A B} (m : Op A) (k : A → Op B) : Op B := λ e,
  match m e with
  | (e, Some (Ok a)) => k a e
  | (e, Some (Err x)) => (e, Some (Err x))
  | (e, None) => (e, None)
  end.
Local Notation "'let!' x ':=' m 'in' k" := (op_bind m (λ x, k))
  (at level 200, x name, k at level 200, right associativity).
Definition op_of {A} (r : option (result CoreError A)) : Op A := λ e, (e, r).
Definition op_try {A} (r : result CoreError A) : Op A := λ e, (e, Some r).
Definition op_db {A} (f : Db → A) : Op A := λ e, (e, Some (Ok (f (en_db e)))).
(** An engine method, a pairing function and a function of the store. *)
Definition op_engine {A} (m : M A) : Op A := λ e, let '(e, r) := m e in (e, Some (map_err from_engine r)).
Definition op_pairing {A} (m : M A) : Op A := λ e, let '(e, r) := m e in (e, Some (map_err from_pairing r)).
Definition op_store (f : Db → Db) : Op unit := λ e,
  (mkEngine (f (en_db e)) (en_sig e) (en_net e) (en_rng e) (en_presence e) (en_typing e) (en_pending e)
     (en_rate e) (en_drops e), Some (Ok tt)).

(** A call through [unlocked] and [engine_mut]. *)
Definition with_engine {A} (now : Z) (m : Op A) : Call A := λ c,
  match unlocked c with
  | Err x => (c, Some (Err x))
  | Ok v =>
      match engine_mut v with
      | Err x => (c, Some (Err (from_vault x)))
      | Ok (key, e) =>
          match m (at_time now e) with
          | (e, Some r) => (mkCore (put_engine v key e) false, Some r)
          | (e, None) => (mkCore (put_engine v key e) true, None)
          end
      end
  end.

(** ** [ffi/messaging.rs] *)

Definition ffi_handle_plaintext (now : Z) (rel_id : string) (plaintext : bytes) : Call (list EngineEventFfi) :=
  with_engine now (
    let! events := op_engine (handle_plaintext rel_id plaintext) in
    op_ret (engine_event_ffi <$> events)).

Definition ffi_drain_outbox (now : Z) : Call Z :=
  with_engine now (op_engine (drain_outbox kill_switch online sender_send)).

Definition ffi_sweep (now : Z) : Call (list EngineEventFfi) :=
  with_engine now (
    let! events := op_engine (sweep remove_service) in
    op_ret (engine_event_ffi <$> events)).

(** [reply_to.map(|s| hex_id16(&s)).transpose()] *)
Definition hex_id_opt (s : option bytes) : option (result CoreError (option bytes)) :=
  match s with
  | None => Some (Ok None)
  | Some s => r ← hex_id16 s; Some (let* id := r in Ok (Some id))
  end.

Definition ffi_send_text (now : Z) (rel_id : string) (body : bytes) (reply_to : option bytes) : Call bytes :=
  with_engine now (
    let! reply_to := op_of (hex_id_opt reply_to) in
    let! id := op_engine (via send_text rel_id body reply_to) in
    op_ret (hex_encode id)).

Definition ffi_edit_message (now : Z) (rel_id : string) (target_id new_body : bytes) : Call unit :=
  with_engine now (
    let! target := op_of (hex_id16 target_id) in
    let! _ := op_engine (via send_edit rel_id target new_body) in
    op_ret tt).

Definition ffi_delete_message (now : Z) (rel_id : string) (target_id : bytes) : Call unit :=
  with_engine now (
    let! target := op_of (hex_id16 target_id) in
    let! _ := op_engine (via send_delete rel_id target) in
    op_ret tt).

Definition ffi_delete_all (now : Z) (rel_id : string) : Call unit :=
  with_engine now (
    let! _ := op_engine (via send_delete_all rel_id) in
    op_ret tt).

Definition ffi_mark_read (now : Z) (rel_id : string) (target_id : bytes) : Call unit :=
  with_engine now (
    let! target := op_of (hex_id16 target_id) in
    op_engine (via send_read rel_id target)).

Definition ffi_set_typing (now : Z) (rel_id : string) (typing : bool) : Call unit :=
  with_engine now (op_engine (via send_typing rel_id typing)).

(** The beats, in the order of the list; the first failure ends the loop. *)
Fixpoint presence_loop (rels : list string) (in_app do_not_disturb : bool) (sent : Z) : Op Z :=
  match rels with
  | [] => op_ret sent
  | rel_id :: rels =>
      let! _ := op_engine (via send_presence rel_id in_app do_not_disturb) in
      presence_loop rels in_app do_not_disturb (sent + 1)
  end.
Definition active_rels (db : Db) : list string :=
  (filter (λ r : string * RelRow, rel_state r.2 = STATE_ACTIVE) (list_relationships db)).*1.

Definition ffi_send_presence (now : Z) (in_app do_not_disturb : bool) : Call Z :=
  with_engine now (
    let! rels := op_db active_rels in
    presence_loop rels in_app do_not_disturb 0).

(** The queries that answer without an error. *)
Definition ffi_presence_state (now : Z) (rel_id : string) (c : SchatCore) : option PresenceFfi :=
  match unlocked c with
  | Err _ => None
  | Ok v =>
      match engine_mut v with
      | Err _ => None
      | Ok (_, e) =>
          let p := presence_state (en_presence e) rel_id now in
          Some (mkPresenceFfi (pp_in_app p) (pp_do_not_disturb p))
      end
  end.
Definition ffi_typing_state (now : Z) (rel_id : string) (c : SchatCore) : bool :=
  match unlocked c with
  | Err _ => false
  | Ok v =>
      match engine_mut v with
      | Err _ => false
      | Ok (_, e) => is_typing (en_typing e) rel_id now
      end
  end.

Definition ffi_peer_caps (now : Z) (rel_id : string) : Call Z :=
  with_engine now (op_db (λ db, peer_caps db rel_id)).

Definition ffi_thread (now : Z) (rel_id : string) (limit : Z) (before_seq : option Z) : Call (list MessageRowFfi) :=
  with_engine now (
    let limit := clamp_thread_page limit in
    let! rows := op_db (λ db, thread_visible db rel_id limit before_seq) in
    op_ret (message_row_ffi <$> rows)).

(** ** [ffi/features.rs] *)

Definition ffi_send_attachment (now : Z) (rel_id : string) (spec : AttachmentSpecFfi) : Call bytes :=
  with_engine now (
    let! id := op_engine (send_attachment nfc sha256 message_encrypt kill_switch online sender_send rng_id fill_bytes
                            rng_next rel_id (attachment_spec spec)) in
    op_ret (hex_encode id)).

Definition ffi_attachment_bytes (now : Z) (head_id : bytes) : Call (option bytes) :=
  with_engine now (
    let! head := op_of (hex_id16 head_id) in
    op_db (λ db, attachment_bytes db head)).

Definition ffi_attachment_viewed (now : Z) (head_id : bytes) : Call unit :=
  with_engine now (
    let! head := op_of (hex_id16 head_id) in
    op_store (λ db, attachment_viewed db head)).

Definition ffi_profile_set (now : Z) (name jpeg : bytes) : Call unit :=
  with_engine now (
    let! r := op_db (λ db, set_our_profile nfc db name jpeg) in
    let! db := op_try (map_err from_engine r) in
    op_store (λ _, db)).

Definition ffi_profile_broadcast (now : Z) : Call Z := with_engine now (op_engine (via broadcast_profile)).
Definition ffi_profile_request (now : Z) (rel_id : string) : Call unit :=
  with_engine now (op_engine (via send_profile_req rel_id)).

Definition ffi_profile_show (now : Z) (rel_id : string) : Call ProfilePairFfi :=
  with_engine now (op_db (λ db,
    let local := our_profile db in
    let peer := profile db rel_id in
    mkProfilePairFfi (profile_name local) (profile_jpeg local) (pf_name <$> peer) (pf_jpeg <$> peer))).

Definition ffi_policy_propose (now : Z) (rel_id : string) (ttl_sec : option Z)
    (screenshot attach_download : option bool) : Call unit :=
  with_engine now (
    let! r := op_db (λ db, load_policy db rel_id) in
    let! cur := op_try (map_err from_store r) in
    op_engine (via propose_rules rel_id (default (ps_ttl_sec cur) ttl_sec)
                 (default (ps_screenshot cur) screenshot) (default (ps_attach_download cur) attach_download))).

Definition ffi_policy_accept (now : Z) (rel_id : string) : Call unit :=
  with_engine now (
    let! _ := op_engine (via accept_rules rel_id) in
    op_ret tt).

Definition ffi_policy_decline (now : Z) (rel_id : string) : Call unit :=
  with_engine now (op_engine (engine_decline_rules rel_id)).

Definition ffi_policy_set_cap (now : Z) (rel_id : string) (cap_id : Z) (on : bool) : Call unit :=
  with_engine now (
    let! _ := op_engine (via set_capability rel_id cap_id on) in
    op_ret tt).

Definition ffi_policy_show (now : Z) (rel_id : string) : Call PolicyFfi :=
  with_engine now (
    let! r := op_db (λ db, load_policy db rel_id) in
    let! s := op_try (map_err from_store r) in
    op_ret (policy_ffi s)).

Definition ffi_close_contact (now : Z) (rel_id : string) : Call unit :=
  with_engine now (op_engine (via close_contact rel_id)).

Definition ffi_sticker_send (now : Z) (rel_id : string) (pack_id : bytes) (item_id : Z) : Call bytes :=
  with_engine now (
    let! pack := op_of (hex_id16 pack_id) in
    let! id := op_engine (via send_sticker rel_id pack item_id) in
    op_ret (hex_encode id)).

Definition ffi_sticker_list (now : Z) : Call (list PackInfoFfi) :=
  with_engine now (op_db (λ db, pack_info_ffi <$> list_packs db)).

Definition wrap16 (a : Z) : Z := a mod 2 ^ 16.

Fixpoint prepare_items (items : list bytes) (kind : Z) (prepared : list PackDocItem)
    : result CoreError (list PackDocItem) :=
  match items with
  | [] => Ok prepared
  | bs :: items =>
      let* p := map_err (λ e, CoreOther (MsgMedia e)) (prepare_sticker bs kind) in
      prepare_items items kind
        (prepared ++ [mkPackDocItem (wrap16 (len prepared + 1)) (wrap16 (ps_width p)) (wrap16 (ps_height p))
                        (sha256 (ps_bytes p)) (ps_bytes p)])
  end.

Definition ffi_sticker_create (now : Z) (title : bytes) (kind visibility : Z) (items : list bytes)
    : Call PackCreatedFfi :=
  with_engine now (
    let! prepared := op_try (prepare_items items kind []) in
    let! ids := op_engine (engine_create_pack title kind visibility 1 prepared) in
    op_ret (mkPackCreatedFfi (hex_encode ids.1) (hex_encode ids.2))).

Definition ffi_sticker_remove (now : Z) (pack_id : bytes) : Call bool :=
  with_engine now (
    let! pack := op_of (hex_id16 pack_id) in
    let! r := op_db (λ db, remove_pack db pack) in
    let! _ := op_store (λ _, r.1) in
    op_ret r.2).

Definition ffi_sticker_fetch (now : Z) (rel_id : string) (pack_id pack_pk : bytes) : Call unit :=
  with_engine now (
    let! pack := op_of (hex_id16 pack_id) in
    let! pk := op_of (hex_id32 pack_pk) in
    op_engine (via fetch_pack rel_id pack pk)).

(** ** [ffi/pairing.rs] *)

Definition ffi_pairing_offer (now : Z) : Call PairingOfferFfi :=
  with_engine now (
    let! o := op_pairing (offer now) in
    op_ret (offer_ffi o)).

Definition ffi_pairing_abort (now : Z) : Call unit := with_engine now (op_pairing abort_offer).

Definition ffi_pairing_accept (now : Z) (qr_bytes : bytes) : Call AcceptedFfi :=
  with_engine now (
    let! a := op_pairing (accept qr_bytes now) in
    op_ret (accepted_ffi a)).

Definition ffi_pairing_accept_code (now : Z) (code : bytes) : Call AcceptedFfi :=
  with_engine now (
    let! a := op_pairing (accept_code code now) in
    op_ret (accepted_ffi a)).

Definition ffi_pairing_sas (now : Z) (rel_id : string) : Call bytes :=
  with_engine now (λ e, (e, Some (map_err from_failure (sas_for (en_db e) (en_sig e) rel_id)))).

Definition ffi_pairing_accept_request (now : Z) (rel_id : string) : Call unit :=
  with_engine now (op_engine (engine_accept_request nfc kill_switch online sender_send rel_id)).

Definition ffi_pairing_requests (now : Z) : Call (list RequestInfoFfi) :=
  with_engine now (λ e, (e, Some (let* l := map_err from_failure (pending_requests (en_db e) (en_sig e)) in
                                  Ok (request_info_ffi <$> l)))).

Definition ffi_send_message (now : Z) (rel_id : string) (msg_id plaintext : bytes) (alert : bool) : Call unit :=
  with_engine now (op_pairing (send_message kill_switch online sender_send rel_id msg_id plaintext alert now)).

Definition ffi_session_encrypt (now : Z) (rel_id : string) (msg_id plaintext : bytes) : Call bytes :=
  with_engine now (λ e,
    let '(db, sig, r) := encrypt message_encrypt (en_db e) (en_sig e) rel_id msg_id plaintext now in
    (mkEngine db sig (en_net e) (en_rng e) (en_presence e) (en_typing e) (en_pending e) (en_rate e) (en_drops e),
     Some (map_err from_session r))).

Definition ffi_session_state (now : Z) (rel_id : string) : Call SessionStateFfi :=
  with_engine now (op_db (λ db, session_state_ffi (session_state db rel_id))).

(** [faults] and [nonce] are the file system's and the generator's, for a
    frame that is queued. *)
Definition ffi_ingest_frame (faults : Faults) (nonce : bytes) (now : Z) (service_id : string) (intro : option bytes)
    (record : bytes) : Call IngestFfi := λ c,
  match vaulted c with
  | Err x => (c, Some (Err x))
  | Ok v =>
      if is_locked v then
        let '(v, r) := ingest_drop nfc kill_switch online sender_send private_ok public_ok verify_pack sign_pack
                         faults nonce now v service_id intro record in
        (mkCore v false, Some (let* _ := map_err from_vault r in Ok IfQueued))
      else
        with_engine now (
          let! outcome := op_pairing (ingest_frame service_id intro record now) in
          op_ret (ingest_ffi outcome)) c
  end.

(** ** [ffi/vault.rs] *)

Definition ffi_unlock (faults : Faults) (now : Z) (dek : bytes) : Call Z := λ c,
  if negb (len dek =? 32) then (c, Some (Err (CoreOther (MsgLit "DEK must be 32 bytes"))))
  else
    match vaulted c with
    | Err x => (c, Some (Err x))
    | Ok v =>
        let '(v, r) := unlock nfc kill_switch online sender_send private_ok public_ok verify_pack sign_pack
                         faults v dek now in
        (mkCore v false, Some (let* report := map_err from_vault r in Ok (ur_drained report)))
    end.

Definition ffi_lock (c : SchatCore) : SchatCore :=
  match vaulted c with
  | Ok v => mkCore (lock v) false
  | Err _ => c
  end.

Definition ffi_is_locked (c : SchatCore) : bool :=
  match vaulted c with Ok v => is_locked v | Err _ => true end.
Definition ffi_queued_drops (c : SchatCore) : Z :=
  match vaulted c with Ok v => queued_drops v | Err _ => 0 end.

(** The transport the whole process shares. *)
Definition stop_transport (v : VaultedEngine) : VaultedEngine :=
  match ve_engine v with
  | Some (key, e) =>
      put_engine v key
        (mkEngine (en_db e) (en_sig e) (transport_stop (en_net e)) (en_rng e) (en_presence e) (en_typing e)
           (en_pending e) (en_rate e) (en_drops e))
  | None =>
      mkVault (ve_tier_b v) (ve_queue v) (ve_dir v) (ve_file v)
        (mkHost (transport_stop (h_net (ve_host v))) (h_rng (ve_host v)) (h_drops (ve_host v))) None
  end.

(** [Transport::send_frame], and the call that needs no vault. *)
Definition send_frame (net : Net) (dest_onion : string) (payload : bytes) (alert : bool)
    : Net * result TransportError unit :=
  send_record kill_switch online sender_send net dest_onion None payload alert.
Definition ffi_send_frame (net : Net) (dest_onion : string) (payload : bytes) (alert : bool)
    : Net * result CoreError unit :=
  let '(net, r) := send_frame net dest_onion payload alert in (net, map_err from_transport r).

(** [panic_wipe] over the data directory as the wipe walks it; what it
    leaves of the store and the queue is what the tree says. *)
Definition ffi_panic_wipe (overwrite_stops : string → string → option nat) (remove_fails : string → bool)
    (c : SchatCore) (tree : DataDir) : SchatCore * DataDir * result CoreError unit :=
  let c := mkCore (stop_transport (sc_vaulted c)) (sc_poisoned c) in
  match vaulted c with
  | Err x => (c, tree, Err x)
  | Ok v =>
      let v := lock v in
      let '(tree, report) := panic_wipe overwrite_stops remove_fails tree in
      (mkCore v false, tree,
       if wr_errors report >? 0 then Err (CoreOther (MsgWipe (wr_errors report))) else Ok tt)
  end.
End Ffi.
