(* ===== verification/FfiFacts.v ===== *)
(** What the client can rely on at the boundary ([core/src/ffi/]): the
    store-backed calls as one type, closed while the vault is locked; the
    two-call receive path against the vault's own; the invariant over any
    sequence of calls; and what a panic under the guard leaves. *)

From S2P Require Import Prelude Bin RustStr Limits Media Hex Payloads StickerDocs Envelope Frame PairingQr Policy RateLimit Ephemeral Ledger Settings Sync Session SignalStores EngineTypes Queue Wipe StickerPending StickerStore Attach Messages Caps Engine StickerEngine Sends Profiles Persona Pairing Burn Writes Inbound Runs PairingFacts EngineWf Vault FfiTypes Ffi.

Section Facts.
Context {Net Rng : Type} `{crypto : !PairingCrypto Rng} `{hosting : !Hosting Net} {codecs : ImageCodecs}.
Context `{aead : !Aead} `{cipher : !SqlCipher}.
Context (nfc : bytes → bytes).
Context (kill_switch online : Net → bool).
Context (sender_send : Net → string → bytes → Net * result TransportError unit).
Context (private_ok public_ok : bytes → bool).
Context (verify_pack : bytes → bytes → bytes → bool).
Context (sign_pack : bytes → bytes → bytes → bytes).
Context (transport_stop : Net → Net).

Local Abbreviation Engine := (@Engine SignalTables Net Rng).
Local Abbreviation M := (@M SignalTables Net Rng).
Local Abbreviation VaultedEngine := (@VaultedEngine Net Rng cipher).
Local Abbreviation SchatCore := (@SchatCore Net Rng cipher).
Local Abbreviation Call := (@Call Net Rng cipher).
Local Abbreviation Op := (@Op Net Rng).
Local Notation "'full' f" :=
  (f nfc kill_switch online sender_send private_ok public_ok verify_pack sign_pack) (at level 10, only parsing).
Local Notation "'sends' f" := (f nfc kill_switch online sender_send) (at level 10, only parsing).

(** ** The store-backed calls *)

Inductive FfiCall :=
| FcHandle (rel_id : string) (plaintext : bytes)
| FcDrain
| FcSweep
| FcText (rel_id : string) (body : bytes) (reply_to : option bytes)
| FcEdit (rel_id : string) (target_id new_body : bytes)
| FcDelete (rel_id : string) (target_id : bytes)
| FcDeleteAll (rel_id : string)
| FcRead (rel_id : string) (target_id : bytes)
| FcTyping (rel_id : string) (typing : bool)
| FcPresence (in_app do_not_disturb : bool)
| FcPeerCaps (rel_id : string)
| FcThread (rel_id : string) (limit : Z) (before_seq : option Z)
| FcAttachment (rel_id : string) (spec : AttachmentSpecFfi)
| FcAttachmentBytes (head_id : bytes)
| FcAttachmentViewed (head_id : bytes)
| FcProfileSet (name jpeg : bytes)
| FcProfileBroadcast
| FcProfileRequest (rel_id : string)
| FcProfileShow (rel_id : string)
| FcPropose (rel_id : string) (ttl_sec : option Z) (screenshot attach_download : option bool)
| FcPolicyAccept (rel_id : string)
| FcPolicyDecline (rel_id : string)
| FcPolicyCap (rel_id : string) (cap_id : Z) (on : bool)
| FcPolicyShow (rel_id : string)
| FcClose (rel_id : string)
| FcSticker (rel_id : string) (pack_id : bytes) (item_id : Z)
| FcStickerList
| FcStickerCreate (title : bytes) (kind visibility : Z) (items : list bytes)
| FcStickerRemove (pack_id : bytes)
| FcStickerFetch (rel_id : string) (pack_id pack_pk : bytes)
| FcOffer
| FcAbortOffer
| FcAccept (qr_bytes : bytes)
| FcAcceptCode (code : bytes)
| FcSas (rel_id : string)
| FcAcceptRequest (rel_id : string)
| FcRequests
| FcSendMessage (rel_id : string) (msg_id plaintext : bytes) (alert : bool)
| FcEncrypt (rel_id : string) (msg_id plaintext : bytes)
| FcSessionState (rel_id : string).

(** A call, its value forgotten. *)
Definition forget {A} (m : Call A) : Call unit := λ c,
  let '(c, r) := m c in (c, (λ r, let* _ := r in Ok tt) <$> r).

Definition run_ffi (now : Z) (fc : FfiCall) : Call unit :=
  match fc with
  | FcHandle r p => forget (full ffi_handle_plaintext now r p)
  | FcDrain => forget (ffi_drain_outbox kill_switch online sender_send now)
  | FcSweep => forget (ffi_sweep now)
  | FcText r b t => forget (sends ffi_send_text now r b t)
  | FcEdit r t b => forget (sends ffi_edit_message now r t b)
  | FcDelete r t => forget (sends ffi_delete_message now r t)
  | FcDeleteAll r => forget (sends ffi_delete_all now r)
  | FcRead r t => forget (sends ffi_mark_read now r t)
  | FcTyping r b => forget (sends ffi_set_typing now r b)
  | FcPresence a b => forget (sends ffi_send_presence now a b)
  | FcPeerCaps r => forget (ffi_peer_caps now r)
  | FcThread r l s => forget (ffi_thread now r l s)
  | FcAttachment r s => forget (sends ffi_send_attachment now r s)
  | FcAttachmentBytes h => forget (ffi_attachment_bytes now h)
  | FcAttachmentViewed h => forget (ffi_attachment_viewed now h)
  | FcProfileSet n j => forget (ffi_profile_set nfc now n j)
  | FcProfileBroadcast => forget (sends ffi_profile_broadcast now)
  | FcProfileRequest r => forget (sends ffi_profile_request now r)
  | FcProfileShow r => forget (ffi_profile_show now r)
  | FcPropose r t a b => forget (sends ffi_policy_propose now r t a b)
  | FcPolicyAccept r => forget (sends ffi_policy_accept now r)
  | FcPolicyDecline r => forget (ffi_policy_decline now r)
  | FcPolicyCap r c b => forget (sends ffi_policy_set_cap now r c b)
  | FcPolicyShow r => forget (ffi_policy_show now r)
  | FcClose r => forget (sends ffi_close_contact now r)
  | FcSticker r p i => forget (sends ffi_sticker_send now r p i)
  | FcStickerList => forget (ffi_sticker_list now)
  | FcStickerCreate t k v i => forget (ffi_sticker_create now t k v i)
  | FcStickerRemove p => forget (ffi_sticker_remove now p)
  | FcStickerFetch r p k => forget (sends ffi_sticker_fetch now r p k)
  | FcOffer => forget (ffi_pairing_offer now)
  | FcAbortOffer => forget (ffi_pairing_abort now)
  | FcAccept q => forget (ffi_pairing_accept now q)
  | FcAcceptCode s => forget (ffi_pairing_accept_code now s)
  | FcSas r => forget (ffi_pairing_sas now r)
  | FcAcceptRequest r => forget (sends ffi_pairing_accept_request now r)
  | FcRequests => forget (ffi_pairing_requests now)
  | FcSendMessage r m p a => forget (ffi_send_message kill_switch online sender_send now r m p a)
  | FcEncrypt r m p => forget (ffi_session_encrypt now r m p)
  | FcSessionState r => forget (ffi_session_state now r)
  end.

(** ** The guard *)

Definition closed (c : SchatCore) : bool := sc_poisoned c || is_locked (sc_vaulted c).
Definition closed_error (c : SchatCore) : CoreError := if sc_poisoned c then core_poisoned else core_locked.

Lemma unlocked_closed (c : SchatCore) : closed c = true → unlocked c = Err (closed_error c).
Proof.
  unfold closed, closed_error, unlocked, vaulted. destruct (sc_poisoned c); [done|]. cbn. by intros ->.
Qed.

Lemma unlocked_open (c : SchatCore) key e :
  sc_poisoned c = false → ve_engine (sc_vaulted c) = Some (key, e) → unlocked c = Ok (sc_vaulted c).
Proof.
  intros Hp He. unfold unlocked, vaulted. rewrite Hp. cbn. unfold is_locked. rewrite He. done.
Qed.

Lemma with_engine_closed {A} now (m : Op A) (c : SchatCore) :
  closed c = true → with_engine now m c = (c, Some (Err (closed_error c))).
Proof. intros H. unfold with_engine. by rewrite unlocked_closed. Qed.

Lemma with_engine_open {A} now (m : Op A) (c : SchatCore) key e :
  sc_poisoned c = false → ve_engine (sc_vaulted c) = Some (key, e) →
  with_engine now m c
  = let '(e, r) := m (at_time now e) in
    (mkCore (put_engine (sc_vaulted c) key e) (bool_decide (r = None)), r).
Proof.
  intros Hp He. unfold with_engine. rewrite (unlocked_open c key e) by done. unfold engine_mut. rewrite He. cbn.
  by destruct (m (at_time now e)) as [e1 [r|]].
Qed.

(** Every store-backed call is an operation under the guard. *)
Lemma run_ffi_guarded now fc : ∃ A (m : Op A), run_ffi now fc = forget (with_engine now m).
Proof. destruct fc; eexists _, _; reflexivity. Qed.

(** C30: The boundary fails closed. While the vault is locked, or once its
    mutex is poisoned, every store-backed call returns the same error
    whatever its arguments and changes nothing, the queries answer as if no
    one had ever been seen, and the core reports itself locked. *)
Theorem boundary_fails_closed now fc rel_id (c : SchatCore) :
  closed c = true →
  run_ffi now fc c = (c, Some (Err (closed_error c)))
  ∧ ffi_presence_state now rel_id c = None ∧ ffi_typing_state now rel_id c = false
  ∧ ffi_is_locked c = true.
Proof.
  intros Hc. destruct (run_ffi_guarded now fc) as (A & m & ->).
  unfold forget, ffi_presence_state, ffi_typing_state. rewrite with_engine_closed, unlocked_closed by done.
  split_and!; [done..|]. revert Hc. unfold closed, ffi_is_locked, vaulted. by destruct (sc_poisoned c).
Qed.

(** ** Receiving a frame in two calls *)

(** What the client does with an inbound frame: ingest it, and hand the
    plaintext of a message or of a first request to the engine. *)
Definition client_receive (faults : Faults) (nonce : bytes) (now : Z) (service_id : string) (intro : option bytes)
    (record : bytes) : Call (list EngineEventFfi) := λ c,
  match full ffi_ingest_frame faults nonce now service_id intro record c with
  | (c, Some (Ok (IfRequestReceived rel_id _ plaintext)))
  | (c, Some (Ok (IfMessage rel_id plaintext))) => full ffi_handle_plaintext now rel_id plaintext c
  | (c, Some (Ok _)) => (c, Some (Ok []))
  | (c, Some (Err x)) => (c, Some (Err x))
  | (c, None) => (c, None)
  end.

(** The vault's error as the two calls report it: a queue's error as it is,
    an engine's or a pairing's without the vault around it. *)
Definition receive_error (locked : bool) (x : VaultError) : CoreError :=
  match x with
  | VPairing p => if locked then from_vault x else from_failure p
  | VEngine x' => if locked then from_vault x else from_engine x'
  | x => from_vault x
  end.

Lemma at_time_same now (e : Engine) : db_now (en_db e) = now → at_time now e = e.
Proof. intros <-. destruct e as [[]]. reflexivity. Qed.
Lemma at_time_now now (e : Engine) : db_now (en_db (at_time now e)) = now.
Proof. reflexivity. Qed.

Lemma ingest_frame_now sid intro record now (e : Engine) :
  db_now (en_db (ingest_frame sid intro record now (at_time now e)).1) = now.
Proof.
  destruct (runs_ingest_frame sid intro record now (at_time now e)) as [H _]. apply writes_seqs in H as [_ ->]. done.
Qed.

(** C29: Receiving a frame through the boundary's two calls, [ingest_frame]
    and then [handle_plaintext] on the plaintext it returns, leaves the vault
    exactly as the vault's own [ingest_drop] does, locked or not, and tells
    the client the same events, or the same error. *)
Theorem client_receive_refines faults nonce now sid intro record (c : SchatCore) :
  sc_poisoned c = false →
  let '(v, r) := full ingest_drop faults nonce now (sc_vaulted c) sid intro record in
  client_receive faults nonce now sid intro record c
  = (mkCore v false,
     Some (let* o := map_err (receive_error (is_locked (sc_vaulted c))) r in
           Ok (engine_event_ffi <$> outcome_events o))).
Proof.
  intros Hp. unfold client_receive, ffi_ingest_frame, vaulted. rewrite Hp.
  destruct (ve_engine (sc_vaulted c)) as [[key e]|] eqn:He; unfold is_locked; rewrite He; cbn.
  2:{ unfold ingest_drop. rewrite He. destruct (enqueue _ _ _ _ _ _ _ _ _) as [dir [o|x]]; cbn; [done|]. by destruct x. }
  rewrite (with_engine_open _ _ c key e) by done. unfold ingest_drop, route. rewrite He. unfold op_bind, op_pairing.
  pose proof (ingest_frame_now sid intro record now e) as Hn.
  destruct (ingest_frame sid intro record now (at_time now e)) as [e1 [o|x]]; cbn in Hn;
    cbn -[ffi_handle_plaintext put_engine dispatch]; [|by destruct x].
  assert (Hh : ∀ rel pt, full ffi_handle_plaintext now rel pt (mkCore (put_engine (sc_vaulted c) key e1) false)
    = let '(e2, r) := full dispatch rel pt e1 in
      (mkCore (put_engine (sc_vaulted c) key e2) false,
       Some (let* evs := map_err (receive_error false) r in Ok (engine_event_ffi <$> evs)))).
  { intros rel pt. unfold ffi_handle_plaintext. rewrite (with_engine_open _ _ _ key e1), at_time_same by done.
    unfold op_bind, op_engine, dispatch. by destruct (handle_plaintext _ _ _ _ _ _ _ _ _ _ _ _ _ _ _ _ e1) as [e2 [evs|x]]. }
  destruct o as [rel sas pt|rel pt| |rel reason|]; cbn -[ffi_handle_plaintext put_engine dispatch]; [| |done..].
  - rewrite Hh. by destruct (full dispatch rel pt e1) as [e2 [evs|x]].
  - rewrite Hh. by destruct (full dispatch rel pt e1) as [e2 [evs|x]].
Qed.

(** ** The operations under the guard keep the engine well formed *)

Definition op_keeps {A} (m : Op A) : Prop := ∀ e, engine_wf e → engine_wf (m e).1.

Lemma op_keeps_pure {A} (m : Op A) : (∀ e, (m e).1 = e) → op_keeps m.
Proof. intros H e. by rewrite H. Qed.
Lemma op_keeps_bind {A B} (m : Op A) (k : A → Op B) :
  op_keeps m → (∀ a, op_keeps (k a)) → op_keeps (op_bind m k).
Proof.
  intros Hm Hk e He. specialize (Hm e He). unfold op_bind.
  destruct (m e) as [e1 [[a|x]|]]; cbn [fst] in *; [by apply Hk|done..].
Qed.
Lemma op_keeps_engine {A} (m : M A) : (∀ e, engine_wf e → engine_wf (m e).1) → op_keeps (op_engine m).
Proof. intros H e He. specialize (H e He). unfold op_engine. by destruct (m e). Qed.
Lemma op_keeps_pairing {A} (m : M A) : keeps evolves m → op_keeps (op_pairing m).
Proof.
  intros H e He. specialize (H e). unfold op_pairing. destruct (m e) as [e1 r]. by eapply evolves_wf.
Qed.
Lemma op_keeps_evolves {A} (m : M A) : keeps evolves m → op_keeps (op_engine m).
Proof. intros H. apply op_keeps_engine. intros e He. eapply evolves_wf; [apply H|done]. Qed.
Lemma op_keeps_store (f : Db → Db) : (∀ db, store_wf db → store_wf (f db)) → op_keeps (op_store f).
Proof. intros H e [H1 H2]. split; [by apply H|done]. Qed.

Lemma presence_loop_keeps rels a b sent : op_keeps (sends presence_loop rels a b sent).
Proof.
  revert sent. induction rels as [|r rels IH]; intros sent; cbn [presence_loop]; [by apply op_keeps_pure|].
  apply op_keeps_bind; [apply op_keeps_evolves, runs_send_presence|done].
Qed.

Lemma profile_set_keeps name jpeg :
  op_keeps (op_bind (op_db (λ db, set_our_profile nfc db name jpeg))
              (λ r, op_bind (op_try (map_err from_engine r)) (λ db, op_store (λ _, db)))).
Proof.
  intros e [H1 H2]. unfold op_bind, op_db, op_try.
  destruct (set_our_profile nfc (en_db e) name jpeg) as [db|x] eqn:E; [|done].
  split; [by eapply profile_set_wf|done].
Qed.
Lemma remove_keeps pack :
  op_keeps (op_bind (op_db (λ db, remove_pack db pack))
              (λ r, op_bind (op_store (λ _, r.1)) (λ _, op_ret r.2))).
Proof. intros e [H1 H2]. split; [by apply remove_pack_store_wf|done]. Qed.
Lemma encrypt_keeps now rel_id msg_id pt :
  op_keeps (λ e : Engine,
    let '(db, sig, r) := encrypt message_encrypt (en_db e) (en_sig e) rel_id msg_id pt now in
    (mkEngine db sig (en_net e) (en_rng e) (en_presence e) (en_typing e) (en_pending e) (en_rate e) (en_drops e),
     Some (map_err from_session r))).
Proof.
  intros e [H1 H2]. pose proof (writes_encrypt message_encrypt (en_db e) (en_sig e) rel_id msg_id pt now) as Hw.
  destruct (encrypt _ _ _ _ _ _ _) as [[db sig] r]. split; [by eapply writes_wf|done].
Qed.

(** The steps that leave the engine as it is. *)
Ltac keep_pure :=
  repeat lazymatch goal with
    | |- op_keeps (op_bind (op_db (λ db, set_our_profile _ _ _ _)) _) => fail
    | |- op_keeps (op_bind (op_db (λ db, remove_pack _ _)) _) => fail
    | |- op_keeps (op_bind _ _) => apply op_keeps_bind; [|intros ?]
    | |- op_keeps (op_ret _) => apply op_keeps_pure; reflexivity
    | |- op_keeps (op_of _) => apply op_keeps_pure; reflexivity
    | |- op_keeps (op_try _) => apply op_keeps_pure; reflexivity
    | |- op_keeps (op_db _) => apply op_keeps_pure; reflexivity
    | |- op_keeps (λ e, (e, _)) => apply op_keeps_pure; reflexivity
    end.

(** Every store-backed call runs an operation that keeps the engine well
    formed. *)
Lemma run_ffi_keeps now fc :
  ∃ A (m : Op A), run_ffi now fc = forget (with_engine now m) ∧ op_keeps m.
Proof.
  destruct fc; eexists _, _; (split; [reflexivity|]); cbv zeta; keep_pure.
  - apply op_keeps_engine. intros e. apply (handled_wf rel_id), handle_plaintext_handled.
  - apply op_keeps_evolves, runs_drain_outbox.
  - apply op_keeps_engine, sweep_wf.
  - apply op_keeps_evolves, runs_send_text.
  - apply op_keeps_evolves, runs_send_edit.
  - apply op_keeps_evolves, runs_send_delete.
  - apply op_keeps_evolves, runs_send_delete_all.
  - apply op_keeps_evolves, runs_send_read.
  - apply op_keeps_evolves, runs_send_typing.
  - apply presence_loop_keeps.
  - apply op_keeps_evolves, runs_send_attachment.
  - apply op_keeps_store. intros db. apply viewed_wf.
  - apply profile_set_keeps.
  - apply op_keeps_evolves, runs_broadcast_profile.
  - apply op_keeps_evolves, runs_send_profile_req.
  - apply op_keeps_evolves, runs_propose_rules.
  - apply op_keeps_evolves, runs_accept_rules.
  - apply op_keeps_evolves, runs_decline_rules.
  - apply op_keeps_evolves, runs_set_capability.
  - apply op_keeps_evolves, runs_close_contact.
  - apply op_keeps_evolves, runs_send_sticker.
  - apply op_keeps_engine. intros e. apply engine_create_wf.
  - apply remove_keeps.
  - apply op_keeps_evolves, runs_fetch_pack.
  - apply op_keeps_pairing, runs_offer.
  - apply op_keeps_pairing, runs_clear_pending.
  - apply op_keeps_pairing, runs_accept.
  - apply op_keeps_pairing, runs_accept_code.
  - apply op_keeps_evolves, runs_engine_accept.
  - apply op_keeps_pairing, runs_send_message.
  - apply encrypt_keeps.
Qed.

(** ** The core as a state machine *)

(** A database file that is absent, or sealed under some key with a
    well-formed store in it. *)
Definition file_ok (file : option DbFile) : Prop :=
  match file with
  | None => True
  | Some f => ∃ key version t, f = keyed_file key version t ∧ store_wf t.1
  end.

(** Unlocked: the key in memory is the open store's, the transport is the
    one the engine drives, and the engine is well formed. Locked: no key, and
    a file that is absent or sealed with a well-formed store. *)
Definition vault_wf (v : VaultedEngine) : Prop :=
  match ve_engine v with
  | Some (key, e) => ve_tier_b v = Some key ∧ ve_host v = engine_host e ∧ engine_wf e
  | None => ve_tier_b v = None ∧ file_ok (ve_file v)
  end.
Definition core_wf (c : SchatCore) : Prop := vault_wf (sc_vaulted c).

(** The calls that go through the vault's guard. *)
Inductive guarded_step : SchatCore → SchatCore → Prop :=
| step_ffi now fc c : guarded_step c (run_ffi now fc c).1
| step_ingest faults nonce now sid intro record c :
    guarded_step c (full ffi_ingest_frame faults nonce now sid intro record c).1
| step_unlock faults now dek c : guarded_step c (full ffi_unlock faults now dek c).1
| step_lock c : guarded_step c (ffi_lock c).

(** A call on the transport the process shares, whatever it does to it: the
    transport is reached past the guard, open or locked, poisoned or not. *)
Definition transport_call (f : Net → Net) (c : SchatCore) : SchatCore :=
  mkCore (stop_transport f (sc_vaulted c)) (sc_poisoned c).

(** What the vault finds on disk after a wipe that left the directory
    [tree]. *)
Definition left_on_disk (tree : DataDir) (file : option DbFile) (dir : QDir) : Prop :=
  (tree !! "schat.db"%string = None → file = None) ∧ (tree !! "queue"%string = None → dir = ∅).

(** Every exported call that changes anything: those through the guard, those
    on the transport, and a panic wipe that reports no error. *)
Inductive core_step : SchatCore → SchatCore → Prop :=
| step_guarded c c' : guarded_step c c' → core_step c c'
| step_transport f c : core_step c (transport_call f c)
| step_wipe stops fails tree c c' tree' file dir :
    ffi_panic_wipe transport_stop stops fails c tree = (c', tree', Ok tt) → left_on_disk tree' file dir →
    core_step c (mkCore (with_dir (with_file (sc_vaulted c') file) dir) (sc_poisoned c')).

Lemma forget_fst {A} (m : Call A) c : (forget m c).1 = (m c).1.
Proof. unfold forget. by destruct (m c). Qed.

Lemma at_time_wf now (e : Engine) : engine_wf e → engine_wf (at_time now e).
Proof. intros [[] Hb]. by split. Qed.

Lemma with_engine_wf {A} now (m : Op A) (c : SchatCore) : op_keeps m → core_wf c → core_wf (with_engine now m c).1.
Proof.
  intros Hm Hc. destruct (closed c) eqn:Hcl; [by rewrite with_engine_closed|].
  apply orb_false_iff in Hcl as [Hp Hl]. unfold is_locked in Hl.
  destruct (ve_engine (sc_vaulted c)) as [[key e]|] eqn:He; [|done].
  rewrite (with_engine_open _ _ c key e) by done. unfold core_wf, vault_wf in Hc. rewrite He in Hc.
  destruct Hc as (Ht & _ & Hw). specialize (Hm _ (at_time_wf now e Hw)).
  destruct (m (at_time now e)) as [e1 r]. done.
Qed.

(** The schema ladder: SQLite creates an empty database, and the migrations
    add tables and columns and record the sequence numbers of the rows that
    are there, so that they keep a well-formed store well formed. *)
Class LadderLaws := {
  fresh_wf key version t : keyed_open None key = Ok (version, t) → store_wf t.1;
  migration_wf version t t' : run_migration version t = Ok t' → store_wf t.1 → store_wf t'.1;
}.

Section Sealed.
Context {cipher_laws : SqlCipherLaws} {ladder_laws : LadderLaws}.

(** A sealed file stays as it is, and opens under its key only. *)
Lemma open_sealed_any faults key t dek :
  ∃ r, open_store_with_dek faults (Some (keyed_file key SCHEMA_VERSION t)) dek
       = (Some (keyed_file key SCHEMA_VERSION t), r)
    ∧ ∀ t', r = Ok t' → t' = t ∧ dek = key.
Proof.
  unfold open_store_with_dek, migrate_plaintext_if_needed. destruct (try_fs faults _) as [u|x]; [|by eexists].
  rewrite cipher_hides. cbn [negb]. unfold db_open. destruct (decide (dek = key)) as [->|Hne].
  - rewrite cipher_opens. cbn. eexists. split; [done|]. by intros t' [= <-].
  - pose proof (cipher_refuses key dek SCHEMA_VERSION t Hne) as Hr.
    destruct (keyed_open _ dek); [done|]. by eexists.
Qed.

Lemma migrate_wf version t version' t' r :
  migrate version t = (version', t', r) → store_wf t.1 → store_wf t'.1.
Proof.
  unfold migrate. destruct (version >? SCHEMA_VERSION); [by intros [= <- <- <-]|].
  generalize (Z.to_nat (SCHEMA_VERSION - version)) as n. intros n. revert version t.
  induction n as [|n IH]; intros version t; cbn [migrate_loop]; [by intros [= <- <- <-]|].
  destruct (run_migration version t) as [t1|x] eqn:E; [|by intros [= <- <- <-]].
  intros Hm Hw. eapply IH; [exact Hm|]. by eapply migration_wf.
Qed.

(** Opening, or creating, a file that is fine leaves it fine and gives a
    well-formed store, whatever key is tried. *)
Lemma open_store_wf faults file dek file' r :
  file_ok file → open_store_with_dek faults file dek = (file', r) →
  file_ok file' ∧ ∀ t, r = Ok t → store_wf t.1.
Proof.
  assert (Hopen : ∀ f f1 r1, file_ok f →
    (∀ version t, keyed_open f dek = Ok (version, t) → store_wf t.1) → db_open f dek = (f1, r1) →
    file_ok f1 ∧ ∀ t, r1 = Ok t → store_wf t.1).
  { intros f f1 r1 Hf Hk. unfold db_open. destruct (keyed_open f dek) as [[version t]|x]; [|by intros [= <- <-]].
    destruct (migrate version t) as [[version1 t1] r2] eqn:Em. intros [= <- <-].
    assert (Hw : store_wf t1.1) by (eapply migrate_wf; [exact Em|by eapply Hk]).
    split; [by eexists dek, version1, t1|]. destruct r2; [|done]. by intros t2 [= <-]. }
  assert (Hkey : ∀ version t, file_ok file → keyed_open file dek = Ok (version, t) → store_wf t.1).
  { intros version t Hf Hk. destruct file as [f|]; [|by eapply fresh_wf].
    destruct Hf as (key & version0 & t0 & -> & Hw). destruct (decide (dek = key)) as [->|Hne].
    - rewrite cipher_opens in Hk. by injection Hk as <- <-.
    - pose proof (cipher_refuses key dek version0 t0 Hne) as Hr. by rewrite Hk in Hr. }
  intros Hf. unfold open_store_with_dek, migrate_plaintext_if_needed.
  assert (Hgo : (match db_open file dek with
                 | (file, Ok t) => (file, Ok t)
                 | (file, Err (TooNew found)) => (file, Err (VStore (TooNew found)))
                 | (file, Err _) => (file, Err VBadDek)
                 end) = (file', r) → file_ok file' ∧ ∀ t, r = Ok t → store_wf t.1).
  { destruct (db_open file dek) as [f1 r1] eqn:Eo.
    destruct (Hopen file f1 r1 Hf (λ v t, Hkey v t Hf) Eo) as [H1 H2].
    destruct r1 as [t|[]]; intros [= <- <-]; (split; [done|]); try done. by intros t' [= <-]; apply H2. }
  destruct file as [f|]; [|exact Hgo]. destruct (try_fs faults _) as [u|x]; [|by intros [= <- <-]].
  pose proof Hf as (key & version & t & -> & Hw). rewrite cipher_hides. cbn [negb]. exact Hgo.
Qed.

Lemma close_engine_wf (v : VaultedEngine) key e :
  ve_tier_b v = None → engine_wf e → vault_wf (close_engine v key e).
Proof. intros Ht [Hw _]. split; [done|]. by eexists _, _, _. Qed.

Lemma ingest_dispatch_wf now d (e : Engine) : engine_wf e → engine_wf (full ingest_and_dispatch now d e).1.
Proof.
  intros He. unfold ingest_and_dispatch, route.
  pose proof (runs_ingest_frame (bytes_str (qd_service_id d)) (qd_intro d) (qd_frame d) now (at_time now e)) as Hi.
  destruct (ingest_frame _ _ _ _ _) as [e1 r]. apply evolves_wf in Hi; [|by apply at_time_wf]. cbn [fst] in Hi.
  assert (Hd : ∀ rel pt, engine_wf (full dispatch rel pt e1).1).
  { intros rel pt. unfold dispatch.
    pose proof (handle_plaintext_handled nfc sha256 message_encrypt kill_switch online sender_send remove_service
      (λ r : Rng, fill_bytes r 16) fill_bytes rng_next private_ok public_ok verify_pack sign_pack rel pt e1) as Hh.
    destruct (handle_plaintext _ _ _ _ _ _ _ _ _ _ _ _ _ _ _ _ e1) as [e2 r2]. by eapply handled_wf. }
  destruct r as [[]|x]; cbn [map_err]; [apply Hd|apply Hd|done..].
Qed.

Lemma ingest_drop_wf faults nonce now (v : VaultedEngine) sid intro frame :
  vault_wf v → vault_wf (full ingest_drop faults nonce now v sid intro frame).1.
Proof.
  intros Hv. unfold vault_wf in Hv. destruct (ve_engine v) as [[key e]|] eqn:He.
  - pose proof (ingest_drop_unlocked nfc kill_switch online sender_send private_ok public_ok verify_pack sign_pack
      nonce now (mkQueuedDrop (str_bytes sid) intro frame) v key e He) as H.
    pose proof (ingest_dispatch_wf now (mkQueuedDrop (str_bytes sid) intro frame) e (proj2 (proj2 Hv))) as Hw.
    destruct (full ingest_and_dispatch now _ e) as [e1 r]. destruct H as (r' & H & _).
    cbn [qd_service_id qd_intro qd_frame] in H. rewrite bytes_str_bytes in H. unfold ingest_drop in H |- *. rewrite He in *. rewrite H. destruct Hv as (Ht & _).
    done.
  - unfold ingest_drop. rewrite He. destruct (enqueue _ _ _ _ _ _ _ _ _) as [dir r].
    unfold vault_wf. cbn. by rewrite He.
Qed.

Lemma unlock_drain_wf now ds report (e : Engine) :
  engine_wf e → engine_wf (full unlock_drain now ds report e).1.
Proof.
  revert report e. induction ds as [|d ds IH]; intros report e He; [done|]. cbn [unlock_drain].
  pose proof (ingest_dispatch_wf now d e He) as Hd.
  destruct (full ingest_and_dispatch now d e) as [e1 [evs|x]]; by apply IH.
Qed.

Lemma unlock_wf faults (v : VaultedEngine) dek now : vault_wf v → vault_wf (full unlock faults v dek now).1.
Proof.
  intros Hv. unfold unlock. destruct (ve_engine v) as [[key e]|] eqn:He; [done|].
  unfold vault_wf in Hv. rewrite He in Hv. destruct Hv as (Ht & Hf).
  destruct (open_store_with_dek faults (ve_file v) dek) as [file r] eqn:Eo.
  apply open_store_wf in Eo as [Hf' Hr]; [|done]. destruct r as [t|x].
  2:{ unfold vault_wf. cbn. by rewrite He. }
  pose proof (runs_restore_services (at_time now (engine_new t (ve_host v)))) as Hs.
  apply evolves_wf in Hs; [|apply at_time_wf; split; [exact (Hr t eq_refl)|exact buffers_wf_new]].
  change (ve_host (with_file v _)) with (ve_host v).
  destruct (restore_services _) as [e1 [u|x]]; [|by apply close_engine_wf].
  destruct (drain faults _ _) as [dir [ds|x]]; [|by apply close_engine_wf].
  pose proof (unlock_drain_wf now ds report_default e1 Hs) as Hd.
  by destruct (full unlock_drain now ds report_default e1) as [e2 report].
Qed.

Lemma lock_wf (v : VaultedEngine) : vault_wf v → vault_wf (lock v).
Proof.
  intros Hv. unfold lock, vault_wf in *. destruct (ve_engine v) as [[key e]|] eqn:He; cbn.
  - destruct Hv as (_ & _ & Hw & _). split; [done|]. by eexists _, _, _.
  - by destruct Hv.
Qed.

Lemma stop_transport_wf f (v : VaultedEngine) : vault_wf v → vault_wf (stop_transport f v).
Proof.
  unfold stop_transport, vault_wf at 1. destruct (ve_engine v) as [[key e]|] eqn:He; [|done].
  by intros (Ht & _ & []).
Qed.

Lemma guarded_step_wf c c' : guarded_step c c' → core_wf c → core_wf c'.
Proof.
  destruct 1 as [now fc c|faults nonce now sid intro record c|faults now dek c|c]; intros Hc.
  - destruct (run_ffi_keeps now fc) as (A & m & -> & Hm). rewrite forget_fst. by apply with_engine_wf.
  - unfold ffi_ingest_frame, vaulted. destruct (sc_poisoned c); [done|]. destruct (is_locked _) eqn:Hl.
    + pose proof (ingest_drop_wf faults nonce now (sc_vaulted c) sid intro record Hc) as Hi.
      by destruct (full ingest_drop _ _ _ _ _ _ _).
    + apply with_engine_wf; [|done]. apply op_keeps_bind; [apply op_keeps_pairing, runs_ingest_frame|].
      intros o. by apply op_keeps_pure.
  - unfold ffi_unlock, vaulted. destruct (negb _); [done|]. destruct (sc_poisoned c); [done|].
    pose proof (unlock_wf faults _ dek now Hc) as Hu. by destruct (full unlock _ _ _ _).
  - unfold ffi_lock, vaulted. destruct (sc_poisoned c); [done|]. by apply lock_wf.
Qed.

(** A panic wipe, complete or not, locks; a complete one leaves no store file
    and no queue. *)
Lemma panic_wipe_locks stops fails tree (c c' : SchatCore) tree' r :
  ffi_panic_wipe transport_stop stops fails c tree = (c', tree', r) → sc_poisoned c = false →
  is_locked (sc_vaulted c') = true ∧ ve_tier_b (sc_vaulted c') = None
  ∧ (r = Ok tt → tree' !! "schat.db"%string = None ∧ tree' !! "queue"%string = None).
Proof.
  unfold ffi_panic_wipe, vaulted. cbn [sc_poisoned sc_vaulted]. intros H Hp. rewrite Hp in H.
  pose proof (panic_wipe_erases stops fails tree) as He.
  destruct (panic_wipe stops fails tree) as [tree1 report]. injection H as <- <- <-. cbn [sc_vaulted].
  assert (Hl : ∀ v : VaultedEngine, is_locked (lock v) = true ∧ ve_tier_b (lock v) = None)
    by (intros v; unfold lock, is_locked; by destruct (ve_engine v) as [[]|]).
  split; [apply Hl|]. split; [apply Hl|].
  destruct He as (_ & _ & He). destruct (Z.gtb_spec (wr_errors report) 0); [done|]. intros _.
  assert (Hk : ∀ k, k ∈ OWNED_FILES ++ OWNED_DIRS → tree1 !! k = None).
  { intros k Hk. destruct (He k Hk) as [?|(old & new & _ & _ & _ & ?)]; [done|lia]. }
  split; apply Hk, (bool_decide_eq_true (_ ∈ _)); by vm_compute.
Qed.

Lemma core_step_wf c c' : core_step c c' → core_wf c → core_wf c'.
Proof.
  destruct 1 as [c c' H|f c|stops fails tree c c' tree' file dir H [Hd1 Hd2]]; intros Hc.
  - by eapply guarded_step_wf.
  - by apply stop_transport_wf.
  - destruct (sc_poisoned c) eqn:Hp.
    { unfold ffi_panic_wipe, vaulted in H. cbn [sc_poisoned] in H. by rewrite Hp in H. }
    destruct (panic_wipe_locks _ _ _ _ _ _ _ H Hp) as (Hl & Ht & Hk). destruct (Hk eq_refl) as [K1 K2].
    rewrite (Hd1 K1), (Hd2 K2). unfold core_wf, vault_wf, is_locked in *. cbn.
    apply bool_decide_eq_true in Hl. by rewrite Hl.
Qed.

End Sealed.

(** ** A panic under the guard *)

(** Four bytes of UTF-8 with a character across the second byte pair. *)
Definition bad_id : bytes := str_bytes "a" ++ [zb 195; zb 169] ++ str_bytes "b".

(** C31: A panic under the guard is final. Asking for an attachment under a
    text that is not ASCII panics in [hex_decode] while the guard is held;
    from then on no store-backed call, frame, unlock or [lock] changes
    anything: the engine and the key stay in memory for as long as the
    process runs, although the core reports itself locked, and a panic wipe
    is refused with the data directory untouched. *)
Theorem panic_disables_lock now (c : SchatCore) key e :
  sc_poisoned c = false → ve_engine (sc_vaulted c) = Some (key, e) →
  let '(c1, r) := ffi_attachment_bytes now bad_id c in
  r = None
  ∧ ∀ c2, rtc guarded_step c1 c2 →
      c2 = c1 ∧ ffi_is_locked c2 = true ∧ ve_tier_b (sc_vaulted c2) = ve_tier_b (sc_vaulted c)
      ∧ ve_engine (sc_vaulted c2) = Some (key, at_time now e)
      ∧ ∀ stops fails tree,
          let '(_, tree', r) := ffi_panic_wipe transport_stop stops fails c2 tree in
          tree' = tree ∧ r = Err core_poisoned.
Proof.
  intros Hp He. unfold ffi_attachment_bytes. rewrite (with_engine_open _ _ c key e) by done.
  change (hex_id16 bad_id) with (@None (result CoreError bytes)). cbn. split; [done|]. intros c2 Hr.
  assert (Hs : ∀ c1 c2 : SchatCore, sc_poisoned c1 = true → guarded_step c1 c2 → c2 = c1).
  { clear. intros c1 c2 Hp. destruct 1 as [now fc c|faults nonce now sid intro record c|faults now dek c|c].
    - destruct (run_ffi_guarded now fc) as (A & m & ->). rewrite forget_fst, with_engine_closed; [done|].
      unfold closed. by rewrite Hp.
    - unfold ffi_ingest_frame, vaulted. by rewrite Hp.
    - unfold ffi_unlock, vaulted. rewrite Hp. by destruct (negb _).
    - unfold ffi_lock, vaulted. by rewrite Hp. }
  assert (Hst : ∀ c1 c2 : SchatCore, rtc guarded_step c1 c2 → sc_poisoned c1 = true → c2 = c1).
  { induction 1 as [|a b d Hab _ IH]; intros Hpa; [done|]. apply Hs in Hab as ->; auto. }
  apply Hst in Hr as ->; [|done]. done.
Qed.
End Facts.

(** ** Witnesses *)

#[local] Existing Instance toy_cipher.
#[local] Existing Instance toy_cipher_laws.

Definition toy_ffi_unlock (c : SchatCore) :=
  ffi_unlock (crypto := toy_pairing) (hosting := toy_hosting) (codecs := toy_codecs) id (λ _ : unit, false)
    (λ _, true) toy_send (λ _, true) (λ _, true) toy_verify toy_sign no_faults 1003 demo_dek c.

Lemma boundary_fails_closed_witness :
  ffi_presence_state 1003 "rel" (core_new demo_locked) = None.
Proof.
  destruct (boundary_fails_closed (crypto := toy_pairing) (hosting := toy_hosting) (codecs := toy_codecs) id
    (λ _ : unit, false) (λ _, true) toy_send (λ _, true) (λ _, true) toy_verify toy_sign 1003 FcSweep "rel"
    (core_new demo_locked)) as (_ & H & _).
  - reflexivity.
  - exact H.
Defined.

Lemma demo_offering_wf : engine_wf demo_offering.1.
Proof.
  apply (evolves_wf (pair_engine 0)); [|split; [exact pair_db_wf|exact buffers_wf_new]].
  apply (runs_offer (crypto := toy_pairing) (hosting := toy_hosting)).
Qed.

#[local] Instance toy_ladder_laws : LadderLaws.
Proof.
  split.
  - intros key version t [= <- <-]. exact pair_db_wf.
  - by intros version t t' [= <-].
Qed.

(** A fresh install: the first unlock creates the store, the transport is
    started, and a panic wipe removes everything again. *)
Definition demo_fresh : VaultedEngine := mkVault None (queue_new toy_key) ∅ None demo_host None.
Definition demo_started : SchatCore := transport_call id (toy_ffi_unlock (core_new demo_fresh)).1.
Definition demo_tree : DataDir := {["schat.db"%string := NFile [zb 1]]}.
Definition demo_wiped : SchatCore := (ffi_panic_wipe id (λ _ _, None) (λ _, false) demo_started demo_tree).1.1.


Lemma client_receive_refines_witness :
  (client_receive (crypto := toy_pairing) (hosting := toy_hosting) (codecs := toy_codecs) id (λ _ : unit, false)
     (λ _, true) toy_send (λ _, true) (λ _, true) toy_verify toy_sign no_faults toy_nonce 900
     (bytes_str (qd_service_id demo_drop)) (qd_intro demo_drop) (qd_frame demo_drop) (core_new demo_locked)).2
  = Some (Ok []).
Proof.
  pose proof (client_receive_refines (crypto := toy_pairing) (hosting := toy_hosting) (codecs := toy_codecs) id
    (λ _ : unit, false) (λ _, true) toy_send (λ _, true) (λ _, true) toy_verify toy_sign no_faults toy_nonce 900
    (bytes_str (qd_service_id demo_drop)) (qd_intro demo_drop) (qd_frame demo_drop) (core_new demo_locked)) as H.
  destruct (ingest_drop _ _ _ _ _ _ _ _ _ _ _ _ _ _ _) as [v r] eqn:E in H. rewrite H by reflexivity.
  assert (Hr : r = Ok DoQueued) by (apply (f_equal snd) in E; vm_compute in E; by rewrite <- E).
  by rewrite Hr.
Defined.

Lemma panic_disables_lock_witness :
  (ffi_attachment_bytes 1003 bad_id (core_new demo_open)).2 = None.
Proof.
  pose proof (panic_disables_lock (crypto := toy_pairing) (hosting := toy_hosting) (codecs := toy_codecs) id
    (λ _ : unit, false) (λ _, true) toy_send (λ _, true) (λ _, true) toy_verify toy_sign id 1003
    (core_new demo_open) demo_dek (pair_engine 0)) as H.
  destruct (ffi_attachment_bytes 1003 bad_id (core_new demo_open)) as [c r].
  destruct H as [H _]; [reflexivity|reflexivity|exact H].
Defined.
