(* ===== verification/Daemon.v ===== *)
(** The headless front end: the daemon loop of [cli/src/commands/daemon.rs]
    over the vault, the lock commands of [cli/src/commands/vault.rs] that
    steer it through the marker file, and the helpers of [cli/src/util.rs]
    they use. A command is its effect on the files the
    daemon reads and its exit code; what it prints is left out. *)

From S2P Require Import Prelude Bin RustStr Args Limits Media Hex Payloads WirePolicy StickerDocs Envelope Frame PairingQr Policy RateLimit Ephemeral Ledger Settings Sync Session SignalStores EngineTypes Queue Wipe StickerPending StickerStore Attach Messages Caps Engine StickerEngine Sends Profiles Persona Pairing Burn Writes Inbound Runs PairingFacts EngineWf Vault FfiTypes Ffi FfiFacts.

(** ** [util.rs] *)

(** [text_record]: at most 250 bytes of the text in the smallest bucket. *)
Definition text_record (text : bytes) : bytes :=
  let n := Z.min (len text) 250 in
  [zb VERSION_V2] ++ be_bytes 2 n ++ take (Z.to_nat n) text ++ replicate (Z.to_nat (256 - 3 - n)) (zb 0).

(** [cap_id] of [commands/policy.rs]. *)
Definition cap_id (name : bytes) : result UsageError Z :=
  if bool_decide (name ∈ (str_bytes <$> ["attach"; "attachments"])) then Ok CAP_ID_ATTACH
  else if bool_decide (name = str_bytes "emoji") then Ok CAP_ID_EMOJI
  else if bool_decide (name = str_bytes "presence") then Ok CAP_ID_PRESENCE
  else if bool_decide (name = str_bytes "typing") then Ok CAP_ID_TYPING
  else if bool_decide (name ∈ (str_bytes <$> ["receipts"; "read"])) then Ok CAP_ID_RECEIPTS
  else Err (Usage "unknown cap (attach|emoji|presence|typing|receipts)").

(** ** The files under [vault/] *)

Record VaultFiles := mkVaultFiles { vf_dek : option bytes; vf_marker : bool }.

Definition VAULT_DIR : bytes := str_bytes "vault".
Definition DEK_FILE : bytes := str_bytes "vault/dek".
Definition MARKER_FILE : bytes := str_bytes "vault/locked".

(** [Path::exists] of the marker: a failed [stat] reads as its absence. *)
Definition marker_exists (faults : Faults) (f : VaultFiles) : bool :=
  match try_fs faults (FsMetadata MARKER_FILE) with Ok _ => vf_marker f | Err _ => false end.

(** [std::fs::write] of the key file. *)
Definition write_dek (faults : Faults) (dek : bytes) (f : VaultFiles) : VaultFiles * result VaultError unit :=
  let '(kept, r) := fs_put faults DEK_FILE dek in
  (match kept with Some written => mkVaultFiles (Some written) (vf_marker f) | None => f end, r).

(** [fresh] is what the generator fills a new key with. *)
Definition load_or_generate_dek (faults : Faults) (fresh : bytes) (f : VaultFiles)
    : VaultFiles * result Detail bytes :=
  match try_fs faults (FsRead DEK_FILE), vf_dek f with
  | Err _, _ => (f, Err (Lit "read dev DEK: {e}"))
  | Ok _, Some b => (f, if len b =? 32 then Ok b else Err (Lit "{}: dev DEK is not 32 bytes"))
  | Ok _, None =>
      match try_fs faults (FsWrite VAULT_DIR) with
      | Err _ => (f, Err (Lit "vault dir: {e}"))
      | Ok _ =>
          match write_dek faults fresh f with
          | (f, Err _) => (f, Err (Lit "write dev DEK: {e}"))
          | (f, Ok _) => (f, Ok fresh)
          end
      end
  end.

(** [schat-cli lock] *)
Definition cli_lock (faults : Faults) (f : VaultFiles) : VaultFiles * Z :=
  match try_fs faults (FsWrite VAULT_DIR) with
  | Err _ => (f, 1)
  | Ok _ =>
      if marker_exists faults f then (f, 0)
      else
        let '(kept, r) := fs_put faults MARKER_FILE (str_bytes "locked" ++ [LF]) in
        (match kept with Some _ => mkVaultFiles (vf_dek f) true | None => f end, if is_ok r then 0 else 1)
  end.

(** The key [unlock] installs: a read [--dek-file], or the instance's own. *)
Definition install_dek (faults : Faults) (fresh : bytes) (dek_file : option (result Detail bytes)) (f : VaultFiles)
    : VaultFiles * bool :=
  match dek_file with
  | Some (Err _) => (f, false)
  | Some (Ok bs) =>
      if negb (len bs =? 32) then (f, false)
      else
        match try_fs faults (FsWrite VAULT_DIR) with
        | Err _ => (f, false)
        | Ok _ => let '(f, r) := write_dek faults bs f in (f, is_ok r)
        end
  | None => let '(f, r) := load_or_generate_dek faults fresh f in (f, is_ok r)
  end.

(** [schat-cli unlock] *)
Definition cli_unlock (faults : Faults) (fresh : bytes) (dek_file : option (result Detail bytes)) (f : VaultFiles)
    : VaultFiles * Z :=
  let '(f, installed) := install_dek faults fresh dek_file f in
  if negb installed then (f, 1)
  else if marker_exists faults f then
    match try_fs faults (FsRemove MARKER_FILE) with
    | Err _ => (f, 1)
    | Ok _ => (mkVaultFiles (vf_dek f) false, 0)
    end
  else (f, 0).

(** ** The loop *)

Section Daemon.
Context {Net Rng : Type} `{crypto : !PairingCrypto Rng} `{hosting : !Hosting Net} {codecs : ImageCodecs}.
Context `{aead : !Aead} `{cipher : !SqlCipher}.
Context (nfc : bytes → bytes).
Context (kill_switch online : Net → bool).
Context (sender_send : Net → string → bytes → Net * result TransportError unit).
Context (private_ok public_ok : bytes → bool).
Context (verify_pack : bytes → bytes → bytes → bool).
Context (sign_pack : bytes → bytes → bytes → bytes).
(** [Transport::note_inbound_drain]. *)
Context (note_drain : Net → Net).

Local Abbreviation Engine := (@Engine SignalTables Net Rng).
Local Abbreviation M := (@M SignalTables Net Rng).
Local Abbreviation VaultedEngine := (@VaultedEngine Net Rng cipher).
Local Notation "'full' f" :=
  (f nfc kill_switch online sender_send private_ok public_ok verify_pack sign_pack) (at level 10, only parsing).

Record Daemon := mkDaemon { dm_files : VaultFiles; dm_core : VaultedEngine }.

(** The vault opened with the instance's key, or left as it is. *)
Definition try_unlock (faults : Faults) (fresh : bytes) (now : Z) (d : Daemon)
    : Daemon * result Detail (result VaultError UnlockReport) :=
  match load_or_generate_dek faults fresh (dm_files d) with
  | (f, Err e) => (mkDaemon f (dm_core d), Err e)
  | (f, Ok dek) =>
      let '(v, r) := full unlock faults (dm_core d) dek now in (mkDaemon f v, Ok r)
  end.

(** The start of [run], once the transport is up. *)
Definition daemon_start (faults : Faults) (fresh : bytes) (now : Z) (d : Daemon) : Daemon :=
  if marker_exists faults (dm_files d) then d else (try_unlock faults fresh now d).1.

Definition observe_lock_marker (faults : Faults) (fresh : bytes) (now : Z) (d : Daemon) : Daemon :=
  let marker := marker_exists faults (dm_files d) in
  if marker && negb (is_locked (dm_core d)) then mkDaemon (dm_files d) (lock (dm_core d))
  else if negb marker && is_locked (dm_core d) then (try_unlock faults fresh now d).1
  else d.

(** A call on the engine when there is one; the loop reports an error and
    goes on. *)
Definition on_engine {A} (now : Z) (m : M A) (v : VaultedEngine) : VaultedEngine :=
  match ve_engine v with
  | Some (key, e) => put_engine v key (m (at_time now e)).1
  | None => v
  end.

Definition with_net (f : Net → Net) (v : VaultedEngine) : VaultedEngine :=
  match ve_engine v with
  | Some (key, e) =>
      put_engine v key
        (mkEngine (en_db e) (en_sig e) (f (en_net e)) (en_rng e) (en_presence e) (en_typing e) (en_pending e)
           (en_rate e) (en_drops e))
  | None =>
      mkVault (ve_tier_b v) (ve_queue v) (ve_dir v) (ve_file v)
        (mkHost (f (h_net (ve_host v))) (h_rng (ve_host v)) (h_drops (ve_host v))) None
  end.

(** An inbound drop: the expired offer is swept, the drop is ingested or
    queued, and the drain is noted. *)
Definition daemon_drop (faults : Faults) (nonce : bytes) (now : Z) (service_id : string) (intro : option bytes)
    (frame : bytes) (d : Daemon) : Daemon * result VaultError DropOutcome :=
  let v := on_engine now (sweep_expired_offer now) (dm_core d) in
  let '(v, r) := full ingest_drop faults nonce now v service_id intro frame in
  (mkDaemon (dm_files d) (with_net note_drain v), r).

(** The upkeep tick. *)
Definition daemon_tick (faults : Faults) (fresh : bytes) (now : Z) (d : Daemon) : Daemon :=
  let d := observe_lock_marker faults fresh now d in
  let v := on_engine now (drain_outbox kill_switch online sender_send) (dm_core d) in
  mkDaemon (dm_files d) (on_engine now (sweep remove_service) v).

(** What happens to the daemon and its files: a drop, a tick, and the
    commands, each run to its end. *)
Inductive DaemonEvent :=
| DeDrop (faults : Faults) (nonce : bytes) (now : Z) (service_id : string) (intro : option bytes) (frame : bytes)
| DeTick (faults : Faults) (fresh : bytes) (now : Z)
| DeLock (faults : Faults)
| DeUnlock (faults : Faults) (fresh : bytes) (dek_file : option (result Detail bytes)).

Definition run_event (ev : DaemonEvent) (d : Daemon) : Daemon :=
  match ev with
  | DeDrop faults nonce now sid intro frame => (daemon_drop faults nonce now sid intro frame d).1
  | DeTick faults fresh now => daemon_tick faults fresh now d
  | DeLock faults => mkDaemon (cli_lock faults (dm_files d)).1 (dm_core d)
  | DeUnlock faults fresh dek_file => mkDaemon (cli_unlock faults fresh dek_file (dm_files d)).1 (dm_core d)
  end.
Definition run_events (evs : list DaemonEvent) (d : Daemon) : Daemon := foldl (λ d ev, run_event ev d) d evs.

(** ** The vault stays well formed *)

Lemma on_engine_wf {A} now (m : M A) (v : VaultedEngine) :
  (∀ e, engine_wf e → engine_wf (m e).1) → vault_wf v → vault_wf (on_engine now m v).
Proof.
  intros Hm. unfold on_engine, vault_wf at 1. destruct (ve_engine v) as [[key e]|] eqn:He.
  - intros (Ht & _ & Hw). split; [done|]. split; [done|]. by apply Hm, at_time_wf.
  - intros H. unfold vault_wf. by rewrite He.
Qed.
Lemma with_net_wf f (v : VaultedEngine) : vault_wf v → vault_wf (with_net f v).
Proof.
  unfold with_net, vault_wf at 1. destruct (ve_engine v) as [[key e]|] eqn:He; [|done].
  by intros (Ht & _ & []).
Qed.

Lemma on_engine_locked {A} now (m : M A) (v : VaultedEngine) : is_locked v = true → on_engine now m v = v.
Proof. unfold is_locked, on_engine. rewrite bool_decide_eq_true. by intros ->. Qed.

Lemma upkeep_locked {A B} now (m : M A) (m' : M B) (v : VaultedEngine) :
  is_locked v = true → on_engine now m' (on_engine now m v) = v.
Proof. intros H. rewrite (on_engine_locked now m v H). by apply on_engine_locked. Qed.

Section Sealed.
Context {cipher_laws : SqlCipherLaws} {ladder_laws : LadderLaws}.

Lemma try_unlock_wf faults fresh now d : vault_wf (dm_core d) → vault_wf (dm_core (try_unlock faults fresh now d).1).
Proof.
  intros Hv. unfold try_unlock. destruct (load_or_generate_dek _ _ _) as [f [dek|x]]; [|done].
  pose proof (unlock_wf nfc kill_switch online sender_send private_ok public_ok verify_pack sign_pack faults
    (dm_core d) dek now Hv) as Hu.
  by destruct (full unlock faults (dm_core d) dek now).
Qed.

Lemma observe_wf faults fresh now d :
  vault_wf (dm_core d) → vault_wf (dm_core (observe_lock_marker faults fresh now d)).
Proof.
  intros Hv. unfold observe_lock_marker. destruct (_ && _); [by apply lock_wf|].
  destruct (_ && _); [by apply try_unlock_wf|done].
Qed.

Lemma run_event_wf ev d : vault_wf (dm_core d) → vault_wf (dm_core (run_event ev d)).
Proof.
  intros Hv. destruct ev as [faults nonce now sid intro frame|faults fresh now|faults|faults fresh df]; cbn [run_event]; [| |done|done].
  - unfold daemon_drop.
    assert (Hs : vault_wf (on_engine now (sweep_expired_offer now) (dm_core d))).
    { apply on_engine_wf; [|done]. intros e. apply evolves_wf, runs_sweep_offer. }
    pose proof (ingest_drop_wf nfc kill_switch online sender_send private_ok public_ok verify_pack sign_pack faults
      nonce now _ sid intro frame Hs) as Hi.
    destruct (full ingest_drop _ _ _ _ _ _ _) as [v r]. by apply with_net_wf.
  - unfold daemon_tick. cbn [dm_core]. apply on_engine_wf; [apply sweep_wf|].
    apply on_engine_wf; [intros e; apply evolves_wf, runs_drain_outbox|]. by apply observe_wf.
Qed.

(** ** The marker *)

Definition is_unlock (ev : DaemonEvent) : bool := match ev with DeUnlock _ _ _ => true | _ => false end.

(** The daemon can read the marker in this event. *)
Definition sees_marker (ev : DaemonEvent) : bool :=
  match ev with DeTick faults _ _ => is_ok (try_fs faults (FsMetadata MARKER_FILE)) | _ => true end.

(** Locked, the key gone, the store absent or sealed. *)
Definition shut (v : VaultedEngine) : Prop := is_locked v = true ∧ vault_wf v.

Lemma marker_seen faults f : is_ok (try_fs faults (FsMetadata MARKER_FILE)) = true → marker_exists faults f = vf_marker f.
Proof. unfold marker_exists. by destruct (try_fs _ _). Qed.

Lemma load_dek_marker faults fresh f : vf_marker (load_or_generate_dek faults fresh f).1 = vf_marker f.
Proof.
  unfold load_or_generate_dek, write_dek. destruct (try_fs _ _); [|done]. destruct (vf_dek f); [done|].
  destruct (try_fs _ _); [|done]. by destruct (fs_put _ _ _) as [[w|] [[]|x]].
Qed.

Lemma observe_marker faults fresh now d :
  vf_marker (dm_files (observe_lock_marker faults fresh now d)) = vf_marker (dm_files d).
Proof.
  unfold observe_lock_marker. destruct (_ && _); [done|]. destruct (_ && _); [|done]. unfold try_unlock.
  pose proof (load_dek_marker faults fresh (dm_files d)) as H.
  destruct (load_or_generate_dek _ _ _) as [f [dek|x]]; [|done]. by destruct (full unlock _ _ _ _).
Qed.

(** The marker is removed only by [schat-cli unlock]. *)
Lemma marker_kept ev d : is_unlock ev = false → vf_marker (dm_files d) = true → vf_marker (dm_files (run_event ev d)) = true.
Proof.
  intros Hu Hm. destruct ev as [faults nonce now sid intro frame|faults fresh now|faults|]; cbn [run_event]; [| | |done].
  - unfold daemon_drop. destruct (full ingest_drop _ _ _ _ _ _ _). done.
  - unfold daemon_tick. cbn [dm_files]. by rewrite observe_marker.
  - unfold cli_lock. destruct (try_fs _ _); [|done]. destruct (marker_exists _ _); [done|].
    by destruct (fs_put _ _ _) as [[w|] r].
Qed.

Lemma shut_kept ev d :
  is_unlock ev = false → sees_marker ev = true → vf_marker (dm_files d) = true → shut (dm_core d) →
  shut (dm_core (run_event ev d)).
Proof.
  intros Hu Hse Hm [Hl Hv]. split; [|by apply run_event_wf].
  destruct ev as [faults nonce now sid intro frame|faults fresh now|faults|]; cbn [run_event]; [| |done|done].
  - unfold daemon_drop. rewrite on_engine_locked by done. unfold is_locked in Hl. apply bool_decide_eq_true in Hl.
    unfold ingest_drop. rewrite Hl. destruct (enqueue _ _ _ _ _ _ _ _ _) as [dir r].
    unfold is_locked, with_net. cbn. rewrite Hl. done.
  - unfold daemon_tick, observe_lock_marker. rewrite marker_seen, Hm, Hl by done. cbn [negb andb]. by rewrite upkeep_locked.
Qed.

Lemma lock_shuts (v : VaultedEngine) : vault_wf v → shut (lock v).
Proof.
  intros Hv. split; [|by apply lock_wf]. unfold lock, is_locked. by destruct (ve_engine v) as [[key e]|].
Qed.

Lemma tick_shuts faults fresh now d :
  is_ok (try_fs faults (FsMetadata MARKER_FILE)) = true → vf_marker (dm_files d) = true → vault_wf (dm_core d) →
  shut (dm_core (daemon_tick faults fresh now d)).
Proof.
  intros Hse Hm Hv. unfold daemon_tick, observe_lock_marker. rewrite marker_seen, Hm by done. cbn [negb andb].
  destruct (is_locked (dm_core d)) eqn:Hl; cbn [negb dm_core].
  - by rewrite upkeep_locked.
  - destruct (lock_shuts (dm_core d) Hv) as [H1 H2]. by rewrite upkeep_locked.
Qed.

Lemma lock_writes_marker faults f files : cli_lock faults f = (files, 0) → vf_marker files = true.
Proof.
  unfold cli_lock. destruct (try_fs faults (FsWrite VAULT_DIR)); [|by intros [= _ ?]].
  destruct (marker_exists faults f) eqn:E.
  - intros [= <-]. revert E. unfold marker_exists. by destruct (try_fs _ _).
  - destruct (fs_put _ _ _) as [kept [[]|x]] eqn:Ep; [|by intros [= _ ?]].
    apply fs_put_Ok in Ep as ->. by intros [= <-].
Qed.

(** C32: The lock command is obeyed by a daemon that can read the marker.
    Once [schat-cli lock] has succeeded, the first tick that follows in which
    the daemon's [stat] of the marker works, after any drops, ticks and locks
    and however else the file system fails, closes the store and drops the
    key, and the vault stays shut through every further drop, lock and tick
    whose [stat] works, until [schat-cli unlock] runs. (A [stat] that fails
    reads as the marker's absence: see [failed_stat_reopens].) *)
Theorem lock_command_obeyed d faults files before fs fresh now after :
  vault_wf (dm_core d) → cli_lock faults (dm_files d) = (files, 0) →
  Forall (λ ev, is_unlock ev = false) before → is_ok (try_fs fs (FsMetadata MARKER_FILE)) = true →
  Forall (λ ev, is_unlock ev = false ∧ sees_marker ev = true) after →
  shut (dm_core (run_events (before ++ DeTick fs fresh now :: after) (mkDaemon files (dm_core d)))).
Proof.
  intros Hv Hc%lock_writes_marker Hb Hse Ha.
  assert (Hrun : ∀ evs d0, Forall (λ ev, is_unlock ev = false) evs → vf_marker (dm_files d0) = true →
    vault_wf (dm_core d0) → vf_marker (dm_files (run_events evs d0)) = true ∧ vault_wf (dm_core (run_events evs d0))).
  { induction evs as [|ev evs IH]; intros d0 Hall H1 H2; [done|]. apply Forall_cons in Hall as [Hev Hall].
    cbn [run_events foldl]. apply IH; [done|by apply marker_kept|by apply run_event_wf]. }
  assert (Hshut : ∀ evs d0, Forall (λ ev, is_unlock ev = false ∧ sees_marker ev = true) evs →
    vf_marker (dm_files d0) = true → shut (dm_core d0) → shut (dm_core (run_events evs d0))).
  { induction evs as [|ev evs IH]; intros d0 Hall H1 H2; [done|]. apply Forall_cons in Hall as [[Hev Hse'] Hall].
    cbn [run_events foldl]. apply IH; [done|by apply marker_kept|by apply shut_kept]. }
  unfold run_events. rewrite foldl_app. cbn [foldl]. fold (run_events before (mkDaemon files (dm_core d))).
  destruct (Hrun before (mkDaemon files (dm_core d))) as (H1 & H2); [done..|].
  set (d1 := run_events before _) in *. fold (run_events after (run_event (DeTick fs fresh now) d1)).
  apply Hshut; [done|by apply marker_kept|]. by apply tick_shuts.
Qed.

(** ** A key file that is not the store's *)

Definition sealed_under (key : bytes) (v : VaultedEngine) : Prop :=
  ve_engine v = None ∧ ∃ t, ve_file v = Some (keyed_file key SCHEMA_VERSION t).
(** Unlocks that name no key file. *)
Definition no_key_file (ev : DaemonEvent) : bool := match ev with DeUnlock _ _ (Some _) => false | _ => true end.

Lemma sealed_locked key (v : VaultedEngine) : sealed_under key v → is_locked v = true.
Proof. intros [H _]. unfold is_locked. by rewrite H. Qed.

Lemma load_dek_kept faults fresh f dek : vf_dek f = Some dek → (load_or_generate_dek faults fresh f).1 = f.
Proof. intros H. unfold load_or_generate_dek. rewrite H. by destruct (try_fs _ _). Qed.

Lemma wrong_key_kept key dek ev d :
  dek ≠ key → no_key_file ev = true → vf_dek (dm_files d) = Some dek → sealed_under key (dm_core d) →
  vf_dek (dm_files (run_event ev d)) = Some dek ∧ sealed_under key (dm_core (run_event ev d)).
Proof.
  intros Hne Hk Hd Hs. pose proof (sealed_locked _ _ Hs) as Hl. destruct Hs as (He & t & Hf).
  destruct ev as [faults nonce now sid intro frame|faults fresh now|faults|faults fresh [df|]]; cbn [run_event]; [| | |done|].
  - unfold daemon_drop. rewrite on_engine_locked by done. unfold ingest_drop. rewrite He.
    destruct (enqueue _ _ _ _ _ _ _ _ _) as [dir r]. unfold with_net, sealed_under. cbn. rewrite He. cbn. eauto.
  - unfold daemon_tick, observe_lock_marker. rewrite Hl, andb_false_r. cbn [negb].
    destruct (negb _ && true); [|rewrite upkeep_locked by done; by split; [|split; [|exists t]]].
    unfold try_unlock. pose proof (load_dek_kept faults fresh _ _ Hd) as Hf1.
    assert (Hr : ∀ b, (load_or_generate_dek faults fresh (dm_files d)).2 = Ok b → b = dek).
    { unfold load_or_generate_dek. rewrite Hd. destruct (try_fs _ _); cbn; [|done]. destruct (_ =? _); [|done]. by intros b [= <-]. }
    destruct (load_or_generate_dek faults fresh (dm_files d)) as [f [b|x]]; cbn [fst snd] in *; subst f.
    2:{ rewrite upkeep_locked by done. by split; [|split; [|exists t]]. }
    rewrite (Hr b eq_refl). unfold unlock. rewrite He, Hf.
    destruct (open_sealed_any faults key t dek) as ([t'|x] & -> & Ho); [by destruct (Ho t' eq_refl)|].
    cbn [dm_files dm_core fst]. rewrite upkeep_locked by (unfold is_locked; cbn; by rewrite He).
    split; [done|]. split; [done|]. by exists t.
  - split; [|by split; [|exists t]]. unfold cli_lock. destruct (try_fs _ _); [|done].
    destruct (marker_exists _ _); [done|]. by destruct (fs_put _ _ _) as [[w|] r].
  - split; [|by split; [|exists t]]. unfold cli_unlock, install_dek.
    pose proof (load_dek_kept faults fresh _ _ Hd) as Hf1. destruct (load_or_generate_dek _ _ _) as [f r].
    cbn [fst] in Hf1. subst f. cbn [dm_files]. destruct (negb _); [done|]. destruct (marker_exists _ _); [|done].
    by destruct (try_fs _ _).
Qed.

(** [schat-cli unlock --dek-file] trusts the file. Any 32 bytes replace
    the instance's key without being tried, and the command succeeds; when
    they are not the store's key, the only copy of it is gone: whatever
    drops, ticks, locks and unlocks without a key file follow, the vault
    stays locked and the file keeps the wrong key. *)
Theorem key_file_overwritten d key dek fresh evs :
  sealed_under key (dm_core d) → dek ≠ key → len dek = 32 → Forall (λ ev, no_key_file ev = true) evs →
  let '(files, code) := cli_unlock no_faults fresh (Some (Ok dek)) (dm_files d) in
  code = 0
  ∧ let d' := run_events evs (mkDaemon files (dm_core d)) in
    is_locked (dm_core d') = true ∧ vf_dek (dm_files d') = Some dek.
Proof.
  intros Hs Hne Hlen Hall. unfold cli_unlock, install_dek, write_dek. rewrite Hlen, fs_put_no_faults. cbn.
  assert (Hrun : ∀ d0, vf_dek (dm_files d0) = Some dek → sealed_under key (dm_core d0) →
    is_locked (dm_core (run_events evs d0)) = true ∧ vf_dek (dm_files (run_events evs d0)) = Some dek).
  { clear Hs. induction Hall as [|ev evs Hev _ IH]; intros d0 Hd Hs; [split; [by eapply sealed_locked|done]|].
    destruct (wrong_key_kept key dek ev d0) as [H1 H2]; [done..|]. by apply IH. }
  unfold marker_exists. cbn. destruct (vf_marker (dm_files d)); cbn; (split; [done|by apply Hrun]).
Qed.
End Sealed.
End Daemon.

(** ** The text record and the identifiers *)

(** A text record is the record that carries the first 250 bytes of the
    text, padded with zeros to the smallest bucket. *)
Lemma text_record_build text : build_record (λ n, replicate n (zb 0)) (take 250 text) = Ok (text_record text).
Proof.
  assert (Hl : len (take 250 text) = Z.min (len text) 250) by (unfold len; rewrite length_take; lia).
  pose proof (len_nonneg text). unfold build_record. rewrite Hl.
  assert (Hb : bucket_for (Z.min (len text) 250) = Some 256).
  { unfold bucket_for, RECORD_HEADER_BYTES, RECORD_BUCKETS. cbn [List.find].
    destruct (Z.leb_spec (3 + Z.min (len text) 250) 256); [done|lia]. }
  assert (Ht : take (Z.to_nat (Z.min (len text) 250)) text = take 250 text).
  { unfold len in *. destruct (Z.le_gt_cases (Z.of_nat (length text)) 250).
    - rewrite Z.min_l, Nat2Z.id by lia. by rewrite !take_ge by lia.
    - by rewrite Z.min_r by lia. }
  rewrite Hb. cbn [ok_or rbind]. unfold text_record. rewrite Ht.
  by replace (256 - 3 - Z.min (len text) 250) with (256 - (3 + Z.min (len text) 250)) by lia.
Qed.
Lemma text_record_carries text :
  len (text_record text) = 256 ∧ parse_record (text_record text) = Ok (take 250 text).
Proof.
  assert (Hf : ∀ n, length (replicate n (zb 0)) = n) by (intros n; apply length_replicate).
  split; [|exact (parse_build _ _ _ Hf (text_record_build text))].
  unfold text_record. pose proof (len_nonneg text). rewrite !len_app. unfold len in *.
  rewrite length_take, length_replicate, length_be_bytes. cbn [length]. lia.
Qed.

Lemma lower_hex_digit x : lower_hex x = true → is_Some (hex_digit x).
Proof.
  unfold hex_digit, lower_hex. destruct (in_range 48 57 (bz x)); [by eexists|].
  destruct (in_range 97 102 (bz x)); [by eexists|done].
Qed.

(** An identifier of odd length panics instead of printing the usage. *)
Lemma cli_hex_odd n s : Forall (λ b, lower_hex b = true) s → Z.odd (len s) = true → cli_hex_id n s = None.
Proof.
  intros Hs Ho. unfold cli_hex_id.
  assert (H : ∀ m s, (length s ≤ m)%nat → Forall (λ b, lower_hex b = true) s → Z.odd (len s) = true → cli_hex_pairs s = None).
  { clear. induction m as [|m IH]; intros [|a [|b s]] Hm Hs Ho; try done; cbn in Hm; try lia.
    apply Forall_cons in Hs as [Ha Hs]. apply Forall_cons in Hs as [Hb Hs]. cbn [cli_hex_pairs].
    rewrite !len_cons in Ho. replace (1 + (1 + len s)) with (len s + 2 * 1) in Ho by lia. rewrite Z.odd_add_mul_2 in Ho.
    assert (Hc : match s with c :: _ => if is_cont c then None else Some tt | [] => Some tt end = Some tt).
    { destruct s as [|c s]; [done|]. apply Forall_cons in Hs as [Hc _]. by destruct (lower_hex_ascii c Hc) as [-> _]. }
    rewrite Hc. cbn [mbind option_bind].
    assert (Hn : cli_hex_pairs s = None) by (apply IH; [lia|done|done]). rewrite Hn.
    destruct (from_str_radix16 a b) eqn:E; [done|]. exfalso. revert E. unfold from_str_radix16.
    destruct (lower_hex_ascii a Ha) as [_ Hp]. rewrite (proj2 (Z.eqb_neq _ _) Hp).
    by destruct (lower_hex_digit a Ha) as [va ->], (lower_hex_digit b Hb) as [vb ->]. }
  rewrite (H (length s) s); done.
Qed.

(** ** Witnesses *)

#[local] Existing Instance toy_cipher.
#[local] Existing Instance toy_cipher_laws.
#[local] Existing Instance toy_ladder_laws.

Definition demo_daemon (v : VaultedEngine (Net := unit) (Rng := Z)) : Daemon := mkDaemon (mkVaultFiles (Some demo_dek) false) v.

Lemma demo_open_wf : vault_wf demo_open.
Proof. split; [done|]. split; [done|]. split; [exact pair_db_wf|exact buffers_wf_new]. Qed.

(** A daemon at work; a frame arrives before its tick and one after. *)
Definition demo_events : list DaemonEvent := [DeDrop no_faults toy_nonce 1001 "svc" None [zb 1]].
Definition toy_events (evs : list DaemonEvent) (d : Daemon (Net := unit) (Rng := Z)) :=
  run_events (crypto := toy_pairing) (hosting := toy_hosting) (codecs := toy_codecs) id (λ _ : unit, false)
    (λ _, true) toy_send (λ _, true) (λ _, true) toy_verify toy_sign id evs d.

Lemma lock_command_obeyed_witness :
  shut (dm_core (toy_events (demo_events ++ DeTick no_faults [] 1003 :: demo_events)
                   (mkDaemon (mkVaultFiles (Some demo_dek) true) demo_open))).
Proof.
  apply (lock_command_obeyed (crypto := toy_pairing) (hosting := toy_hosting) (codecs := toy_codecs) id
    (λ _ : unit, false) (λ _, true) toy_send (λ _, true) (λ _, true) toy_verify toy_sign id (demo_daemon demo_open)
    no_faults (mkVaultFiles (Some demo_dek) true) demo_events no_faults [] 1003 demo_events).
  - exact demo_open_wf.
  - reflexivity.
  - by repeat constructor.
  - reflexivity.
  - by repeat constructor.
Defined.

(** The marker is there, but the daemon cannot [stat] it: it opens the store. *)
Example failed_stat_reopens :
  let faults op := match op with FsMetadata n => if decide (n = MARKER_FILE) then Some (Lit "EACCES") else None | _ => None end in
  is_locked (dm_core (toy_events [DeTick faults [] 1003] (mkDaemon (mkVaultFiles (Some demo_dek) true) demo_locked))) = false.
Proof. vm_compute. reflexivity. Qed.

Definition demo_wrong : bytes := replicate 32 (zb 6).

Lemma key_file_overwritten_witness :
  vf_dek (dm_files (toy_events [DeTick no_faults [] 1003; DeUnlock no_faults [] None; DeTick no_faults [] 1008]
                      (mkDaemon (mkVaultFiles (Some demo_wrong) false) demo_locked))) = Some demo_wrong.
Proof.
  pose proof (key_file_overwritten (crypto := toy_pairing) (hosting := toy_hosting) (codecs := toy_codecs) id
    (λ _ : unit, false) (λ _, true) toy_send (λ _, true) (λ _, true) toy_verify toy_sign id (demo_daemon demo_locked)
    demo_dek demo_wrong [] [DeTick no_faults [] 1003; DeUnlock no_faults [] None; DeTick no_faults [] 1008]) as H.
  destruct H as (_ & _ & H).
  - split; [done|]. by eexists.
  - intros H. apply (f_equal (λ l, bz <$> head l)) in H. vm_compute in H. discriminate H.
  - reflexivity.
  - by repeat constructor.
  - exact H.
Defined.

(** With the right key in place the same daemon opens the store. *)
Example demo_daemon_opens :
  is_locked (dm_core (toy_events [DeTick no_faults [] 1003] (demo_daemon demo_locked))) = false.
Proof. vm_compute. reflexivity. Qed.

Example demo_odd_panics : cli_hex_id 16 (str_bytes "abc") = None.
Proof. reflexivity. Qed.
