(* ===== verification/CliOut.v ===== *)
(** What the command line prints ([cli/src/util.rs], [cli/src/commands/]):
    the status line, an engine event, a row of the thread, the state of a
    chat's rules; and the text helpers of the standard library behind them. *)

From stdpp Require Import pretty.
From S2P Require Import Prelude Bin RustStr Hex Policy Ledger EngineTypes TransportTypes.

(** ** Texts *)

Local Abbreviation t := str_bytes.

(** [Display] of an integer and of a [bool]. *)
Definition show_int (n : Z) : bytes := t (pretty n).
Definition show_bool (b : bool) : bytes := t (if b then "true" else "false").

(** [String::from_utf8_lossy]: how many bytes the next character or the next
    ill-formed piece takes, and which of the two it is. *)
Definition utf8_step (l : bytes) : nat * bool :=
  match l with
  | [] => (0%nat, true)
  | b1 :: l1 =>
      let v := bz b1 in
      let cont n k := match l !! n with Some b => if is_cont b then k else (n, false) | None => (n, false) end in
      let second lo hi k := match l1 with b2 :: _ => if in_range lo hi (bz b2) then k else (1%nat, false)
                            | [] => (1%nat, false) end in
      if v <? 128 then (1%nat, true)
      else if in_range 194 223 v then cont 1%nat (2%nat, true)
      else if in_range 224 239 v then
        second (if v =? 224 then 160 else 128) (if v =? 237 then 159 else 191) (cont 2%nat (3%nat, true))
      else if in_range 240 244 v then
        second (if v =? 240 then 144 else 128) (if v =? 244 then 143 else 191) (cont 2%nat (cont 3%nat (4%nat, true)))
      else (1%nat, false)
  end.

(** U+FFFD. *)
Definition REPLACEMENT : bytes := [zb 239; zb 191; zb 189].

Fixpoint lossy_loop (fuel : nat) (l : bytes) : bytes :=
  match fuel, l with
  | S fuel, _ :: _ =>
      let '(n, good) := utf8_step l in
      (if good : bool then take n l else REPLACEMENT) ++ lossy_loop fuel (drop n l)
  | _, _ => []
  end.
(** Every piece takes a byte at least. *)
Definition from_utf8_lossy (l : bytes) : bytes := lossy_loop (length l) l.

(** [Path::file_name] and [Path::extension]. *)
Definition SLASH : byte := zb 47.
Definition PERIOD : byte := zb 46.
Definition file_name (path : bytes) : option bytes :=
  match last (filter (λ c, c ≠ [] ∧ c ≠ [PERIOD]) (split_on SLASH path)) with
  | Some name => if bool_decide (name = [PERIOD; PERIOD]) then None else Some name
  | None => None
  end.
Definition extension (path : bytes) : option bytes :=
  name ← file_name path;
  match split_once PERIOD (reverse name) with
  | Some (ext, before) => if bool_decide (before = []) then None else Some (reverse ext)
  | None => None
  end.

(** ** [util.rs] *)

Section Show.
(** [Display] of a reason. *)
Context (show_detail : Detail → bytes).

Definition service_state_debug (s : ServiceState) : bytes :=
  t (match s with Publishing => "Publishing" | Reachable => "Reachable" | Unreachable => "Unreachable" end).

Definition render_tor (s : TorState) : bytes :=
  match s with
  | TsOff => t "off"
  | TsStarting => t "starting"
  | TsBootstrapping pct => t "bootstrapping " ++ show_int pct ++ t "%"
  | TsOnline => t "online"
  | TsDegraded reason => t "degraded: " ++ show_detail reason
  | TsDead reason => t "dead: " ++ show_detail reason
  end.

Definition render_service (svc : ServiceStatus) : bytes :=
  ss_service_id svc ++ t "=" ++ service_state_debug (ss_state svc) ++ t "(" ++ default [] (ss_onion svc) ++ t ")".

Definition render_status (s : TransportStatus) : bytes :=
  t "tor=" ++ render_tor (ts_tor s) ++ t " kill_switch=" ++ show_bool (ts_kill_switch s)
  ++ t " mode=" ++ mode_as_str (ts_mode s) ++ t " outbox=" ++ show_int (os_queued (ts_outbox s))
  ++ t " inbox=" ++ show_int (is_pending (ts_inbox s))
  ++ t " last_error=" ++ from_option show_detail (t "-") (ts_last_error s)
  ++ t " services=[" ++ join (t " ") (render_service <$> ts_services s) ++ t "]".
End Show.

Definition render_event (e : EngineEvent) : bytes :=
  match e with
  | EvMessage rel id => t "message: rel=" ++ t rel ++ t " id=" ++ hex_encode id
  | EvEdited rel id => t "edited: rel=" ++ t rel ++ t " id=" ++ hex_encode id
  | EvDeleted rel id => t "deleted: rel=" ++ t rel ++ t " id=" ++ hex_encode id
  | EvHistoryCleared rel => t "history-cleared: rel=" ++ t rel
  | EvRead rel id => t "read: rel=" ++ t rel ++ t " id=" ++ hex_encode id
  | EvTyping rel typing => t "typing: rel=" ++ t rel ++ t " typing=" ++ show_bool typing
  | EvPresence rel in_app dnd =>
      t "presence: rel=" ++ t rel ++ t " in_app=" ++ show_bool in_app ++ t " dnd=" ++ show_bool dnd
  | EvProfileUpdated rel => t "profile-updated: rel=" ++ t rel
  | EvProfileRequested rel => t "profile-requested: rel=" ++ t rel
  | EvPeerPrefs rel => t "peer-prefs: rel=" ++ t rel
  | EvSticker rel id ready =>
      t "sticker: rel=" ++ t rel ++ t " id=" ++ hex_encode id ++ t " ready=" ++ show_bool ready
  | EvStickerPackInstalled pack => t "pack-installed: pack=" ++ hex_encode pack
  | EvStickerPackRefused pack reason =>
      t "pack-refused: pack=" ++ hex_encode pack ++ t " reason=" ++ show_int reason
  | EvStickerThumbs pack _ => t "pack-thumbs: pack=" ++ hex_encode pack
  | EvAttachmentProgress rel head received total =>
      t "attach-progress: rel=" ++ t rel ++ t " head=" ++ hex_encode head ++ t " " ++ show_int received ++ t "/"
      ++ show_int total
  | EvAttachmentComplete rel head id =>
      t "attach-complete: rel=" ++ t rel ++ t " head=" ++ hex_encode head ++ t " msg=" ++ hex_encode id
  | EvAttachmentFailed rel head => t "attach-failed: rel=" ++ t rel ++ t " head=" ++ hex_encode head
  | EvAttachmentChunkDropped rel head => t "attach-chunk-dropped: rel=" ++ t rel ++ t " head=" ++ hex_encode head
  | EvPolicyChanged rel => t "policy-changed: rel=" ++ t rel
  | EvContactClosed rel => t "contact-closed: rel=" ++ t rel
  | EvGapDetected rel => t "gap-detected: rel=" ++ t rel ++ t " (resync requested)"
  end.

(** ** [commands/policy.rs] and [commands/text.rs] *)

Definition render_pending (p : option PendingProposal) : bytes :=
  match p with
  | Some p =>
      t "pending(" ++ t (if pp_inbound p then "theirs" else "ours") ++ t " ttl=" ++ show_int (pp_ttl_sec p)
      ++ t " screenshot=" ++ show_bool (pp_screenshot p)
      ++ t " attach_download=" ++ show_bool (pp_attach_download p) ++ t ")"
  | None => t "none"
  end.
Definition render_policy (s : PolicyState) : bytes :=
  t "ttl=" ++ show_int (ps_ttl_sec s) ++ t " screenshot=" ++ show_bool (ps_screenshot s)
  ++ t " attach_download=" ++ show_bool (ps_attach_download s)
  ++ t " enforced[attach=" ++ show_bool (attachments s) ++ t " emoji=" ++ show_bool (emoji s)
  ++ t " presence=" ++ show_bool (presence s) ++ t " typing=" ++ show_bool (typing_enforced s)
  ++ t " receipts=" ++ show_bool (receipts s) ++ t "] " ++ render_pending (ps_pending s).

Definition row_flags (row : MessageRow) : list bytes :=
  (if mr_edited row then [t "edited"] else []) ++ (if mr_tombstone row then [t "tombstone"] else [])
  ++ (if bool_decide (is_Some (mr_read_at row)) then [t "read"] else []).
Definition render_row (row : MessageRow) : bytes :=
  let flags := join (t ",") (row_flags row) in
  t (match mr_direction row with DirOut => "→" | DirIn => "←" end)
  ++ t " seq=" ++ show_int (mr_app_seq row) ++ t " id=" ++ hex_encode (mr_msg_id row)
  ++ t " type=" ++ show_int (mr_env_type row) ++ t " state=" ++ t (delivery_as_str (mr_state row)) ++ t " "
  ++ from_utf8_lossy (mr_payload row)
  ++ (if bool_decide (flags = []) then [] else t " [" ++ flags ++ t "]").

(** ** The lossy reading of UTF-8 *)

Lemma utf8_step_good l n rest :
  l ≠ [] → utf8_step l = (n, true) → utf8_ok (take n l ++ rest) = utf8_ok rest.
Proof.
  intros Hl. unfold utf8_step. destruct l as [|b1 l1]; [done|]. cbv zeta.
  destruct (bz b1 <? 128) eqn:E1.
  { intros [= <-]. cbn [take app]. unfold utf8_ok. cbn [utf8_chars]. rewrite E1. rewrite take_0, app_nil_l. by destruct (utf8_chars rest). }
  destruct (in_range 194 223 (bz b1)) eqn:E2.
  { destruct l1 as [|b2 l2]; cbn [lookup list_lookup]; [done|]. destruct (is_cont b2) eqn:C2; [|done].
    intros [= <-]. unfold utf8_ok. cbn [take app utf8_chars]. rewrite E1, E2, C2. rewrite take_0, app_nil_l. by destruct (utf8_chars rest). }
  destruct l1 as [|b2 [|b3 l3]]; cbn [lookup list_lookup]; [repeat case_match; intros; simplify_eq..|].
  destruct (in_range 224 239 (bz b1)) eqn:E3.
  { destruct (in_range _ _ (bz b2)) eqn:R; [|done]. destruct (is_cont b3) eqn:C3; [|done].
    intros [= <-]. unfold utf8_ok. cbn [take app utf8_chars]. rewrite E1, E2, E3, R, C3. cbn [andb].
    rewrite take_0, app_nil_l. by destruct (utf8_chars rest). }
  destruct (in_range 240 244 (bz b1)) eqn:E4; [|done].
  destruct (in_range _ _ (bz b2)) eqn:R; [|done]. destruct (is_cont b3) eqn:C3; [|done].
  destruct l3 as [|b4 l4]; cbn [lookup list_lookup]; [done|]. destruct (is_cont b4) eqn:C4; [|done].
  intros [= <-]. unfold utf8_ok. cbn [take app utf8_chars]. rewrite E1, E2, E3, E4, R, C3, C4. cbn [andb].
  rewrite take_0, app_nil_l. by destruct (utf8_chars rest).
Qed.

Lemma utf8_step_ok l : l ≠ [] → utf8_ok l = true → (utf8_step l).2 = true.
Proof.
  intros Hl. unfold utf8_step, utf8_ok. destruct l as [|b1 l1]; [done|]. cbn [utf8_chars]. cbv zeta.
  destruct (bz b1 <? 128) eqn:E1; [done|]. destruct l1 as [|b2 l2]; [done|].
  destruct (in_range 194 223 (bz b1)) eqn:E2; cbn [lookup list_lookup]; [by destruct (is_cont b2)|].
  destruct l2 as [|b3 l3]; [done|]. destruct (in_range 224 239 (bz b1)) eqn:E3; cbn [lookup list_lookup].
  { destruct (in_range _ _ (bz b2)); [|done]. by destruct (is_cont b3). }
  destruct l3 as [|b4 l4]; [done|]. destruct (in_range 240 244 (bz b1)) eqn:E4; [|done].
  destruct (in_range _ _ (bz b2)); [|done]. destruct (is_cont b3); [|done]. cbn [lookup list_lookup andb]. by destruct (is_cont b4).
Qed.

Lemma utf8_step_pos l : l ≠ [] → (1 ≤ (utf8_step l).1 ≤ length l)%nat.
Proof.
  intros Hl. unfold utf8_step. destruct l as [|b1 l1]; [done|]. cbv zeta.
  destruct l1 as [|b2 [|b3 [|b4 l]]]; cbn [lookup list_lookup length]; repeat case_match; cbn [fst]; lia.
Qed.

(** What is printed is text; text is printed as it is. *)
Lemma from_utf8_lossy_ok l : utf8_ok (from_utf8_lossy l) = true.
Proof.
  unfold from_utf8_lossy. generalize (length l) at 1. intros fuel. revert l.
  induction fuel as [|fuel IH]; intros [|b l]; try done. cbn [lossy_loop].
  destruct (utf8_step (b :: l)) as [n []] eqn:E.
  - rewrite (utf8_step_good (b :: l) n _ ltac:(done) E). apply IH.
  - rewrite <- (IH (drop n (b :: l))). by apply (utf8_step_good REPLACEMENT 3).
Qed.
Lemma from_utf8_lossy_id l : utf8_ok l = true → from_utf8_lossy l = l.
Proof.
  unfold from_utf8_lossy. assert (H : ∀ fuel l, (length l ≤ fuel)%nat → utf8_ok l = true → lossy_loop fuel l = l).
  { clear l. induction fuel as [|fuel IH]; intros [|b l] Hf Hu; cbn [length] in Hf; try done; [lia|]. cbn [lossy_loop].
    pose proof (utf8_step_ok (b :: l) ltac:(done) Hu) as Hg. pose proof (utf8_step_pos (b :: l) ltac:(done)) as Hp.
    destruct (utf8_step (b :: l)) as [n good] eqn:E. cbn [fst snd] in *. subst good.
    rewrite IH; [by rewrite take_drop|rewrite length_drop; cbn [length]; lia|].
    rewrite <- (take_drop n (b :: l)) in Hu. by rewrite (utf8_step_good (b :: l) n _ ltac:(done) E) in Hu. }
  by apply H.
Qed.

Example demo_lossy :
  from_utf8_lossy [zb 104; zb 255; zb 226; zb 134; zb 105; zb 240; zb 159; zb 152]
  = [zb 104] ++ REPLACEMENT ++ REPLACEMENT ++ [zb 105] ++ REPLACEMENT.
Proof. vm_compute. reflexivity. Qed.
Example demo_extension :
  extension <$> (str_bytes <$> ["a/b.tar.gz"; ".hidden"; "x."; "a.d/"; "a.png/.."; "noext"; "./c.jpg/."])
  = [Some (str_bytes "gz"); None; Some []; Some (str_bytes "d"); None; None; Some (str_bytes "jpg")].
Proof. vm_compute. reflexivity. Qed.
