(* ===== verification/FfiTransport.v ===== *)
(** The transport half of the client boundary ([core/src/ffi/transport.rs])
    over the transport's own operations, the event pump that feeds the
    client's listener, and the Chutney helper of
    [core/src/transport/daemon.rs] the headless tools start their daemon
    with. *)

From stdpp Require Import sorting.
From S2P Require Import Prelude Bin RustStr Hex Frame PairingQr Control Circumvention Persona OnionKeys TransportTypes Transport FfiTypes.

(** ** Calls *)

Section Calls.
Context {Tor : Type} `{!ControlPort Tor, !TorDaemon Tor}.
Context (io_error : bytes → option Detail) (data_dir : bytes).
Context {oc : OnionCrypto}.
Context (attach_tries : nat).
(** [SocketAddr::from_str]. *)
Context (addr_ok : bytes → bool).

Definition as_core {A} (p : Transport Tor * result TransportError A) : Transport Tor * result CoreError A :=
  (p.1, map_err from_transport p.2).

Definition ffi_attach_tor (socks_addr control_addr : bytes) (t : Transport Tor) : Transport Tor * result CoreError unit :=
  if negb (addr_ok socks_addr) then (t, Err (CoreOther (MsgLit "bad socks addr: {e}")))
  else if negb (addr_ok control_addr) then (t, Err (CoreOther (MsgLit "bad control addr: {e}")))
  else (attach_tor t, Ok tt).

Definition ffi_start_transport (now : Z) (t : Transport Tor) : Transport Tor * result CoreError unit :=
  as_core (start io_error data_dir attach_tries now t).
Definition ffi_stop_transport (now : Z) (t : Transport Tor) : Transport Tor := stop now t.
Definition ffi_transport_status (t : Transport Tor) : TransportStatus := tr_status t.
Definition ffi_set_kill_switch (now : Z) (on : bool) (t : Transport Tor) : Transport Tor * result CoreError unit :=
  as_core (set_kill_switch io_error data_dir now on t).
Definition ffi_set_onion_mode (now : Z) (mode : OnionMode) (t : Transport Tor) : Transport Tor := set_mode now mode t.
Definition ffi_apply_circumvention (now : Z) (config : CircumventionConfig) (t : Transport Tor)
    : Transport Tor * result CoreError (option bytes) :=
  as_core (apply_circumvention now config t).
(** Spawned: a failure is logged and the client is not told. *)
Definition ffi_on_network_changed (now : Z) (has_path : bool) (t : Transport Tor) : Transport Tor :=
  (on_network_changed now has_path t).1.
Definition ffi_host_service (now : Z) (bind : result TransportError bytes) (seed : bytes) (keys : ClientAuthKeys)
    (service_id : bytes) (restricted : bool) (t : Transport Tor) : Transport Tor * result CoreError bytes :=
  as_core (host_service io_error data_dir now bind seed keys service_id restricted t).
Definition ffi_remove_service (now : Z) (service_id : bytes) (t : Transport Tor)
    : Transport Tor * result CoreError unit :=
  as_core (remove_service now service_id t).

(** A daemon handed over under an address that does not parse is not
    attached. *)
Lemma attach_tor_refused socks control t :
  addr_ok socks && addr_ok control = false → (ffi_attach_tor socks control t).1 = t
  ∧ is_ok (ffi_attach_tor socks control t).2 = false.
Proof. unfold ffi_attach_tor. by destruct (addr_ok socks), (addr_ok control). Qed.
End Calls.

(** ** The event pump *)

Inductive SchatEvent :=
| SeTransport (status : TransportStatus)
| SeArrival (service_id : string).

(** What [broadcast::Receiver::recv] gives. *)
Inductive Received :=
| RcEvent (ev : TransportEvent)
| RcLagged (n : Z)
| RcClosed.

Definition schat_event (ev : TransportEvent) : SchatEvent :=
  match ev with EvStatus s => SeTransport s | EvArrival id => SeArrival id end.

(** What the listener is called with. *)
Fixpoint subscribe_events (rx : list Received) : list SchatEvent :=
  match rx with
  | [] => []
  | RcEvent ev :: rx => schat_event ev :: subscribe_events rx
  | RcLagged _ :: rx => subscribe_events rx
  | RcClosed :: _ => []
  end.

(** A broadcast channel of capacity [cap] as one subscriber sees it: the
    events waiting for it and how many were overwritten since its last
    receive. *)
Record Channel := mkChannel { ch_waiting : list TransportEvent; ch_lost : Z }.
Definition channel_send (cap : Z) (ev : TransportEvent) (c : Channel) : Channel :=
  if len (ch_waiting c) <? cap then mkChannel (ch_waiting c ++ [ev]) (ch_lost c)
  else mkChannel (drop 1 (ch_waiting c) ++ [ev]) (ch_lost c + 1).
Definition channel_recv (c : Channel) : Channel * option Received :=
  if ch_lost c >? 0 then (mkChannel (ch_waiting c) 0, Some (RcLagged (ch_lost c)))
  else
    match ch_waiting c with
    | ev :: rest => (mkChannel rest 0, Some (RcEvent ev))
    | [] => (c, None)
    end.

(** Everything that waits, received. *)
Fixpoint recv_all (n : nat) (c : Channel) : list Received :=
  match n with
  | O => []
  | S n => match channel_recv c with (c, Some r) => r :: recv_all n c | (_, None) => [] end
  end.

Lemma recv_waiting l n : (length l ≤ n)%nat → recv_all n (mkChannel l 0) = RcEvent <$> l.
Proof.
  revert l. induction n as [|n IH]; intros [|ev l] H; cbn in H |- *; try done; try lia.
  unfold channel_recv. cbn. by rewrite IH by lia.
Qed.

Lemma pump_waiting l rx : subscribe_events ((RcEvent <$> l) ++ rx) = (schat_event <$> l) ++ subscribe_events rx.
Proof. induction l as [|ev l IH]; cbn; [done|]. by rewrite IH. Qed.

(** What the channel holds after a burst: the newest [cap] events. *)
Lemma channel_burst cap evs l lost :
  0 < cap → len l ≤ cap → 0 ≤ lost →
  let c := foldl (λ c ev, channel_send cap ev c) (mkChannel l lost) evs in
  ch_waiting c = drop (length (l ++ evs) - Z.to_nat cap) (l ++ evs) ∧ 0 ≤ ch_lost c.
Proof.
  intros Hcap. revert l lost. induction evs as [|ev evs IH]; intros l lost Hl Hlost; cbn [foldl].
  - rewrite app_nil_r. unfold len in Hl. replace (length l - Z.to_nat cap)%nat with 0%nat by lia. done.
  - destruct (Z.ltb_spec (len l) cap) as [Hlt|Hge].
    + assert (E : channel_send cap ev (mkChannel l lost) = mkChannel (l ++ [ev]) lost).
      { unfold channel_send. cbn. by rewrite (proj2 (Z.ltb_lt _ _)). }
      rewrite E. destruct (IH (l ++ [ev]) lost) as [H1 H2]; [rewrite len_app; unfold len in *; cbn; lia|done|].
      split; [|done]. rewrite H1. by rewrite <- !app_assoc.
    + destruct l as [|x l]; [unfold len in Hge; cbn in Hge; lia|].
      assert (E : channel_send cap ev (mkChannel (x :: l) lost) = mkChannel (l ++ [ev]) (lost + 1)).
      { unfold channel_send. cbn [ch_waiting ch_lost]. by rewrite (proj2 (Z.ltb_ge _ _)). }
      rewrite len_cons in *.
      rewrite E. destruct (IH (l ++ [ev]) (lost + 1)) as [H1 H2]; [rewrite len_app; unfold len in *; cbn; lia|lia|].
      split; [|done]. rewrite H1, <- app_assoc. cbn [app length]. rewrite !length_app. cbn [length]. unfold len in *.
      replace (S (length l + S (length evs)) - Z.to_nat cap)%nat
        with (S (length l + S (length evs) - Z.to_nat cap)) by lia.
      done.
Qed.

(** However the transport bursts while the client is busy, the listener is
    then called with the newest events that fit the channel, in order, and
    the pump goes on: a lag is skipped, not the end. *)
Theorem listener_gets_newest cap evs :
  0 < cap →
  let c := foldl (λ c ev, channel_send cap ev c) (mkChannel [] 0) evs in
  subscribe_events (recv_all (S (length evs)) c) = schat_event <$> drop (length evs - Z.to_nat cap) evs.
Proof.
  intros Hcap c. destruct (channel_burst cap evs [] 0) as [Hw Hl]; [done|unfold len; cbn; lia|done|].
  fold c in Hw, Hl. cbn [app] in Hw. destruct c as [w lost]. cbn [ch_waiting ch_lost] in *.
  assert (Hn : (length w ≤ length evs)%nat) by (rewrite Hw, length_drop; lia). rewrite <- Hw.
  assert (Hp : ∀ n, (length w ≤ n)%nat → subscribe_events (recv_all n (mkChannel w 0)) = schat_event <$> w).
  { intros n H. rewrite recv_waiting by done. pose proof (pump_waiting w []) as Hq. by rewrite !app_nil_r in Hq. }
  destruct (Z.gtb_spec lost 0) as [Hpos|Hz].
  - cbn [recv_all]. unfold channel_recv. cbn [ch_lost ch_waiting].
    rewrite (proj2 (Z.gtb_lt lost 0)) by lia. cbn [subscribe_events]. by apply Hp.
  - replace lost with 0 by lia. apply Hp. lia.
Qed.

(** ** Chutney's testing network *)

Definition KEEP_PREFIXES : list bytes := str_bytes <$>
  ["TestingTorNetwork"; "PathsNeededToBuildCircuits"; "TestingDirAuthVoteExit"; "TestingDirAuthVoteHSDir";
   "TestingDirAuthVoteGuard"; "TestingMinExitFlagThreshold"].
Definition DIR_AUTHORITY : bytes := str_bytes "DirAuthority".

(** A directory under the nodes directory and its [torrc], when it reads. *)
Record NodeDir := mkNodeDir { nd_name : bytes; nd_torrc : option bytes }.
Definition node_le (a b : NodeDir) : Prop := str_le (nd_name a) (nd_name b).
#[export] Instance node_le_dec a b : Decision (node_le a b).
Proof. unfold node_le. apply _. Defined.

Definition is_client (n : NodeDir) : bool := bool_decide (bz <$> last (nd_name n) = Some 99).
(** [sort], then the stable [sort_by] of a two-valued key. *)
Definition client_first (nodes : list NodeDir) : list NodeDir :=
  let nodes := merge_sort node_le nodes in
  filter (λ n, is_client n = true) nodes ++ filter (λ n, is_client n = false) nodes.

Definition keeps_line (line : bytes) : bool :=
  starts_with line DIR_AUTHORITY || existsb (λ p, starts_with line (p ++ str_bytes " ")) KEEP_PREFIXES.

(** [nodes] is the directory's listing; a failed read of it is the error. *)
Fixpoint first_authority (nodes : list NodeDir) : option (list bytes) :=
  match nodes with
  | [] => None
  | n :: nodes =>
      match nd_torrc n with
      | None => first_authority nodes
      | Some body =>
          let out := filter (λ line, keeps_line line = true) (str_trim <$> str_lines body) in
          if existsb (λ l, starts_with l DIR_AUTHORITY) out then Some out else first_authority nodes
      end
  end.
Definition chutney_extra_torrc_lines (nodes : result TransportError (list NodeDir))
    : result TransportError (list bytes) :=
  let* nodes := nodes in
  ok_or (first_authority (client_first nodes)) (TrControl (Lit "no DirAuthority lines found under {}")).

Lemma client_first_perm nodes : client_first nodes ≡ₚ nodes.
Proof.
  unfold client_first. etrans; [|apply (merge_sort_Permutation node_le)]. generalize (merge_sort node_le nodes).
  clear nodes. intros l. induction l as [|n l IH]; [done|]. rewrite !filter_cons.
  destruct (is_client n).
  - rewrite decide_True, decide_False by done. cbn [app]. by constructor.
  - rewrite decide_False, decide_True by done. rewrite <- Permutation_middle. by constructor.
Qed.

(** What a daemon of the testing network is started with is taken from one
    node alone, only from the kept options, and names a directory authority;
    the call fails exactly when no readable node names one. *)
Theorem chutney_lines_sound nodes :
  match chutney_extra_torrc_lines (Ok nodes) with
  | Ok out =>
      Forall (λ l, keeps_line l = true) out ∧ existsb (λ l, starts_with l DIR_AUTHORITY) out = true
      ∧ ∃ n body, n ∈ nodes ∧ nd_torrc n = Some body
          ∧ out = filter (λ line, keeps_line line = true) (str_trim <$> str_lines body)
  | Err _ =>
      ∀ n body, n ∈ nodes → nd_torrc n = Some body →
        Forall (λ l, starts_with l DIR_AUTHORITY = false) (str_trim <$> str_lines body)
  end.
Proof.
  unfold chutney_extra_torrc_lines. cbn [rbind].
  assert (H : ∀ l, match first_authority l with
    | Some out => Forall (λ l, keeps_line l = true) out ∧ existsb (λ l, starts_with l DIR_AUTHORITY) out = true
        ∧ ∃ n body, n ∈ l ∧ nd_torrc n = Some body
            ∧ out = filter (λ line, keeps_line line = true) (str_trim <$> str_lines body)
    | None => ∀ n body, n ∈ l → nd_torrc n = Some body →
        Forall (λ l, starts_with l DIR_AUTHORITY = false) (str_trim <$> str_lines body)
    end).
  { induction l as [|n l IH]; cbn [first_authority]; [by intros ? ? ?%not_elem_of_nil|].
    destruct (nd_torrc n) as [body|] eqn:E.
    2:{ destruct (first_authority l) as [out|].
        - destruct IH as (H1 & H2 & n' & b & H3 & H4 & H5). split; [done|]. split; [done|]. exists n', b.
          split; [by right|done].
        - intros n' b [->|H]%elem_of_cons; [congruence|by apply IH]. }
    destruct (existsb _ _) eqn:Ex.
    { split; [apply Forall_forall; by intros x [Hx _]%list_elem_of_filter|]. split; [done|].
      exists n, body. split; [by left|done]. }
    destruct (first_authority l) as [out|].
    - destruct IH as (H1 & H2 & n' & b & H3 & H4 & H5). split; [done|]. split; [done|]. exists n', b.
      split; [by right|done].
    - intros n' b [->|H]%elem_of_cons; [|by apply IH]. intros [= <-]%(eq_trans (eq_sym E)).
      apply Forall_forall. intros x Hx. apply not_true_iff_false. intros Hs. revert Ex.
      rewrite <- not_true_iff_false. intros Hn. apply Hn. apply existsb_exists. exists x. split; [|done].
      apply list_elem_of_In, list_elem_of_filter. split; [|done]. unfold keeps_line. by rewrite Hs. }
  specialize (H (client_first nodes)). pose proof (client_first_perm nodes) as Hp.
  destruct (first_authority (client_first nodes)) as [out|]; cbn [ok_or].
  - destruct H as (H1 & H2 & n & b & H3 & H4). split; [done|]. split; [done|]. exists n, b. by rewrite <- Hp.
  - intros n b Hn. apply H. by rewrite Hp.
Qed.
