(* ===== verification/Cli.v ===== *)
(** The one-shot commands ([cli/src/main.rs], [cli/src/util.rs] and
    [cli/src/commands/]): a process parses its arguments, opens the store
    with the instance's key unless the lock marker is there, brings the
    transport up when it sends, runs one operation of the engine and exits.
    What goes to the standard error is left out; the exit codes, the standard
    output and the effects on files, store and transport are kept. A path the
    user names may be that of a file of the instance, and a write that fails
    may leave part of its data. *)

From S2P Require Import Prelude Bin RustStr Args Limits Media Hex Payloads WirePolicy StickerDocs Envelope Frame PairingQr Policy RateLimit Ephemeral Ledger Settings Sync Session SignalStores EngineTypes Queue Wipe StickerPending StickerStore Attach Messages Caps Engine StickerEngine Sends Profiles Persona Pairing Burn Writes Inbound Runs PairingFacts EngineWf Vault FfiTypes Ffi FfiFacts OnionKeys TransportTypes FfiTransport Daemon CliOut.

Local Abbreviation t := str_bytes.

(** How a process ends before its command returns a code: [process::exit],
    or a panic of the main task. *)
Inductive Stop := StExit (code : Z) | StPanic.
Definition stop_code (s : Stop) : Z := match s with StExit code => code | StPanic => 101 end.

(** What the commands ask of the transport. *)
Record TorSpec := mkTorSpec { tor_binary_path : bytes; tor_dir : bytes; tor_ports : Z * Z; tor_extra : list bytes }.
Class CliTransport (Net : Type) := {
  set_daemon : Net → TorSpec → Net;
  transport_start : Net → Net * result TransportError unit;
  transport_stop : Net → Net;
  transport_status : Net → TransportStatus;
  (** The transport at each wake of [wait_online] before the deadline, and at
      the first after it. *)
  net_wakes : Net → list Net * Net;
  (** The transport at each change [status] follows until it is stopped. *)
  net_changes : Net → list Net;
}.

(** The file a path names, links and the working directory resolved: the
    instance's database, its key file, its lock marker, or another one. *)
Inductive Place := PlStore | PlDek | PlMarker | PlDisk (file : bytes).

(** What a process finds outside the part of the instance's directory that
    [Cli] keeps: the faults, the clock, the generator, the file a path names,
    what the marker holds, the rest of the directory as a wipe walks it and
    what fails in one, and the environment of the daemon it starts. *)
Record Env := mkEnv {
  env_faults : Faults;
  env_now : Z;
  env_fresh : bytes;
  env_place : bytes → Place;
  env_marker : bytes;
  env_tree : DataDir;
  env_wipe_stops : string → string → option nat;
  env_wipe_fails : string → bool;
  env_schat_tor : option bytes;
  env_nodes : bytes → result TransportError (list NodeDir);
  env_free_ports : option (Z * Z);
}.

(** A database file as bytes: what reading it gives, and the file that holds
    them. *)
Class RawFile `{cipher : !SqlCipher} := { file_raw : DbFile → bytes; raw_file : bytes → DbFile }.

Section Cli.
Context {Net Rng : Type} `{crypto : !PairingCrypto Rng} `{hosting : !Hosting Net} {codecs : ImageCodecs}.
Context `{cipher : !SqlCipher} {raw : RawFile} `{transport : !CliTransport Net}.
Context (nfc : bytes → bytes).
Context (kill_switch online : Net → bool).
Context (sender_send : Net → string → bytes → Net * result TransportError unit).
(** [Display] of a reason. *)
Context (show_detail : Detail → bytes).

Local Abbreviation rng_id := (λ r : Rng, fill_bytes r 16).
Local Abbreviation Engine := (@Engine SignalTables Net Rng).
Local Abbreviation M := (@M SignalTables Net Rng).
Local Notation "'via' f" := (f nfc message_encrypt kill_switch online sender_send rng_id fill_bytes rng_next)
  (at level 10, only parsing).

(** ** The process *)

(** [cl_store] is the database file while no connection has it open, an
    engine comes with the key of its connection, [cl_disk] holds the files
    the user names, [cl_up] says whether the transport has been started and
    not stopped. *)
Record Cli := mkCli {
  cl_files : VaultFiles;
  cl_store : option DbFile;
  cl_open : option (bytes * Engine);
  cl_host : @Host Net Rng;
  cl_up : bool;
  cl_disk : gmap bytes bytes;
  cl_out : list bytes;
}.

Definition Proc (A : Type) : Type := Cli → Cli * result Stop A.
Definition pret {A} (a : A) : Proc A := λ c, (c, Ok a).
Definition pbind {A B} (m : Proc A) (k : A → Proc B) : Proc B := λ c,
  match m c with
  | (c, Ok a) => k a c
  | (c, Err s) => (c, Err s)
  end.
Definition stop {A} (s : Stop) : Proc A := λ c, (c, Err s).
Definition exit {A} (code : Z) : Proc A := stop (StExit code).
Local Notation "'let!' x ':=' m 'in' k" := (pbind m (λ x, k))
  (at level 200, x name, k at level 200, right associativity).
Local Notation "m ;; k" := (pbind m (λ _, k)) (at level 100, k at level 200, right associativity).

Definition println (line : bytes) : Proc unit := λ c,
  (mkCli (cl_files c) (cl_store c) (cl_open c) (cl_host c) (cl_up c) (cl_disk c) (cl_out c ++ [line]), Ok tt).
Definition usage_msg {A} (msg : string) : Proc A := exit 2.
(** [unwrap_or_else(|| usage_msg(..))] *)
Definition needed {A} (o : option A) (msg : string) : Proc A :=
  match o with Some a => pret a | None => usage_msg msg end.
Definition of_usage {A} (r : result UsageError A) : Proc A :=
  match r with Ok a => pret a | Err (Usage msg) => usage_msg msg end.
Definition hex_id (n : Z) (s : bytes) : Proc bytes :=
  match cli_hex_id n s with Some r => of_usage r | None => stop StPanic end.
(** An error printed, and [return 1]. *)
Definition or_exit {E A} (r : result E A) : Proc A :=
  match r with Ok a => pret a | Err _ => exit 1 end.

(** The database file: the statements an open connection has run are in it. *)
Definition stored (c : Cli) : option DbFile :=
  match cl_open c with
  | Some (key, e) => Some (keyed_file key SCHEMA_VERSION (en_db e, en_sig e))
  | None => cl_store c
  end.

Definition fs_content (env : Env) (path : bytes) (c : Cli) : option bytes :=
  match env_place env path with
  | PlStore => file_raw <$> stored c
  | PlDek => vf_dek (cl_files c)
  | PlMarker => if vf_marker (cl_files c) then Some (env_marker env) else None
  | PlDisk file => cl_disk c !! file
  end.
(** Data written over the database file takes the place of what a connection
    has stored; no command runs a statement after it has written a file. *)
Definition fs_set (env : Env) (path data : bytes) (c : Cli) : Cli :=
  match env_place env path with
  | PlStore =>
      mkCli (cl_files c) (Some (raw_file data)) None
        (match cl_open c with Some (_, e) => engine_host e | None => cl_host c end) (cl_up c) (cl_disk c) (cl_out c)
  | PlDek =>
      mkCli (mkVaultFiles (Some data) (vf_marker (cl_files c))) (cl_store c) (cl_open c) (cl_host c) (cl_up c)
        (cl_disk c) (cl_out c)
  | PlMarker =>
      mkCli (mkVaultFiles (vf_dek (cl_files c)) true) (cl_store c) (cl_open c) (cl_host c) (cl_up c) (cl_disk c)
        (cl_out c)
  | PlDisk file =>
      mkCli (cl_files c) (cl_store c) (cl_open c) (cl_host c) (cl_up c) (<[file := data]> (cl_disk c)) (cl_out c)
  end.

Definition fs_read (env : Env) (path : bytes) : Proc bytes := λ c,
  match try_fs (env_faults env) (FsRead path), fs_content env path c with
  | Ok _, Some data => (c, Ok data)
  | _, _ => (c, Err (StExit 1))
  end.
Definition fs_write (env : Env) (path data : bytes) : Proc unit := λ c,
  let '(kept, r) := fs_put (env_faults env) path data in
  (match kept with Some written => fs_set env path written c | None => c end,
   match r with Ok _ => Ok tt | Err _ => Err (StExit 1) end).

(** The transport the process and its engine share. *)
Definition cl_net (c : Cli) : Net :=
  match cl_open c with Some (_, e) => en_net e | None => h_net (cl_host c) end.
Definition put_net (net : Net) (up : bool) (c : Cli) : Cli :=
  match cl_open c with
  | Some (key, e) =>
      mkCli (cl_files c) (cl_store c)
        (Some (key, mkEngine (en_db e) (en_sig e) net (en_rng e) (en_presence e) (en_typing e) (en_pending e)
                      (en_rate e) (en_drops e)))
        (cl_host c) up (cl_disk c) (cl_out c)
  | None =>
      mkCli (cl_files c) (cl_store c) None (mkHost net (h_rng (cl_host c)) (h_drops (cl_host c))) up (cl_disk c)
        (cl_out c)
  end.
Definition stop_net : Proc unit := λ c, (put_net (transport_stop (cl_net c)) false c, Ok tt).

(** A method of the engine; one is open wherever this is called. *)
Definition on_engine {A} (env : Env) (m : M A) : Proc (result EngineError A) := λ c,
  match cl_open c with
  | Some (key, e) =>
      let '(e, r) := m (at_time (env_now env) e) in
      (mkCli (cl_files c) (cl_store c) (Some (key, e)) (cl_host c) (cl_up c) (cl_disk c) (cl_out c), Ok r)
  | None => (c, Err StPanic)
  end.
(** What a function of the store answers. *)
Definition ask {A} (env : Env) (f : Db → SignalTables → A) : Proc A :=
  let! r := on_engine env (λ e, (e, Ok (f (en_db e) (en_sig e)))) in
  or_exit r.
(** What a function of the store leaves in its place. *)
Definition write_db (env : Env) (db : Db) : Proc unit :=
  on_engine env (λ e, (mkEngine db (en_sig e) (en_net e) (en_rng e) (en_presence e) (en_typing e) (en_pending e)
                         (en_rate e) (en_drops e), Ok tt)) ;;
  pret tt.

(** ** [util.rs] *)

Definition tor_binary (env : Env) : bytes := default (t "tor") (env_schat_tor env).

Definition make_daemon (env : Env) (data_dir : bytes) (chutney_nodes : option bytes) : Proc TorSpec :=
  let! extra := match chutney_nodes with
                | Some dir => or_exit (chutney_extra_torrc_lines (env_nodes env dir))
                | None => pret []
                end in
  match env_free_ports env with
  | Some ports => pret (mkTorSpec (tor_binary env) (path_join data_dir (t "tor")) ports extra)
  | None => stop StPanic
  end.

Definition is_online (net : Net) : bool :=
  match ts_tor (transport_status net) with TsOnline => true | _ => false end.
(** The first wake that finds the transport online ends the wait; after the
    deadline one more look decides. *)
Fixpoint wait_loop (wakes : list Net) (late : Net) : Net * bool :=
  match wakes with
  | [] => (late, is_online late)
  | net :: wakes => if is_online net then (net, true) else wait_loop wakes late
  end.
Definition wait_online : Proc bool := λ c,
  let '(wakes, late) := net_wakes (cl_net c) in
  let '(net, ok) := wait_loop (cl_net c :: wakes) late in
  (put_net net (cl_up c) c, Ok ok).

(** [Transport::new], [set_daemon] and [start]. *)
Definition bring_up (env : Env) (a : Args) : Proc (result TransportError unit) :=
  let! spec := make_daemon env (a_data_dir a) (text_of ToChutneyNodes a) in
  λ c, let '(net, r) := transport_start (set_daemon (cl_net c) spec) in (put_net net (is_ok r) c, Ok r).

(** An error of [open_cli_db], [start_engine] and what they call. *)
Inductive CliError :=
| CeLocked
| CeDek (d : Detail)
| CeOpen (e : VaultError)
| CeStart (e : TransportError)
| CeOffline.

Definition open_cli_db (env : Env) : Proc (result CliError unit) := λ c,
  if marker_exists (env_faults env) (cl_files c) then (c, Ok (Err CeLocked))
  else
    match load_or_generate_dek (env_faults env) (env_fresh env) (cl_files c) with
    | (files, Err d) =>
        (mkCli files (cl_store c) (cl_open c) (cl_host c) (cl_up c) (cl_disk c) (cl_out c), Ok (Err (CeDek d)))
    | (files, Ok dek) =>
        match open_store_with_dek (env_faults env) (cl_store c) dek with
        | (file, Err x) =>
            (mkCli files file (cl_open c) (cl_host c) (cl_up c) (cl_disk c) (cl_out c), Ok (Err (CeOpen x)))
        | (file, Ok tables) =>
            (mkCli files file (Some (dek, engine_new tables (cl_host c))) (cl_host c) (cl_up c) (cl_disk c) (cl_out c),
             Ok (Ok tt))
        end
    end.

(** [offline_engine], with the report and the [return 1] of its callers. *)
Definition offline_engine (env : Env) : Proc unit :=
  let! r := open_cli_db env in
  or_exit r.

Definition start_engine (env : Env) (a : Args) : Proc (result CliError unit) :=
  let! r := bring_up env a in
  match r with
  | Err x => pret (Err (CeStart x))
  | Ok _ =>
      let! ok := wait_online in
      if negb ok then stop_net ;; pret (Err CeOffline)
      else
        let! r := open_cli_db env in
        match r with
        | Ok _ => pret (Ok tt)
        | Err x => stop_net ;; pret (Err x)
        end
  end.
Definition start_engine_or_report (env : Env) (a : Args) : Proc unit :=
  let! r := start_engine env a in
  or_exit r.

Definition finish {E} (r : result E bytes) : Proc Z :=
  match r with
  | Ok msg => println msg ;; stop_net ;; pret 0
  | Err _ => stop_net ;; pret 1
  end.
(** The engine's call of an online command, and its end. *)
Definition send_and_finish {A} (env : Env) (m : M A) (msg : A → bytes) : Proc Z :=
  let! r := on_engine env m in
  finish (let* x := r in Ok (msg x)).

(** ** [commands/send.rs], [status.rs] *)

Definition send_frame_cmd (dest : bytes) (record : bytes) (alert : bool) : Proc (result TransportError unit) := λ c,
  let '(net, r) := send_frame kill_switch online sender_send (cl_net c) (bytes_str dest) record alert in
  (put_net net (cl_up c) c, Ok r).

Definition send_cmd (env : Env) (a : Args) : Proc Z :=
  let text := default (t "ping") (text_of ToText a) in
  let! r := bring_up env a in
  or_exit r ;;
  let! ok := wait_online in
  if negb ok then stop_net ;; exit 1
  else
    match text_of ToRel a with
    | Some rel =>
        let! r := open_cli_db env in
        match r with
        | Err _ => stop_net ;; exit 1
        | Ok _ =>
            send_and_finish env (via send_text (bytes_str rel) text None)
              (λ id, t "sent to relationship " ++ rel ++ t " (msg_id " ++ hex_encode id ++ t ")")
        end
    | None =>
        let! dest := needed (text_of ToTo a) "send needs --to ONION or --rel REL_ID" in
        let! r := send_frame_cmd dest (text_record text) (switch_on SwAlert a) in
        finish (let* _ := r in Ok (t "transmitted to " ++ dest))
    end.

Fixpoint print_all (lines : list bytes) : Proc unit :=
  match lines with
  | [] => pret tt
  | l :: lines => println l ;; print_all lines
  end.

Definition status_line (net : Net) : bytes := render_status show_detail (transport_status net).
(** Followed, the status is printed at the start and at each change, until
    the user or the transport ends it. *)
Definition follow_status : Proc unit := λ c,
  let nets := net_changes (cl_net c) in
  match print_all (status_line <$> cl_net c :: nets) c with
  | (c, Ok _) => (put_net (default (cl_net c) (last nets)) (cl_up c) c, Ok tt)
  | (c, Err s) => (c, Err s)
  end.
Definition status_cmd (env : Env) (a : Args) : Proc Z :=
  let! r := bring_up env a in
  or_exit r ;;
  (if switch_on SwOnce a then (λ c, println (status_line (cl_net c)) c) else follow_status) ;;
  stop_net ;; pret 0.

(** ** [commands/text.rs] *)

Definition rel_arg (a : Args) : Proc bytes := needed (text_of ToRel a) "needs --rel REL_ID".
Definition target_arg (a : Args) : Proc bytes :=
  let! s := needed (text_of ToMsgId a) "needs --msg-id ID" in
  hex_id 16 s.
Definition on_off (a : Args) (msg : string) : Proc bool :=
  match switch_on SwOn a, switch_on SwOff a with
  | true, false => pret true
  | false, true => pret false
  | _, _ => usage_msg msg
  end.

Definition edit_cmd (env : Env) (a : Args) : Proc Z :=
  let! text := needed (text_of ToText a) "needs --text TEXT" in
  start_engine_or_report env a ;;
  let! rel := rel_arg a in
  let! target := target_arg a in
  send_and_finish env (via send_edit (bytes_str rel) target text)
    (λ id, t "edited (edit id " ++ hex_encode id ++ t ")").

Definition delete_cmd (env : Env) (a : Args) : Proc Z :=
  start_engine_or_report env a ;;
  let! rel := rel_arg a in
  let! target := target_arg a in
  send_and_finish env (via send_delete (bytes_str rel) target)
    (λ id, t "deleted (delete id " ++ hex_encode id ++ t ")").

Definition read_cmd (env : Env) (a : Args) : Proc Z :=
  start_engine_or_report env a ;;
  let! rel := rel_arg a in
  let! target := target_arg a in
  send_and_finish env (via send_read (bytes_str rel) target) (λ _, t "read receipt sent").

Definition typing_cmd (env : Env) (a : Args) : Proc Z :=
  let! typing := on_off a "needs --on or --off" in
  start_engine_or_report env a ;;
  let! rel := rel_arg a in
  send_and_finish env (via send_typing (bytes_str rel) typing) (λ _, t "typing=" ++ show_bool typing ++ t " sent").

(** A beat to every active relationship; the first failure ends the loop. *)
Fixpoint presence_beats (rels : list string) (in_app dnd : bool) (sent : Z) : M Z :=
  match rels with
  | [] => mret sent
  | rel :: rels => mbind (via send_presence rel in_app dnd) (λ _, presence_beats rels in_app dnd (sent + 1))
  end.
Definition presence_cmd (env : Env) (a : Args) : Proc Z :=
  let! in_app := on_off a "needs --on or --off" in
  let dnd := switch_on SwDnd a in
  start_engine_or_report env a ;;
  let! rels := ask env (λ db _, active_rels db) in
  send_and_finish env (presence_beats rels in_app dnd 0)
    (λ sent, t "presence in_app=" ++ show_bool in_app ++ t " dnd=" ++ show_bool dnd ++ t " → " ++ show_int sent
             ++ t " peers").

Definition thread_cmd (env : Env) (a : Args) : Proc Z :=
  offline_engine env ;;
  let! rel := rel_arg a in
  let! rows := ask env (λ db _, thread_visible db (bytes_str rel) 200 None) in
  print_all (render_row <$> reverse rows) ;;
  pret 0.

(** ** [commands/pair.rs] *)

(** A call that fails is reported, and [return 1]. *)
Definition call {A} (env : Env) (m : M A) : Proc A :=
  let! r := on_engine env m in
  or_exit r.

Definition print_accepted (a : Accepted) : Proc Z :=
  print_all [t "rel_id: " ++ t (ac_rel_id a); t "peer_onion: " ++ t (ac_peer_onion a); t "onion: " ++ t (ac_onion a);
             t "safety: " ++ ac_sas a] ;;
  pret 0.

Definition request_line (r : RequestInfo) : bytes :=
  t "request: rel_id=" ++ t (ri_rel_id r) ++ t " safety=" ++ ri_sas r ++ t " peer=" ++ t (ri_peer_onion r)
  ++ t " created_at=" ++ show_int (ri_created_at r).

Definition pair_cmd (env : Env) (a : Args) : Proc Z :=
  let now := env_now env in
  let! r := open_cli_db env in
  or_exit r ;;
  if switch_on SwOffer a then
    let! o := call env (offer now) in
    print_all [t "onion: " ++ t (of_onion o); t "expires_at: " ++ show_int (of_expires_at o); t "code: " ++ of_code o] ;;
    match text_of ToOut a with
    | Some out => fs_write env out (of_qr_bytes o) ;; println (t "qr-bytes: written to " ++ out) ;; pret 0
    | None => pret 0
    end
  else
    match text_of ToAccept a, text_of ToCode a with
    | Some path, None =>
        let! bs := fs_read env path in
        let! accepted := call env (accept bs now) in
        print_accepted accepted
    | None, Some code => let! accepted := call env (accept_code code now) in print_accepted accepted
    | Some _, Some _ => usage_msg "use either --accept FILE or --code CODE, not both"
    | None, None =>
        if switch_on SwRequests a then
          let! r := ask env pending_requests in
          let! requests := or_exit r in
          (if bool_decide (requests = []) then println (t "no pending requests") else pret tt) ;;
          print_all (request_line <$> requests) ;;
          pret 0
        else if switch_on SwAcceptRequest a then
          let! rel := match text_of ToRel a with
                      | Some rel => pret (bytes_str rel)
                      | None =>
                          let! r := ask env pending_requests in
                          match r with
                          | Ok [request] => pret (ri_rel_id request)
                          | Ok _ | Err _ => exit 1
                          end
                      end in
          call env (engine_accept_request nfc kill_switch online sender_send rel) ;;
          println (t "accepted: " ++ t rel) ;;
          pret 0
        else if switch_on SwAbort a then
          call env abort_offer ;; println (t "offer aborted") ;; pret 0
        else
          usage_msg "pair needs one of --offer / --accept / --code / --accept-request / --requests / --abort"
    end.

(** ** [commands/attach.rs] *)

Definition attach_cmd (env : Env) (a : Args) : Proc Z :=
  let! rel := rel_arg a in
  let! path := needed (text_of ToFile a) "needs --file PATH" in
  let! bs := fs_read env path in
  let kind := sniff bs in
  if bool_decide (kind = Reject) then exit 1
  else
    let mime := t (match kind with Mp4 | Webm => "video" | _ => "image" end) ++ t "/" ++ t (kind_as_str kind) in
    let ext := default [] (extension path) in
    start_engine_or_report env a ;;
    let caption := default [] (text_of ToCaption a) in
    let view_once := switch_on SwViewOnce a in
    send_and_finish env
      (send_attachment nfc sha256 message_encrypt kill_switch online sender_send rng_id fill_bytes rng_next
         (bytes_str rel) (mkAttachmentSpec (class_for_mime mime) mime ext bs caption view_once))
      (λ head, t "attachment sent (head " ++ hex_encode head ++ t ", " ++ show_int (len bs) ++ t " bytes, view_once="
               ++ show_bool view_once ++ t ")").

Definition attach_save_cmd (env : Env) (a : Args) : Proc Z :=
  let! s := needed (text_of ToMsgId a) "needs --msg-id HEAD_ID" in
  let! head := hex_id 16 s in
  let! out := needed (text_of ToOut a) "needs --out FILE" in
  offline_engine env ;;
  let! found := ask env (λ db _, attachment_bytes db head) in
  match found with
  | Some bs =>
      fs_write env out bs ;; println (t "wrote " ++ show_int (len bs) ++ t " bytes to " ++ out) ;; pret 0
  | None => pret 1
  end.

(** ** [commands/profile.rs] *)

Definition show_profile (who name jpeg : bytes) : bytes :=
  who ++ t ": name=" ++ name ++ t " jpeg=" ++ show_int (len jpeg) ++ t " bytes".

Definition profile_cmd (env : Env) (a : Args) : Proc Z :=
  if switch_on SwSet a then
    let! name := needed (text_of ToName a) "--set needs --name NAME" in
    let! jpeg := match text_of ToJpeg a with Some path => fs_read env path | None => pret [] end in
    offline_engine env ;;
    let! r := ask env (λ db _, set_our_profile nfc db name jpeg) in
    let! db := or_exit r in
    write_db env db ;;
    println (t "profile set: name=" ++ name ++ t " jpeg=" ++ show_int (len jpeg) ++ t " bytes") ;;
    pret 0
  else if switch_on SwShow a then
    offline_engine env ;;
    match text_of ToRel a with
    | Some rel =>
        let! p := ask env (λ db _, profile db (bytes_str rel)) in
        println (match p with
                 | Some p => show_profile (t "peer " ++ rel) (pf_name p) (pf_jpeg p)
                 | None => t "peer " ++ rel ++ t ": no profile yet"
                 end) ;;
        pret 0
    | None =>
        let! p := ask env (λ db _, our_profile db) in
        println (show_profile (t "our profile") (profile_name p) (profile_jpeg p)) ;;
        pret 0
    end
  else if switch_on SwBroadcast a then
    start_engine_or_report env a ;;
    send_and_finish env (via broadcast_profile) (λ n, t "profile broadcast to " ++ show_int n ++ t " peers")
  else if switch_on SwRequest a then
    let! rel := needed (text_of ToRel a) "--request needs --rel REL_ID" in
    start_engine_or_report env a ;;
    send_and_finish env (via send_profile_req (bytes_str rel)) (λ _, t "profile requested from " ++ rel)
  else usage_msg "profile needs one of --set / --show / --broadcast / --request".

(** ** [commands/policy.rs] *)

Definition policy_cmd (env : Env) (a : Args) : Proc Z :=
  let! rel_text := rel_arg a in
  let rel := bytes_str rel_text in
  if switch_on SwShow a then
    offline_engine env ;;
    let! r := ask env (λ db _, load_policy db rel) in
    let! state := or_exit r in
    println (render_policy state) ;;
    pret 0
  else
    start_engine_or_report env a ;;
    if switch_on SwPropose a then
      let! ttl := needed (a_ttl a) "--propose needs --ttl SEC" in
      let! screenshot := needed (a_screenshot a) "--propose needs --screenshot on|off" in
      let! attach_dl := needed (a_attach_download a) "--propose needs --attach-download on|off" in
      send_and_finish env (via propose_rules rel ttl screenshot attach_dl) (λ _, t "proposal sent")
    else if switch_on SwAcceptRules a then
      send_and_finish env (via accept_rules rel) (λ _, t "proposal accepted")
    else if switch_on SwDecline a then
      send_and_finish env (engine_decline_rules rel) (λ _, t "proposal declined")
    else
      match text_of ToCap a with
      | Some cap =>
          let! on := on_off a "--cap needs --on or --off" in
          let! id := of_usage (cap_id cap) in
          send_and_finish env (via set_capability rel id on) (λ _, t "cap " ++ cap ++ t " set to " ++ show_bool on)
      | None => usage_msg "policy needs --show / --propose / --accept-rules / --decline / --cap"
      end.

(** ** [commands/stickers.rs], [close.rs] *)

Definition parse_kind (v : option bytes) : result UsageError Z :=
  if bool_decide (v = None ∨ v = Some (t "emoji")) then Ok KIND_EMOJI
  else if bool_decide (v = Some (t "sticker")) then Ok KIND_STICKER
  else Err (Usage "--kind emoji|sticker").
Definition parse_visibility (v : option bytes) : result UsageError Z :=
  if bool_decide (v = None ∨ v = Some (t "public")) then Ok VISIBILITY_PUBLIC
  else if bool_decide (v = Some (t "private")) then Ok VISIBILITY_PRIVATE
  else Err (Usage "--visibility public|private").

(** The items in the order of the files; the first that does not read or
    cannot be prepared ends the command. *)
Fixpoint sticker_items (env : Env) (kind i : Z) (paths : list bytes) : Proc (list PackDocItem) :=
  match paths with
  | [] => pret []
  | path :: paths =>
      let! raw := fs_read env path in
      let! p := or_exit (prepare_sticker raw kind) in
      let! rest := sticker_items env kind (i + 1) paths in
      pret (mkPackDocItem (wrap16 (i + 1)) (wrap16 (ps_width p)) (wrap16 (ps_height p)) (sha256 (ps_bytes p))
              (ps_bytes p) :: rest)
  end.

Definition COMMA : byte := zb 44.
Definition create_cmd (env : Env) (a : Args) : Proc Z :=
  let! title := needed (text_of ToTitle a) "--create needs --title T" in
  let! files := needed (text_of ToFiles a) "--create needs --files A,B,.." in
  let! kind := of_usage (parse_kind (text_of ToKind a)) in
  let! visibility := of_usage (parse_visibility (text_of ToVisibility a)) in
  let! items := sticker_items env kind 0 (split_on COMMA files) in
  offline_engine env ;;
  let! ids := call env (engine_create_pack title kind visibility 1 items) in
  println (t "pack created: id=" ++ hex_encode ids.1 ++ t " pk=" ++ hex_encode ids.2) ;;
  pret 0.

Definition pack_line (p : PackInfo) : bytes :=
  t "pack=" ++ hex_encode (in_pack_id p) ++ t " title=" ++ in_title p ++ t " kind=" ++ show_int (in_kind p)
  ++ t " items=" ++ show_int (in_item_count p) ++ t " cached=" ++ show_bool (in_cached p).

Definition pack_arg (a : Args) (msg : string) : Proc bytes :=
  let! s := needed (text_of ToPack a) msg in
  hex_id 16 s.

Definition sticker_cmd (env : Env) (a : Args) : Proc Z :=
  if switch_on SwCreate a then create_cmd env a
  else if switch_on SwList a then
    offline_engine env ;;
    let! packs := ask env (λ db _, list_packs db) in
    (match packs with [] => println (t "no packs installed") | _ => pret tt end) ;;
    print_all (pack_line <$> packs) ;;
    pret 0
  else if switch_on SwRemove a then
    let! pack_id := pack_arg a "needs --pack ID" in
    offline_engine env ;;
    let! r := ask env (λ db _, remove_pack db pack_id) in
    write_db env r.1 ;;
    if r.2 : bool then println (t "pack removed") ;; pret 0 else pret 1
  else
    start_engine_or_report env a ;;
    if switch_on SwSend a then
      let! rel := needed (text_of ToRel a) "--send needs --rel REL_ID" in
      let! pack_id := pack_arg a "--send needs --pack ID" in
      let! item := needed (a_item a) "--send needs --item N" in
      send_and_finish env (via send_sticker (bytes_str rel) pack_id item)
        (λ id, t "sticker sent (id " ++ hex_encode id ++ t ")")
    else if switch_on SwFetch a then
      let! rel := needed (text_of ToRel a) "--fetch needs --rel REL_ID" in
      let! pack_id := pack_arg a "--fetch needs --pack ID" in
      let! s := needed (text_of ToPk a) "--fetch needs --pk HEX" in
      let! pk := hex_id 32 s in
      send_and_finish env (via fetch_pack (bytes_str rel) pack_id pk)
        (λ _, t "pack fetch requested (watch the daemon log)")
    else usage_msg "sticker needs --create / --list / --send / --fetch / --remove".

Definition close_cmd (env : Env) (a : Args) : Proc Z :=
  let! rel := rel_arg a in
  start_engine_or_report env a ;;
  send_and_finish env (via close_contact (bytes_str rel))
    (λ _, t "closing " ++ rel ++ t ": history erased, close frames queued").

(** ** [commands/media.rs] *)

Definition read_file (env : Env) (a : Args) : Proc (bytes * bytes) :=
  let! file := needed (text_of ToFile a) "needs --file PATH" in
  let! bs := fs_read env file in
  pret (file, bs).

Definition media_sniff_cmd (env : Env) (a : Args) : Proc Z :=
  let! f := read_file env a in
  println (f.1 ++ t ": " ++ t (kind_as_str (sniff f.2)) ++ t " (" ++ show_int (len f.2) ++ t " bytes)") ;;
  pret 0.

Definition media_strip_cmd (env : Env) (a : Args) : Proc Z :=
  let! f := read_file env a in
  let! out := needed (text_of ToOut a) "needs --out FILE" in
  let! clean := or_exit (reencoded f.2) in
  fs_write env out clean ;;
  println (f.1 ++ t ": stripped + re-encoded " ++ show_int (len f.2) ++ t " → " ++ show_int (len clean) ++ t " bytes → "
           ++ out) ;;
  pret 0.

Definition sticker_kind_arg (v : option bytes) : result UsageError Z :=
  if bool_decide (v = None ∨ v = Some (t "sticker")) then Ok KIND_STICKER
  else if bool_decide (v = Some (t "emoji")) then Ok KIND_EMOJI
  else Err (Usage "--kind sticker|emoji").
Definition media_prepare_cmd (env : Env) (a : Args) : Proc Z :=
  let! f := read_file env a in
  let! kind := of_usage (sticker_kind_arg (text_of ToKind a)) in
  let! p := or_exit (prepare_sticker f.2 kind) in
  println (f.1 ++ t ": prepared " ++ show_int (ps_width p) ++ t "x" ++ show_int (ps_height p) ++ t " item="
           ++ show_int (len (ps_bytes p)) ++ t " bytes thumb=" ++ show_int (len (ps_thumb p)) ++ t " bytes") ;;
  match text_of ToOut a with
  | Some out => fs_write env out (ps_bytes p) ;; println (t "wrote " ++ out) ;; pret 0
  | None => pret 0
  end.

(** ** [commands/vault.rs] *)

Definition put_files (files : VaultFiles) : Proc unit := λ c,
  (mkCli files (cl_store c) (cl_open c) (cl_host c) (cl_up c) (cl_disk c) (cl_out c), Ok tt).

Definition lock_cmd (env : Env) : Proc Z := λ c,
  let '(files, code) := cli_lock (env_faults env) (cl_files c) in
  (put_files files ;;
   (if code =? 0 then
      println (if marker_exists (env_faults env) (cl_files c) then t "already locked"
               else t "locked — a running daemon locks within ~5 s; inbound frames queue at rest")
    else pret tt) ;;
   pret code) c.

Definition unlock_cmd (env : Env) (a : Args) : Proc Z := λ c,
  let dek_file := (λ path, match (fs_read env path c).2 with
                           | Ok bs => Ok bs
                           | Err _ => Err (Lit "read {}: {e}")
                           end) <$> text_of ToDekFile a in
  let '(files, code) := cli_unlock (env_faults env) (env_fresh env) dek_file (cl_files c) in
  (put_files files ;;
   (if code =? 0 then println (t "unlocked — a running daemon opens the store and drains the queue within ~5 s")
    else pret tt) ;;
   pret code) c.

Definition sweep_expired_cmd (env : Env) : Proc Z :=
  offline_engine env ;;
  call env (sweep_expired_offer (env_now env)) ;;
  let! events := call env (sweep remove_service) in
  print_all (render_event <$> events) ;;
  println (t "sweep complete (" ++ show_int (len events) ++ t " events)") ;;
  pret 0.

(** The wipe works on the data directory as it walks it; its exit code and
    line. *)
Definition panic_wipe_cmd (overwrite_stops : string → string → option nat) (remove_fails : string → bool)
    (tree : DataDir) : DataDir * bytes * Z :=
  let '(tree, report) := panic_wipe overwrite_stops remove_fails tree in
  (tree,
   t "panic wipe: " ++ show_int (wr_files_removed report) ++ t " files, " ++ show_int (wr_dirs_removed report)
   ++ t " dirs removed, " ++ show_int (wr_errors report) ++ t " errors",
   if wr_errors report >? 0 then 1 else 0).

(** The data directory as the wipe finds it, the queue and the like with it
    in [env_tree], and the instance as the tree it
    leaves says. *)
Definition vault_entries (f : VaultFiles) (env : Env) : list Entry :=
  match vf_dek f with Some dek => [mkEntry "dek" (NFile dek)] | None => [] end
  ++ (if vf_marker f then [mkEntry "locked" (NFile (env_marker env))] else []).
Definition data_tree (env : Env) (c : Cli) : DataDir :=
  let tree := match stored c with
              | Some f => <["schat.db"%string := NFile (file_raw f)]> (env_tree env)
              | None => delete "schat.db"%string (env_tree env)
              end in
  match vault_entries (cl_files c) env, tree !! "vault"%string with
  | [], _ => tree
  | es, Some (NDir rest) => <["vault"%string := NDir (es ++ rest)]> tree
  | es, _ => <["vault"%string := NDir es]> tree
  end.
Definition entry_data (name : string) (es : list Entry) : option bytes :=
  head (omap (λ e, match e with mkEntry n (NFile d) => if decide (n = name) then Some d else None | _ => None end) es).
Definition tree_files (tree : DataDir) : VaultFiles :=
  match tree !! "vault"%string with
  | Some (NDir es) => mkVaultFiles (entry_data "dek" es) (bool_decide (is_Some (entry_data "locked" es)))
  | _ => mkVaultFiles None false
  end.
(** A file the wipe could neither overwrite nor remove is as it was. *)
Definition tree_store (tree : DataDir) (before : option DbFile) : option DbFile :=
  match tree !! "schat.db"%string with
  | Some (NFile data) => if decide (file_raw <$> before = Some data) then before else Some (raw_file data)
  | _ => None
  end.
Definition wipe_cmd (env : Env) : Proc Z := λ c,
  let '(tree, line, code) := panic_wipe_cmd (env_wipe_stops env) (env_wipe_fails env) (data_tree env c) in
  (println line ;; pret code)
    (mkCli (tree_files tree) (tree_store tree (stored c)) None (cl_host c) (cl_up c) (cl_disk c) (cl_out c)).

(** ** [main.rs] *)

Inductive Command :=
| CmdPing | CmdDaemon | CmdSend | CmdStatus | CmdPair | CmdEdit | CmdDelete | CmdRead | CmdTyping | CmdPresence
| CmdThread | CmdAttach | CmdAttachSave | CmdProfile | CmdPolicy | CmdSticker | CmdClose | CmdLock | CmdUnlock
| CmdPanicWipe | CmdSweepExpired | CmdMediaSniff | CmdMediaStrip | CmdMediaPrepare.

#[export] Instance command_eq_dec : EqDecision Command.
Proof. solve_decision. Defined.

Definition COMMANDS : list (string * Command) :=
  [("ping", CmdPing); ("daemon", CmdDaemon); ("send", CmdSend); ("status", CmdStatus); ("pair", CmdPair);
   ("edit", CmdEdit); ("delete", CmdDelete); ("read", CmdRead); ("typing", CmdTyping); ("presence", CmdPresence);
   ("thread", CmdThread); ("attach", CmdAttach); ("attach-save", CmdAttachSave); ("profile", CmdProfile);
   ("policy", CmdPolicy); ("sticker", CmdSticker); ("close", CmdClose); ("lock", CmdLock); ("unlock", CmdUnlock);
   ("panic-wipe", CmdPanicWipe); ("sweep-expired", CmdSweepExpired); ("media-sniff", CmdMediaSniff);
   ("media-strip", CmdMediaStrip); ("media-prepare-sticker", CmdMediaPrepare)]%string.
Definition command_of (cmd : bytes) : option Command :=
  snd <$> List.find (λ kc, bool_decide (t kc.1 = cmd)) COMMANDS.

(** [schat_core::ping]. *)
Definition PING : bytes := t "pong".

(** The commands of one process. The daemon runs until it is stopped
    ([Daemon.v]) and is not one of them, [None] here. *)
Definition run_command (env : Env) (cmd : Command) (a : Args) : option (Proc Z) :=
  match cmd with
  | CmdPing => Some (println PING ;; pret 0)
  | CmdDaemon => None
  | CmdSend => Some (send_cmd env a)
  | CmdStatus => Some (status_cmd env a)
  | CmdPair => Some (pair_cmd env a)
  | CmdEdit => Some (edit_cmd env a)
  | CmdDelete => Some (delete_cmd env a)
  | CmdRead => Some (read_cmd env a)
  | CmdTyping => Some (typing_cmd env a)
  | CmdPresence => Some (presence_cmd env a)
  | CmdThread => Some (thread_cmd env a)
  | CmdAttach => Some (attach_cmd env a)
  | CmdAttachSave => Some (attach_save_cmd env a)
  | CmdProfile => Some (profile_cmd env a)
  | CmdPolicy => Some (policy_cmd env a)
  | CmdSticker => Some (sticker_cmd env a)
  | CmdClose => Some (close_cmd env a)
  | CmdLock => Some (lock_cmd env)
  | CmdUnlock => Some (unlock_cmd env a)
  | CmdPanicWipe => Some (wipe_cmd env)
  | CmdSweepExpired => Some (sweep_expired_cmd env)
  | CmdMediaSniff => Some (media_sniff_cmd env a)
  | CmdMediaStrip => Some (media_strip_cmd env a)
  | CmdMediaPrepare => Some (media_prepare_cmd env a)
  end.

(** The instance between processes: the vault's files and the database. *)
Record CliDir := mkCliDir { in_files : VaultFiles; in_store : option DbFile; in_disk : gmap bytes bytes }.

(** A process from its start to its exit: its code, its output, whether it
    left the transport up, and what it leaves on the disk. *)
Record Exit := mkExit { ex_code : Z; ex_out : list bytes; ex_up : bool; ex_instance : CliDir }.

Definition run_proc (host : @Host Net Rng) (p : Proc Z) (i : CliDir) : Exit :=
  let '(c, r) := p (mkCli (in_files i) (in_store i) None host false (in_disk i) []) in
  mkExit (match r with Ok code => code | Err s => stop_code s end) (cl_out c) (cl_up c)
    (mkCliDir (cl_files c) (stored c) (cl_disk c)).

(** [main]: [None] where the command line names the daemon. *)
Definition run_argv (env : Env) (host : @Host Net Rng) (argv : list bytes) (i : CliDir) : option Exit :=
  match parse_args argv with
  | Err _ => Some (run_proc host (exit 2) i)
  | Ok a =>
      match command_of (a_cmd a) with
      | None => Some (run_proc host (exit 2) i)
      | Some cmd => p ← run_command env cmd a; Some (run_proc host p i)
      end
  end.
End Cli.
