(* ===== verification/CliFacts.v ===== *)
(** What the one-shot commands guarantee ([cli/src/]): a small Hoare logic
    of processes, and with it that a locked instance is refused, that the
    other commands keep the store, and when the transport is left running. *)

From S2P Require Import Prelude Bin RustStr Args Limits Media Hex Payloads WirePolicy StickerDocs Envelope Frame PairingQr Policy RateLimit Ephemeral Ledger Settings Sync Session SignalStores EngineTypes Queue Wipe StickerPending StickerStore Attach Messages Caps Engine StickerEngine Sends Profiles Persona Pairing Burn Writes Inbound Runs PairingFacts EngineWf Vault FfiTypes Ffi FfiFacts OnionKeys TransportTypes FfiTransport Daemon CliOut Cli.

Section Facts.
Context {Net Rng : Type} `{crypto : !PairingCrypto Rng} `{hosting : !Hosting Net} {codecs : ImageCodecs}.
Context `{cipher : !SqlCipher} {raw : RawFile} `{transport : !CliTransport Net}.
Context (nfc : bytes → bytes).
Context (kill_switch online : Net → bool).
Context (sender_send : Net → string → bytes → Net * result TransportError unit).
Context (show_detail : Detail → bytes).

Local Abbreviation Engine := (@Engine SignalTables Net Rng).
Local Abbreviation M := (@M SignalTables Net Rng).
Local Abbreviation Cli := (@Cli Net Rng cipher).
Local Abbreviation Proc := (@Proc Net Rng cipher).
Local Abbreviation run_command := (run_command nfc kill_switch online sender_send show_detail).

(** ** Triples *)

(** From a state in [P], the process returns a value and a state in [Q], or
    stops in [X]. *)
Definition triple {A} (P : Cli → Prop) (m : Proc A) (Q : A → Cli → Prop) (X : Stop → Cli → Prop) : Prop :=
  ∀ c, P c → match m c with (c', Ok a) => Q a c' | (c', Err s) => X s c' end.

Lemma triple_ret {A} (a : A) P (Q : A → Cli → Prop) X : (∀ c, P c → Q a c) → triple P (pret a) Q X.
Proof. intros H c. apply H. Qed.
Lemma triple_stop {A} s P (Q : A → Cli → Prop) X : (∀ c, P c → X s c) → triple P (stop s) Q X.
Proof. intros H c. apply H. Qed.
Lemma triple_bind {A B} (m : Proc A) (k : A → Proc B) P Q R X :
  triple P m Q X → (∀ a, triple (Q a) (k a) R X) → triple P (pbind m k) R X.
Proof.
  intros Hm Hk c Hc. specialize (Hm c Hc). unfold pbind. destruct (m c) as [c1 [a|s]]; [by apply Hk|done].
Qed.
Lemma triple_conseq {A} (m : Proc A) (P P' : Cli → Prop) (Q Q' : A → Cli → Prop) (X X' : Stop → Cli → Prop) :
  triple P m Q X → (∀ c, P' c → P c) → (∀ a c, Q a c → Q' a c) → (∀ s c, X s c → X' s c) → triple P' m Q' X'.
Proof.
  intros Hm HP HQ HX c Hc. specialize (Hm c (HP c Hc)). destruct (m c) as [c1 [a|s]]; auto.
Qed.

(** The path a command writes to, if any, is not that of the instance's
    database, key file or marker. *)
Definition out_elsewhere (env : Env) (a : Args) : bool :=
  match env_place env <$> text_of ToOut a with Some (PlDisk _) | None => true | _ => false end.
Lemma out_place env a : out_elsewhere env a = true → ∀ out, text_of ToOut a = Some out → ∃ file, env_place env out = PlDisk file.
Proof. unfold out_elsewhere. intros H out E. rewrite E in H. cbn in H. destruct (env_place env out); naive_solver. Qed.

(** ** The lock marker *)

Section Shut.
Context (files : VaultFiles) (store : option DbFile) (env : Env).

(** No connection, and the files as they were with the marker among them. *)
Definition shut_at (c : Cli) : Prop :=
  cl_files c = files ∧ cl_store c = store ∧ cl_open c = None
  ∧ vf_marker files = true ∧ is_ok (try_fs (env_faults env) (FsMetadata MARKER_FILE)) = true.
(** The run leaves them alone; it returns only if it may, and never stops
    with code 0. *)
Definition shut_run (may : bool) {A} (m : Proc A) : Prop :=
  triple shut_at m (λ _ c, shut_at c ∧ may = true) (λ s c, shut_at c ∧ stop_code s ≠ 0).

Lemma shut_bind {A B} b (m : Proc A) (k : A → Proc B) :
  shut_run true m → (∀ a, shut_run b (k a)) → shut_run b (pbind m k).
Proof.
  intros Hm Hk. eapply triple_bind; [exact Hm|]. intros a. eapply triple_conseq; [apply Hk|by intros c []|done..].
Qed.
Lemma shut_first {A B} b (m : Proc A) (k : A → Proc B) : shut_run false m → shut_run b (pbind m k).
Proof.
  intros Hm c Hc. specialize (Hm c Hc). unfold pbind. destruct (m c) as [c1 [a|s]]; [by destruct Hm|done].
Qed.
Lemma shut_ret {A} (a : A) : shut_run true (pret a).
Proof. by intros c Hc. Qed.
Lemma shut_stop {A} b s : stop_code s ≠ 0 → shut_run b (stop s : Proc A).
Proof. by intros Hs c Hc. Qed.
Lemma shut_exit {A} b code : code ≠ 0 → shut_run b (exit code : Proc A).
Proof. intros H. by apply shut_stop. Qed.
Lemma shut_or_exit {E A} (r : result E A) : shut_run true (or_exit r : Proc A).
Proof. destruct r; [apply shut_ret|by apply shut_exit]. Qed.
Lemma shut_needed {A B} b (o : option A) msg (k : A → Proc B) :
  (∀ a, o = Some a → shut_run b (k a)) → shut_run b (pbind (needed o msg) k).
Proof. destruct o as [a|]; intros H c Hc; [by apply H|done]. Qed.
Lemma shut_needed_end {A} (o : option A) msg : shut_run true (needed o msg : Proc A).
Proof. destruct o; [apply shut_ret|by apply shut_exit]. Qed.
Lemma shut_of_usage {A} (r : result UsageError A) : shut_run true (of_usage r : Proc A).
Proof. destruct r as [a|[msg]]; [apply shut_ret|by apply shut_exit]. Qed.
Lemma shut_hex_id n s : shut_run true (hex_id n s : Proc bytes).
Proof. unfold hex_id. destruct (cli_hex_id n s); [apply shut_of_usage|by apply shut_stop]. Qed.
Lemma shut_println line : shut_run true (println line : Proc unit).
Proof. by intros c (? & ? & ? & ? & ?). Qed.
Lemma shut_print_all lines : shut_run true (print_all lines : Proc unit).
Proof. induction lines; [apply shut_ret|]. apply shut_bind; [apply shut_println|done]. Qed.
Lemma shut_fs_read path : shut_run true (fs_read env path : Proc bytes).
Proof. intros c Hc. unfold fs_read. destruct (try_fs _ _); [destruct (fs_content _ _ _)|]; done. Qed.
Lemma shut_fs_write path data :
  (∃ file, env_place env path = PlDisk file) → shut_run true (fs_write env path data : Proc unit).
Proof.
  intros [file Hf] c Hc. unfold fs_write, fs_set. rewrite Hf.
  destruct (fs_put _ _ _) as [[w|] [[]|x]]; cbn; (split; [|done]); done.
Qed.
Lemma shut_put_net net up c : shut_at c → shut_at (put_net net up c).
Proof. intros (? & ? & Ho & ? & ?). unfold put_net. rewrite Ho. done. Qed.
Lemma shut_stop_net : shut_run true (stop_net : Proc unit).
Proof. intros c Hc. split; [by apply shut_put_net|done]. Qed.
Lemma shut_on_engine {A} b (m : M A) : shut_run b (on_engine env m : Proc _).
Proof. intros c Hc. unfold on_engine. by rewrite (proj1 (proj2 (proj2 Hc))). Qed.
Lemma shut_open : triple shut_at (open_cli_db env : Proc _) (λ r c, shut_at c ∧ is_ok r = false) (λ _ _, False).
Proof.
  intros c Hc. unfold open_cli_db. destruct Hc as (Hf & Hs & Ho & Hm & Hse). rewrite marker_seen, Hf, Hm by done. done.
Qed.
Lemma shut_open_err {B} b (k : result CliError unit → Proc B) :
  (∀ x, shut_run b (k (Err x))) → shut_run b (pbind (open_cli_db env) k).
Proof.
  intros Hk c Hc. pose proof (shut_open c Hc) as H. unfold pbind. destruct (open_cli_db env c) as [c1 [r|s]]; [|done].
  destruct H as [H1 H2]. destruct r as [u|x]; [done|]. by apply Hk.
Qed.
Lemma shut_offline : shut_run false (offline_engine env : Proc unit).
Proof. apply shut_open_err. intros x. by apply shut_exit. Qed.
Lemma shut_wait : shut_run true (wait_online : Proc bool).
Proof.
  intros c Hc. unfold wait_online. destruct (net_wakes _) as [wakes late]. destruct (wait_loop _ _) as [net ok].
  split; [by apply shut_put_net|done].
Qed.
Lemma shut_bring_up a : shut_run true (bring_up env a : Proc _).
Proof.
  apply shut_bind; [|intros spec c Hc; destruct (transport_start _) as [net r]; by split; [apply shut_put_net|]].
  apply shut_bind; [destruct (text_of _ a); [apply shut_or_exit|apply shut_ret]|]. intros extra.
  destruct (env_free_ports env); [apply shut_ret|by apply shut_stop].
Qed.
Lemma shut_start a : shut_run false (start_engine_or_report env a : Proc unit).
Proof.
  unfold shut_run, start_engine_or_report, start_engine.
  eapply (triple_bind _ _ _ (λ r c, shut_at c ∧ is_ok r = false)).
  - eapply triple_bind; [apply shut_bring_up|]. intros [u|x]; [|by apply triple_ret; intros c []].
    eapply triple_bind; [eapply triple_conseq; [apply shut_wait|by intros c []|done..]|]. intros [|]; cbn [negb].
    + eapply triple_bind; [eapply triple_conseq; [apply shut_open|by intros c []|done|done]|].
      intros [u'|x]; [intros c [_ ?]; done|].
      eapply triple_bind; [eapply triple_conseq; [apply shut_stop_net|by intros c []|done..]|].
      intros ?. by apply triple_ret; intros c [].
    + eapply triple_bind; [eapply triple_conseq; [apply shut_stop_net|by intros c []|done..]|].
      intros ?. by apply triple_ret; intros c [].
  - intros [u|x]; [by intros c []|]. by intros c [? ?].
Qed.

Lemma shut_ask {A} b (f : Db → SignalTables → A) : shut_run b (ask env f : Proc A).
Proof. apply shut_first, shut_on_engine. Qed.
Lemma shut_call {A} b (m : M A) : shut_run b (call env m : Proc A).
Proof. apply shut_first, shut_on_engine. Qed.
Lemma shut_finish_cmd {A} b (m : M A) msg : shut_run b (send_and_finish env m msg : Proc Z).
Proof. apply shut_first, shut_on_engine. Qed.
Lemma shut_finish {E} (r : result E bytes) : shut_run true (finish r : Proc Z).
Proof.
  destruct r; cbn [finish]; repeat (apply shut_bind; [apply shut_println || apply shut_stop_net|intros _]); apply shut_ret.
Qed.
Lemma shut_on_off a msg : shut_run true (on_off a msg : Proc bool).
Proof. unfold on_off. destruct (switch_on _ a), (switch_on _ a); (apply shut_ret || by apply shut_exit). Qed.
Lemma shut_items kind i paths : shut_run true (sticker_items env kind i paths : Proc _).
Proof.
  revert i. induction paths as [|path paths IH]; intros i; [apply shut_ret|]. cbn [sticker_items].
  apply shut_bind; [apply shut_fs_read|intros bs]. apply shut_bind; [apply shut_or_exit|intros p].
  apply shut_bind; [apply IH|intros rest]. apply shut_ret.
Qed.
Lemma shut_frame dest record alert : shut_run true (send_frame_cmd kill_switch online sender_send dest record alert : Proc _).
Proof.
  intros c Hc. unfold send_frame_cmd. destruct (send_frame _ _ _ _ _ _ _) as [net r].
  split; [by apply shut_put_net|done].
Qed.
Lemma shut_follow : shut_run true (follow_status show_detail : Proc unit).
Proof.
  intros c Hc. unfold follow_status. pose proof (shut_print_all (status_line show_detail <$> cl_net c :: net_changes (cl_net c)) c Hc) as H.
  destruct (print_all _ c) as [c1 [[]|s]]; [|done]. destruct H as [H _]. split; [by apply shut_put_net|done].
Qed.
Lemma shut_lock : shut_run true (lock_cmd env : Proc Z).
Proof.
  intros c Hc. pose proof Hc as (Hf & Hs & Ho & Hm & Hse). unfold lock_cmd, cli_lock. rewrite marker_seen, Hf, Hm by done.
  destruct (try_fs _ (FsWrite _)); cbn; done.
Qed.
End Shut.

Ltac shut_walk :=
  repeat (cbv beta zeta; lazymatch goal with
  | |- shut_run _ _ _ _ (pbind (offline_engine _) _) => apply shut_first, shut_offline
  | |- shut_run _ _ _ _ (pbind (start_engine_or_report _ _) _) => apply shut_first, shut_start
  | |- shut_run _ _ _ _ (pbind (open_cli_db _) _) => apply shut_open_err; intros ?
  | |- shut_run _ _ _ _ (pbind (or_exit (Err _)) _) => by apply shut_first, shut_exit
  | |- shut_run _ _ _ _ (pbind (call _ _) _) => apply shut_first, shut_call
  | |- shut_run _ _ _ _ (pbind (ask _ _) _) => apply shut_first, shut_ask
  | |- shut_run _ _ _ _ (pbind (needed _ _) _) => apply shut_needed; intros ? ?
  | |- shut_run _ _ _ _ (pbind _ _) => apply shut_bind; [|intros ?]
  | |- shut_run _ _ _ _ (pret _) => apply shut_ret
  | |- shut_run _ _ _ _ (or_exit _) => apply shut_or_exit
  | |- shut_run _ _ _ _ (needed _ _) => apply shut_needed_end
  | |- shut_run _ _ _ _ (of_usage _) => apply shut_of_usage
  | |- shut_run _ _ _ _ (hex_id _ _) => apply shut_hex_id
  | |- shut_run _ _ _ _ (println _) => apply shut_println
  | |- shut_run _ _ _ _ (print_all _) => apply shut_print_all
  | |- shut_run _ _ _ _ (fs_read _ _) => apply shut_fs_read
  | |- shut_run _ _ _ _ (fs_write _ _ _) => apply shut_fs_write; auto
  | |- shut_run _ _ _ _ stop_net => apply shut_stop_net
  | |- shut_run _ _ _ _ wait_online => apply shut_wait
  | |- shut_run _ _ _ _ (bring_up _ _) => apply shut_bring_up
  | |- shut_run _ _ _ _ (send_and_finish _ _ _) => apply shut_finish_cmd
  | |- shut_run _ _ _ _ (finish _) => apply shut_finish
  | |- shut_run _ _ _ _ (on_off _ _) => apply shut_on_off
  | |- shut_run _ _ _ _ (sticker_items _ _ _ _) => apply shut_items
  | |- shut_run _ _ _ _ (send_frame_cmd _ _ _ _ _ _) => apply shut_frame
  | |- shut_run _ _ _ _ (follow_status _) => apply shut_follow
  | |- shut_run _ _ _ _ (usage_msg _) => by apply shut_exit
  | |- shut_run _ _ _ _ (exit _) => by apply shut_exit
  | |- shut_run _ _ _ _ (match ?x with _ => _ end) => destruct x eqn:?
  | |- shut_run _ _ _ _ (rel_arg _) => unfold rel_arg
  | |- shut_run _ _ _ _ (target_arg _) => unfold target_arg
  | |- shut_run _ _ _ _ (pack_arg _ _) => unfold pack_arg
  | |- shut_run _ _ _ _ (read_file _ _) => unfold read_file
  end).

(** The commands that work on the store. *)
Definition store_backed (cmd : Command) (a : Args) : bool :=
  match cmd with
  | CmdPing | CmdDaemon | CmdStatus | CmdLock | CmdUnlock | CmdPanicWipe | CmdMediaSniff | CmdMediaStrip
  | CmdMediaPrepare => false
  | CmdSend => bool_decide (is_Some (text_of ToRel a))
  | _ => true
  end.

Lemma command_shut files store env cmd a p :
  cmd ≠ CmdUnlock → cmd ≠ CmdPanicWipe → out_elsewhere env a = true → run_command env cmd a = Some p →
  shut_run files store env (negb (store_backed cmd a)) p.
Proof.
  intros Hu Hw Hout Hp. pose proof (out_place env a Hout) as Ho. destruct cmd; try done; apply (inj Some) in Hp; subst p; cbn [negb store_backed].
  - shut_walk.
  - unfold send_cmd. destruct (text_of ToRel a); cbn; shut_walk.
  - unfold status_cmd. shut_walk. intros c. apply shut_println.
  - unfold pair_cmd. shut_walk.
  - unfold edit_cmd. shut_walk.
  - unfold delete_cmd. shut_walk.
  - unfold read_cmd. shut_walk.
  - unfold typing_cmd. shut_walk.
  - unfold presence_cmd. shut_walk.
  - unfold thread_cmd. shut_walk.
  - unfold attach_cmd. shut_walk.
  - unfold attach_save_cmd. shut_walk.
  - unfold profile_cmd. shut_walk.
  - unfold policy_cmd. shut_walk.
  - unfold sticker_cmd, create_cmd. shut_walk.
  - unfold close_cmd. shut_walk.
  - apply shut_lock.
  - unfold sweep_expired_cmd. shut_walk.
  - unfold media_sniff_cmd. shut_walk.
  - unfold media_strip_cmd. shut_walk.
  - unfold media_prepare_cmd. shut_walk.
Qed.

(** C33: The lock marker is obeyed by every process that can read it. While
    [vault/locked] is there and its [stat] works, no one-shot command but
    [unlock] and [panic-wipe], whatever its arguments (with [--out], if given,
    naming none of the instance's files), the state of the network and the
    other faults of the file system, opens the store: the key file, the
    marker and the database file are left as they are, and a command that
    works on the store exits with an error. *)
Theorem marker_refuses_commands env host cmd a p i :
  vf_marker (in_files i) = true → is_ok (try_fs (env_faults env) (FsMetadata MARKER_FILE)) = true →
  cmd ≠ CmdUnlock → cmd ≠ CmdPanicWipe → out_elsewhere env a = true → run_command env cmd a = Some p →
  let x := run_proc host p i in
  in_files (ex_instance x) = in_files i ∧ in_store (ex_instance x) = in_store i
  ∧ (store_backed cmd a = true → ex_code x ≠ 0).
Proof.
  intros Hm Hse Hu Hw Hout Hp. unfold run_proc.
  set (c := mkCli (in_files i) (in_store i) None host false (in_disk i) []).
  pose proof (command_shut (in_files i) (in_store i) env cmd a p Hu Hw Hout Hp c) as H.
  destruct (p c) as [c1 [code|s]]; cbn; destruct H as [(Hf & Hs & Ho & _) Hc]; try done; unfold stored; rewrite Ho.
  - split_and!; [done..|]. intros Hb. by rewrite Hb in Hc.
  - by split_and!.
Qed.

(** ** The transport *)

(** From a transport up or down to one up or down; a process that stops with
    the transport up printed the usage or panicked. *)
Definition cut_short (s : Stop) : Prop := s = StExit 2 ∨ s = StPanic.
Definition up_run (pre post : bool) {A} (m : Proc A) : Prop :=
  triple (λ c, cl_up c = pre) m (λ _ c, cl_up c = post) (λ s c, cl_up c = true → cut_short s).
(** What leaves the transport alone. *)
Definition keeps_up {A} (m : Proc A) : Prop := ∀ c, cl_up (m c).1 = cl_up c.
Definition cut_only {A} (m : Proc A) : Prop := ∀ c s, (m c).2 = Err s → cut_short s.

Lemma up_bind {A B} pre mid post (m : Proc A) (k : A → Proc B) :
  up_run pre mid m → (∀ a, up_run mid post (k a)) → up_run pre post (pbind m k).
Proof. apply triple_bind. Qed.
Lemma up_down {A} (m : Proc A) : keeps_up m → up_run false false m.
Proof. intros Hm c Hc. specialize (Hm c). destruct (m c) as [c1 [a|s]]; cbn in *; congruence. Qed.
Lemma up_quiet {A} b (m : Proc A) : keeps_up m → cut_only m → up_run b b m.
Proof.
  intros Hm Hs c Hc. specialize (Hm c). specialize (Hs c).
  destruct (m c) as [c1 [a|s]]; cbn in *; [congruence|intros _; by apply Hs].
Qed.

Lemma keeps_up_bind {A B} (m : Proc A) (k : A → Proc B) :
  keeps_up m → (∀ a, keeps_up (k a)) → keeps_up (pbind m k).
Proof.
  intros Hm Hk c. specialize (Hm c). unfold pbind. destruct (m c) as [c1 [a|s]]; cbn in *; [|done]. by rewrite Hk.
Qed.
Lemma cut_only_bind {A B} (m : Proc A) (k : A → Proc B) :
  cut_only m → (∀ a, cut_only (k a)) → cut_only (pbind m k).
Proof.
  intros Hm Hk c s. specialize (Hm c). unfold pbind. destruct (m c) as [c1 [a|s1]]; cbn in *; [by apply Hk|intros [= <-]; by apply Hm].
Qed.

Lemma keeps_up_engine {A} env (m : M A) : keeps_up (on_engine env m : Proc _).
Proof. intros c. unfold on_engine. destruct (cl_open c) as [[key e]|]; [|done]. by destruct (m _). Qed.
Lemma cut_only_engine {A} env (m : M A) : cut_only (on_engine env m : Proc _).
Proof.
  intros c s. unfold on_engine. destruct (cl_open c) as [[key e]|]; [by destruct (m _)|]. intros [= <-]. by right.
Qed.
Lemma put_net_up net up (c : Cli) : cl_up (put_net net up c) = up.
Proof. unfold put_net. by destruct (cl_open c) as [[key e]|]. Qed.
Lemma keeps_up_wait : keeps_up (wait_online : Proc bool).
Proof.
  intros c. unfold wait_online. destruct (net_wakes _) as [wakes late]. destruct (wait_loop _ _). apply put_net_up.
Qed.
Lemma keeps_up_print_all lines : keeps_up (print_all lines : Proc unit).
Proof. induction lines; [done|]. by apply keeps_up_bind. Qed.
Lemma keeps_up_open env : keeps_up (open_cli_db env : Proc _).
Proof.
  intros c. unfold open_cli_db. destruct (marker_exists _ _); [done|]. destruct (load_or_generate_dek _ _ _) as [f [dek|d]]; [|done].
  by destruct (open_store_with_dek _ _ _) as [file [tb|x]].
Qed.
Lemma keeps_up_write env path data : keeps_up (fs_write env path data : Proc unit).
Proof. intros c. unfold fs_write, fs_set. destruct (fs_put _ _ _) as [[w|] res]; [|done]. by destruct (env_place env path). Qed.
Lemma keeps_up_wipe env : keeps_up (wipe_cmd env : Proc Z).
Proof. intros c. unfold wipe_cmd. by destruct (panic_wipe_cmd _ _ _) as [[tree line] code]. Qed.
Lemma keeps_up_items env kind i paths : keeps_up (sticker_items env kind i paths : Proc _).
Proof.
  revert i. induction paths as [|path paths IH]; intros i; [done|]. cbn [sticker_items].
  apply keeps_up_bind; [intros c; unfold fs_read; by repeat case_match|intros bs].
  apply keeps_up_bind; [by destruct (prepare_sticker bs kind)|intros p]. by apply keeps_up_bind.
Qed.

Lemma up_stop_net b : up_run b false (stop_net : Proc unit).
Proof. intros c _. apply put_net_up. Qed.
Lemma up_finish {E} (r : result E bytes) : up_run true false (finish r : Proc Z).
Proof.
  destruct r; cbn [finish].
  - apply (up_bind _ true); [by apply up_quiet|intros _]. apply (up_bind _ false); [apply up_stop_net|by intros _ c Hc].
  - apply (up_bind _ false); [apply up_stop_net|by intros _ c Hc].
Qed.
Lemma up_send_finish {A} env (m : M A) msg : up_run true false (send_and_finish env m msg : Proc Z).
Proof.
  apply (up_bind _ true); [apply up_quiet; [apply keeps_up_engine|apply cut_only_engine]|]. intros r. apply up_finish.
Qed.
Lemma up_bring env a : triple (λ c, cl_up c = false) (bring_up env a : Proc _) (λ r c, cl_up c = is_ok r)
  (λ s c, cl_up c = true → cut_short s).
Proof.
  apply (triple_bind _ _ _ (λ _ c, cl_up c = false)).
  - apply up_down. apply keeps_up_bind; [destruct (text_of _ a); [by destruct (chutney_extra_torrc_lines _)|done]|].
    intros extra. by destruct (env_free_ports env).
  - intros spec c Hc. destruct (transport_start _) as [net r]. apply put_net_up.
Qed.
Lemma up_bring_exit {B} env a (k : unit → Proc B) post :
  (∀ u, up_run true post (k u)) → up_run false post (pbind (bring_up env a) (λ r, pbind (or_exit r) k)).
Proof.
  intros Hk. eapply triple_bind; [apply up_bring|]. intros [u|x]; cbn [is_ok].
  - apply (up_bind _ true); [by apply up_quiet|done].
  - intros c Hc. cbn. by rewrite Hc.
Qed.
Lemma up_wait b : up_run b b (wait_online : Proc bool).
Proof. apply up_quiet; [apply keeps_up_wait|]. intros c s. unfold wait_online. by repeat case_match. Qed.
Lemma up_open b env : up_run b b (open_cli_db env : Proc _).
Proof. apply up_quiet; [apply keeps_up_open|]. intros c s. unfold open_cli_db. by repeat case_match. Qed.
Lemma up_ask {A} b env (f : Db → SignalTables → A) : up_run b b (ask env f : Proc A).
Proof.
  intros c Hc. unfold ask, pbind, on_engine. destruct (cl_open c) as [[key e]|]; [done|]. intros _. by right.
Qed.
Lemma up_frame b dest record alert :
  up_run b b (send_frame_cmd kill_switch online sender_send dest record alert : Proc _).
Proof.
  intros c Hc. unfold send_frame_cmd. destruct (send_frame _ _ _ _ _ _ _) as [net r]. by rewrite put_net_up.
Qed.
Lemma up_follow b : up_run b b (follow_status show_detail : Proc unit).
Proof.
  intros c Hc. unfold follow_status. pose proof (keeps_up_print_all (status_line show_detail <$> cl_net c :: net_changes (cl_net c)) c) as Hk.
  assert (Hs : ∀ lines (c : Cli), is_ok (print_all lines c).2 = true) by (induction lines as [|l ls IH]; intros c'; [done|apply IH]).
  specialize (Hs (status_line show_detail <$> cl_net c :: net_changes (cl_net c)) c).
  destruct (print_all _ c) as [c1 [[]|s]]; [|done]. cbn in Hk. by rewrite put_net_up, Hk.
Qed.

Lemma up_start env a : up_run false true (start_engine_or_report env a : Proc unit).
Proof.
  unfold up_run, start_engine_or_report, start_engine. apply (triple_bind _ _ _ (λ r c, cl_up c = is_ok r)).
  - eapply triple_bind; [apply up_bring|]. intros [u|x]; cbn [is_ok]; [|by intros c Hc].
    apply (triple_bind _ _ _ (λ _ c, cl_up c = true)); [apply up_wait|].
    intros ok. destruct (negb ok); [by apply (triple_bind _ _ _ (λ _ c, cl_up c = false)); [apply up_stop_net|intros _ c Hc]|].
    apply (triple_bind _ _ _ (λ _ c, cl_up c = true)).
    + apply up_open.
    + intros [u'|x]; [by intros c Hc|]. apply (triple_bind _ _ _ (λ _ c, cl_up c = false)); [apply up_stop_net|by intros _ c Hc].
  - intros [u|x]; cbn [is_ok or_exit]; [by intros c Hc|]. intros c Hc. cbn. by rewrite Hc.
Qed.

Ltac keeps_walk :=
  repeat (cbv beta zeta; lazymatch goal with
  | |- keeps_up (pbind _ _) => apply keeps_up_bind; [|intros ?]
  | |- keeps_up (on_engine _ _) => apply keeps_up_engine
  | |- keeps_up (ask _ _) => unfold ask
  | |- keeps_up (call _ _) => unfold call
  | |- keeps_up (write_db _ _) => unfold write_db
  | |- keeps_up (print_all _) => apply keeps_up_print_all
  | |- keeps_up (print_accepted _) => unfold print_accepted
  | |- keeps_up (offline_engine _) => unfold offline_engine
  | |- keeps_up (open_cli_db _) => apply keeps_up_open
  | |- keeps_up (sticker_items _ _ _ _) => apply keeps_up_items
  | |- keeps_up (create_cmd _ _) => unfold create_cmd
  | |- keeps_up (pack_arg _ _) => unfold pack_arg
  | |- keeps_up (rel_arg _) => unfold rel_arg
  | |- keeps_up (read_file _ _) => unfold read_file
  | |- keeps_up (hex_id _ _) => unfold hex_id
  | |- keeps_up (needed ?o _) => destruct o; cbn [needed]
  | |- keeps_up (of_usage ?r) => destruct r as [?|[?]]; cbn [of_usage]
  | |- keeps_up (or_exit ?r) => destruct r; cbn [or_exit]
  | |- keeps_up (fs_read _ _) => intros ?; unfold fs_read; by repeat case_match
  | |- keeps_up (fs_write _ _ _) => apply keeps_up_write
  | |- keeps_up (match ?x with _ => _ end) => destruct x
  | |- keeps_up (pret _) => intros ?; reflexivity
  | |- keeps_up (println _) => intros ?; reflexivity
  | |- keeps_up (exit _) => intros ?; reflexivity
  | |- keeps_up (usage_msg _) => intros ?; reflexivity
  | |- keeps_up (stop _) => intros ?; reflexivity
  end).
Ltac quiet_walk :=
  repeat (cbv beta zeta; lazymatch goal with
  | |- up_run false _ (pbind (bring_up _ _) (λ r, pbind (or_exit r) _)) => apply up_bring_exit; intros ?
  | |- up_run false _ (pbind (start_engine_or_report _ _) _) => eapply up_bind; [apply up_start|intros ?]
  | |- up_run true _ (pbind stop_net _) => eapply up_bind; [apply up_stop_net|intros ?]
  | |- up_run true _ (send_and_finish _ _ _) => apply up_send_finish
  | |- up_run true _ (finish _) => apply up_finish
  | |- up_run ?b _ (pbind _ _) => apply (up_bind _ b); [|intros ?]
  | |- up_run false _ (match ?x with _ => _ end) => destruct x
  | |- up_run true _ (match ?x with _ => _ end) => destruct x
  | |- up_run true _ (needed ?o _) => destruct o; cbn [needed]
  | |- up_run true _ (of_usage ?r) => destruct r as [?|[?]]; cbn [of_usage]
  | |- up_run true _ (rel_arg _) => unfold rel_arg
  | |- up_run true _ (target_arg _) => unfold target_arg
  | |- up_run true _ (pack_arg _ _) => unfold pack_arg
  | |- up_run true _ (hex_id _ _) => unfold hex_id
  | |- up_run true _ (usage_msg _) => intros ? ? ?; by left
  | |- up_run true _ (stop StPanic) => intros ? ? ?; by right
  | |- up_run true _ (pret _) => by intros ? ?
  | |- up_run true _ (println _) => by intros ? ?
  | |- up_run true _ wait_online => apply up_wait
  | |- up_run true _ (open_cli_db _) => apply up_open
  | |- up_run true _ (ask _ _) => apply up_ask
  | |- up_run true _ (send_frame_cmd _ _ _ _ _ _) => apply up_frame
  | |- up_run true _ (follow_status _) => apply up_follow
  | |- up_run true _ (on_off _ _) => unfold on_off
  | |- up_run false _ _ => apply up_down; keeps_walk
  end).

Lemma command_up env cmd a p : run_command env cmd a = Some p → up_run false false p.
Proof.
  intros Hp. destruct cmd; try done; apply (inj Some) in Hp; subst p.
  - quiet_walk.
  - unfold send_cmd. quiet_walk.
  - unfold status_cmd. quiet_walk. by intros c Hc.
  - unfold pair_cmd. quiet_walk.
  - unfold edit_cmd. quiet_walk.
  - unfold delete_cmd. quiet_walk.
  - unfold read_cmd. quiet_walk.
  - unfold typing_cmd, on_off. quiet_walk.
  - unfold presence_cmd, on_off. quiet_walk.
  - unfold thread_cmd. quiet_walk.
  - unfold attach_cmd. quiet_walk.
  - unfold attach_save_cmd. quiet_walk.
  - unfold profile_cmd. quiet_walk.
  - unfold policy_cmd. quiet_walk.
  - unfold sticker_cmd, create_cmd. quiet_walk.
  - unfold close_cmd. quiet_walk.
  - apply up_down. intros c. unfold lock_cmd. destruct (cli_lock _ _) as [f code]. cbn. by destruct (code =? 0).
  - apply up_down. intros c. unfold unlock_cmd. destruct (cli_unlock _ _ _ _) as [f code]. cbn. by destruct (code =? 0).
  - apply up_down, keeps_up_wipe.
  - unfold sweep_expired_cmd. quiet_walk.
  - unfold media_sniff_cmd. quiet_walk.
  - unfold media_strip_cmd. quiet_walk.
  - unfold media_prepare_cmd. quiet_walk.
Qed.

(** Every command takes the transport down again: a process that exits
    with it still running either printed the usage (code 2), because the
    arguments it needs are looked at only once the transport is up, or
    panicked on an identifier (code 101). *)
Theorem transport_taken_down env host cmd a p i :
  run_command env cmd a = Some p →
  let x := run_proc host p i in ex_up x = true → ex_code x = 2 ∨ ex_code x = 101.
Proof.
  intros Hp. unfold run_proc. pose proof (command_up env cmd a p Hp (mkCli (in_files i) (in_store i) None host false (in_disk i) []) eq_refl) as H.
  destruct (p _) as [c1 [code|s]]; cbn; [congruence|]. intros Hu. destruct (H Hu) as [->| ->]; auto.
Qed.

(** ** The store *)

Section Sealed.
Context {cipher_laws : SqlCipherLaws}.
Context (key : bytes).

(** The instance's key opens a well-formed store; so does the connection. *)
Definition cli_wf (c : Cli) : Prop :=
  vf_dek (cl_files c) = Some key
  ∧ (∃ tb, cl_store c = Some (keyed_file key SCHEMA_VERSION tb) ∧ store_wf tb.1)
  ∧ match cl_open c with Some (k, e) => k = key ∧ engine_wf e | None => True end.
Definition keeps_wf {A} (m : Proc A) : Prop := ∀ c, cli_wf c → cli_wf (m c).1.

Lemma proc_wf_bind {A B} (m : Proc A) (k : A → Proc B) : keeps_wf m → (∀ a, keeps_wf (k a)) → keeps_wf (pbind m k).
Proof.
  intros Hm Hk c Hc. specialize (Hm c Hc). unfold pbind. destruct (m c) as [c1 [a|s]]; [by apply Hk|done].
Qed.
Lemma wf_ret {A} (a : A) : keeps_wf (pret a).
Proof. by intros c. Qed.
Lemma wf_stop {A} s : keeps_wf (stop s : Proc A).
Proof. by intros c. Qed.
Lemma wf_or_exit {E A} (r : result E A) : keeps_wf (or_exit r : Proc A).
Proof. destruct r; by intros c. Qed.
Lemma wf_exit_bind {E A B} (r : result E A) (k : A → Proc B) :
  (∀ a, r = Ok a → keeps_wf (k a)) → keeps_wf (pbind (or_exit r) k).
Proof. intros Hk. destruct r as [a|x]; [by intros c; apply Hk|by intros c]. Qed.
Lemma wf_needed {A} (o : option A) msg : keeps_wf (needed o msg : Proc A).
Proof. destruct o; by intros c. Qed.
Lemma wf_of_usage {A} (r : result UsageError A) : keeps_wf (of_usage r : Proc A).
Proof. destruct r as [a|[msg]]; by intros c. Qed.
Lemma wf_hex_id n s : keeps_wf (hex_id n s : Proc bytes).
Proof. unfold hex_id. destruct (cli_hex_id n s); [apply wf_of_usage|apply wf_stop]. Qed.
Lemma wf_println line : keeps_wf (println line : Proc unit).
Proof. by intros c. Qed.
Lemma wf_print_all lines : keeps_wf (print_all lines : Proc unit).
Proof. induction lines; [apply wf_ret|]. apply proc_wf_bind; [apply wf_println|done]. Qed.
Lemma wf_fs_read env path : keeps_wf (fs_read env path : Proc bytes).
Proof. intros c Hc. unfold fs_read. by repeat case_match. Qed.
Lemma wf_needed_bind {A B} (o : option A) msg (k : A → Proc B) :
  (∀ a, o = Some a → keeps_wf (k a)) → keeps_wf (pbind (needed o msg) k).
Proof. destruct o as [a|]; intros H c Hc; [by apply H|done]. Qed.
Lemma wf_fs_write env path data :
  (∃ file, env_place env path = PlDisk file) → keeps_wf (fs_write env path data : Proc unit).
Proof.
  intros [file Hf] c Hc. unfold fs_write, fs_set. rewrite Hf. by destruct (fs_put _ _ _) as [[w|] [[]|x]].
Qed.
Lemma wf_put_net net up c : cli_wf c → cli_wf (put_net net up c).
Proof.
  intros (Hd & Hs & Ho). unfold put_net. destruct (cl_open c) as [[k e]|]; [|done].
  split; [done|]. split; [done|]. by destruct Ho as [-> []].
Qed.
Lemma wf_stop_net : keeps_wf (stop_net : Proc unit).
Proof. intros c. apply wf_put_net. Qed.
Lemma wf_wait : keeps_wf (wait_online : Proc bool).
Proof.
  intros c Hc. unfold wait_online. destruct (net_wakes _). destruct (wait_loop _ _). by apply wf_put_net.
Qed.
Lemma wf_engine {A} env (m : M A) : (∀ e, engine_wf e → engine_wf (m e).1) → keeps_wf (on_engine env m : Proc _).
Proof.
  intros Hm c (Hd & Hs & Ho). unfold on_engine. destruct (cl_open c) as [[k e]|] eqn:E; [|by cbn [fst]; unfold cli_wf; rewrite E].
  destruct Ho as [-> Hw]. specialize (Hm _ (at_time_wf (env_now env) e Hw)). by destruct (m _).
Qed.
Lemma wf_call {A} env (m : M A) : (∀ e, engine_wf e → engine_wf (m e).1) → keeps_wf (call env m : Proc A).
Proof. intros H. apply proc_wf_bind; [by apply wf_engine|]. intros r. apply wf_or_exit. Qed.
Lemma wf_finish {E} (r : result E bytes) : keeps_wf (finish r : Proc Z).
Proof. destruct r; cbn [finish]; repeat (apply proc_wf_bind; [apply wf_println || apply wf_stop_net|intros _]); apply wf_ret. Qed.
Lemma wf_send {A} env (m : M A) msg : (∀ e, engine_wf e → engine_wf (m e).1) → keeps_wf (send_and_finish env m msg : Proc Z).
Proof. intros H. apply proc_wf_bind; [by apply wf_engine|]. intros r. apply wf_finish. Qed.
(** What is answered is an answer of a well-formed store. *)
Lemma wf_ask {A B} env (f : Db → SignalTables → A) (k : A → Proc B) :
  (∀ db sig, store_wf db → keeps_wf (k (f db sig))) → keeps_wf (pbind (ask env f) k).
Proof.
  intros Hk c Hc. pose proof Hc as (Hd & Hs & Ho). unfold pbind at 1, ask, pbind, on_engine.
  destruct (cl_open c) as [[k0 e]|] eqn:E; [|done]. destruct Ho as [-> Hw]. pose proof (at_time_wf (env_now env) e Hw) as Ha.
  cbn. by apply Hk; [apply Ha|].
Qed.
Lemma wf_write_db env db : store_wf db → keeps_wf (write_db env db : Proc unit).
Proof.
  intros H. apply proc_wf_bind; [|intros r; apply wf_ret]. apply wf_engine. by intros e [_ Hb].
Qed.
Lemma wf_open env : keeps_wf (open_cli_db env : Proc _).
Proof.
  intros c (Hd & (tb & Hs & Hw) & Ho). unfold open_cli_db. destruct (marker_exists _ _); [by split; [|split; [eauto|]]|].
  pose proof (load_dek_kept (env_faults env) (env_fresh env) (cl_files c) key Hd) as Hf.
  destruct (load_or_generate_dek _ _ _) as [f [dek|d]] eqn:El; cbn in Hf; subst f; [|by split; [|split; [eauto|]]].
  rewrite Hs. destruct (open_sealed_any (env_faults env) key tb dek) as ([t'|x] & -> & Hr).
  - destruct (Hr t' eq_refl) as [-> ->]. split; [done|]. split; [by eauto|]. split; [done|].
    by split; [|exact buffers_wf_new].
  - split; [done|]. split; [by eauto|done].
Qed.
Lemma wf_bring_up env a : keeps_wf (bring_up env a : Proc _).
Proof.
  apply proc_wf_bind; [|intros spec c Hc; destruct (transport_start _); by apply wf_put_net].
  apply proc_wf_bind; [destruct (text_of _ a); [apply wf_or_exit|apply wf_ret]|]. intros extra.
  destruct (env_free_ports env); [apply wf_ret|apply wf_stop].
Qed.
Lemma wf_offline env : keeps_wf (offline_engine env : Proc unit).
Proof. apply proc_wf_bind; [apply wf_open|]. intros r. apply wf_or_exit. Qed.
Lemma wf_start env a : keeps_wf (start_engine_or_report env a : Proc unit).
Proof.
  apply proc_wf_bind; [|intros r; apply wf_or_exit]. apply proc_wf_bind; [apply wf_bring_up|]. intros [u|x]; [|apply wf_ret].
  apply proc_wf_bind; [apply wf_wait|]. intros ok. destruct (negb ok).
  { apply proc_wf_bind; [apply wf_stop_net|intros _; apply wf_ret]. }
  apply proc_wf_bind; [apply wf_open|]. intros [u'|x]; [apply wf_ret|].
  apply proc_wf_bind; [apply wf_stop_net|intros _; apply wf_ret].
Qed.
Lemma wf_items env kind i paths : keeps_wf (sticker_items env kind i paths : Proc _).
Proof.
  revert i. induction paths as [|path paths IH]; intros i; [apply wf_ret|]. cbn [sticker_items].
  apply proc_wf_bind; [apply wf_fs_read|intros bs]. apply proc_wf_bind; [apply wf_or_exit|intros p].
  apply proc_wf_bind; [apply IH|intros rest]. apply wf_ret.
Qed.
Lemma wf_frame dest record alert : keeps_wf (send_frame_cmd kill_switch online sender_send dest record alert : Proc _).
Proof. intros c Hc. unfold send_frame_cmd. destruct (send_frame _ _ _ _ _ _ _). by apply wf_put_net. Qed.
Lemma wf_follow : keeps_wf (follow_status show_detail : Proc unit).
Proof.
  intros c Hc. unfold follow_status.
  pose proof (wf_print_all (status_line show_detail <$> cl_net c :: net_changes (cl_net c)) c Hc) as H.
  destruct (print_all _ c) as [c1 [[]|s]]; [|done]. by apply wf_put_net.
Qed.
Lemma wf_put_files files : vf_dek files = Some key → keeps_wf (put_files files : Proc unit).
Proof. by intros H c (_ & Hs & Ho). Qed.
Lemma wf_lock env : keeps_wf (lock_cmd env : Proc Z).
Proof.
  intros c Hc. unfold lock_cmd. destruct (cli_lock _ _) as [f code] eqn:E.
  assert (Hf : vf_dek f = Some key).
  { destruct Hc as [Hd _]. revert E. unfold cli_lock. repeat case_match; by intros [= <- _]. }
  apply proc_wf_bind; [by apply wf_put_files|intros _|done].
  apply proc_wf_bind; [destruct (code =? 0); [apply wf_println|apply wf_ret]|intros _; apply wf_ret].
Qed.
Lemma wf_unlock env a : text_of ToDekFile a = None → keeps_wf (unlock_cmd env a : Proc Z).
Proof.
  intros Hn c Hc. unfold unlock_cmd. rewrite Hn. cbn [fmap option_fmap option_map].
  destruct (cli_unlock _ _ _ _) as [f code] eqn:E.
  assert (Hf : vf_dek f = Some key).
  { destruct Hc as [Hd _]. revert E. unfold cli_unlock, install_dek.
    pose proof (load_dek_kept (env_faults env) (env_fresh env) (cl_files c) key Hd) as Hk.
    destruct (load_or_generate_dek _ _ _) as [f1 r]. cbn in Hk. subst f1. repeat case_match; by intros [= <- _]. }
  apply proc_wf_bind; [by apply wf_put_files|intros _|done].
  apply proc_wf_bind; [destruct (code =? 0); [apply wf_println|apply wf_ret]|intros _; apply wf_ret].
Qed.
Lemma presence_beats_wf rels a b sent e :
  engine_wf e → engine_wf (presence_beats nfc kill_switch online sender_send rels a b sent e).1.
Proof.
  revert sent e. induction rels as [|r rels IH]; intros sent e He; cbn [presence_beats]; [done|].
  unfold mbind. pose proof (runs_send_presence nfc message_encrypt kill_switch online sender_send (λ g : Rng, fill_bytes g 16) fill_bytes
    rng_next r a b e) as Hr.
  apply evolves_wf in Hr; [|done]. destruct (send_presence _ _ _ _ _ _ _ _ _ _ _ e) as [e1 [u|x]]; [by apply IH|done].
Qed.

Ltac wf_walk :=
  repeat (cbv beta zeta; lazymatch goal with
  | |- keeps_wf (pbind (ask _ _) _) => apply wf_ask; intros ? ? ?
  | |- keeps_wf (pbind (or_exit _) _) => apply wf_exit_bind; intros ? ?
  | |- keeps_wf (pbind (needed _ _) _) => apply wf_needed_bind; intros ? ?
  | |- keeps_wf (pbind _ _) => apply proc_wf_bind; [|intros ?]
  | |- keeps_wf (pret _) => apply wf_ret
  | |- keeps_wf (stop _) => apply wf_stop
  | |- keeps_wf (exit _) => apply wf_stop
  | |- keeps_wf (usage_msg _) => apply wf_stop
  | |- keeps_wf (or_exit _) => apply wf_or_exit
  | |- keeps_wf (needed _ _) => apply wf_needed
  | |- keeps_wf (of_usage _) => apply wf_of_usage
  | |- keeps_wf (hex_id _ _) => apply wf_hex_id
  | |- keeps_wf (println _) => apply wf_println
  | |- keeps_wf (print_all _) => apply wf_print_all
  | |- keeps_wf (print_accepted _) => unfold print_accepted
  | |- keeps_wf (fs_read _ _) => apply wf_fs_read
  | |- keeps_wf (fs_write _ _ _) => apply wf_fs_write; auto
  | |- keeps_wf stop_net => apply wf_stop_net
  | |- keeps_wf wait_online => apply wf_wait
  | |- keeps_wf (bring_up _ _) => apply wf_bring_up
  | |- keeps_wf (open_cli_db _) => apply wf_open
  | |- keeps_wf (offline_engine _) => apply wf_offline
  | |- keeps_wf (start_engine_or_report _ _) => apply wf_start
  | |- keeps_wf (send_and_finish _ _ _) => apply wf_send
  | |- keeps_wf (finish _) => apply wf_finish
  | |- keeps_wf (call _ _) => apply wf_call
  | |- keeps_wf (sticker_items _ _ _ _) => apply wf_items
  | |- keeps_wf (send_frame_cmd _ _ _ _ _ _) => apply wf_frame
  | |- keeps_wf (follow_status _) => apply wf_follow
  | |- keeps_wf (match ?x with _ => _ end) => destruct x eqn:?
  | |- keeps_wf (rel_arg _) => unfold rel_arg
  | |- keeps_wf (target_arg _) => unfold target_arg
  | |- keeps_wf (pack_arg _ _) => unfold pack_arg
  | |- keeps_wf (read_file _ _) => unfold read_file
  | |- keeps_wf (on_off _ _) => unfold on_off
  end).
(** A method of the engine that keeps it well formed. *)
Ltac engine_keeps H := intros ?; apply evolves_wf, H.

Lemma command_wf env cmd a p :
  (cmd = CmdUnlock → text_of ToDekFile a = None) → cmd ≠ CmdPanicWipe → out_elsewhere env a = true →
  run_command env cmd a = Some p → keeps_wf p.
Proof.
  intros Hk Hw Hout Hp. pose proof (out_place env a Hout) as Ho. destruct cmd; try done; apply (inj Some) in Hp; subst p.
  - wf_walk.
  - unfold send_cmd. wf_walk. engine_keeps @runs_send_text.
  - unfold status_cmd. wf_walk. intros c. apply wf_println.
  - unfold pair_cmd. wf_walk.
    + engine_keeps @runs_offer.
    + engine_keeps @runs_accept.
    + engine_keeps @runs_accept_code.
    + engine_keeps @runs_engine_accept.
    + engine_keeps @runs_clear_pending.
  - unfold edit_cmd. wf_walk. engine_keeps @runs_send_edit.
  - unfold delete_cmd. wf_walk. engine_keeps @runs_send_delete.
  - unfold read_cmd. wf_walk. engine_keeps @runs_send_read.
  - unfold typing_cmd. wf_walk. engine_keeps @runs_send_typing.
  - unfold presence_cmd. wf_walk. intros e. apply presence_beats_wf.
  - unfold thread_cmd. wf_walk.
  - unfold attach_cmd. wf_walk. engine_keeps @runs_send_attachment.
  - unfold attach_save_cmd. wf_walk.
  - unfold profile_cmd. wf_walk.
    + apply wf_write_db. by eapply profile_set_wf.
    + engine_keeps @runs_broadcast_profile.
    + engine_keeps @runs_send_profile_req.
  - unfold policy_cmd. wf_walk.
    + engine_keeps @runs_propose_rules.
    + engine_keeps @runs_accept_rules.
    + engine_keeps @runs_decline_rules.
    + engine_keeps @runs_set_capability.
  - unfold sticker_cmd, create_cmd. wf_walk.
    + intros e. apply engine_create_wf.
    + apply wf_write_db. by apply remove_pack_store_wf.
    + engine_keeps @runs_send_sticker.
    + engine_keeps @runs_fetch_pack.
  - unfold close_cmd. wf_walk. engine_keeps @runs_close_contact.
  - apply wf_lock.
  - apply wf_unlock. by apply Hk.
  - unfold sweep_expired_cmd. wf_walk; [engine_keeps @runs_sweep_offer|apply sweep_wf].
  - unfold media_sniff_cmd. wf_walk.
  - unfold media_strip_cmd. wf_walk.
  - unfold media_prepare_cmd. wf_walk.
Qed.

(** The instance on the disk: the key file holds the key of the database,
    and what is sealed under it is well formed. *)
Definition sealed_dir (i : CliDir) : Prop :=
  vf_dek (in_files i) = Some key
  ∧ ∃ tb, in_store i = Some (keyed_file key SCHEMA_VERSION tb) ∧ store_wf tb.1.

Lemma run_proc_sealed host (p : Proc Z) i : keeps_wf p → sealed_dir i → sealed_dir (ex_instance (run_proc host p i)).
Proof.
  intros Hp [Hd Hs]. unfold run_proc. specialize (Hp (mkCli (in_files i) (in_store i) None host false (in_disk i) [])).
  destruct (p _) as [c r]. cbn in Hp |- *. destruct Hp as (Hd' & Hs' & Ho); [by split; [|split]|].
  split; [done|]. unfold stored. cbn. destruct (cl_open c) as [[k e]|]; [|done]. destruct Ho as [-> [Hw _]]. by eauto.
Qed.
End Sealed.

(** Processes one after the other, each with what it finds outside and its
    command line. Nothing comes after a daemon, which runs on. *)
Record Invocation := mkInvocation { iv_env : Env; iv_host : @Host Net Rng; iv_argv : list bytes }.
Fixpoint invoke_all (i : CliDir) (vs : list Invocation) : option CliDir :=
  match vs with
  | [] => Some i
  | v :: vs =>
      match run_argv nfc kill_switch online sender_send show_detail (iv_env v) (iv_host v) (iv_argv v) i with
      | Some x => invoke_all (ex_instance x) vs
      | None => None
      end
  end.

(** A command line that neither asks for the daemon, the wipe or another key
    ([unlock --dek-file]) nor names the instance's database, key file or
    marker with [--out]. *)
Definition one_shot (v : Invocation) : bool :=
  match parse_args (iv_argv v) with
  | Err _ => true
  | Ok a =>
      match command_of (a_cmd a) with
      | None => true
      | Some CmdDaemon | Some CmdPanicWipe => false
      | Some CmdUnlock => bool_decide (text_of ToDekFile a = None)
      | Some _ => out_elsewhere (iv_env v) a
      end
  end.

Lemma run_argv_sealed {cipher_laws : SqlCipherLaws} key v i :
  one_shot v = true → sealed_dir key i →
  ∃ x, run_argv nfc kill_switch online sender_send show_detail (iv_env v) (iv_host v) (iv_argv v) i = Some x
    ∧ sealed_dir key (ex_instance x).
Proof.
  intros Hv Hi. unfold run_argv. unfold one_shot in Hv.
  destruct (parse_args (iv_argv v)) as [a|x]; [|by eexists; split; [|apply run_proc_sealed; [intros c|]]].
  destruct (command_of (a_cmd a)) as [cmd|] eqn:Ec; [|by eexists; split; [|apply run_proc_sealed; [intros c|]]].
  destruct (run_command (iv_env v) cmd a) as [p|] eqn:E; [|by destruct cmd].
  eexists. split; [reflexivity|]. apply run_proc_sealed; [|done].
  destruct (decide (cmd = CmdUnlock)) as [->|Hu].
  - apply bool_decide_eq_true in Hv. apply (inj Some) in E as <-. by apply wf_unlock.
  - apply (command_wf key (iv_env v) cmd a p); [by intros ->|by intros ->|by destruct cmd|exact E].
Qed.

(** C34: The commands keep the store. One-shot command lines run one after
    the other, with whatever arguments, contacts, network, clocks and file
    system faults, each come to an end, and however they end the database is
    still sealed under the instance's key and its tables well formed. Left
    out are the daemon, the two commands that are asked to give the store up,
    [panic-wipe] and [unlock --dek-file], and an [--out] that names the
    database, the key file or the marker. *)
Theorem commands_keep_store {cipher_laws : SqlCipherLaws} key vs i :
  Forall (λ v, one_shot v = true) vs → sealed_dir key i → ∃ i', invoke_all i vs = Some i' ∧ sealed_dir key i'.
Proof.
  intros Hv. revert i. induction Hv as [|v vs Hr _ IH]; intros i Hi; [by eauto|].
  destruct (run_argv_sealed key v i Hr Hi) as (x & Hx & Hs). cbn [invoke_all]. rewrite Hx. by apply IH.
Qed.
End Facts.

(** ** Witnesses *)

#[local] Existing Instance toy_cipher.
#[local] Existing Instance toy_cipher_laws.

(** A transport that is up at once. *)
Definition toy_status : TransportStatus :=
  mkTStatus TsOnline [] (mkOutboxStatus 0 0 None) (mkInboxStatus 0 None) false Normal None 0.
#[local] Instance toy_cli_transport : CliTransport unit :=
  {| set_daemon n _ := n; transport_start n := (n, Ok tt); transport_stop n := n; transport_status _ := toy_status;
     net_wakes n := ([], n); net_changes _ := [] |}.
#[local] Instance toy_raw : RawFile :=
  {| file_raw f := f.1.1; raw_file bs := (bs, 0, (set_rels demo_db ∅, signal_empty)) |}.
(** In this directory [schat.db] names the database. *)
Definition demo_place (path : bytes) : Place := if bool_decide (path = str_bytes "schat.db") then PlStore else PlDisk path.
Definition demo_env : Env :=
  mkEnv no_faults 1003 demo_dek demo_place [] ∅ (λ _ _, None) (λ _, false) None (λ _, Ok []) (Some (9050, 9051)).
Definition demo_dir (marker : bool) : CliDir := mkCliDir (mkVaultFiles (Some demo_dek) marker) (ve_file demo_locked) ∅.
Definition demo_argv (argv : list string) : list bytes := str_bytes <$> argv.
Definition demo_run (i : CliDir) (argv : list string) :=
  run_argv (crypto := toy_pairing) (hosting := toy_hosting) (codecs := toy_codecs) id (λ _ : unit, false) (λ _, true)
    toy_send (λ _, []) demo_env (ve_host demo_locked) (demo_argv argv) i.

(** The thread of a relationship without rows; the same refused while the
    marker is there; an unknown flag; a text sent over the transport. *)
Example demo_thread : (λ x, (ex_code x, ex_out x)) <$> demo_run (demo_dir false) ["thread"; "--rel"; "r"] = Some (0, []).
Proof. vm_compute. reflexivity. Qed.
Example demo_thread_locked : ex_code <$> demo_run (demo_dir true) ["thread"; "--rel"; "r"] = Some 1.
Proof. vm_compute. reflexivity. Qed.
Example demo_unknown_flag : ex_code <$> demo_run (demo_dir false) ["thread"; "--relationship"; "r"] = Some 2.
Proof. vm_compute. reflexivity. Qed.
Example demo_send_raw :
  (λ x, (ex_code x, ex_out x, ex_up x)) <$> demo_run (demo_dir true) ["send"; "--to"; "peer"]
  = Some (0, [str_bytes "transmitted to peer"], false).
Proof. vm_compute. reflexivity. Qed.

Definition demo_no_dest : Args := args_default (str_bytes "send").
Definition demo_proc (cmd : Command) (a : Args) : Proc Z :=
  default (pret 0) (run_command (crypto := toy_pairing) (hosting := toy_hosting) (codecs := toy_codecs) id
    (λ _ : unit, false) (λ _, true) toy_send (λ _, []) demo_env cmd a).

Lemma marker_refuses_commands_witness :
  ex_code (run_proc (ve_host demo_locked) (demo_proc CmdSweepExpired demo_no_dest) (demo_dir true)) ≠ 0.
Proof.
  apply (marker_refuses_commands (crypto := toy_pairing) (hosting := toy_hosting) (codecs := toy_codecs) id
    (λ _ : unit, false) (λ _, true) toy_send (λ _, []) demo_env (ve_host demo_locked) CmdSweepExpired demo_no_dest
    (demo_proc CmdSweepExpired demo_no_dest) (demo_dir true));
    [reflexivity|reflexivity|discriminate|discriminate|reflexivity..].
Defined.

(** [send] without a destination finds out once the transport is up. *)
Lemma transport_taken_down_witness :
  let x := run_proc (ve_host demo_locked) (demo_proc CmdSend demo_no_dest) (demo_dir false) in
  ex_up x = true ∧ (ex_code x = 2 ∨ ex_code x = 101).
Proof.
  split; [reflexivity|].
  apply (transport_taken_down (crypto := toy_pairing) (hosting := toy_hosting) (codecs := toy_codecs) id
    (λ _ : unit, false) (λ _, true) toy_send (λ _, []) demo_env (ve_host demo_locked) CmdSend demo_no_dest
    (demo_proc CmdSend demo_no_dest) (demo_dir false)); reflexivity.
Defined.

Definition demo_invocations : list Invocation :=
  (λ argv, mkInvocation demo_env (ve_host demo_locked) (demo_argv argv))
    <$> [["sweep-expired"]; ["lock"]; ["pair"; "--offer"]; ["unlock"]; ["pair"; "--abort"]]%string.
Lemma commands_keep_store_witness :
  ∃ i', invoke_all (crypto := toy_pairing) (hosting := toy_hosting) (codecs := toy_codecs) id (λ _ : unit, false)
          (λ _, true) toy_send (λ _, []) (demo_dir false) demo_invocations = Some i'
    ∧ sealed_dir demo_dek i'.
Proof.
  apply (commands_keep_store (crypto := toy_pairing) (hosting := toy_hosting) (codecs := toy_codecs) id
    (λ _ : unit, false) (λ _, true) toy_send (λ _, []) demo_dek demo_invocations (demo_dir false)).
  - repeat constructor; vm_compute; reflexivity.
  - split; [reflexivity|]. eexists _. split; [reflexivity|]. exact (proj1 demo_offering_wf).
Defined.
(** The command lines left out: the wipe removes the database and the key,
    and an [--out] that names the database overwrites it. *)
Example demo_panic_wipe :
  (λ x, (ex_code x, in_store (ex_instance x), in_files (ex_instance x))) <$> demo_run (demo_dir true) ["panic-wipe"]
  = Some (0, None, mkVaultFiles None false).
Proof. vm_compute. reflexivity. Qed.
Example demo_out_overwrites :
  (λ x, (ex_code x, in_store (ex_instance x))) <$> demo_run (demo_dir false) ["pair"; "--offer"; "--out"; "schat.db"]
  ≠ (λ x, (ex_code x, in_store (ex_instance x))) <$> demo_run (demo_dir false) ["pair"; "--offer"; "--out"; "qr"].
Proof. vm_compute. discriminate. Qed.
