(* ===== verification/Latency.v ===== *)
(** Hot-path latency and its budgets ([test-harness/src/latency.rs]): the
    nearest-rank percentiles of a series, the gates and the regression check,
    and the budgets file as the JSON document it holds. [f64] is IEEE
    binary64 with rounding to nearest even, as the Standard Library specifies
    it; what is printed of a violation is kept as its numbers. *)

From Stdlib Require Import SpecFloat.
From stdpp Require Import sorting strings.
From S2P Require Import Prelude Bin.

(** ** [f64] *)

Definition f64 : Type := spec_float.
Definition f64_of_Z (n : Z) : f64 := binary_normalize 53 1024 n 0 false.
Definition f64_div (a b : f64) : f64 := SFdiv 53 1024 a b.
Definition f64_mul (a b : f64) : f64 := SFmul 53 1024 a b.
Definition f64_add (a b : f64) : f64 := SFadd 53 1024 a b.
Definition f64_gt (a b : f64) : bool := SFltb b a.

Definition usize_max : Z := 2 ^ 64 - 1.
(** [x.ceil() as usize]: the cast saturates, and takes NaN to 0. *)
Definition f64_ceil_usize (x : f64) : Z :=
  match x with
  | S754_zero _ | S754_nan => 0
  | S754_infinity s => if s then 0 else usize_max
  | S754_finite s m e =>
      if s then 0
      else Z.min usize_max (if 0 <=? e then Z.pos m * 2 ^ e else - (- Z.pos m / 2 ^ (- e)))
  end.

(** [partial_cmp] is not [Greater]. *)
Definition f64_le (a b : f64) : Prop := f64_gt a b = false.
#[export] Instance f64_le_dec a b : Decision (f64_le a b).
Proof. unfold f64_le. apply _. Defined.

(** ** Percentiles *)

Record Percentiles := mkPercentiles {
  lp_count : Z;
  lp_min : f64;
  lp_p50 : f64;
  lp_p95 : f64;
  lp_p99 : f64;
  lp_max : f64;
  lp_mean : f64;
}.
Definition f64_zero : f64 := S754_zero false.
Definition percentiles_default : Percentiles :=
  mkPercentiles 0 f64_zero f64_zero f64_zero f64_zero f64_zero f64_zero.

(** The one-based rank of a percentile among [n] samples. *)
Definition rank_index (p n : Z) : Z :=
  let idx := f64_ceil_usize (f64_mul (f64_div (f64_of_Z p) (f64_of_Z 100)) (f64_of_Z n)) in
  Z.min (Z.max idx 1) n.

Definition percentiles (samples : list f64) : Percentiles :=
  match merge_sort f64_le samples with
  | [] => percentiles_default
  | (lo :: _) as s =>
      let n := len s in
      let rank p := default lo (s !! Z.to_nat (rank_index p n - 1)) in
      mkPercentiles (wrap32 n) lo (rank 50) (rank 95) (rank 99) (default lo (last s))
        (f64_div (foldl f64_add (S754_zero true) s) (f64_of_Z n))
  end.

(** ** Budgets *)

Record Budget := mkBudget { bg_p50 : option f64; bg_p95 : option f64; bg_p99 : option f64 }.

(** A JSON value as the file's reader sees it. *)
#[warnings="-register-all"]
Inductive Json :=
| JInt (n : Z)
| JFloat (x : f64)
| JObject (m : list (string * Json))
| JOther.

Definition json_get (k : string) (m : list (string * Json)) : option Json :=
  snd <$> List.find (λ kv, bool_decide (kv.1 = k)) m.
Definition as_f64 (v : Json) : option f64 :=
  match v with JInt n => Some (f64_of_Z n) | JFloat x => Some x | _ => None end.
Definition as_object (v : Json) : option (list (string * Json)) :=
  match v with JObject m => Some m | _ => None end.
(** A [u32] field: an integer in range. *)
Definition as_u32 (v : Json) : option Z :=
  match v with JInt n => if (0 <=? n) && (n <=? u32_max) then Some n else None | _ => None end.

Definition budget_of (m : list (string * Json)) : Budget :=
  let get k := json_get k m ≫= as_f64 in
  mkBudget (get "p50_ms"%string) (get "p95_ms"%string) (get "p99_ms"%string).
(** [serde_json::from_value]: every field is required. *)
Definition percentiles_of (v : Json) : option Percentiles :=
  m ← as_object v;
  count ← json_get "count" m ≫= as_u32;
  mn ← json_get "min_ms" m ≫= as_f64;
  p50 ← json_get "p50_ms" m ≫= as_f64;
  p95 ← json_get "p95_ms" m ≫= as_f64;
  p99 ← json_get "p99_ms" m ≫= as_f64;
  mx ← json_get "max_ms" m ≫= as_f64;
  mean ← json_get "mean_ms" m ≫= as_f64;
  Some (mkPercentiles count mn p50 p95 p99 mx mean).
Definition percentiles_json (p : Percentiles) : Json :=
  JObject [("count"%string, JInt (lp_count p)); ("min_ms"%string, JFloat (lp_min p)); ("p50_ms"%string, JFloat (lp_p50 p));
           ("p95_ms"%string, JFloat (lp_p95 p)); ("p99_ms"%string, JFloat (lp_p99 p)); ("max_ms"%string, JFloat (lp_max p));
           ("mean_ms"%string, JFloat (lp_mean p))].

(** [bu_raw] is the document, its keys in order. *)
Record Budgets := mkBudgets {
  bu_gates : gmap string Budget;
  bu_tolerance : f64;
  bu_baseline : gmap string Percentiles;
  bu_raw : gmap string Json;
}.

Fixpoint load_baseline (l : list (string * Json)) (b : gmap string Percentiles) : result Detail (gmap string Percentiles) :=
  match l with
  | [] => Ok b
  | (scenario, v) :: l =>
      let* p := ok_or (percentiles_of v) (Lit "baseline.{scenario}: {e}") in
      load_baseline l (<[scenario := p]> b)
  end.

Definition load_entry (b : Budgets) (key : string) (v : Json) : result Detail Budgets :=
  if bool_decide (key = "regression_tolerance_pct"%string) then
    let* tolerance := ok_or (as_f64 v) (Lit "regression_tolerance_pct must be a number") in
    Ok (mkBudgets (bu_gates b) tolerance (bu_baseline b) (bu_raw b))
  else if bool_decide (key = "baseline"%string) then
    let* m := ok_or (as_object v) (Lit "baseline must be an object") in
    let* baseline := load_baseline m (bu_baseline b) in
    Ok (mkBudgets (bu_gates b) (bu_tolerance b) baseline (bu_raw b))
  else
    let* m := ok_or (as_object v) (Lit "{scenario}: budget must be an object") in
    Ok (mkBudgets (<[key := budget_of m]> (bu_gates b)) (bu_tolerance b) (bu_baseline b) (bu_raw b)).
Fixpoint load_entries (l : list (string * Json)) (b : Budgets) : result Detail Budgets :=
  match l with
  | [] => Ok b
  | (key, v) :: l => let* b := load_entry b key v in load_entries l b
  end.

(** [Budgets::load] of a file that reads and parses, in the order of its
    keys. *)
Definition key_le (a b : string * Json) : Prop := String.leb a.1 b.1 = true.
#[export] Instance key_le_dec a b : Decision (key_le a b).
Proof. unfold key_le. apply _. Defined.
Definition budgets_load (raw : gmap string Json) : result Detail Budgets :=
  load_entries (merge_sort key_le (map_to_list raw)) (mkBudgets ∅ (f64_of_Z 10) ∅ raw).

Inductive Violation :=
| OverBudget (name : string) (got limit : f64)
| Regression (name : string) (got was : f64).

Definition named (p : Percentiles) : list (string * f64) :=
  [("p50"%string, lp_p50 p); ("p95"%string, lp_p95 p); ("p99"%string, lp_p99 p)].
Definition gate_violations (gate : Budget) (measured : Percentiles) : list Violation :=
  omap (λ '(name, got, limit), limit ≫= λ limit, if f64_gt got limit then Some (OverBudget name got limit) else None)
    (zip (named measured) [bg_p50 gate; bg_p95 gate; bg_p99 gate]).
Definition regressions (tolerance : f64) (base measured : Percentiles) : list Violation :=
  let factor := f64_add (f64_of_Z 1) (f64_div tolerance (f64_of_Z 100)) in
  omap (λ '(name, got, (_, was)),
          if f64_gt was f64_zero && f64_gt got (f64_mul was factor) then Some (Regression name got was) else None)
    (zip (named measured) (named base)).
Definition violations (b : Budgets) (scenario : string) (measured : Percentiles) : list Violation :=
  from_option (λ gate, gate_violations gate measured) [] (bu_gates b !! scenario)
  ++ from_option (λ base, regressions (bu_tolerance b) base measured) [] (bu_baseline b !! scenario).

(** The document with a scenario's percentiles under [baseline]; the order of
    its members plays no part. *)
Definition insert_baseline (scenario : string) (p : Percentiles) (raw : gmap string Json)
    : result Detail (gmap string Json) :=
  let* m := ok_or (as_object (default (JObject []) (raw !! "baseline"%string))) (Lit "baseline is not an object") in
  Ok (<["baseline"%string :=
        JObject ((scenario, percentiles_json p) :: filter (λ kv, kv.1 ≠ scenario) m)]> raw).

(** [write] is the file system's answer; the file then holds the document. *)
Definition ensure_baseline (write : result Detail unit) (scenario : string) (measured : Percentiles) (b : Budgets)
    : Budgets * result Detail bool :=
  match bu_baseline b !! scenario with
  | Some _ => (b, Ok false)
  | None =>
      match insert_baseline scenario measured (bu_raw b) with
      | Err e => (b, Err e)
      | Ok raw =>
          let b := mkBudgets (bu_gates b) (bu_tolerance b) (bu_baseline b) raw in
          match write with
          | Err e => (b, Err e)
          | Ok _ =>
              (mkBudgets (bu_gates b) (bu_tolerance b) (<[scenario := measured]> (bu_baseline b)) raw, Ok true)
          end
      end
  end.

(** ** What holds *)

(** The rank, computed in floating point, is the nearest rank: the least
    count that makes up [p] per cent of the samples. *)
Definition nearest_rank (p n : Z) : Z := (p * n + 99) / 100.
Lemma rank_index_exact p n :
  p ∈ [50; 95; 99] → 1 ≤ n ≤ 256 → rank_index p n = nearest_rank p n.
Proof.
  intros Hp Hn.
  assert (H : forallb (λ p, forallb (λ k, rank_index p (Z.of_nat k) =? nearest_rank p (Z.of_nat k)) (seq 1 256)) [50; 95; 99] = true)
    by (vm_compute; reflexivity).
  rewrite forallb_forall in H. assert (Hp' : In p [50; 95; 99]) by by apply list_elem_of_In. specialize (H p Hp').
  rewrite forallb_forall in H. specialize (H (Z.to_nat n)). rewrite in_seq, Z2Nat.id in H by lia.
  apply Z.eqb_eq, H. lia.
Qed.

(** A series passes its gates exactly when no measured percentile is over a
    limit that is set. *)
Lemma gates_pass gate measured :
  gate_violations gate measured = []
  ↔ (∀ limit, bg_p50 gate = Some limit → f64_le (lp_p50 measured) limit)
    ∧ (∀ limit, bg_p95 gate = Some limit → f64_le (lp_p95 measured) limit)
    ∧ (∀ limit, bg_p99 gate = Some limit → f64_le (lp_p99 measured) limit).
Proof.
  assert (H : ∀ name got (o : option f64),
    (o ≫= λ limit, if f64_gt got limit then Some (OverBudget name got limit) else None) = None
    ↔ ∀ limit, o = Some limit → f64_le got limit).
  { intros name got [limit|]; cbn; [|done]. unfold f64_le. split.
    - intros Hn l [= <-]. by destruct (f64_gt got limit).
    - intros Hl. by rewrite (Hl limit eq_refl). }
  rewrite <- (H "p50"%string), <- (H "p95"%string), <- (H "p99"%string).
  unfold gate_violations. cbn [named zip zip_with omap list_omap].
  destruct (bg_p50 gate ≫= _), (bg_p95 gate ≫= _), (bg_p99 gate ≫= _); split; try done; by intros (? & ? & ?).
Qed.

(** What is written is read back, and the second run changes nothing. *)
Lemma percentiles_json_of p : 0 ≤ lp_count p ≤ u32_max → percentiles_of (percentiles_json p) = Some p.
Proof.
  intros Hc. destruct p as [count mn p50 p95 p99 mx mean]. cbn [lp_count] in Hc.
  assert (Hu : as_u32 (JInt count) = Some count).
  { unfold as_u32. by rewrite (proj2 (Z.leb_le 0 count)), (proj2 (Z.leb_le count u32_max)) by lia. }
  change (as_u32 (JInt count) ≫= (λ n, Some (mkPercentiles n mn p50 p95 p99 mx mean))
          = Some (mkPercentiles count mn p50 p95 p99 mx mean)).
  by rewrite Hu.
Qed.
Lemma ensure_once scenario measured b :
  let '(b1, r) := ensure_baseline (Ok tt) scenario measured b in
  is_ok r = true → ∀ w p, ensure_baseline w scenario p b1 = (b1, Ok false).
Proof.
  unfold ensure_baseline at 1. destruct (bu_baseline b !! scenario) eqn:E.
  - intros _ w q. unfold ensure_baseline. by rewrite E.
  - destruct (insert_baseline _ _ _) as [raw|x]; [|done]. intros _ w q. unfold ensure_baseline. cbn.
    by rewrite lookup_insert_eq.
Qed.

Definition demo_series : list f64 := f64_of_Z ∘ Z.of_nat <$> seq 1 100.
Example demo_percentiles :
  let p := percentiles (reverse demo_series) in
  (lp_count p, lp_p50 p, lp_p95 p, lp_p99 p, lp_min p, lp_max p)
  = (100, f64_of_Z 50, f64_of_Z 95, f64_of_Z 99, f64_of_Z 1, f64_of_Z 100).
Proof. vm_compute. reflexivity. Qed.
