(* ===== verification/Harness.v ===== *)
(** The reliability harness ([test-harness/src/reliability.rs] and
    [lib.rs]): the tracker that judges a scenario from what was sent, what
    arrived and the sender's ledger; the nodes it drives through the engine,
    with the pump that feeds them; and the raw-send helpers. What is printed,
    the JSON the metrics are written as, and the elapsed time are left out. *)

From S2P Require Import Prelude Bin RustStr Limits Media Hex Payloads WirePolicy StickerDocs Envelope Frame PairingQr Policy RateLimit Ephemeral Ledger Settings Sync Session SignalStores EngineTypes Queue Wipe StickerPending StickerStore Attach Messages Caps Engine StickerEngine Sends Profiles Persona Pairing Burn Writes Inbound Runs PairingFacts EngineWf Vault FfiFacts Seen Conn OnionKeys TransportTypes FfiTransport Daemon Latency.

(** ** The tracker *)

Inductive ExtraValue := XNumber (n : Z) | XTexts (l : list bytes).

Record Tracker := mkTracker {
  tk_scenario : bytes;
  tk_sent : list bytes;
  tk_sent_set : gset bytes;
  tk_received : gset bytes;
  tk_foreign : list bytes;
  tk_duplicates : Z;
  tk_dup_drops : Z;
  tk_scanned : gmap bytes nat;
  tk_heal : list bytes;
  tk_max_age : Z;
  tk_started_at : Z;
  tk_extra : gmap string ExtraValue;
}.
Definition tracker_new (scenario : bytes) (now : Z) : Tracker :=
  mkTracker scenario [] ∅ ∅ [] 0 0 ∅ [] 0 now ∅.

Definition note_sent (id : bytes) (t : Tracker) : Tracker :=
  mkTracker (tk_scenario t) (tk_sent t ++ [id]) ({[id]} ∪ tk_sent_set t) (tk_received t) (tk_foreign t)
    (tk_duplicates t) (tk_dup_drops t) (tk_scanned t) (tk_heal t) (tk_max_age t) (tk_started_at t) (tk_extra t).

Definition note_received (id : bytes) (t : Tracker) : Tracker :=
  let put received foreign duplicates :=
    mkTracker (tk_scenario t) (tk_sent t) (tk_sent_set t) received foreign duplicates (tk_dup_drops t) (tk_scanned t)
      (tk_heal t) (tk_max_age t) (tk_started_at t) (tk_extra t) in
  if negb (bool_decide (id ∈ tk_sent_set t)) then put (tk_received t) (tk_foreign t ++ [id]) (tk_duplicates t)
  else if bool_decide (id ∈ tk_received t) then put (tk_received t) (tk_foreign t) (wrap32 (tk_duplicates t + 1))
  else put ({[id]} ∪ tk_received t) (tk_foreign t) (tk_duplicates t).

(** The ids of a log's [Message] events. *)
Definition message_ids (events : list EngineEvent) : list bytes :=
  omap (λ e, match e with EvMessage _ id => Some id | _ => None end) events.

Definition with_scanned (scanned : gmap bytes nat) (t : Tracker) : Tracker :=
  mkTracker (tk_scenario t) (tk_sent t) (tk_sent_set t) (tk_received t) (tk_foreign t) (tk_duplicates t)
    (tk_dup_drops t) scanned (tk_heal t) (tk_max_age t) (tk_started_at t) (tk_extra t).

(** [sync_received] of a node of that name with that log. *)
Definition sync_received (name : bytes) (events : list EngineEvent) (t : Tracker) : Tracker :=
  let from := default 0%nat (tk_scanned t !! name) in
  let from := Nat.min from (length events) in
  let t := foldl (λ t id, note_received id t) t (message_ids (drop from events)) in
  with_scanned (<[name := length events]> (tk_scanned t)) t.

Definition arrivals_from (events : list EngineEvent) (t : Tracker) : nat :=
  size (list_to_set (filter (λ id, id ∈ tk_sent_set t) (message_ids events)) : gset bytes).

Definition all_received (t : Tracker) : bool :=
  bool_decide (size (tk_sent_set t) = size (tk_received t)) && bool_decide (tk_sent_set t = tk_received t).

Definition note_duplicate_drops (count : Z) (t : Tracker) : Tracker :=
  mkTracker (tk_scenario t) (tk_sent t) (tk_sent_set t) (tk_received t) (tk_foreign t) (tk_duplicates t) count
    (tk_scanned t) (tk_heal t) (tk_max_age t) (tk_started_at t) (tk_extra t).
Definition note_heal (event : bytes) (t : Tracker) : Tracker :=
  mkTracker (tk_scenario t) (tk_sent t) (tk_sent_set t) (tk_received t) (tk_foreign t) (tk_duplicates t)
    (tk_dup_drops t) (tk_scanned t) (tk_heal t ++ [event]) (tk_max_age t) (tk_started_at t) (tk_extra t).
Definition tracker_extra (key : string) (v : ExtraValue) (t : Tracker) : Tracker :=
  mkTracker (tk_scenario t) (tk_sent t) (tk_sent_set t) (tk_received t) (tk_foreign t) (tk_duplicates t)
    (tk_dup_drops t) (tk_scanned t) (tk_heal t) (tk_max_age t) (tk_started_at t) (<[key := v]> (tk_extra t)).

(** [SELECT MIN(created_at) FROM outbox] *)
Definition oldest_queued (db : Db) : option Z :=
  foldr (λ r acc, Some (from_option (Z.min (as_i64 (ob_created_at r))) (as_i64 (ob_created_at r)) acc)) None
    ((map_to_list (db_outbox db)).*2).
Definition observe_outbox_age (db : Db) (t : Tracker) : Tracker :=
  match oldest_queued db with
  | Some created =>
      mkTracker (tk_scenario t) (tk_sent t) (tk_sent_set t) (tk_received t) (tk_foreign t) (tk_duplicates t)
        (tk_dup_drops t) (tk_scanned t) (tk_heal t) (Z.max (tk_max_age t) (sat_sub (db_now db) (as_u64 created)))
        (tk_started_at t) (tk_extra t)
  | None => t
  end.

(** The delivery state of a sent id in the sender's ledger. *)
Definition row_state (db : Db) (id : bytes) : option DeliveryState := mr_state <$> message db id.

(** Acknowledged, failed, pending. *)
Fixpoint poll_loop (db : Db) (sent : list bytes) (acc : Z * Z * Z) : Z * Z * Z :=
  match sent with
  | [] => acc
  | id :: sent =>
      let '(acked, failed, pending) := acc in
      poll_loop db sent
        match row_state db id with
        | Some Acknowledged => (wrap32 (acked + 1), failed, pending)
        | Some Failed => (acked, wrap32 (failed + 1), pending)
        | _ => (acked, failed, wrap32 (pending + 1))
        end
  end.
Definition poll_states (db : Db) (t : Tracker) : Z * Z * Z := poll_loop db (tk_sent t) (0, 0, 0).

Record ScenarioMetrics := mkMetrics {
  mt_scenario : bytes;
  mt_sent : Z;
  mt_received : Z;
  mt_acknowledged : Z;
  mt_failed : Z;
  mt_delivery_rate : f64;
  mt_dup_drops : Z;
  mt_false_negatives : Z;
  mt_heal : list bytes;
  mt_max_age : Z;
  mt_started_at : Z;
  mt_finished_at : Z;
  mt_extra : gmap string ExtraValue;
}.

(** Received, and failed in the ledger. *)
Definition false_negative (db : Db) (t : Tracker) (id : bytes) : Prop :=
  id ∈ tk_received t ∧ row_state db id = Some Failed.

Definition finish_extra (pending : Z) (t : Tracker) : gmap string ExtraValue :=
  let extra := tk_extra t in
  let extra := if pending >? 0 then <["pending"%string := XNumber pending]> extra else extra in
  let extra := if tk_duplicates t >? 0 then <["duplicate_arrival_events"%string := XNumber (tk_duplicates t)]> extra
               else extra in
  if bool_decide (tk_foreign t = []) then extra
  else <["foreign_arrivals"%string := XTexts (hex_encode <$> tk_foreign t)]> extra.

(** [as u32] of a count. *)
Definition finish_metrics (db : Db) (now : Z) (t : Tracker) : ScenarioMetrics :=
  let '(acknowledged, failed, pending) := poll_states db t in
  let sent := wrap32 (len (tk_sent t)) in
  let received := wrap32 (Z.of_nat (size (tk_received t))) in
  mkMetrics (tk_scenario t) sent received acknowledged failed
    (if sent =? 0 then f64_of_Z 1 else f64_div (f64_of_Z received) (f64_of_Z sent))
    (tk_dup_drops t) (wrap32 (len (filter (false_negative db t) (tk_sent t)))) (tk_heal t) (tk_max_age t)
    (tk_started_at t) now (finish_extra pending t).

Inductive TrackFailure :=
| CrossPeer (ids : list bytes)
| DuplicateArrivals (n : Z)
| FailedButDelivered (n : Z)
| SilentDrops (sent received failed : Z)
| Unsettled (sent acknowledged failed : Z).

Definition assert_invariants (t : Tracker) (m : ScenarioMetrics) : result TrackFailure unit :=
  if negb (bool_decide (tk_foreign t = [])) then Err (CrossPeer (tk_foreign t))
  else if tk_duplicates t >? 0 then Err (DuplicateArrivals (tk_duplicates t))
  else if mt_false_negatives m >? 0 then Err (FailedButDelivered (mt_false_negatives m))
  else if negb (wrap32 (mt_received m + mt_failed m) =? mt_sent m)
  then Err (SilentDrops (mt_sent m) (mt_received m) (mt_failed m))
  else if negb (wrap32 (mt_acknowledged m + mt_failed m) =? mt_sent m)
  then Err (Unsettled (mt_sent m) (mt_acknowledged m) (mt_failed m))
  else Ok tt.

(** What a scenario does to its tracker. *)
Inductive TrackOp :=
| TopSent (id : bytes)
| TopReceived (id : bytes)
| TopSync (name : bytes) (events : list EngineEvent)
| TopDupDrops (count : Z)
| TopHeal (event : bytes)
| TopAge (db : Db)
| TopExtra (key : string) (v : ExtraValue).
Definition track (t : Tracker) (op : TrackOp) : Tracker :=
  match op with
  | TopSent id => note_sent id t
  | TopReceived id => note_received id t
  | TopSync name events => sync_received name events t
  | TopDupDrops count => note_duplicate_drops count t
  | TopHeal event => note_heal event t
  | TopAge db => observe_outbox_age db t
  | TopExtra key v => tracker_extra key v t
  end.

(** ** Nodes *)

(** What a broadcast receiver finds next. *)
Inductive RecvItem := RcDrop (d : InboundDrop) | RcLagged (n : Z).

Section Node.
Context {Net Rng : Type} `{crypto : !PairingCrypto Rng} `{hosting : !Hosting Net} {codecs : ImageCodecs}.
Context (nfc : bytes → bytes).
Context (kill_switch online : Net → bool).
Context (sender_send : Net → string → bytes → Net * result TransportError unit).
Context (private_ok public_ok : bytes → bool).
Context (verify_pack : bytes → bytes → bytes → bool).
Context (sign_pack : bytes → bytes → bytes → bytes).
(** [Transport::note_inbound_drain] and [Transport::status]. *)
Context (note_drain : Net → Net).
Context (transport_status : Net → TransportStatus).

Local Abbreviation rng_id := (λ r : Rng, fill_bytes r 16).
Local Abbreviation Engine := (@Engine SignalTables Net Rng).
Local Abbreviation M := (@M SignalTables Net Rng).
Local Notation "'via' f" := (f nfc message_encrypt kill_switch online sender_send rng_id fill_bytes rng_next)
  (at level 10, only parsing).
Local Abbreviation handle_plaintext :=
  (handle_plaintext nfc sha256 message_encrypt kill_switch online sender_send remove_service rng_id fill_bytes
     rng_next private_ok public_ok verify_pack sign_pack).

Record RelNode := mkRelNode {
  rn_name : bytes;
  rn_engine : Engine;
  rn_drops : list RecvItem;
  rn_events : list EngineEvent;
  rn_requests : list string;
  rn_dup_drops : Z;
  rn_alert_arrivals : Z;
}.
Definition node_new (name : bytes) (e : Engine) : RelNode := mkRelNode name e [] [] [] 0 0.

Definition rel_state_of (n : RelNode) (rel_id : string) : option string :=
  rel_state <$> load_relationship (en_db (rn_engine n)) rel_id.

Definition put_node (e : Engine) (events : list EngineEvent) (n : RelNode) : RelNode :=
  mkRelNode (rn_name n) e (rn_drops n) (rn_events n ++ events) (rn_requests n) (rn_dup_drops n) (rn_alert_arrivals n).

(** A call whose error is printed and forgotten. *)
Definition node_call {A} (events : A → list EngineEvent) (m : M A) (n : RelNode) : RelNode :=
  let '(e, r) := m (rn_engine n) in
  put_node e (match r with Ok a => events a | Err _ => [] end) n.

Definition node_dispatch (rel_id : string) (plaintext : bytes) : RelNode → RelNode :=
  node_call id (handle_plaintext rel_id plaintext).

Definition count_drop (d : InboundDrop) (n : RelNode) : RelNode :=
  mkRelNode (rn_name n) (rn_engine n) (rn_drops n) (rn_events n) (rn_requests n)
    (if negb (id_first_sight d) then rn_dup_drops n + 1 else rn_dup_drops n)
    (if id_first_sight d && of_alert (id_frame d) then rn_alert_arrivals n + 1 else rn_alert_arrivals n).
Definition note_request (rel_id : string) (n : RelNode) : RelNode :=
  mkRelNode (rn_name n) (rn_engine n) (rn_drops n) (rn_events n)
    (if bool_decide (rel_id ∈ rn_requests n) then rn_requests n else rn_requests n ++ [rel_id])
    (rn_dup_drops n) (rn_alert_arrivals n).
Definition drain_noted (n : RelNode) : RelNode :=
  let e := rn_engine n in
  mkRelNode (rn_name n)
    (mkEngine (en_db e) (en_sig e) (note_drain (en_net e)) (en_rng e) (en_presence e) (en_typing e) (en_pending e)
       (en_rate e) (en_drops e))
    (rn_drops n) (rn_events n) (rn_requests n) (rn_dup_drops n) (rn_alert_arrivals n).

Definition node_ingest (now : Z) (d : InboundDrop) (n : RelNode) : RelNode :=
  let n := count_drop d n in
  let '(e, r) := ingest_frame (id_service_id d) (of_intro (id_frame d)) (of_frame (id_frame d)) now (rn_engine n) in
  let n := put_node e [] n in
  drain_noted
    match r with
    | Ok (RequestReceived rel_id _ plaintext) => node_dispatch rel_id plaintext (note_request rel_id n)
    | Ok (IngMessage rel_id plaintext) => node_dispatch rel_id plaintext n
    | _ => n
    end.

Fixpoint pump_drops (now : Z) (items : list RecvItem) (n : RelNode) : RelNode :=
  match items with
  | [] => n
  | RcDrop d :: items => pump_drops now items (node_ingest now d n)
  | RcLagged _ :: items => pump_drops now items n
  end.
Definition set_drops (items : list RecvItem) (n : RelNode) : RelNode :=
  mkRelNode (rn_name n) (rn_engine n) items (rn_events n) (rn_requests n) (rn_dup_drops n) (rn_alert_arrivals n).
Definition set_clock (now : Z) (n : RelNode) : RelNode :=
  mkRelNode (rn_name n) (at_time now (rn_engine n)) (rn_drops n) (rn_events n) (rn_requests n) (rn_dup_drops n)
    (rn_alert_arrivals n).

(** [pump_one] at a time: the queue drained, the sweep, and every drop that
    is there. *)
Definition pump_one (now : Z) (n : RelNode) : RelNode :=
  let n := set_clock now n in
  let n := node_call (λ _ : Z, []) (drain_outbox kill_switch online sender_send) n in
  let n := node_call id (sweep remove_service) n in
  pump_drops now (rn_drops n) (set_drops [] n).

(** A round of [run_until]: what has arrived for each node, the time, and
    whether the deadline has passed. *)
Record Round := mkRound { rd_now : Z; rd_late : bool; rd_arrivals : list (list RecvItem) }.
Inductive RunEnd := ReDone | ReTimedOut | ReWaiting.

Definition arrive (n : RelNode) (items : list RecvItem) : RelNode := set_drops (rn_drops n ++ items) n.
Definition pump_round (rd : Round) (nodes : list RelNode) : list RelNode :=
  pump_one (rd_now rd)
    <$> zip_with arrive nodes (rd_arrivals rd ++ replicate (length nodes - length (rd_arrivals rd)) []).
Fixpoint run_until (rounds : list Round) (pred : list RelNode → bool) (nodes : list RelNode) : list RelNode * RunEnd :=
  match rounds with
  | [] => (nodes, ReWaiting)
  | rd :: rounds =>
      let nodes := pump_round rd nodes in
      if pred nodes then (nodes, ReDone)
      else if rd_late rd then (nodes, ReTimedOut)
      else run_until rounds pred nodes
  end.

(** A call whose error is a panic of the suite. *)
Definition expect {A} (m : M A) (n : RelNode) : option (RelNode * A) :=
  match m (rn_engine n) with
  | (e, Ok a) => Some (put_node e [] n, a)
  | (_, Err _) => None
  end.
(** The log and the counters cleared after pairing. *)
Definition clear_log (n : RelNode) : RelNode :=
  mkRelNode (rn_name n) (rn_engine n) (rn_drops n) [] (rn_requests n) 0 0.
Definition run_two (rounds : list Round) (pred : RelNode → RelNode → bool) (a b : RelNode)
    : option (RelNode * RelNode) :=
  match run_until rounds (λ ns, match ns with [a; b] => pred a b | _ => false end) [a; b] with
  | ([a; b], ReDone) => Some (a, b)
  | _ => None
  end.

(** [pair_nodes]: offer, accept, intro, request, acceptance; [None] where the
    suite panics. [before] and [after] are the rounds up to the request and
    up to the activation. *)
Definition pair_nodes (now : Z) (before after : list Round) (a b : RelNode) : option (RelNode * RelNode * string) :=
  '(a, o) ← expect (offer now) (set_clock now a);
  '(b, accepted) ← expect (accept (of_qr_bytes o) now) (set_clock now b);
  let rel_id := ac_rel_id accepted in
  '(b, _) ← expect (via send_text rel_id (str_bytes "hi, add me?") None) b;
  '(a, b) ← run_two before (λ a _, bool_decide (rel_id ∈ rn_requests a)) a b;
  '(a, _) ← expect (engine_accept_request nfc kill_switch online sender_send rel_id) a;
  '(a, b) ← run_two after (λ a b, bool_decide (rel_state_of a rel_id = Some STATE_ACTIVE)
                                  && bool_decide (rel_state_of b rel_id = Some STATE_ACTIVE)) a b;
  Some (clear_log a, clear_log b, rel_id).

(** ** Helpers of the suites *)

Definition peer_onion (n : RelNode) (rel_id : string) : option string :=
  rel_peer_onion <$> load_relationship (en_db (rn_engine n)) rel_id.

Definition service_reachable (n : RelNode) (rel_id : string) : bool :=
  match load_relationship (en_db (rn_engine n)) rel_id with
  | None => false
  | Some row =>
      let st := transport_status (en_net (rn_engine n)) in
      match ts_tor st with
      | TsOnline =>
          existsb (λ s, bool_decide (ss_service_id s = str_bytes (pc_service_id (rel_pairing row)))
                        && match ss_state s with Reachable => true | _ => false end) (ts_services st)
      | _ => false
      end
  end.

Definition request_resync (rel_id : string) : M unit :=
  mbind get_db (λ db,
  mbind (lift (map_err ESync (build_request sha256 db rel_id))) (λ req,
  mbind (via send_envelope rel_id (PResyncReq req) None false) (λ _, mret tt))).

Definition send_quiet_text (rel_id : string) (body : bytes) : M bytes :=
  mbind (lift (map_err EWire (msg_new body))) (λ msg,
  mbind (via send_envelope rel_id (PMsg msg) None false) (λ sent, mret (sent_msg_id sent))).

(** The envelope encrypted and in the ledger, not sent. *)
Definition build_raw_envelope (rel_id : string) (payload : Payload) (ref_id : option bytes) (state : DeliveryState)
    : M (bytes * Z * bytes) :=
  mbind (random_msg_id rng_id rng_next) (λ msg_id,
  mbind get_db (λ db,
  let '(db, seq) := next_out_seq db rel_id in
  mbind (put_db db) (λ _,
  let at_ := db_now db in
  let env := mkEnvelope msg_id seq at_ ref_id payload in
  mbind (lift (map_err EWire (envelope_encode nfc env))) (λ plaintext,
  mbind (lift (map_err EWire (payload_encode nfc payload))) (λ payload_bytes,
  mbind (run_encrypt message_encrypt rel_id msg_id plaintext at_) (λ frame,
  mbind (pad_record fill_bytes rng_next frame) (λ record,
  mbind get_db (λ db,
  mbind (lift (map_err EStore (insert_message db
    (mkNewMessage msg_id rel_id DirOut seq at_ None (code (envelope_type env)) ref_id payload_bytes state
       (Some (wrap64 (at_ + MESSAGE_TTL_SECS))))))) (λ db,
  mbind (put_db db) (λ _,
  mret (msg_id, seq, record))))))))))).
End Node.

(** [spawn_status_watcher]: the transitions of a stream of states. *)
Inductive WatchLine := WlTor (old new : TorState) | WlError (e : Detail).
#[export] Instance tor_state_eq_dec : EqDecision TorState.
Proof. solve_decision. Defined.

Fixpoint watch (last_tor : TorState) (last_err : option Detail) (sts : list TransportStatus) : list WatchLine :=
  match sts with
  | [] => []
  | st :: sts =>
      (if bool_decide (ts_tor st = last_tor) then [] else [WlTor last_tor (ts_tor st)])
      ++ (if bool_decide (ts_last_error st = last_err) then []
          else match ts_last_error st with Some e => [WlError e] | None => [] end)
      ++ watch (ts_tor st) (ts_last_error st) sts
  end.

(** ** [lib.rs] *)

Definition find_tor_binary (schat_tor : option bytes) (is_file : bytes → bool) (path : option (list bytes))
    : option bytes :=
  match schat_tor with
  | Some p => if is_file p then Some p else path ≫= List.find is_file ∘ fmap (λ dir, path_join dir (str_bytes "tor"))
  | None => path ≫= List.find is_file ∘ fmap (λ dir, path_join dir (str_bytes "tor"))
  end.

(** [chutney_nodes]: the directory, when its listing names an authority. *)
Definition chutney_nodes (dir : option bytes) (nodes : bytes → result TransportError (list NodeDir)) : option bytes :=
  d ← dir;
  if is_ok (chutney_extra_torrc_lines (nodes d)) then Some d else None.

(** The text a drop's record carries is the tag. *)
Definition carries_tag (f tag : bytes) : bool :=
  (len f >=? 3)
  && let n := be_val (take 2 (drop 1 f)) in
     (3 + n <=? len f)
     && let s := take (Z.to_nat n) (drop 3 f) in utf8_ok s && bool_decide (s = tag).

(** What [wait_for_drop] receives until its time is up: a drop, a lag, or
    the end of the channel. *)
Fixpoint wait_for_drop (items : list (option RecvItem)) (tag : bytes) : bool :=
  match items with
  | [] => false
  | Some (RcDrop d) :: items => if carries_tag (of_frame (id_frame d)) tag then true else wait_for_drop items tag
  | Some (RcLagged _) :: items => wait_for_drop items tag
  | None :: _ => false
  end.

(** ** The tracker's verdict *)

Definition tracker_wf (t : Tracker) : Prop :=
  tk_sent_set t = list_to_set (tk_sent t) ∧ tk_received t ⊆ tk_sent_set t ∧ 0 ≤ tk_duplicates t.

Lemma note_received_wf id t : tracker_wf t → tracker_wf (note_received id t).
Proof.
  intros (Hs & Hr & Hd). unfold note_received, tracker_wf.
  destruct (decide (id ∈ tk_sent_set t)) as [Hi|Hi]; [rewrite bool_decide_true by done|by rewrite bool_decide_false by done].
  cbn [negb]. destruct (bool_decide _); cbn; (split; [done|]); (split; [|lia || by apply Z.mod_pos_bound]); [done|set_solver].
Qed.
Lemma sync_received_wf name events t : tracker_wf t → tracker_wf (sync_received name events t).
Proof.
  intros Ht. unfold sync_received. set (ids := message_ids _). clearbody ids.
  assert (H : ∀ t, tracker_wf t → tracker_wf (foldl (λ t id, note_received id t) t ids)).
  { induction ids as [|id ids IH]; intros t' Ht'; [done|]. apply IH. by apply note_received_wf. }
  exact (H t Ht).
Qed.
Lemma track_wf t op : tracker_wf t → tracker_wf (track t op).
Proof.
  intros Ht. destruct op as [id|id|name events|n|ev|db|k v]; cbn [track]; [|by apply note_received_wf|by apply sync_received_wf|done..| |done].
  - destruct Ht as (Hs & Hr & Hd). unfold note_sent, tracker_wf. cbn. rewrite list_to_set_app_L, Hs.
    split; [cbn; set_solver|]. split; [set_solver|done].
  - unfold observe_outbox_age. by destruct (oldest_queued db).
Qed.
Lemma track_all_wf ops t : tracker_wf t → tracker_wf (foldl track t ops).
Proof. revert t. induction ops as [|op ops IH]; intros t Ht; [done|]. by apply IH, track_wf. Qed.
Lemma tracker_new_wf scenario now : tracker_wf (tracker_new scenario now).
Proof. split; [done|]. by split. Qed.

(** Two disjoint classes that count up to a whole list cover it. *)
Lemma partition_count {A} (P Q : A → Prop) `{∀ x, Decision (P x)} `{∀ x, Decision (Q x)} (l : list A) :
  (∀ x, x ∈ l → P x → ¬ Q x) →
  len (filter P l) + len (filter Q l) = len l ↔ ∀ x, x ∈ l → P x ∨ Q x.
Proof.
  intros Hd.
  assert (Hle : len (filter P l) + len (filter Q l) ≤ len l
    ∧ (len (filter P l) + len (filter Q l) = len l → ∀ x, x ∈ l → P x ∨ Q x)
    ∧ ((∀ x, x ∈ l → P x ∨ Q x) → len (filter P l) + len (filter Q l) = len l)); [|tauto].
  induction l as [|x l IH]; [split_and!; [done|by intros _ x ?%not_elem_of_nil|done]|].
  destruct IH as (H1 & H2 & H3); [intros y Hy; apply Hd; by right|]. specialize (Hd x (list_elem_of_here _ _)).
  rewrite !filter_cons, len_cons. destruct (decide (P x)) as [Hp|Hp], (decide (Q x)) as [Hq|Hq]; rewrite ?len_cons.
  - tauto.
  - split; [lia|]. split; [intros He y [->|Hy]%elem_of_cons; [tauto|apply H2; [lia|done]]|].
    intros Ha. rewrite <- H3; [lia|]. intros y Hy. apply Ha. by right.
  - split; [lia|]. split; [intros He y [->|Hy]%elem_of_cons; [tauto|apply H2; [lia|done]]|].
    intros Ha. rewrite <- H3; [lia|]. intros y Hy. apply Ha. by right.
  - split; [lia|]. split; [lia|]. intros Ha. destruct (Ha x (list_elem_of_here _ _)); tauto.
Qed.

Lemma poll_loop_counts db l a f p :
  poll_loop db l (wrap32 a, wrap32 f, wrap32 p)
  = (wrap32 (a + len (filter (λ id, row_state db id = Some Acknowledged) l)),
     wrap32 (f + len (filter (λ id, row_state db id = Some Failed) l)),
     wrap32 (p + (len l - len (filter (λ id, row_state db id = Some Acknowledged) l)
                  - len (filter (λ id, row_state db id = Some Failed) l)))).
Proof.
  assert (Hw : ∀ n, wrap32 (wrap32 n + 1) = wrap32 (n + 1)) by (intros n; unfold wrap32; by rewrite Zplus_mod_idemp_l).
  revert a f p. induction l as [|id l IH]; intros a f p; cbn [poll_loop].
  - rewrite !filter_nil. unfold len. cbn [length]. by rewrite !Z.add_0_r.
  - rewrite !filter_cons, len_cons.
    destruct (row_state db id) as [[]|] eqn:E; rewrite Hw, IH;
      repeat first [rewrite decide_True by done|rewrite decide_False by done]; rewrite ?len_cons;
      apply pair_eq; (split; [apply pair_eq; split|]); f_equal; lia.
Qed.

(** A set drawn from a list without repetitions has as many elements as the
    list has members of it. *)
Lemma size_subset (s : gset bytes) l :
  NoDup l → s ⊆ list_to_set l → Z.of_nat (size s) = len (filter (λ id, id ∈ s) l).
Proof.
  intros Hn Hs. unfold len. f_equal. rewrite <- (size_list_to_set (C := gset bytes) (filter _ l)) by by apply NoDup_filter.
  f_equal. apply leibniz_equiv. intros x. rewrite elem_of_list_to_set, list_elem_of_filter. set_solver.
Qed.

Lemma filter_len_le {A} (P : A → Prop) `{∀ x, Decision (P x)} (l : list A) : 0 ≤ len (filter P l) ≤ len l.
Proof. unfold len. pose proof (length_filter P l). lia. Qed.
Lemma filter_len_0 {A} (P : A → Prop) `{∀ x, Decision (P x)} (l : list A) :
  len (filter P l) = 0 ↔ ∀ x, x ∈ l → ¬ P x.
Proof.
  split.
  - intros H0 x Hx Hp. assert (Hf : x ∈ filter P l) by by apply list_elem_of_filter.
    destruct (filter P l) as [|y l']; [by apply not_elem_of_nil in Hf|]. rewrite len_cons in H0.
    pose proof (len_nonneg l'). lia.
  - intros Ha. destruct (filter P l) as [|y l'] eqn:E; [done|].
    assert (Hy : y ∈ filter P l) by (rewrite E; apply list_elem_of_here).
    apply list_elem_of_filter in Hy as [Hp Hy]. by destruct (Ha y Hy).
Qed.

(** The verdict in terms of what the tracker holds. *)
Lemma verdict_of_fields t db now :
  tracker_wf t → NoDup (tk_sent t) → len (tk_sent t) < 2 ^ 31 →
  (assert_invariants t (finish_metrics db now t) = Ok tt)
  ↔ tk_foreign t = [] ∧ tk_duplicates t = 0
    ∧ (∀ id, id ∈ tk_sent t →
         (id ∈ tk_received t ∧ row_state db id = Some Acknowledged)
         ∨ ((id ∉ tk_received t) ∧ row_state db id = Some Failed)).
Proof.
  intros (Hs & Hr & Hd) Hn Hl. rewrite Hs in Hr. pose proof (size_subset (tk_received t) (tk_sent t) Hn Hr) as Hrec.
  unfold finish_metrics, poll_states. rewrite (poll_loop_counts db (tk_sent t) 0 0 0 : poll_loop db _ (0, 0, 0) = _), Hrec. cbv zeta iota. unfold assert_invariants.
  cbn [mt_false_negatives mt_received mt_failed mt_acknowledged mt_sent]. rewrite !Z.add_0_l.
  pose proof (filter_len_le (λ id, id ∈ tk_received t) (tk_sent t)) as HR.
  pose proof (filter_len_le (λ id, row_state db id = Some Failed) (tk_sent t)) as HF.
  pose proof (filter_len_le (λ id, row_state db id = Some Acknowledged) (tk_sent t)) as HA.
  pose proof (filter_len_le (false_negative db t) (tk_sent t)) as HN.
  set (RL := filter (λ id, id ∈ tk_received t) (tk_sent t)) in *.
  set (FL := filter (λ id, row_state db id = Some Failed) (tk_sent t)) in *.
  set (AL := filter (λ id, row_state db id = Some Acknowledged) (tk_sent t)) in *.
  assert (Hm : ∀ n, 0 ≤ n < 2 ^ 32 → wrap32 n = n) by (intros n; apply Z.mod_small).
  rewrite (Hm (len (tk_sent t))), (Hm (len RL)), (Hm (len AL)), (Hm (len FL)), (Hm (len RL + len FL)), (Hm (len AL + len FL)),
    (Hm (len (filter (false_negative db t) (tk_sent t)))) by lia.
  pose proof (filter_len_0 (false_negative db t) (tk_sent t)) as HN0.
  pose proof (partition_count (λ id, row_state db id = Some Acknowledged) (λ id, row_state db id = Some Failed) (tk_sent t)
    ltac:(cbn; intros x _ H1 H2; congruence)) as HAF. fold AL FL in HAF.
  destruct (bool_decide (tk_foreign t = [])) eqn:Ef; cbn [negb].
  2:{ apply bool_decide_eq_false in Ef. by split; [|intros []]. }
  apply bool_decide_eq_true in Ef. destruct (Z.gtb_spec (tk_duplicates t) 0); [split; [done|lia]|].
  destruct (Z.gtb_spec (len (filter (false_negative db t) (tk_sent t))) 0) as [Hfn|Hfn].
  { split; [done|]. intros (_ & _ & Ha). exfalso. enough (len (filter (false_negative db t) (tk_sent t)) = 0) by lia.
    apply HN0. intros x Hx [H1 H2]. destruct (Ha x Hx) as [[_ Hb]|[Hb _]]; [congruence|done]. }
  assert (Hno : ∀ x, x ∈ tk_sent t → x ∈ tk_received t → row_state db x ≠ Some Failed).
  { intros x Hx H1 H2. by apply (proj1 HN0 ltac:(lia) x Hx). }
  pose proof (partition_count (λ id, id ∈ tk_received t) (λ id, row_state db id = Some Failed) (tk_sent t) Hno) as HRF.
  fold RL FL in HRF.
  destruct (Z.eqb_spec (len RL + len FL) (len (tk_sent t))) as [E1|E1]; cbn [negb].
  2:{ split; [done|]. intros (_ & _ & Ha). exfalso. apply E1, HRF. intros x Hx. destruct (Ha x Hx) as [[]|[]]; auto. }
  destruct (Z.eqb_spec (len AL + len FL) (len (tk_sent t))) as [E2|E2]; cbn [negb].
  2:{ split; [done|]. intros (_ & _ & Ha). exfalso. apply E2, HAF. intros x Hx. destruct (Ha x Hx) as [[]|[]]; auto. }
  split; [|done]. intros _. split; [done|]. split; [lia|]. intros x Hx.
  destruct (proj1 HRF E1 x Hx) as [H1|H1], (proj1 HAF E2 x Hx) as [H2|H2]; [by left|by destruct (Hno x Hx)|congruence|].
  right. split; [|done]. intros H3. by destruct (Hno x Hx).
Qed.

(** *** What a scenario notes *)

(** The sends and the arrivals of a scenario in the order they are noted; a
    node's log is read on from where the last look at it ended. *)
Inductive Note := NoSent (id : bytes) | NoArrived (id : bytes).
Fixpoint notes (scanned : gmap bytes nat) (ops : list TrackOp) : list Note :=
  match ops with
  | [] => []
  | TopSent id :: ops => NoSent id :: notes scanned ops
  | TopReceived id :: ops => NoArrived id :: notes scanned ops
  | TopSync name events :: ops =>
      (NoArrived <$> message_ids (drop (default 0%nat (scanned !! name)) events))
      ++ notes (<[name := length events]> scanned) ops
  | _ :: ops => notes scanned ops
  end.
Definition sent_ids (ns : list Note) : list bytes := omap (λ n, match n with NoSent id => Some id | _ => None end) ns.
Definition arrived_ids (ns : list Note) : list bytes := omap (λ n, match n with NoArrived id => Some id | _ => None end) ns.
(** Nothing arrives that was not sent before. *)
Definition none_foreign (ns : list Note) : Prop :=
  ∀ before id after, ns = before ++ NoArrived id :: after → id ∈ sent_ids before.

Lemma sent_ids_snoc ns n : sent_ids (ns ++ [n]) = sent_ids ns ++ match n with NoSent id => [id] | _ => [] end.
Proof. unfold sent_ids. rewrite omap_app. by destruct n. Qed.
Lemma arrived_ids_snoc ns n : arrived_ids (ns ++ [n]) = arrived_ids ns ++ match n with NoArrived id => [id] | _ => [] end.
Proof. unfold arrived_ids. rewrite omap_app. by destruct n. Qed.
Lemma none_foreign_snoc ns n :
  none_foreign (ns ++ [n]) ↔ none_foreign ns ∧ match n with NoArrived id => id ∈ sent_ids ns | _ => True end.
Proof.
  split.
  - intros H. split; [intros l1 id l2 ->; apply (H l1 id (l2 ++ [n])); by rewrite <- app_assoc|].
    destruct n as [id|id]; [done|]. by apply (H ns id []).
  - intros [H1 H2] l1 id l2 E. destruct l2 as [|x l2 _] using rev_ind.
    + apply app_inj_tail in E as [-> ->]. exact H2.
    + rewrite app_comm_cons, app_assoc in E. apply app_inj_tail in E as [-> _]. by apply (H1 l1 id l2).
Qed.

(** The tracker after those notes: what it holds once something foreign came
    is of no interest. *)
Definition tracks (ns : list Note) (t : Tracker) : Prop :=
  tk_sent t = sent_ids ns ∧ (tk_foreign t = [] ↔ none_foreign ns)
  ∧ (none_foreign ns →
       tk_received t = list_to_set (arrived_ids ns)
       ∧ ∃ n, tk_duplicates t = wrap32 n ∧ 0 ≤ n ≤ len (arrived_ids ns) ∧ (n = 0 ↔ NoDup (arrived_ids ns))).

Lemma tracks_sent ns t id : tracks ns t → tracks (ns ++ [NoSent id]) (note_sent id t).
Proof.
  intros (Hs & Hf & Hr). unfold tracks. rewrite sent_ids_snoc, arrived_ids_snoc, none_foreign_snoc, app_nil_r. cbn.
  split; [by rewrite Hs|]. split; [tauto|]. intros [H _]. by apply Hr.
Qed.
Lemma tracks_received ns t id : tracker_wf t → tracks ns t → tracks (ns ++ [NoArrived id]) (note_received id t).
Proof.
  intros (Hw & _) (Hs & Hf & Hr). unfold tracks. rewrite sent_ids_snoc, arrived_ids_snoc, none_foreign_snoc, app_nil_r.
  unfold note_received. destruct (decide (id ∈ tk_sent_set t)) as [Hi|Hi].
  2:{ rewrite bool_decide_false by done. cbn. split; [done|]. rewrite Hw, elem_of_list_to_set, Hs in Hi.
      split; [|by intros []]. split; [by intros [_ ?]%app_nil|by intros []]. }
  rewrite bool_decide_true by done. cbn [negb]. rewrite Hw, elem_of_list_to_set, Hs in Hi.
  assert (Hlen : len (arrived_ids ns ++ [id]) = len (arrived_ids ns) + 1) by (unfold len; rewrite length_app; cbn; lia).
  destruct (bool_decide (id ∈ tk_received t)) eqn:E; cbn [tk_sent tk_foreign tk_received tk_duplicates]; (split; [done|]);
    (split; [tauto|]); intros [Ho _];
    destruct (Hr Ho) as (Hg & n & Hn & Hb & Hd); rewrite Hg in E |- *; rewrite list_to_set_app_L.
  - apply bool_decide_eq_true, elem_of_list_to_set in E. split; [cbn; set_solver|]. exists (n + 1). rewrite Hlen, NoDup_app.
    split; [rewrite Hn; unfold wrap32; by rewrite Zplus_mod_idemp_l|]. split; [lia|]. split; [lia|set_solver].
  - apply bool_decide_eq_false in E. rewrite elem_of_list_to_set in E. split; [cbn; set_solver|]. exists n. rewrite Hlen, NoDup_app.
    split; [done|]. split; [lia|]. rewrite Hd. split; [|by intros []]. intros H. split; [done|].
    split; [by intros x Hx ->%list_elem_of_singleton|apply NoDup_singleton].
Qed.

Lemma tracks_all_received ids ns t :
  tracker_wf t → tracks ns t →
  tracks (ns ++ (NoArrived <$> ids)) (foldl (λ t id, note_received id t) t ids)
  ∧ tk_scanned (foldl (λ t id, note_received id t) t ids) = tk_scanned t.
Proof.
  revert ns t. induction ids as [|id ids IH]; intros ns t Hw Ht; [by rewrite app_nil_r|].
  destruct (IH (ns ++ [NoArrived id]) (note_received id t)) as [H1 H2]; [by apply note_received_wf|by apply tracks_received|].
  cbn [foldl fmap list_fmap]. rewrite <- app_assoc in H1. split; [exact H1|]. rewrite H2. unfold note_received.
  by repeat case_match.
Qed.

Lemma tracks_ops ops ns t :
  tracker_wf t → tracks ns t → tracks (ns ++ notes (tk_scanned t) ops) (foldl track t ops).
Proof.
  revert ns t. induction ops as [|op ops IH]; intros ns t Hw Ht; [by rewrite app_nil_r|].
  pose proof (track_wf t op Hw) as Hw'. cbn [foldl].
  destruct op as [id|id|name events|n|ev|db|k v]; cbn [notes track] in *.
  - rewrite cons_middle, app_assoc. by apply (IH _ (note_sent id t)), tracks_sent.
  - rewrite cons_middle, app_assoc.
    replace (tk_scanned t) with (tk_scanned (note_received id t)) by (unfold note_received; by repeat case_match).
    by apply IH, tracks_received.
  - rewrite app_assoc.
    assert (Hd : drop (default 0%nat (tk_scanned t !! name)) events
                 = drop (Nat.min (default 0%nat (tk_scanned t !! name)) (length events)) events).
    { destruct (Nat.le_gt_cases (default 0%nat (tk_scanned t !! name)) (length events)); [by rewrite Nat.min_l|].
      rewrite Nat.min_r by lia. by rewrite !drop_ge by lia. }
    destruct (tracks_all_received (message_ids (drop (default 0%nat (tk_scanned t !! name)) events)) ns t Hw Ht) as [H1 H2].
    replace (<[name := length events]> (tk_scanned t)) with (tk_scanned (sync_received name events t))
      by (unfold sync_received; cbn; by rewrite <- Hd, H2).
    apply IH; [done|]. unfold sync_received. rewrite <- Hd. exact H1.
  - by apply (IH _ (note_duplicate_drops n t)).
  - by apply (IH _ (note_heal ev t)).
  - replace (tk_scanned t) with (tk_scanned (observe_outbox_age db t))
      by (unfold observe_outbox_age; by destruct (oldest_queued db)).
    apply IH; [done|]. unfold observe_outbox_age. by destruct (oldest_queued db).
  - by apply (IH _ (tracker_extra k v t)).
Qed.

(** C40: The reliability verdict is exact. For a scenario that sends fewer
    than 2^31 distinct messages and sees fewer than 2^32 arrivals, whatever
    is noted and in whatever order, the invariants hold exactly when nothing
    arrived that had not been sent before, nothing arrived twice, and every
    sent message either arrived and is acknowledged in the sender's ledger,
    or did not and is failed there: no silent drop and no dishonest state is
    missed, and no honest run fails. *)
Theorem verdict_exact scenario start ops db now :
  let t := foldl track (tracker_new scenario start) ops in
  let ns := notes ∅ ops in
  NoDup (sent_ids ns) → len (sent_ids ns) < 2 ^ 31 → len (arrived_ids ns) < 2 ^ 32 →
  (assert_invariants t (finish_metrics db now t) = Ok tt)
  ↔ none_foreign ns ∧ NoDup (arrived_ids ns)
    ∧ (∀ id, id ∈ sent_ids ns →
         (id ∈ arrived_ids ns ∧ row_state db id = Some Acknowledged)
         ∨ ((id ∉ arrived_ids ns) ∧ row_state db id = Some Failed)).
Proof.
  intros t ns Hn Hl Ha. pose proof (track_all_wf ops _ (tracker_new_wf scenario start)) as Hw. fold t in Hw.
  assert (Ht : tracks ns t).
  { apply (tracks_ops ops [] (tracker_new scenario start)); [apply tracker_new_wf|].
    split; [done|]. split; [split; [intros _ [|] ? ? ?|]; done|]. intros _. split; [done|]. exists 0. split; [done|]. split; [done|].
    by split; [intros _; apply NoDup_nil_2|]. }
  destruct Ht as (Hs & Hf & Hr). rewrite <- Hs in Hn, Hl |- *. rewrite (verdict_of_fields t db now Hw Hn Hl), Hf.
  split; intros (Ho & Hd & Hall); destruct (Hr Ho) as (Hg & n & Hn' & Hb & Hz); rewrite Hg in *.
  - rewrite Hn' in Hd. unfold wrap32 in Hd. rewrite Z.mod_small in Hd by lia. split; [done|]. split; [by apply Hz|].
    intros id Hid. specialize (Hall id Hid). by rewrite elem_of_list_to_set in Hall.
  - split; [done|]. split; [by rewrite Hn', (proj2 Hz Hd)|]. intros id Hid. rewrite elem_of_list_to_set. by apply Hall.
Qed.

(** ** The log's cursor *)

(** Folding a log again changes nothing. *)
Lemma sync_received_again name events t :
  sync_received name events (sync_received name events t) = sync_received name events t.
Proof.
  unfold sync_received at 1. set (t1 := sync_received name events t).
  assert (Hs : tk_scanned t1 !! name = Some (length events)) by (unfold t1, sync_received; cbn; apply lookup_insert_eq).
  rewrite Hs. cbn [default]. rewrite Nat.min_id, drop_all. cbn [message_ids omap list_omap foldl].
  unfold with_scanned. rewrite insert_id by done. by destruct t1.
Qed.

(** What [sync_received] counts from a log it has not seen is what
    [arrivals_from] counts. *)
Lemma received_arrivals ids t :
  tk_received (foldl (λ t id, note_received id t) t ids)
  = tk_received t ∪ list_to_set (filter (λ id, id ∈ tk_sent_set t) ids).
Proof.
  revert t. induction ids as [|id ids IH]; intros t; [cbn; set_solver|]. cbn [foldl]. rewrite IH, filter_cons.
  assert (Hs : tk_sent_set (note_received id t) = tk_sent_set t) by (unfold note_received; by repeat case_match).
  rewrite Hs. unfold note_received. destruct (decide (id ∈ tk_sent_set t)) as [Hi|Hi].
  - rewrite bool_decide_true by done. cbn [negb]. destruct (decide (id ∈ tk_received t)) as [Hr|Hr].
    + rewrite bool_decide_true by done. cbn. set_solver.
    + rewrite bool_decide_false by done. cbn. set_solver.
  - by rewrite bool_decide_false by done.
Qed.
Lemma sync_arrivals name events t :
  tk_scanned t !! name = None → tk_received t = ∅ →
  size (tk_received (sync_received name events t)) = arrivals_from events t.
Proof.
  intros Hs Hr. unfold sync_received, arrivals_from. rewrite Hs. cbn [default Nat.min drop with_scanned tk_received].
  rewrite received_arrivals, Hr. f_equal. set_solver.
Qed.

(** The cursor of a log that was cleared is not reset: an event that comes
    after the clearing is skipped while the new log is not longer than the
    old one. *)
Example demo_cleared_log :
  let t := note_sent [zb 1] (tracker_new [] 0) in
  let t := sync_received (str_bytes "b") [EvPeerPrefs "r"] t in
  let t := sync_received (str_bytes "b") [EvMessage "r" [zb 1]] t in
  all_received t = false ∧ arrivals_from [EvMessage "r" [zb 1]] t = 1%nat.
Proof. split; vm_compute; reflexivity. Qed.

(** ** The nodes *)

Section NodeFacts.
Context {Net Rng : Type} `{crypto : !PairingCrypto Rng} `{hosting : !Hosting Net} {codecs : ImageCodecs}.
Context (nfc : bytes → bytes).
Context (kill_switch online : Net → bool).
Context (sender_send : Net → string → bytes → Net * result TransportError unit).
Context (private_ok public_ok : bytes → bool).
Context (verify_pack : bytes → bytes → bytes → bool).
Context (sign_pack : bytes → bytes → bytes → bytes).
Context (note_drain : Net → Net).

Local Abbreviation RelNode := (@RelNode Net Rng).
Local Notation "'driven' f" :=
  (f nfc kill_switch online sender_send private_ok public_ok verify_pack sign_pack note_drain) (at level 10, only parsing).

Definition node_wf (n : RelNode) : Prop := engine_wf (rn_engine n).

Lemma node_call_wf {A} (events : A → list EngineEvent) m (n : RelNode) :
  (∀ e, engine_wf e → engine_wf (m e).1) → node_wf n → node_wf (node_call events m n).
Proof. intros Hm Hn. specialize (Hm _ Hn). unfold node_call. by destruct (m _). Qed.
Lemma node_dispatch_wf rel pt (n : RelNode) :
  node_wf n → node_wf (node_dispatch nfc kill_switch online sender_send private_ok public_ok verify_pack sign_pack rel pt n).
Proof. apply node_call_wf. intros e. apply (handled_wf rel), handle_plaintext_handled. Qed.
Lemma node_ingest_wf now d (n : RelNode) : node_wf n → node_wf (driven node_ingest now d n).
Proof.
  intros Hn. unfold node_ingest. set (n1 := count_drop d n).
  pose proof (runs_ingest_frame (id_service_id d) (of_intro (id_frame d)) (of_frame (id_frame d)) now (rn_engine n1)) as Hi.
  destruct (ingest_frame _ _ _ _ _) as [e r]. apply evolves_wf in Hi; [|exact Hn]. cbn [fst] in Hi.
  assert (H : ∀ n', node_wf n' → node_wf (drain_noted note_drain n')) by by intros n' [].
  apply H. destruct r as [[]|]; try exact Hi; by apply node_dispatch_wf.
Qed.
Lemma pump_one_wf now (n : RelNode) : node_wf n → node_wf (driven pump_one now n).
Proof.
  intros Hn. unfold pump_one.
  assert (Hp : ∀ items n', node_wf n' → node_wf (driven pump_drops now items n')).
  { induction items as [|[d|k] items IH]; intros n' Hn'; [done|by apply IH, node_ingest_wf|by apply IH]. }
  apply Hp. apply (node_call_wf id (sweep remove_service)); [apply sweep_wf|].
  apply node_call_wf; [intros e; apply evolves_wf, runs_drain_outbox|]. by apply at_time_wf.
Qed.

(** Whatever arrives in whatever rounds, and however the wait ends, every
    node's engine stays well formed. *)
Lemma run_until_wf rounds pred nodes :
  Forall node_wf nodes → Forall node_wf (driven run_until rounds pred nodes).1.
Proof.
  revert nodes. induction rounds as [|rd rounds IH]; intros nodes Hn; [done|]. cbn [run_until].
  assert (Hp : Forall node_wf (driven pump_round rd nodes)).
  { unfold pump_round. apply Forall_fmap, Forall_zip_with_fst with (P := node_wf); [done|].
    apply Forall_forall. intros items _ n Hw. by apply pump_one_wf. }
  destruct (pred _); [done|]. destruct (rd_late rd); [done|by apply IH].
Qed.

Lemma expect_wf {A} (m : @M SignalTables Net Rng A) (n n' : RelNode) a :
  (∀ e, engine_wf e → engine_wf (m e).1) → node_wf n → expect m n = Some (n', a) → node_wf n'.
Proof.
  intros Hm Hn. specialize (Hm _ Hn). unfold expect. destruct (m _) as [e [x|x]]; [|done]. by intros [= <- <-].
Qed.
Lemma run_until_done rounds pred nodes nodes' :
  driven run_until rounds pred nodes = (nodes', ReDone) → pred nodes' = true.
Proof.
  revert nodes. induction rounds as [|rd rounds IH]; intros nodes; cbn [run_until]; [done|].
  destruct (pred (driven pump_round rd nodes)) eqn:Hp; [by intros [= <-]|]. destruct (rd_late rd); [done|apply IH].
Qed.
Lemma run_two_done rounds pred (a b a' b' : RelNode) :
  node_wf a → node_wf b → driven run_two rounds pred a b = Some (a', b') →
  node_wf a' ∧ node_wf b' ∧ pred a' b' = true.
Proof.
  intros Ha Hb. unfold run_two. set (p := λ ns, match ns with [a; b] => pred a b | _ => false end).
  pose proof (run_until_wf rounds p [a; b]) as H. pose proof (run_until_done rounds p [a; b]) as Hd.
  destruct (driven run_until rounds p [a; b]) as [ns end_]. cbn [fst] in H.
  destruct ns as [|x [|y [|]]], end_; try done. intros [= <- <-]. specialize (Hd _ eq_refl).
  rewrite !Forall_cons in H. destruct H as (? & ? & _); [by rewrite Forall_nil|done].
Qed.

(** Two nodes that pair leave with well-formed engines, both active under
    the relationship they share. *)
Lemma pair_nodes_active now before after (a b a' b' : RelNode) rel_id :
  node_wf a → node_wf b → driven pair_nodes now before after a b = Some (a', b', rel_id) →
  node_wf a' ∧ node_wf b'
  ∧ rel_state_of a' rel_id = Some STATE_ACTIVE ∧ rel_state_of b' rel_id = Some STATE_ACTIVE.
Proof.
  intros Ha Hb. unfold pair_nodes.
  destruct (expect (offer now) _) as [[a1 o]|] eqn:E1; [|done]. cbn [base.mbind option_bind].
  apply expect_wf in E1; [|intros e; apply evolves_wf, runs_offer|by apply at_time_wf].
  destruct (expect (accept _ _) _) as [[b1 acc]|] eqn:E2; [|done]. cbn [base.mbind option_bind].
  apply expect_wf in E2; [|intros e; apply evolves_wf, runs_accept|by apply at_time_wf].
  destruct (expect (send_text _ _ _ _ _ _ _ _ _ _ _) _) as [[b2 u]|] eqn:E3; [|done]. cbn [base.mbind option_bind].
  apply expect_wf in E3; [|intros e; apply evolves_wf, runs_send_text|done].
  destruct (driven run_two before _ a1 b2) as [[a3 b3]|] eqn:E4; [|done]. cbn [base.mbind option_bind].
  apply run_two_done in E4 as (Ha3 & Hb3 & _); [|done..].
  destruct (expect (engine_accept_request _ _ _ _ _) a3) as [[a4 u']|] eqn:E5; [|done]. cbn [base.mbind option_bind].
  apply expect_wf in E5; [|intros e; apply evolves_wf, runs_engine_accept|done].
  destruct (driven run_two after _ a4 b3) as [[a5 b5]|] eqn:E6; [|done]. cbn [base.mbind option_bind].
  apply run_two_done in E6 as (Ha5 & Hb5 & Hp); [|done..]. apply andb_true_iff in Hp as [H1 H2].
  apply bool_decide_eq_true in H1, H2. by intros [= <- <- <-].
Qed.
End NodeFacts.

(** A drop that carries a text's record carries the tag, if it is that
    text. *)
Lemma text_record_tag tag : len tag ≤ 250 → utf8_ok tag = true → carries_tag (text_record tag) tag = true.
Proof.
  intros Hl Hu. pose proof (len_nonneg tag). destruct (text_record_carries tag) as [Hlen _].
  unfold carries_tag. rewrite Hlen. unfold text_record in *. rewrite Z.min_l by lia.
  assert (Ht : take (Z.to_nat (len tag)) tag = tag) by (unfold len; rewrite Nat2Z.id; by rewrite take_ge).
  rewrite Ht.
  set (pad := replicate _ (zb 0)).
  change (drop 1 ([zb VERSION_V2] ++ be_bytes 2 (len tag) ++ tag ++ pad)) with (be_bytes 2 (len tag) ++ tag ++ pad).
  rewrite take_app_length' by by rewrite length_be_bytes. rewrite be_val_bytes_small by (cbn; lia). cbn [andb].
  change (drop 3 ([zb VERSION_V2] ++ be_bytes 2 (len tag) ++ tag ++ pad)) with (drop 2 (be_bytes 2 (len tag) ++ tag ++ pad)).
  rewrite drop_app_length' by by rewrite length_be_bytes.
  rewrite take_app_length' by (unfold len; lia). rewrite Hu, bool_decide_true by done.
  by rewrite (proj2 (Z.leb_le (3 + len tag) 256)) by lia.
Qed.

(** ** Witnesses *)

(** Two messages: the first arrives and is acknowledged, the second fails. *)
Definition demo_ledger : Db :=
  let row id s := mkMessageRow id "r" DirOut 1 0 None 1 None [] s None 0 false false None 0 0 in
  set_messages demo_seq_db {[ [zb 1] := row [zb 1] Acknowledged; [zb 2] := row [zb 2] Failed ]}.
Definition demo_ops : list TrackOp :=
  [TopSent [zb 1]; TopSent [zb 2]; TopSync (str_bytes "b") [EvMessage "r" [zb 1]]; TopDupDrops 3].
Lemma verdict_exact_witness :
  let t := foldl track (tracker_new [] 0) demo_ops in
  assert_invariants t (finish_metrics demo_ledger 5 t) = Ok tt.
Proof.
  apply (verdict_exact [] 0 demo_ops demo_ledger 5).
  - cbn. repeat (apply NoDup_cons; split; [set_solver|]). apply NoDup_nil_2.
  - reflexivity.
  - reflexivity.
  - split; [|split].
    + intros l1 id l2 E. destruct l1 as [|? [|? [|? [|? l1]]]]; cbn in E; try discriminate E.
      injection E as <- <- <- <-. cbn. set_solver.
    + cbn. apply NoDup_singleton.
    + cbn. intros id [->|[->|[]%not_elem_of_nil]%elem_of_cons]%elem_of_cons.
      * left. split; [set_solver|reflexivity].
      * right. split; [set_solver|reflexivity].
Defined.
