(* ===== verification/TransportHosting.v ===== *)
(** The transport as the hosting interface of the pairing flow: the class
    [Hosting] discharged by the operations of [Transport]. *)

From S2P Require Import Prelude Bin RustStr Frame OnionKeys TransportTypes Transport TransportFacts EngineTypes Pairing.

(** What the calls draw from outside: the clock, and for each host call the
    port the listener is bound to (or the failure) and the randomness of a key. *)
Record HostNet (Tor : Type) := mkHostNet {
  hn_transport : Transport Tor;
  hn_now : Z;
  hn_draws : list (result TransportError bytes * bytes);
}.
Arguments mkHostNet {Tor}.
Arguments hn_transport {Tor}.
Arguments hn_now {Tor}.
Arguments hn_draws {Tor}.

Section Hosting.
Context {Tor : Type} `{!ControlPort Tor, !TorDaemon Tor}.
Context (io_error : bytes → option Detail) (data_dir : bytes).
Context {oc : OnionCrypto} {oc_laws : OnionCryptoLaws}.

Definition no_draw : result TransportError bytes * bytes := (Err (TrIo (Lit "bind")), []).

#[local] Instance transport_hosting : Hosting (HostNet Tor) := {|
  Pairing.host_service_with_auth net service_id auth :=
    let '(bind, seed) := default no_draw (head (hn_draws net)) in
    let '(t, r) := Transport.host_service_with_auth io_error data_dir (hn_now net)
                     bind seed (str_bytes service_id) (str_bytes <$> auth) (hn_transport net) in
    (mkHostNet t (hn_now net) (tail (hn_draws net)), let* onion := r in Ok (bytes_str onion));
  Pairing.remove_service net service_id :=
    let '(t, r) := Transport.remove_service (hn_now net) (str_bytes service_id) (hn_transport net) in
    (mkHostNet t (hn_now net) (hn_draws net), r);
  Pairing.install_client_auth net peer_onion private_b32 :=
    let '(t, r) := Transport.install_client_auth io_error data_dir (hn_now net) (str_bytes peer_onion)
                     (str_bytes private_b32) (hn_transport net) in
    (mkHostNet t (hn_now net) (hn_draws net), r);
|}.

(** The address the pairing flow stored is the address the service has when
    it is hosted again, from the same directory. *)
Lemma hosting_address_stable net service_id auth net1 onion net2 auth' port seed draws :
  Pairing.host_service_with_auth net service_id auth = (net1, Ok onion) →
  tr_files (hn_transport net2) !! key_path data_dir (str_bytes service_id)
    = tr_files (hn_transport net1) !! key_path data_dir (str_bytes service_id) →
  hn_draws net2 = (Ok port, seed) :: draws →
  snd (Pairing.host_service_with_auth net2 service_id auth') = Ok onion.
Proof.
  intros H Hf Hd. unfold Pairing.host_service_with_auth, transport_hosting in *. rewrite Hd. cbn [head default from_option id].
  destruct (default no_draw (head (hn_draws net))) as [bind seed0].
  destruct (Transport.host_service_with_auth _ _ _ bind _ _ _ _) as [t1 [o|]] eqn:E1; [|done].
  apply pair_equal_spec in H as [<- [= <-]]. cbn [hn_transport] in Hf.
  pose proof (host_same_address io_error data_dir _ _ _ _ _ _ _ _ (hn_now net2) port
                seed (str_bytes <$> auth') (hn_transport net2) E1 Hf) as H2.
  destruct (Transport.host_service_with_auth io_error data_dir (hn_now net2) (Ok port)
              seed (str_bytes service_id) (str_bytes <$> auth') (hn_transport net2)) as [t2 r2].
  cbn [snd] in H2 |- *. by rewrite H2.
Qed.
End Hosting.
